(* ===== verification/_CoqProject ===== *)
-Q . S2P
Prelude.v
Database.v
History.v
Frontier.v
Event.v
Device.v
Merge.v
Replica.v
Bundle.v
Snapshot.v
Keys.v
KeyStore.v
Transport.v
Gc.v
Directory.v
Equalize.v
Roster.v
Engine.v
EngineSafety.v
Repository.v
Rotate.v
Delivery.v
Text.v
Advanced.v
Importers.v
Migrate.v
Utf8.v
Rclone.v
RcloneSpec.v
Staged.v
HelpParse.v
HelpCache.v
HelpCacheSpec.v
Warmup.v
Config.v
ConfigWrite.v
ConfigWriteSpec.v
Picker.v
PickerSpec.v
LocalFS.v
RcloneBrowser.v
Keyring.v
App.v
AppSafety.v
Cache.v
CacheSpec.v
Service.v
ServiceSpec.v
Search.v
Redact.v
Terminal.v
Queues.v
Wire.v
Overlay.v
Menus.v
Inspect.v
InspectSpec.v
InspectApp.v
MenusSpec.v
Daemon.v
DaemonSpec.v
Concrete.v
Witnesses.v
WitnessesApp.v
WitnessesStore.v
WitnessesUi.v
WitnessesMenus.v
WitnessesRemote.v
WitnessesConfig.v
WitnessesInspect.v
Findings.v
