(* ===== verification/Prelude.v ===== *)
(** * Verification of remnix: replicated shell history

    remnix records the commands of a shell in a local SQLite database, and
    synchronizes the history of several devices through dumb object stores (a
    directory, rclone, rsync, scp) that only ever see encrypted data. This
    library models the part of the program that decides what is stored,
    exchanged, merged, encrypted and deleted, and proves what that part
    promises. The code is under [src/internal]; definitions keep the names of
    the Go functions (a trailing [_], or a prefix, where Rocq or a sibling
    already uses the name), and what is below is by file.

    ** The program's parts and their models

    - [Prelude]: errors, the state-and-error monad [M S A] (a Go function over
      mutable state that returns a value or an error, and leaves the writes
      made before the error), 64-bit wrap-around, the Go string, path, time
      and [strconv] functions the code calls, table queries, the class of
      serializers, sorting; the tactic [mono_solve] and the hint database
      [remnix] prove that an operation moves the state along a preorder.
    - [Database]: the tables of [internal/db/migrations] as a record of finite
      maps ([DB]); every component below reads and writes it.
    - [History]: [internal/history] ([store.go], [intern.go], [hash.go]).
    - [Frontier], [Event], [Device], [Merge]: version vectors, the event log,
      the device table and the application of events
      ([internal/sync/merge], [internal/sync/event], [internal/device], and
      the change sets of [internal/history/changes.go]).
    - [Replica]: the abstract specification of merging, a two-phase set, and
      the simulation between it and the tables.
    - [Bundle], [Snapshot]: sealed event bundles and history snapshots
      ([internal/crypto/envelope], [internal/sync/bundle],
      [internal/sync/checkpoint]).
    - [Keys], [KeyStore]: unlock slots, signed generation manifests, the key
      tables, the rotation journal and the operations on a generation
      ([internal/crypto/slots], [generations], [recovery], [fido2], [keys],
      [rotation]).
    - [Transport]: the transport interface, its helpers and error mapping
      ([internal/transport]); the class [ObjectStore] states what the clients
      rely on. [Directory] models [internal/transport/directory] and is an
      instance of it; the theorems of the clients are proved against the class.
      [Rclone], [RcloneSpec]: the transport over an rclone backend
      ([internal/transport/rclone/remote.go]), with the library as the class
      [Rclone.Rclone] and its documented behaviour as [RcloneLaws];
      [RcloneBrowser]: its folders for the folder browser ([browser.go]).
      [Staged]: the scp and rsync transports, over a pulled working copy.
    - [Gc]: acknowledgements and remote garbage collection
      ([internal/sync/ack], [internal/sync/gc]). [Equalize]: mirroring of
      endpoints ([internal/sync/equalize]). [Repository]: the probe of
      [internal/repository].
    - [Roster], [Engine], [Rotate]: the synchronization engine
      [internal/sync/syncer] ([manifest.go], [recover.go], [engine.go],
      [checkpoint.go], [tombstone.go], [init.go], [rotate.go]). Its state [ES]
      is the database, the transport's state, the change set of the last run
      and the cache of unlocked keys. A Go method of [Engine] is an [M (ES S)]
      computation, composed as in the source: [Sync] pulls metadata, unlocks,
      pulls the checkpoint and the bundles, publishes local events, the
      acknowledgement and the device head.
    - [EngineSafety]: the invariants of the engine. [Delivery]: what a
      publication uploads and a pull applies.
    - [Migrate]: the migrations of [internal/db] and their two hooks, from the
      first schema to the tables of [Database].
    - [Text], [Utf8]: Go's [strings], [os.Expand] and rune decoding. [Config],
      [Keyring]: [internal/config] and [internal/crypto/keyring]. [ConfigWrite],
      [ConfigWriteSpec]: loading and saving, the configuration written back into
      the user's YAML document ([config/write.go]).
    - [App], [AppSafety]: [internal/app], the engine run over the configured
      endpoints under a lock, garbage collection, checkpoints and rotation.
    - [Cache], [CacheSpec]: the interned cache of [internal/history/cache.go]
      and its refinement to a finite map. [Service], [ServiceSpec]:
      [service.go], [ignore.go] and [skip.go] over the tables and the cache.
      [Advanced]: statistics, summaries and the inspector's filter
      ([advanced.go]). [Importers]: [internal/importers].
    - [HelpParse]: commands and flags recovered from help texts, summaries, and
      the choice among probed texts ([internal/helpparse]). [HelpCache],
      [HelpCacheSpec]: the cache of a session with the workers that fill a menu
      ([helpparse/cache.go]) and the tables of [internal/suggestcache/store.go];
      the class [Durable] is the interface between them. [Warmup]: the walk over
      the commands of a program that fills the tables in the background, its
      workers, its status file and the queue of programs ([warmup.go], [job.go]).
    - [Search], [Redact]: [internal/search] and [internal/redact].
    - [Terminal], [Queues], [Wire]: the key decoder, mode stripper and query
      scanner, the input and parse queues, and the frames and NUL fields of
      the sockets ([internal/terminal], [internal/protocol],
      [internal/agent/protocol.go]).
    - [Daemon], [DaemonSpec]: [internal/daemon], the scheduler, the request
      dispatcher and the NUL protocol over the service and the application.
    - [Overlay], [Menus], [MenusSpec]: the popups of the shell widgets, the
      history search and the completion menu ([internal/tui/tui.go],
      [suggest.go], [suggest_cache.go], [overlay.go], [remote.go]), their place
      on the screen and the captured screen ([internal/ptyproxy]); the class
      [Overlay.Terminal] is what they rely on of a terminal.
    - [Inspect], [InspectSpec], [InspectApp]: the history inspector
      ([internal/tui/inspect.go], [inspect_advanced.go], [inspect_charts.go]) as
      a state machine over keys, and its callbacks over the local database
      ([runInspect] of [cmd/remnix/run_local.go]).
    - [Picker], [PickerSpec], [LocalFS]: the folder browser of the wizard
      ([internal/tui/picker]) as a state machine over messages, against the
      class [BrowserFS], and its instance over local files with links.
    - [Concrete]: executable instances of the parameters, with proofs of their
      laws. [Witnesses], [WitnessesApp], [WitnessesStore], [WitnessesUi],
      [WitnessesMenus], [WitnessesRemote], [WitnessesConfig],
      [WitnessesInspect]: the theorems at concrete inputs, and a run of two
      devices against a directory.
      [Findings]: behaviours that surprise, each shown by one run.

    ** What the theorems show

    - Replication: merging implements a two-phase set and converges whatever
      the order and the repetitions of the events ([Replica]); heads only move
      over applied events ([Merge]); events survive the compaction of the log
      ([Event]); applying is idempotent, and no run of [Sync], interrupted
      anywhere and against any transport, lowers a head or a trusted counter or
      breaks the tables ([EngineSafety]); a publication uploads exactly the
      unpublished events, and a pull applies every listed bundle ([Delivery]).
      The same holds for a synchronization over several endpoints, and garbage
      collection over them removes only what was planned ([AppSafety]).
    - Formats: bundles, snapshots and snapshot files ([Bundle], [Snapshot]),
      frames, replies and session headers ([Wire]), stored keys ([Keyring]) and
      the history files of other shells ([Importers]) round-trip; migrating
      keeps every entry and event and is atomic step by step ([Migrate]).
    - Keys: removal never leaves a generation locked out, recovery rotation
      replaces exactly the recovery slot, new generations unlock ([KeyStore]);
      key tables keep their integrity under every sequence of operations; a
      rotation commits on both sides or on neither, and a retry resumes the
      journaled generation, on one endpoint and on all ([Rotate], [AppSafety]).
    - Remote state: rollback of the manifest is refused, published rosters are
      consistent ([EngineSafety], [Roster]); a repository that exists is not
      initialized over ([Rotate]); plans of the garbage collector only contain
      what was acknowledged, and executing one removes nothing else ([Gc]);
      mirroring overwrites nothing that was listed ([Equalize]); writes to the
      directory transport are atomic ([Directory]); over an rclone backend any
      call of which may fail, a write touches its key only and tears nothing
      where the backend renames, the removal of duplicates never loses the
      newest copy, and the recursions end at the depth of the directories
      ([RcloneSpec]); a session of the scp and rsync transports publishes the
      working copy and removes nothing ([Staged]).
    - History: insertion, unique listing and prefix search behave as specified
      ([History]); the inspector's SQL agrees with its filter in memory, and
      where it does not is said ([Advanced]); the cache implements its
      specification, and after every write and request it is in step with the
      table ([CacheSpec], [ServiceSpec], [DaemonSpec]).
    - Suggestions and terminal: spans are shortest and suggestions ranked
      ([Search]); labelled secrets do not survive redaction ([Redact]); the
      filters do not depend on how the stream is cut ([Terminal]); the queues
      lose nothing within their budgets and barriers are reached ([Queues]);
      the scheduler's pauses are bounded ([DaemonSpec]).
    - Help texts: what is parsed is well formed ([HelpParse]), pages survive the
      tables, a program is run at most once and only with safe words, and a menu
      is filled alike in every schedule of the workers ([HelpCacheSpec]); a
      warm-up covers exactly the command tree, ends when its depth is limited,
      and serves every program it accepted ([Warmup]).
    - Popups: the completion menu shows exactly the completions of what is
      typed, whatever was fetched and cached before; the search shows the
      ranking of what is left, selects and deletes what is highlighted
      ([MenusSpec]); what a popup covered comes back ([Overlay]).
    - Inspector: no key makes it panic, its cursors and checked commands are
      rows that are shown, nothing is deleted but what is checked, and the rows
      are the loaded commands that match, in order ([InspectSpec]); deletions
      reach exactly these rows of the database ([InspectApp]).
    - Configuration: saving writes every value of the configuration and
      otherwise defaults, keeps the comments of the user's file, and rclone's
      credentials are moved once and never lost ([ConfigWriteSpec]).
    - Folder browser: nothing is deleted that was not highlighted, deletable and
      confirmed, a damaged repository is never selected, no key makes it panic
      ([PickerSpec]), and a recursive deletion removes exactly the tree
      ([LocalFS]).

    ** Modelling choices

    Integers are [Z], wrapped to 64 bits where the code adds ([wrap64]). Times
    are nanoseconds since the epoch; the database keeps milliseconds. The clock,
    uuids, nonces and keys a function draws are arguments. Iteration over a Go
    map is over a fixed enumeration (that the choice of a checkpoint does not
    depend on the listing order is proved in [Gc]). Error texts are abbreviated: the code only
    inspects the sentinel errors, which are constructors. SQLite I/O failures
    are not modelled; constraint violations are. The loops of the code are
    structural recursions, except [AdvanceContiguous], whose fuel is one more
    than the number of logged events: each iteration consumes one of them,
    and [Merge] proves that it is enough; the recursions over the directories of
    an rclone remote, whose fuel is their depth ([RcloneSpec]); the loops over a connection, whose
    fuel is one more than the bytes left, since each round reads one; and the
    scans of a text, whose fuel is its length.

    Code outside [src] is a parameter: JSON and CBOR ([Codec] with the
    round-trip law [CodecLaws] on valid values), XChaCha20-Poly1305 ([Aead]),
    HKDF and HMAC ([Mac]), SHA-256, gzip, YAML, authenticators and tokens (records of
    functions). [Concrete] instantiates each of them.

    ** Not modelled

    Terminal emulation, sessions and the drawing of rows, shell
    hooks (generated shell code), setup, doctor and the command line; the
    configuration of rclone and the fault injection of tests ([fault.go]);
    hardware access (HID, PIV); the older agent and the client library. Of
    [rotation.go], [RotateMasterKey] is not modelled. Failures of the file
    system while the configuration is written are not modelled.

    The natural extensions, in this order: the agent and the client. *)


From stdpp Require Export base gmap strings list pretty.
From stdpp Require Import sorting.
From Stdlib Require Export ZArith Lia Sorted.
From Stdlib Require Import Ascii.
From Stdlib Require String OrdersEx.
From Stdlib.Strings Require Export Byte.

#[global] Open Scope Z_scope.

(** * Go values *)

(** A [[]byte] value. *)
Abbreviation bytes := (list Byte.byte).

#[global] Instance byte_eq_dec : EqDecision Byte.byte.
Proof. intros x y. destruct (Byte.byte_eq_dec x y); [by left | by right]. Defined.

(** Errors as Go values: sentinel errors, [fmt.Errorf("...%w", err)] wrapping,
    [errors.Join] and plain messages. *)
Inductive error :=
| EMsg (msg : string)
| ENotExist                 (** [os.ErrNotExist] / [fs.ErrNotExist] *)
| EPermission               (** [fs.ErrPermission] *)
| EAuthRequired
| EOffline
| EPermissionDenied
| ERemoteNotFound
| EConflict
| ESyncDisabled
| ECheckpointNotCaughtUp
| ERemoteInitialized
| EWrap (msg : string) (e : error)
| EJoin (e1 e2 : error).

(** The part of [errors.Is] the program relies on: the target is the error
    itself or is reached through [%w] wrapping. *)
Fixpoint errors_Is (p : error -> bool) (e : error) : bool :=
  p e || match e with
         | EWrap _ e' => errors_Is p e'
         | EJoin e1 e2 => errors_Is p e1 || errors_Is p e2
         | _ => false
         end.

Definition is_NotExist (e : error) : bool := match e with ENotExist => true | _ => false end.
Definition is_RemoteNotFound (e : error) : bool :=
  match e with ERemoteNotFound => true | _ => false end.

(** [(T, error)] results. *)
Inductive result (A : Type) :=
| Ok (a : A)
| Fail (e : error).
Arguments Ok {A} a.
Arguments Fail {A} e.

Definition is_Ok {A} (r : result A) : bool := match r with Ok _ => true | Fail _ => false end.

#[global] Instance result_ret : MRet result := @Ok.
#[global] Instance result_bind : MBind result := fun A B f r =>
  match r with Ok a => f a | Fail e => Fail e end.

#[global] Instance result_fmap : FMap result := fun A B f r =>
  match r with Ok a => Ok (f a) | Fail e => Fail e end.

(** * Stateful, fallible code

    [M S A] is a Go function over mutable state [S] that returns [(A, error)].
    The state is returned on the error path too: what was written before the
    error stays written, as in the source. *)
Definition M (S A : Type) : Type := S -> S * result A.

#[global] Instance M_ret {S} : MRet (M S) := fun A a s => (s, Ok a).
#[global] Instance M_bind {S} : MBind (M S) := fun A B f m s =>
  match m s with
  | (s', Ok a) => f a s'
  | (s', Fail e) => (s', Fail e)
  end.

Definition fail {S A} (e : error) : M S A := fun s => (s, Fail e).
Definition get {S} : M S S := fun s => (s, Ok s).
Definition put {S} (s' : S) : M S unit := fun _ => (s', Ok tt).
Definition gets {S A} (f : S -> A) : M S A := fun s => (s, Ok (f s)).
Definition modify {S} (f : S -> S) : M S unit := fun s => (f s, Ok tt).
Definition of_result {S A} (r : result A) : M S A := fun s => (s, r).

(** [x, err := f()] with the error inspected instead of returned. *)
Definition try {S A} (m : M S A) : M S (result A) := fun s =>
  let '(s', r) := m s in (s', Ok r).

(** [_ = f()]: the error is dropped. *)
Definition ignore {S A} (m : M S A) : M S unit := fun s => ((m s).1, Ok tt).

(** [for _, x := range xs { if err := f(x); err != nil { return err } }] *)
Fixpoint for_each {S A} (xs : list A) (f : A -> M S unit) : M S unit :=
  match xs with
  | [] => mret tt
  | x :: xs => _ ← f x; for_each xs f
  end.

(** [for _, x := range xs { y, err := f(x); if err != nil { continue }; out = append(out, y) }]
    and its variants: [f] says whether the element contributes. *)
Fixpoint collect {S A B} (f : A -> M S (option B)) (xs : list A) : M S (list B) :=
  match xs with
  | [] => mret []
  | x :: xs =>
      y ← f x;
      ys ← collect f xs;
      mret (match y with Some y => y :: ys | None => ys end)
  end.

(** [if err != nil { continue }] *)
Definition skip_error {S A} (m : M S A) : M S (option A) :=
  r ← try m;
  mret (match r with Ok a => Some a | Fail _ => None end).

(** Run an operation on a component of a larger state. *)
Definition zoom {S T A} (view : S -> T) (update : T -> S -> S) (m : M T A) : M S A := fun s =>
  let '(t, r) := m (view s) in (update t s, r).

(** A database transaction with [defer tx.Rollback()]: the writes are kept
    only when the body reaches [tx.Commit()]. *)
Definition transaction {S A} (m : M S A) : M S A := fun s =>
  match m s with
  | (s', Ok a) => (s', Ok a)
  | (_, Fail e) => (s, Fail e)
  end.

(** * Assignments to fields

    [r <| f := v |>] is the record [r] with another value in its field [f]. The
    class [Rebuild] says how a record is put together from its fields; a setter
    replaces one of them. *)
Class Rebuild (R : Type) := rebuild : R -> R.
Class Setter {R T : Type} (field : R -> T) := set_field : (T -> T) -> R -> R.
Arguments set_field {R T} field {_} g r /.

Ltac find_setter :=
  match goal with
  | |- @Setter ?R _ ?field =>
      let g := fresh "g" in
      let r := fresh "r" in
      refine (fun g r => _);
      let whole := eval hnf in (rebuild r) in
      match eval pattern (field r) in whole with
      | ?with_field _ => let t := eval cbv beta in (with_field (g (field r))) in exact t
      end
  end.
#[global] Hint Extern 1 (Setter _) => find_setter : typeclass_instances.

Notation "r <| f := v |>" := (set_field f (fun _ => v) r)
  (at level 12, f at next level, left associativity, format "r  <| f  :=  v |>").

(** ** State relations

    [mono R m]: whatever [m] returns, it moves the state along [R]. With a
    preorder [R] this is compositional; invariants are the instance
    [keeps I]. *)
Definition mono {S A} (R : relation S) (m : M S A) : Prop := forall s, R s (m s).1.

Definition keeps {S} (I : S -> Prop) : relation S := fun s s' => I s -> I s'.

#[global] Instance keeps_preorder {S} (I : S -> Prop) : PreOrder (keeps I).
Proof. unfold keeps; split; [by intros ? | intros ?; naive_solver]. Qed.

Section Mono.
Context {S : Type} (R : relation S) `{!PreOrder R}.

Lemma mono_ret {A} (a : A) : mono R (mret a : M S A).
Proof. by intros s. Qed.

Lemma mono_fail {A} e : mono R (fail e : M S A).
Proof. by intros s. Qed.

Lemma mono_of_result {A} (r : result A) : mono R (of_result r : M S A).
Proof. by intros s. Qed.

Lemma mono_gets {A} (f : S -> A) : mono R (gets f).
Proof. by intros s. Qed.

Lemma mono_bind {A B} (m : M S A) (f : A -> M S B) :
  mono R m -> (forall a, mono R (f a)) -> mono R (m ≫= f).
Proof.
  intros Hm Hf s. specialize (Hm s). unfold mbind, M_bind.
  destruct (m s) as [s' [a|e]]; simpl in *; [|done].
  etrans; [exact Hm | apply Hf].
Qed.

Lemma mono_try {A} (m : M S A) : mono R m -> mono R (try m).
Proof. intros Hm s. specialize (Hm s). unfold try. by destruct (m s). Qed.

Lemma mono_ignore {A} (m : M S A) : mono R m -> mono R (ignore m).
Proof. intros Hm s. apply (Hm s). Qed.

Lemma mono_for_each {A} (xs : list A) (f : A -> M S unit) :
  (forall x, x ∈ xs -> mono R (f x)) -> mono R (for_each xs f).
Proof.
  induction xs as [|x xs IH]; intros Hf; simpl; [apply mono_ret|].
  apply mono_bind; [apply Hf; left|]. intros _. apply IH. intros y Hy. apply Hf. by right.
Qed.

Lemma mono_collect {A B} (f : A -> M S (option B)) xs :
  (forall x, x ∈ xs -> mono R (f x)) -> mono R (collect f xs).
Proof.
  induction xs as [|x xs IH]; intros Hf; simpl; [apply mono_ret|].
  apply mono_bind; [apply Hf; left|]. intros y.
  apply mono_bind; [apply IH; intros z Hz; apply Hf; by right|]. intros ys. apply mono_ret.
Qed.

Lemma mono_skip_error {A} (m : M S A) : mono R m -> mono R (skip_error m).
Proof. intros Hm. apply mono_bind; [by apply mono_try|]. intros r. apply mono_ret. Qed.

Lemma mono_transaction {A} (m : M S A) : mono R m -> mono R (transaction m).
Proof.
  intros Hm s. specialize (Hm s). unfold transaction.
  by destruct (m s) as [s' [a|e]].
Qed.

Lemma mono_zoom {T A} (view : S -> T) (update : T -> S -> S) (m : M T A) :
  (forall s, R s (update (m (view s)).1 s)) -> mono R (zoom view update m).
Proof. intros H s. specialize (H s). unfold zoom. by destruct (m (view s)). Qed.

Lemma mono_modify (f : S -> S) : (forall s, R s (f s)) -> mono R (modify f).
Proof. by intros Hf s. Qed.
End Mono.

Create HintDb remnix.
#[export] Hint Resolve mono_ret mono_fail mono_of_result mono_gets mono_bind mono_try
  mono_ignore mono_for_each mono_collect mono_skip_error mono_transaction : remnix.

(** One layer of the [mono] composition lemmas; a [for_each] body, a binder or
    a case split is entered, leaf goals are left to the hint database. *)
Ltac mono_step :=
  match goal with
  | |- mono ?R (mbind _ _) => refine (mono_bind R _ _ _ _); [| intros ?]
  | |- mono ?R (mret _) => exact (mono_ret R _)
  | |- mono ?R (fail _) => exact (mono_fail R _)
  | |- mono ?R (of_result _) => exact (mono_of_result R _)
  | |- mono ?R (gets _) => exact (mono_gets R _)
  | |- mono ?R get => exact (mono_gets R _)
  | |- mono ?R (try _) => refine (mono_try R _ _)
  | |- mono ?R (ignore _) => refine (mono_ignore R _ _)
  | |- mono ?R (transaction _) => refine (mono_transaction R _ _)
  | |- mono ?R (for_each _ _) => refine (mono_for_each R _ _ _); intros ? _
  | |- mono ?R (collect _ _) => refine (mono_collect R _ _ _); intros ? _
  | |- mono ?R (skip_error _) => refine (mono_skip_error R _ _)
  | |- mono _ (match ?x with _ => _ end) => destruct x eqn:?
  | |- mono _ (let '(_, _) := ?x in _) => destruct x eqn:?
  end.
Ltac mono_solve := repeat mono_step; eauto with remnix.

(** Evaluate a monadic run step by step. *)
Lemma bind_run {S A B} (m : M S A) (f : A -> M S B) s :
  (m ≫= f) s = match m s with (s', Ok a) => f a s' | (s', Fail e) => (s', Fail e) end.
Proof. done. Qed.

(** ** Runs that do not fail

    [wp m Q s]: from [s], [m] returns without an error, and [Q] holds of its
    result and of the state it leaves. *)
Definition wp {S A} (m : M S A) (Q : A -> S -> Prop) (s : S) : Prop :=
  match m s with (s', Ok a) => Q a s' | (_, Fail _) => False end.

Lemma wp_ret {S A} (a : A) (Q : A -> S -> Prop) s : Q a s -> wp (mret a) Q s.
Proof. done. Qed.
Lemma wp_bind {S A B} (m : M S A) (f : A -> M S B) Q s : wp m (fun a => wp (f a) Q) s -> wp (m ≫= f) Q s.
Proof. unfold wp. rewrite bind_run. by destruct (m s) as [s' [a|e]]. Qed.
Lemma wp_gets {S A} (f : S -> A) (Q : A -> S -> Prop) s : Q (f s) s -> wp (gets f) Q s.
Proof. done. Qed.
Lemma wp_modify {S} (f : S -> S) (Q : unit -> S -> Prop) s : Q tt (f s) -> wp (modify f) Q s.
Proof. done. Qed.
Lemma wp_mono {S A} (m : M S A) (Q Q' : A -> S -> Prop) s : wp m Q s -> (forall a s', Q a s' -> Q' a s') -> wp m Q' s.
Proof. unfold wp. destruct (m s) as [s' [a|e]]; auto. Qed.
Lemma wp_run {S A} (m : M S A) (Q : A -> S -> Prop) s : wp m Q s <-> exists a s', m s = (s', Ok a) /\ Q a s'.
Proof.
  unfold wp. split; [destruct (m s) as [s' [a|e]]; [by exists a, s'|done]|]. by intros (a & s' & -> & ?).
Qed.
(** A body that only reads. *)
Lemma collect_reads {S A B} (f : A -> M S (option B)) (g : A -> option B) (l : list A) s :
  (forall x, x ∈ l -> f x s = (s, Ok (g x))) -> collect f l s = (s, Ok (omap g l)).
Proof.
  unfold omap. induction l as [|x l IH]; intros Hf; simpl; [done|]. rewrite !bind_run, Hf by by left. rewrite bind_run, IH.
  - simpl. by destruct (g x).
  - intros y Hy. apply Hf. by right.
Qed.

Lemma bind_Ok {S A B} (m : M S A) (f : A -> M S B) s s' a :
  m s = (s', Ok a) -> (m ≫= f) s = f a s'.
Proof. intros H. unfold mbind, M_bind. by rewrite H. Qed.

Lemma bind_Fail {S A B} (m : M S A) (f : A -> M S B) s s' e :
  m s = (s', Fail e) -> (m ≫= f) s = (s', Fail e).
Proof. intros H. unfold mbind, M_bind. by rewrite H. Qed.

Lemma bind_Ok_inv {S A B} (m : M S A) (f : A -> M S B) s s' b :
  (m ≫= f) s = (s', Ok b) -> exists s1 a, m s = (s1, Ok a) /\ f a s1 = (s', Ok b).
Proof.
  unfold mbind, M_bind. destruct (m s) as [s1 [a|e]]; intros H; [eauto | by simplify_eq].
Qed.

Lemma mono_run {S A} (R : relation S) (m : M S A) s s' r : mono R m -> m s = (s', r) -> R s s'.
Proof. intros Hm E. specialize (Hm s). by rewrite E in Hm. Qed.

Lemma collect_inv {S A B} (R : relation S) `{!PreOrder R} (f : A -> M S (option B)) xs s s' ys y :
  (forall x, mono R (f x)) -> collect f xs s = (s', Ok ys) -> y ∈ ys ->
  exists x s1 s2, x ∈ xs /\ R s s1 /\ f x s1 = (s2, Ok (Some y)).
Proof.
  intros Hf. revert s s' ys. induction xs as [|x xs IH]; intros s s' ys Hc Hy; simpl in Hc.
  { injection Hc as <- <-. by apply elem_of_nil in Hy. }
  apply bind_Ok_inv in Hc as (s1 & o & Hx & Hc).
  apply bind_Ok_inv in Hc as (s2 & ys' & Hxs & Hc). injection Hc as <- <-.
  pose proof (mono_run _ _ _ _ _ (Hf x) Hx) as HR.
  assert (y ∈ ys' -> exists x0 s3 s4, x0 ∈ x :: xs /\ R s s3 /\ f x0 s3 = (s4, Ok (Some y))) as Hin.
  { intros Hy'. destruct (IH _ _ _ Hxs Hy') as (x0 & s3 & s4 & ? & ? & ?). exists x0, s3, s4.
    split; [by right|]. split; [by etrans|done]. }
  destruct o as [y0|]; [|auto]. apply elem_of_cons in Hy as [->|Hy]; [|auto].
  exists x, s, s1. split; [left|]. split; [reflexivity|done].
Qed.

Lemma elem_of_concat {A} (x : A) (ls : list (list A)) :
  x ∈ concat ls <-> exists l, l ∈ ls /\ x ∈ l.
Proof.
  rewrite list_elem_of_In, in_concat. setoid_rewrite <- list_elem_of_In. done.
Qed.

Lemma filter_nil_elem {A} (p : A -> bool) (l : list A) x :
  List.filter p l = [] -> x ∈ l -> p x = false.
Proof.
  intros Hf Hx. destruct (p x) eqn:E; [|done]. exfalso.
  assert (In x (List.filter p l)) as Hin by (apply filter_In; by rewrite <- list_elem_of_In).
  by rewrite Hf in Hin.
Qed.

(** * Machine integers *)

(** Two's complement wrap-around of [int64] (Go's [int] is 64 bits wide too). *)
Definition wrap64 (z : Z) : Z := (z + 2^63) `mod` 2^64 - 2^63.
Definition int64 (z : Z) : Prop := - 2^63 <= z < 2^63.
Definition max_int64 : Z := 2^63 - 1.

Lemma wrap64_small z : int64 z -> wrap64 z = z.
Proof. unfold int64, wrap64. intros H. rewrite Z.mod_small; lia. Qed.

Lemma wrap64_range z : int64 (wrap64 z).
Proof. unfold int64, wrap64. pose proof (Z.mod_pos_bound (z + 2^63) (2^64)). lia. Qed.

(** * Strings *)

Definition str_lt (a b : string) : bool := String.ltb a b.
Definition str_empty (s : string) : bool := match s with EmptyString => true | _ => false end.

(** Go compares strings bytewise; [str_lt] is a strict total order. *)
Lemma string_compare_OT a b : String.compare a b = OrdersEx.String_as_OT.compare a b.
Proof.
  by revert b; induction a as [|c a IH]; intros [|d b].
Qed.
Lemma str_lt_spec a b : str_lt a b = true <-> OrdersEx.String_as_OT.lt a b.
Proof.
  unfold str_lt, String.ltb, OrdersEx.String_as_OT.lt. rewrite string_compare_OT.
  by destruct (OrdersEx.String_as_OT.compare a b).
Qed.
Lemma str_lt_irrefl a : str_lt a a = false.
Proof.
  destruct (str_lt a a) eqn:E; [|done]. apply str_lt_spec in E.
  by apply (@irreflexivity _ _ (@StrictOrder_Irreflexive _ _ OrdersEx.String_as_OT.lt_strorder)) in E.
Qed.
Lemma str_lt_trans a b c : str_lt a b = true -> str_lt b c = true -> str_lt a c = true.
Proof.
  rewrite !str_lt_spec.
  apply (@transitivity _ _ (@StrictOrder_Transitive _ _ OrdersEx.String_as_OT.lt_strorder)).
Qed.
Lemma str_lt_total a b : str_lt a b = false -> str_lt b a = false -> a = b.
Proof.
  intros Hab Hba. destruct (OrdersEx.String_as_OT.compare_spec a b) as [?|Hlt|Hlt]; [done|..];
    apply str_lt_spec in Hlt; congruence.
Qed.
Lemma str_lt_asym a b : str_lt a b = true -> str_lt b a = false.
Proof.
  intros Hab. destruct (str_lt b a) eqn:E; [|done].
  by rewrite <- (str_lt_irrefl a), (str_lt_trans a b a).
Qed.

Lemma str_app_assoc (a b c : string) : ((a +:+ b) +:+ c = a +:+ (b +:+ c))%string.
Proof. induction a as [|x a IH]; [done|]. exact (f_equal (String x) IH). Qed.

(** [strings.HasPrefix(s, p)] *)
Fixpoint has_prefix (p s : string) : bool :=
  match p, s with
  | EmptyString, _ => true
  | String c p, String d s => Ascii.eqb c d && has_prefix p s
  | _, _ => false
  end.

Fixpoint str_rev (s acc : string) : string :=
  match s with
  | EmptyString => acc
  | String c s => str_rev s (String c acc)
  end.

(** [strings.HasSuffix(s, p)] *)
Definition has_suffix (p s : string) : bool :=
  has_prefix (str_rev p EmptyString) (str_rev s EmptyString).

(** [strings.Contains(s, p)] *)
Fixpoint contains (p s : string) : bool :=
  has_prefix p s ||
  match s with
  | EmptyString => false
  | String _ s => contains p s
  end.

(** [strings.Split(s, sep)] for a one-byte separator. *)
Fixpoint split_on (sep : ascii) (s : string) : list string :=
  match s with
  | EmptyString => [EmptyString]
  | String c s =>
      if Ascii.eqb c sep then EmptyString :: split_on sep s
      else match split_on sep s with
           | [] => [String c EmptyString]
           | w :: ws => String c w :: ws
           end
  end.

Lemma split_on_ne c s : split_on c s <> [].
Proof. destruct s; simpl; [done|]. case_match; [done|]. by case_match. Qed.

Lemma split_on_app c a b : split_on c (a +:+ String c b) = split_on c a ++ split_on c b.
Proof.
  induction a as [|d a IH]; simpl.
  - rewrite Ascii.eqb_refl. done.
  - destruct (Ascii.eqb d c); simpl; rewrite IH; [done|].
    pose proof (split_on_ne c a). by destruct (split_on c a).
Qed.

(** [strings.Join(parts, sep)] *)
Fixpoint join_with (sep : string) (parts : list string) : string :=
  match parts with
  | [] => EmptyString
  | [p] => p
  | p :: ps => (p +:+ sep +:+ join_with sep ps)%string
  end.

(** [strings.Trim(s, "c")] *)
Fixpoint trim_left (c : ascii) (s : string) : string :=
  match s with
  | String d s' => if Ascii.eqb c d then trim_left c s' else s
  | EmptyString => EmptyString
  end.
Definition trim_right (c : ascii) (s : string) : string :=
  str_rev (trim_left c (str_rev s EmptyString)) EmptyString.
Definition trim_char (c : ascii) (s : string) : string := trim_right c (trim_left c s).

Definition slash : ascii := "/"%char.

(** [path.Clean] on the slash-separated components of a path: the stack is
    kept reversed. *)
Fixpoint clean_parts (rooted : bool) (stack parts : list string) : list string :=
  match parts with
  | [] => reverse stack
  | p :: ps =>
      if str_empty p || String.eqb p "." then clean_parts rooted stack ps
      else if String.eqb p ".." then
        match stack with
        | t :: st => if String.eqb t ".." then clean_parts rooted (".."%string :: stack) ps
                     else clean_parts rooted st ps
        | [] => if rooted then clean_parts rooted [] ps
                else clean_parts rooted [".."%string] ps
        end
      else clean_parts rooted (p :: stack) ps
  end.

Definition path_clean (p : string) : string :=
  if str_empty p then "."%string else
  let rooted := has_prefix "/" p in
  let out := join_with "/" (clean_parts rooted [] (split_on slash p)) in
  if rooted then ("/" +:+ out)%string
  else if str_empty out then "."%string else out.

(** [path.Join(elems...)]: empty elements are dropped, the rest is cleaned. *)
Definition path_join (elems : list string) : string :=
  match filter (fun e => negb (str_empty e)) elems with
  | [] => EmptyString
  | es => path_clean (join_with "/" es)
  end.

(** [path.Base]: trailing slashes removed, last component; ["."] for the empty
    path. *)
Definition path_base (p : string) : string :=
  if str_empty p then "."%string else
  let t := trim_right slash p in
  if str_empty t then "/"%string else default EmptyString (last (split_on slash t)).

(** [path.Dir], and [filepath.Dir] on a system with slashes *)
Definition path_dir (p : string) : string :=
  path_clean match split_on slash p with
             | [] | [_] => EmptyString
             | parts => (join_with "/" (removelast parts) +:+ "/")%string
             end.

(** [strings.CutSuffix(s, suf)] *)
Definition cut_suffix (suf s : string) : option string :=
  if has_suffix suf s then Some (String.substring 0 (String.length s - String.length suf) s)
  else None.

(** * Filtering by a test *)

Lemma sublist_filter_bool {A} (f : A -> bool) (l : list A) : List.filter f l `sublist_of` l.
Proof. induction l as [|a l IH]; cbn; [done|]. destruct (f a); by constructor. Qed.

Lemma filter_fmap {A B} (p : B -> bool) (g : A -> B) (l : list A) : List.filter p (g <$> l) = g <$> List.filter (p ∘ g) l.
Proof. induction l as [|x l IH]; [done|]. rewrite fmap_cons. simpl. destruct (p (g x)); by rewrite IH. Qed.

Lemma filter_both {A} (p q : A -> bool) (l : list A) :
  List.filter p (List.filter q l) = List.filter (fun x => q x && p x) l.
Proof. induction l as [|x l IH]; [done|]. simpl. destruct (q x); simpl; [|done]. destruct (p x); by rewrite IH. Qed.

Lemma filter_snoc {A} (p : A -> bool) l a : List.filter p (l ++ [a]) = List.filter p l ++ (if p a then [a] else []).
Proof. rewrite List.filter_app. simpl. by destruct (p a). Qed.

Lemma NoDup_fmap_inj_elem {A C} (g : A -> C) (l : list A) x y :
  NoDup (g <$> l) -> x ∈ l -> y ∈ l -> g x = g y -> x = y.
Proof.
  intros Hnd [i Hi]%list_elem_of_lookup [j Hj]%list_elem_of_lookup E.
  assert (i = j) as <- by (eapply NoDup_lookup; [exact Hnd|rewrite list_lookup_fmap, Hi; reflexivity|
    by rewrite list_lookup_fmap, Hj, E]).
  congruence.
Qed.

Lemma NoDup_fmap_filter {A C} (g : A -> C) (p : A -> bool) l : NoDup (g <$> l) -> NoDup (g <$> List.filter p l).
Proof.
  induction l as [|a l IH]; [done|]. rewrite fmap_cons, NoDup_cons. intros [Hn Hnd]. simpl.
  destruct (p a); [|auto]. rewrite fmap_cons, NoDup_cons. split; [|auto].
  intros (x & Hx & Hin)%list_elem_of_fmap. apply Hn. rewrite Hx. apply list_elem_of_fmap_2.
  apply list_elem_of_In, filter_In in Hin as [Hin _]. by apply list_elem_of_In.
Qed.

(** * Sorting

    [sort.Slice(xs, less)]; an insertion sort, whose result is the one the
    library's algorithm has whenever [less] is a strict total order. *)
Section Sort.
Context {A : Type} (less : A -> A -> bool).

Fixpoint insert_by (x : A) (l : list A) : list A :=
  match l with
  | [] => [x]
  | y :: ys => if less y x then y :: insert_by x ys else x :: y :: ys
  end.

Definition sort_slice (l : list A) : list A := foldr insert_by [] l.

Lemma insert_by_perm x l : insert_by x l ≡ₚ x :: l.
Proof.
  induction l as [|y l IH]; simpl; [done|]. destruct (less y x); [|done].
  rewrite IH. apply Permutation_swap.
Qed.

Lemma sort_slice_perm l : sort_slice l ≡ₚ l.
Proof.
  induction l as [|x l IH]; simpl; [done|]. by rewrite insert_by_perm, IH.
Qed.

Lemma elem_of_sort_slice x l : x ∈ sort_slice l <-> x ∈ l.
Proof. by rewrite sort_slice_perm. Qed.

(** [less] restricted to the elements of a list is transitive through its
    negation (a strict weak order). *)
Definition weak_order_on (l : list A) : Prop :=
  (forall x y, x ∈ l -> y ∈ l -> less x y = true -> less y x = false) /\
  (forall x y z, x ∈ l -> y ∈ l -> z ∈ l ->
     less y x = false -> less z y = false -> less z x = false).

Definition sorted_by (l : list A) : Prop := StronglySorted (fun x y => less y x = false) l.

Lemma weak_order_on_sub l l' : l' ⊆ l -> weak_order_on l -> weak_order_on l'.
Proof.
  intros Hsub [Hasym Htr]. split; intros; [eapply Hasym | eapply (Htr x y z)]; eauto.
Qed.

Lemma insert_by_sorted x l :
  weak_order_on (x :: l) -> sorted_by l -> sorted_by (insert_by x l).
Proof.
  intros Hw Hs. induction Hs as [|y l Hs IH Hy]; simpl.
  { repeat constructor. }
  pose proof Hw as [Hasym Htr].
  destruct (less y x) eqn:E.
  - constructor; [apply IH; eapply weak_order_on_sub; [|exact Hw]; set_solver|].
    rewrite insert_by_perm. constructor; [|done]. apply Hasym; set_solver.
  - constructor; [by constructor|]. constructor; [done|].
    rewrite Forall_forall in Hy |- *. intros z Hz.
    eapply (Htr x y z); set_solver.
Qed.

Lemma sort_slice_sorted l : weak_order_on l -> sorted_by (sort_slice l).
Proof.
  induction l as [|x l IH]; intros Hw; simpl; [constructor|].
  apply insert_by_sorted.
  - eapply weak_order_on_sub; [|exact Hw]. intros y. rewrite !elem_of_cons, elem_of_sort_slice. done.
  - apply IH. eapply weak_order_on_sub; [|exact Hw]. set_solver.
Qed.

(** The head of a sorted slice is not beaten by any element. *)
Lemma sort_slice_head l m :
  weak_order_on l -> head (sort_slice l) = Some m ->
  m ∈ l /\ forall y, y ∈ l -> less y m = false.
Proof.
  intros Hw Hh. pose proof (sort_slice_sorted l Hw) as Hs.
  destruct (sort_slice l) as [|m' t] eqn:E; [done|]. simplify_eq/=.
  assert (forall y, y ∈ l <-> y ∈ m :: t) as Heq.
  { intros y. by rewrite <- E, elem_of_sort_slice. }
  split; [apply Heq; left|]. intros y Hy%Heq.
  inversion Hs as [|? ? _ Hall]; subst.
  apply elem_of_cons in Hy as [->|Hy]; [|by rewrite Forall_forall in Hall; apply Hall].
  destruct Hw as [Hasym _]. destruct (less m m) eqn:Em; [|done].
  rewrite <- Em. apply Hasym; [| |done]; apply Heq; left.
Qed.

(** A total order leaves one sorted arrangement. *)
Lemma sort_slice_canonical l l' :
  weak_order_on l ->
  (forall x y, x ∈ l -> y ∈ l -> less x y = false -> less y x = false -> x = y) ->
  l ≡ₚ l' -> sort_slice l = sort_slice l'.
Proof.
  intros Hw Hanti Hp. apply (StronglySorted_unique_strong (fun x y => less y x = false)).
  - intros x y Hx Hy. rewrite elem_of_sort_slice in Hx. rewrite elem_of_sort_slice, <- Hp in Hy.
    intros H1 H2. apply Hanti; assumption.
  - by apply sort_slice_sorted.
  - apply sort_slice_sorted. eapply weak_order_on_sub; [|exact Hw]. intros x. by rewrite Hp.
  - by rewrite !sort_slice_perm.
Qed.
End Sort.

Lemma sort_slice_fmap {A B} (less : A -> A -> bool) (less' : B -> B -> bool) (g : A -> B) l :
  (forall x y, less' (g x) (g y) = less x y) ->
  sort_slice less' (g <$> l) = g <$> sort_slice less l.
Proof.
  intros Hg. induction l as [|x l IH]; [done|]. rewrite fmap_cons.
  unfold sort_slice in *. simpl. rewrite IH. fold (sort_slice less l). clear IH.
  induction (sort_slice less l) as [|y k IH]; [done|]. rewrite fmap_cons. simpl.
  rewrite Hg. destruct (less y x); [|done]. rewrite fmap_cons. by f_equal.
Qed.

(** * Decimal integers *)

(** [fmt.Sprintf("%d", n)] *)
Definition sprint_d (z : Z) : string := pretty z.

Definition digit_value (c : ascii) : option Z :=
  let n := Z.of_N (N_of_ascii c) in
  if (48 <=? n) && (n <=? 57) then Some (n - 48) else None.

Fixpoint parse_digits (s : string) (acc : Z) : option Z :=
  match s with
  | EmptyString => Some acc
  | String c s => d ← digit_value c; parse_digits s (acc * 10 + d)
  end.

(** The value of [strconv.ParseInt(s, 10, 64)] when the error is ignored:
    [0] on a syntax error, the nearest bound on a range error. *)
Definition parse_int (s : string) : Z :=
  let clamp z := Z.max (- 2^63) (Z.min max_int64 z) in
  let unsigned s := match s with
                    | EmptyString => None
                    | _ => parse_digits s 0
                    end in
  match s with
  | String "-" s => from_option (fun z => clamp (- z)) 0 (unsigned s)
  | String "+" s => from_option clamp 0 (unsigned s)
  | _ => from_option clamp 0 (unsigned s)
  end.

Lemma digit_value_pretty (d : N) : (d < 10)%N -> digit_value (pretty_N_char d) = Some (Z.of_N d).
Proof.
  intros H. assert (d = 0 \/ d = 1 \/ d = 2 \/ d = 3 \/ d = 4 \/ d = 5 \/ d = 6 \/ d = 7
    \/ d = 8 \/ d = 9)%N as Hd by lia.
  repeat destruct Hd as [->|Hd]; [reflexivity..|]. by subst.
Qed.

Lemma parse_digits_pretty (x : N) (s : string) (acc : Z) :
  exists k, 0 < k /\ parse_digits (pretty_N_go x s) acc = parse_digits s (acc * k + Z.of_N x).
Proof.
  revert s acc. induction (N.lt_wf_0 x) as [x _ IH]. intros s acc.
  destruct (decide (0 < x)%N) as [Hx|Hx].
  - rewrite pretty_N_go_step by done.
    destruct (IH (x `div` 10)%N) with (s := String (pretty_N_char (x `mod` 10)) s) (acc := acc)
      as (k & Hk & ->); [apply N.div_lt; lia|].
    exists (k * 10). split; [lia|]. simpl.
    rewrite digit_value_pretty by (apply N.mod_lt; lia). simpl. f_equal.
    rewrite N2Z.inj_div, N2Z.inj_mod. pose proof (Z.div_mod (Z.of_N x) 10). lia.
  - assert (x = 0%N) as -> by (destruct x; [done|by destruct Hx]). exists 1. split; [lia|]. rewrite pretty_N_go_0. f_equal. lia.
Qed.

Lemma pretty_N_first (n : N) : exists c s, pretty n = String c s /\ digit_value c <> None.
Proof.
  unfold pretty, pretty_N. destruct (decide (n = 0)%N) as [->|Hn]; [eexists _, _; by split|].
  generalize EmptyString. intros s0.
  assert (exists c s, pretty_N_go n s0 = String c s /\ digit_value c <> None) as H; [|done].
  assert (0 < n)%N as Hp by lia. clear Hn. revert s0 Hp.
  induction (N.lt_wf_0 n) as [n _ IH]. intros s0 Hp.
  rewrite pretty_N_go_step by done.
  destruct (decide (0 < n `div` 10)%N).
  - apply IH; [apply N.div_lt; lia|done].
  - replace (n `div` 10)%N with 0%N by (destruct (n `div` 10)%N; [done|by destruct n0]).
    rewrite pretty_N_go_0.
    eexists _, _. split; [done|]. rewrite digit_value_pretty by (apply N.mod_lt; lia). done.
Qed.

Lemma parse_digits_pretty_N (n : N) : parse_digits (pretty n) 0 = Some (Z.of_N n).
Proof.
  unfold pretty, pretty_N. destruct (decide (n = 0)%N) as [->|Hn]; [done|].
  destruct (parse_digits_pretty n EmptyString 0) as (k & _ & ->). done.
Qed.

(** Printing a sequence number with [%d] and reading it back. *)
Lemma parse_int_sprint_d (z : Z) : int64 z -> parse_int (sprint_d z) = z.
Proof.
  intros Hz. unfold sprint_d, int64 in *.
  assert (forall n : N, Z.of_N n < 2^63 -> parse_int (pretty n) = Z.of_N n) as Hpos.
  { intros n Hn. destruct (pretty_N_first n) as (c & s & Hc & Hd).
    pose proof (parse_digits_pretty_N n) as Hp. rewrite Hc in Hp |- *.
    unfold parse_int. rewrite Hp. unfold max_int64.
    destruct c as [[] [] [] [] [] [] [] []]; try (by exfalso; apply Hd);
      simpl from_option; lia. }
  destruct z as [|p|p].
  - reflexivity.
  - change (pretty (Z.pos p)) with (pretty (N.pos p)). rewrite Hpos; lia.
  - change (pretty (Z.neg p)) with ("-" +:+ pretty (N.pos p)).
    destruct (pretty_N_first (N.pos p)) as (c & s & Hc & Hd).
    pose proof (parse_digits_pretty_N (N.pos p)) as Hp.
    rewrite Hc in Hp |- *. unfold parse_int, max_int64. simpl in Hp |- *. rewrite Hp. simpl. lia.
Qed.

(** * Time

    A [time.Time] is the number of nanoseconds since the Unix epoch; the
    database and the wire formats keep milliseconds. *)
Abbreviation Time := Z.

Definition UnixMilli (t : Time) : Z := t `div` 1000000.
Definition time_UnixMilli (ms : Z) : Time := ms * 1000000.
(** The zero [time.Time] (January 1 of year 1), the one [IsZero] accepts. *)
Definition time_zero : Time := -62135596800 * 1000000000.
Definition time_IsZero (t : Time) : bool := t =? time_zero.

Lemma UnixMilli_time_UnixMilli ms : UnixMilli (time_UnixMilli ms) = ms.
Proof. unfold UnixMilli, time_UnixMilli. apply Z.div_mul. lia. Qed.
#[export] Hint Rewrite UnixMilli_time_UnixMilli : remnix.

(** [nil] or empty string to SQL [NULL] and back ([sql.NullString.String]). *)
Definition null_string (s : string) : option string :=
  if str_empty s then None else Some s.
Definition null_string_value (o : option string) : string := default EmptyString o.

Lemma null_string_value_null_string s : null_string_value (null_string s) = s.
Proof. by destruct s. Qed.
Lemma null_string_Some s v : null_string s = Some v <-> s = v /\ s <> EmptyString.
Proof. destruct s; simpl; split; [done | by intros [<- ?] | by intros [= <-] | by intros [<- _]]. Qed.
#[export] Hint Rewrite null_string_value_null_string : remnix.

(** * SQL tables

    A table with a primary key is a finite map from the key to the row. *)
Section Table.
Context {K V : Type} `{Countable K}.
Implicit Types (m : gmap K V) (p : V -> bool).

Definition rows m : list V := (map_to_list m).*2.

(** [SELECT ... WHERE p] on a table where at most one row satisfies [p]. *)
Definition select_one p m : option V := List.find p (rows m).

(** [EXISTS (SELECT ... WHERE p)] *)
Definition select_any p m : bool := existsb p (rows m).

(** [UPDATE ... SET f WHERE p] *)
Definition update_where p (f : V -> V) m : gmap K V :=
  (fun v => if p v then f v else v) <$> m.

Lemma elem_of_rows v m : v ∈ rows m <-> exists k, m !! k = Some v.
Proof.
  unfold rows. rewrite list_elem_of_fmap. split.
  - intros ([k v'] & -> & Hin%elem_of_map_to_list). eauto.
  - intros [k Hk]. exists (k, v). split; [done|]. by apply elem_of_map_to_list.
Qed.

Lemma select_any_true p m : select_any p m = true <-> exists k v, m !! k = Some v /\ p v = true.
Proof.
  unfold select_any. rewrite existsb_exists. setoid_rewrite <- list_elem_of_In.
  setoid_rewrite elem_of_rows. naive_solver.
Qed.

Lemma select_any_false p m : select_any p m = false <-> forall k v, m !! k = Some v -> p v = false.
Proof.
  split.
  - intros Hf k v Hk. destruct (p v) eqn:E; [|done].
    assert (select_any p m = true) by (apply select_any_true; eauto). congruence.
  - intros Hall. destruct (select_any p m) eqn:E; [|done].
    apply select_any_true in E as (k & v & Hk & Hp). rewrite (Hall _ _ Hk) in Hp. done.
Qed.

Lemma select_one_Some p m v : select_one p m = Some v -> (exists k, m !! k = Some v) /\ p v = true.
Proof.
  intros [Hin Hp]%find_some. apply list_elem_of_In, elem_of_rows in Hin. done.
Qed.

Lemma select_one_None p m : select_one p m = None <-> forall k v, m !! k = Some v -> p v = false.
Proof.
  split.
  - intros Hn k v Hk. eapply find_none; [exact Hn|]. apply list_elem_of_In, elem_of_rows. eauto.
  - intros Hall. destruct (select_one p m) eqn:E; [|done].
    apply select_one_Some in E as [[k Hk] Hp]. rewrite (Hall _ _ Hk) in Hp. done.
Qed.

Lemma select_one_unique p m k v :
  m !! k = Some v -> p v = true ->
  (forall k' v', m !! k' = Some v' -> p v' = true -> v' = v) ->
  select_one p m = Some v.
Proof.
  intros Hk Hp Hu. destruct (select_one p m) as [v'|] eqn:E.
  - apply select_one_Some in E as [[k' Hk'] Hp']. f_equal. eauto.
  - rewrite select_one_None in E. rewrite (E _ _ Hk) in Hp. done.
Qed.

Lemma lookup_update_where p f m k :
  update_where p f m !! k = (fun v => if p v then f v else v) <$> m !! k.
Proof. apply lookup_fmap. Qed.

Lemma update_where_none p f m : select_any p m = false -> update_where p f m = m.
Proof.
  rewrite select_any_false. intros Hn. apply map_eq. intros k. rewrite lookup_update_where.
  destruct (m !! k) as [v|] eqn:E; simpl; [|done]. by rewrite (Hn _ _ E).
Qed.

(** [SELECT MAX(f)] over the rows satisfying [p]; [NULL] when there are none. *)
Definition select_max (f : V -> Z) p m : option Z :=
  foldr (fun v acc => if p v then Some (from_option (Z.max (f v)) (f v) acc) else acc)
    None (rows m).

Lemma select_max_ge f p m k v :
  m !! k = Some v -> p v = true -> exists n, select_max f p m = Some n /\ f v <= n.
Proof.
  intros Hk Hp. assert (v ∈ rows m) as Hin by (apply elem_of_rows; eauto).
  unfold select_max. induction (rows m) as [|w l IH]; [by apply elem_of_nil in Hin|]. simpl.
  apply elem_of_cons in Hin as [<-|Hin].
  - rewrite Hp. eexists. split; [done|]. destruct (foldr _ _ _); simpl; lia.
  - destruct (IH Hin) as (n & -> & Hn). destruct (p w); simpl; eexists; split; [done|lia|done|lia].
Qed.

Lemma select_max_Some f p m n :
  select_max f p m = Some n -> exists k v, m !! k = Some v /\ p v = true /\ f v = n.
Proof.
  intros Hs. assert (exists v, v ∈ rows m /\ p v = true /\ f v = n) as (v & Hv & Hp & Hf).
  { unfold select_max in Hs. revert n Hs. induction (rows m) as [|w l IH]; intros n Hs; simpl in Hs; [done|].
    destruct (p w) eqn:Ew; [|destruct (IH _ Hs) as (v & ? & ?); exists v; set_solver].
    destruct (foldr _ _ _) as [n'|] eqn:E; simpl in Hs; simplify_eq.
    - destruct (Z.max_spec (f w) n') as [[_ ->]|[_ ->]]; [|by exists w; set_solver].
      destruct (IH _ eq_refl) as (v & ? & ?). exists v. set_solver.
    - exists w. set_solver. }
  apply elem_of_rows in Hv as [k Hk]. eauto.
Qed.
End Table.

(** * Serialization

    [encoding/json] and [github.com/fxamacker/cbor] are used through
    [Marshal]/[Unmarshal] on one struct type at a time. [codec_valid] is the
    set of values the decoder accepts back (for CBOR, slices of at most 2^24
    elements: [maxArrayElements] of [internal/cborx]). *)
Class Codec (A : Type) := {
  marshal : A -> bytes;
  unmarshal : bytes -> option A;
  codec_valid : A -> Prop;
}.
#[global] Hint Mode Codec ! : typeclass_instances.

Class CodecLaws (A : Type) `{Codec A} :=
  unmarshal_marshal (x : A) : codec_valid x -> unmarshal (marshal x) = Some x.
#[global] Hint Mode CodecLaws ! - : typeclass_instances.
