(* ===== verification/Database.v ===== *)
(** The local SQLite database of one device: the tables the synchronization
    code reads and writes, as records of finite maps keyed by the primary
    keys. Only the columns the code uses are kept; every constraint the code
    relies on (primary keys, the partial unique indexes of [history], the
    foreign key of [key_slots]) is enforced by the operations and stated as
    [wf] and [keys_wf] in the component files. SQLite I/O failures are not modelled:
    an operation fails only where a constraint or the Go code makes it fail. *)

From S2P Require Import Prelude.

(** [history.Entry] *)
Record Entry := mkEntry {
  e_ID : string;
  e_Command : string;
  e_StartTS : Time;
  e_EndTS : option Time;
  e_DurationMs : option Z;
  e_ExitStatus : option Z;
  e_Cwd : string;
  e_SessionID : string;
  e_Hostname : string;
  e_DeviceID : string;
  e_Shell : string;
  e_Deleted : bool;
  e_OriginDeviceID : string;
  e_OriginSeq : option Z;
  e_CreatedAt : Time;
}.

(** The zero [history.Entry] of Go. *)
Definition entry_zero : Entry :=
  mkEntry "" "" time_zero None None None "" "" "" "" "" false "" None time_zero.

#[global] Instance entry_eq_dec : EqDecision Entry.
Proof. solve_decision. Defined.

(** A row of the [history] table as rewritten by the migration
    [0004_history_compact]: repeated strings are ids of the intern tables. *)
Record HistoryRow := mkHistoryRow {
  hr_id : string;
  hr_command : string;
  hr_command_hash : bytes;
  hr_start_ts : Z;
  hr_end_ts : option Z;
  hr_duration_ms : option Z;
  hr_exit_status : option Z;
  hr_cwd_id : option Z;
  hr_session_id : option Z;
  hr_hostname_id : option Z;
  hr_device_id : string;
  hr_shell_id : option Z;
  hr_deleted : bool;
  hr_origin_device_id : option string;
  hr_origin_seq : option Z;
  hr_created_at : Z;
}.

#[global] Instance history_row_eq_dec : EqDecision HistoryRow.
Proof. solve_decision. Defined.

Definition hr_set_deleted (r : HistoryRow) : HistoryRow :=
  mkHistoryRow (hr_id r) (hr_command r) (hr_command_hash r) (hr_start_ts r) (hr_end_ts r)
    (hr_duration_ms r) (hr_exit_status r) (hr_cwd_id r) (hr_session_id r) (hr_hostname_id r)
    (hr_device_id r) (hr_shell_id r) true (hr_origin_device_id r) (hr_origin_seq r)
    (hr_created_at r).

Definition hr_set_origin (dev : string) (seq : Z) (r : HistoryRow) : HistoryRow :=
  mkHistoryRow (hr_id r) (hr_command r) (hr_command_hash r) (hr_start_ts r) (hr_end_ts r)
    (hr_duration_ms r) (hr_exit_status r) (hr_cwd_id r) (hr_session_id r) (hr_hostname_id r)
    (hr_device_id r) (hr_shell_id r) (hr_deleted r) (Some dev) (Some seq)
    (hr_created_at r).

Definition hr_set_completed (end_ts exit : Z) (r : HistoryRow) : HistoryRow :=
  mkHistoryRow (hr_id r) (hr_command r) (hr_command_hash r) (hr_start_ts r) (Some end_ts)
    (Some (end_ts - hr_start_ts r)) (Some exit) (hr_cwd_id r) (hr_session_id r)
    (hr_hostname_id r) (hr_device_id r) (hr_shell_id r) (hr_deleted r)
    (hr_origin_device_id r) (hr_origin_seq r) (hr_created_at r).

(** A row of [sync_events] after the migration [0003_thin_events]; the key is
    [(device_id, seq)]. *)
Record EventRow := mkEventRow {
  er_event_type : string;
  er_history_id : option string;
  er_payload : bytes;
  er_applied : bool;
  er_created_at : Z;
}.

Definition er_set_applied (r : EventRow) : EventRow :=
  mkEventRow (er_event_type r) (er_history_id r) (er_payload r) true (er_created_at r).

(** A row of [devices]. *)
Record DeviceRow := mkDeviceRow {
  dr_name : string;
  dr_hostname : option string;
  dr_status : string;
  dr_created_at : Z;
  dr_retired_at : option Z;
}.

(** A row of [key_generations]. *)
Record GenerationRow := mkGenerationRow {
  gr_seq : Z;
  gr_status : string;
  gr_created_at : Z;
}.

(** A row of [key_slots]. *)
Record SlotRow := mkSlotRow {
  sr_id : string;
  sr_generation_id : string;
  sr_slot_type : string;
  sr_wrap_params : bytes;
  sr_wrapped_smk : bytes;
  sr_status : string;
  sr_created_at : Z;
}.

(** The single row of [key_rotation]. *)
Record RotationRow := mkRotationRow {
  rr_phase : string;
  rr_old_generation_id : string;
  rr_new_generation_id : string;
  rr_old_seq : Z;
  rr_new_seq : Z;
  rr_recovery_bech32 : string;
  rr_updated_at : Z;
}.

(** A row of [trusted_manifests]. *)
Record TrustedRow := mkTrustedRow {
  tr_generation_id : string;
  tr_counter : Z;
  tr_checkpoint_id : string;
  tr_payload : bytes;
  tr_updated_at : Z;
}.

(** The four intern tables, [value -> id]. *)
Record Interns := mkInterns {
  in_cwd : gmap string Z;
  in_session : gmap string Z;
  in_hostname : gmap string Z;
  in_shell : gmap string Z;
}.

Record DB := mkDB {
  db_history : gmap string HistoryRow;
  db_interns : Interns;
  db_events : gmap (string * Z) EventRow;
  db_heads : gmap string Z;
  db_devices : gmap string DeviceRow;
  db_generations : gmap string GenerationRow;
  db_slots : list SlotRow;          (** in rowid order *)
  db_rotation : option RotationRow;
  db_trusted : gmap string TrustedRow;
  db_transport_state : gmap string string;
}.

Definition interns_empty : Interns := mkInterns ∅ ∅ ∅ ∅.

(** A freshly migrated database. *)
Definition db_empty : DB := mkDB ∅ interns_empty ∅ ∅ ∅ ∅ [] None ∅ ∅.

Definition set_history (h : gmap string HistoryRow) (d : DB) : DB :=
  mkDB h (db_interns d) (db_events d) (db_heads d) (db_devices d) (db_generations d)
    (db_slots d) (db_rotation d) (db_trusted d) (db_transport_state d).
Definition set_interns (i : Interns) (d : DB) : DB :=
  mkDB (db_history d) i (db_events d) (db_heads d) (db_devices d) (db_generations d)
    (db_slots d) (db_rotation d) (db_trusted d) (db_transport_state d).
Definition set_events (e : gmap (string * Z) EventRow) (d : DB) : DB :=
  mkDB (db_history d) (db_interns d) e (db_heads d) (db_devices d) (db_generations d)
    (db_slots d) (db_rotation d) (db_trusted d) (db_transport_state d).
Definition set_heads (h : gmap string Z) (d : DB) : DB :=
  mkDB (db_history d) (db_interns d) (db_events d) h (db_devices d) (db_generations d)
    (db_slots d) (db_rotation d) (db_trusted d) (db_transport_state d).
Definition set_devices (v : gmap string DeviceRow) (d : DB) : DB :=
  mkDB (db_history d) (db_interns d) (db_events d) (db_heads d) v (db_generations d)
    (db_slots d) (db_rotation d) (db_trusted d) (db_transport_state d).
Definition set_generations (g : gmap string GenerationRow) (d : DB) : DB :=
  mkDB (db_history d) (db_interns d) (db_events d) (db_heads d) (db_devices d) g
    (db_slots d) (db_rotation d) (db_trusted d) (db_transport_state d).
Definition set_slots (s : list SlotRow) (d : DB) : DB :=
  mkDB (db_history d) (db_interns d) (db_events d) (db_heads d) (db_devices d)
    (db_generations d) s (db_rotation d) (db_trusted d) (db_transport_state d).
Definition set_rotation (r : option RotationRow) (d : DB) : DB :=
  mkDB (db_history d) (db_interns d) (db_events d) (db_heads d) (db_devices d)
    (db_generations d) (db_slots d) r (db_trusted d) (db_transport_state d).
Definition set_trusted (t : gmap string TrustedRow) (d : DB) : DB :=
  mkDB (db_history d) (db_interns d) (db_events d) (db_heads d) (db_devices d)
    (db_generations d) (db_slots d) (db_rotation d) t (db_transport_state d).
Definition set_transport_state (t : gmap string string) (d : DB) : DB :=
  mkDB (db_history d) (db_interns d) (db_events d) (db_heads d) (db_devices d)
    (db_generations d) (db_slots d) (db_rotation d) (db_trusted d) t.
