(* ===== verification/History.v ===== *)
(** [internal/history]: the history table of one device. The definitions keep
    the names of [store.go], [intern.go] and [hash.go]; the lemmas establish the table invariant ([wf]: primary key,
    [history_origin] and [history_dedup] indexes, injective intern tables) for
    every write, and what each read returns. *)

From Stdlib Require Import Ascii.
From stdpp Require Import sorting.
From S2P Require Import Prelude Database.

(** ** [intern.go] *)

(** [internID]: [INSERT OR IGNORE] then [SELECT id]; a new row takes the rowid
    after the largest one. *)
Definition next_rowid (t : gmap string Z) : Z :=
  1 + map_fold (fun _ id acc => Z.max id acc) 0 t.

Definition internID (value : string) (t : gmap string Z) : gmap string Z * option Z :=
  if str_empty value then (t, None)
  else match t !! value with
       | Some id => (t, Some id)
       | None => let id := next_rowid t in (<[value:=id]> t, Some id)
       end.

(** The [LEFT JOIN intern_x ON intern_x.id = h.x_id] of [historyFrom]. *)
Definition intern_value (t : gmap string Z) (id : option Z) : option string :=
  i ← id; fst <$> List.find (fun '(_, j) => i =? j) (map_to_list t).

(** ** [hash.go] *)

(** [crypto/sha256.Sum256] *)
Class Sha256 := sha256 : bytes -> bytes.

Section Store.
Context `{Sha256}.

Definition HashCommand (command : string) : bytes :=
  sha256 (String.list_byte_of_string command).

(** ** [store.go]: writes *)

Definition same_origin (a b : HistoryRow) : bool :=
  match hr_origin_device_id a, hr_origin_seq a, hr_origin_device_id b, hr_origin_seq b with
  | Some d, Some s, Some d', Some s' => String.eqb d d' && (s =? s')
  | _, _, _, _ => false
  end.

(** Two rows collide in [history_dedup]; a [NULL] [cwd_id] never collides. *)
Definition same_dedup (a b : HistoryRow) : bool :=
  negb (hr_deleted a) && negb (hr_deleted b) &&
  bool_decide (hr_command_hash a = hr_command_hash b) &&
  (hr_start_ts a =? hr_start_ts b) &&
  match hr_cwd_id a, hr_cwd_id b with
  | Some c, Some c' => c =? c'
  | _, _ => false
  end &&
  String.eqb (hr_device_id a) (hr_device_id b).

(** What makes [INSERT OR IGNORE] skip the row. *)
Definition history_conflict (h : gmap string HistoryRow) (r : HistoryRow) : bool :=
  bool_decide (is_Some (h !! hr_id r)) ||
  select_any (same_origin r) h || select_any (same_dedup r) h.

Definition entry_row (cwdID sessID hostID shellID : option Z) (e : Entry) : HistoryRow :=
  mkHistoryRow (e_ID e) (e_Command e) (HashCommand (e_Command e)) (UnixMilli (e_StartTS e))
    (UnixMilli <$> e_EndTS e) (e_DurationMs e) (e_ExitStatus e) cwdID sessID hostID
    (e_DeviceID e) shellID (e_Deleted e) (null_string (e_OriginDeviceID e)) (e_OriginSeq e)
    (UnixMilli (e_CreatedAt e)).

Definition with_created (now : Time) (e : Entry) : Entry :=
  if time_IsZero (e_CreatedAt e) then
    mkEntry (e_ID e) (e_Command e) (e_StartTS e) (e_EndTS e) (e_DurationMs e) (e_ExitStatus e)
      (e_Cwd e) (e_SessionID e) (e_Hostname e) (e_DeviceID e) (e_Shell e) (e_Deleted e)
      (e_OriginDeviceID e) (e_OriginSeq e) now
  else e.

(** The four [internID] calls of [InsertExec]. *)
Definition intern_entry (e : Entry) (i : Interns) : Interns * HistoryRow :=
  let '(cwd, cwdID) := internID (e_Cwd e) (in_cwd i) in
  let '(sess, sessID) := internID (e_SessionID e) (in_session i) in
  let '(host, hostID) := internID (e_Hostname e) (in_hostname i) in
  let '(shell, shellID) := internID (e_Shell e) (in_shell i) in
  (mkInterns cwd sess host shell, entry_row cwdID sessID hostID shellID e).

Definition InsertExec (now : Time) (e : Entry) : M DB bool := fun d =>
  let '(i, r) := intern_entry (with_created now e) (db_interns d) in
  let d := set_interns i d in
  if history_conflict (db_history d) r then (d, Ok false)
  else (set_history (<[hr_id r:=r]> (db_history d)) d, Ok true).

Definition Insert (now : Time) (e : Entry) : M DB bool := InsertExec now e.
Definition InsertTx (now : Time) (e : Entry) : M DB bool := InsertExec now e.

Definition Complete (id : string) (end_ : Time) (exitStatus : Z) : M DB unit :=
  modify (fun d => set_history (alter (hr_set_completed (UnixMilli end_) exitStatus) id
                                  (db_history d)) d).

Definition Tombstone (id : string) : M DB unit :=
  modify (fun d => set_history (alter hr_set_deleted id (db_history d)) d).

Definition has_origin (deviceID : string) (seq : Z) (r : HistoryRow) : bool :=
  bool_decide (hr_origin_device_id r = Some deviceID /\ hr_origin_seq r = Some seq).

Definition TombstoneByOrigin (deviceID : string) (seq : Z) : M DB unit :=
  modify (fun d => set_history
    (update_where (has_origin deviceID seq) hr_set_deleted (db_history d)) d).

(** ** [store.go]: reads *)

Definition scanEntry (i : Interns) (r : HistoryRow) : Entry :=
  mkEntry (hr_id r) (hr_command r) (time_UnixMilli (hr_start_ts r))
    (time_UnixMilli <$> hr_end_ts r) (hr_duration_ms r) (hr_exit_status r)
    (null_string_value (intern_value (in_cwd i) (hr_cwd_id r)))
    (null_string_value (intern_value (in_session i) (hr_session_id r)))
    (null_string_value (intern_value (in_hostname i) (hr_hostname_id r)))
    (hr_device_id r)
    (null_string_value (intern_value (in_shell i) (hr_shell_id r)))
    (hr_deleted r) (null_string_value (hr_origin_device_id r)) (hr_origin_seq r)
    (time_UnixMilli (hr_created_at r)).

Definition scanFound (i : Interns) (r : option HistoryRow) : option Entry := scanEntry i <$> r.

Definition scanEntries (i : Interns) (rs : list HistoryRow) : list Entry := scanEntry i <$> rs.

Definition Get (d : DB) (id : string) : option Entry :=
  scanFound (db_interns d) (db_history d !! id).

Definition ByOrigin (d : DB) (deviceID : string) (seq : Z) : option Entry :=
  scanFound (db_interns d) (select_one (has_origin deviceID seq) (db_history d)).

Definition origin_seq_less (a b : HistoryRow) : bool :=
  default 0 (hr_origin_seq a) <? default 0 (hr_origin_seq b).

Definition in_origin_range (deviceID : string) (start end_ : Z) (r : HistoryRow) : bool :=
  bool_decide (hr_origin_device_id r = Some deviceID) &&
  match hr_origin_seq r with
  | Some s => (start <=? s) && (s <=? end_)
  | None => false
  end.

Definition ListByOriginRange (d : DB) (deviceID : string) (start end_ : Z) : list Entry :=
  scanEntries (db_interns d)
    (sort_slice origin_seq_less
       (List.filter (in_origin_range deviceID start end_) (rows (db_history d)))).

(** [(a.start_ts, a.id) > (b.start_ts, b.id)] *)
Definition newer (a b : HistoryRow) : bool :=
  (hr_start_ts b <? hr_start_ts a) ||
  ((hr_start_ts a =? hr_start_ts b) && str_lt (hr_id b) (hr_id a)).

Record Filter := mkFilter {
  f_Query : string;
  f_Cwd : string;
  f_Host : string;
  f_Shell : string;
  f_Session : string;
  f_DeviceID : string;
  f_Exit : option Z;
  f_Since : option Time;
  f_Until : option Time;
  f_IncludeDeleted : bool;
  f_Unique : bool;
  f_Limit : Z;
}.

(** SQLite's [lower] folds ASCII letters only. *)
Definition ascii_lower (c : ascii) : ascii :=
  let n := N_of_ascii c in
  if ((65 <=? n) && (n <=? 90))%N then ascii_of_N (n + 32) else c.
Fixpoint sql_lower (s : string) : string :=
  match s with
  | EmptyString => EmptyString
  | String c s => String (ascii_lower c) (sql_lower s)
  end.

(** [col = (SELECT id FROM t WHERE value = ?)]; [NULL] on either side is false. *)
Definition intern_matches (t : gmap string Z) (value : string) (col : option Z) : bool :=
  match t !! value, col with
  | Some i, Some j => i =? j
  | _, _ => false
  end.

Definition unless_empty (s : string) (b : bool) : bool := str_empty s || b.

Definition predicates (f : Filter) (i : Interns) (r : HistoryRow) : bool :=
  (f_IncludeDeleted f || negb (hr_deleted r)) &&
  unless_empty (f_Cwd f) (intern_matches (in_cwd i) (f_Cwd f) (hr_cwd_id r)) &&
  unless_empty (f_Host f) (intern_matches (in_hostname i) (f_Host f) (hr_hostname_id r)) &&
  unless_empty (f_Shell f) (intern_matches (in_shell i) (f_Shell f) (hr_shell_id r)) &&
  unless_empty (f_Session f) (intern_matches (in_session i) (f_Session f) (hr_session_id r)) &&
  unless_empty (f_DeviceID f) (String.eqb (hr_device_id r) (f_DeviceID f)) &&
  from_option (fun x => bool_decide (hr_exit_status r = Some x)) true (f_Exit f) &&
  from_option (fun t => UnixMilli t <=? hr_start_ts r) true (f_Since f) &&
  from_option (fun t => hr_start_ts r <=? UnixMilli t) true (f_Until f) &&
  unless_empty (f_Query f) (contains (sql_lower (f_Query f)) (sql_lower (hr_command r))).

Definition start_desc (a b : HistoryRow) : bool := hr_start_ts b <? hr_start_ts a.

Definition limit_rows {A} (limit : Z) (l : list A) : list A :=
  if 0 <? limit then take (Z.to_nat limit) l else l.

(** [NOT EXISTS] of the unique branch: no newer row of the filter has the same
    command hash. *)
Definition shadowed (f : Filter) (d : DB) (r : HistoryRow) : bool :=
  select_any (fun r2 => predicates f (db_interns d) r2 &&
                        bool_decide (hr_command_hash r2 = hr_command_hash r) && newer r2 r)
    (db_history d).

Definition list_rows (f : Filter) (d : DB) : list HistoryRow :=
  let keep r := predicates f (db_interns d) r && (negb (f_Unique f) || negb (shadowed f d r)) in
  limit_rows (f_Limit f) (sort_slice start_desc (List.filter keep (rows (db_history d)))).

Definition List_ (f : Filter) (d : DB) : list Entry :=
  scanEntries (db_interns d) (list_rows f d).

Definition ListByCommand (command : string) (d : DB) : list Entry :=
  scanEntries (db_interns d)
    (sort_slice newer (List.filter (fun r => negb (hr_deleted r) && String.eqb (hr_command r) command)
       (rows (db_history d)))).

Definition ScanLive (d : DB) : list Entry :=
  scanEntries (db_interns d)
    (sort_slice (fun a b => newer b a) (List.filter (fun r => negb (hr_deleted r))
       (rows (db_history d)))).

(** [likePrefix]: the three [strings.ReplaceAll] calls, then [%]. *)
Fixpoint replace_char (c : ascii) (by_ : string) (s : string) : string :=
  match s with
  | EmptyString => EmptyString
  | String d s => if Ascii.eqb c d then (by_ +:+ replace_char c by_ s)%string
                  else String d (replace_char c by_ s)
  end.
Definition likePrefix (s : string) : string :=
  let s := replace_char "\"%char "\\" s in
  let s := replace_char "%"%char "\%" s in
  let s := replace_char "_"%char "\_" s in
  (s +:+ "%")%string.

(** [command LIKE pattern ESCAPE '\'] on bytes: ASCII case is ignored. *)
Definition like_char (c : ascii) (rest : string -> bool) (s : string) : bool :=
  match s with
  | String d s' => Ascii.eqb (ascii_lower c) (ascii_lower d) && rest s'
  | EmptyString => false
  end.
Fixpoint like_any (rest : string -> bool) (s : string) : bool :=
  rest s || match s with EmptyString => false | String _ s' => like_any rest s' end.
Fixpoint sql_like (pattern s : string) {struct pattern} : bool :=
  match pattern with
  | EmptyString => str_empty s
  | String c p =>
      if Ascii.eqb c "\" then
        match p with
        | String c' p' => like_char c' (sql_like p') s
        | EmptyString => false
        end
      else if Ascii.eqb c "%" then like_any (sql_like p) s
      else if Ascii.eqb c "_" then
        match s with String _ s' => sql_like p s' | EmptyString => false end
      else like_char c (sql_like p) s
  end.

Definition SuggestPrefixCandidates (prefix : string) (limit : Z) (d : DB) : list Entry :=
  if str_empty prefix then [] else
  let limit := if limit <=? 0 then 32 else limit in
  scanEntries (db_interns d)
    (take (Z.to_nat limit)
       (sort_slice newer
          (List.filter (fun r => negb (hr_deleted r) && sql_like (likePrefix prefix) (hr_command r)
                                 && negb (String.eqb (hr_command r) prefix))
             (rows (db_history d))))).

Definition SuggestPrefix (prefix : string) (d : DB) : string :=
  match SuggestPrefixCandidates prefix 32 d with
  | [] => EmptyString
  | e :: _ => e_Command e
  end.

Definition Count (d : DB) : Z :=
  Z.of_nat (length (List.filter (fun r => negb (hr_deleted r)) (rows (db_history d)))).
End Store.

(** ** Intern tables *)

Definition intern_inj (t : gmap string Z) : Prop :=
  forall v v' i, t !! v = Some i -> t !! v' = Some i -> v = v'.

Lemma next_rowid_fresh t v i : t !! v = Some i -> i < next_rowid t.
Proof.
  unfold next_rowid. revert v i.
  apply (map_fold_weak_ind (fun acc t => forall v i, t !! v = Some i -> i < 1 + acc)); [done|].
  intros k x m acc Hk IH v i. rewrite lookup_insert. case_decide; [intros [= <-]; lia|].
  intros Hv%IH. lia.
Qed.

Lemma internID_inj v t : intern_inj t -> intern_inj (internID v t).1.
Proof.
  intros Ht. unfold internID. destruct (str_empty v); [done|].
  destruct (t !! v) eqn:E; [done|]. simpl. intros a b i. rewrite !lookup_insert.
  repeat case_decide; subst; intros; simplify_eq; auto.
  - exfalso. pose proof (next_rowid_fresh t b _ ltac:(eassumption)). lia.
  - exfalso. pose proof (next_rowid_fresh t a _ ltac:(eassumption)). lia.
  - eauto.
Qed.

Lemma internID_sub v t : t ⊆ (internID v t).1.
Proof.
  unfold internID. destruct (str_empty v); [done|].
  destruct (t !! v) eqn:E; [done|]. by apply insert_subseteq.
Qed.

Lemma internID_lookup v t :
  match (internID v t).2 with
  | Some i => (internID v t).1 !! v = Some i /\ v <> EmptyString
  | None => v = EmptyString
  end.
Proof.
  unfold internID. destruct v; [done|]. simpl.
  destruct (t !! _) eqn:E; simpl; [done|]. by rewrite lookup_insert_eq.
Qed.

Lemma intern_value_lookup t v i : intern_inj t -> t !! v = Some i -> intern_value t (Some i) = Some v.
Proof.
  intros Hinj Hv. simpl.
  destruct (List.find _ _) as [[w j]|] eqn:E; simpl.
  - apply find_some in E as [Hin%list_elem_of_In Hij]. apply elem_of_map_to_list in Hin.
    apply Z.eqb_eq in Hij. subst. f_equal. eauto.
  - pose proof (find_none _ _ E (v, i)) as Hn. simpl in Hn.
    rewrite Z.eqb_refl in Hn. discriminate Hn.
    apply list_elem_of_In. by apply elem_of_map_to_list.
Qed.

(** What a [SELECT] reads back from an interned column is what was stored. *)
Lemma internID_value v t :
  intern_inj t ->
  null_string_value (intern_value (internID v t).1 (internID v t).2) = v.
Proof.
  intros Ht. pose proof (internID_lookup v t) as Hl.
  destruct ((internID v t).2) as [i|]; [|by subst].
  destruct Hl as [Hl _]. rewrite (intern_value_lookup _ v i); [done|by apply internID_inj|done].
Qed.

Definition registered (t : gmap string Z) (id : option Z) : Prop :=
  match id with Some i => exists v, t !! v = Some i | None => True end.

Lemma internID_registered v t : registered (internID v t).1 (internID v t).2.
Proof.
  pose proof (internID_lookup v t). destruct ((internID v t).2); simpl; naive_solver.
Qed.

Lemma registered_mono t t' id : t ⊆ t' -> registered t id -> registered t' id.
Proof.
  destruct id; simpl; [|done]. intros Hs [v Hv]. exists v. eapply lookup_weaken; eauto.
Qed.

Lemma intern_value_mono t t' id :
  intern_inj t' -> t ⊆ t' -> registered t id -> intern_value t' id = intern_value t id.
Proof.
  intros Ht' Hs. destruct id as [i|]; [|done]. intros [v Hv].
  rewrite (intern_value_lookup t' v i); [|done|by eapply lookup_weaken].
  rewrite (intern_value_lookup t v i); [done| |done].
  intros a b j Ha Hb. eapply Ht'; eapply lookup_weaken; eauto.
Qed.

(** ** The table invariant *)

Record interns_wf (i : Interns) : Prop := {
  iw_cwd : intern_inj (in_cwd i);
  iw_session : intern_inj (in_session i);
  iw_hostname : intern_inj (in_hostname i);
  iw_shell : intern_inj (in_shell i);
}.

Definition interns_sub (i i' : Interns) : Prop :=
  in_cwd i ⊆ in_cwd i' /\ in_session i ⊆ in_session i' /\
  in_hostname i ⊆ in_hostname i' /\ in_shell i ⊆ in_shell i'.

Definition row_registered (i : Interns) (r : HistoryRow) : Prop :=
  registered (in_cwd i) (hr_cwd_id r) /\ registered (in_session i) (hr_session_id r) /\
  registered (in_hostname i) (hr_hostname_id r) /\ registered (in_shell i) (hr_shell_id r).

(** The constraints of the [history] table. *)
Record history_wf (h : gmap string HistoryRow) : Prop := {
  hw_key : forall k r, h !! k = Some r -> hr_id r = k;
  hw_origin : forall k k' r r',
    h !! k = Some r -> h !! k' = Some r' -> same_origin r r' = true -> k = k';
  hw_dedup : forall k k' r r',
    h !! k = Some r -> h !! k' = Some r' -> same_dedup r r' = true -> k = k';
}.

Record wf (d : DB) : Prop := {
  wf_history : history_wf (db_history d);
  wf_interns : interns_wf (db_interns d);
  wf_registered : forall k r, db_history d !! k = Some r -> row_registered (db_interns d) r;
}.

Lemma wf_empty : wf db_empty.
Proof. split; [split| split|]; simpl; intros; by rewrite ?lookup_empty in *. Qed.

Lemma same_origin_spec a b :
  same_origin a b = true <->
  exists dev seq, hr_origin_device_id a = Some dev /\ hr_origin_seq a = Some seq /\
    hr_origin_device_id b = Some dev /\ hr_origin_seq b = Some seq.
Proof.
  unfold same_origin. split.
  - intros Hs. repeat case_match; try discriminate.
    apply andb_prop in Hs as [->%String.eqb_eq ->%Z.eqb_eq]. eauto 10.
  - intros (dev & seq & -> & -> & -> & ->). by rewrite String.eqb_refl, Z.eqb_refl.
Qed.

Lemma same_origin_has_origin dev seq a :
  hr_origin_device_id a = Some dev -> hr_origin_seq a = Some seq ->
  forall b, same_origin a b = has_origin dev seq b.
Proof.
  intros Hd Hs b. apply eq_true_iff_eq. rewrite same_origin_spec. unfold has_origin.
  rewrite bool_decide_eq_true. naive_solver.
Qed.

Lemma same_origin_sym a b : same_origin a b = same_origin b a.
Proof. apply eq_true_iff_eq. rewrite !same_origin_spec. naive_solver. Qed.

Lemma same_dedup_sym a b : same_dedup a b = same_dedup b a.
Proof.
  unfold same_dedup.
  assert (String.eqb (hr_device_id a) (hr_device_id b) = String.eqb (hr_device_id b) (hr_device_id a))
    as -> by apply String.eqb_sym.
  assert ((hr_start_ts a =? hr_start_ts b) = (hr_start_ts b =? hr_start_ts a)) as -> by apply Z.eqb_sym.
  assert (bool_decide (hr_command_hash a = hr_command_hash b)
        = bool_decide (hr_command_hash b = hr_command_hash a)) as -> by (apply bool_decide_ext; naive_solver).
  assert (match hr_cwd_id a, hr_cwd_id b with Some c, Some c' => c =? c' | _, _ => false end
        = match hr_cwd_id b, hr_cwd_id a with Some c, Some c' => c =? c' | _, _ => false end) as ->
    by (destruct (hr_cwd_id a), (hr_cwd_id b); try done; apply Z.eqb_sym).
  by rewrite (andb_comm (negb (hr_deleted a))).
Qed.

(** An origin names at most one row. *)
Lemma has_origin_unique h dev seq k k' r r' :
  history_wf h -> h !! k = Some r -> h !! k' = Some r' ->
  has_origin dev seq r = true -> has_origin dev seq r' = true -> r = r'.
Proof.
  unfold has_origin. intros Hw Hk Hk' Hr Hr'.
  apply bool_decide_eq_true in Hr as [Hd Hs], Hr' as [Hd' Hs'].
  assert (k = k') as ->; [|congruence].
  eapply hw_origin; eauto. apply same_origin_spec. eauto 10.
Qed.

(** [r'] is [r] with the identity kept: the constraints can only get weaker. *)
Record row_refines (r r' : HistoryRow) : Prop := {
  rf_id : hr_id r' = hr_id r;
  rf_command : hr_command r' = hr_command r;
  rf_hash : hr_command_hash r' = hr_command_hash r;
  rf_start : hr_start_ts r' = hr_start_ts r;
  rf_cwd : hr_cwd_id r' = hr_cwd_id r;
  rf_session : hr_session_id r' = hr_session_id r;
  rf_hostname : hr_hostname_id r' = hr_hostname_id r;
  rf_shell : hr_shell_id r' = hr_shell_id r;
  rf_device : hr_device_id r' = hr_device_id r;
  rf_origin_dev : hr_origin_device_id r' = hr_origin_device_id r;
  rf_origin_seq : hr_origin_seq r' = hr_origin_seq r;
  rf_deleted : hr_deleted r = true -> hr_deleted r' = true;
}.

Lemma row_refines_refl r : row_refines r r.
Proof. by split. Qed.
Lemma hr_set_deleted_refines r : row_refines r (hr_set_deleted r).
Proof. by split. Qed.
Lemma hr_set_completed_refines e x r : row_refines r (hr_set_completed e x r).
Proof. by split. Qed.
#[local] Hint Resolve row_refines_refl hr_set_deleted_refines hr_set_completed_refines : remnix.

Lemma row_refines_origin r r' s s' :
  row_refines r r' -> row_refines s s' -> same_origin r' s' = same_origin r s.
Proof.
  intros Hr Hs. unfold same_origin.
  by rewrite (rf_origin_dev _ _ Hr), (rf_origin_seq _ _ Hr), (rf_origin_dev _ _ Hs), (rf_origin_seq _ _ Hs).
Qed.

Lemma row_refines_dedup r r' s s' :
  row_refines r r' -> row_refines s s' -> same_dedup r' s' = true -> same_dedup r s = true.
Proof.
  intros Hr Hs. unfold same_dedup.
  rewrite (rf_hash _ _ Hr), (rf_start _ _ Hr), (rf_cwd _ _ Hr), (rf_device _ _ Hr),
    (rf_hash _ _ Hs), (rf_start _ _ Hs), (rf_cwd _ _ Hs), (rf_device _ _ Hs).
  pose proof (rf_deleted _ _ Hr). pose proof (rf_deleted _ _ Hs).
  destruct (hr_deleted r), (hr_deleted r'), (hr_deleted s), (hr_deleted s'); naive_solver.
Qed.

(** A statement that rewrites rows in place. *)
Definition rewrites (h h' : gmap string HistoryRow) : Prop :=
  forall k, match h' !! k with
       | Some r' => exists r, h !! k = Some r /\ row_refines r r'
       | None => h !! k = None
       end.

Lemma rewrites_wf h h' : rewrites h h' -> history_wf h -> history_wf h'.
Proof.
  intros Hre Hw.
  assert (forall k r', h' !! k = Some r' -> exists r, h !! k = Some r /\ row_refines r r') as Hlk.
  { intros k r' Hk. specialize (Hre k). by rewrite Hk in Hre. }
  split.
  - intros k r' (r & Hk & Hr)%Hlk. rewrite (rf_id _ _ Hr). by eapply hw_key.
  - intros k k' r s (r0 & Hk & Hr)%Hlk (s0 & Hk' & Hs)%Hlk Ho.
    rewrite (row_refines_origin _ _ _ _ Hr Hs) in Ho. by eapply (hw_origin _ Hw).
  - intros k k' r s (r0 & Hk & Hr)%Hlk (s0 & Hk' & Hs)%Hlk Ho.
    eapply row_refines_dedup in Ho; [|done|done]. by eapply (hw_dedup _ Hw).
Qed.

Lemma rewrites_alter h id f :
  (forall r, row_refines r (f r)) -> rewrites h (alter f id h).
Proof.
  intros Hf k. rewrite lookup_alter. case_decide; subst.
  - destruct (h !! k) eqn:E; simpl; eauto.
  - destruct (h !! k) eqn:E; eauto with remnix.
Qed.

Lemma rewrites_update_where h p f :
  (forall r, row_refines r (f r)) -> rewrites h (update_where p f h).
Proof.
  intros Hf k. rewrite lookup_update_where. destruct (h !! k) as [r|] eqn:E; simpl; [|done].
  exists r. split; [done|]. destruct (p r); eauto with remnix.
Qed.

Lemma rewrites_registered i h h' :
  rewrites h h' -> (forall k r, h !! k = Some r -> row_registered i r) ->
  forall k r, h' !! k = Some r -> row_registered i r.
Proof.
  intros Hre Hall k r' Hk. specialize (Hre k). rewrite Hk in Hre.
  destruct Hre as (r & Hr & []). specialize (Hall _ _ Hr). unfold row_registered in *. congruence.
Qed.

Lemma wf_rewrites d h' : rewrites (db_history d) h' -> wf d -> wf (set_history h' d).
Proof.
  intros Hre [Hh Hi Hr]. split; simpl.
  - by eapply rewrites_wf.
  - done.
  - by eapply rewrites_registered.
Qed.

Lemma Tombstone_wf id : mono (keeps wf) (Tombstone id).
Proof. intros d Hw. apply wf_rewrites; [|done]. apply rewrites_alter. auto with remnix. Qed.

Lemma Complete_wf id t x : mono (keeps wf) (Complete id t x).
Proof. intros d Hw. apply wf_rewrites; [|done]. apply rewrites_alter. auto with remnix. Qed.

Lemma TombstoneByOrigin_wf dev seq : mono (keeps wf) (TombstoneByOrigin dev seq).
Proof. intros d Hw. apply wf_rewrites; [|done]. apply rewrites_update_where. auto with remnix. Qed.

(** *** Insertion *)

Lemma history_wf_insert h r :
  history_wf h -> history_conflict h r = false -> history_wf (<[hr_id r:=r]> h).
Proof.
  intros Hw Hc. unfold history_conflict in Hc.
  apply orb_false_elim in Hc as [[Hid Ho]%orb_false_elim Hd].
  rewrite bool_decide_eq_false, <- eq_None_not_Some in Hid.
  rewrite select_any_false in Ho, Hd. split.
  - intros k r'. rewrite lookup_insert. case_decide; [by intros [= <-]|]. by apply hw_key.
  - intros k k' a b. rewrite !lookup_insert. repeat case_decide; subst; try done;
      intros; simplify_eq; [| |by eapply (hw_origin _ Hw)].
    + by rewrite (Ho k' b) in * by done.
    + rewrite same_origin_sym in *. by rewrite (Ho k a) in * by done.
  - intros k k' a b. rewrite !lookup_insert. repeat case_decide; subst; try done;
      intros; simplify_eq; [| |by eapply (hw_dedup _ Hw)].
    + by rewrite (Hd k' b) in * by done.
    + rewrite same_dedup_sym in *. by rewrite (Hd k a) in * by done.
Qed.

Lemma row_registered_mono i i' r : interns_sub i i' -> row_registered i r -> row_registered i' r.
Proof.
  intros (? & ? & ? & ?) (? & ? & ? & ?). unfold row_registered.
  eauto 10 using registered_mono.
Qed.

Section Insert.
Context `{Sha256}.

Lemma intern_entry_spec e i :
  interns_wf i ->
  let '(i', r) := intern_entry e i in
  interns_wf i' /\ interns_sub i i' /\ row_registered i' r /\ hr_id r = e_ID e /\
  scanEntry i' r =
    mkEntry (e_ID e) (e_Command e) (time_UnixMilli (UnixMilli (e_StartTS e)))
      (time_UnixMilli ∘ UnixMilli <$> e_EndTS e) (e_DurationMs e) (e_ExitStatus e)
      (e_Cwd e) (e_SessionID e) (e_Hostname e) (e_DeviceID e) (e_Shell e) (e_Deleted e)
      (e_OriginDeviceID e) (e_OriginSeq e) (time_UnixMilli (UnixMilli (e_CreatedAt e))).
Proof.
  intros [Hc Hs Hh Hl]. unfold intern_entry.
  pose proof (internID_inj (e_Cwd e) _ Hc). pose proof (internID_inj (e_SessionID e) _ Hs).
  pose proof (internID_inj (e_Hostname e) _ Hh). pose proof (internID_inj (e_Shell e) _ Hl).
  pose proof (internID_sub (e_Cwd e) (in_cwd i)). pose proof (internID_sub (e_SessionID e) (in_session i)).
  pose proof (internID_sub (e_Hostname e) (in_hostname i)). pose proof (internID_sub (e_Shell e) (in_shell i)).
  pose proof (internID_value (e_Cwd e) _ Hc). pose proof (internID_value (e_SessionID e) _ Hs).
  pose proof (internID_value (e_Hostname e) _ Hh). pose proof (internID_value (e_Shell e) _ Hl).
  pose proof (internID_registered (e_Cwd e) (in_cwd i)).
  pose proof (internID_registered (e_SessionID e) (in_session i)).
  pose proof (internID_registered (e_Hostname e) (in_hostname i)).
  pose proof (internID_registered (e_Shell e) (in_shell i)).
  destruct (internID (e_Cwd e) _), (internID (e_SessionID e) _),
    (internID (e_Hostname e) _), (internID (e_Shell e) _); simpl in *.
  repeat split; try done. unfold scanEntry. simpl.
  rewrite null_string_value_null_string. f_equal; try done.
  by destruct (e_EndTS e).
Qed.

Lemma InsertExec_wf now e : mono (keeps wf) (InsertExec now e).
Proof.
  intros d [Hh Hi Hr]. unfold InsertExec.
  pose proof (intern_entry_spec (with_created now e) (db_interns d) Hi) as Hspec.
  destruct (intern_entry _ _) as [i r]. destruct Hspec as (Hi' & Hsub & Hreg & _ & _).
  destruct (history_conflict _ r) eqn:Hc; split; simpl in *; try done.
  - intros k r' Hk. eapply row_registered_mono; eauto.
  - by apply history_wf_insert.
  - intros k r'. rewrite lookup_insert. case_decide; [by intros [= <-]|].
    intros Hk. eapply row_registered_mono; eauto.
Qed.
End Insert.

(** ** Behaviour of the writes and reads *)

(** What survives the millisecond columns of the table. *)
Definition stored_entry (e : Entry) : Entry :=
  mkEntry (e_ID e) (e_Command e) (time_UnixMilli (UnixMilli (e_StartTS e)))
    (time_UnixMilli ∘ UnixMilli <$> e_EndTS e) (e_DurationMs e) (e_ExitStatus e)
    (e_Cwd e) (e_SessionID e) (e_Hostname e) (e_DeviceID e) (e_Shell e) (e_Deleted e)
    (e_OriginDeviceID e) (e_OriginSeq e) (time_UnixMilli (UnixMilli (e_CreatedAt e))).

Lemma scanEntry_mono i i' r :
  interns_wf i' -> interns_sub i i' -> row_registered i r -> scanEntry i' r = scanEntry i r.
Proof.
  intros [] (? & ? & ? & ?) (? & ? & ? & ?). unfold scanEntry.
  by rewrite (intern_value_mono (in_cwd i) (in_cwd i')), (intern_value_mono (in_session i) (in_session i')),
    (intern_value_mono (in_hostname i) (in_hostname i')), (intern_value_mono (in_shell i) (in_shell i')).
Qed.

Section Reads.
Context `{Sha256}.

Lemma InsertExec_run now e d :
  wf d ->
  exists (i : Interns) (r : HistoryRow) (b : bool),
    InsertExec now e d =
      (if b then set_history (<[e_ID e:=r]> (db_history d)) (set_interns i d)
       else set_interns i d, Ok b) /\
    b = negb (history_conflict (db_history d) r) /\
    intern_entry (with_created now e) (db_interns d) = (i, r) /\
    interns_wf i /\ interns_sub (db_interns d) i /\ hr_id r = e_ID e /\
    scanEntry i r = stored_entry (with_created now e).
Proof.
  intros [Hh Hi Hr]. unfold InsertExec.
  pose proof (intern_entry_spec (with_created now e) (db_interns d) Hi) as Hspec.
  destruct (intern_entry _ _) as [i r]. destruct Hspec as (Hi' & Hsub & Hreg & Hid & Hsc).
  assert (e_ID (with_created now e) = e_ID e) as Hide
    by (unfold with_created; by destruct (time_IsZero _)).
  rewrite Hide in Hid. simpl.
  exists i, r, (negb (history_conflict (db_history d) r)).
  rewrite Hid. destruct (history_conflict (db_history d) r) eqn:Hc; simpl; auto 10.
Qed.

(** InsertExec always succeeds; when it inserts, Get returns the entry at millisecond
    precision, and every other entry (all of them when the row is ignored as a duplicate) reads as
    before. *)
Theorem InsertExec_Get (now : Time) (e : Entry) (d : DB) :
  wf d ->
  exists d' inserted, InsertExec now e d = (d', Ok inserted) /\
    (inserted = true -> Get d' (e_ID e) = Some (stored_entry (with_created now e))) /\
    (forall id, inserted = false \/ id <> e_ID e -> Get d' id = Get d id).
Proof.
  intros Hw. destruct (InsertExec_run now e d Hw) as (i & r & b & -> & _ & _ & Hi & Hsub & Hid & Hsc).
  eexists _, b. split; [done|]. split.
  - intros ->. unfold Get, scanFound. simpl. rewrite lookup_insert_eq. simpl. by rewrite Hsc.
  - intros id' Hne. unfold Get, scanFound.
    assert (scanEntry i <$> db_history d !! id' = scanEntry (db_interns d) <$> db_history d !! id') as Heq.
    { destruct (db_history d !! id') as [r'|] eqn:E; simpl; [|done]. f_equal.
      apply scanEntry_mono; [done|done|]. by eapply wf_registered. }
    destruct b; simpl; [|done]. rewrite lookup_insert_ne; [done|]. naive_solver.
Qed.
End Reads.

(** *** [LIKE] prefixes *)

Definition escape_like (c : ascii) : string :=
  if Ascii.eqb c "\" || Ascii.eqb c "%" || Ascii.eqb c "_" then String "\" (String c "")
  else String c "".

Lemma likePrefix_cons c s : likePrefix (String c s) = (escape_like c +:+ likePrefix s)%string.
Proof.
  unfold likePrefix, escape_like. cbn [replace_char].
  destruct (Ascii.eqb_spec "\" c) as [<-|H1]; [done|].
  destruct (Ascii.eqb_spec "%" c) as [<-|H2]; [done|].
  destruct (Ascii.eqb_spec "_" c) as [<-|H3]; [done|].
  cbn [replace_char].
  rewrite (proj2 (Ascii.eqb_neq "%" c)), (proj2 (Ascii.eqb_neq c "%")) by congruence.
  rewrite (proj2 (Ascii.eqb_neq c "\")), (proj2 (Ascii.eqb_neq c "_")) by congruence.
  cbn [replace_char]. by rewrite (proj2 (Ascii.eqb_neq "_" c)) by congruence.
Qed.

Lemma sql_like_escape c p s :
  sql_like (escape_like c +:+ p) s = like_char c (sql_like p) s.
Proof.
  unfold escape_like.
  destruct (Ascii.eqb c "\" || Ascii.eqb c "%" || Ascii.eqb c "_") eqn:E; [done|].
  apply orb_false_elim in E as [[E1 E2]%orb_false_elim E3]. simpl. by rewrite E1, E2, E3.
Qed.

Lemma sql_like_percent s : sql_like "%" s = true.
Proof. simpl. induction s as [|c s IH]; simpl; [done|]. by rewrite IH. Qed.

(** The escaped LIKE pattern built from a prefix matches exactly the strings that start with
    it, ignoring ASCII case, whatever wildcards the prefix contains. *)
Theorem likePrefix_matches (prefix s : string) :
  sql_like (likePrefix prefix) s = has_prefix (sql_lower prefix) (sql_lower s).
Proof.
  revert s. induction prefix as [|c p IH]; intros s.
  { apply sql_like_percent. }
  rewrite likePrefix_cons, sql_like_escape. destruct s as [|d s]; [done|].
  cbn [like_char sql_lower has_prefix]. by rewrite IH.
Qed.

(** *** Recency *)

Lemma newer_irrefl r : newer r r = false.
Proof. unfold newer. by rewrite Z.ltb_irrefl, str_lt_irrefl, andb_false_r. Qed.

Lemma newer_trans a b c : newer a b = true -> newer b c = true -> newer a c = true.
Proof.
  unfold newer. rewrite !orb_true_iff, !andb_true_iff, !Z.ltb_lt, !Z.eqb_eq.
  intros [?|[? Hab]] [?|[? Hbc]]; try (left; lia). right. split; [lia|].
  by eapply str_lt_trans.
Qed.

Lemma newer_total a b : hr_id a <> hr_id b -> newer a b = true \/ newer b a = true.
Proof.
  intros Hne. unfold newer. rewrite !orb_true_iff, !andb_true_iff, !Z.ltb_lt, !Z.eqb_eq.
  destruct (Z.lt_trichotomy (hr_start_ts a) (hr_start_ts b)) as [?|[?|?]]; [auto| |auto].
  destruct (str_lt (hr_id b) (hr_id a)) eqn:E; [auto|].
  destruct (str_lt (hr_id a) (hr_id b)) eqn:E'; [auto|].
  destruct Hne. by apply str_lt_total.
Qed.

(** A non-empty list of rows with distinct ids has a newest one. *)
Lemma newest_exists (l : list HistoryRow) :
  l <> [] -> (forall r r', r ∈ l -> r' ∈ l -> hr_id r = hr_id r' -> r = r') ->
  exists m, m ∈ l /\ forall r, r ∈ l -> r = m \/ newer m r = true.
Proof.
  induction l as [|x l IH]; [done|]. intros _ Hid. destruct (decide (l = [])) as [->|Hl].
  { exists x. split; [left|]. intros r [->|[]%elem_of_nil]%elem_of_cons. by left. }
  destruct IH as (m & Hm & Hmax); [done|by intros; apply Hid; [right|right|]|].
  destruct (decide (hr_id x = hr_id m)) as [He|Hne].
  { exists m. split; [by right|]. intros r [->|Hr]%elem_of_cons; [|auto].
    left. apply Hid; [left|by right|done]. }
  destruct (newer_total _ _ Hne) as [Hn|Hn].
  - exists x. split; [left|]. intros r [->|Hr]%elem_of_cons; [by left|].
    destruct (Hmax r Hr) as [->|Hlt]; [by right|right; by eapply newer_trans].
  - exists m. split; [by right|]. intros r [->|Hr]%elem_of_cons; auto.
Qed.

Definition row_of (d : DB) (r : HistoryRow) : Prop := exists k, db_history d !! k = Some r.

Lemma elem_of_list_rows f d r :
  f_Limit f <= 0 ->
  r ∈ list_rows f d <->
  row_of d r /\ predicates f (db_interns d) r = true /\ (f_Unique f = true -> shadowed f d r = false).
Proof.
  intros Hlim. unfold list_rows, limit_rows. rewrite (proj2 (Z.ltb_ge 0 (f_Limit f))) by done.
  rewrite elem_of_sort_slice, list_elem_of_In, filter_In, <- list_elem_of_In, elem_of_rows.
  unfold row_of. rewrite andb_true_iff.
  destruct (f_Unique f), (shadowed f d r); naive_solver.
Qed.

(** A unique listing without a limit has a row for every command that matches the filter, and
    each listed row is the newest matching one of its command. *)
Theorem List_unique_newest (f : Filter) (d : DB) :
  wf d -> f_Unique f = true -> f_Limit f <= 0 ->
  (forall r, row_of d r -> predicates f (db_interns d) r = true ->
     exists m, m ∈ list_rows f d /\ hr_command_hash m = hr_command_hash r) /\
  (forall m r, m ∈ list_rows f d -> row_of d r -> predicates f (db_interns d) r = true ->
     hr_command_hash r = hr_command_hash m -> r = m \/ newer m r = true).
Proof.
  intros [[Hkey _ _] _ _] Hu Hlim.
  assert (forall r r', row_of d r -> row_of d r' -> hr_id r = hr_id r' -> r = r') as Hid.
  { intros r r' [k Hk] [k' Hk'] He. pose proof (Hkey _ _ Hk). pose proof (Hkey _ _ Hk'). congruence. }
  split.
  - intros r Hr Hp.
    set (l := List.filter (fun r2 => predicates f (db_interns d) r2 &&
                bool_decide (hr_command_hash r2 = hr_command_hash r)) (rows (db_history d))).
    assert (forall x, x ∈ l <-> row_of d x /\ predicates f (db_interns d) x = true /\
                hr_command_hash x = hr_command_hash r) as Hl.
    { intros x. unfold l. rewrite list_elem_of_In, filter_In, <- list_elem_of_In, elem_of_rows.
      rewrite andb_true_iff, bool_decide_eq_true. done. }
    destruct (newest_exists l) as (m & (Hm1 & Hm2 & Hm3)%Hl & Hmax).
    { intros He. assert (r ∈ l) as Hin by (by apply Hl). rewrite He in Hin. by apply elem_of_nil in Hin. }
    { intros x y (Hx & _)%Hl (Hy & _)%Hl. by apply Hid. }
    exists m. split; [|done]. apply elem_of_list_rows; [done|]. split_and!; [done..|]. intros _.
    unfold shadowed. apply select_any_false. intros k r2 Hk.
    destruct (predicates f _ r2) eqn:Hp2; [|done]. simpl. case_bool_decide as Hh; [|done]. simpl.
    destruct (newer r2 m) eqn:Hn; [|done].
    destruct (Hmax r2) as [->|Hn']; [apply Hl; split_and!; [by exists k|done|congruence]|..].
    + by rewrite newer_irrefl in Hn.
    + pose proof (newer_trans _ _ _ Hn Hn') as Hc. by rewrite newer_irrefl in Hc.
  - intros m r (Hm & Hpm & Hsh)%elem_of_list_rows Hr Hp Hh; [|done]. specialize (Hsh Hu).
    destruct (decide (hr_id r = hr_id m)) as [He|Hne]; [left; by apply Hid|].
    destruct (newer_total _ _ Hne) as [Hn|Hn]; [|by right].
    destruct Hr as [k Hk]. unfold shadowed in Hsh. rewrite select_any_false in Hsh.
    specialize (Hsh k r Hk). rewrite Hp, Hn in Hsh. simpl in Hsh.
    rewrite bool_decide_eq_true_2 in Hsh by congruence. done.
Qed.
