(* ===== verification/Frontier.v ===== *)
(** [internal/sync/merge/frontier.go]: version vectors. A frontier maps a
    device to the last sequence number of that device that is known; a
    missing key reads as [0], as a Go map does. The lemmas show the order
    [Dominates] and the join [Union] form a lattice on non-negative
    frontiers, that [Missing] is the exact difference, and how [Score]
    relates to dominance. *)

From S2P Require Import Prelude.

(** [type Frontier map[string]int64] *)
Abbreviation Frontier := (gmap string Z).

Record Range := mkRange { DeviceID : string; Start : Z; End : Z }.

(** [f[deviceID]] *)
Definition at_ (f : Frontier) (deviceID : string) : Z := default 0 (f !! deviceID).

Definition Clone (f : Frontier) : Frontier :=
  map_fold (fun k v out => <[k:=v]> out) ∅ f.

Definition Advance (f : Frontier) (deviceID : string) (seq : Z) : Frontier :=
  if at_ f deviceID <? seq then <[deviceID:=seq]> f else f.

Definition Missing (local remote : Frontier) : list Range :=
  sort_slice (fun a b => str_lt (DeviceID a) (DeviceID b))
    (omap (fun '(deviceID, remoteSeq) =>
             let localSeq := at_ local deviceID in
             if localSeq <? remoteSeq
             then Some (mkRange deviceID (wrap64 (localSeq + 1)) remoteSeq) else None)
       (map_to_list remote)).

Definition Covers (f : Frontier) (deviceID : string) (seq : Z) : bool := seq <=? at_ f deviceID.

Definition Dominates (a b : Frontier) : bool :=
  forallb (fun '(id, seq) => negb (at_ a id <? seq)) (map_to_list b).

Definition Score (f : Frontier) : Z :=
  map_fold (fun _ seq n => wrap64 (n + seq)) 0 f.

Definition Union (a b : Frontier) : Frontier :=
  map_fold (fun id seq out => if at_ out id <? seq then <[id:=seq]> out else out) (Clone a) b.

(** ** Reading the operations pointwise *)

Definition nonneg (f : Frontier) : Prop := forall id s, f !! id = Some s -> 0 <= s.

Lemma nonneg_at f id : nonneg f -> 0 <= at_ f id.
Proof. intros Hf. unfold at_. destruct (f !! id) eqn:E; simpl; [by eapply Hf|lia]. Qed.

Lemma Clone_id f : Clone f = f.
Proof.
  unfold Clone. apply (map_fold_weak_ind (fun out f => out = f)); [done|].
  by intros k v m out _ ->.
Qed.

Lemma Dominates_spec a b :
  Dominates a b = true <-> forall id s, b !! id = Some s -> s <= at_ a id.
Proof.
  unfold Dominates. rewrite forallb_forall. split.
  - intros Ha id s Hs. specialize (Ha (id, s)). rewrite <- list_elem_of_In in Ha.
    specialize (Ha (proj2 (elem_of_map_to_list _ _ _) Hs)). simpl in Ha.
    apply negb_true_iff, Z.ltb_ge in Ha. done.
  - intros Ha [id s] Hin%list_elem_of_In%elem_of_map_to_list.
    apply negb_true_iff, Z.ltb_ge. eauto.
Qed.

Lemma Dominates_at a b :
  nonneg a -> Dominates a b = true <-> forall id, at_ b id <= at_ a id.
Proof.
  intros Ha. rewrite Dominates_spec. split.
  - intros Hd id. unfold at_ at 1. destruct (b !! id) eqn:E; simpl; [by apply Hd|by apply nonneg_at].
  - intros Hd id s Hs. specialize (Hd id). unfold at_ at 1 in Hd. by rewrite Hs in Hd.
Qed.

Lemma Dominates_refl f : Dominates f f = true.
Proof. apply Dominates_spec. intros id s Hs. unfold at_. by rewrite Hs. Qed.

Lemma Dominates_trans a b c :
  nonneg a -> Dominates a b = true -> Dominates b c = true -> Dominates a c = true.
Proof.
  intros Ha. rewrite (Dominates_at a b), (Dominates_at a c), Dominates_spec by done.
  intros Hab Hbc id. unfold at_ at 1. destruct (c !! id) as [s|] eqn:E; simpl.
  - apply Hbc in E. specialize (Hab id). lia.
  - by apply nonneg_at.
Qed.

Lemma Union_at a b id :
  at_ (Union a b) id = match b !! id with
                       | Some s => Z.max s (at_ a id)
                       | None => at_ a id
                       end.
Proof.
  unfold Union. rewrite Clone_id. revert id.
  apply (map_fold_weak_ind (fun out b => forall id, at_ out id =
           match b !! id with Some s => Z.max s (at_ a id) | None => at_ a id end)).
  { intros id. by rewrite lookup_empty. }
  intros k s m out Hk IH id. rewrite lookup_insert. case_decide as Hkid.
  - subst. pose proof (IH id) as IHid. rewrite Hk in IHid. rewrite <- IHid.
    destruct (Z.ltb_spec (at_ out id) s).
    + unfold at_ at 1. rewrite lookup_insert_eq. simpl. lia.
    + lia.
  - destruct (at_ out k <? s); [|apply IH]. unfold at_ at 1.
    rewrite lookup_insert_ne by done. apply IH.
Qed.

Lemma Union_nonneg a b : nonneg a -> nonneg b -> nonneg (Union a b).
Proof.
  intros Ha Hb. unfold Union. rewrite Clone_id.
  apply (map_fold_weak_ind (fun out b => nonneg b -> nonneg out)); [done| |done].
  intros k s m out Hk IH Hm. assert (nonneg out) as Hout.
  { apply IH. intros id x Hx. apply (Hm id). rewrite lookup_insert_ne; [done|congruence]. }
  destruct (at_ out k <? s); [|done]. intros id x. rewrite lookup_insert. case_decide.
  - intros [= <-]. apply (Hm k). by rewrite lookup_insert_eq.
  - apply Hout.
Qed.

(** The union of two frontiers is their least upper bound for Dominates. *)
Theorem Union_lub (a b c : Frontier) :
  nonneg a -> nonneg b -> nonneg c ->
  Dominates (Union a b) a = true /\ Dominates (Union a b) b = true /\
  (Dominates c a = true -> Dominates c b = true -> Dominates c (Union a b) = true).
Proof.
  intros Ha Hb Hc. pose proof (Union_nonneg a b Ha Hb) as Hun.
  rewrite (Dominates_at (Union a b) a), (Dominates_at (Union a b) b), (Dominates_at c a),
    (Dominates_at c b), (Dominates_at c (Union a b)) by done.
  assert (forall id, at_ (Union a b) id = Z.max (at_ b id) (at_ a id)) as Hu.
  { intros id. rewrite Union_at. unfold at_ at 3. pose proof (nonneg_at a id Ha).
    destruct (b !! id); simpl; lia. }
  split_and!; intros; rewrite ?Hu; try lia.
  repeat match goal with Hd : forall id, at_ _ id <= at_ c id |- _ => specialize (Hd id) end. lia.
Qed.

(** *** [Missing] *)

Lemma elem_of_Missing local remote r :
  r ∈ Missing local remote <->
  exists rs, remote !! DeviceID r = Some rs /\ at_ local (DeviceID r) < rs /\
    r = mkRange (DeviceID r) (wrap64 (at_ local (DeviceID r) + 1)) rs.
Proof.
  unfold Missing. rewrite elem_of_sort_slice, list_elem_of_omap. split.
  - intros ([d rs] & Hin%elem_of_map_to_list & Hr).
    destruct (Z.ltb_spec (at_ local d) rs); simplify_eq. simpl. eauto.
  - intros (rs & Hrs & Hlt & Hr). exists (DeviceID r, rs).
    rewrite elem_of_map_to_list. split; [done|]. simpl.
    destruct (Z.ltb_spec (at_ local (DeviceID r)) rs); [by f_equal|lia].
Qed.

(** The ranges Missing returns contain exactly the sequence numbers above the local head and up
    to the remote one, with 64-bit arithmetic. *)
Theorem Missing_exact (local remote : Frontier) (dev : string) (seq : Z) :
  (forall id, int64 (at_ local id)) -> (forall id s, remote !! id = Some s -> int64 s) ->
  (exists r, r ∈ Missing local remote /\ DeviceID r = dev /\ Start r <= seq <= End r) <->
  (exists rs, remote !! dev = Some rs /\ at_ local dev < seq <= rs).
Proof.
  intros Hl Hr. split.
  - intros (r & (rs & Hrs & Hlt & Heq)%elem_of_Missing & <- & Hs). exists rs. split; [done|].
    rewrite Heq in Hs. simpl in Hs. specialize (Hl (DeviceID r)). specialize (Hr _ _ Hrs).
    rewrite wrap64_small in Hs by (unfold int64 in *; lia). lia.
  - intros (rs & Hrs & Hs). exists (mkRange dev (wrap64 (at_ local dev + 1)) rs).
    specialize (Hl dev). specialize (Hr _ _ Hrs). split.
    + apply elem_of_Missing. exists rs. simpl. split_and!; [done|lia|done].
    + simpl. rewrite wrap64_small by (unfold int64 in *; lia). split; [done|lia].
Qed.

(** *** [Score] *)

Definition sumZ {A} (f : A -> Z) (l : list A) : Z := foldr (fun x n => f x + n) 0 l.

Lemma sumZ_perm {A} (f : A -> Z) l l' : l ≡ₚ l' -> sumZ f l = sumZ f l'.
Proof. induction 1; simpl; lia. Qed.

Lemma sumZ_ext {A} (f g : A -> Z) l : (forall x, x ∈ l -> f x = g x) -> sumZ f l = sumZ g l.
Proof.
  induction l as [|x l IH]; simpl; intros Hfg; [done|].
  rewrite (Hfg x), IH by set_solver. done.
Qed.

Lemma sumZ_le {A} (f g : A -> Z) l : (forall x, x ∈ l -> f x <= g x) -> sumZ f l <= sumZ g l.
Proof.
  induction l as [|x l IH]; simpl; intros Hfg; [done|].
  pose proof (Hfg x ltac:(left)). specialize (IH ltac:(set_solver)). lia.
Qed.

Lemma sumZ_lt {A} (f g : A -> Z) l x :
  (forall x, x ∈ l -> f x <= g x) -> x ∈ l -> f x < g x -> sumZ f l < sumZ g l.
Proof.
  intros Hfg Hx Hlt. apply elem_of_Permutation in Hx as [k Hk].
  rewrite !(sumZ_perm _ _ _ Hk). simpl. assert (sumZ f k <= sumZ g k); [|lia].
  apply sumZ_le. intros y Hy. apply Hfg. rewrite Hk. by right.
Qed.

(** The mathematical sum that [Score] computes modulo [2^64]. *)
Definition frontier_sum (f : Frontier) : Z := map_fold (fun _ s n => n + s) 0 f.

Lemma Score_sum f : Score f = wrap64 (frontier_sum f).
Proof.
  unfold Score, frontier_sum. rewrite !map_fold_foldr.
  induction (map_to_list f) as [|[k s] l IH]; simpl; [done|]. rewrite IH. unfold wrap64.
  set (z := foldr _ _ _). replace (z + s + 2^63) with ((z + 2^63) + s) by lia.
  replace ((z + 2^63) `mod` 2^64 - 2^63 + s + 2^63) with ((z + 2^63) `mod` 2^64 + s) by lia.
  by rewrite Zplus_mod_idemp_l.
Qed.

Lemma frontier_sum_dom f (X : gset string) :
  dom f ⊆ X -> frontier_sum f = sumZ (at_ f) (elements X).
Proof.
  revert X. unfold frontier_sum.
  induction f as [|k s f Hk IH] using map_ind; intros X HX.
  - rewrite map_fold_empty. induction (elements X); simpl; [done|]. rewrite <- IHl. done.
  - rewrite map_fold_insert_L; [|intros; lia|done].
    rewrite dom_insert_L in HX.
    assert (X = {[k]} ∪ X ∖ {[k]}) as HXe by (apply union_difference_L; set_solver).
    assert (elements X ≡ₚ k :: elements (X ∖ {[k]})) as Hp.
    { rewrite HXe at 1. apply elements_union_singleton. set_solver. }
    rewrite (sumZ_perm _ _ _ Hp). simpl.
    rewrite (IH (X ∖ {[k]})).
    2: { apply not_elem_of_dom in Hk. set_solver. }
    rewrite (sumZ_ext (at_ (<[k:=s]> f)) (at_ f)).
    + unfold at_ at 2. rewrite lookup_insert_eq. simpl. lia.
    + intros x Hx. unfold at_. rewrite lookup_insert_ne; [done|]. set_solver.
Qed.

(** Strict dominance is a strictly larger sum; mutual dominance an equal one. *)
Lemma Dominates_sum a b :
  nonneg a -> nonneg b -> Dominates a b = true -> frontier_sum b <= frontier_sum a.
Proof.
  intros Ha Hb Hd. rewrite Dominates_at in Hd by done.
  rewrite (frontier_sum_dom a (dom a ∪ dom b)), (frontier_sum_dom b (dom a ∪ dom b)) by set_solver.
  apply sumZ_le. auto.
Qed.

Lemma Dominates_sum_strict a b :
  nonneg a -> nonneg b -> Dominates a b = true -> Dominates b a = false ->
  frontier_sum b < frontier_sum a.
Proof.
  intros Ha Hb Hd Hnd. rewrite Dominates_at in Hd by done.
  assert (exists id s, a !! id = Some s /\ at_ b id < s) as (id & s & Hs & Hlt).
  { unfold Dominates in Hnd. apply not_true_iff_false in Hnd.
    rewrite forallb_forall in Hnd.
    destruct (decide (Exists (fun '(id, s) => at_ b id < s) (map_to_list a))) as [Hex|Hno].
    - apply Exists_exists in Hex as ([id s] & Hin & Hlt). apply elem_of_map_to_list in Hin. eauto.
    - destruct Hnd. intros [id s] Hin%list_elem_of_In. apply negb_true_iff, Z.ltb_ge.
      destruct (Z.le_gt_cases s (at_ b id)); [done|]. destruct Hno. apply Exists_exists.
      exists (id, s). split; [done|]. simpl. lia. }
  rewrite (frontier_sum_dom a (dom a ∪ dom b)), (frontier_sum_dom b (dom a ∪ dom b)) by set_solver.
  apply (sumZ_lt _ _ _ id); [auto| |].
  - apply elem_of_elements, elem_of_union. left. apply elem_of_dom. eauto.
  - unfold at_ at 2. by rewrite Hs.
Qed.
