(* ===== verification/Event.v ===== *)
(** [internal/sync/event]: the event records exchanged between devices
    ([event.go]) and the local event log in [sync_events] ([store.go]). The
    log is thin: history events are stored without a payload and are rebuilt
    from the history table, and applied [history-created] rows are compacted
    away up to the device head. *)

From S2P Require Import Prelude Database History.

Definition CurrentVersion : Z := 1.

Definition TypeHistoryCreated : string := "history-created".
Definition TypeHistoryTombstoned : string := "history-tombstoned".
Definition TypeDeviceMeta : string := "device-meta".
Definition TypeCheckpointRef : string := "checkpoint-ref".

Record Event := mkEvent {
  ev_Version : Z;
  ev_Type : string;
  ev_DeviceID : string;
  ev_Seq : Z;
  ev_TimeUnix : Z;
  ev_Payload : bytes;
}.

Record HistoryCreated := mkHistoryCreated {
  hc_ID : string;
  hc_Command : string;
  hc_StartTS : Z;
  hc_EndTS : Z;
  hc_DurationMs : Z;
  hc_ExitStatus : option Z;
  hc_Cwd : string;
  hc_SessionID : string;
  hc_Hostname : string;
  hc_Shell : string;
}.

Record HistoryTombstoned := mkHistoryTombstoned {
  ht_HistoryID : string;
  ht_OriginDeviceID : string;
  ht_OriginSeq : Z;
}.

Record DeviceMeta := mkDeviceMeta {
  dm_Name : string;
  dm_Hostname : string;
  dm_Status : string;
}.

#[global] Instance event_eq_dec : EqDecision Event.
Proof. solve_decision. Defined.
#[global] Instance history_created_eq_dec : EqDecision HistoryCreated.
Proof. solve_decision. Defined.
#[global] Instance history_tombstoned_eq_dec : EqDecision HistoryTombstoned.
Proof. solve_decision. Defined.
#[global] Instance device_meta_eq_dec : EqDecision DeviceMeta.
Proof. solve_decision. Defined.

(** The zero [Event] of Go. *)
Definition event_zero : Event := mkEvent 0 "" "" 0 0 [].

Definition with_time (t : Z) (ev : Event) : Event :=
  mkEvent (ev_Version ev) (ev_Type ev) (ev_DeviceID ev) (ev_Seq ev) t (ev_Payload ev).

(** The CBOR codecs of the event structs. *)
Class EventCodecs := {
  ec_event :: Codec Event;
  ec_created :: Codec HistoryCreated;
  ec_tombstoned :: Codec HistoryTombstoned;
  ec_device_meta :: Codec DeviceMeta;
}.
Class EventCodecLaws `{EventCodecs} := {
  ecl_event :: CodecLaws Event;
  ecl_created :: CodecLaws HistoryCreated;
  ecl_tombstoned :: CodecLaws HistoryTombstoned;
  ecl_device_meta :: CodecLaws DeviceMeta;
}.

Section Event.
Context `{EventCodecs}.

(** ** [event.go] *)

Definition Encode (ev : Event) : bytes :=
  marshal (if ev_Version ev =? 0
           then mkEvent CurrentVersion (ev_Type ev) (ev_DeviceID ev) (ev_Seq ev)
                  (ev_TimeUnix ev) (ev_Payload ev)
           else ev).

Definition Decode (b : bytes) : result Event :=
  match (unmarshal b : option Event) with
  | None => Fail (EMsg "cbor")
  | Some ev =>
      if negb (ev_Version ev =? CurrentVersion) then Fail (EMsg "unsupported event version")
      else if str_empty (ev_DeviceID ev) || (ev_Seq ev <=? 0) || str_empty (ev_Type ev)
           then Fail (EMsg "malformed event")
           else Ok ev
  end.

Definition created_payload (e : Entry) : HistoryCreated :=
  mkHistoryCreated (e_ID e) (e_Command e) (UnixMilli (e_StartTS e))
    (from_option UnixMilli 0 (e_EndTS e)) (default 0 (e_DurationMs e)) (e_ExitStatus e)
    (e_Cwd e) (e_SessionID e) (e_Hostname e) (e_Shell e).

Definition NewHistoryCreated (now : Time) (deviceID : string) (seq : Z) (e : Entry) : Event :=
  mkEvent CurrentVersion TypeHistoryCreated deviceID seq (UnixMilli now)
    (marshal (created_payload e)).

Definition DecodeHistoryCreated (ev : Event) : result HistoryCreated :=
  match unmarshal (ev_Payload ev) with Some p => Ok p | None => Fail (EMsg "cbor") end.

Definition NewHistoryTombstoned (now : Time) (deviceID : string) (seq : Z)
    (p : HistoryTombstoned) : Event :=
  mkEvent CurrentVersion TypeHistoryTombstoned deviceID seq (UnixMilli now) (marshal p).

Definition DecodeHistoryTombstoned (ev : Event) : result HistoryTombstoned :=
  match unmarshal (ev_Payload ev) with Some p => Ok p | None => Fail (EMsg "cbor") end.

(** ** [store.go] *)

Definition event_max (d : DB) (deviceID : string) : option Z :=
  foldr (fun '((dev, seq), _) acc =>
           if String.eqb dev deviceID then Some (from_option (Z.max seq) seq acc) else acc)
    None (map_to_list (db_events d)).

Definition NextSeq (d : DB) (deviceID : string) : Z :=
  let n := default 0 (event_max d deviceID) in
  let n := match db_heads d !! deviceID with
           | Some h => if n <? h then h else n
           | None => n
           end in
  wrap64 (n + 1).

Definition historyIDOf (ev : Event) : string :=
  if String.eqb (ev_Type ev) TypeHistoryCreated then
    match DecodeHistoryCreated ev with Ok p => hc_ID p | Fail _ => EmptyString end
  else if String.eqb (ev_Type ev) TypeHistoryTombstoned then
    match DecodeHistoryTombstoned ev with Ok p => ht_HistoryID p | Fail _ => EmptyString end
  else EmptyString.

Definition is_history_type (t : string) : bool :=
  String.eqb t TypeHistoryCreated || String.eqb t TypeHistoryTombstoned.

Definition event_row (ev : Event) : EventRow :=
  mkEventRow (ev_Type ev) (null_string (historyIDOf ev))
    (if is_history_type (ev_Type ev) then [] else Encode ev) false (ev_TimeUnix ev).

Definition AppendExec (ev : Event) : M DB unit := fun d =>
  match db_events d !! (ev_DeviceID ev, ev_Seq ev) with
  | Some _ => (d, Fail (EWrap "append event" (EMsg "UNIQUE constraint failed")))
  | None => (set_events (<[(ev_DeviceID ev, ev_Seq ev) := event_row ev]> (db_events d)) d, Ok tt)
  end.

Definition Append (ev : Event) : M DB unit := AppendExec ev.
Definition AppendTx (ev : Event) : M DB unit := AppendExec ev.

Definition MarkApplied (deviceID : string) (seq : Z) : M DB unit :=
  modify (fun d => set_events (alter er_set_applied (deviceID, seq) (db_events d)) d).
Definition MarkAppliedTx (deviceID : string) (seq : Z) : M DB unit := MarkApplied deviceID seq.

Definition rebuildCreated (now : Time) (d : DB) (deviceID : string) (seq : Z)
    (historyID : string) : Event :=
  let e := match (if str_empty historyID then None else History.Get d historyID) with
           | Some e => Some e
           | None => History.ByOrigin d deviceID seq
           end in
  match e with
  | None => event_zero
  | Some e => with_time (UnixMilli (e_CreatedAt e)) (NewHistoryCreated now deviceID seq e)
  end.

Definition rebuildTombstone (now : Time) (d : DB) (deviceID : string) (seq : Z)
    (historyID : string) (createdAt : Z) : Event :=
  let '(originDev, originSeq, historyID) :=
    match History.Get d historyID with
    | Some e => (e_OriginDeviceID e, default 0 (e_OriginSeq e),
                 if str_empty historyID then e_ID e else historyID)
    | None => (EmptyString, 0, historyID)
    end in
  let ev := NewHistoryTombstoned now deviceID seq (mkHistoryTombstoned historyID originDev originSeq) in
  if createdAt =? 0 then ev else with_time createdAt ev.

Definition hydrate (now : Time) (d : DB) (deviceID : string) (seq : Z)
    (eventType historyID : string) (payload : bytes) (createdAt : Z) : result Event :=
  match payload with
  | _ :: _ => Decode payload
  | [] =>
      if String.eqb eventType TypeHistoryCreated then
        let ev := rebuildCreated now d deviceID seq historyID in
        Ok (if createdAt =? 0 then ev else with_time createdAt ev)
      else if String.eqb eventType TypeHistoryTombstoned then
        Ok (rebuildTombstone now d deviceID seq historyID createdAt)
      else Fail (EMsg "missing payload")
  end.

Definition hydrate_row (now : Time) (d : DB) (deviceID : string) (seq : Z) (r : EventRow)
    : result Event :=
  hydrate now d deviceID seq (er_event_type r) (null_string_value (er_history_id r))
    (er_payload r) (er_created_at r).

Definition loadRow (now : Time) (d : DB) (deviceID : string) (seq : Z) : result (option Event) :=
  match db_events d !! (deviceID, seq) with
  | None => Ok None
  | Some r => Some <$> hydrate_row now d deviceID seq r
  end.

Definition Get (now : Time) (d : DB) (deviceID : string) (seq : Z) : result (option Event) :=
  match loadRow now d deviceID seq with
  | Fail e => Fail e
  | Ok (Some ev) => Ok (Some ev)
  | Ok None =>
      let ev := rebuildCreated now d deviceID seq EmptyString in
      Ok (if ev_Seq ev =? 0 then None else Some ev)
  end.

(** [SELECT ... FROM sync_events WHERE device_id = ? AND p ORDER BY seq] *)
Definition select_events (d : DB) (deviceID : string) (p : Z -> EventRow -> bool)
    : list (Z * EventRow) :=
  sort_slice (fun a b => a.1 <? b.1)
    (omap (fun '((dev, seq), r) =>
             if String.eqb dev deviceID && p seq r then Some (seq, r) else None)
       (map_to_list (db_events d))).

Fixpoint scanHydrated (now : Time) (d : DB) (deviceID : string) (rows : list (Z * EventRow))
    : result (list Event) :=
  match rows with
  | [] => Ok []
  | (seq, r) :: rows =>
      ev ← hydrate_row now d deviceID seq r;
      out ← scanHydrated now d deviceID rows;
      Ok (ev :: out)
  end.

Definition UnappliedLocal (now : Time) (d : DB) (deviceID : string) : result (list Event) :=
  scanHydrated now d deviceID (select_events d deviceID (fun _ r => negb (er_applied r))).

(** The map [bySeq] of [Range]: the stored events, then the history rows whose
    sequence number is not taken. *)
Definition range_map (now : Time) (d : DB) (deviceID : string) (stored : list Event)
    (entries : list Entry) : gmap Z Event :=
  let bySeq := foldl (fun m ev => <[ev_Seq ev := ev]> m) ∅ stored in
  foldl (fun m e =>
           match e_OriginSeq e with
           | None => m
           | Some seq =>
               match m !! seq with
               | Some _ => m
               | None => <[seq := with_time (UnixMilli (e_CreatedAt e))
                                   (NewHistoryCreated now deviceID seq e)]> m
               end
           end) bySeq entries.

(** [for seq := range bySeq], sorted, mapped back. *)
Definition by_seq (m : gmap Z Event) : list Event :=
  snd <$> sort_slice (fun a b => a.1 <? b.1) (map_to_list m).

Definition Range (now : Time) (d : DB) (deviceID : string) (start end_ : Z)
    : result (list Event) :=
  stored ← scanHydrated now d deviceID
             (select_events d deviceID (fun seq _ => (start <=? seq) && (seq <=? end_)));
  let entries := History.ListByOriginRange d deviceID start end_ in
  Ok (by_seq (range_map now d deviceID stored entries)).

Definition Exists_ (d : DB) (deviceID : string) (seq : Z) : bool :=
  bool_decide (is_Some (db_events d !! (deviceID, seq))).
Definition ExistsTx (d : DB) (deviceID : string) (seq : Z) : bool := Exists_ d deviceID seq.

Definition is_created_row (r : EventRow) : bool :=
  String.eqb (er_event_type r) TypeHistoryCreated.

Definition CompactCreated (deviceID : string) (throughSeq : Z) : M DB unit :=
  modify (fun d => set_events
    (filter (fun kv => negb (String.eqb kv.1.1 deviceID && (kv.1.2 <=? throughSeq) &&
                             is_created_row kv.2 && er_applied kv.2))
       (db_events d)) d).

(** The rows [CompactUpToHeads] deletes. *)
Definition compactable (heads : gmap string Z) (k : string * Z) (r : EventRow) : bool :=
  is_created_row r && er_applied r && (k.2 <=? default 0 (heads !! k.1)).

Definition CompactUpToHeads : M DB unit :=
  modify (fun d => set_events
    (filter (fun kv => negb (compactable (db_heads d) kv.1 kv.2)) (db_events d)) d).
End Event.

(** ** Sequence numbers *)

Lemma event_max_ge d dev seq r :
  db_events d !! (dev, seq) = Some r -> exists n, event_max d dev = Some n /\ seq <= n.
Proof.
  intros Hk. apply elem_of_map_to_list in Hk. unfold event_max.
  induction (map_to_list (db_events d)) as [|[[dev' seq'] r'] l IH]; [by apply elem_of_nil in Hk|].
  simpl. apply elem_of_cons in Hk as [Heq|Hin].
  - simplify_eq. rewrite String.eqb_refl. eexists. split; [done|].
    destruct (foldr _ _ _); simpl; lia.
  - destruct (IH Hin) as (n & -> & Hn). destruct (String.eqb dev' dev); simpl; eexists; (split; [done|lia]).
Qed.

Lemma event_max_Some d dev n :
  event_max d dev = Some n -> exists r, db_events d !! (dev, n) = Some r.
Proof.
  unfold event_max. setoid_rewrite <- elem_of_map_to_list. revert n.
  induction (map_to_list (db_events d)) as [|[[dev' seq'] r'] l IH]; intros n Hn; [done|].
  simpl in Hn. destruct (String.eqb_spec dev' dev) as [->|].
  - destruct (foldr _ _ _) as [m|] eqn:E; simpl in Hn; simplify_eq.
    + destruct (Z.max_spec seq' m) as [[_ ->]|[_ ->]]; [|exists r'; left].
      destruct (IH _ eq_refl) as [r Hr]. exists r. by right.
    + exists r'. left.
  - destruct (IH _ Hn) as [r Hr]. exists r. by right.
Qed.

(** No sequence number of the device reaches [max_int64]. *)
Definition seqs_bounded (d : DB) (dev : string) : Prop :=
  (forall seq r, db_events d !! (dev, seq) = Some r -> seq < max_int64) /\
  (forall h, db_heads d !! dev = Some h -> h < max_int64).

Lemma NextSeq_above (d : DB) (dev : string) :
  seqs_bounded d dev ->
  (forall seq r, db_events d !! (dev, seq) = Some r -> seq < NextSeq d dev) /\
  (forall h, db_heads d !! dev = Some h -> h < NextSeq d dev).
Proof.
  intros [Hev Hh].
  assert (default 0 (event_max d dev) < max_int64) as Hm.
  { destruct (event_max d dev) as [n|] eqn:E; simpl; [|unfold max_int64; lia].
    apply event_max_Some in E as [r Hr]. eauto. }
  set (n := match db_heads d !! dev with
            | Some h => if default 0 (event_max d dev) <? h then h else default 0 (event_max d dev)
            | None => default 0 (event_max d dev) end).
  assert (default 0 (event_max d dev) <= n /\ n < max_int64 /\
          forall h, db_heads d !! dev = Some h -> h <= n) as (Hn1 & Hn2 & Hn3).
  { unfold n. destruct (db_heads d !! dev) as [h|] eqn:E; [|split_and!; [lia|lia|done]].
    specialize (Hh h eq_refl).
    destruct (Z.ltb_spec (default 0 (event_max d dev)) h); split_and!; try lia; intros; simplify_eq; lia. }
  assert (forall x, x <= n -> x < wrap64 (n + 1)) as Hlt.
  { intros x Hx. destruct (Z.le_gt_cases (- 2^63) (n + 1)).
    - rewrite wrap64_small; [lia|]. unfold int64, max_int64 in *. lia.
    - pose proof (wrap64_range (n + 1)). unfold int64 in *. lia. }
  unfold NextSeq. fold n. split.
  - intros seq r Hr. destruct (event_max_ge _ _ _ _ Hr) as (m & Hm' & Hle).
    rewrite Hm' in Hn1. simpl in Hn1. apply Hlt. lia.
  - intros h E. apply Hlt. auto.
Qed.

(** NextSeq is above every logged event and the head of the device, so a new event never
    collides with an old one, compacted ones included, as long as the 64-bit range is not exhausted.
    *)
Theorem NextSeq_fresh (d : DB) (dev : string) :
  seqs_bounded d dev ->
  (forall seq r, db_events d !! (dev, seq) = Some r -> seq < NextSeq d dev) /\
  (forall h, db_heads d !! dev = Some h -> h < NextSeq d dev).
Proof. apply NextSeq_above. Qed.

(** ** [Range] and compaction *)

Section Compaction.
Context `{EventCodecs}.

(** The log of device [dev] agrees with the history table: an applied
    [history-created] row is thin and the history has the row of its origin;
    every other row hydrates to an event with its own sequence number. *)
Definition log_ok (now : Time) (d : DB) (dev : string) : Prop :=
  forall seq r, db_events d !! (dev, seq) = Some r ->
  if is_created_row r then
    er_payload r = [] /\
    exists k hr, db_history d !! k = Some hr /\ has_origin dev seq hr = true /\
      let id := null_string_value (er_history_id r) in
      id = EmptyString \/ id = k \/ db_history d !! id = None
  else exists ev, hydrate_row now d dev seq r = Ok ev /\ ev_Seq ev = seq.

(** The event of one sequence number, as [Range] finds it. *)
Definition created_at (now : Time) (d : DB) (dev : string) (seq : Z) (e : Entry) : Event :=
  with_time (UnixMilli (e_CreatedAt e)) (NewHistoryCreated now dev seq e).

Definition range_at (now : Time) (d : DB) (dev : string) (seq : Z) : option Event :=
  match db_events d !! (dev, seq) with
  | Some r => match hydrate_row now d dev seq r with Ok ev => Some ev | Fail _ => None end
  | None => created_at now d dev seq <$> History.ByOrigin d dev seq
  end.

Lemma ByOrigin_row d dev seq k hr :
  wf d -> db_history d !! k = Some hr -> has_origin dev seq hr = true ->
  History.ByOrigin d dev seq = Some (scanEntry (db_interns d) hr).
Proof.
  intros Hw Hk Ho. unfold History.ByOrigin, scanFound.
  rewrite (select_one_unique _ _ k hr); [done|done|done|].
  intros k' hr' Hk' Ho'. eapply has_origin_unique; eauto using wf_history.
Qed.

(** Hydrating a thin [history-created] row gives the event of its origin. *)
Lemma hydrate_created now d dev seq r :
  wf d -> log_ok now d dev -> db_events d !! (dev, seq) = Some r -> is_created_row r = true ->
  exists k hr, db_history d !! k = Some hr /\ has_origin dev seq hr = true /\
    exists t, hydrate_row now d dev seq r =
      Ok (with_time t (NewHistoryCreated now dev seq (scanEntry (db_interns d) hr))).
Proof.
  intros Hw Hlog Hr Hc. specialize (Hlog _ _ Hr). rewrite Hc in Hlog.
  destruct Hlog as (Hp & k & hr & Hk & Ho & Hid). exists k, hr. split_and!; [done..|].
  unfold hydrate_row, hydrate. rewrite Hp. unfold is_created_row in Hc. rewrite Hc.
  assert (rebuildCreated now d dev seq (null_string_value (er_history_id r)) =
          created_at now d dev seq (scanEntry (db_interns d) hr)) as ->.
  { unfold rebuildCreated. rewrite (ByOrigin_row _ _ _ _ _ Hw Hk Ho).
    destruct Hid as [->|[->|Hnone]]; [done| |].
    - destruct (str_empty k); [done|]. unfold History.Get. by rewrite Hk.
    - unfold History.Get. rewrite Hnone. by destruct (str_empty _). }
  unfold created_at. destruct (er_created_at r =? 0); eexists; f_equal; done.
Qed.

Lemma hydrate_ok now d dev seq r :
  wf d -> log_ok now d dev -> db_events d !! (dev, seq) = Some r ->
  exists ev, hydrate_row now d dev seq r = Ok ev /\ ev_Seq ev = seq.
Proof.
  intros Hw Hlog Hr. destruct (is_created_row r) eqn:Hc.
  - destruct (hydrate_created now d dev seq r) as (k & hr & _ & _ & t & ->); eauto.
  - specialize (Hlog _ _ Hr). by rewrite Hc in Hlog.
Qed.

(** *** The two loops of [Range] *)

Lemma elem_of_select_events d dev p seq r :
  (seq, r) ∈ select_events d dev p <-> db_events d !! (dev, seq) = Some r /\ p seq r = true.
Proof.
  unfold select_events. rewrite elem_of_sort_slice, list_elem_of_omap. split.
  - intros ([[dev' seq'] r'] & Hin%elem_of_map_to_list & Heq).
    destruct (String.eqb_spec dev' dev) as [->|]; simpl in Heq; [|done].
    destruct (p seq' r') eqn:Hp; by simplify_eq.
  - intros [Hr Hp]. exists ((dev, seq), r). rewrite elem_of_map_to_list. split; [done|].
    by rewrite String.eqb_refl, Hp.
Qed.

Lemma scanHydrated_ok now d dev (l : list (Z * EventRow)) :
  (forall seq r, (seq, r) ∈ l -> exists ev, hydrate_row now d dev seq r = Ok ev /\ ev_Seq ev = seq) ->
  exists evs, scanHydrated now d dev l = Ok evs /\
    Forall2 (fun '(seq, r) ev => hydrate_row now d dev seq r = Ok ev /\ ev_Seq ev = seq) l evs.
Proof.
  induction l as [|[seq r] l IH]; intros Hl; simpl; [by exists []; split; [|constructor]|].
  destruct (Hl seq r) as (ev & He & Hs); [left|].
  destruct IH as (evs & Hevs & Hf); [intros; apply Hl; by right|].
  rewrite He. simpl. rewrite Hevs. simpl. exists (ev :: evs). split; [done|]. by constructor.
Qed.

Lemma foldl_by_seq (l : list Event) (m : gmap Z Event) s ev :
  (forall e e', e ∈ l -> e' ∈ l -> ev_Seq e = ev_Seq e' -> e = e') ->
  ev ∈ l -> ev_Seq ev = s -> foldl (fun m ev => <[ev_Seq ev := ev]> m) m l !! s = Some ev.
Proof.
  revert m. induction l as [|e l IH] using rev_ind; intros m Hu Hin Hs; [by apply elem_of_nil in Hin|].
  rewrite foldl_app. simpl. rewrite lookup_insert. case_decide as Heq.
  - f_equal. symmetry. apply Hu; [done|set_solver|congruence].
  - apply IH; [set_solver| |done]. apply elem_of_app in Hin as [?|[->|[]%elem_of_nil]%elem_of_cons];
      [done|congruence].
Qed.

Lemma foldl_by_seq_None (l : list Event) (m : gmap Z Event) s :
  (forall e, e ∈ l -> ev_Seq e <> s) ->
  foldl (fun m ev => <[ev_Seq ev := ev]> m) m l !! s = m !! s.
Proof.
  revert m. induction l as [|e l IH]; intros m Hn; simpl; [done|].
  rewrite IH by set_solver. rewrite lookup_insert_ne; [done|]. apply Hn. left.
Qed.

Lemma range_entries_lookup now d dev (l : list Entry) (m : gmap Z Event) s :
  foldl (fun m e =>
           match e_OriginSeq e with
           | None => m
           | Some seq =>
               match m !! seq with
               | Some _ => m
               | None => <[seq := with_time (UnixMilli (e_CreatedAt e))
                                   (NewHistoryCreated now dev seq e)]> m
               end
           end) m l !! s =
  match m !! s with
  | Some ev => Some ev
  | None => created_at now d dev s <$>
              List.find (fun e => bool_decide (e_OriginSeq e = Some s)) l
  end.
Proof.
  revert m. induction l as [|e l IH]; intros m; simpl; [by destruct (m !! s)|].
  rewrite IH. clear IH. destruct (e_OriginSeq e) as [seq|] eqn:Es; simpl; [|done].
  case_bool_decide as Hs; [simplify_eq|].
  - destruct (m !! s) as [ev|] eqn:Em; [by rewrite Em|]. by rewrite lookup_insert_eq.
  - destruct (m !! seq) eqn:Em; [done|]. rewrite lookup_insert_ne by congruence. done.
Qed.

Lemma find_ListByOriginRange d dev start end_ s :
  wf d -> start <= s <= end_ ->
  List.find (fun e => bool_decide (e_OriginSeq e = Some s)) (ListByOriginRange d dev start end_)
  = History.ByOrigin d dev s.
Proof.
  intros Hw Hs. unfold ListByOriginRange, scanEntries.
  set (l := sort_slice _ _).
  assert (forall hr, hr ∈ l <-> row_of d hr /\ in_origin_range dev start end_ hr = true) as Hl.
  { intros hr. unfold l. by rewrite elem_of_sort_slice, list_elem_of_In, filter_In,
      <- list_elem_of_In, elem_of_rows. }
  assert (forall hr, hr ∈ l -> hr_origin_seq hr = Some s -> has_origin dev s hr = true) as Hrow.
  { intros hr [_ Hr]%Hl Hseq. unfold in_origin_range in Hr.
    apply andb_prop in Hr as [Hd%bool_decide_eq_true _]. unfold has_origin.
    by apply bool_decide_eq_true. }
  destruct (List.find _ _) as [e|] eqn:E.
  - apply find_some in E as [Hin%list_elem_of_In He%bool_decide_eq_true].
    apply list_elem_of_fmap in Hin as (hr & -> & Hin). simpl in He.
    pose proof (Hrow _ Hin He) as Ho. apply Hl in Hin as [[k Hk] _].
    symmetry. by eapply ByOrigin_row.
  - symmetry. unfold History.ByOrigin, scanFound.
    destruct (select_one _ _) as [hr|] eqn:E2; [|done].
    apply select_one_Some in E2 as [[k Hk] Ho]. exfalso.
    unfold has_origin in Ho. apply bool_decide_eq_true in Ho as [Hd Hseq].
    assert (hr ∈ l) as Hin.
    { apply Hl. split; [by exists k|]. unfold in_origin_range. rewrite Hd, Hseq.
      rewrite bool_decide_eq_true_2 by done. lia. }
    pose proof (find_none _ _ E (scanEntry (db_interns d) hr)) as Hn.
    cbn -[scanEntry] in Hn. rewrite bool_decide_eq_true_2 in Hn by done. discriminate Hn.
    apply list_elem_of_In, list_elem_of_fmap. eauto.
Qed.

Lemma ListByOriginRange_outside d dev start end_ s :
  ~ (start <= s <= end_) ->
  List.find (fun e => bool_decide (e_OriginSeq e = Some s)) (ListByOriginRange d dev start end_) = None.
Proof.
  intros Hs. destruct (List.find _ _) as [e|] eqn:E; [|done].
  apply find_some in E as [Hin%list_elem_of_In He%bool_decide_eq_true].
  apply list_elem_of_fmap in Hin as (hr & -> & Hin). simpl in He.
  rewrite elem_of_sort_slice, list_elem_of_In, filter_In in Hin. destruct Hin as [_ Hr].
  unfold in_origin_range in Hr. rewrite He in Hr. lia.
Qed.

(** What [Range] returns: for every sequence number of the interval the logged
    event, else the event rebuilt from the history, in increasing order. *)
Lemma Range_spec now d dev start end_ :
  wf d -> log_ok now d dev ->
  exists m, Range now d dev start end_ = Ok (by_seq m) /\
    forall s, m !! s = if (start <=? s) && (s <=? end_) then range_at now d dev s else None.
Proof.
  intros Hw Hlog. unfold Range.
  set (p := fun (seq : Z) (_ : EventRow) => (start <=? seq) && (seq <=? end_)).
  destruct (scanHydrated_ok now d dev (select_events d dev p)) as (evs & Hscan & Hf).
  { intros seq r [Hr _]%elem_of_select_events. eauto using hydrate_ok. }
  rewrite Hscan. simpl. eexists. split; [done|]. intros s. unfold range_map.
  rewrite (range_entries_lookup now d).
  assert (forall ev, ev ∈ evs -> exists r, db_events d !! (dev, ev_Seq ev) = Some r /\
            p (ev_Seq ev) r = true /\ hydrate_row now d dev (ev_Seq ev) r = Ok ev) as Hev.
  { intros ev Hin. apply list_elem_of_lookup in Hin as [i Hi].
    destruct (Forall2_lookup_r _ _ _ _ _ Hf Hi) as ([seq r] & Hl & HP). simpl in HP.
    destruct HP as [Hh Hs].
    apply list_elem_of_lookup_2, elem_of_select_events in Hl. subst. naive_solver. }
  destruct (db_events d !! (dev, s)) as [r|] eqn:Er; [destruct ((start <=? s) && (s <=? end_)) eqn:Hp|].
  - unfold range_at. rewrite Er.
    assert ((s, r) ∈ select_events d dev p) as Hin by (by apply elem_of_select_events).
    apply list_elem_of_lookup in Hin as [i Hi].
    destruct (Forall2_lookup_l _ _ _ _ _ Hf Hi) as (ev & Hl & HP). simpl in HP.
    destruct HP as [Hh Hs]. rewrite Hh.
    rewrite (foldl_by_seq _ _ _ ev); [done| |by eapply list_elem_of_lookup_2|done].
    intros e e' (x & ? & ? & ?)%Hev (x' & ? & ? & ?)%Hev ?. congruence.
  - rewrite foldl_by_seq_None.
    + rewrite lookup_empty. rewrite ListByOriginRange_outside; [done|lia].
    + intros e (x & ? & Hpx & ?)%Hev <-. unfold p in Hpx. congruence.
  - rewrite foldl_by_seq_None, lookup_empty.
    + unfold range_at. rewrite Er. destruct ((start <=? s) && (s <=? end_)) eqn:Hp.
      * rewrite find_ListByOriginRange; [done|done|lia].
      * rewrite ListByOriginRange_outside; [done|lia].
    + intros e (x & Hx & _)%Hev <-. congruence.
Qed.

(** *** Compaction leaves [Range] alone *)

Definition strip_time (ev : Event) : Event := with_time 0 ev.

Lemma strip_time_with_time t ev : strip_time (with_time t ev) = strip_time ev.
Proof. done. Qed.

Lemma lookup_compacted d k :
  db_events (CompactUpToHeads d).1 !! k =
  match db_events d !! k with
  | Some r => if compactable (db_heads d) k r then None else Some r
  | None => None
  end.
Proof.
  unfold CompactUpToHeads, modify. simpl. destruct (db_events d !! k) as [r|] eqn:E.
  - destruct (compactable (db_heads d) k r) eqn:Hc.
    + apply map_lookup_filter_None. right. intros r' Hr'.
      assert (r' = r) as -> by congruence. cbn [fst snd]. rewrite Hc. by intros [].
    + apply map_lookup_filter_Some. split; [done|]. cbn [fst snd]. by rewrite Hc.
  - apply map_lookup_filter_None. by left.
Qed.

Lemma range_at_compacted now d dev s :
  wf d -> log_ok now d dev ->
  strip_time <$> range_at now (CompactUpToHeads d).1 dev s = strip_time <$> range_at now d dev s.
Proof.
  intros Hw Hlog. unfold range_at. rewrite lookup_compacted.
  destruct (db_events d !! (dev, s)) as [r|] eqn:Er; [|done].
  destruct (compactable _ _ r) eqn:Hc; [|done].
  unfold compactable in Hc. apply andb_prop in Hc as [[Hc _]%andb_prop _].
  destruct (hydrate_created now d dev s r) as (k & hr & Hk & Ho & t & ->); [done..|].
  change (History.ByOrigin (CompactUpToHeads d).1 dev s) with (History.ByOrigin d dev s).
  by rewrite (ByOrigin_row _ _ _ _ _ Hw Hk Ho).
Qed.

Lemma by_seq_strip m : strip_time <$> by_seq m = by_seq (strip_time <$> m).
Proof.
  unfold by_seq. set (less := fun a b : Z * Event => a.1 <? b.1).
  transitivity (snd <$> sort_slice less (prod_map id strip_time <$> map_to_list m)).
  - rewrite (sort_slice_fmap less less); [|done]. by rewrite <- !list_fmap_compose.
  - f_equal. apply sort_slice_canonical.
    + split; unfold less; intros; lia.
    + intros [a x] [b y] Ha Hb. unfold less. simpl. intros. assert (a = b) as -> by lia.
      apply list_elem_of_fmap in Ha as ([? x'] & ? & Ha), Hb as ([? y'] & ? & Hb). simplify_eq/=.
      apply elem_of_map_to_list in Ha, Hb. congruence.
    + by rewrite map_to_list_fmap.
Qed.

Lemma log_ok_compacted now d dev : log_ok now d dev -> log_ok now (CompactUpToHeads d).1 dev.
Proof.
  intros Hlog seq r. rewrite lookup_compacted. intros Hr. apply (Hlog seq).
  destruct (db_events d !! (dev, seq)) as [r'|]; [|done]. by destruct (compactable _ _ r').
Qed.

Lemma wf_events e d : wf d -> wf (set_events e d).
Proof. by intros []. Qed.

(** Compacting the log up to the heads does not change what Range returns, up to the event
    time: created events that were deleted from the log are rebuilt from the history table with the
    same sequence numbers and payloads. *)
Theorem Range_compaction (now : Time) (d : DB) (dev : string) (start end_ : Z) :
  wf d -> log_ok now d dev ->
  exists evs evs', Range now d dev start end_ = Ok evs /\
    Range now (CompactUpToHeads d).1 dev start end_ = Ok evs' /\
    strip_time <$> evs' = strip_time <$> evs.
Proof.
  intros Hw Hlog.
  destruct (Range_spec now d dev start end_) as (m & Hm & Hlk); [done..|].
  destruct (Range_spec now (CompactUpToHeads d).1 dev start end_) as (m' & Hm' & Hlk');
    [by apply wf_events|by apply log_ok_compacted|].
  exists (by_seq m), (by_seq m'). split_and!; [done..|]. rewrite !by_seq_strip. f_equal.
  apply map_eq. intros s. rewrite !lookup_fmap, Hlk, Hlk'.
  destruct ((start <=? s) && (s <=? end_)); [|done]. by apply range_at_compacted.
Qed.
End Compaction.
