(* ===== verification/Device.v ===== *)
(** [internal/device/device.go]: the device roster of the local database. *)

From S2P Require Import Prelude Database.

Definition StatusActive : string := "active".
Definition StatusRetired : string := "retired".

Record Device := mkDevice {
  dv_ID : string;
  dv_Name : string;
  dv_Hostname : string;
  dv_Status : string;
  dv_CreatedAt : Time;
  dv_RetiredAt : option Time;
}.

(** The [ON CONFLICT(id) DO UPDATE] clause: a retired device stays retired
    when the new status is active. *)
Definition upsert_row (old : option DeviceRow) (new : DeviceRow) : DeviceRow :=
  match old with
  | None => new
  | Some o =>
      let keep := String.eqb (dr_status o) "retired" && String.eqb (dr_status new) "active" in
      mkDeviceRow (dr_name new) (dr_hostname new)
        (if keep then dr_status o else dr_status new)
        (dr_created_at o)
        (if keep then dr_retired_at o else dr_retired_at new)
  end.

Definition upsert_device (id : string) (new : DeviceRow) : M DB unit :=
  modify (fun d => set_devices (<[id := upsert_row (db_devices d !! id) new]> (db_devices d)) d).

Definition Upsert (now : Time) (dev : Device) : M DB unit :=
  let createdAt := if time_IsZero (dv_CreatedAt dev) then now else dv_CreatedAt dev in
  let status := if str_empty (dv_Status dev) then StatusActive else dv_Status dev in
  upsert_device (dv_ID dev)
    (mkDeviceRow (dv_Name dev) (null_string (dv_Hostname dev)) status (UnixMilli createdAt)
       (UnixMilli <$> dv_RetiredAt dev)).

Definition scanDevice (id : string) (r : DeviceRow) : Device :=
  mkDevice id (dr_name r) (null_string_value (dr_hostname r)) (dr_status r)
    (time_UnixMilli (dr_created_at r)) (time_UnixMilli <$> dr_retired_at r).

Definition Get (d : DB) (id : string) : option Device := scanDevice id <$> db_devices d !! id.

Definition List_ (d : DB) : list Device :=
  sort_slice (fun a b => dv_CreatedAt a <? dv_CreatedAt b)
    ((fun '(id, r) => scanDevice id r) <$> map_to_list (db_devices d)).

Definition set_retired (at_ : Time) (r : DeviceRow) : DeviceRow :=
  mkDeviceRow (dr_name r) (dr_hostname r) StatusRetired (dr_created_at r) (Some (UnixMilli at_)).

Definition Retire (id : string) (at_ : Time) : M DB unit := fun d =>
  match db_devices d !! id with
  | None => (d, Fail (EMsg "device not found"))
  | Some r => (set_devices (<[id := set_retired at_ r]> (db_devices d)) d, Ok tt)
  end.

Definition Delete (id : string) : M DB unit := fun d =>
  match db_devices d !! id with
  | None => (d, Fail (EMsg "device not found"))
  | Some _ => (set_devices (delete id (db_devices d)) d, Ok tt)
  end.

Definition DeleteIfExists (id : string) : M DB unit :=
  modify (fun d => set_devices (delete id (db_devices d)) d).

Definition ActiveIDs (d : DB) : list string :=
  omap (fun '(id, r) => if String.eqb (dr_status r) StatusActive then Some id else None)
    (map_to_list (db_devices d)).

(** ** Retirement is permanent *)

Definition status_of (d : DB) (id : string) : option string := dr_status <$> db_devices d !! id.

(** No write of the roster except a deletion brings a retired device back to
    [active]. *)
Definition stays_retired (d d' : DB) : Prop :=
  forall id, status_of d id = Some "retired"%string ->
  exists s, status_of d' id = Some s /\ s <> "active"%string.

Lemma upsert_stays_retired id new : mono stays_retired (upsert_device id new).
Proof.
  intros d id' Hr. unfold status_of in *. simpl. rewrite lookup_insert. case_decide; subst.
  - destruct (db_devices d !! id') as [o|] eqn:E; simpl in *; [|done]. simplify_eq. rewrite Hr. simpl.
    destruct (String.eqb_spec (dr_status new) "active"); eexists; (split; [done|]); congruence.
  - exists "retired"%string. done.
Qed.

Lemma elem_of_ActiveIDs d id : id ∈ ActiveIDs d <-> status_of d id = Some StatusActive.
Proof.
  unfold ActiveIDs, status_of. rewrite list_elem_of_omap. split.
  - intros ([id' r] & Hin%elem_of_map_to_list & Hs).
    destruct (String.eqb_spec (dr_status r) StatusActive); simplify_eq. rewrite Hin. simpl. by f_equal.
  - intros Hs. destruct (db_devices d !! id) as [r|] eqn:E; simpl in Hs; [|done].
    exists (id, r). rewrite elem_of_map_to_list. split; [done|]. simplify_eq. simpl.
    by rewrite Hs, String.eqb_refl.
Qed.
