(* ===== verification/Merge.v ===== *)
(** [internal/sync/merge]: applying remote events to the local tables
    ([apply.go]) and the per-device heads ([heads.go]); the change sets of
    [internal/history/changes.go] that the merge reports. The main result
    is that [AdvanceContiguous] computes the end of the applied prefix; what
    merging means is stated in [Replica]. *)

From S2P Require Import Prelude Database History Device Frontier Event.

(** ** [internal/history/changes.go] *)

Record CompletionChange := mkCompletionChange { cc_ID : string; cc_End : Z; cc_Exit : Z }.

Record ChangeSet := mkChangeSet {
  cs_Created : list Entry;
  cs_Completed : list CompletionChange;
  cs_Tombstoned : list string;
  cs_Commands : list string;
}.

Definition cs_zero : ChangeSet := mkChangeSet [] [] [] [].

Definition Empty (c : ChangeSet) : bool :=
  match c with mkChangeSet [] [] [] [] => true | _ => false end.

Definition AddCreated (e : Entry) (c : ChangeSet) : ChangeSet :=
  mkChangeSet (cs_Created c ++ [e]) (cs_Completed c) (cs_Tombstoned c) (cs_Commands c).

Definition AddCompleted (id : string) (end_ exit : Z) (c : ChangeSet) : ChangeSet :=
  mkChangeSet (cs_Created c) (cs_Completed c ++ [mkCompletionChange id end_ exit])
    (cs_Tombstoned c) (cs_Commands c).

Definition AddTombstoned (ids : list string) (c : ChangeSet) : ChangeSet :=
  mkChangeSet (cs_Created c) (cs_Completed c) (cs_Tombstoned c ++ ids) (cs_Commands c).

Definition cs_Merge (c other : ChangeSet) : ChangeSet :=
  mkChangeSet (cs_Created c ++ cs_Created other) (cs_Completed c ++ cs_Completed other)
    (cs_Tombstoned c ++ cs_Tombstoned other) (cs_Commands c ++ cs_Commands other).

(** ** [heads.go] *)

(** [HeadStore.Get] *)
Definition Get (d : DB) : Frontier := db_heads d.

(** [HeadStore.Set]: an upsert that never lowers a head. *)
Definition Set_ (deviceID : string) (seq : Z) : M DB unit :=
  modify (fun d =>
    match db_heads d !! deviceID with
    | None => set_heads (<[deviceID:=seq]> (db_heads d)) d
    | Some h => if h <? seq then set_heads (<[deviceID:=seq]> (db_heads d)) d else d
    end).

(** [SELECT COUNT ... WHERE device_id = ? AND seq = ? AND applied = 1] *)
Definition applied (d : DB) (deviceID : string) (seq : Z) : bool :=
  match db_events d !! (deviceID, seq) with
  | Some r => er_applied r
  | None => false
  end.

(** The [for] loop of [AdvanceContiguous]; [fuel] bounds the iterations. *)
Fixpoint advance_loop (fuel : nat) (deviceID : string) (head : Z) : M DB unit := fun d =>
  match fuel with
  | O => (d, Fail (EMsg "out of fuel"))
  | S fuel =>
      let next := wrap64 (head + 1) in
      if applied d deviceID next
      then (_ ← Set_ deviceID next; advance_loop fuel deviceID next) d
      else (d, Ok tt)
  end.

Definition AdvanceContiguous (deviceID : string) : M DB unit := fun d =>
  let head := default 0 (db_heads d !! deviceID) in
  advance_loop (S (size (db_events d))) deviceID head d.

Section Apply.
Context `{Sha256} `{EventCodecs}.

(** ** [apply.go] *)

(** The entry [applyCreated] inserts. *)
Definition created_entry (ev : Event) (p : HistoryCreated) : Entry :=
  mkEntry (hc_ID p) (hc_Command p) (time_UnixMilli (hc_StartTS p))
    (if 0 <? hc_EndTS p then Some (time_UnixMilli (hc_EndTS p)) else None)
    (if 0 <? hc_DurationMs p then Some (hc_DurationMs p) else None)
    (hc_ExitStatus p) (hc_Cwd p) (hc_SessionID p) (hc_Hostname p) (ev_DeviceID ev) (hc_Shell p)
    false (ev_DeviceID ev) (Some (ev_Seq ev)) time_zero.

Definition applyCreated (now : Time) (ev : Event) : M DB Entry :=
  p ← of_result (DecodeHistoryCreated ev);
  known ← gets (fun d => select_any (has_origin (ev_DeviceID ev) (ev_Seq ev)) (db_history d));
  if (known : bool) then mret entry_zero
  else
    let e := created_entry ev p in
    _ ← InsertTx now e;
    mret e.

(** The placeholder row of a tombstone that arrives before its entry. *)
Definition tombstone_entry (id dev : string) (seq : Z) : Entry :=
  mkEntry id "" (time_UnixMilli 0) None None None "" "" "" dev "" true dev (Some seq) time_zero.

Definition tombstone_id (prefix dev : string) (seq : Z) : string :=
  (prefix +:+ dev +:+ ":" +:+ sprint_d seq)%string.

Definition applyTombstone (now : Time) (ev : Event) : M DB (list string) :=
  p ← of_result (DecodeHistoryTombstoned ev);
  ids ← (if str_empty (ht_HistoryID p) then mret []
         else _ ← History.Tombstone (ht_HistoryID p); mret [ht_HistoryID p]);
  if negb (str_empty (ht_OriginDeviceID p)) && (0 <? ht_OriginSeq p) then
    found ← gets (fun d => select_any (has_origin (ht_OriginDeviceID p) (ht_OriginSeq p))
                             (db_history d));
    _ ← TombstoneByOrigin (ht_OriginDeviceID p) (ht_OriginSeq p);
    if negb (found : bool) then
      let id := if str_empty (ht_HistoryID p)
                then tombstone_id "tombstone:" (ht_OriginDeviceID p) (ht_OriginSeq p)
                else ht_HistoryID p in
      _ ← InsertTx now (tombstone_entry id (ht_OriginDeviceID p) (ht_OriginSeq p));
      mret (ids ++ [id])
    else if str_empty (ht_HistoryID p)
         then mret (ids ++ [tombstone_id "origin:" (ht_OriginDeviceID p) (ht_OriginSeq p)])
         else mret ids
  else mret ids.

Definition applyDeviceMeta (now : Time) (ev : Event) : M DB unit :=
  match (unmarshal (ev_Payload ev) : option DeviceMeta) with
  | None => fail (EMsg "cbor")
  | Some p =>
      let status := if str_empty (dm_Status p) then "active"%string else dm_Status p in
      upsert_device (ev_DeviceID ev)
        (mkDeviceRow (dm_Name p) (null_string (dm_Hostname p)) status (UnixMilli now) None)
  end.

Definition ApplyTracked (now : Time) (ev : Event) : M DB ChangeSet :=
  if String.eqb (ev_Type ev) TypeHistoryCreated then
    e ← applyCreated now ev;
    mret (if str_empty (e_ID e) then cs_zero else AddCreated e cs_zero)
  else if String.eqb (ev_Type ev) TypeHistoryTombstoned then
    ids ← applyTombstone now ev;
    mret (AddTombstoned ids cs_zero)
  else if String.eqb (ev_Type ev) TypeDeviceMeta then
    _ ← applyDeviceMeta now ev; mret cs_zero
  else if String.eqb (ev_Type ev) TypeCheckpointRef then mret cs_zero
  else fail (EMsg "unknown event type").

Definition Apply (now : Time) (ev : Event) : M DB unit := _ ← ApplyTracked now ev; mret tt.
End Apply.

(** ** Heads *)

(** Sequence numbers are positive [int64]s. *)
Definition pos_seqs (d : DB) (dev : string) : Prop :=
  forall s r, db_events d !! (dev, s) = Some r -> 0 < s <= max_int64.

Definition beyond (dev : string) (head : Z) (kv : (string * Z) * EventRow) : Prop :=
  kv.1.1 = dev /\ head < kv.1.2.

Definition remaining (d : DB) (dev : string) (head : Z) : nat :=
  size (filter (beyond dev head) (db_events d)).

Lemma remaining_step d dev head r :
  db_events d !! (dev, head + 1) = Some r ->
  (remaining d dev (head + 1) < remaining d dev head)%nat.
Proof.
  intros Hr. unfold remaining. apply map_subset_size, map_subset_alt. split.
  - apply map_subseteq_spec. intros k x. rewrite !map_lookup_filter_Some. unfold beyond.
    intros [? [? ?]]. split_and!; [done..|lia].
  - exists (dev, head + 1). rewrite map_lookup_filter_None. split.
    + right. intros x _ [_ Hlt]. simpl in Hlt. lia.
    + exists r. rewrite map_lookup_filter_Some. split; [done|]. split; simpl; [done|lia].
Qed.

Definition set_head (dev : string) (h : Z) (d : DB) : DB :=
  set_heads (<[dev:=h]> (db_heads d)) d.

Lemma Set_raises d dev h :
  default 0 (db_heads d !! dev) < h -> Set_ dev h d = (set_head dev h d, Ok tt).
Proof.
  intros Hlt. unfold Set_, modify. destruct (db_heads d !! dev) as [h0|]; simpl in Hlt; [|done].
  by rewrite (proj2 (Z.ltb_lt _ _) Hlt).
Qed.

Lemma advance_loop_spec fuel d dev head :
  (remaining d dev head < fuel)%nat -> pos_seqs d dev -> 0 <= head <= max_int64 ->
  default 0 (db_heads d !! dev) <= head ->
  exists h' d', advance_loop fuel dev head d = (d', Ok tt) /\
    head <= h' <= max_int64 /\ (forall s, head < s <= h' -> applied d dev s = true) /\
    applied d dev (wrap64 (h' + 1)) = false /\
    d' = (if h' =? head then d else set_head dev h' d).
Proof.
  revert d head. induction fuel as [|fuel IH]; intros d head Hfuel Hpos Hrange Hle; [lia|].
  simpl. destruct (applied d dev (wrap64 (head + 1))) eqn:Happ.
  2: { exists head, d. rewrite Z.eqb_refl. split_and!; [done|lia|lia|intros; lia|done|done]. }
  assert (wrap64 (head + 1) = head + 1 /\ head + 1 <= max_int64 /\
          exists r, db_events d !! (dev, head + 1) = Some r) as (Hw & Hmax & r & Hr).
  { unfold applied in Happ. destruct (db_events d !! _) as [r|] eqn:Hr; [|done].
    pose proof (Hpos _ _ Hr) as Hp. destruct (decide (head = max_int64)) as [->|Hne].
    - exfalso. unfold max_int64 in *. vm_compute in Hp. by destruct Hp.
    - rewrite wrap64_small in Hr |- * by (unfold int64, max_int64 in *; lia).
      split_and!; [done|unfold max_int64 in *; lia|by exists r]. }
  rewrite Hw in Happ |- *. rewrite (bind_Ok _ _ d (set_head dev (head + 1) d) tt) by (apply Set_raises; lia).
  destruct (IH (set_head dev (head + 1) d) (head + 1)) as (h' & d' & Hrun & Hh & Hall & Hstop & Hd').
  - change (remaining (set_head dev (head + 1) d) dev (head + 1)) with (remaining d dev (head + 1)).
    pose proof (remaining_step _ _ _ _ Hr). lia.
  - done.
  - lia.
  - simpl. by rewrite lookup_insert_eq.
  - exists h', d'. split_and!; [done|lia|lia| |done|].
    + intros s Hs. destruct (decide (s = head + 1)) as [->|]; [done|].
      apply (Hall s). lia.
    + rewrite Hd'. rewrite (proj2 (Z.eqb_neq h' head)) by lia.
      destruct (Z.eqb_spec h' (head + 1)) as [->|]; [done|].
      unfold set_head. simpl. by rewrite insert_insert_eq.
Qed.

Lemma remaining_le d dev head : (remaining d dev head <= size (db_events d))%nat.
Proof. unfold remaining. apply map_subseteq_size, map_filter_subseteq. Qed.

(** AdvanceContiguous terminates and moves the head exactly to the end of the run of applied
    events that follows it, never past a gap, writing nothing when there is none. *)
Theorem AdvanceContiguous_prefix (d : DB) (dev : string) :
  pos_seqs d dev -> 0 <= default 0 (db_heads d !! dev) <= max_int64 ->
  let head := default 0 (db_heads d !! dev) in
  exists head' d', AdvanceContiguous dev d = (d', Ok tt) /\
    head <= head' /\ (forall s, head < s <= head' -> applied d dev s = true) /\
    applied d dev (wrap64 (head' + 1)) = false /\
    d' = (if head' =? head then d else set_head dev head' d).
Proof.
  intros Hpos Hrange head. unfold AdvanceContiguous.
  destruct (advance_loop_spec (S (size (db_events d))) d dev head) as (h' & d' & ? & ? & ? & ? & ?);
    [pose proof (remaining_le d dev head); lia|done|done|done|].
  exists h', d'. naive_solver.
Qed.

(** [HeadStore.Set] and [AdvanceContiguous] never lower a head. *)
Definition heads_grow (d d' : DB) : Prop :=
  forall dev h, db_heads d !! dev = Some h -> exists h', db_heads d' !! dev = Some h' /\ h <= h'.

#[global] Instance heads_grow_preorder : PreOrder heads_grow.
Proof.
  split.
  - intros d dev h Hh. exists h. split; [done|lia].
  - intros a b c Hab Hbc dev h (h1 & H1 & ?)%Hab. destruct (Hbc _ _ H1) as (h2 & ? & ?).
    exists h2. split; [done|lia].
Qed.

Lemma Set_heads_grow dev seq : mono heads_grow (Set_ dev seq).
Proof.
  intros d dev' h Hh. unfold Set_, modify. simpl.
  destruct (db_heads d !! dev) as [h0|] eqn:E; [destruct (Z.ltb_spec h0 seq)|]; simpl.
  - rewrite lookup_insert. case_decide; subst; simplify_eq; eexists; (split; [done|lia]).
  - exists h. split; [done|lia].
  - rewrite lookup_insert_ne by congruence. exists h. split; [done|lia].
Qed.

Lemma advance_loop_heads_grow fuel dev head : mono heads_grow (advance_loop fuel dev head).
Proof.
  revert head. induction fuel as [|fuel IH]; intros head d; simpl; [done|].
  destruct (applied _ _ _); [|done]. apply mono_bind; [apply _|apply Set_heads_grow|]. intros _. apply IH.
Qed.

Lemma AdvanceContiguous_heads_grow dev : mono heads_grow (AdvanceContiguous dev).
Proof. intros d. unfold AdvanceContiguous. apply advance_loop_heads_grow. Qed.
#[export] Hint Resolve Set_heads_grow AdvanceContiguous_heads_grow : remnix.
