(* ===== verification/Replica.v ===== *)
(** The history table as a replica of a two-phase set.

    The abstract specification of [merge.Apply]: the shared history is a set of
    created entries and a set of removed ones, both growing, and an entry is
    visible when it was created and not removed. [represents] relates that
    abstract state to a database; [ApplyTracked_simulates] is the simulation
    step, from which the order- and repetition-independence of merging
    follows. *)

From S2P Require Import Prelude Database History Device Frontier Event Merge.

(** ** The abstract state *)

(** An entry is identified by the device and sequence number that created it. *)
Abbreviation origin := (string * Z)%type.

Record TwoPhase := mkTwoPhase {
  created : gset origin;
  removed : gset origin;
}.

Definition tp_empty : TwoPhase := mkTwoPhase ∅ ∅.

Inductive effect := Create (o : origin) | Remove (o : origin) | NoEffect.

#[global] Instance effect_eq_dec : EqDecision effect.
Proof. solve_decision. Defined.

Definition tp_apply (a : TwoPhase) (f : effect) : TwoPhase :=
  match f with
  | Create o => mkTwoPhase ({[o]} ∪ created a) (removed a)
  | Remove o => mkTwoPhase (created a) ({[o]} ∪ removed a)
  | NoEffect => a
  end.

Definition visible (a : TwoPhase) : gset origin := created a ∖ removed a.

Lemma tp_apply_all_created a fs o :
  o ∈ created (foldl tp_apply a fs) <-> o ∈ created a \/ Create o ∈ fs.
Proof.
  revert a. induction fs as [|f fs IH]; intros a; simpl; [set_solver|].
  rewrite IH. destruct f; simpl; set_solver.
Qed.

Lemma tp_apply_all_removed a fs o :
  o ∈ removed (foldl tp_apply a fs) <-> o ∈ removed a \/ Remove o ∈ fs.
Proof.
  revert a. induction fs as [|f fs IH]; intros a; simpl; [set_solver|].
  rewrite IH. destruct f; simpl; set_solver.
Qed.

Section Replica.
Context `{Sha256} `{EventCodecs}.

(** ** The shared history the events talk about *)

(** [U] gives the payload of every entry that was ever created. *)
Abbreviation Universe := (gmap origin HistoryCreated).

Record universe_ok (U : Universe) : Prop := {
  uo_origin : forall dev seq p, U !! (dev, seq) = Some p -> dev <> EmptyString /\ 0 < seq;
  uo_id_nonempty : forall o p, U !! o = Some p -> hc_ID p <> EmptyString;
  uo_id : forall o o' p p', U !! o = Some p -> U !! o' = Some p' -> hc_ID p = hc_ID p' -> o = o';
  (** one device does not run the same command in the same directory twice in
      one millisecond *)
  uo_dedup : forall dev seq seq' p p', U !! (dev, seq) = Some p -> U !! (dev, seq') = Some p' ->
    HashCommand (hc_Command p) = HashCommand (hc_Command p') -> hc_StartTS p = hc_StartTS p' ->
    hc_Cwd p = hc_Cwd p' -> hc_Cwd p <> EmptyString -> seq = seq';
}.

(** The events of the protocol, and their abstract effect. *)
Inductive event_of (U : Universe) (ev : Event) : effect -> Prop :=
| ev_created p :
    ev_Type ev = TypeHistoryCreated -> DecodeHistoryCreated ev = Ok p ->
    U !! (ev_DeviceID ev, ev_Seq ev) = Some p ->
    event_of U ev (Create (ev_DeviceID ev, ev_Seq ev))
| ev_tombstoned t p :
    ev_Type ev = TypeHistoryTombstoned -> DecodeHistoryTombstoned ev = Ok t ->
    U !! (ht_OriginDeviceID t, ht_OriginSeq t) = Some p -> ht_HistoryID t = hc_ID p ->
    event_of U ev (Remove (ht_OriginDeviceID t, ht_OriginSeq t))
| ev_device_meta m :
    ev_Type ev = TypeDeviceMeta -> unmarshal (ev_Payload ev) = Some (m : DeviceMeta) ->
    event_of U ev NoEffect
| ev_checkpoint_ref :
    ev_Type ev = TypeCheckpointRef -> event_of U ev NoEffect.

(** ** The representation relation *)

Definition forget_created_at (e : Entry) : Entry :=
  mkEntry (e_ID e) (e_Command e) (e_StartTS e) (e_EndTS e) (e_DurationMs e) (e_ExitStatus e)
    (e_Cwd e) (e_SessionID e) (e_Hostname e) (e_DeviceID e) (e_Shell e) (e_Deleted e)
    (e_OriginDeviceID e) (e_OriginSeq e) time_zero.

(** The entry every replica shows for an origin. *)
Definition entry_of (o : origin) (p : HistoryCreated) : Entry :=
  created_entry (mkEvent 0 "" o.1 o.2 0 []) p.

Record row_repr (U : Universe) (a : TwoPhase) (i : Interns) (k : string) (r : HistoryRow)
    (o : origin) (p : HistoryCreated) : Prop := {
  rp_universe : U !! o = Some p;
  rp_key : k = hc_ID p;
  rp_device : hr_origin_device_id r = Some o.1;
  rp_seq : hr_origin_seq r = Some o.2;
  rp_known : o ∈ created a \/ o ∈ removed a;
  rp_deleted : hr_deleted r = bool_decide (o ∈ removed a);
  rp_content : hr_deleted r = false ->
    forget_created_at (scanEntry i r) = entry_of o p /\
    hr_command_hash r = HashCommand (hc_Command p);
}.

Record represents (U : Universe) (a : TwoPhase) (d : DB) : Prop := {
  re_wf : wf d;
  re_row : forall k r, db_history d !! k = Some r ->
    exists o p, row_repr U a (db_interns d) k r o p;
  re_known : forall o, o ∈ created a \/ o ∈ removed a ->
    exists p r, U !! o = Some p /\ db_history d !! hc_ID p = Some r;
}.

Lemma represents_empty U : represents U tp_empty db_empty.
Proof. split; [apply wf_empty|done|]. intros o [Ho|Ho]; by apply elem_of_empty in Ho. Qed.

Section Step.
Context (U : Universe) (HU : universe_ok U).

Lemma repr_by_id a d o p r :
  represents U a d -> U !! o = Some p -> db_history d !! hc_ID p = Some r ->
  row_repr U a (db_interns d) (hc_ID p) r o p.
Proof.
  intros Hrep Hp Hk. destruct (re_row _ _ _ Hrep _ _ Hk) as (o' & p' & Hr).
  assert (o' = o) as ->.
  { eapply (uo_id _ HU); [apply (rp_universe _ _ _ _ _ _ _ Hr)|exact Hp|].
    symmetry. apply (rp_key _ _ _ _ _ _ _ Hr). }
  assert (p' = p) as -> by (pose proof (rp_universe _ _ _ _ _ _ _ Hr); congruence). done.
Qed.

Lemma repr_by_origin a d o k r :
  represents U a d -> db_history d !! k = Some r -> has_origin o.1 o.2 r = true ->
  exists p, row_repr U a (db_interns d) k r o p.
Proof.
  intros Hrep Hk Ho. unfold has_origin in Ho. apply bool_decide_eq_true in Ho as [Hd Hs].
  destruct (re_row _ _ _ Hrep _ _ Hk) as ([dev seq] & p & Hr).
  pose proof (rp_device _ _ _ _ _ _ _ Hr) as Hd'. pose proof (rp_seq _ _ _ _ _ _ _ Hr) as Hs'.
  destruct o as [dev' seq']. simpl in *. rewrite Hd in Hd'. rewrite Hs in Hs'. simplify_eq. eauto.
Qed.

(** Rows are found by origin exactly for the known origins. *)
Lemma represents_has_origin a d o :
  represents U a d ->
  select_any (has_origin o.1 o.2) (db_history d) = true <-> (o ∈ created a \/ o ∈ removed a).
Proof.
  intros Hrep. rewrite select_any_true. split.
  - intros (k & r & Hk & Ho). destruct (repr_by_origin _ _ _ _ _ Hrep Hk Ho) as [p Hr].
    by eapply rp_known.
  - intros (p & r & Hp & Hk)%(re_known _ _ _ Hrep). exists (hc_ID p), r. split; [done|].
    pose proof (repr_by_id _ _ _ _ _ Hrep Hp Hk) as [? ? ? ? ? ? ?].
    unfold has_origin. by apply bool_decide_eq_true.
Qed.

Lemma represents_fresh_id a d o p :
  represents U a d -> U !! o = Some p -> ~ (o ∈ created a \/ o ∈ removed a) ->
  db_history d !! hc_ID p = None.
Proof.
  intros Hrep Hp Hn. destruct (db_history d !! hc_ID p) as [r|] eqn:Hk; [|done].
  destruct Hn. eapply rp_known. by eapply repr_by_id.
Qed.

(** *** Inserting the row of an unknown origin *)

Lemma intern_entry_row (e : Entry) i i' r :
  intern_entry e i = (i', r) ->
  hr_origin_device_id r = null_string (e_OriginDeviceID e) /\ hr_origin_seq r = e_OriginSeq e /\
  hr_deleted r = e_Deleted e /\ hr_command_hash r = HashCommand (e_Command e) /\
  hr_start_ts r = UnixMilli (e_StartTS e) /\ hr_device_id r = e_DeviceID e /\
  match hr_cwd_id r with
  | Some c => in_cwd i' !! e_Cwd e = Some c /\ e_Cwd e <> EmptyString
  | None => True
  end.
Proof.
  unfold intern_entry. pose proof (internID_lookup (e_Cwd e) (in_cwd i)) as Hl.
  destruct (internID (e_Cwd e) _) as [t cid], (internID (e_SessionID e) _),
    (internID (e_Hostname e) _), (internID (e_Shell e) _). intros [= <- <-]. simpl in *.
  split_and!; try done. by destruct cid.
Qed.

(** A row built from a fresh origin collides with nothing. *)
Lemma no_conflict a d o p e i r :
  represents U a d -> U !! o = Some p -> ~ (o ∈ created a \/ o ∈ removed a) ->
  intern_entry e (db_interns d) = (i, r) -> interns_wf i -> interns_sub (db_interns d) i ->
  hr_id r = hc_ID p -> e_OriginDeviceID e = o.1 -> e_OriginSeq e = Some o.2 ->
  (e_Deleted e = true \/ forget_created_at e = entry_of o p) ->
  history_conflict (db_history d) r = false.
Proof.
  intros Hrep Hp Hn Hint Hiw Hsub Hid Hod Hos Hcase. pose proof Hint as Hrow.
  apply intern_entry_row in Hrow as (Ro & Rs & Rd & Rh & Rt & Rdev & Rc).
  unfold history_conflict. rewrite Hid, (represents_fresh_id _ _ _ _ Hrep Hp Hn).
  rewrite bool_decide_eq_false_2 by (by intros [? ?]). simpl. apply orb_false_intro.
  - apply select_any_false. intros k r' Hk. destruct (same_origin r r') eqn:Hso; [|done].
    apply same_origin_spec in Hso as (dev & seq & H1 & H2 & H3 & H4).
    rewrite Ro, null_string_Some in H1. destruct H1 as [H1 _]. rewrite Rs in H2.
    destruct Hn. destruct (repr_by_origin _ _ o _ _ Hrep Hk) as [p' Hr'].
    { unfold has_origin. apply bool_decide_eq_true. split; congruence. }
    by eapply rp_known.
  - apply select_any_false. intros k r' Hk. destruct (same_dedup r r') eqn:Hsd; [|done]. exfalso.
    unfold same_dedup in Hsd.
    apply andb_prop in Hsd as [[[[[D1 D2]%andb_prop Hh]%andb_prop Ht]%andb_prop Hc]%andb_prop Hdev].
    apply negb_true_iff in D1, D2. apply bool_decide_eq_true in Hh.
    apply Z.eqb_eq in Ht. apply String.eqb_eq in Hdev.
    destruct Hcase as [Hdel|Hcont]; [congruence|].
    destruct (re_row _ _ _ Hrep _ _ Hk) as ([dev' seq'] & p' & Hr').
    destruct (rp_content _ _ _ _ _ _ _ Hr' D2) as [Hcont' Hh'].
    destruct o as [dev seq].
    assert (dev' = dev /\ hc_StartTS p' = hc_StartTS p /\ HashCommand (hc_Command p') = HashCommand (hc_Command p))
      as (-> & Est & Eh).
    { assert (e_DeviceID e = dev /\ e_Command e = hc_Command p /\ e_StartTS e = time_UnixMilli (hc_StartTS p))
        as (E1 & E2 & E3) by (by injection Hcont).
      assert (hr_device_id r' = dev' /\ time_UnixMilli (hr_start_ts r') = time_UnixMilli (hc_StartTS p'))
        as (E1' & E3') by (by injection Hcont').
      unfold time_UnixMilli in E3'.
      rewrite E3, UnixMilli_time_UnixMilli in Rt. split_and!; [congruence|lia|congruence]. }
    destruct (hr_cwd_id r) as [c|]; [|done]. destruct (hr_cwd_id r') as [c'|] eqn:Hc'; [|done].
    apply Z.eqb_eq in Hc. subst c'. destruct Rc as [Rc Hcne].
    assert (e_Cwd e = hc_Cwd p) as Ec by (by injection Hcont).
    assert (hc_Cwd p' = hc_Cwd p) as Ec'.
    { assert (null_string_value (intern_value (in_cwd (db_interns d)) (hr_cwd_id r')) = hc_Cwd p') as Hv
        by (by injection Hcont').
      pose proof (wf_registered _ (re_wf _ _ _ Hrep) _ _ Hk) as (Hreg & _).
      destruct Hsub as (Hsub & _). rewrite Hc' in Hv, Hreg. destruct Hreg as [v Hreg].
      rewrite (intern_value_lookup _ v c) in Hv; [|apply (iw_cwd _ (wf_interns _ (re_wf _ _ _ Hrep)))|done].
      simpl in Hv. rewrite <- Hv, <- Ec. eapply (iw_cwd _ Hiw); [|exact Rc].
      by eapply lookup_weaken. }
    destruct Hn. assert (seq' = seq) as <-.
    { eapply (uo_dedup _ HU dev); [apply (rp_universe _ _ _ _ _ _ _ Hr')|exact Hp|done|done|done|congruence]. }
    by eapply rp_known.
Qed.

(** *** Extending the abstract state *)

Lemma row_repr_grow a a' i i' k r o p :
  row_repr U a i k r o p -> created a ⊆ created a' -> removed a ⊆ removed a' ->
  (o ∈ removed a' -> o ∈ removed a) ->
  interns_wf i' -> interns_sub i i' -> row_registered i r ->
  row_repr U a' i' k r o p.
Proof.
  intros [R1 R2 R3 R4 R5 R6 R7] Hc Hrm Hno Hiw Hsub Hreg. split; try done.
  - destruct R5; [left|right]; auto.
  - rewrite R6. apply bool_decide_ext. split; auto.
  - intros Hd. rewrite (scanEntry_mono i i' r Hiw Hsub Hreg). auto.
Qed.

Lemma interns_sub_refl i : interns_sub i i.
Proof. done. Qed.

Lemma forget_stored e : forget_created_at (stored_entry e)
  = forget_created_at (stored_entry (forget_created_at e)).
Proof. done. Qed.

Lemma stored_entry_of o p : forget_created_at (stored_entry (entry_of o p)) = entry_of o p.
Proof.
  unfold stored_entry, entry_of, created_entry, forget_created_at. simpl.
  rewrite UnixMilli_time_UnixMilli. f_equal. destruct (0 <? hc_EndTS p); simpl; [|done].
  by rewrite UnixMilli_time_UnixMilli.
Qed.

Lemma with_created_forget now e :
  forget_created_at (with_created now e) = forget_created_at e.
Proof. unfold with_created. by destruct (time_IsZero _). Qed.

Lemma insert_represents a a' d o p now e :
  represents U a d -> U !! o = Some p -> ~ (o ∈ created a \/ o ∈ removed a) ->
  created a ⊆ created a' -> removed a ⊆ removed a' ->
  (o ∈ created a' \/ o ∈ removed a') ->
  (forall o', o' ∈ created a' \/ o' ∈ removed a' -> o' = o \/ o' ∈ created a \/ o' ∈ removed a) ->
  (forall o', o' <> o -> o' ∈ removed a' -> o' ∈ removed a) ->
  e_ID e = hc_ID p -> e_OriginDeviceID e = o.1 -> e_OriginSeq e = Some o.2 ->
  e_Deleted e = bool_decide (o ∈ removed a') ->
  (e_Deleted e = false -> forget_created_at e = entry_of o p) ->
  exists d', InsertTx now e d = (d', Ok true) /\ represents U a' d'.
Proof.
  intros Hrep Hp Hn Hc Hrm Hknown Hknew Hrm' Hid Hod Hos Hdel Hcont.
  pose proof (with_created_forget now e) as Hf.
  assert (e_ID (with_created now e) = e_ID e /\ e_OriginDeviceID (with_created now e) = e_OriginDeviceID e
    /\ e_OriginSeq (with_created now e) = e_OriginSeq e /\ e_Deleted (with_created now e) = e_Deleted e
    /\ e_Command (with_created now e) = e_Command e)
    as (F1 & F2 & F3 & F4 & F5) by (by injection Hf).
  destruct (InsertExec_run now e d (re_wf _ _ _ Hrep)) as (i & r & b & Hrun & Hb & Hint & Hiw & Hsub & Hrid & Hsc).
  assert (history_conflict (db_history d) r = false) as Hnc.
  { eapply no_conflict; eauto; try congruence. rewrite F4, Hf.
    destruct (e_Deleted e) eqn:Ed; [by left|right; auto]. }
  rewrite Hnc in Hb. simpl in Hb. subst b. eexists. split; [exact Hrun|].
  pose proof (intern_entry_row _ _ _ _ Hint) as (Ro & Rs & Rd & Rh & _).
  rewrite F2, Hod in Ro. rewrite F3, Hos in Rs. rewrite F4, Hdel in Rd. rewrite F5 in Rh.
  split.
  - pose proof (InsertExec_wf now e d (re_wf _ _ _ Hrep)) as Hw. rewrite Hrun in Hw. exact Hw.
  - simpl. intros k r'. rewrite lookup_insert. destruct (decide (e_ID e = k)) as [Hk|Hk].
    + intros Heq. assert (r = r') as <- by congruence. exists o, p. split; [done|congruence| |done|done|done|].
      { rewrite Ro. destruct o as [dev seq]. destruct (uo_origin _ HU _ _ _ Hp) as [Hne _].
        by apply null_string_Some. }
      intros Hd. rewrite Hsc, forget_stored, Hf, Hcont by congruence.
      split; [apply stored_entry_of|]. rewrite Rh. f_equal.
      assert (forget_created_at e = entry_of o p) as He by (apply Hcont; congruence). by injection He.
    + intros Hk'. destruct (re_row _ _ _ Hrep _ _ Hk') as (o' & p' & Hr').
      assert (o' <> o) as Hoo.
      { intros ->. destruct Hn. by eapply rp_known. }
      exists o', p'. eapply row_repr_grow; eauto. by eapply wf_registered; [eapply re_wf|].
  - simpl. intros o' Ho'. destruct (decide (o' = o)) as [->|Hne].
    + exists p, r. split; [done|]. rewrite <- Hid. apply lookup_insert_eq.
    + destruct (Hknew _ Ho') as [?|Hk]; [done|].
      destruct (re_known _ _ _ Hrep _ Hk) as (p' & r' & Hp' & Hr').
      exists p', r'. split; [done|]. rewrite lookup_insert_ne; [done|].
      intros Heq. destruct Hne. eapply (uo_id _ HU); [exact Hp'|exact Hp|congruence].
Qed.

(** *** The two kinds of events *)

Lemma created_simulates a d now ev p :
  represents U a d -> DecodeHistoryCreated ev = Ok p ->
  U !! (ev_DeviceID ev, ev_Seq ev) = Some p ->
  exists d' e, applyCreated now ev d = (d', Ok e) /\
    represents U (tp_apply a (Create (ev_DeviceID ev, ev_Seq ev))) d'.
Proof.
  intros Hrep Hdec Hp. set (o := (ev_DeviceID ev, ev_Seq ev)).
  unfold applyCreated. rewrite (bind_Ok _ _ d d p) by (unfold of_result; by rewrite Hdec).
  rewrite (bind_Ok _ _ d d (select_any (has_origin o.1 o.2) (db_history d))) by done.
  destruct (select_any _ _) eqn:Hknown.
  - apply (represents_has_origin a d o Hrep) in Hknown.
    eexists d, _. split; [done|]. split; [apply Hrep| |].
    + intros k r Hk. destruct (re_row _ _ _ Hrep _ _ Hk) as (o' & p' & Hr'). exists o', p'.
      eapply row_repr_grow; eauto using interns_sub_refl; [set_solver..| |].
      * apply wf_interns, Hrep.
      * by eapply wf_registered; [eapply re_wf|].
    + intros o' Ho'. apply (re_known _ _ _ Hrep). simpl in Ho'. set_solver.
  - assert (~ (o ∈ created a \/ o ∈ removed a)) as Hn.
    { intros Hk. apply (represents_has_origin a d o Hrep) in Hk. congruence. }
    destruct (insert_represents a (tp_apply a (Create o)) d o p now (created_entry ev p))
      as (d' & Hrun & Hrep'); try done; simpl.
    + apply union_subseteq_r.
    + left. apply elem_of_union_l, elem_of_singleton. done.
    + intros o'. rewrite elem_of_union, elem_of_singleton. tauto.
    + symmetry. apply bool_decide_eq_false. tauto.
    + exists d', (created_entry ev p). split; [|done].
      by rewrite (bind_Ok _ _ d d' true).
Qed.

(** The rows after [UPDATE ... SET deleted = 1] on the row of [p]. *)
Lemma delete_represents a d o p r h' :
  represents U a d -> U !! o = Some p -> db_history d !! hc_ID p = Some r ->
  h' = <[hc_ID p := hr_set_deleted r]> (db_history d) ->
  represents U (tp_apply a (Remove o)) (set_history h' d).
Proof.
  intros Hrep Hp Hr ->. pose proof (repr_by_id _ _ _ _ _ Hrep Hp Hr) as Hrr. split.
  - apply wf_rewrites; [|apply Hrep]. intros k. rewrite lookup_insert. case_decide; subst.
    + exists r. split; [done|]. apply hr_set_deleted_refines.
    + destruct (db_history d !! k) eqn:E; [|done]. eexists. split; [done|]. apply row_refines_refl.
  - simpl. intros k r'. rewrite lookup_insert. destruct (decide (hc_ID p = k)) as [Hk|Hk].
    + intros Heq. assert (hr_set_deleted r = r') as <- by congruence.
      exists o, p. destruct Hrr as [R1 R2 R3 R4 R5 R6 R7]. split; try done; simpl.
      * right. apply elem_of_union_l, elem_of_singleton. done.
      * symmetry. apply bool_decide_eq_true. apply elem_of_union_l, elem_of_singleton. done.
    + intros Hk'. destruct (re_row _ _ _ Hrep _ _ Hk') as (o' & p' & Hr'). exists o', p'.
      assert (o' <> o) as Hne.
      { intros ->. apply Hk. rewrite (rp_key _ _ _ _ _ _ _ Hr'). f_equal.
        pose proof (rp_universe _ _ _ _ _ _ _ Hr'). congruence. }
      eapply row_repr_grow; eauto using interns_sub_refl; simpl; [set_solver..| |].
      * apply wf_interns, Hrep.
      * by eapply wf_registered; [eapply re_wf|].
  - simpl. intros o' Ho'. assert (o' = o \/ o' ∈ created a \/ o' ∈ removed a) as Hc by set_solver.
    destruct Hc as [->|Hk].
    + exists p, (hr_set_deleted r). split; [done|]. apply lookup_insert_eq.
    + destruct (re_known _ _ _ Hrep _ Hk) as (p' & r' & Hp' & Hr').
      destruct (decide (hc_ID p = hc_ID p')) as [Heq|Hne].
      * exists p', (hr_set_deleted r). rewrite Heq. split; [done|]. apply lookup_insert_eq.
      * exists p', r'. by rewrite lookup_insert_ne.
Qed.

Lemma alter_lookup_Some (h : gmap string HistoryRow) k r f :
  h !! k = Some r -> alter f k h = <[k := f r]> h.
Proof.
  intros Hk. apply map_eq. intros k'. rewrite lookup_alter, lookup_insert.
  destruct (decide (k = k')) as [->|]; [by rewrite Hk|done].
Qed.

Lemma alter_lookup_None (h : gmap string HistoryRow) k f : h !! k = None -> alter f k h = h.
Proof.
  intros Hk. apply map_eq. intros k'. rewrite lookup_alter.
  destruct (decide (k = k')) as [->|]; [by rewrite Hk|done].
Qed.

(** Marking by origin after marking by id changes nothing more. *)
Lemma tombstone_by_origin_again a d o p r :
  represents U a d -> U !! o = Some p -> db_history d !! hc_ID p = Some r ->
  update_where (has_origin o.1 o.2) hr_set_deleted (<[hc_ID p := hr_set_deleted r]> (db_history d))
  = <[hc_ID p := hr_set_deleted r]> (db_history d).
Proof.
  intros Hrep Hp Hr. apply map_eq. intros k. rewrite lookup_update_where, lookup_insert.
  destruct (decide (hc_ID p = k)) as [<-|Hne]; simpl; [by destruct (has_origin _ _ _)|].
  destruct (db_history d !! k) as [r'|] eqn:Hk; simpl; [|done].
  destruct (has_origin o.1 o.2 r') eqn:Ho; [|done].
  destruct (repr_by_origin _ _ _ _ _ Hrep Hk Ho) as [p' Hr'].
  destruct Hne. rewrite (rp_key _ _ _ _ _ _ _ Hr'). f_equal.
  pose proof (rp_universe _ _ _ _ _ _ _ Hr'). congruence.
Qed.

Lemma tombstone_simulates a d now ev t p :
  represents U a d -> DecodeHistoryTombstoned ev = Ok t ->
  U !! (ht_OriginDeviceID t, ht_OriginSeq t) = Some p -> ht_HistoryID t = hc_ID p ->
  exists d' ids, applyTombstone now ev d = (d', Ok ids) /\
    represents U (tp_apply a (Remove (ht_OriginDeviceID t, ht_OriginSeq t))) d'.
Proof.
  intros Hrep Hdec Hp Hid. set (o := (ht_OriginDeviceID t, ht_OriginSeq t)).
  destruct (uo_origin _ HU _ _ _ Hp) as [Hdev Hseq]. pose proof (uo_id_nonempty _ HU _ _ Hp) as Hne.
  unfold applyTombstone. rewrite (bind_Ok _ _ d d t) by (unfold of_result; by rewrite Hdec).
  assert (str_empty (ht_HistoryID t) = false) as He1 by (rewrite Hid; by destruct (hc_ID p)).
  assert (negb (str_empty (ht_OriginDeviceID t)) && (0 <? ht_OriginSeq t) = true) as He2.
  { apply andb_true_intro. split; [by destruct (ht_OriginDeviceID t)|lia]. }
  rewrite He1. set (d1 := set_history (alter hr_set_deleted (hc_ID p) (db_history d)) d).
  rewrite (bind_Ok _ _ d d1 [ht_HistoryID t]).
  2: { unfold mbind, M_bind, History.Tombstone, modify. by rewrite Hid. }
  rewrite He2. rewrite (bind_Ok _ _ d1 d1 (select_any (has_origin o.1 o.2) (db_history d1))) by done.
  set (d2 := set_history (update_where (has_origin o.1 o.2) hr_set_deleted (db_history d1)) d1).
  rewrite (bind_Ok _ _ d1 d2 tt) by done.
  destruct (db_history d !! hc_ID p) as [r|] eqn:Hr.
  - assert (db_history d1 = <[hc_ID p := hr_set_deleted r]> (db_history d)) as Hd1
      by (by apply alter_lookup_Some).
    assert (select_any (has_origin o.1 o.2) (db_history d1) = true) as Hfound.
    { apply select_any_true. exists (hc_ID p), (hr_set_deleted r). rewrite Hd1, lookup_insert_eq.
      split; [done|]. pose proof (repr_by_id _ _ _ _ _ Hrep Hp Hr) as [? ? R3 R4 ? ? ?].
      unfold has_origin. by apply bool_decide_eq_true. }
    rewrite Hfound. simpl. eexists d2, _. split; [done|].
    eapply (delete_represents a d o p r); [done..|].
    rewrite Hd1. eapply (tombstone_by_origin_again a d o p r); done.
  - assert (db_history d1 = db_history d) as Hd1 by (by apply alter_lookup_None).
    assert (~ (o ∈ created a \/ o ∈ removed a)) as Hn.
    { intros (p' & r' & Hp' & Hr')%(re_known _ _ _ Hrep). 
      assert (p = p') as <- by (unfold o in Hp'; congruence). congruence. }
    assert (select_any (has_origin o.1 o.2) (db_history d1) = false) as Hnf.
    { destruct (select_any _ _) eqn:E; [|done]. rewrite Hd1 in E.
      apply (represents_has_origin a d o Hrep) in E. done. }
    assert (d2 = d) as Hd2.
    { unfold d2. rewrite (update_where_none _ _ _ Hnf). unfold d1. rewrite alter_lookup_None by done.
      by destruct d. }
    rewrite Hnf, Hd2. simpl.
    destruct (insert_represents a (tp_apply a (Remove o)) d o p now
                (tombstone_entry (ht_HistoryID t) o.1 o.2)) as (d' & Hrun & Hrep'); try done; simpl.
    + apply union_subseteq_r.
    + right. apply elem_of_union_l, elem_of_singleton. done.
    + intros o'. rewrite elem_of_union, elem_of_singleton. tauto.
    + intros o' Hoo. rewrite elem_of_union, elem_of_singleton. naive_solver.
    + symmetry. apply bool_decide_eq_true, elem_of_union_l, elem_of_singleton. done.
    + eexists d', _. split; [|done]. rewrite (bind_Ok _ _ d d' true); [done|exact Hrun].
Qed.

Lemma represents_other a d d' :
  represents U a d -> db_history d' = db_history d -> db_interns d' = db_interns d ->
  represents U a d'.
Proof.
  intros [[Wh Wi Wr] Hrow Hkn] Hh Hi. split.
  - split; rewrite ?Hh, ?Hi; done.
  - by rewrite Hh, Hi.
  - by rewrite Hh.
Qed.

(** One event of the protocol, applied to a replica. *)
Lemma ApplyTracked_simulates a d now ev f :
  represents U a d -> event_of U ev f ->
  exists d' cs, ApplyTracked now ev d = (d', Ok cs) /\ represents U (tp_apply a f) d'.
Proof.
  intros Hrep [p Ht Hdec Hp|t p Ht Hdec Hp Hid|m Ht Hm|Ht]; unfold ApplyTracked; rewrite Ht.
  - destruct (created_simulates a d now ev p) as (d' & e & Hrun & Hrep'); [done..|].
    eexists d', _. split; [|done]. simpl. by rewrite (bind_Ok _ _ d d' e).
  - destruct (tombstone_simulates a d now ev t p) as (d' & ids & Hrun & Hrep'); [done..|].
    eexists d', _. split; [|done]. simpl. by rewrite (bind_Ok _ _ d d' ids).
  - eexists _, _. simpl. unfold applyDeviceMeta. rewrite Hm. split; [done|].
    by apply (represents_other a d).
  - eexists _, _. simpl. split; [done|]. done.
Qed.

(** Applying a list of events, one transaction each. *)
Fixpoint apply_all (now : Time) (evs : list Event) : M DB unit :=
  match evs with
  | [] => mret tt
  | ev :: evs => _ ← Apply now ev; apply_all now evs
  end.

Lemma apply_all_simulates a d now evs fs :
  represents U a d -> Forall2 (event_of U) evs fs ->
  exists d', apply_all now evs d = (d', Ok tt) /\ represents U (foldl tp_apply a fs) d'.
Proof.
  intros Hrep Hf. revert a d Hrep. induction Hf as [|ev f evs fs Hev _ IH]; intros a d Hrep; simpl.
  { by exists d. }
  destruct (ApplyTracked_simulates a d now ev f Hrep Hev) as (d1 & cs & Hrun & Hrep1).
  destruct (IH _ _ Hrep1) as (d' & Hrun' & Hrep'). exists d'. split; [|done].
  rewrite (bind_Ok _ _ d d1 tt); [done|]. unfold Apply. by rewrite (bind_Ok _ _ d d1 cs).
Qed.

(** *** What a replica shows *)

Lemma represents_live a d e :
  represents U a d ->
  (exists r, row_of d r /\ hr_deleted r = false /\ forget_created_at (scanEntry (db_interns d) r) = e) <->
  (exists o p, o ∈ visible a /\ U !! o = Some p /\ e = entry_of o p).
Proof.
  intros Hrep. unfold visible. split.
  - intros (r & [k Hk] & Hd & <-). destruct (re_row _ _ _ Hrep _ _ Hk) as (o & p & [R1 R2 R3 R4 R5 R6 R7]).
    exists o, p. destruct (R7 Hd) as [-> _]. rewrite R6 in Hd. apply bool_decide_eq_false in Hd.
    split_and!; [|done|done]. apply elem_of_difference. tauto.
  - intros (o & p & [Hc Hn]%elem_of_difference & Hp & ->).
    destruct (re_known _ _ _ Hrep o (or_introl Hc)) as (p' & r & Hp' & Hr).
    assert (p' = p) as -> by congruence.
    destruct (repr_by_id _ _ _ _ _ Hrep Hp Hr) as [R1 R2 R3 R4 R5 R6 R7].
    rewrite bool_decide_eq_false_2 in R6 by done. destruct (R7 R6) as [R7' _].
    exists r. split_and!; [by exists (hc_ID p)|done|done].
Qed.
End Step.

(** The live entries of a database, without the local insertion time. *)
Definition shows (d : DB) (e : Entry) : Prop :=
  exists r, row_of d r /\ hr_deleted r = false /\ forget_created_at (scanEntry (db_interns d) r) = e.


Lemma event_of_det U ev f f' : event_of U ev f -> event_of U ev f' -> f = f'.
Proof.
  intros [p T D P|t p T D P I|m T D|T] [p' T' D' P'|t' p' T' D' P' I'|m' T' D'|T'];
    rewrite T in T'; try discriminate T'; try done.
  rewrite D in D'. by simplify_eq.
Qed.

Lemma effects_incl U evs evs' fs fs' f :
  Forall2 (event_of U) evs fs -> Forall2 (event_of U) evs' fs' ->
  (forall ev, ev ∈ evs -> ev ∈ evs') -> f ∈ fs -> f ∈ fs'.
Proof.
  intros Hf Hf' Hsub Hin. apply list_elem_of_lookup in Hin as [i Hi].
  destruct (Forall2_lookup_r _ _ _ _ _ Hf Hi) as (ev & Hev & Hef).
  apply list_elem_of_lookup_2, Hsub, list_elem_of_lookup in Hev as [j Hj].
  destruct (Forall2_lookup_l _ _ _ _ _ Hf' Hj) as (f' & Hf'j & Hef').
  rewrite (event_of_det _ _ _ _ Hef Hef'). by eapply list_elem_of_lookup_2.
Qed.

Lemma effects_exist U evs :
  Forall (fun ev => exists f, event_of U ev f) evs -> exists fs, Forall2 (event_of U) evs fs.
Proof.
  induction 1 as [|ev evs [f Hf] _ [fs IH]]; [by exists []; constructor|].
  exists (f :: fs). by constructor.
Qed.

End Replica.
