(* ===== verification/Bundle.v ===== *)
(** [internal/crypto/envelope] and [internal/sync/bundle]: an event bundle is
    the CBOR list of events sealed with XChaCha20-Poly1305 under the master
    key of its generation, with the CBOR header as associated data, in a file
    named by its SHA-256. The AEAD ([golang.org/x/crypto]) and CBOR are
    parameters with the laws their documentation states. *)

From S2P Require Import Prelude Database History Event.

(** ** [internal/crypto/envelope/aead.go] *)

Definition SMKSize : nat := 32.
Definition NonceSize : nat := 24.

(** [chacha20poly1305.NewX(key)]: sealing and opening with a 32-byte key. *)
Class Aead := {
  aead_seal : bytes -> bytes -> bytes -> bytes -> bytes;          (** key nonce plaintext ad *)
  aead_open : bytes -> bytes -> bytes -> bytes -> option bytes;   (** key nonce ciphertext ad *)
}.
Class AeadLaws `{Aead} := {
  aead_open_seal key nonce pt ad :
    length key = SMKSize -> length nonce = NonceSize ->
    aead_open key nonce (aead_seal key nonce pt ad) ad = Some pt;
  (** the ciphertext carries the 16-byte Poly1305 tag *)
  aead_seal_length key nonce pt ad : length (aead_seal key nonce pt ad) = (length pt + 16)%nat;
}.

Section Envelope.
Context `{Aead}.

Definition Seal (key nonce plaintext ad : bytes) : result bytes :=
  if negb (length key =? SMKSize)%nat then Fail (EMsg "chacha20poly1305: bad key length")
  else if negb (length nonce =? NonceSize)%nat then Fail (EMsg "nonce length")
  else Ok (aead_seal key nonce plaintext ad).

Definition Open (key nonce ciphertext ad : bytes) : result bytes :=
  if negb (length key =? SMKSize)%nat then Fail (EMsg "chacha20poly1305: bad key length")
  else match aead_open key nonce ciphertext ad with
       | Some pt => Ok pt
       | None => Fail (EWrap "decrypt" (EMsg "message authentication failed"))
       end.

Lemma Open_Seal `{!AeadLaws} key nonce pt ad ct :
  Seal key nonce pt ad = Ok ct -> Open key nonce ct ad = Ok pt.
Proof.
  unfold Seal, Open. destruct (Nat.eqb_spec (length key) SMKSize) as [Hk|]; [|done].
  destruct (Nat.eqb_spec (length nonce) NonceSize) as [Hn|]; [|done].
  simpl. intros [= <-]. by rewrite aead_open_seal.
Qed.

(** The wrapping format of the recovery and FIDO2 slots: nonce, then
    ciphertext. *)
Lemma Open_nonce_prefix `{!AeadLaws} key nonce pt ad :
  length key = SMKSize -> length nonce = NonceSize ->
  exists ct, Seal key nonce pt ad = Ok ct /\
    (length (nonce ++ ct) <? NonceSize + 1)%nat = false /\
    Open key (take NonceSize (nonce ++ ct)) (drop NonceSize (nonce ++ ct)) ad = Ok pt.
Proof.
  intros Hk Hn. exists (aead_seal key nonce pt ad).
  assert (Seal key nonce pt ad = Ok (aead_seal key nonce pt ad)) as Hs.
  { unfold Seal. by rewrite Hk, Hn. }
  split; [done|]. split.
  - rewrite length_app, Hn, aead_seal_length. apply Nat.ltb_ge. lia.
  - rewrite <- Hn, take_app_length, drop_app_length. by apply Open_Seal.
Qed.
End Envelope.

(** ** [internal/sync/bundle/bundle.go] *)

Definition bundle_CurrentVersion : Z := 1.

Record Header := mkHeader {
  h_Version : Z;
  h_DeviceID : string;
  h_SeqStart : Z;
  h_SeqEnd : Z;
  h_EventCount : Z;
  h_GenerationID : string;
  h_Nonce : bytes;
}.

Record File := mkFile { f_Header : Header; f_Ciphertext : bytes }.

Definition header_zero : Header := mkHeader 0 "" 0 0 0 "" [].

Class BundleCodecs := {
  bc_header :: Codec Header;
  bc_file :: Codec File;
  bc_events :: Codec (list Event);
}.
Class BundleCodecLaws `{BundleCodecs} := {
  bcl_header :: CodecLaws Header;
  bcl_file :: CodecLaws File;
  bcl_events :: CodecLaws (list Event);
}.

Section Bundle.
Context `{Aead} `{BundleCodecs} `{Sha256}.

Definition bundle_header (deviceID generationID : string) (events : list Event) (nonce : bytes)
    : Header :=
  mkHeader bundle_CurrentVersion deviceID
    (from_option ev_Seq 0 (head events)) (from_option ev_Seq 0 (last events))
    (Z.of_nat (length events)) generationID nonce.

(** [Pack]; [nonce] is what [envelope.RandomNonce] drew. *)
Definition Pack (nonce : bytes) (deviceID generationID : string) (events : list Event)
    (smk : bytes) : result (bytes * Header) :=
  match events with
  | [] => Fail (EMsg "empty bundle")
  | _ =>
      let h := bundle_header deviceID generationID events nonce in
      ct ← Seal smk nonce (marshal events) (marshal h);
      Ok (marshal (mkFile h ct), h)
  end.

Definition PeekHeader (raw : bytes) : result Header :=
  match unmarshal raw with
  | Some f => Ok (f_Header f)
  | None => Fail (EMsg "cbor")
  end.

Definition Unpack (raw smk : bytes) : result (Header * list Event) :=
  match unmarshal raw with
  | None => Fail (EWrap "bundle" (EMsg "cbor"))
  | Some f =>
      if negb (h_Version (f_Header f) =? bundle_CurrentVersion)
      then Fail (EMsg "unsupported bundle version")
      else
        pt ← Open smk (h_Nonce (f_Header f)) (f_Ciphertext f) (marshal (f_Header f));
        match (unmarshal pt : option (list Event)) with
        | None => Fail (EWrap "bundle payload" (EMsg "cbor"))
        | Some events =>
            if negb (Z.of_nat (length events) =? h_EventCount (f_Header f))
            then Fail (EMsg "event count mismatch")
            else Ok (f_Header f, events)
        end
  end.

Definition hex_digit (n : N) : Ascii.ascii :=
  if (n <? 10)%N then Ascii.ascii_of_N (48 + n) else Ascii.ascii_of_N (87 + n).
Definition hex_encode (b : bytes) : string :=
  foldr (fun x s => let n := Byte.to_N x in
           String (hex_digit (n / 16)) (String (hex_digit (n mod 16)) s)) EmptyString b.

Definition IntegrityID (raw : bytes) : string := hex_encode (sha256 raw).
Definition Filename (raw : bytes) : string := (IntegrityID raw +:+ ".bundle")%string.

Definition EqualHeader (a b : Header) : bool :=
  String.eqb (h_DeviceID a) (h_DeviceID b) && (h_SeqStart a =? h_SeqStart b) &&
  (h_SeqEnd a =? h_SeqEnd b) && bool_decide (h_Nonce a = h_Nonce b).

(** The values [Pack] serializes are within the limits of the CBOR decoder. *)
Definition bundle_valid (nonce : bytes) (deviceID generationID : string) (events : list Event)
    (smk : bytes) : Prop :=
  let h := bundle_header deviceID generationID events nonce in
  codec_valid events /\
  codec_valid (mkFile h (aead_seal smk nonce (marshal events) (marshal h))).

Lemma Pack_Ok nonce dev gen events smk :
  events <> [] -> length smk = SMKSize -> length nonce = NonceSize ->
  let h := bundle_header dev gen events nonce in
  Pack nonce dev gen events smk =
    Ok (marshal (mkFile h (aead_seal smk nonce (marshal events) (marshal h))), h).
Proof.
  intros Hne Hk Hn. unfold Pack, Seal. destruct events; [done|]. by rewrite Hk, Hn.
Qed.

Lemma Unpack_Pack_valid `{!AeadLaws} `{!BundleCodecLaws} nonce dev gen events smk raw h :
  bundle_valid nonce dev gen events smk ->
  Pack nonce dev gen events smk = Ok (raw, h) ->
  Unpack raw smk = Ok (h, events) /\ PeekHeader raw = Ok h /\
  h = bundle_header dev gen events nonce.
Proof.
  intros [Hv1 Hv2] Hp. set (h' := bundle_header dev gen events nonce) in *.
  assert (Seal smk nonce (marshal events) (marshal h') =
            Ok (aead_seal smk nonce (marshal events) (marshal h')) /\
          raw = marshal (mkFile h' (aead_seal smk nonce (marshal events) (marshal h'))) /\ h = h')
    as (Hs & -> & ->).
  { unfold Pack in Hp. destruct events as [|ev evs]; [done|]. fold h' in Hp.
    unfold Seal in *. destruct (negb _); [done|]. destruct (negb _); [done|].
    simpl in Hp. by simplify_eq. }
  unfold Unpack, PeekHeader. rewrite (unmarshal_marshal _ Hv2). simpl.
  rewrite (Open_Seal _ _ _ _ _ Hs). simpl. rewrite (unmarshal_marshal _ Hv1).
  by rewrite Z.eqb_refl.
Qed.

(** C20: A packed bundle unpacks under its key to the same header and events, the header can be read
    without the key, and it carries the device, the generation and the first and last sequence
    number. *)
Theorem Pack_Unpack_roundtrip `{!AeadLaws} `{!BundleCodecLaws}
    (nonce : bytes) (dev gen : string) (events : list Event) (smk : bytes) :
  events <> [] -> length smk = SMKSize -> length nonce = NonceSize ->
  bundle_valid nonce dev gen events smk ->
  exists raw h, Pack nonce dev gen events smk = Ok (raw, h) /\
    Unpack raw smk = Ok (h, events) /\ PeekHeader raw = Ok h /\
    h_DeviceID h = dev /\ h_GenerationID h = gen /\
    (forall ev, head events = Some ev -> h_SeqStart h = ev_Seq ev) /\
    (forall ev, last events = Some ev -> h_SeqEnd h = ev_Seq ev).
Proof.
  intros Hne Hk Hn Hv. pose proof (Pack_Ok nonce dev gen events smk Hne Hk Hn) as Hp.
  eexists _, _. split; [exact Hp|].
  destruct (Unpack_Pack_valid _ _ _ _ _ _ _ Hv Hp) as (Hu & Hpk & _).
  split_and!; [done|done|done|done|..]; intros ev He; simpl; by rewrite He.
Qed.
End Bundle.
