(* ===== verification/Snapshot.v ===== *)
(** [internal/sync/checkpoint]: checkpoint manifests ([checkpoint.go]) and the
    encrypted snapshot of the whole history ([snapshot.go]): strings are
    interned into per-column lists, the rows are CBOR arrays, the file is
    magic, version, nonce length, nonce, ciphertext. The main results are the
    round trips of the interned snapshot, of the sealed snapshot and of the
    binary file. *)

From S2P Require Import Prelude Database History Frontier Event Bundle.

(** ** [checkpoint.go] *)

Definition checkpoint_CurrentVersion : Z := 1.

Record Manifest := mkManifest {
  m_Version : Z;
  m_ID : string;
  m_GenerationID : string;
  m_Frontier : Frontier;
  m_CreatedAt : Z;
}.

Definition manifest_zero : Manifest := mkManifest 0 "" "" ∅ 0.

Definition NewManifest (now : Time) (id generationID : string) (f : Frontier) : Manifest :=
  mkManifest checkpoint_CurrentVersion id generationID (Clone f) (UnixMilli now).

Definition EncodeManifest `{Codec Manifest} (m : Manifest) : bytes := marshal m.

Definition DecodeManifest `{Codec Manifest} (b : bytes) : result Manifest :=
  match (unmarshal b : option Manifest) with
  | None => Fail (EMsg "json")
  | Some m => if negb (m_Version m =? checkpoint_CurrentVersion)
              then Fail (EMsg "unsupported checkpoint version")
              else Ok m
  end.

(** ** [snapshot.go] *)

Definition snapshotVersion : Z := 2.

Record compactRow := mkCompactRow {
  cr_ID : string;
  cr_Command : string;
  cr_StartMS : Z;
  cr_EndMS : option Z;
  cr_DurationMs : option Z;
  cr_ExitStatus : option Z;
  cr_Cwd : string;
  cr_SessionIdx : Z;
  cr_HostIdx : Z;
  cr_DeviceIdx : Z;
  cr_ShellIdx : Z;
  cr_Deleted : bool;
  cr_OriginDevIdx : Z;
  cr_OriginSeq : option Z;
  cr_CreatedMS : Z;
}.

Record snapshot := mkSnapshot {
  s_Version : Z;
  s_Sessions : list string;
  s_Hosts : list string;
  s_Devices : list string;
  s_Shells : list string;
  s_Rows : list compactRow;
}.

(** [snapshotV1]: the layout before interning. *)
Record snapshotV1 := mkSnapshotV1 { v1_Version : Z; v1_Entries : list Entry }.

Record intern := mkIntern { i_index : gmap string Z; i_list : list string }.

Definition newIntern : intern := mkIntern {[ EmptyString := 0 ]} [EmptyString].

Definition add (s : string) (in_ : intern) : intern * Z :=
  match i_index in_ !! s with
  | Some i => (in_, i)
  | None =>
      let i := Z.of_nat (length (i_list in_)) in
      (mkIntern (<[s:=i]> (i_index in_)) (i_list in_ ++ [s]), i)
  end.

(** The four intern tables of [encodeSnapshot]. *)
Record tables := mkTables { t_sessions : intern; t_hosts : intern; t_devices : intern; t_shells : intern }.

Definition newTables : tables := mkTables newIntern newIntern newIntern newIntern.

(** One iteration of the loop of [encodeSnapshot]; the [add] calls run in the
    order of the struct literal. *)
Definition encode_row (t : tables) (e : Entry) : tables * compactRow :=
  let '(ss, si) := add (e_SessionID e) (t_sessions t) in
  let '(hs, hi) := add (e_Hostname e) (t_hosts t) in
  let '(ds, di) := add (e_DeviceID e) (t_devices t) in
  let '(ls, li) := add (e_Shell e) (t_shells t) in
  let '(ds, oi) := add (e_OriginDeviceID e) ds in
  (mkTables ss hs ds ls,
   mkCompactRow (e_ID e) (e_Command e) (UnixMilli (e_StartTS e)) (UnixMilli <$> e_EndTS e)
     (e_DurationMs e) (e_ExitStatus e) (e_Cwd e) si hi di li (e_Deleted e) oi (e_OriginSeq e)
     (UnixMilli (e_CreatedAt e))).

Fixpoint encode_rows (t : tables) (entries : list Entry) : tables * list compactRow :=
  match entries with
  | [] => (t, [])
  | e :: es =>
      let '(t, r) := encode_row t e in
      let '(t, rs) := encode_rows t es in
      (t, r :: rs)
  end.

Definition encodeSnapshot (entries : list Entry) : snapshot :=
  let '(t, rs) := encode_rows newTables entries in
  mkSnapshot snapshotVersion (i_list (t_sessions t)) (i_list (t_hosts t))
    (i_list (t_devices t)) (i_list (t_shells t)) rs.

(** The closure [at] of [snapshot.entries]. *)
Definition at_index (l : list string) (i : Z) : result string :=
  if (i <? 0) || (Z.of_nat (length l) <=? i) then Fail (EMsg "snapshot intern index out of range")
  else match l !! Z.to_nat i with
       | Some s => Ok s
       | None => Fail (EMsg "snapshot intern index out of range")
       end.

Definition decode_row (s : snapshot) (r : compactRow) : result Entry :=
  session ← at_index (s_Sessions s) (cr_SessionIdx r);
  host ← at_index (s_Hosts s) (cr_HostIdx r);
  dev ← at_index (s_Devices s) (cr_DeviceIdx r);
  origin ← at_index (s_Devices s) (cr_OriginDevIdx r);
  shell ← at_index (s_Shells s) (cr_ShellIdx r);
  Ok (mkEntry (cr_ID r) (cr_Command r) (time_UnixMilli (cr_StartMS r))
        (time_UnixMilli <$> cr_EndMS r) (cr_DurationMs r) (cr_ExitStatus r) (cr_Cwd r)
        session host dev shell (cr_Deleted r) origin (cr_OriginSeq r)
        (time_UnixMilli (cr_CreatedMS r))).

Fixpoint decode_rows (s : snapshot) (rs : list compactRow) : result (list Entry) :=
  match rs with
  | [] => Ok []
  | r :: rs =>
      e ← decode_row s r;
      es ← decode_rows s rs;
      Ok (e :: es)
  end.

Definition entries (s : snapshot) : result (list Entry) := decode_rows s (s_Rows s).

(** [compress/gzip] at [BestCompression]; [gunzip] fails on data that is not a
    gzip stream. *)
Class Gzip := { gzipBest : bytes -> bytes; gunzip : bytes -> option bytes }.
Class GzipLaws `{Gzip} := gunzip_gzipBest p : gunzip (gzipBest p) = Some p.

(** What [decodeJSONSnapshot] unmarshals: a bare array, the wrapper object, or
    the compact snapshot. *)
Record jsonWrap := mkJsonWrap { jw_Version : Z; jw_Entries : list Entry; jw_Rows : list Entry }.
Record jsonSnapshotFile := mkJsonSnapshotFile { jf_Nonce : bytes; jf_Ciphertext : bytes }.

Class SnapshotCodecs := {
  sc_snapshot :: Codec snapshot;
  sc_v1 :: Codec snapshotV1;
  sj_entries : bytes -> option (list Entry);
  sj_wrap : bytes -> option jsonWrap;
  sj_snapshot : bytes -> option snapshot;
  sj_file : bytes -> option jsonSnapshotFile;
}.

Definition brace : Byte.byte := x7b.
Definition bracket : Byte.byte := x5b.

(** CBOR encodes a struct as a map (major type 5), so an encoded snapshot does
    not start with an opening brace or bracket. *)
Class SnapshotCodecLaws `{SnapshotCodecs} := {
  scl_snapshot :: CodecLaws snapshot;
  scl_head : forall (s : snapshot) b rest, marshal s = b :: rest -> b <> brace /\ b <> bracket;
}.

Definition checkpoint_ad : bytes := String.list_byte_of_string "remnix-checkpoint".

Section Snapshot.
Context `{Aead} `{Gzip} `{SnapshotCodecs}.

(** [PackSnapshot]; [nonce] is what [envelope.RandomNonce] drew. *)
Definition PackSnapshot (nonce : bytes) (es : list Entry) (smk : bytes) : result (bytes * bytes) :=
  ct ← Seal smk nonce (gzipBest (marshal (encodeSnapshot es))) checkpoint_ad;
  Ok (nonce, ct).

Definition decodeCBORSnapshot (body : bytes) : result (list Entry) :=
  let s : option snapshot := unmarshal body in
  let err := match s with
             | None => EMsg "cbor"
             | Some _ => EMsg "unsupported snapshot version"
             end in
  let v1_fallback :=
    match (unmarshal body : option snapshotV1) with
    | Some v1 => if (v1_Version v1 =? 1) || negb (length (v1_Entries v1) =? 0)%nat
                 then Ok (v1_Entries v1)
                 else Fail err
    | None => Fail err
    end in
  match s with
  | Some s => if s_Version s =? snapshotVersion then entries s else v1_fallback
  | None => v1_fallback
  end.

Definition decodeJSONSnapshot (body : bytes) : result (list Entry) :=
  match body with
  | b :: _ =>
      if Byte.eqb b bracket then
        match sj_entries body with Some es => Ok es | None => Fail (EMsg "json") end
      else
        match sj_wrap body with
        | None => Fail (EMsg "json")
        | Some w =>
            match jw_Entries w, jw_Rows w with
            | _ :: _, _ => Ok (jw_Entries w)
            | [], _ :: _ => Ok (jw_Rows w)
            | [], [] =>
                match sj_snapshot body with
                | None => Fail (EMsg "json")
                | Some s => if (s_Version s =? snapshotVersion) || negb (length (s_Rows s) =? 0)%nat
                            then entries s
                            else Fail (EMsg "json snapshot empty")
                end
            end
        end
  | [] => Fail (EMsg "json")
  end.

Definition decodeSnapshotPayload (pt : bytes) : result (list Entry) :=
  let body := default pt (gunzip pt) in
  match body with
  | b :: _ => if Byte.eqb b brace || Byte.eqb b bracket then decodeJSONSnapshot body
              else decodeCBORSnapshot body
  | [] => decodeCBORSnapshot body
  end.

Definition UnpackSnapshot (smk nonce ct : bytes) : result (list Entry) :=
  pt ← Open smk nonce ct checkpoint_ad;
  decodeSnapshotPayload pt.

(** *** The file container *)

Definition snapshotMagic : bytes := String.list_byte_of_string "SScp".
Definition snapshotFileV1 : Byte.byte := x01.

(** [byte(n)] *)
Definition byte_of_nat (n : nat) : Byte.byte :=
  default x00 (Byte.of_N (N.of_nat (n mod 256))).

Definition EncodeFile (nonce ct : bytes) : bytes :=
  snapshotMagic ++ [snapshotFileV1] ++ [byte_of_nat (length nonce)] ++ nonce ++ ct.

Definition decodeBinaryFile (b : bytes) : result (bytes * bytes) :=
  if (length b <? 6)%nat then Fail (EMsg "truncated snapshot file")
  else match b !! 4%nat, b !! 5%nat with
       | Some v, Some n =>
           if negb (Byte.eqb v snapshotFileV1) then Fail (EMsg "unsupported snapshot file version")
           else
             let nlen := N.to_nat (Byte.to_N n) in
             if (nlen <? 1)%nat || (length b <? 6 + nlen)%nat then Fail (EMsg "truncated snapshot file")
             else Ok (take nlen (drop 6 b), drop (6 + nlen) b)
       | _, _ => Fail (EMsg "truncated snapshot file")
       end.

Definition decodeJSONFile (b : bytes) : result (bytes * bytes) :=
  match sj_file b with
  | None => Fail (EMsg "json")
  | Some w => match jf_Nonce w, jf_Ciphertext w with
              | [], _ | _, [] => Fail (EMsg "json snapshot missing nonce or ciphertext")
              | _, _ => Ok (jf_Nonce w, jf_Ciphertext w)
              end
  end.

Definition DecodeFile (b : bytes) : result (bytes * bytes) :=
  if (4 <=? length b)%nat && bool_decide (take 4 b = snapshotMagic) then decodeBinaryFile b
  else match decodeJSONFile b with
       | Ok r => Ok r
       | Fail _ => Fail (EMsg "not a remnix snapshot")
       end.
End Snapshot.

(** ** Round trips *)

Definition intern_ok (in_ : intern) : Prop :=
  forall s i, i_index in_ !! s = Some i -> 0 <= i /\ i_list in_ !! Z.to_nat i = Some s.

Lemma newIntern_ok : intern_ok newIntern.
Proof. intros s i. simpl. rewrite lookup_singleton. case_decide; [|done]. by intros [= <-]; subst. Qed.

(** An index points to its string in every extension of the list. *)
Definition points (l : list string) (i : Z) (s : string) : Prop :=
  0 <= i /\ l !! Z.to_nat i = Some s.

Lemma points_prefix l l' i s : l `prefix_of` l' -> points l i s -> points l' i s.
Proof. intros [k ->] [? Hl]. split; [done|]. by apply lookup_app_l_Some. Qed.

Lemma at_index_points l i s : points l i s -> at_index l i = Ok s.
Proof.
  intros [Hi Hl]. unfold at_index. pose proof (lookup_lt_Some _ _ _ Hl).
  rewrite (proj2 (Z.ltb_ge i 0)) by done. rewrite (proj2 (Z.leb_gt _ _)) by lia. simpl. by rewrite Hl.
Qed.

Lemma add_spec s in_ :
  intern_ok in_ ->
  let '(in', i) := add s in_ in
  intern_ok in' /\ i_list in_ `prefix_of` i_list in' /\ points (i_list in') i s.
Proof.
  intros Hok. unfold add. destruct (i_index in_ !! s) as [i|] eqn:E.
  - split_and!; [done|done|by apply Hok].
  - assert (points (i_list in_ ++ [s]) (Z.of_nat (length (i_list in_))) s) as Hp.
    { split; [lia|]. rewrite Nat2Z.id, lookup_app_r by lia. by rewrite Nat.sub_diag. }
    split_and!; [|by apply prefix_app_r|done]. intros s' i'. simpl. rewrite lookup_insert.
    case_decide; [intros [= <-]; by subst|]. intros Hi%Hok. eapply points_prefix; [|exact Hi].
    by apply prefix_app_r.
Qed.

Record tables_ok (t : tables) : Prop := {
  to_sessions : intern_ok (t_sessions t);
  to_hosts : intern_ok (t_hosts t);
  to_devices : intern_ok (t_devices t);
  to_shells : intern_ok (t_shells t);
}.

(** The lists of a snapshot extend those of the tables. *)
Record extends (s : snapshot) (t : tables) : Prop := {
  ex_sessions : i_list (t_sessions t) `prefix_of` s_Sessions s;
  ex_hosts : i_list (t_hosts t) `prefix_of` s_Hosts s;
  ex_devices : i_list (t_devices t) `prefix_of` s_Devices s;
  ex_shells : i_list (t_shells t) `prefix_of` s_Shells s;
}.

Lemma encode_row_spec t e :
  tables_ok t ->
  let '(t', r) := encode_row t e in
  tables_ok t' /\ (forall s, extends s t' -> extends s t) /\
  forall s, extends s t' -> decode_row s r = Ok (stored_entry e).
Proof.
  intros [H1 H2 H3 H4]. unfold encode_row.
  pose proof (add_spec (e_SessionID e) _ H1) as A1. destruct (add (e_SessionID e) _) as [ss si].
  pose proof (add_spec (e_Hostname e) _ H2) as A2. destruct (add (e_Hostname e) _) as [hs hi].
  pose proof (add_spec (e_DeviceID e) _ H3) as A3. destruct (add (e_DeviceID e) _) as [ds di].
  pose proof (add_spec (e_Shell e) _ H4) as A4. destruct (add (e_Shell e) _) as [ls li].
  destruct A1 as (K1 & P1 & Q1), A2 as (K2 & P2 & Q2), A3 as (K3 & P3 & Q3), A4 as (K4 & P4 & Q4).
  pose proof (add_spec (e_OriginDeviceID e) _ K3) as A5. destruct (add (e_OriginDeviceID e) ds) as [ds' oi].
  destruct A5 as (K5 & P5 & Q5). split; [by split|]. split.
  - intros s [E1 E2 E3 E4]. simpl in *. split; (etrans; [|eassumption]); try done. by etrans.
  - intros s [E1 E2 E3 E4]. simpl in *. unfold decode_row. simpl.
    rewrite (at_index_points _ si (e_SessionID e)) by (by eapply points_prefix). simpl.
    rewrite (at_index_points _ hi (e_Hostname e)) by (by eapply points_prefix). simpl.
    rewrite (at_index_points _ di (e_DeviceID e))
      by (eapply points_prefix; [exact E3|by eapply points_prefix]). simpl.
    rewrite (at_index_points _ oi (e_OriginDeviceID e)) by (by eapply points_prefix). simpl.
    rewrite (at_index_points _ li (e_Shell e)) by (by eapply points_prefix). simpl.
    unfold stored_entry. f_equal. f_equal. by destruct (e_EndTS e).
Qed.

Lemma encode_rows_spec t es :
  tables_ok t ->
  let '(t', rs) := encode_rows t es in
  tables_ok t' /\ (forall s, extends s t' -> extends s t) /\
  forall s, extends s t' -> decode_rows s rs = Ok (stored_entry <$> es).
Proof.
  revert t. induction es as [|e es IH]; intros t Ht; cbn [encode_rows]; [done|].
  pose proof (encode_row_spec t e Ht) as Hr. destruct (encode_row t e) as [t1 r].
  destruct Hr as (Ht1 & Hmono1 & Hdec1).
  specialize (IH t1 Ht1). destruct (encode_rows t1 es) as [t2 rs]. destruct IH as (Ht2 & Hmono2 & Hdec2).
  split_and!; [done|auto|]. intros s Hs. cbn [decode_rows]. rewrite (Hdec1 s (Hmono2 s Hs)). simpl.
  by rewrite (Hdec2 s Hs).
Qed.

Lemma entries_encodeSnapshot (es : list Entry) :
  entries (encodeSnapshot es) = Ok (stored_entry <$> es).
Proof.
  unfold entries, encodeSnapshot.
  pose proof (encode_rows_spec newTables es) as Hs.
  destruct (encode_rows newTables es) as [t rs].
  destruct Hs as (_ & _ & Hdec); [split; apply newIntern_ok|]. by apply Hdec.
Qed.

Lemma byte_of_nat_to_N n : (n < 256)%nat -> N.to_nat (Byte.to_N (byte_of_nat n)) = n.
Proof.
  intros Hn. unfold byte_of_nat. rewrite Nat.mod_small by done.
  destruct (Byte.of_N (N.of_nat n)) as [b|] eqn:E; simpl.
  - apply Byte.to_of_N in E. rewrite E. lia.
  - apply Byte.of_N_None_iff in E. lia.
Qed.

Section Roundtrips.
Context `{Aead} `{Gzip} `{SnapshotCodecs}.

(** The binary snapshot file decodes to the nonce and ciphertext it was made of, for every
    nonce of 1 to 255 bytes. *)
Theorem DecodeFile_EncodeFile (nonce ct : bytes) :
  (1 <= length nonce < 256)%nat -> DecodeFile (EncodeFile nonce ct) = Ok (nonce, ct).
Proof.
  intros Hn. unfold DecodeFile, EncodeFile.
  assert (take 4 (snapshotMagic ++ [snapshotFileV1] ++ [byte_of_nat (length nonce)] ++ nonce ++ ct)
          = snapshotMagic) as -> by done.
  rewrite bool_decide_eq_true_2 by done. simpl.
  unfold decodeBinaryFile. simpl. rewrite byte_of_nat_to_N by lia.
  rewrite length_app.
  destruct (Nat.ltb_spec (length nonce) 1); [lia|].
  destruct (Nat.ltb_spec (S (S (S (S (S (S (length nonce + length ct))))))) (S (S (S (S (S (S (length nonce))))))));
    [lia|]. simpl.
  by rewrite drop_0, take_app_length, drop_app_length.
Qed.

(** A packed snapshot unpacks under its key to the same entries, with times at the millisecond
    precision of the store: the interning tables, the compact rows, the compression and the
    encryption are undone. *)
Theorem UnpackSnapshot_PackSnapshot `{!AeadLaws} `{!GzipLaws} `{!SnapshotCodecLaws}
    (nonce smk : bytes) (es : list Entry) :
  length smk = SMKSize -> length nonce = NonceSize -> codec_valid (encodeSnapshot es) ->
  exists ct, PackSnapshot nonce es smk = Ok (nonce, ct) /\
    UnpackSnapshot smk nonce ct = Ok (stored_entry <$> es).
Proof.
  intros Hk Hn Hv. unfold PackSnapshot.
  set (pt := gzipBest (marshal (encodeSnapshot es))).
  assert (Seal smk nonce pt checkpoint_ad = Ok (aead_seal smk nonce pt checkpoint_ad)) as Hs
    by (unfold Seal; by rewrite Hk, Hn).
  rewrite Hs. eexists. split; [done|]. unfold UnpackSnapshot. rewrite (Open_Seal _ _ _ _ _ Hs). simpl.
  unfold decodeSnapshotPayload, pt. rewrite gunzip_gzipBest. simpl.
  assert (decodeCBORSnapshot (marshal (encodeSnapshot es)) = Ok (stored_entry <$> es)) as Hd.
  { unfold decodeCBORSnapshot. rewrite (unmarshal_marshal _ Hv).
    assert (s_Version (encodeSnapshot es) = snapshotVersion) as ->
      by (unfold encodeSnapshot; by destruct (encode_rows _ _)).
    simpl. apply entries_encodeSnapshot. }
  destruct (marshal (encodeSnapshot es)) as [|b rest] eqn:Em; [done|].
  destruct (scl_head _ _ _ Em) as [Hb1 Hb2].
  destruct (Byte.eqb b brace) eqn:E1; [by apply Byte.byte_dec_bl in E1|].
  destruct (Byte.eqb b bracket) eqn:E2; [by apply Byte.byte_dec_bl in E2|]. done.
Qed.
End Roundtrips.
