(* ===== verification/Keys.v ===== *)
(** [internal/crypto/slots], [generations], [recovery], [keys] and
    [rotation]: unlock slots, signed generation manifests, the key tables of
    the local database and the durable rotation journal. *)

From S2P Require Import Prelude Database Bundle.

(** ** [slots/slots.go] *)

Definition TypeRecovery : string := "recovery".
Definition TypeYubiKey : string := "yubikey-piv".
Definition TypeFIDO2Hmac : string := "fido2-hmac".
Definition SlotActive : string := "active".
Definition SlotRevoked : string := "revoked".

Record Slot := mkSlot {
  sl_ID : string;
  sl_Type : string;
  sl_GenerationID : string;
  sl_WrapParams : bytes;
  sl_WrappedSMK : bytes;
  sl_Status : string;
  sl_CreatedAt : Z;
  sl_Label : string;
}.

Definition slot_zero : Slot := mkSlot "" "" "" [] [] "" 0 "".

Definition slot_active (s : Slot) : bool := String.eqb (sl_Status s) SlotActive.

Definition Active (slots : list Slot) : list Slot := List.filter slot_active slots.

Definition OfType (slots : list Slot) (typ : string) : list Slot :=
  List.filter (fun s => String.eqb (sl_Type s) typ && slot_active s) slots.

Definition revoke (s : Slot) : Slot :=
  mkSlot (sl_ID s) (sl_Type s) (sl_GenerationID s) (sl_WrapParams s) (sl_WrappedSMK s)
    SlotRevoked (sl_CreatedAt s) (sl_Label s).

Definition with_generation (gen : string) (s : Slot) : Slot :=
  mkSlot (sl_ID s) (sl_Type s) gen (sl_WrapParams s) (sl_WrappedSMK s) (sl_Status s)
    (sl_CreatedAt s) (sl_Label s).

(** ** [generations/manifest.go] *)

Definition generations_CurrentVersion : Z := 1.

Record GManifest := mkGManifest {
  gm_Version : Z;
  gm_GenerationID : string;
  gm_Seq : Z;
  gm_Counter : Z;
  gm_Active : bool;
  gm_Slots : list Slot;
  gm_MAC : string;
}.

Definition gmanifest_zero : GManifest := mkGManifest 0 "" 0 0 false [] "".

Definition gm_with_MAC (mac : string) (m : GManifest) : GManifest :=
  mkGManifest (gm_Version m) (gm_GenerationID m) (gm_Seq m) (gm_Counter m) (gm_Active m)
    (gm_Slots m) mac.
Definition gm_with_Active (a : bool) (m : GManifest) : GManifest :=
  mkGManifest (gm_Version m) (gm_GenerationID m) (gm_Seq m) (gm_Counter m) a
    (gm_Slots m) (gm_MAC m).
Definition gm_with_Slots (s : list Slot) (m : GManifest) : GManifest :=
  mkGManifest (gm_Version m) (gm_GenerationID m) (gm_Seq m) (gm_Counter m) (gm_Active m)
    s (gm_MAC m).
Definition gm_bump (m : GManifest) : GManifest :=
  mkGManifest (gm_Version m) (gm_GenerationID m) (gm_Seq m) (wrap64 (gm_Counter m + 1))
    (gm_Active m) (gm_Slots m) (gm_MAC m).

(** [golang.org/x/crypto/hkdf] reading 32 bytes, and HMAC-SHA-256. *)
Class Mac := {
  hkdf32 : bytes -> bytes -> bytes -> bytes;  (** secret salt info *)
  hmac_sha256 : bytes -> bytes -> bytes;      (** key message *)
}.
Class MacLaws `{Mac} := hkdf32_length secret salt info : length (hkdf32 secret salt info) = 32%nat.

Definition b (s : string) : bytes := String.list_byte_of_string s.

Section Generations.
Context `{Mac} `{Codec GManifest}.

Definition macKey (smk : bytes) : bytes := hkdf32 smk (b "remnix-manifest") (b "mac-v1").

Definition manifest_mac (m : GManifest) (smk : bytes) : string :=
  hex_encode (hmac_sha256 (macKey smk) (marshal (gm_with_MAC "" m))).

Definition Sign (m : GManifest) (smk : bytes) : GManifest :=
  gm_with_MAC (manifest_mac m smk) m.

Definition Verify (m : GManifest) (smk : bytes) : result unit :=
  if negb (String.eqb (manifest_mac m smk) (gm_MAC m)) then Fail (EMsg "manifest mac mismatch")
  else if negb (gm_Version m =? generations_CurrentVersion)
       then Fail (EMsg "unsupported generation version")
       else Ok tt.

Lemma Verify_Sign m smk :
  gm_Version m = generations_CurrentVersion -> Verify (Sign m smk) smk = Ok tt.
Proof.
  intros Hv. unfold Verify, Sign, manifest_mac. simpl. rewrite String.eqb_refl. simpl. by rewrite Hv.
Qed.
End Generations.

(** ** [recovery/recovery.go] *)

Section Recovery.
Context `{Mac} `{Aead}.

Definition wrapKey (secret : bytes) : bytes := hkdf32 secret (b "remnix-recovery") (b "wrap-v1").

(** [WrapSMK]; [nonce] is what [envelope.RandomNonce] drew. *)
Definition WrapSMK (nonce secret smk : bytes) : result bytes :=
  ct ← Seal (wrapKey secret) nonce smk (b "remnix-recovery-slot");
  Ok (nonce ++ ct).

Definition UnwrapSMK (secret wrapped : bytes) : result bytes :=
  if (length wrapped <? NonceSize + 1)%nat then Fail (EMsg "wrapped smk too short")
  else Open (wrapKey secret) (take NonceSize wrapped) (drop NonceSize wrapped)
         (b "remnix-recovery-slot").

Lemma UnwrapSMK_nonce_prefix `{!MacLaws} `{!AeadLaws} (nonce secret smk : bytes) :
  length nonce = NonceSize ->
  exists wrapped, WrapSMK nonce secret smk = Ok wrapped /\ UnwrapSMK secret wrapped = Ok smk.
Proof.
  intros Hn.
  destruct (Open_nonce_prefix (wrapKey secret) nonce smk (b "remnix-recovery-slot"))
    as (ct & Hs & Hl & Ho); [apply hkdf32_length | done |].
  exists (nonce ++ ct). unfold WrapSMK, UnwrapSMK. by rewrite Hs, Hl.
Qed.
End Recovery.

(** ** [keys/store.go]: unlocking *)

(** A PIV token ([piv.Token]): [Public] followed by [piv.WrapSMK], and
    [Decrypt]. *)
Record Token := mkToken {
  tk_Serial : string;
  tk_Label : string;
  tk_Wrap : bytes -> result (bytes * bytes);
  tk_Decrypt : bytes -> result bytes;
}.

(** [fido2.Enrollment] *)
Record Enrollment := mkEnrollment {
  en_CredentialID : bytes;
  en_Salt : bytes;
  en_Secret : bytes;
  en_AAGUID : string;
  en_Product : string;
  en_RPID : string;
}.

(** [fido2.WrapParams] *)
Record WrapParams := mkWrapParams {
  fp_Version : Z;
  fp_RPID : string;
  fp_CredentialID : bytes;
  fp_Salt : bytes;
  fp_AAGUID : string;
  fp_Product : string;
}.

(** A FIDO2 authenticator ([fido2.Device]): [Enroll] and [Derive]. *)
Record FidoDevice := mkFidoDevice {
  fd_Enroll : result Enrollment;
  fd_Derive : bytes -> bytes -> result bytes;
}.

Record Unlock := mkUnlock {
  u_RecoverySecret : bytes;
  u_Tokens : list Token;
  u_FIDO2 : list FidoDevice;
}.

Section Unwrap.
Context `{Mac} `{Aead} `{Codec WrapParams}.

(** [internal/crypto/fido2/fido2.go] *)
Definition fido2_wrapKey (hmacSecret : bytes) : bytes :=
  hkdf32 hmacSecret (b "remnix-fido2-hmac") (b "wrap-v1").

Definition fido2_WrapSMK (nonce hmacSecret smk : bytes) : result bytes :=
  ct ← Seal (fido2_wrapKey hmacSecret) nonce smk (b "remnix-fido2-hmac-slot");
  Ok (nonce ++ ct).

Definition fido2_UnwrapSMK (hmacSecret wrapped : bytes) : result bytes :=
  if (length wrapped <? NonceSize + 1)%nat then Fail (EMsg "wrapped smk too short")
  else Open (fido2_wrapKey hmacSecret)
         (take NonceSize wrapped) (drop NonceSize wrapped) (b "remnix-fido2-hmac-slot").

(** The loops that return the first success and otherwise the last error. *)
Fixpoint first_ok {A B} (f : A -> result B) (last : error) (l : list A) : result B :=
  match l with
  | [] => Fail last
  | x :: l => match f x with
              | Ok y => Ok y
              | Fail e => first_ok f e l
              end
  end.

Definition unwrapFIDO2 (sl : Slot) (devices : list FidoDevice) : result bytes :=
  match (unmarshal (sl_WrapParams sl) : option WrapParams) with
  | None => Fail (EWrap "fido2 wrap params" (EMsg "json"))
  | Some p =>
      first_ok (fun dev =>
        secret ← fd_Derive dev (fp_CredentialID p) (fp_Salt p);
        fido2_UnwrapSMK secret (sl_WrappedSMK sl))
        (EMsg "no fido2 authenticator available for slot") devices
  end.

Definition Unwrap (sl : Slot) (u : Unlock) : result bytes :=
  if String.eqb (sl_Type sl) TypeRecovery then
    match u_RecoverySecret u with
    | [] => Fail (EMsg "recovery key required")
    | _ => UnwrapSMK (u_RecoverySecret u) (sl_WrappedSMK sl)
    end
  else if String.eqb (sl_Type sl) TypeYubiKey then
    first_ok (fun tok => tk_Decrypt tok (sl_WrappedSMK sl)) (EMsg "no yubikey available for slot")
      (u_Tokens u)
  else if String.eqb (sl_Type sl) TypeFIDO2Hmac then unwrapFIDO2 sl (u_FIDO2 u)
  else Fail (EMsg "unknown slot type").

Definition UnwrapAny (sls : list Slot) (u : Unlock) : result (bytes * Slot) :=
  first_ok (fun sl => smk ← Unwrap sl u; Ok (smk, sl)) (EMsg "no active key slots") (Active sls).

Lemma first_ok_Ok {A B} (f : A -> result B) e l y :
  first_ok f e l = Ok y -> exists x, x ∈ l /\ f x = Ok y.
Proof.
  revert e. induction l as [|x l IH]; intros e; simpl; [done|].
  destruct (f x) as [y'|e'] eqn:E.
  - intros [= <-]. exists x. split; [left|done].
  - intros (x' & Hx & Hf)%IH. exists x'. split; [by right|done].
Qed.

Lemma first_ok_exists {A B} (f : A -> result B) e l x y :
  x ∈ l -> f x = Ok y -> exists y', first_ok f e l = Ok y'.
Proof.
  intros Hin Hf. revert e. induction l as [|z l IH]; intros e; [by apply elem_of_nil in Hin|]. simpl.
  destruct (f z) as [y'|e'] eqn:E; [eauto|].
  apply elem_of_cons in Hin as [<-|Hin]; [congruence|]. by apply IH.
Qed.

(** A master key is only ever unwrapped from an active slot of the list, and it is what that
    slot unwraps to. *)
Theorem UnwrapAny_active (sls : list Slot) (u : Unlock) (smk : bytes) (sl : Slot) :
  UnwrapAny sls u = Ok (smk, sl) ->
  sl ∈ sls /\ sl_Status sl = SlotActive /\ Unwrap sl u = Ok smk.
Proof.
  intros (sl' & Hin & Hu)%first_ok_Ok.
  destruct (Unwrap sl' u) as [smk'|e] eqn:E; simpl in Hu; [|done]. simplify_eq.
  apply list_elem_of_In, filter_In in Hin as [Hin Ha]. apply list_elem_of_In in Hin.
  unfold slot_active in Ha. by apply String.eqb_eq in Ha.
Qed.

Lemma UnwrapAny_succeeds sls u sl smk :
  sl ∈ sls -> sl_Status sl = SlotActive -> Unwrap sl u = Ok smk ->
  exists smk' sl', UnwrapAny sls u = Ok (smk', sl').
Proof.
  intros Hin Ha Hu. destruct (first_ok_exists (fun sl => smk ← Unwrap sl u; Ok (smk, sl))
    (EMsg "no active key slots") (Active sls) sl (smk, sl)) as [[smk' sl'] Hf].
  - apply list_elem_of_In, filter_In. split; [by apply list_elem_of_In|].
    unfold slot_active. by rewrite Ha.
  - by rewrite Hu.
  - eauto.
Qed.
End Unwrap.
