(* ===== verification/KeyStore.v ===== *)
(** [internal/crypto/keys/store.go], [keys/rotation.go] and
    [internal/crypto/rotation/rotation.go]: the key tables of the local
    database, the durable rotation journal, and the operations on a
    generation manifest. What the code draws at random or reads from the
    clock (uuids, nonces, keys, times) is an argument. *)

From S2P Require Import Prelude Database History Bundle Keys.

(** ** [keys/store.go]: the tables *)

Definition statusOf (m : GManifest) : string := if gm_Active m then "active" else "retained".

Definition gr_set_status (st : string) (r : GenerationRow) : GenerationRow :=
  mkGenerationRow (gr_seq r) st (gr_created_at r).

(** [SELECT id FROM key_generations WHERE seq = ?]; [seq] is UNIQUE. *)
Definition id_of_seq (d : DB) (seq : Z) : option string :=
  fst <$> List.find (fun '(_, r) => gr_seq r =? seq) (map_to_list (db_generations d)).

(** The [INSERT ... ON CONFLICT(id) DO UPDATE SET status]; a row under the same
    id keeps its seq and creation time. *)
Definition upsert_generation (now : Z) (m : GManifest) : M DB unit :=
  modify (fun d => set_generations
    (<[gm_GenerationID m :=
        match db_generations d !! gm_GenerationID m with
        | Some r => gr_set_status (statusOf m) r
        | None => mkGenerationRow (gm_Seq m) (statusOf m) now
        end]> (db_generations d)) d).

(** The [ON CONFLICT(id) DO UPDATE] of [key_slots]. *)
Fixpoint upsert_slot (new : SlotRow) (l : list SlotRow) : list SlotRow :=
  match l with
  | [] => [new]
  | r :: l =>
      if String.eqb (sr_id r) (sr_id new)
      then mkSlotRow (sr_id r) (sr_generation_id r) (sr_slot_type r) (sr_wrap_params new)
             (sr_wrapped_smk new) (sr_status new) (sr_created_at r) :: l
      else r :: upsert_slot new l
  end.

Definition slot_known (id : string) (l : list SlotRow) : bool :=
  existsb (fun r => String.eqb (sr_id r) id) l.

(** The foreign key on [generation_id] is checked when a row is inserted; the
    update of an existing slot leaves that column alone. *)
Definition putSlot (now : Z) (sl : Slot) : M DB unit := fun d =>
  let created := if sl_CreatedAt sl =? 0 then now else sl_CreatedAt sl in
  let row := mkSlotRow (sl_ID sl) (sl_GenerationID sl) (sl_Type sl) (sl_WrapParams sl)
               (sl_WrappedSMK sl) (sl_Status sl) created in
  if negb (slot_known (sl_ID sl) (db_slots d)) &&
     negb (bool_decide (is_Some (db_generations d !! sl_GenerationID sl)))
  then (d, Fail (EMsg "FOREIGN KEY constraint failed"))
  else (set_slots (upsert_slot row (db_slots d)) d, Ok tt).

Definition PutSlot := putSlot.

Definition putGeneration (now : Z) (m : GManifest) : M DB unit :=
  existing ← gets (fun d => id_of_seq d (gm_Seq m));
  if match existing with
     | Some id => negb (String.eqb id (gm_GenerationID m))
     | None => false
     end
  then fail (EMsg "store key generation: seq already held")
  else
    _ ← upsert_generation now m;
    for_each (gm_Slots m) (fun sl => putSlot now (with_generation (gm_GenerationID m) sl)).

Definition PutGeneration := putGeneration.

Definition scanSlot (r : SlotRow) : Slot :=
  mkSlot (sr_id r) (sr_slot_type r) (sr_generation_id r) (sr_wrap_params r) (sr_wrapped_smk r)
    (sr_status r) (sr_created_at r) "".

Definition Slots (d : DB) (generationID : string) : list Slot :=
  scanSlot <$> List.filter (fun r => String.eqb (sr_generation_id r) generationID) (db_slots d).

(** A stored generation comes back without counter and MAC. *)
Definition scanGeneration (d : DB) (id : string) (r : GenerationRow) : GManifest :=
  mkGManifest generations_CurrentVersion id (gr_seq r) 0 (String.eqb (gr_status r) "active")
    (Slots d id) "".

Definition Generations (d : DB) : list GManifest :=
  sort_slice (fun a b => gm_Seq a <? gm_Seq b)
    ((fun '(id, r) => scanGeneration d id r) <$> map_to_list (db_generations d)).

Definition Store_Active (d : DB) : option GManifest :=
  List.find gm_Active (reverse (Generations d)).

Definition Generation (d : DB) (id : string) : option GManifest :=
  List.find (fun g => String.eqb (gm_GenerationID g) id) (Generations d).

Definition delete_slots (p : SlotRow -> bool) (d : DB) : DB :=
  set_slots (List.filter (fun r => negb (p r)) (db_slots d)) d.

Definition DeleteGeneration (id : string) : M DB unit :=
  _ ← modify (delete_slots (fun r => String.eqb (sr_generation_id r) id));
  modify (fun d => set_generations (delete id (db_generations d)) d).

(** [kind = 'remote' OR kind LIKE 'remote:%'] *)
Definition remote_kind (kind : string) : bool :=
  String.eqb kind "remote" || sql_like "remote:%" kind.

Definition TrustedKinds (d : DB) : list string := (map_to_list (db_trusted d)).*1.

Definition ClearUnpublished : M DB unit :=
  n ← gets (fun d => length (List.filter remote_kind (TrustedKinds d)));
  if (0 <? n)%nat then mret tt
  else
    _ ← modify (set_slots []);
    modify (set_generations ∅).

Definition TrustedCounter (d : DB) (kind : string) : Z :=
  from_option tr_counter 0 (db_trusted d !! kind).
Definition TrustedPayload (d : DB) (kind : string) : option bytes := tr_payload <$> db_trusted d !! kind.
Definition TrustedCheckpointID (d : DB) (kind : string) : string :=
  from_option tr_checkpoint_id "" (db_trusted d !! kind).

Definition SetTrusted (now : Z) (kind generationID : string) (counter : Z) (checkpointID : string)
    (payload : bytes) : M DB unit :=
  modify (fun d => set_trusted
    (<[kind := mkTrustedRow generationID counter
         (match db_trusted d !! kind with
          | Some r => if str_empty checkpointID then tr_checkpoint_id r else checkpointID
          | None => checkpointID
          end) payload now]> (db_trusted d)) d).

Definition SetTrustedCheckpoint (now : Z) (kind checkpointID : string) : M DB unit :=
  if str_empty checkpointID then mret tt
  else modify (fun d => set_trusted
         (alter (fun r => mkTrustedRow (tr_generation_id r) (tr_counter r) checkpointID
                            (tr_payload r) now) kind (db_trusted d)) d).

(** ** [keys/rotation.go]: the rotation journal *)

Definition RotationPrepared : string := "prepared".
Definition RotationGenerationPublished : string := "generation_published".
Definition RotationManifestCommitted : string := "manifest_committed".
Definition RotationLocalReconciled : string := "local_reconciled".
Definition RotationComplete : string := "complete".

Definition Rotation (d : DB) : option RotationRow := db_rotation d.

Definition rr_set_phase (now : Z) (phase : string) (r : RotationRow) : RotationRow :=
  mkRotationRow phase (rr_old_generation_id r) (rr_new_generation_id r) (rr_old_seq r)
    (rr_new_seq r) (rr_recovery_bech32 r) now.

Definition StageRotation (now : Z) (next old : GManifest) (encoded : string) : M DB unit :=
  transaction (
    let next := gm_with_Active false next in
    _ ← putGeneration now next;
    modify (set_rotation (Some (mkRotationRow RotationPrepared (gm_GenerationID old)
      (gm_GenerationID next) (gm_Seq old) (gm_Seq next) encoded now)))).

Definition SetRotationPhase (now : Z) (phase : string) : M DB unit := fun d =>
  match db_rotation d with
  | None => (d, Fail (EMsg "store key rotation: no in-progress rotation"))
  | Some r => (set_rotation (Some (rr_set_phase now phase r)) d, Ok tt)
  end.

Definition set_generation_status (id st : string) : M DB unit :=
  modify (fun d => set_generations (alter (gr_set_status st) id (db_generations d)) d).

Definition PromoteRotation (now : Z) (oldID newID : string) : M DB unit :=
  transaction (
    _ ← set_generation_status oldID "retained";
    _ ← set_generation_status newID "active";
    modify (fun d => set_rotation (rr_set_phase now RotationLocalReconciled <$> db_rotation d) d)).

Definition ClearRotation : M DB unit := modify (set_rotation None).

(** ** [keys/store.go]: new slots, and [rotation/rotation.go] *)

(** What one slot construction draws: the nonce of the wrapping, the uuid and
    the clock. *)
Record Draw := mkDraw { dw_nonce : bytes; dw_id : string; dw_now : Z }.

(** The JSON object a YubiKey slot appends to its wrap parameters. *)
Record YubiMeta := mkYubiMeta { ym_serial : string; ym_label : string }.

Section Rotation.
Context `{Mac} `{Aead} `{Codec GManifest} `{Codec WrapParams} `{Codec YubiMeta}.
(** [bech32.Encode("remnix", ...)] of [recovery.Encode]. *)
Context (Encode : bytes -> result string).

Definition NewRecoverySlot (dw : Draw) (generationID : string) (smk secret : bytes) : result Slot :=
  wrapped ← WrapSMK (dw_nonce dw) secret smk;
  Ok (mkSlot (dw_id dw) TypeRecovery generationID [] wrapped SlotActive (dw_now dw) "").

Definition NewYubiKeySlot (dw : Draw) (generationID : string) (smk : bytes) (tok : Token)
    : result Slot :=
  '(params, wrapped) ← tk_Wrap tok smk;
  Ok (mkSlot (dw_id dw) TypeYubiKey generationID
        (params ++ [x00] ++ marshal (mkYubiMeta (tk_Serial tok) (tk_Label tok)))
        wrapped SlotActive (dw_now dw) (tk_Serial tok)).

Definition fido2_RPID : string := "remnix".
Definition fido2_ParamsV1 : Z := 1.

Definition newFIDO2SlotFromEnrollment (dw : Draw) (generationID : string) (smk : bytes)
    (enr : Enrollment) : result Slot :=
  wrapped ← fido2_WrapSMK (dw_nonce dw) (en_Secret enr) smk;
  let rpid := if str_empty (en_RPID enr) then fido2_RPID else en_RPID enr in
  let params := marshal (mkWrapParams fido2_ParamsV1 rpid (en_CredentialID enr) (en_Salt enr)
                           (en_AAGUID enr) (en_Product enr)) in
  Ok (mkSlot (dw_id dw) TypeFIDO2Hmac generationID params wrapped SlotActive (dw_now dw)
        (en_Product enr)).

Definition NewFIDO2Slot (dw : Draw) (generationID : string) (smk : bytes) (dev : FidoDevice)
    : result Slot :=
  enr ← fd_Enroll dev;
  newFIDO2SlotFromEnrollment dw generationID smk enr.

Definition NewFIDO2SlotFromParams (dw : Draw) (generationID : string) (smk hmacSecret : bytes)
    (p : WrapParams) : result Slot :=
  newFIDO2SlotFromEnrollment dw generationID smk
    (mkEnrollment (fp_CredentialID p) (fp_Salt p) hmacSecret (fp_AAGUID p) (fp_Product p) (fp_RPID p)).

(** [m.Slots = ...; m.Counter++; generations.Sign(&m, smk)] *)
Definition resign (m : GManifest) (slots : list Slot) (smk : bytes) : GManifest :=
  Sign (gm_bump (gm_with_Slots slots m)) smk.

Definition AddYubiKey (dw : Draw) (m : GManifest) (smk : bytes) (tok : Token) : result GManifest :=
  sl ← NewYubiKeySlot dw (gm_GenerationID m) smk tok;
  match tk_Decrypt tok (sl_WrappedSMK sl) with
  | Fail e => Fail (EWrap "verify new yubikey slot" e)
  | Ok got =>
      if negb (bool_decide (got = smk)) then Fail (EMsg "new yubikey slot failed verification")
      else Ok (resign m (gm_Slots m ++ [sl]) smk)
  end.

Definition AddFIDO2 (dw : Draw) (m : GManifest) (smk : bytes) (dev : FidoDevice) : result GManifest :=
  sl ← NewFIDO2Slot dw (gm_GenerationID m) smk dev;
  match Unwrap sl (mkUnlock [] [] [dev]) with
  | Fail e => Fail (EWrap "verify new fido2 slot" e)
  | Ok got =>
      if negb (bool_decide (got = smk)) then Fail (EMsg "new fido2 slot failed verification")
      else Ok (resign m (gm_Slots m ++ [sl]) smk)
  end.

Definition is_removed (slotID : string) (sl : Slot) : bool :=
  String.eqb (sl_ID sl) slotID && slot_active sl.

Definition revoke_if (p : Slot -> bool) (sl : Slot) : Slot := if p sl then revoke sl else sl.

Definition RemoveSlot (m : GManifest) (smk : bytes) (slotID : string) : result GManifest :=
  let remaining := revoke_if (is_removed slotID) <$> gm_Slots m in
  if negb (existsb (is_removed slotID) (gm_Slots m)) then Fail (EMsg "active slot not found")
  else match Active remaining with
       | [] => Fail (EMsg "refusing to remove last active unlock slot")
       | _ => Ok (resign m remaining smk)
       end.

Definition is_active_recovery (sl : Slot) : bool :=
  String.eqb (sl_Type sl) TypeRecovery && slot_active sl.

(** [secret] is what [recovery.Generate] drew. *)
Definition RotateRecovery (secret : bytes) (dw : Draw) (m : GManifest) (smk : bytes)
    : result (GManifest * bytes * string) :=
  sl ← NewRecoverySlot dw (gm_GenerationID m) smk secret;
  match UnwrapSMK secret (sl_WrappedSMK sl) with
  | Fail e => Fail (EWrap "verify recovery slot" e)
  | Ok _ =>
      encoded ← Encode secret;
      Ok (resign m ((revoke_if is_active_recovery <$> gm_Slots m) ++ [sl]) smk, secret, encoded)
  end.

(** The loops that build one slot per element and stop at the first error. *)
Fixpoint build_slots {A} (f : Draw -> A -> result Slot) (l : list (Draw * A)) : result (list Slot) :=
  match l with
  | [] => Ok []
  | (dw, x) :: l => sl ← f dw x; sls ← build_slots f l; Ok (sl :: sls)
  end.

(** What [BootstrapGeneration] draws: the master key, the recovery secret used
    when none is given, the generation id and the recovery slot's draw; the
    tokens and authenticators come with the draw of their slot. *)
Record GenDraw := mkGenDraw { gd_smk : bytes; gd_secret : bytes; gd_id : string; gd_slot : Draw }.

Definition BootstrapGeneration (gd : GenDraw) (seq : Z) (recoverySecret : option bytes)
    (tokens : list (Draw * Token)) (fido : list (Draw * FidoDevice))
    : result (GManifest * bytes * string) :=
  let smk := gd_smk gd in
  let secret := default (gd_secret gd) recoverySecret in
  sl ← NewRecoverySlot (gd_slot gd) (gd_id gd) smk secret;
  yks ← build_slots (fun dw tok => NewYubiKeySlot dw (gd_id gd) smk tok) tokens;
  fss ← build_slots (fun dw dev => NewFIDO2Slot dw (gd_id gd) smk dev) fido;
  let m := mkGManifest generations_CurrentVersion (gd_id gd) seq 1 true (sl :: yks ++ fss) "" in
  enc ← Encode secret;
  Ok (Sign m smk, smk, enc).

Definition deriveFIDO2 (p : WrapParams) (devices : list FidoDevice) : result bytes :=
  first_ok (fun dev => fd_Derive dev (fp_CredentialID p) (fp_Salt p))
    (EMsg "no fido2 authenticator available to re-wrap slot") devices.

Definition rewrapFIDO2Slot (dw : Draw) (generationID : string) (smk : bytes) (sl : Slot)
    (devices : list FidoDevice) : result Slot :=
  match (unmarshal (sl_WrapParams sl) : option WrapParams) with
  | None => Fail (EWrap "fido2 wrap params" (EMsg "json"))
  | Some p =>
      secret ← deriveFIDO2 p devices;
      NewFIDO2SlotFromParams dw generationID smk secret p
  end.

(** [rewraps] are the draws for the re-wrapped FIDO2 slots, in order. *)
Definition NewGenerationFromSlots (gd : GenDraw) (rewraps : nat -> Draw) (old : GManifest)
    (recoverySecret : option bytes) (tokens : list (Draw * Token)) (fido : list (Draw * FidoDevice))
    : result (GManifest * bytes * string) :=
  '(m, smk, enc) ← BootstrapGeneration gd (wrap64 (gm_Seq old + 1)) recoverySecret tokens [];
  let olds := OfType (gm_Slots old) TypeFIDO2Hmac in
  rewrapped ← build_slots (fun dw sl => rewrapFIDO2Slot dw (gm_GenerationID m) smk sl fido.*2)
                (imap (fun i sl => (rewraps i, sl)) olds);
  fresh ← (match olds with
           | [] => build_slots (fun dw dev => NewFIDO2Slot dw (gm_GenerationID m) smk dev) fido
           | _ => Ok []
           end);
  Ok (Sign (gm_with_Slots (gm_Slots m ++ rewrapped ++ fresh) m) smk, smk, enc).

(** ** What the manifest operations guarantee *)

Lemma resign_verifies m slots smk :
  gm_Version m = generations_CurrentVersion -> Verify (resign m slots smk) smk = Ok tt.
Proof. intros Hv. by apply Verify_Sign. Qed.

Lemma elem_of_Active sl sls : sl ∈ Active sls <-> sl ∈ sls /\ sl_Status sl = SlotActive.
Proof.
  unfold Active. rewrite list_elem_of_In, filter_In, <- list_elem_of_In.
  unfold slot_active. by rewrite String.eqb_eq.
Qed.

Lemma elem_of_revoke_if p sl (sls : list Slot) :
  sl ∈ revoke_if p <$> sls -> sl_Status sl = SlotActive -> sl ∈ sls /\ p sl = false.
Proof.
  rewrite list_elem_of_fmap. intros (sl' & -> & Hin). unfold revoke_if.
  destruct (p sl') eqn:E; [done|]. by rewrite E.
Qed.

Lemma elem_of_revoke_if_kept p sl (sls : list Slot) : sl ∈ sls -> p sl = false -> sl ∈ revoke_if p <$> sls.
Proof.
  intros Hin Hp. apply list_elem_of_fmap. exists sl. unfold revoke_if. by rewrite Hp.
Qed.

(** Removing a slot never leaves a generation without an active slot; the slot is no longer
    active, the other active slots are the same, the counter is incremented and the manifest
    verifies. *)
Theorem RemoveSlot_safe (m m' : GManifest) (smk : bytes) (slotID : string) :
  RemoveSlot m smk slotID = Ok m' ->
  Active (gm_Slots m') <> [] /\
  (forall sl, sl ∈ gm_Slots m' -> sl_ID sl = slotID -> sl_Status sl <> SlotActive) /\
  (forall sl, sl_ID sl <> slotID -> sl ∈ Active (gm_Slots m') <-> sl ∈ Active (gm_Slots m)) /\
  gm_Counter m' = wrap64 (gm_Counter m + 1) /\
  (gm_Version m = generations_CurrentVersion -> Verify m' smk = Ok tt).
Proof.
  unfold RemoveSlot. destruct (existsb _ _) eqn:Hex; [|done]. simpl negb. cbv iota.
  destruct (Active _) as [|a l] eqn:Ha; [done|]. intros [= <-]. simpl.
  split; [by rewrite Ha|]. split; [|split; [|split; [done|apply resign_verifies]]].
  - intros sl Hin Hid Hst. destruct (elem_of_revoke_if _ _ _ Hin Hst) as [_ Hp].
    unfold is_removed, slot_active in Hp. by rewrite Hid, Hst, !String.eqb_refl in Hp.
  - intros sl Hid. rewrite !elem_of_Active. split; intros [Hin Hst]; split; try done.
    + by eapply elem_of_revoke_if.
    + apply elem_of_revoke_if_kept; [done|]. unfold is_removed.
      by rewrite (proj2 (String.eqb_neq _ _) Hid).
Qed.

Lemma OfType_revoked (sls : list Slot) :
  OfType (revoke_if is_active_recovery <$> sls) TypeRecovery = [].
Proof.
  unfold OfType. induction sls as [|sl sls IH]; [done|]. rewrite fmap_cons. simpl.
  unfold revoke_if at 1 2, is_active_recovery at 1 2.
  destruct (String.eqb_spec (sl_Type sl) TypeRecovery) as [Ht|Ht]; simpl.
  - destruct (slot_active sl) eqn:E; simpl; rewrite ?Ht, ?String.eqb_refl, ?E; done.
  - by rewrite (proj2 (String.eqb_neq _ _) Ht).
Qed.

Lemma NewRecoverySlot_unlocks `{!MacLaws} `{!AeadLaws} dw gen smk secret sl :
  NewRecoverySlot dw gen smk secret = Ok sl -> length (dw_nonce dw) = NonceSize ->
  sl_Type sl = TypeRecovery /\ slot_active sl = true /\ UnwrapSMK secret (sl_WrappedSMK sl) = Ok smk.
Proof.
  unfold NewRecoverySlot. intros Hs Hn.
  destruct (UnwrapSMK_nonce_prefix (dw_nonce dw) secret smk Hn) as (w & Hw & Hu).
  rewrite Hw in Hs. simpl in Hs. by simplify_eq.
Qed.

(** Rotating the recovery secret leaves exactly one active recovery slot, which the new secret
    opens to the same master key, and does not touch the other active slots. *)
Theorem RotateRecovery_replaces `{!MacLaws} `{!AeadLaws} (secret : bytes) (dw : Draw)
    (m m' : GManifest) (smk secret' : bytes) (encoded : string) :
  length (dw_nonce dw) = NonceSize ->
  RotateRecovery secret dw m smk = Ok (m', secret', encoded) ->
  secret' = secret /\
  (exists sl, OfType (gm_Slots m') TypeRecovery = [sl] /\ UnwrapSMK secret (sl_WrappedSMK sl) = Ok smk) /\
  (forall sl, sl_Type sl <> TypeRecovery -> sl ∈ Active (gm_Slots m') <-> sl ∈ Active (gm_Slots m)).
Proof.
  intros Hn. unfold RotateRecovery.
  destruct (NewRecoverySlot _ _ _ _) as [sl|e] eqn:Hs; simpl; [|done].
  destruct (NewRecoverySlot_unlocks _ _ _ _ _ Hs Hn) as (Ht & Ha & Hu). rewrite Hu.
  destruct (Encode secret) as [enc|e]; simpl; [|done]. intros [= <- <- <-].
  split; [done|]. split.
  - exists sl. split; [|done]. simpl. unfold OfType. rewrite List.filter_app.
    fold (OfType (revoke_if is_active_recovery <$> gm_Slots m) TypeRecovery).
    rewrite OfType_revoked. simpl. by rewrite Ht, Ha.
  - intros sl' Ht'. rewrite !elem_of_Active. simpl. rewrite elem_of_app, list_elem_of_singleton.
    split; intros [Hin Hst]; (split; [|done]).
    + destruct Hin as [Hin| ->]; [by eapply elem_of_revoke_if | done].
    + left. apply elem_of_revoke_if_kept; [done|]. unfold is_active_recovery.
      by rewrite (proj2 (String.eqb_neq _ _) Ht').
Qed.

(** The recovery slot comes first, so the recovery secret alone unlocks a
    manifest that starts with it. *)
Lemma UnwrapAny_recovery_first sl sls secret toks devs smk :
  sl_Type sl = TypeRecovery -> slot_active sl = true -> secret <> [] ->
  UnwrapSMK secret (sl_WrappedSMK sl) = Ok smk ->
  UnwrapAny (sl :: sls) (mkUnlock secret toks devs) = Ok (smk, sl).
Proof.
  intros Ht Ha Hs Hu. unfold UnwrapAny, Active. simpl. rewrite Ha. simpl. unfold Unwrap. simpl.
  rewrite Ht. simpl. destruct secret; [done|]. by rewrite Hu.
Qed.

Lemma BootstrapGeneration_inv gd seq rs toks fido m smk enc :
  BootstrapGeneration gd seq rs toks fido = Ok (m, smk, enc) ->
  smk = gd_smk gd /\ exists sl rest,
    NewRecoverySlot (gd_slot gd) (gd_id gd) smk (default (gd_secret gd) rs) = Ok sl /\
    m = Sign (mkGManifest generations_CurrentVersion (gd_id gd) seq 1 true (sl :: rest) "") smk.
Proof.
  unfold BootstrapGeneration.
  destruct (NewRecoverySlot _ _ _ _) as [sl|] eqn:Hs; simpl; [|done].
  destruct (build_slots _ toks) as [yks|]; simpl; [|done].
  destruct (build_slots _ fido) as [fss|]; simpl; [|done].
  destruct (Encode _); simpl; [|done]. intros [= <- <- <-]. eauto 6.
Qed.

Lemma first_ok_bind {A B C} (f : A -> result B) (g : B -> result C) e e' l y z :
  first_ok f e l = Ok y -> g y = Ok z -> first_ok (fun x => y ← f x; g y) e' l = Ok z.
Proof.
  intros Hf Hg. revert e e' Hf. induction l as [|x l IH]; intros e e'; simpl; [done|].
  destruct (f x) as [y'|e''] eqn:E; simpl.
  - intros [= ->]. by rewrite Hg.
  - apply IH.
Qed.

Lemma build_slots_elem {A} (f : Draw -> A -> result Slot) l sls dw x :
  build_slots f l = Ok sls -> (dw, x) ∈ l -> exists sl, f dw x = Ok sl /\ sl ∈ sls.
Proof.
  revert sls. induction l as [|[dw' x'] l IH]; intros sls Hb Hin; [by apply elem_of_nil in Hin|].
  simpl in Hb. destruct (f dw' x') as [sl|] eqn:E; simpl in Hb; [|done].
  destruct (build_slots f l) as [sls'|] eqn:E'; simpl in Hb; [|done]. simplify_eq.
  apply elem_of_cons in Hin as [[= -> ->]|Hin]; [exists sl; split; [done|left]|].
  destruct (IH _ eq_refl Hin) as (sl' & ? & ?). exists sl'. split; [done|by right].
Qed.

(** The parameters a re-wrapped slot is stored with. *)
Definition rewrapped_params (p : WrapParams) : WrapParams :=
  mkWrapParams fido2_ParamsV1 (if str_empty (fp_RPID p) then fido2_RPID else fp_RPID p)
    (fp_CredentialID p) (fp_Salt p) (fp_AAGUID p) (fp_Product p).

Lemma rewrapFIDO2Slot_unlocks `{!MacLaws} `{!AeadLaws} `{!CodecLaws WrapParams}
    dw gen smk sl sl' devs :
  (forall raw p, unmarshal raw = Some p -> codec_valid (rewrapped_params p)) ->
  length (dw_nonce dw) = NonceSize ->
  rewrapFIDO2Slot dw gen smk sl devs = Ok sl' ->
  sl_Type sl' = TypeFIDO2Hmac /\ slot_active sl' = true /\ unwrapFIDO2 sl' devs = Ok smk.
Proof.
  intros Hv Hn. unfold rewrapFIDO2Slot. destruct (unmarshal _) as [p|] eqn:Hp; [|done].
  destruct (deriveFIDO2 p devs) as [secret|] eqn:Hd; simpl; [|done].
  unfold NewFIDO2SlotFromParams, newFIDO2SlotFromEnrollment, fido2_WrapSMK. simpl.
  destruct (Open_nonce_prefix (fido2_wrapKey secret) (dw_nonce dw) smk (b "remnix-fido2-hmac-slot"))
    as (ct & Hs & Hl & Ho); [apply hkdf32_length|done|].
  rewrite Hs. simpl. intros [= <-]. split; [done|]. split; [done|].
  unfold unwrapFIDO2. simpl.
  fold (rewrapped_params p). rewrite unmarshal_marshal by eauto. simpl.
  refine (first_ok_bind (fun dev => fd_Derive dev (fp_CredentialID p) (fp_Salt p)) _ _ _ _ _ _ Hd _).
  unfold fido2_UnwrapSMK. by rewrite Hl.
Qed.


End Rotation.

(** ** Integrity of the key tables *)

Record keys_wf (d : DB) : Prop := {
  kw_seq : forall i j r s, db_generations d !! i = Some r -> db_generations d !! j = Some s ->
    gr_seq r = gr_seq s -> i = j;
  kw_fk : forall r, r ∈ db_slots d -> is_Some (db_generations d !! sr_generation_id r);
  kw_ids : NoDup (sr_id <$> db_slots d);
}.

Lemma keys_wf_empty : keys_wf db_empty.
Proof. split; simpl; [done| |constructor]. by intros r ?%elem_of_nil. Qed.

Lemma id_of_seq_None d seq :
  id_of_seq d seq = None <-> forall i r, db_generations d !! i = Some r -> gr_seq r <> seq.
Proof.
  unfold id_of_seq. rewrite fmap_None. split.
  - intros Hf i r Hi. apply Z.eqb_neq, (find_none _ _ Hf (i, r)).
    by apply list_elem_of_In, elem_of_map_to_list.
  - intros Hno. destruct (List.find _ _) as [[i r]|] eqn:E; [|done].
    apply find_some in E as [Hin Hs]. apply list_elem_of_In, elem_of_map_to_list in Hin.
    apply Z.eqb_eq in Hs. by destruct (Hno _ _ Hin).
Qed.

Lemma id_of_seq_Some d seq i :
  id_of_seq d seq = Some i -> exists r, db_generations d !! i = Some r /\ gr_seq r = seq.
Proof.
  unfold id_of_seq. rewrite fmap_Some. intros ([j r] & E & ->).
  apply find_some in E as [Hin Hs]. apply list_elem_of_In, elem_of_map_to_list in Hin.
  apply Z.eqb_eq in Hs. eauto.
Qed.

Lemma slot_known_spec id l : slot_known id l = true <-> id ∈ sr_id <$> l.
Proof.
  unfold slot_known. rewrite existsb_exists, list_elem_of_fmap.
  setoid_rewrite <- list_elem_of_In. setoid_rewrite String.eqb_eq. naive_solver.
Qed.

Lemma upsert_slot_ids new l :
  sr_id <$> upsert_slot new l = (sr_id <$> l) ++ (if slot_known (sr_id new) l then [] else [sr_id new]).
Proof.
  induction l as [|r l IH]; [done|]. unfold slot_known in *. csimpl.
  destruct (String.eqb_spec (sr_id r) (sr_id new)) as [E|E]; csimpl.
  - by rewrite app_nil_r.
  - by rewrite IH.
Qed.

Lemma upsert_slot_elem new l r :
  r ∈ upsert_slot new l ->
  r ∈ l \/ (exists r0, r0 ∈ l /\ sr_generation_id r = sr_generation_id r0) \/
  (r = new /\ slot_known (sr_id new) l = false).
Proof.
  induction l as [|x l IH]; simpl.
  - rewrite list_elem_of_singleton. intros ->. by right; right.
  - destruct (String.eqb_spec (sr_id x) (sr_id new)) as [E|E]; simpl.
    + rewrite elem_of_cons. intros [->|Hin]; [right; left; exists x; split; [left|done]|].
      left. by right.
    + rewrite elem_of_cons. intros [->|Hin]; [left; left|].
      destruct (IH Hin) as [?|[(r0 & ? & ?)|?]]; [left; by right| |by right; right].
      right; left. exists r0. split; [by right|done].
Qed.

Lemma putSlot_wf now sl : mono (keeps keys_wf) (putSlot now sl).
Proof.
  intros d [Hseq Hfk Hids]. unfold putSlot.
  destruct (negb _ && negb _) eqn:E; [by split|]. simpl. split; simpl; [done| |].
  - intros r Hr%upsert_slot_elem. destruct Hr as [Hr|[(r0 & Hr0 & ->)|[-> Hk]]]; [by apply Hfk..|].
    simpl in *. rewrite Hk in E. simpl in E. apply negb_false_iff, bool_decide_eq_true in E. done.
  - rewrite upsert_slot_ids. simpl. destruct (slot_known _ _) eqn:Hk; [by rewrite app_nil_r|].
    apply NoDup_app. split; [done|]. split; [|apply NoDup_singleton].
    intros x Hx ->%list_elem_of_singleton. apply slot_known_spec in Hx. congruence.
Qed.

Lemma keys_wf_generations g d :
  keys_wf d ->
  (forall i j r s, g !! i = Some r -> g !! j = Some s -> gr_seq r = gr_seq s -> i = j) ->
  (forall i, is_Some (db_generations d !! i) -> is_Some (g !! i)) ->
  keys_wf (set_generations g d).
Proof. intros [Hseq Hfk Hids] Hg Hsub. split; simpl; [done| |done]. eauto. Qed.

Lemma putGeneration_wf now m : mono (keeps keys_wf) (putGeneration now m).
Proof.
  intros d Hwf. unfold putGeneration.
  erewrite bind_Ok by reflexivity.
  destruct (match id_of_seq _ _ with Some _ => _ | None => _ end) eqn:E; [done|].
  assert (keys_wf ((upsert_generation now m d).1)) as Hup.
  { simpl. apply keys_wf_generations; [done| |].
    - intros i j r s. rewrite !lookup_insert. pose proof (kw_seq _ Hwf) as Hseq.
      destruct (db_generations d !! gm_GenerationID m) as [r0|] eqn:E0.
      { repeat case_decide; naive_solver. }
      assert (forall i r, db_generations d !! i = Some r -> gr_seq r <> gm_Seq m) as Hfree.
      { apply id_of_seq_None. destruct (id_of_seq d (gm_Seq m)) as [i0|] eqn:Ei; [|done].
        apply negb_false_iff, String.eqb_eq in E as ->.
        apply id_of_seq_Some in Ei as (? & ? & ?). congruence. }
      repeat case_decide; naive_solver.
    - intros i Hi. rewrite lookup_insert. case_decide; [done|]. done. }
  erewrite bind_Ok by reflexivity.
  refine (mono_for_each (keeps keys_wf) _ _ _ _ Hup). intros sl _. apply putSlot_wf.
Qed.

Lemma DeleteGeneration_wf id : mono (keeps keys_wf) (DeleteGeneration id).
Proof.
  intros d [Hseq Hfk Hids]. simpl. split; simpl.
  - intros i j r s [_ ?]%lookup_delete_Some [_ ?]%lookup_delete_Some. eauto.
  - intros r Hr. apply list_elem_of_In, filter_In in Hr as [Hin Hne]. apply list_elem_of_In in Hin.
    apply negb_true_iff, String.eqb_neq in Hne.
    rewrite lookup_delete_ne by congruence. eauto.
  - eapply sublist_NoDup; [exact Hids|]. apply fmap_sublist. clear Hfk Hids.
    induction (db_slots d) as [|x l IH]; simpl; [constructor|]. destruct (negb _); by constructor.
Qed.

Lemma set_generation_status_wf id st : mono (keeps keys_wf) (set_generation_status id st).
Proof.
  intros d Hwf. simpl. apply keys_wf_generations; [done| |].
  - assert (forall i r, alter (gr_set_status st) id (db_generations d) !! i = Some r ->
        exists r', db_generations d !! i = Some r' /\ gr_seq r' = gr_seq r) as Hal.
    { intros i r. rewrite lookup_alter. case_decide; [subst|by eauto].
      rewrite fmap_Some. intros (r' & ? & ->). by exists r'. }
    intros i j r s (r' & Hi & Hr)%Hal (s' & Hj & Hs)%Hal Heq.
    apply (kw_seq _ Hwf _ _ _ _ Hi Hj). congruence.
  - intros i Hi. rewrite lookup_alter. case_decide; [subst|done]. by rewrite fmap_is_Some.
Qed.

Lemma keys_wf_other d d' :
  db_generations d' = db_generations d -> db_slots d' = db_slots d -> keys_wf d -> keys_wf d'.
Proof. intros Hg Hs [H1 H2 H3]. split; by rewrite ?Hg, ?Hs. Qed.

Lemma modify_keys_wf f :
  (forall d, db_generations (f d) = db_generations d) -> (forall d, db_slots (f d) = db_slots d) ->
  mono (keeps keys_wf) (modify f).
Proof. intros Hg Hs d. exact (keys_wf_other d (f d) (Hg d) (Hs d)). Qed.

#[export] Hint Resolve putSlot_wf putGeneration_wf DeleteGeneration_wf set_generation_status_wf : remnix.
#[export] Hint Extern 1 (mono (keeps keys_wf) (modify _)) => apply modify_keys_wf : remnix.

(** One call of the key store. *)
Inductive key_step : DB -> DB -> Prop :=
| ks_put_generation now m d : key_step d (PutGeneration now m d).1
| ks_put_slot now sl d : key_step d (PutSlot now sl d).1
| ks_delete_generation id d : key_step d (DeleteGeneration id d).1
| ks_clear_unpublished d : key_step d (ClearUnpublished d).1
| ks_set_trusted now k g c cp p d : key_step d (SetTrusted now k g c cp p d).1
| ks_set_trusted_checkpoint now k cp d : key_step d (SetTrustedCheckpoint now k cp d).1
| ks_stage now next old enc d : key_step d (StageRotation now next old enc d).1
| ks_phase now ph d : key_step d (SetRotationPhase now ph d).1
| ks_promote now o n d : key_step d (PromoteRotation now o n d).1
| ks_clear_rotation d : key_step d (ClearRotation d).1.

Lemma key_step_wf d d' : key_step d d' -> keys_wf d -> keys_wf d'.
Proof.
  destruct 1.
  - by apply putGeneration_wf.
  - by apply putSlot_wf.
  - by apply DeleteGeneration_wf.
  - intros Hwf. unfold ClearUnpublished. erewrite bind_Ok by reflexivity.
    case_match; [done|]. simpl. split; simpl; [done| |constructor]. by intros r ?%elem_of_nil.
  - by apply keys_wf_other.
  - unfold SetTrustedCheckpoint. case_match; [done|]. by apply keys_wf_other.
  - unfold StageRotation.
    apply (mono_transaction (keeps keys_wf)). simpl. mono_solve.
  - unfold SetRotationPhase. case_match; [|done]. by apply keys_wf_other.
  - unfold PromoteRotation.
    apply (mono_transaction (keeps keys_wf)). mono_solve.
  - by apply keys_wf_other.
Qed.

(** Every sequence of key-store operations from the empty database keeps sequence numbers
    unique to a generation, every slot attached to an existing generation, and slot ids unique. *)
Theorem key_store_integrity (d : DB) : rtc key_step db_empty d -> keys_wf d.
Proof.
  intros Hr. assert (forall d1, rtc key_step d1 d -> keys_wf d1 -> keys_wf d) as H.
  { clear. induction 1; eauto using key_step_wf. }
  apply (H _ Hr), keys_wf_empty.
Qed.

(** ** The active generation and the rotation journal *)

Definition active_id (d : DB) (id : string) : Prop :=
  exists r, db_generations d !! id = Some r /\ gr_status r = "active"%string.

Lemma elem_of_Generations d g :
  g ∈ Generations d <-> exists id r, db_generations d !! id = Some r /\ g = scanGeneration d id r.
Proof.
  unfold Generations. rewrite elem_of_sort_slice, list_elem_of_fmap. split.
  - intros ([id r] & -> & Hin%elem_of_map_to_list). eauto.
  - intros (id & r & Hi & ->). exists (id, r). split; [done|]. by apply elem_of_map_to_list.
Qed.

Lemma Store_Active_only d id :
  active_id d id -> (forall id', active_id d id' -> id' = id) ->
  gm_GenerationID <$> Store_Active d = Some id.
Proof.
  intros (r & Hr & Hst) Honly. unfold Store_Active.
  destruct (List.find gm_Active (reverse (Generations d))) as [g|] eqn:E; simpl.
  - apply find_some in E as [Hin Ha]. apply list_elem_of_In in Hin. rewrite elem_of_reverse in Hin.
    apply elem_of_Generations in Hin as (id' & r' & Hr' & ->). simpl in *. f_equal.
    apply Honly. exists r'. split; [done|]. by apply String.eqb_eq.
  - assert (gm_Active (scanGeneration d id r) = false) as Hf.
    { apply (find_none _ _ E). apply list_elem_of_In. rewrite elem_of_reverse.
      apply elem_of_Generations. eauto. }
    simpl in Hf. by rewrite Hst in Hf.
Qed.

(** The slots of a generation whose row is in the table are all stored. *)
Lemma put_slots_run now gen sls d :
  is_Some (db_generations d !! gen) ->
  exists l, for_each sls (fun sl => putSlot now (with_generation gen sl)) d = (set_slots l d, Ok tt).
Proof.
  revert d. induction sls as [|sl sls IH]; intros d Hg; simpl.
  { exists (db_slots d). by destruct d. }
  assert (exists l, putSlot now (with_generation gen sl) d = (set_slots l d, Ok tt)) as [l Hl].
  { unfold putSlot. simpl. rewrite (bool_decide_eq_true_2 _ Hg), andb_false_r. eauto. }
  destruct (IH (set_slots l d) Hg) as [l' Hl'].
  exists l'. by rewrite (bind_Ok _ _ _ _ _ Hl), Hl'.
Qed.

Lemma putGeneration_fresh now m d :
  db_generations d !! gm_GenerationID m = None -> id_of_seq d (gm_Seq m) = None ->
  exists l, putGeneration now m d =
    (set_slots l (set_generations
       (<[gm_GenerationID m := mkGenerationRow (gm_Seq m) (statusOf m) now]> (db_generations d)) d), Ok tt).
Proof.
  intros Hfresh Hseq. unfold putGeneration. erewrite bind_Ok by reflexivity. rewrite Hseq.
  erewrite bind_Ok by reflexivity. rewrite Hfresh.
  apply put_slots_run. simpl. by rewrite lookup_insert_eq.
Qed.

Lemma promoted_active (g : gmap string GenerationRow) old next id :
  old <> next -> is_Some (g !! next) ->
  (forall id' r, g !! id' = Some r -> gr_status r = "active"%string -> id' = old) ->
  (exists r, alter (gr_set_status "active") next (alter (gr_set_status "retained") old g) !! id = Some r
     /\ gr_status r = "active"%string) <-> id = next.
Proof.
  intros Hne [rn Hn] Honly. destruct (decide (id = next)) as [->|Hid].
  - split; [done|]. intros _. rewrite lookup_alter_eq, lookup_alter_ne, Hn by done.
    by exists (gr_set_status "active" rn).
  - split; [|done]. rewrite lookup_alter_ne by done. intros (r & Hr & Hst). exfalso.
    destruct (decide (id = old)) as [->|Ho].
    + rewrite lookup_alter_eq in Hr. apply fmap_Some in Hr as (r' & _ & ->). done.
    + rewrite lookup_alter_ne in Hr by done. naive_solver.
Qed.

(** Staging a fresh generation keeps the old one active and journals the rotation as prepared;
    promoting it then makes it the only active generation and marks the journal as reconciled. *)
Theorem rotation_switches_active (now now' : Z) (next old : GManifest) (enc : string) (d : DB) :
  active_id d (gm_GenerationID old) ->
  (forall id, active_id d id -> id = gm_GenerationID old) ->
  db_generations d !! gm_GenerationID next = None -> id_of_seq d (gm_Seq next) = None ->
  exists d1 d2,
    StageRotation now next old enc d = (d1, Ok tt) /\
    (gm_GenerationID <$> Store_Active d1 = Some (gm_GenerationID old)) /\
    (rr_phase <$> Rotation d1 = Some RotationPrepared) /\
    PromoteRotation now' (gm_GenerationID old) (gm_GenerationID next) d1 = (d2, Ok tt) /\
    (forall id, active_id d2 id <-> id = gm_GenerationID next) /\
    (gm_GenerationID <$> Store_Active d2 = Some (gm_GenerationID next)) /\
    (rr_phase <$> Rotation d2 = Some RotationLocalReconciled).
Proof.
  intros (ro & Ho & Hso) Honly Hfresh Hseq.
  destruct (putGeneration_fresh now (gm_with_Active false next) d Hfresh Hseq) as [l Hput].
  assert (gm_GenerationID old <> gm_GenerationID next) as Hne by congruence.
  unfold StageRotation, transaction. erewrite bind_Ok by exact Hput. simpl.
  assert (forall id r, <[gm_GenerationID next := mkGenerationRow (gm_Seq next) "retained" now]>
      (db_generations d) !! id = Some r -> gr_status r = "active"%string -> id = gm_GenerationID old) as Hact.
  { intros id r. rewrite lookup_insert. case_decide; [by intros [= <-]|]. intros. apply Honly. by exists r. }
  eexists _, _. split; [done|]. split; [|split; [done|split; [done|]]].
  { apply Store_Active_only; [exists ro; simpl; by rewrite lookup_insert_ne | intros id (r & ? & ?); eauto]. }
  match goal with |- (forall id, active_id ?d' id <-> _) /\ _ =>
    assert (forall id, active_id d' id <-> id = gm_GenerationID next) as Hall end.
  { intros id. unfold active_id. simpl. apply promoted_active; [done| by rewrite lookup_insert_eq | done]. }
  split; [done|]. split; [|done]. apply Store_Active_only; [by apply Hall | intros id; apply Hall].
Qed.
