(* ===== verification/Transport.v ===== *)
(** [internal/transport]: the object-store interface every endpoint
    implements, the error mapping and the helpers over it. A transport is a
    record of operations on a state [S]; the optional Go interfaces
    ([Session], [Deduper], the shallow lister) are optional fields. What the
    synchronization code may rely on is the class [ObjectStore]. *)

From S2P Require Import Prelude.

Record Object := mkObject { o_Key : string; o_Size : Z }.

(** An [io.Reader]: the bytes it delivers, and the error it ends with instead
    of [io.EOF]. *)
Record Reader := mkReader { rd_data : bytes; rd_err : option error }.
Definition bytes_reader (b : bytes) : Reader := mkReader b None.

(** [io.ReadAll(r)] *)
Definition ReadAll (r : Reader) : result bytes :=
  match rd_err r with None => Ok (rd_data r) | Some e => Fail e end.

Inductive HealthState :=
| HealthOK | HealthOffline | HealthAuthRequired | HealthPermissionDenied | HealthNotFound
| HealthRateLimited | HealthMisconfigured | HealthCorruptRepo | HealthUnknown.

Record HealthStatus := mkHealthStatus {
  hs_State : HealthState;
  hs_Message : string;
  hs_Action : string;
}.

Record Capabilities := mkCapabilities {
  tc_AtomicRename : bool;
  tc_Mkdir : bool;
  tc_Rename : bool;
  tc_RecursiveDelete : bool;
  tc_VirtualDirs : bool;
  tc_ListingExpensive : bool;
}.

Record Transport (S : Type) := mkTransport {
  tr_List : string -> M S (list Object);
  tr_Get : string -> M S Reader;
  tr_Put : string -> Reader -> M S unit;
  tr_PutAtomic : string -> Reader -> M S unit;
  tr_Remove : string -> M S unit;
  tr_ListDirs : string -> M S (list string);
  tr_Mkdir : string -> M S unit;
  tr_ListingExpensive : bool;
  tr_ListShallow : option (string -> M S (list Object));
  tr_Dedupe : option (M S unit);
  tr_Session : option (M S unit * M S unit);   (** [Begin], [End] *)
}.
Arguments tr_List {S} t prefix.
Arguments tr_Get {S} t key.
Arguments tr_Put {S} t key r.
Arguments tr_PutAtomic {S} t key r.
Arguments tr_Remove {S} t key.
Arguments tr_ListDirs {S} t prefix.
Arguments tr_Mkdir {S} t key.
Arguments tr_ListingExpensive {S} t.
Arguments tr_ListShallow {S} t.
Arguments tr_Dedupe {S} t.
Arguments tr_Session {S} t.

(** ** [errors.go] *)

Definition is_sentinel (e : error) : bool :=
  match e with
  | EAuthRequired | EOffline | EPermissionDenied | ERemoteNotFound | EConflict | ESyncDisabled => true
  | _ => false
  end.
Definition is_Permission (e : error) : bool := match e with EPermission => true | _ => false end.

Definition MapFSError (e : error) : error :=
  if errors_Is is_sentinel e then e
  else if errors_Is is_NotExist e then EWrap "remote path not found" ERemoteNotFound
  else if errors_Is is_Permission e then EWrap "permission denied" EPermissionDenied
  else e.

(** [errors.Is] is asked for one sentinel after the other; [err.Error()] is
    not modelled, the message is the state's name. *)
Definition ClassifyHealth (err : option error) : HealthStatus :=
  match err with
  | None => mkHealthStatus HealthOK "ok" ""
  | Some e =>
      let has t := errors_Is t e in
      if has (fun e => match e with EAuthRequired => true | _ => false end)
      then mkHealthStatus HealthAuthRequired "authentication required" ""
      else if has (fun e => match e with EOffline => true | _ => false end)
      then mkHealthStatus HealthOffline "remote unavailable" ""
      else if has (fun e => match e with EPermissionDenied => true | _ => false end)
      then mkHealthStatus HealthPermissionDenied "permission denied" ""
      else if has is_RemoteNotFound then mkHealthStatus HealthNotFound "remote path not found" ""
      else if has (fun e => match e with ESyncDisabled => true | _ => false end)
      then mkHealthStatus HealthMisconfigured "synchronization is disabled" ""
      else mkHealthStatus HealthUnknown "" ""
  end.

(** ** [transport.go] *)

Definition absent (e : error) : bool := errors_Is is_RemoteNotFound e || errors_Is is_NotExist e.

Section Helpers.
Context {S : Type} (tr : Transport S).

Definition Dedupe : M S unit :=
  match tr_Dedupe tr with None => mret tt | Some d => d end.

Definition DeleteIfExists (key : string) : M S unit :=
  r ← try (tr_Remove tr key);
  match r with
  | Ok _ => mret tt
  | Fail e => if absent e then mret tt else fail e
  end.

Definition WithSession {T} (lift : forall A, M S A -> M T A) (fn : M T unit) : M T unit :=
  match tr_Session tr with
  | None => fn
  | Some (begin, end_) =>
      _ ← lift unit begin;
      err ← try fn;
      endErr ← try (lift unit end_);
      match err, endErr with
      | Fail e, _ => fail e
      | Ok _, Fail e => fail e
      | Ok _, Ok _ => mret tt
      end
  end.

Definition PullSession : M S unit :=
  match tr_Session tr with None => mret tt | Some (begin, _) => begin end.

(** [tr.Get] followed by [io.ReadAll]. *)
Definition readAll (key : string) : M S bytes :=
  r ← tr_Get tr key;
  of_result (ReadAll r).
End Helpers.

(** ** What clients rely on

    The state is seen as a finite map from keys to contents. Reading does not
    change it, a successful atomic write changes one key and a failed one
    none, and removal only removes, below the given key. [store_inv] is an
    invariant of the backend, [store_key] and [store_prefix] are the keys and
    listing prefixes the guarantees are given for. *)
Class ObjectStore {S : Type} (tr : Transport S) := {
  objects : S -> gmap string bytes;
  store_inv : S -> Prop;
  store_key : string -> Prop;
  store_prefix : string -> Prop;
  store_get k s s' r : store_inv s -> tr_Get tr k s = (s', r) ->
    store_inv s' /\ objects s' = objects s /\
    (store_key k ->
     match objects s !! k with
     | Some b => r = Ok (bytes_reader b)
     | None => forall rd, r = Ok rd -> is_Some (rd_err rd)
     end);
  store_list p s s' r : store_inv s -> tr_List tr p s = (s', r) ->
    store_inv s' /\ objects s' = objects s /\
    (forall l o, r = Ok l -> o ∈ l -> store_key (o_Key o) /\ is_Some (objects s !! o_Key o));
  store_list_shallow f p s s' r : store_inv s -> tr_ListShallow tr = Some f -> f p s = (s', r) ->
    store_inv s' /\ objects s' = objects s /\
    (store_prefix p ->
     forall l o, r = Ok l -> o ∈ l -> store_key (o_Key o) /\ is_Some (objects s !! o_Key o));
  store_list_dirs p s s' r : store_inv s -> tr_ListDirs tr p s = (s', r) ->
    store_inv s' /\ objects s' = objects s /\
    (store_prefix p -> forall l d, r = Ok l -> d ∈ l -> store_prefix d);
  store_put k rd s s' r : store_inv s -> store_key k -> tr_PutAtomic tr k rd s = (s', r) ->
    store_inv s' /\
    match r with
    | Ok _ => rd_err rd = None /\ objects s' = <[k := rd_data rd]> (objects s)
    | Fail _ => objects s' = objects s
    end;
  store_remove k s s' r : store_inv s -> store_key k -> tr_Remove tr k s = (s', r) ->
    store_inv s' /\ objects s' ⊆ objects s /\
    (forall k', is_Some (objects s !! k') -> objects s' !! k' = None ->
       k' = k \/ has_prefix (k +:+ "/") k' = true) /\
    (r = Ok tt -> objects s' !! k = None);
}.

(** Operations that leave the stored objects alone. *)
Definition same_objects {S} {tr : Transport S} `{!ObjectStore tr} : relation S :=
  fun s s' => store_inv s -> store_inv s' /\ objects s' = objects s.
#[global] Instance same_objects_preorder {S} {tr : Transport S} `{!ObjectStore tr} :
  PreOrder (same_objects (tr := tr)).
Proof.
  unfold same_objects. split; [by intros ?|]. intros s1 s2 s3 H1 H2 H.
  destruct (H1 H) as [? <-]. auto.
Qed.

Section Laws.
Context {S : Type} {tr : Transport S} `{!ObjectStore tr}.

Lemma get_same k : mono same_objects (tr_Get tr k).
Proof.
  intros s Hs. destruct (tr_Get tr k s) as [s' r] eqn:E. destruct (store_get _ _ _ _ Hs E) as (? & ? & _).
  done.
Qed.
Lemma list_same p : mono same_objects (tr_List tr p).
Proof.
  intros s Hs. destruct (tr_List tr p s) as [s' r] eqn:E. destruct (store_list _ _ _ _ Hs E) as (? & ? & _).
  done.
Qed.
Lemma list_dirs_same p : mono same_objects (tr_ListDirs tr p).
Proof.
  intros s Hs. destruct (tr_ListDirs tr p s) as [s' r] eqn:E.
  by destruct (store_list_dirs _ _ _ _ Hs E) as (? & ? & _).
Qed.
Lemma list_shallow_same f p : tr_ListShallow tr = Some f -> mono same_objects (f p).
Proof.
  intros Hf s Hs. destruct (f p s) as [s' r] eqn:E.
  by destruct (store_list_shallow _ _ _ _ _ Hs Hf E) as (? & ? & _).
Qed.

Lemma DeleteIfExists_objects k s s' r :
  store_inv s -> store_key k -> DeleteIfExists tr k s = (s', r) ->
  store_inv s' /\ objects s' ⊆ objects s /\
  (forall k', is_Some (objects s !! k') -> objects s' !! k' = None ->
     k' = k \/ has_prefix (k +:+ "/") k' = true).
Proof.
  intros Hs Hk. unfold DeleteIfExists, try, mbind, M_bind.
  destruct (tr_Remove tr k s) as [s1 r1] eqn:E.
  destruct (store_remove _ _ _ _ Hs Hk E) as (? & ? & ? & _).
  destruct r1 as [u|e]; simpl; [|destruct (absent e)]; by intros [= <- <-].
Qed.
End Laws.
#[export] Hint Resolve get_same list_same list_dirs_same list_shallow_same : remnix.

Lemma errors_Is_impl p q e :
  (forall x, p x = true -> q x = true) -> errors_Is p e = true -> errors_Is q e = true.
Proof.
  intros Hpq. induction e as [| | | | | | | | | | |m e IH|e1 IH1 e2 IH2]; simpl; rewrite ?orb_true_iff;
    intros H; intuition auto.
Qed.

(** A missing object stays recognizable as missing through [MapFSError]. *)
Lemma MapFSError_absent e : absent e = true -> absent (MapFSError e) = true.
Proof.
  unfold MapFSError. intros Ha. destruct (errors_Is is_sentinel e) eqn:Es; [done|].
  destruct (errors_Is is_NotExist e) eqn:E; [done|]. unfold absent in Ha.
  rewrite E, orb_false_r in Ha. exfalso. apply not_true_iff_false in Es. apply Es.
  eapply errors_Is_impl; [|exact Ha]. by intros [].
Qed.
