(* ===== verification/Gc.v ===== *)
(** [internal/sync/ack] and [internal/sync/gc]: acknowledgements, the choice of
    the best checkpoint, and the plan and execution of remote garbage
    collection. *)

From S2P Require Import Prelude Database History Frontier Event Bundle Snapshot Device Transport.

(** ** [ack/ack.go] *)

Record AckFile := mkAckFile {
  ak_Version : Z;
  ak_DeviceID : string;
  ak_Frontier : Frontier;
  ak_CheckpointID : string;
  ak_UpdatedAt : Z;
}.
Definition ack_CurrentVersion : Z := 1.

Definition ack_New (now : Time) (deviceID : string) (f : Frontier) (checkpointID : string) : AckFile :=
  mkAckFile ack_CurrentVersion deviceID (Clone f) checkpointID (UnixMilli now).
Definition ack_Encode `{Codec AckFile} (f : AckFile) : bytes := marshal f.
Definition ack_Decode `{Codec AckFile} (b : bytes) : result AckFile :=
  match unmarshal b with Some f => Ok f | None => Fail (EMsg "json") end.

(** ** [gc/gc.go] *)

Record Plan := mkPlan {
  p_Bundles : list string;
  p_Checkpoints : list string;
  p_Generations : list string;
  p_TmpOrphans : list string;
  p_BlockedBy : list string;
  p_Checkpoint : string;
  p_Eligible : bool;
}.

Definition plan_zero : Plan := mkPlan [] [] [] [] [] "" false.

Definition DeletedCount (p : Plan) : nat :=
  (length (p_Bundles p) + length (p_Checkpoints p) + length (p_TmpOrphans p) + length (p_Generations p))%nat.

Definition betterCheckpoint (a b : Manifest) : bool :=
  let aDom := Dominates (m_Frontier a) (m_Frontier b) in
  let bDom := Dominates (m_Frontier b) (m_Frontier a) in
  if aDom && negb bDom then true
  else if bDom && negb aDom then false
  else
    let sa := Score (m_Frontier a) in
    let sb := Score (m_Frontier b) in
    if negb (sa =? sb) then sb <? sa
    else if negb (m_CreatedAt a =? m_CreatedAt b) then m_CreatedAt b <? m_CreatedAt a
    else str_lt (m_ID b) (m_ID a).

Definition sortCheckpoints (all : list Manifest) : list Manifest := sort_slice betterCheckpoint all.

Definition pickBestCheckpoint (byID : gmap string Manifest) : option Manifest :=
  head (sortCheckpoints (rows byID)).

Definition checkpointIDFromKey (key : string) : string :=
  match split_on slash (trim_char slash key) with
  | p0 :: p1 :: _ => if String.eqb p0 "checkpoints" then p1 else ""
  | _ => ""
  end.

Definition is_tmp (base : string) : bool := contains ".tmp-" base || has_suffix ".tmp" base.

Definition ackCovers (a : AckFile) (checkpointID : string) : bool :=
  String.eqb (ak_CheckpointID a) checkpointID.

Definition allDominate (acks : gmap string AckFile) (required : list string) (frontier : Frontier)
    : bool :=
  forallb (fun id => match acks !! id with
                     | Some a => Dominates (ak_Frontier a) frontier
                     | None => false
                     end) required
  && negb (bool_decide (required = [])).

Definition RequiredDevices (devs : list Device) : list string :=
  dv_ID <$> List.filter (fun d => negb (String.eqb (dv_Status d) StatusRetired)) devs.

(** The required devices that have not acknowledged. *)
Definition blocked_by (acks : gmap string AckFile) (required : list string) (checkpointID : string)
    : list string :=
  List.filter (fun id =>
    match acks !! id with
    | None => true
    | Some a => negb (str_empty checkpointID) && negb (String.eqb (ak_CheckpointID a) checkpointID)
                && negb (ackCovers a checkpointID)
    end) required.

(** [seen]-filtering of a listing: the first object of each key is kept. *)
Fixpoint dedupe_keys (seen : gset string) (objs : list Object) : list Object :=
  match objs with
  | [] => []
  | o :: objs => if bool_decide (o_Key o ∈ seen) then dedupe_keys seen objs
                 else o :: dedupe_keys ({[o_Key o]} ∪ seen) objs
  end.

Section Gc.
Context {S : Type} (tr : Transport S) `{Codec AckFile} `{Codec Manifest} `{BundleCodecs}.

(** [read]: a read error ends the loop like the end of the file does. *)
Definition read (key : string) : M S bytes := r ← tr_Get tr key; mret (rd_data r).

Definition read_manifest (key : string) : M S (option Manifest) :=
  b ← skip_error (read key);
  mret (b ≫= fun b => match DecodeManifest b with Ok m => Some m | Fail _ => None end).

Definition listCheckpoints : M S (list Manifest) :=
  objs ← tr_List tr "checkpoints/";
  out ← collect (fun o => if negb (has_suffix "/manifest" (o_Key o)) then mret None
                          else read_manifest (o_Key o)) objs;
  mret (sortCheckpoints out).

Definition NewestCheckpoint : M S (option Manifest) :=
  all ← listCheckpoints;
  mret (head all).

(** [time.Since] saturates at the range of [time.Duration]. *)
Definition time_Since (now t : Time) : Z := Z.max (- 2^63) (Z.min max_int64 (now - t)).

Definition CheckpointDue (now : Time) (interval : Z) : M S bool :=
  m ← NewestCheckpoint;
  mret (match m with
        | None => true
        | Some m =>
            let interval := if interval <=? 0 then 3600000000000 else interval in
            interval <=? time_Since now (time_UnixMilli (m_CreatedAt m))
        end).

Definition resolveCheckpoint (acks : gmap string AckFile) (required : list string)
    (checkpointID : string) : M S Manifest :=
  if negb (str_empty checkpointID) then
    m ← read_manifest (path_join ["checkpoints"; checkpointID; "manifest"]%string);
    mret (default manifest_zero m)
  else
    all ← listCheckpoints;
    mret (default manifest_zero
            (List.find (fun m => allDominate acks required (m_Frontier m)) all)).

Definition listEventObjects : M S (list Object) :=
  match tr_ListShallow tr with
  | None => tr_List tr "events"
  | Some shallow =>
      files ← shallow "events"%string;
      dirs ← tr_ListDirs tr "events";
      more ← collect (fun d => o ← shallow d; mret (Some o)) dirs;
      mret (files ++ concat more)
  end.

Definition ListLayoutObjects : M S (list Object) :=
  groups ← collect (fun p => o ← (if String.eqb p "events" then listEventObjects else tr_List tr p);
                             mret (Some o))
             ["metadata"; "keys"; "events"; "checkpoints"; "acks"]%string;
  mret (dedupe_keys ∅ (concat groups)).

Fixpoint load_acks (objs : list Object) (out : gmap string AckFile) : M S (gmap string AckFile) :=
  match objs with
  | [] => mret out
  | o :: objs =>
      b ← read (o_Key o);
      match ack_Decode b with
      | Fail e => fail (EWrap "ack" e)
      | Ok f => load_acks objs (<[ak_DeviceID f := f]> out)
      end
  end.

Definition loadAcks : M S (gmap string AckFile) :=
  objs ← tr_List tr "acks/";
  load_acks (dedupe_keys ∅ objs) ∅.

(** The bundles the checkpoint covers. *)
Definition covered_bundles (ckpt : Manifest) (objs : list Object) : M S (list string) :=
  collect (fun o =>
    if negb (has_prefix "events/" (o_Key o)) || str_empty (m_ID ckpt) then mret None
    else
      raw ← skip_error (read (o_Key o));
      mret (raw ≫= fun raw =>
        match PeekHeader raw with
        | Fail _ => None
        | Ok h => if Covers (m_Frontier ckpt) (h_DeviceID h) (h_SeqEnd h) then Some (o_Key o) else None
        end)) objs.

(** The manifests of the listed checkpoints, by checkpoint directory. *)
Definition checkpoint_metas (objs : list Object) : M S (gmap string Manifest) :=
  l ← collect (fun o =>
        let id := checkpointIDFromKey (o_Key o) in
        if negb (has_suffix "/manifest" (o_Key o)) || str_empty id then mret None
        else m ← read_manifest (o_Key o); mret ((fun m => (id, m)) <$> m)) objs;
  mret (foldl (fun acc '(id, m) => <[id := m]> acc) ∅ l).

(** Which of the superseded checkpoints goes: the body of the last loop. *)
Definition deletes_checkpoint (meta : gmap string Manifest) (keepID : string) (keep : option Manifest)
    (canDeleteFull : bool) (id : string) : bool :=
  if str_empty id || String.eqb id keepID then false
  else
    match meta !! id, keep with
    | Some m, Some k =>
        let keepDom := Dominates (m_Frontier k) (m_Frontier m) in
        let candDom := Dominates (m_Frontier m) (m_Frontier k) in
        if candDom && negb keepDom then false
        else if keepDom then true
        else if m_CreatedAt k <? m_CreatedAt m then false
        else canDeleteFull
    | Some _, None => canDeleteFull
    | None, _ => true
    end.

Definition choose_keep (meta : gmap string Manifest) (planned : string)
    : M S (string * option Manifest) :=
  match pickBestCheckpoint meta with
  | Some best => mret (m_ID best, Some best)
  | None =>
      if negb (str_empty planned) then mret (planned, meta !! planned)
      else
        r ← try NewestCheckpoint;
        mret (match r with
              | Ok (Some m) => (m_ID m, Some m)
              | _ => (planned, None)
              end)
  end.

Definition Evaluate (required : list string) (checkpointID : string) : M S Plan :=
  acks ← loadAcks;
  let blocked := blocked_by acks required checkpointID in
  let eligible := bool_decide (blocked = []) && negb (bool_decide (required = [])) in
  objs ← ListLayoutObjects;
  let tmp := List.filter (fun o => is_tmp (path_base (o_Key o))) objs in
  let kept := List.filter (fun o => negb (is_tmp (path_base (o_Key o)))) objs in
  dirs ← try (tr_ListDirs tr "checkpoints/");
  let ids := (fun o => checkpointIDFromKey (o_Key o)) <$> kept in
  let dir_ids := match dirs with
                 | Ok ds => (fun d => checkpointIDFromKey (d +:+ "/")) <$> ds
                 | Fail _ => []
                 end in
  let ckptObjs : gset string := list_to_set (ids ++ dir_ids) ∖ {[ EmptyString ]} in
  '(ckpt, bundles) ← (if eligible then
      ckpt ← resolveCheckpoint acks required checkpointID;
      bundles ← covered_bundles ckpt objs;
      mret (m_ID ckpt, bundles)
    else mret (EmptyString, []));
  meta ← checkpoint_metas objs;
  '(keepID, keep) ← choose_keep meta ckpt;
  let canDeleteFull := eligible && negb (str_empty ckpt) in
  let gone := List.filter (deletes_checkpoint meta keepID keep canDeleteFull) (elements ckptObjs) in
  mret (mkPlan bundles
          (sort_slice str_lt ((fun id => path_join ["checkpoints"; id]%string) <$> gone))
          [] (o_Key <$> tmp) blocked ckpt eligible).

Definition plan_keys (plan : Plan) : list string :=
  p_TmpOrphans plan ++ p_Checkpoints plan ++
  (if p_Eligible plan then p_Bundles plan ++ p_Generations plan else []).

Definition Execute (plan : Plan) (dryRun : bool) : M S unit :=
  if dryRun then mret tt
  else for_each (plan_keys plan) (fun key =>
    r ← try (DeleteIfExists tr key);
    match r with
    | Ok _ => mret tt
    | Fail e => fail (EWrap "garbage collection was only partially completed" e)
    end).
End Gc.

(** ** The order on checkpoints *)

(** A checkpoint a device can have published: sequence numbers are counted
    from one and their sum fits an [int64]. *)
Record ckpt_ok (m : Manifest) : Prop := {
  ck_nonneg : nonneg (m_Frontier m);
  ck_sum : frontier_sum (m_Frontier m) < 2^63;
}.

(** The lexicographic order (total progress, creation time, id), descending. *)
Definition rank_before (a b : Manifest) : Prop :=
  let sa := frontier_sum (m_Frontier a) in
  let sb := frontier_sum (m_Frontier b) in
  sb < sa \/ sa = sb /\ (m_CreatedAt b < m_CreatedAt a \/
    m_CreatedAt a = m_CreatedAt b /\ str_lt (m_ID b) (m_ID a) = true).

Lemma frontier_sum_nonneg f : nonneg f -> 0 <= frontier_sum f.
Proof.
  intros Hf. rewrite (frontier_sum_dom f (dom f)) by done.
  apply (Z.le_trans _ (sumZ (fun _ => 0) (elements (dom f)))).
  - induction (elements (dom f)); simpl; lia.
  - apply sumZ_le. intros x _. by apply nonneg_at.
Qed.

Lemma ckpt_ok_Score m : ckpt_ok m -> Score (m_Frontier m) = frontier_sum (m_Frontier m).
Proof.
  intros [Hn Hs]. rewrite Score_sum. apply wrap64_small.
  pose proof (frontier_sum_nonneg _ Hn). unfold int64. lia.
Qed.

(** Dominance never contradicts the sum, so the three-stage comparison of the
    code is the lexicographic order. *)
Lemma betterCheckpoint_rank a b :
  ckpt_ok a -> ckpt_ok b -> betterCheckpoint a b = true <-> rank_before a b.
Proof.
  intros Ha Hb. unfold betterCheckpoint, rank_before. rewrite !ckpt_ok_Score by done.
  pose proof (Dominates_sum_strict (m_Frontier a) (m_Frontier b) (ck_nonneg _ Ha) (ck_nonneg _ Hb)) as Hab.
  pose proof (Dominates_sum_strict (m_Frontier b) (m_Frontier a) (ck_nonneg _ Hb) (ck_nonneg _ Ha)) as Hba.
  destruct (Dominates (m_Frontier a) (m_Frontier b)), (Dominates (m_Frontier b) (m_Frontier a)); simpl;
    try specialize (Hab eq_refl eq_refl); try specialize (Hba eq_refl eq_refl);
    try (split; [intros _ | done]; lia); try (split; [done|lia]);
    (destruct (Z.eqb_spec (frontier_sum (m_Frontier a)) (frontier_sum (m_Frontier b))); simpl;
       [|rewrite Z.ltb_lt; lia];
     destruct (Z.eqb_spec (m_CreatedAt a) (m_CreatedAt b)); simpl; [|rewrite Z.ltb_lt; lia]);
    (split; [intros; right; split; [done|]; by right | by intros [?|[_ [?|[_ ?]]]]; [lia|lia|]]).
Qed.

Lemma rank_before_trans a b c : rank_before a b -> rank_before b c -> rank_before a c.
Proof.
  unfold rank_before. intros [?|[? [?|[? Hab]]]] [?|[? [?|[? Hbc]]]]; try (left; lia);
    right; (split; [lia|]); try (left; lia). right. split; [lia|]. by eapply str_lt_trans.
Qed.

Lemma rank_before_irrefl a : ~ rank_before a a.
Proof. unfold rank_before. rewrite str_lt_irrefl. intros [?|[_ [?|[_ ?]]]]; [lia|lia|done]. Qed.

Definition same_rank (a b : Manifest) : Prop :=
  frontier_sum (m_Frontier a) = frontier_sum (m_Frontier b) /\ m_CreatedAt a = m_CreatedAt b /\
  m_ID a = m_ID b.

Lemma rank_before_total a b : rank_before a b \/ same_rank a b \/ rank_before b a.
Proof.
  unfold rank_before, same_rank.
  destruct (Z.lt_trichotomy (frontier_sum (m_Frontier a)) (frontier_sum (m_Frontier b))) as [?|[?|?]];
    [by right; right; left | | by left; left].
  destruct (Z.lt_trichotomy (m_CreatedAt a) (m_CreatedAt b)) as [?|[?|?]];
    [by right; right; right; split; [|left] | | by left; right; split; [|left]].
  destruct (str_lt (m_ID a) (m_ID b)) eqn:E1; [right; right; right; auto|].
  destruct (str_lt (m_ID b) (m_ID a)) eqn:E2; [left; right; auto|].
  right; left. split_and!; [done..|]. by apply str_lt_total.
Qed.

Lemma rank_before_same a b c : same_rank a b -> rank_before c a -> rank_before c b.
Proof. intros (H1 & H2 & H3). unfold rank_before. by rewrite H1, H2, H3. Qed.

Lemma not_better a b : ckpt_ok a -> ckpt_ok b -> betterCheckpoint a b = false <-> ~ rank_before a b.
Proof. intros. rewrite <- betterCheckpoint_rank by done. by rewrite not_true_iff_false. Qed.

Lemma betterCheckpoint_weak_order l : Forall ckpt_ok l -> weak_order_on betterCheckpoint l.
Proof.
  rewrite Forall_forall. intros Hok. split.
  - intros x y Hx Hy. rewrite not_better, betterCheckpoint_rank by auto. intros Hxy Hyx.
    apply (rank_before_irrefl x). by eapply rank_before_trans.
  - intros x y z Hx Hy Hz. rewrite !not_better by auto. intros Hyx Hzy Hzx.
    destruct (rank_before_total x y) as [?|[?|?]]; [|by eapply Hzy, rank_before_same|done].
    apply Hzy. by eapply rank_before_trans.
Qed.

(** The order of checkpoints does not depend on the listing order, and no checkpoint strictly
    covers the first one. *)
Theorem sortCheckpoints_canonical (l l' : list Manifest) :
  Forall ckpt_ok l -> NoDup (m_ID <$> l) -> l ≡ₚ l' ->
  sortCheckpoints l = sortCheckpoints l' /\
  (forall best m, head (sortCheckpoints l) = Some best -> m ∈ l ->
     best ∈ l /\ (m = best \/ rank_before best m) /\
     (Dominates (m_Frontier m) (m_Frontier best) = true ->
      Dominates (m_Frontier best) (m_Frontier m) = true)).
Proof.
  intros Hok Hnd Hp. pose proof (betterCheckpoint_weak_order l Hok) as Hw.
  assert (forall x y, x ∈ l -> y ∈ l -> ~ rank_before x y -> ~ rank_before y x -> x = y) as Hanti.
  { intros x y Hx Hy Hxy Hyx. destruct (rank_before_total x y) as [?|[(_ & _ & Hid)|?]]; [done| |done].
    apply list_elem_of_lookup in Hx as [i Hi]. apply list_elem_of_lookup in Hy as [j Hj].
    assert (i = j) as ->; [|congruence].
    eapply NoDup_lookup; [exact Hnd|..]; rewrite list_lookup_fmap, ?Hi, ?Hj; simpl; by rewrite ?Hid. }
  rewrite Forall_forall in Hok. split.
  - apply sort_slice_canonical; [done| |done]. intros x y Hx Hy. rewrite !not_better by auto. auto.
  - intros best m Hh Hm. destruct (sort_slice_head _ _ _ Hw Hh) as [Hb Hbest]. split; [done|].
    specialize (Hbest m Hm). apply not_better in Hbest; [|auto..]. split.
    + destruct (rank_before_total best m) as [?|[Hs|?]]; [by right| |done].
      left. symmetry. apply Hanti; [done..| |done].
      intros Hr. apply (rank_before_irrefl m). destruct Hs as (E1 & E2 & E3).
      unfold rank_before in *. by rewrite E1, E2, E3 in Hr.
    + intros Hd. destruct (Dominates (m_Frontier best) (m_Frontier m)) eqn:E; [done|].
      destruct Hbest. left. by apply Dominates_sum_strict; [apply Hok..| |].
Qed.

(** ** Safety of garbage collection *)

Section Safety.
Context {S : Type} {tr : Transport S} `{!ObjectStore tr} `{Codec AckFile} `{Codec Manifest} `{BundleCodecs}.
Notation same := (same_objects (tr := tr)).

Lemma read_same k : mono same (read tr k).
Proof. unfold read. mono_solve. Qed.
#[local] Hint Resolve read_same : remnix.
Lemma read_manifest_same k : mono same (read_manifest tr k).
Proof. unfold read_manifest. mono_solve. Qed.
#[local] Hint Resolve read_manifest_same : remnix.
Lemma listCheckpoints_same : mono same (listCheckpoints tr).
Proof. unfold listCheckpoints. mono_solve. Qed.
#[local] Hint Resolve listCheckpoints_same : remnix.
Lemma resolveCheckpoint_same acks req cid : mono same (resolveCheckpoint tr acks req cid).
Proof. unfold resolveCheckpoint. mono_solve. Qed.
Lemma listEventObjects_same : mono same (listEventObjects tr).
Proof. unfold listEventObjects. mono_solve. Qed.
#[local] Hint Resolve listEventObjects_same resolveCheckpoint_same : remnix.
Lemma ListLayoutObjects_same : mono same (ListLayoutObjects tr).
Proof. unfold ListLayoutObjects. mono_solve. Qed.
Lemma load_acks_same objs out : mono same (load_acks tr objs out).
Proof. revert out. induction objs as [|o objs IH]; intros out; simpl; mono_solve. Qed.
#[local] Hint Resolve ListLayoutObjects_same load_acks_same : remnix.
Lemma loadAcks_same : mono same (loadAcks tr).
Proof. unfold loadAcks. mono_solve. Qed.
Lemma covered_bundles_same ck objs : mono same (covered_bundles tr ck objs).
Proof. unfold covered_bundles. mono_solve. Qed.
Lemma checkpoint_metas_same objs : mono same (checkpoint_metas tr objs).
Proof. unfold checkpoint_metas. mono_solve. Qed.
Lemma choose_keep_same meta planned : mono same (choose_keep tr meta planned).
Proof. unfold choose_keep, NewestCheckpoint. mono_solve. Qed.
#[local] Hint Resolve loadAcks_same covered_bundles_same checkpoint_metas_same choose_keep_same : remnix.
Lemma Evaluate_same required cid : mono same (Evaluate tr required cid).
Proof. unfold Evaluate. mono_solve. Qed.

(** A listed object is read back in full. *)
Definition stored (s : S) (k : string) : Prop := store_key k /\ is_Some (objects s !! k).

Lemma read_stored k s s' b :
  store_inv s -> stored s k -> read tr k s = (s', Ok b) -> objects s !! k = Some b.
Proof.
  intros Hs [Hk [b' Hb]] Hr. apply bind_Ok_inv in Hr as (s1 & rd & Hg & Hr).
  destruct (store_get _ _ _ _ Hs Hg) as (_ & _ & Hsome). specialize (Hsome Hk).
  rewrite Hb in Hsome. injection Hsome as ->. by injection Hr as _ <-.
Qed.

Lemma skip_read_stored k s s' b :
  store_inv s -> stored s k -> skip_error (read tr k) s = (s', Ok (Some b)) -> objects s !! k = Some b.
Proof.
  intros Hs Hk Hr. unfold skip_error, try, mbind, M_bind in Hr. simpl in Hr.
  destruct (read tr k s) as [s1 [b'|e]] eqn:E; injection Hr; [|done].
  intros -> _. by eapply read_stored.
Qed.

Lemma elem_of_dedupe_keys seen objs o : o ∈ dedupe_keys seen objs -> o ∈ objs.
Proof.
  revert seen. induction objs as [|x objs IH]; intros seen; simpl; [done|].
  case_bool_decide; [intros ?%IH; by right|].
  rewrite elem_of_cons. intros [->|?%IH]; [left|by right].
Qed.

Lemma stored_eq s s' k : objects s' = objects s -> stored s' k <-> stored s k.
Proof. unfold stored. by intros ->. Qed.

Lemma tr_List_stored p s s' l o :
  store_inv s -> tr_List tr p s = (s', Ok l) -> o ∈ l -> stored s (o_Key o).
Proof. intros Hs E Ho. destruct (store_list _ _ _ _ Hs E) as (_ & _ & Hl). by apply (Hl l o). Qed.

Lemma shallow_stored f p s s' l o :
  store_inv s -> store_prefix p -> tr_ListShallow tr = Some f -> f p s = (s', Ok l) -> o ∈ l ->
  stored s (o_Key o).
Proof.
  intros Hs Hp Hf E Ho. destruct (store_list_shallow _ _ _ _ _ Hs Hf E) as (_ & _ & Hl).
  by apply (Hl Hp l o).
Qed.

(** The one prefix the code lists level by level. *)
Hypothesis events_prefix : store_prefix "events".

Lemma listEventObjects_stored s s' l o :
  store_inv s -> listEventObjects tr s = (s', Ok l) -> o ∈ l -> stored s (o_Key o).
Proof.
  intros Hs. unfold listEventObjects.
  destruct (tr_ListShallow tr) as [f|] eqn:Hf; [|by apply tr_List_stored].
  intros (s1 & files & E1 & E)%bind_Ok_inv Ho.
  apply bind_Ok_inv in E as (s2 & dirs & E2 & E).
  apply bind_Ok_inv in E as (s3 & more & E3 & E). injection E as <- <-.
  destruct (mono_run same _ _ _ _ (list_shallow_same _ _ Hf) E1 Hs) as [Hs1 R1].
  destruct (store_list_dirs _ _ _ _ Hs1 E2) as (Hs2 & R2 & Hdirs).
  apply elem_of_app in Ho as [Ho|Ho]; [by eapply shallow_stored|].
  apply elem_of_concat in Ho as (l & Hl & Ho).
  eapply (collect_inv same) in E3 as (d & s4 & s5 & Hd & R3 & E3); [|intros d; mono_solve|exact Hl].
  destruct (R3 Hs2) as [Hs4 R4].
  apply bind_Ok_inv in E3 as (s6 & l' & E3 & Heq). injection Heq as _ <-.
  apply (stored_eq s s4); [congruence|].
  eapply shallow_stored; [done| |done..]. by apply (Hdirs events_prefix dirs).
Qed.

Lemma ListLayoutObjects_stored s s' l o :
  store_inv s -> ListLayoutObjects tr s = (s', Ok l) -> o ∈ l -> stored s (o_Key o).
Proof.
  intros Hs (s1 & groups & E & E')%bind_Ok_inv Ho. injection E' as <- <-.
  apply elem_of_dedupe_keys, elem_of_concat in Ho as (g & Hg & Ho).
  eapply (collect_inv same) in E as (p & s2 & s3 & _ & R1 & Hp); [|intros p; mono_solve|exact Hg].
  destruct (R1 Hs) as [Hs2 R2].
  apply bind_Ok_inv in Hp as (s4 & l' & Hp & Heq). injection Heq as _ <-.
  apply (stored_eq s s2); [done|].
  destruct (String.eqb p "events"); [by eapply listEventObjects_stored|by eapply tr_List_stored].
Qed.

(** An acknowledgement that is stored remotely for device [d]. *)
Definition acked (s : S) (d : string) (a : AckFile) : Prop :=
  ak_DeviceID a = d /\ exists k raw, objects s !! k = Some raw /\ ack_Decode raw = Ok a.

Lemma acked_eq s s' d a : objects s' = objects s -> acked s' d a <-> acked s d a.
Proof. unfold acked. by intros ->. Qed.

Lemma load_acks_acked objs out s s' acks :
  store_inv s -> (forall o, o ∈ objs -> stored s (o_Key o)) ->
  (forall d a, out !! d = Some a -> acked s d a) ->
  load_acks tr objs out s = (s', Ok acks) ->
  forall d a, acks !! d = Some a -> acked s d a.
Proof.
  revert out s. induction objs as [|o objs IH]; intros out s Hs Hst Hout Hl; simpl in Hl.
  { by injection Hl as _ <-. }
  apply bind_Ok_inv in Hl as (s1 & b & Hr & Hl).
  pose proof (read_stored _ _ _ _ Hs (Hst o ltac:(left)) Hr) as Hb.
  destruct (mono_run same _ _ _ _ (read_same _) Hr Hs) as [Hs1 R].
  destruct (ack_Decode b) as [f|e] eqn:Hd; [|by injection Hl].
  intros d a Ha. apply (acked_eq s s1 d a R).
  eapply (IH _ s1 Hs1); [| |exact Hl|exact Ha].
  - intros o' Ho'. apply (stored_eq s s1 _ R), Hst. by right.
  - intros d' a'. rewrite (acked_eq s s1 _ _ R), lookup_insert. case_decide; [|by apply Hout].
    intros [= <-]. split; [done|eauto].
Qed.

Lemma loadAcks_acked s s' acks d a :
  store_inv s -> loadAcks tr s = (s', Ok acks) -> acks !! d = Some a -> acked s d a.
Proof.
  intros Hs (s1 & objs & E & E')%bind_Ok_inv Ha.
  destruct (mono_run same _ _ _ _ (list_same _) E Hs) as [Hs1 R].
  apply (acked_eq s s1 d a R).
  eapply load_acks_acked; [done| | |exact E'|exact Ha]; [|done].
  intros o Ho%elem_of_dedupe_keys. apply (stored_eq s s1 _ R). by eapply tr_List_stored.
Qed.

Lemma resolveCheckpoint_acked acks required cid s s' ck :
  resolveCheckpoint tr acks required cid s = (s', Ok ck) -> m_ID ck <> EmptyString ->
  cid = EmptyString -> forall d, d ∈ required ->
  exists a, acks !! d = Some a /\ Dominates (ak_Frontier a) (m_Frontier ck) = true.
Proof.
  intros Hr Hid -> d Hd. simpl in Hr.
  apply bind_Ok_inv in Hr as (s1 & all & _ & Hr). injection Hr as _ Hck.
  destruct (List.find _ all) as [m|] eqn:Hf; simpl in Hck; subst ck; [|done].
  apply find_some in Hf as [_ Ha]. unfold allDominate in Ha. apply andb_true_iff in Ha as [Ha _].
  rewrite forallb_forall in Ha. specialize (Ha d (proj1 (list_elem_of_In _ _) Hd)).
  destruct (acks !! d) as [a|]; [eauto|done].
Qed.

Lemma covered_bundles_covered ck objs s s' ks k :
  store_inv s -> (forall o, o ∈ objs -> stored s (o_Key o)) ->
  covered_bundles tr ck objs s = (s', Ok ks) -> k ∈ ks ->
  m_ID ck <> EmptyString /\ has_prefix "events/" k = true /\
  exists raw h, objects s !! k = Some raw /\ PeekHeader raw = Ok h /\
    Covers (m_Frontier ck) (h_DeviceID h) (h_SeqEnd h) = true.
Proof.
  intros Hs Hst E Hk. unfold covered_bundles in E.
  eapply (collect_inv same) in E as (o & s1 & s2 & Ho & R & E); [|intros o; mono_solve|exact Hk].
  destruct (R Hs) as [Hs1 Ro]. specialize (Hst o Ho).
  destruct (has_prefix "events/" (o_Key o)) eqn:Hp; [|done].
  destruct (str_empty (m_ID ck)) eqn:He; [done|]. simpl in E.
  apply bind_Ok_inv in E as (s3 & raw & Hr & E). injection E as _ E.
  destruct raw as [raw|]; simpl in E; [|done].
  apply skip_read_stored in Hr; [|done|by apply (stored_eq s s1)]. rewrite Ro in Hr.
  destruct (PeekHeader raw) as [h|] eqn:Hh; [|done].
  destruct (Covers _ _ _) eqn:Hc; [|done]. injection E as <-.
  split; [by intros Heq; rewrite Heq in He|]. eauto 6.
Qed.

Lemma blocked_by_nil acks required cid d :
  blocked_by acks required cid = [] -> d ∈ required ->
  exists a, acks !! d = Some a /\ (cid <> EmptyString -> ak_CheckpointID a = cid).
Proof.
  intros Hb Hd. pose proof (filter_nil_elem _ _ d Hb Hd) as Hp. simpl in Hp.
  destruct (acks !! d) as [a|] eqn:Ha; [|done]. exists a. split; [done|]. intros Hc.
  destruct (String.eqb_spec (ak_CheckpointID a) cid) as [|Hne]; [done|]. unfold ackCovers in Hp.
  rewrite (proj2 (String.eqb_neq _ _) Hne) in Hp. by destruct cid.
Qed.

(** A device whose acknowledged frontier dominates the checkpoint has every
    event the checkpoint covers. *)
Lemma Covers_Dominates a b dev seq :
  Dominates a b = true -> Covers b dev seq = true -> 0 < seq -> Covers a dev seq = true.
Proof.
  unfold Covers. rewrite !Z.leb_le. intros Hd Hc Hs. rewrite Dominates_spec in Hd.
  unfold at_ at 1 in Hc. destruct (b !! dev) as [n|] eqn:E; simpl in Hc; [|lia].
  specialize (Hd _ _ E). lia.
Qed.


(** The keys a run over [keys] may have removed. *)
Definition removed_under (keys : list string) (s s' : S) : Prop :=
  store_inv s' /\ objects s' ⊆ objects s /\
  forall k', is_Some (objects s !! k') -> objects s' !! k' = None ->
    exists k, k ∈ keys /\ (k' = k \/ has_prefix (k +:+ "/") k' = true).

Lemma removed_under_refl keys s : store_inv s -> removed_under keys s s.
Proof. intros Hs. split_and!; [done..|]. intros k' [b Hb]. congruence. Qed.

Lemma removed_under_step k keys s s1 s' :
  removed_under [k] s s1 -> removed_under keys s1 s' -> removed_under (k :: keys) s s'.
Proof.
  intros (_ & Hsub1 & Hr1) (Hs' & Hsub2 & Hr2). split_and!; [done|by etrans|].
  intros k' Hk' Hn. destruct (objects s1 !! k') as [b|] eqn:E1.
  - destruct (Hr2 k') as (k0 & ? & ?); [by rewrite E1|done|]. exists k0. split; [by right|done].
  - destruct (Hr1 k' Hk' E1) as (k0 & Hk0%list_elem_of_singleton & ?). subst.
    exists k. split; [left|done].
Qed.

Lemma Execute_plan_removes (plan : Plan) (dryRun : bool) (s s' : S) (r : result unit) :
  store_inv s -> (forall k, k ∈ plan_keys plan -> store_key k) ->
  Execute tr plan dryRun s = (s', r) ->
  removed_under (plan_keys plan) s s' /\ (dryRun = true -> objects s' = objects s).
Proof.
  intros Hs Hkeys E. unfold Execute in E. destruct dryRun.
  { injection E as <- _. split; [by apply removed_under_refl|done]. }
  split; [|done]. revert s Hs E. induction (plan_keys plan) as [|k keys IH]; intros s Hs E; simpl in E.
  { injection E as <- _. by apply removed_under_refl. }
  unfold try, mbind, M_bind in E. simpl in E.
  destruct (DeleteIfExists tr k s) as [s1 r1] eqn:Ed.
  destruct (DeleteIfExists_objects _ _ _ _ Hs (Hkeys k ltac:(left)) Ed) as (Hs1 & Hsub & Hrem).
  assert (removed_under [k] s s1) as Hk.
  { split_and!; [done..|]. intros k' ? ?. exists k. split; [left|auto]. }
  eapply removed_under_step; [exact Hk|]. destruct r1 as [u|e]; simpl in E.
  - apply IH; [|done|done]. intros k0 Hk0. apply Hkeys. by right.
  - injection E as <- _. by apply removed_under_refl.
Qed.

(** Executing a plan only removes objects, each at or below a planned key; a dry run removes
    none and a plan that is not eligible removes no bundle. *)
Theorem Execute_only_planned (plan : Plan) (dryRun : bool) (s s' : S) (r : result unit) :
  store_inv s -> (forall k, k ∈ plan_keys plan -> store_key k) ->
  Execute tr plan dryRun s = (s', r) ->
  removed_under (plan_keys plan) s s' /\ (dryRun = true -> objects s' = objects s) /\
  (p_Eligible plan = false ->
     removed_under (p_TmpOrphans plan ++ p_Checkpoints plan) s s').
Proof.
  intros Hs Hkeys E. destruct (Execute_plan_removes _ _ _ _ _ Hs Hkeys E) as [H1' H2'].
  split; [done|]. split; [done|]. intros Hel. unfold plan_keys in H1'. by rewrite Hel, app_nil_r in H1'.
Qed.
End Safety.

(** A checkpoint with a readable manifest is dropped only in favour of the best one: because
    the best one covers it, or, when the plan is eligible, because the two are incomparable and it
    is not newer. *)
Theorem deletes_checkpoint_conservative (meta : gmap string Manifest) (best m : Manifest)
    (full : bool) (id : string) :
  (forall id m, meta !! id = Some m -> m_ID m = id) ->
  pickBestCheckpoint meta = Some best ->
  deletes_checkpoint meta (m_ID best) (Some best) full id = true ->
  meta !! id = Some m ->
  m <> best /\
  (Dominates (m_Frontier best) (m_Frontier m) = true \/
   full = true /\ Dominates (m_Frontier m) (m_Frontier best) = false /\ m_CreatedAt m <= m_CreatedAt best).
Proof.
  intros Hids Hbest Hdel Hm. unfold deletes_checkpoint in Hdel.
  destruct (str_empty id); [done|]. destruct (String.eqb_spec id (m_ID best)) as [|Hne]; [done|].
  simpl in Hdel. rewrite Hm in Hdel.
  split; [intros ->; apply Hne; by rewrite (Hids _ _ Hm)|].
  destruct (Dominates (m_Frontier best) (m_Frontier m)), (Dominates (m_Frontier m) (m_Frontier best));
    simpl in Hdel; auto; try done.
  destruct (Z.ltb_spec (m_CreatedAt best) (m_CreatedAt m)); [done|]. auto.
Qed.
