(* ===== verification/Directory.v ===== *)
(** [internal/transport/directory/directory.go]: the transport over a local
    directory. The file system below the configured root is a finite map from
    paths (lists of components) to nodes; [uuid.NewString] is a stream of
    names consumed by the writes. I/O errors other than the ones the tree
    itself causes (missing, not a directory, is a directory, already there)
    are not modelled, except that a reader may fail. *)

From S2P Require Import Prelude Transport.

Inductive fnode := FDir | FFile (b : bytes).

Abbreviation path := (list string).

Record FS := mkFS { fs_nodes : gmap path fnode; fs_uuids : nat }.

Definition set_nodes (n : gmap path fnode) (s : FS) : FS := mkFS n (fs_uuids s).

Definition ENOTDIR : error := EMsg "not a directory".
Definition EISDIR : error := EMsg "is a directory".
Definition EEXIST : error := EMsg "file exists".

(** A strict prefix of the path is a regular file. *)
Definition through_file (n : gmap path fnode) (p : path) : bool :=
  existsb (fun i => match n !! take i p with Some (FFile _) => true | _ => false end)
    (seq 0 (length p)).

Definition lookup_node (n : gmap path fnode) (p : path) : result fnode :=
  match n !! p with
  | Some f => Ok f
  | None => if through_file n p then Fail ENOTDIR else Fail ENotExist
  end.

(** [os.MkdirAll] *)
Definition mkdirs (n : gmap path fnode) (p : path) : gmap path fnode :=
  foldr (fun i n => match n !! take i p with None => <[take i p := FDir]> n | Some _ => n end) n
    (seq 0 (S (length p))).

Definition os_MkdirAll (p : path) : M FS unit := fun s =>
  match fs_nodes s !! p with
  | Some FDir => (s, Ok tt)
  | Some (FFile _) => (s, Fail ENOTDIR)
  | None => if through_file (fs_nodes s) p then (s, Fail ENOTDIR)
            else (set_nodes (mkdirs (fs_nodes s) p) s, Ok tt)
  end.

(** [strings.TrimPrefix(s, "/")] and [strings.TrimSuffix(s, "/")] *)
Definition trim_prefix_slash (s : string) : string :=
  match s with String c s' => if Ascii.eqb c slash then s' else s | EmptyString => s end.
Definition trim_suffix_slash (s : string) : string := default s (cut_suffix "/" s).

Definition parts (s : string) : path := if str_empty s then [] else split_on slash s.

(** [resolve]: the components below the root. *)
Definition resolve (key : string) : result path :=
  let clean := trim_prefix_slash (path_clean ("/" +:+ key)) in
  if contains ".." clean then Fail (EMsg "invalid key") else Ok (parts clean).

(** [filepath.ToSlash] of the path relative to the root. *)
Definition key_of (p : path) : string := join_with "/" p.

(** Names the listings hide. A relative path ends in [.tmp] when its last
    component does. *)
Definition hidden (name : string) : bool := has_suffix ".tmp" name || contains ".tmp-" name.

Definition base_name (p : path) : string := default EmptyString (last p).

(** Lexical order of [filepath.WalkDir] and [os.ReadDir]. *)
Fixpoint path_lt (p q : path) : bool :=
  match p, q with
  | _, [] => false
  | [], _ :: _ => true
  | x :: p, y :: q => str_lt x y || (String.eqb x y && path_lt p q)
  end.

Definition entries (n : gmap path fnode) : list (path * fnode) :=
  sort_slice (fun a b => path_lt a.1 b.1) (map_to_list n).

Definition resolve_prefix (prefix : string) : result path :=
  if str_empty prefix then Ok [] else resolve prefix.

Section Directory.
Context (uuid : nat -> string).

Definition file_object (root : path) (e : path * fnode) : option Object :=
  match e.2 with
  | FDir => None
  | FFile b => if negb (bool_decide (root `prefix_of` e.1)) || hidden (base_name e.1) then None
               else Some (mkObject (key_of e.1) (Z.of_nat (length b)))
  end.

Definition List_ (prefix : string) : M FS (list Object) :=
  root ← of_result (resolve_prefix prefix);
  n ← gets fs_nodes;
  match lookup_node n root with
  | Fail ENotExist => mret []
  | Fail e => fail e
  | Ok _ => mret (omap (file_object root) (entries n))
  end.

(** [os.ReadDir]: the entries one level below a directory. *)
Definition os_ReadDir (root : path) (n : gmap path fnode) : result (list (string * fnode)) :=
  f ← lookup_node n root;
  match f with
  | FFile _ => Fail ENOTDIR
  | FDir => Ok (omap (fun e => if (length e.1 =? S (length root))%nat &&
                                  bool_decide (root `prefix_of` e.1)
                               then Some (base_name e.1, e.2) else None) (entries n))
  end.

Definition base_prefix (prefix : string) : string := trim_suffix_slash (trim_prefix_slash prefix).
Definition child_key (prefix name : string) : string :=
  let base := base_prefix prefix in
  if str_empty base then name else (base +:+ "/" +:+ name)%string.

Definition read_level {A} (pick : string -> fnode -> option A) (prefix : string) : M FS (list A) :=
  root ← of_result (resolve_prefix prefix);
  n ← gets fs_nodes;
  match os_ReadDir root n with
  | Fail e => if errors_Is is_NotExist e then mret [] else fail e
  | Ok es => mret (omap (fun '(name, f) => if hidden name then None else pick name f) es)
  end.

Definition ListShallow (prefix : string) : M FS (list Object) :=
  read_level (fun name f => match f with
                            | FDir => None
                            | FFile b => Some (mkObject (child_key prefix name) (Z.of_nat (length b)))
                            end) prefix.

Definition ListDirs (prefix : string) : M FS (list string) :=
  read_level (fun name f => match f with FDir => Some (child_key prefix name) | FFile _ => None end) prefix.

(** Opening a directory succeeds; reading from it fails. *)
Definition Get (key : string) : M FS Reader :=
  p ← of_result (resolve key);
  n ← gets fs_nodes;
  f ← of_result (lookup_node n p);
  mret (match f with
        | FFile b => bytes_reader b
        | FDir => mkReader [] (Some EISDIR)
        end).

Definition append_name (suffix : string) (p : path) : path :=
  match last p with
  | Some n => removelast p ++ [(n +:+ suffix)%string]
  | None => [suffix]
  end.

(** [put]; both branches of the [atomic] flag rename. A key that names the
    root itself is refused: the rename cannot replace the directory. *)
Definition put (key : string) (r : Reader) (atomic : bool) : M FS unit :=
  p ← of_result (resolve key);
  if bool_decide (p = []) then fail EISDIR else
  _ ← os_MkdirAll (removelast p);
  u ← gets fs_uuids;
  _ ← modify (fun s => mkFS (fs_nodes s) (S u));
  let tmp := append_name (".tmp-" +:+ uuid u) p in
  n ← gets fs_nodes;
  match n !! tmp with
  | Some _ => fail EEXIST
  | None =>
      _ ← modify (set_nodes (<[tmp := FFile (rd_data r)]> n));
      match rd_err r with
      | Some e => _ ← modify (set_nodes n); fail e
      | None =>
          match n !! p with
          | Some FDir => _ ← modify (set_nodes n); fail EISDIR
          | _ => modify (set_nodes (<[p := FFile (rd_data r)]> (delete tmp (<[tmp := FFile (rd_data r)]> n))))
          end
      end
  end.

Definition Put (key : string) (r : Reader) : M FS unit := put key r false.
Definition PutAtomic (key : string) (r : Reader) : M FS unit := put key r true.

(** [os.RemoveAll] *)
Definition Remove (key : string) : M FS unit :=
  p ← of_result (resolve key);
  n ← gets fs_nodes;
  if through_file n p then fail ENOTDIR
  else modify (set_nodes (filter (fun e => ~ p `prefix_of` e.1) n)).

Definition Mkdir (key : string) : M FS unit :=
  p ← of_result (resolve key);
  r ← try (os_MkdirAll p);
  match r with Ok _ => mret tt | Fail e => fail (MapFSError e) end.

Definition HealthCheck (emptyRoot : bool) : M FS HealthStatus :=
  if emptyRoot then mret (mkHealthStatus HealthMisconfigured "directory path is empty" "")
  else
    r ← try (os_MkdirAll []);
    match r with
    | Fail e => mret (ClassifyHealth (Some (MapFSError e)))
    | Ok _ =>
        l ← try (List_ "");
        match l with
        | Fail e => mret (ClassifyHealth (Some (MapFSError e)))
        | Ok _ => mret (mkHealthStatus HealthOK "ok" "")
        end
    end.

Definition directory : Transport FS :=
  mkTransport FS List_ Get Put PutAtomic Remove ListDirs Mkdir false (Some ListShallow) None None.
End Directory.

Definition fs_empty : FS := mkFS ∅ 0.

(** ** Keys and paths *)

Record good_name (n : string) : Prop := {
  gn_nonempty : n <> EmptyString;
  gn_slash : split_on slash n = [n];
  gn_dot : n <> "."%string;
  gn_dots : contains ".." n = false;
  gn_visible : hidden n = false;
}.

Lemma join_cons n p : p <> [] -> join_with "/" (n :: p) = (n +:+ "/" +:+ join_with "/" p)%string.
Proof. by destruct p. Qed.

Lemma key_of_snoc p n : p <> [] -> key_of (p ++ [n]) = (key_of p +:+ "/" +:+ n)%string.
Proof.
  unfold key_of. induction p as [|m p IH]; [done|]. intros _. destruct p as [|m' p]; [done|].
  rewrite <- app_comm_cons, !join_cons, IH by done. by rewrite !str_app_assoc.
Qed.

Lemma key_of_nonempty n p : good_name n -> key_of (n :: p) <> EmptyString.
Proof. intros [Hn _ _ _ _]. unfold key_of. destruct p; simpl; by destruct n. Qed.

Lemma split_key_of p : p <> [] -> Forall good_name p -> split_on slash (key_of p) = p.
Proof.
  unfold key_of. induction p as [|n p IH]; [done|]. intros _ Hg. apply Forall_cons in Hg as [Hn Hp].
  destruct p as [|m p]; [by apply gn_slash|]. rewrite join_cons by done.
  change ("/" +:+ join_with "/" (m :: p))%string with (String slash (join_with "/" (m :: p))).
  rewrite split_on_app, (gn_slash _ Hn), IH by done. done.
Qed.

Lemma parts_key_of p : Forall good_name p -> parts (key_of p) = p.
Proof.
  intros Hg. destruct p as [|n p]; [done|]. unfold parts.
  pose proof (key_of_nonempty n p (Forall_inv Hg)) as Hne.
  assert (str_empty (key_of (n :: p)) = false) as -> by (by destruct (key_of (n :: p))).
  by apply split_key_of.
Qed.

Lemma key_of_inj p q : Forall good_name p -> Forall good_name q -> key_of p = key_of q -> p = q.
Proof. intros Hp Hq Heq. by rewrite <- (parts_key_of p), Heq, parts_key_of. Qed.

Lemma contains_dots_app a b :
  contains ".." (a +:+ "/" +:+ b) = contains ".." a || contains ".." b.
Proof.
  induction a as [|c a IH]; [done|].
  change (contains ".." (String c a +:+ "/" +:+ b)) with
    (has_prefix ".." (String c (a +:+ "/" +:+ b)) || contains ".." (a +:+ "/" +:+ b)).
  change (contains ".." (String c a)) with (has_prefix ".." (String c a) || contains ".." a).
  rewrite IH, orb_assoc. f_equal. f_equal. destruct a as [|d a]; [|done].
  simpl. by rewrite andb_false_r.
Qed.

Lemma key_of_no_dots p : Forall good_name p -> contains ".." (key_of p) = false.
Proof.
  unfold key_of. induction p as [|n p IH]; intros Hg; [done|]. apply Forall_cons in Hg as [Hn Hp].
  destruct p as [|m p]; [by apply gn_dots|]. rewrite join_cons, contains_dots_app by done.
  by rewrite (gn_dots _ Hn), IH.
Qed.

Lemma clean_parts_good p stack :
  Forall good_name p -> clean_parts true stack p = reverse stack ++ p.
Proof.
  revert stack. induction p as [|n p IH]; intros stack Hg; simpl; [by rewrite app_nil_r|].
  apply Forall_cons in Hg as [Hn Hp]. destruct Hn as [Hne _ Hdot Hdots _].
  rewrite (proj2 (String.eqb_neq _ _) Hdot).
  assert (String.eqb n ".." = false) as -> by (apply String.eqb_neq; intros ->; done).
  destruct n as [|c n]; [done|]. simpl. rewrite IH by done. by rewrite reverse_cons, <- app_assoc.
Qed.

Lemma resolve_key_of p : Forall good_name p -> resolve (key_of p) = Ok p.
Proof.
  intros Hg. unfold resolve.
  assert (path_clean ("/" +:+ key_of p) = "/" +:+ key_of p)%string as ->.
  { unfold path_clean. simpl. f_equal. destruct p as [|n p]; [done|].
    change ("" +:+ key_of (n :: p)) with (key_of (n :: p)).
    by rewrite split_key_of, clean_parts_good. }
  change (trim_prefix_slash ("/" +:+ key_of p)) with (key_of p). simpl. rewrite key_of_no_dots, parts_key_of by done. done.
Qed.

(** A key does not end in a slash. *)
Lemma has_suffix_slash_cons d s :
  has_suffix "/" (String d s) = if str_empty s then Ascii.eqb slash d else has_suffix "/" s.
Proof.
  assert (forall s acc acc', str_empty s = false ->
    has_prefix "/" (str_rev s acc) = has_prefix "/" (str_rev s acc')) as Hind.
  { clear. induction s as [|e s IH]; [done|]. intros acc acc' _. simpl.
    destruct s as [|e' s]; [done|]. by apply IH. }
  unfold has_suffix. simpl. destruct s as [|e s]; simpl; [by rewrite andb_true_r|].
  apply (Hind (String e s)). done.
Qed.

Lemma has_suffix_slash_app a b : b <> EmptyString -> has_suffix "/" (a +:+ b) = has_suffix "/" b.
Proof.
  intros Hb. induction a as [|c a IH]; [done|]. change (String c a +:+ b) with (String c (a +:+ b)).
  rewrite has_suffix_slash_cons, IH.
  by destruct a, b.
Qed.

Lemma good_name_no_suffix n : good_name n -> has_suffix "/" n = false.
Proof.
  intros [Hne Hs _ _ _]. clear -Hne Hs.
  induction n as [|c n IH]; [done|]. rewrite has_suffix_slash_cons. simpl in Hs.
  destruct (Ascii.eqb c slash) eqn:E; [by destruct (split_on slash n)|].
  destruct n as [|d n]; simpl str_empty; cbv iota; [by rewrite Ascii.eqb_sym|].
  apply IH; [done|]. destruct (split_on slash (String d n)) as [|w ws]; [done|]. by injection Hs as -> ->.
Qed.

Lemma key_of_no_suffix p : p <> [] -> Forall good_name p -> has_suffix "/" (key_of p) = false.
Proof.
  intros Hne Hg. destruct p as [|n p _] using rev_ind; [done|].
  apply Forall_app in Hg as [_ Hn%Forall_inv].
  destruct p as [|m p]; [exact (good_name_no_suffix n Hn)|].
  rewrite key_of_snoc, <- str_app_assoc, has_suffix_slash_app by (done || by apply gn_nonempty).
  by apply good_name_no_suffix.
Qed.

Lemma key_of_no_prefix p : p <> [] -> Forall good_name p -> trim_prefix_slash (key_of p) = key_of p.
Proof.
  intros Hne Hg. destruct p as [|n p]; [done|]. apply Forall_cons in Hg as [[Hn Hs _ _ _] _].
  destruct n as [|c n]; [done|]. simpl in Hs.
  assert (Ascii.eqb c slash = false) as Hc.
  { destruct (Ascii.eqb c slash); [|done]. by destruct (split_on slash n). }
  unfold key_of. destruct p; simpl; by rewrite Hc.
Qed.

Lemma child_key_of p n : p <> [] -> Forall good_name p -> child_key (key_of p) n = key_of (p ++ [n]).
Proof.
  intros Hne Hg. unfold child_key, base_prefix, trim_suffix_slash, cut_suffix.
  rewrite key_of_no_prefix, key_of_no_suffix by done. simpl.
  rewrite key_of_snoc by done. destruct p as [|m p]; [done|].
  pose proof (key_of_nonempty m p (Forall_inv Hg)). by destruct (key_of (m :: p)).
Qed.

(** ** The directory transport is an object store *)

Record tree_ok (n : gmap path fnode) : Prop := {
  to_good : forall p f, n !! p = Some f -> Forall good_name p;
  to_tree : forall p f q, n !! p = Some f -> q `prefix_of` p -> q <> p -> n !! q = Some FDir;
  to_root : forall b, n !! [] <> Some (FFile b);
}.

Definition file_entry (e : path * fnode) : option (string * bytes) :=
  match e.2 with FDir => None | FFile b => Some (key_of e.1, b) end.

Definition dir_objects (s : FS) : gmap string bytes :=
  list_to_map (omap file_entry (map_to_list (fs_nodes s))).

Definition dir_key (k : string) : Prop := exists p, p <> [] /\ Forall good_name p /\ k = key_of p.

Lemma tree_ok_empty : tree_ok ∅.
Proof. split; intros; by rewrite lookup_empty in *. Qed.

Lemma elem_of_file_entries n k b :
  (k, b) ∈ omap file_entry (map_to_list n) <-> exists p, k = key_of p /\ n !! p = Some (FFile b).
Proof.
  rewrite list_elem_of_omap. unfold file_entry. split.
  - intros ([p [|b']] & Hin%elem_of_map_to_list & He); simplify_eq/=. eauto.
  - intros (p & -> & Hp). exists (p, FFile b). by rewrite elem_of_map_to_list.
Qed.

Lemma dir_objects_lookup s k b :
  tree_ok (fs_nodes s) ->
  dir_objects s !! k = Some b <-> exists p, k = key_of p /\ fs_nodes s !! p = Some (FFile b).
Proof.
  intros Hok. unfold dir_objects. rewrite <- elem_of_file_entries. split.
  - apply elem_of_list_to_map_2.
  - intros Hin. apply elem_of_list_to_map_1'; [|done]. intros b' Hin'.
    apply elem_of_file_entries in Hin as (p & -> & Hp), Hin' as (p' & Heq & Hp').
    rewrite (key_of_inj p p') in Hp by eauto using to_good. congruence.
Qed.

Lemma dir_objects_key s p :
  tree_ok (fs_nodes s) -> Forall good_name p ->
  dir_objects s !! key_of p = match fs_nodes s !! p with Some (FFile b) => Some b | _ => None end.
Proof.
  intros Hok Hg. apply option_eq. intros b. rewrite dir_objects_lookup by done. split.
  - intros (q & Heq & Hq). apply key_of_inj in Heq as ->; [|done|by eapply to_good]. by rewrite Hq.
  - destruct (fs_nodes s !! p) as [[|b']|] eqn:E; [done| |done]. intros [= ->]. eauto.
Qed.

(** Two trees with the same files have the same objects. *)
Lemma dir_objects_ext s s' :
  tree_ok (fs_nodes s) -> tree_ok (fs_nodes s') ->
  (forall p b, fs_nodes s' !! p = Some (FFile b) <-> fs_nodes s !! p = Some (FFile b)) ->
  dir_objects s' = dir_objects s.
Proof.
  intros H1 H2 Hf. apply map_eq. intros k. apply option_eq. intros b.
  rewrite !dir_objects_lookup by done. by setoid_rewrite Hf.
Qed.

Lemma through_file_false n p :
  through_file n p = false -> forall i b, (i < length p)%nat -> n !! take i p <> Some (FFile b).
Proof.
  unfold through_file. intros Ht i b Hi Hn. apply not_true_iff_false in Ht. apply Ht.
  apply existsb_exists. exists i. split; [apply in_seq; lia|]. by rewrite Hn.
Qed.

(** [mkdirs] adds the missing prefixes and nothing else. *)
Lemma mkdirs_lookup n p q :
  mkdirs n p !! q = match n !! q with
                    | Some f => Some f
                    | None => if decide (q `prefix_of` p) then Some FDir else None
                    end.
Proof.
  unfold mkdirs.
  assert (forall l, foldr (fun i n => match n !! take i p with None => <[take i p := FDir]> n | Some _ => n end) n l !! q
    = match n !! q with
      | Some f => Some f
      | None => if decide (q ∈ (fun i => take i p) <$> l) then Some FDir else None
      end) as Hfold.
  { induction l as [|i l IH].
    { cbn [foldr]. rewrite fmap_nil. destruct (n !! q); [done|].
      rewrite decide_False; [done|]. by intros ?%elem_of_nil. }
    rewrite fmap_cons. simpl. destruct (foldr _ n l !! take i p) as [f|] eqn:Ef.
    - rewrite IH. destruct (n !! q) eqn:En; [done|]. apply decide_ext. rewrite elem_of_cons.
      split; [auto|]. intros [->|?]; [|done]. rewrite Ef in IH. by case_decide.
    - rewrite lookup_insert. destruct (decide (take i p = q)) as [Hq|Hq].
      + subst q. rewrite Ef in IH. destruct (n !! take i p) eqn:En; [done|].
        rewrite decide_True; [done|left].
      + rewrite IH. destruct (n !! q); [done|]. apply decide_ext. rewrite elem_of_cons. naive_solver. }
  rewrite Hfold. destruct (n !! q); [done|]. apply decide_ext. rewrite list_elem_of_fmap. split.
  - intros (i & -> & _). apply prefix_take.
  - intros [k ->]. exists (length q). split; [by rewrite take_app_length|].
    apply elem_of_seq. rewrite length_app. lia.
Qed.

Lemma prefix_removelast (q p : path) : q `prefix_of` p -> q <> p -> q `prefix_of` removelast p.
Proof.
  intros [k ->] Hne. destruct k as [|x k _] using rev_ind; [by rewrite app_nil_r in Hne|].
  rewrite app_assoc, removelast_last. by apply prefix_app_r.
Qed.

Lemma removelast_prefix (p : path) : removelast p `prefix_of` p.
Proof.
  destruct p as [|x p _] using rev_ind; [done|]. rewrite removelast_last. by apply prefix_app_r.
Qed.

Lemma Forall_prefix {A} (P : A -> Prop) (p q : list A) : q `prefix_of` p -> Forall P p -> Forall P q.
Proof. intros [k ->]. by intros [? _]%Forall_app. Qed.

(** A successful [os.MkdirAll]: the ancestors are directories, no file
    changed. *)
Lemma MkdirAll_spec p s s' r :
  tree_ok (fs_nodes s) -> Forall good_name p -> os_MkdirAll p s = (s', r) ->
  tree_ok (fs_nodes s') /\ dir_objects s' = dir_objects s /\
  (forall q b, fs_nodes s' !! q = Some (FFile b) <-> fs_nodes s !! q = Some (FFile b)) /\
  (r = Ok tt -> forall q, q `prefix_of` p -> fs_nodes s' !! q = Some FDir).
Proof.
  intros Hok Hg. unfold os_MkdirAll. destruct (fs_nodes s !! p) as [[|b]|] eqn:Ep.
  - intros [= <- <-]. split_and!; [done..|]. intros _ q Hq.
    destruct (decide (q = p)) as [->|]; [done|by eapply to_tree].
  - intros [= <- <-]. by split_and!.
  - destruct (through_file (fs_nodes s) p) eqn:Et; intros [= <- <-]; [by split_and!|].
    simpl. pose proof (through_file_false _ _ Et) as Hnf.
    assert (forall q b, q `prefix_of` p -> fs_nodes s !! q <> Some (FFile b)) as Hnof.
    { intros q b [k ->] Hq. destruct (decide (k = [])) as [->|Hk]; [by rewrite app_nil_r in Ep; congruence|].
      apply (Hnf (length q) b); [|by rewrite take_app_length].
      rewrite length_app. destruct k; [done|]. simpl. lia. }
    assert (forall q b, mkdirs (fs_nodes s) p !! q = Some (FFile b) <-> fs_nodes s !! q = Some (FFile b)) as Hfiles.
    { intros q b. rewrite mkdirs_lookup. destruct (fs_nodes s !! q); [done|]. by case_decide. }
    assert (forall q, q `prefix_of` p -> mkdirs (fs_nodes s) p !! q = Some FDir) as Hdirs.
    { intros q Hq. rewrite mkdirs_lookup. destruct (fs_nodes s !! q) as [[|b]|] eqn:E; [done| |by rewrite decide_True].
      by destruct (Hnof q b Hq). }
    assert (tree_ok (mkdirs (fs_nodes s) p)) as Hok'.
    { split.
      - intros q f. rewrite mkdirs_lookup. destruct (fs_nodes s !! q) eqn:E; [intros _; by eapply to_good|].
        case_decide; [|done]. intros _. by eapply Forall_prefix.
      - intros q f q' Hq Hpre Hne. rewrite mkdirs_lookup in Hq.
        destruct (fs_nodes s !! q) as [f'|] eqn:E.
        + rewrite mkdirs_lookup. by rewrite (to_tree _ Hok _ _ _ E Hpre Hne).
        + case_decide; [|done]. apply Hdirs. by etrans.
      - intros b. rewrite Hfiles. apply (to_root _ Hok). }
    split_and!; [done| |done|done]. by apply dir_objects_ext.
Qed.

(** Writing the file at [p]. *)
Lemma tree_ok_insert n p b :
  tree_ok n -> p <> [] -> Forall good_name p -> n !! p <> Some FDir ->
  (forall q, q `prefix_of` removelast p -> n !! q = Some FDir) -> tree_ok (<[p := FFile b]> n).
Proof.
  intros Hok Hne Hg Hnd Hdirs. split.
  - intros q f. rewrite lookup_insert. case_decide; [by subst|]. by apply to_good.
  - intros q f q'. rewrite lookup_insert. case_decide; subst.
    + intros _ Hpre Hne'. rewrite lookup_insert_ne by done. by apply Hdirs, prefix_removelast.
    + intros Hq Hpre Hne'. pose proof (to_tree _ Hok _ _ _ Hq Hpre Hne') as Hq'.
      rewrite lookup_insert_ne; [done|]. intros ->. congruence.
  - intros b'. rewrite lookup_insert_ne by done. apply (to_root _ Hok).
Qed.

Lemma dir_objects_insert n u u' p b :
  tree_ok n -> tree_ok (<[p := FFile b]> n) -> Forall good_name p ->
  dir_objects (mkFS (<[p := FFile b]> n) u') = <[key_of p := b]> (dir_objects (mkFS n u)).
Proof.
  intros Hok Hok' Hg. apply map_eq. intros k. apply option_eq. intros b'.
  rewrite dir_objects_lookup by done. rewrite lookup_insert. simpl. case_decide as Hk.
  - subst k. split.
    + intros (q & Heq & Hq). apply key_of_inj in Heq as <-; [|done|by eapply (to_good _ Hok')].
      rewrite lookup_insert_eq in Hq. congruence.
    + intros [= ->]. exists p. by rewrite lookup_insert_eq.
  - rewrite dir_objects_lookup by done. simpl. split; intros (q & -> & Hq); exists q; (split; [done|]).
    + by rewrite lookup_insert_ne in Hq by congruence.
    + by rewrite lookup_insert_ne by congruence.
Qed.

(** No visible file has the name of a temporary one. *)
Lemma hidden_tmp n u : hidden (n +:+ ".tmp-" +:+ u) = true.
Proof.
  assert (contains ".tmp-" (n +:+ ".tmp-" +:+ u) = true) as Hc.
  { induction n as [|c n IH].
    - by destruct u.
    - change (contains ".tmp-" (String c n +:+ ".tmp-" +:+ u)) with
        (has_prefix ".tmp-" (String c (n +:+ ".tmp-" +:+ u)) || contains ".tmp-" (n +:+ ".tmp-" +:+ u)).
      by rewrite IH, orb_true_r. }
  unfold hidden. by rewrite Hc, orb_true_r.
Qed.

Lemma tmp_absent n p u : tree_ok n -> p <> [] -> n !! append_name (".tmp-" +:+ u) p = None.
Proof.
  intros Hok Hne. destruct (n !! _) eqn:E; [|done]. exfalso.
  apply (to_good _ Hok) in E. unfold append_name in E.
  destruct p as [|x p _] using rev_ind; [done|]. rewrite last_snoc, Forall_app in E.
  destruct E as [_ E%Forall_inv]. pose proof (gn_visible _ E) as Hh. by rewrite hidden_tmp in Hh.
Qed.

Section Store.
Context (uuid : nat -> string).

Lemma put_spec p rd atomic s s' r :
  tree_ok (fs_nodes s) -> p <> [] -> Forall good_name p ->
  put uuid (key_of p) rd atomic s = (s', r) ->
  tree_ok (fs_nodes s') /\
  match r with
  | Ok _ => rd_err rd = None /\ dir_objects s' = <[key_of p := rd_data rd]> (dir_objects s)
  | Fail _ => dir_objects s' = dir_objects s
  end.
Proof.
  intros Hok Hne Hg. unfold put. rewrite resolve_key_of by done.
  erewrite bind_Ok by reflexivity. rewrite bool_decide_eq_false_2 by done.
  destruct (os_MkdirAll (removelast p) s) as [s1 r1] eqn:Em.
  destruct (MkdirAll_spec _ _ _ _ Hok (Forall_prefix _ _ _ (removelast_prefix p) Hg) Em)
    as (Hok1 & Hobj & _ & Hdirs).
  destruct r1 as [[]|e]; [|rewrite (bind_Fail _ _ _ _ _ Em); by intros [= <- <-]].
  rewrite (bind_Ok _ _ _ _ _ Em). specialize (Hdirs eq_refl).
  erewrite bind_Ok by reflexivity. erewrite bind_Ok by reflexivity. cbv zeta.
  erewrite bind_Ok by reflexivity. simpl fs_nodes. rewrite tmp_absent by done.
  erewrite bind_Ok by reflexivity. rewrite (delete_insert_id (fs_nodes s1)) by by apply tmp_absent.
  destruct (rd_err rd) as [e|] eqn:Er; [by intros [= <- <-]|].
  assert (fs_nodes s1 !! p <> Some FDir ->
    tree_ok (<[p := FFile (rd_data rd)]> (fs_nodes s1)) /\ dir_objects
      (mkFS (<[p := FFile (rd_data rd)]> (fs_nodes s1)) (S (fs_uuids s1))) =
      <[key_of p := rd_data rd]> (dir_objects s)) as Hins.
  { intros Hnd. pose proof (tree_ok_insert _ p (rd_data rd) Hok1 Hne Hg Hnd Hdirs) as Hok2.
    split; [done|]. rewrite <- Hobj. destruct s1 as [n1 u1]. by apply dir_objects_insert. }
  cbn [fs_nodes]. destruct (fs_nodes s1 !! p) as [[|b]|];
    (intros E; injection E as <- <-); simpl;
    [done|split; [by apply Hins|split; [done|by apply Hins]]..].
Qed.

Lemma Get_spec k s s' r :
  tree_ok (fs_nodes s) -> Get k s = (s', r) -> s' = s /\
  (dir_key k -> match dir_objects s !! k with
                | Some b => r = Ok (bytes_reader b)
                | None => forall rd, r = Ok rd -> is_Some (rd_err rd)
                end).
Proof.
  intros Hok E. assert (s' = s) as ->.
  { assert (mono eq (Get k)) as Hm by (unfold Get; mono_solve). by apply (mono_run eq _ _ _ _ Hm) in E. }
  split; [done|]. intros (p & Hne & Hg & ->). rewrite dir_objects_key by done.
  unfold Get in E. rewrite resolve_key_of in E by done. unfold lookup_node in E.
  erewrite bind_Ok in E by reflexivity. erewrite bind_Ok in E by reflexivity.
  destruct (fs_nodes s !! p) as [[|b]|]; simpl in E.
  - injection E as <-. by intros rd [= <-].
  - by injection E as <-.
  - unfold mbind, M_bind, of_result in E. destruct (through_file _ p); injection E as <-; done.
Qed.

Lemma List_spec p s s' r :
  tree_ok (fs_nodes s) -> List_ p s = (s', r) -> s' = s /\
  forall l o, r = Ok l -> o ∈ l -> dir_key (o_Key o) /\ is_Some (dir_objects s !! o_Key o).
Proof.
  intros Hok E. assert (s' = s) as ->.
  { assert (mono eq (List_ p)) as Hm by (unfold List_; mono_solve). by apply (mono_run eq _ _ _ _ Hm) in E. }
  split; [done|]. intros l o -> Ho. unfold List_ in E.
  apply bind_Ok_inv in E as (s1 & root & E1 & E). apply bind_Ok_inv in E as (s2 & n & E2 & E).
  injection E2 as <- <-. assert (s1 = s) as -> by (by injection E1).
  assert (l = [] \/ l = omap (file_object root) (entries (fs_nodes s))) as [->| ->].
  { destruct (lookup_node (fs_nodes s) root) as [f|[]]; cbv [mret M_ret fail] in E;
      simplify_eq; auto. }
  { by apply elem_of_nil in Ho. }
  apply list_elem_of_omap in Ho as ([q f] & Hin & Hf). unfold entries in Hin.
  rewrite elem_of_sort_slice, elem_of_map_to_list in Hin. unfold file_object in Hf. simpl in Hf.
  destruct f as [|b]; [done|]. case_match; [done|]. injection Hf as <-. simpl.
  pose proof (to_good _ Hok _ _ Hin) as Hg. split.
  - exists q. split_and!; [|done|done]. intros ->. by apply (to_root _ Hok b).
  - rewrite dir_objects_key by done. by rewrite Hin.
Qed.

Lemma read_level_spec {A} (pick : string -> fnode -> option A) p s s' r :
  tree_ok (fs_nodes s) -> read_level pick p s = (s', r) -> s' = s /\
  forall q l x, Forall good_name q -> q <> [] -> p = key_of q -> r = Ok l -> x ∈ l ->
    exists name f, fs_nodes s !! (q ++ [name]) = Some f /\ pick name f = Some x.
Proof.
  intros Hok E. assert (s' = s) as ->.
  { assert (mono eq (read_level pick p)) as Hm by (unfold read_level; mono_solve).
    by apply (mono_run eq _ _ _ _ Hm) in E. }
  split; [done|]. intros q l x Hg Hne -> -> Hx. unfold read_level, resolve_prefix in E.
  assert (str_empty (key_of q) = false) as He.
  { destruct q as [|m q]; [done|]. pose proof (key_of_nonempty m q (Forall_inv Hg)).
    by destruct (key_of (m :: q)). }
  rewrite He, resolve_key_of in E by done.
  erewrite bind_Ok in E by reflexivity. erewrite bind_Ok in E by reflexivity.
  unfold os_ReadDir in E. destruct (lookup_node (fs_nodes s) q) as [[|b]|e]; simpl in E.
  2: { done. }
  2: { destruct (errors_Is is_NotExist e); [|done]. injection E as <-. by apply elem_of_nil in Hx. }
  injection E as <-. apply list_elem_of_omap in Hx as ([name f] & Hin & Hp).
  apply list_elem_of_omap in Hin as ([q' f'] & Hin & Hq'). simpl in Hq'.
  destruct (Nat.eqb_spec (length q') (S (length q))) as [Hlen|]; [|done].
  case_bool_decide as Hpre; [|done]. injection Hq' as <- <-.
  unfold entries in Hin. rewrite elem_of_sort_slice, elem_of_map_to_list in Hin.
  destruct Hpre as [k ->]. rewrite length_app in Hlen.
  destruct k as [|n [|? k]]; simpl in Hlen; [lia| |lia].
  unfold base_name in Hp. rewrite last_snoc in Hp. simpl in Hp.
  destruct (hidden n); [done|]. eauto.
Qed.

Lemma has_prefix_app a b c : has_prefix (a +:+ b) (a +:+ c) = has_prefix b c.
Proof.
  induction a as [|x a IH]; [done|].
  change (Ascii.eqb x x && has_prefix (a +:+ b) (a +:+ c) = has_prefix b c).
  by rewrite Ascii.eqb_refl, IH.
Qed.

Lemma key_of_below p x k : p <> [] -> has_prefix (key_of p +:+ "/") (key_of (p ++ x :: k)) = true.
Proof.
  intros Hne. unfold key_of. induction p as [|y p IH]; [done|]. destruct p as [|z p].
  - simpl app. rewrite (join_cons y (x :: k)) by done. simpl join_with at 1. by rewrite has_prefix_app.
  - change ((y :: z :: p) ++ x :: k) with (y :: ((z :: p) ++ x :: k)).
    rewrite (join_cons y (z :: p)), (join_cons y ((z :: p) ++ x :: k)) by done.
    rewrite !str_app_assoc, !has_prefix_app. by apply IH.
Qed.

Lemma Remove_spec p s s' r :
  tree_ok (fs_nodes s) -> p <> [] -> Forall good_name p -> Remove (key_of p) s = (s', r) ->
  tree_ok (fs_nodes s') /\ dir_objects s' ⊆ dir_objects s /\
  (forall k, is_Some (dir_objects s !! k) -> dir_objects s' !! k = None ->
     k = key_of p \/ has_prefix (key_of p +:+ "/") k = true) /\
  (r = Ok tt -> dir_objects s' !! key_of p = None).
Proof.
  intros Hok Hne Hg. unfold Remove. rewrite resolve_key_of by done.
  erewrite bind_Ok by reflexivity. erewrite bind_Ok by reflexivity.
  destruct (through_file _ p).
  { intros [= <- <-]. split_and!; [done..| |done]. intros k [b Hb]. congruence. }
  intros [= <- <-]. simpl.
  set (n' := filter (fun e => ~ p `prefix_of` e.1) (fs_nodes s)).
  assert (forall q f, n' !! q = Some f <-> fs_nodes s !! q = Some f /\ ~ p `prefix_of` q) as Hn.
  { intros q f. unfold n'. by rewrite map_lookup_filter_Some. }
  assert (tree_ok n') as Hok'.
  { split.
    - intros q f [Hq _]%Hn. by eapply to_good.
    - intros q f q' [Hq Hnp]%Hn Hpre Hneq. apply Hn. split; [by eapply to_tree|].
      intros Hp. apply Hnp. by etrans.
    - intros b [Hb _]%Hn. by eapply to_root. }
  split_and!; [done| | |].
  - apply map_subseteq_spec. intros k b. rewrite !dir_objects_lookup by done. simpl.
    intros (q & -> & [Hq _]%Hn). eauto.
  - intros k [b (q & -> & Hq)%dir_objects_lookup] Hnone; [|done].
    assert (Forall good_name q) as Hgq by exact (to_good _ Hok _ _ Hq).
    rewrite dir_objects_key in Hnone by done. simpl in Hnone.
    destruct (decide (p `prefix_of` q)) as [[k ->]|Hnp].
    + destruct k as [|x k]; [left; by rewrite app_nil_r|right]. by apply key_of_below.
    + assert (n' !! q = Some (FFile b)) as E by by apply Hn. by rewrite E in Hnone.
  - intros _. rewrite dir_objects_key by done. simpl. destruct (n' !! p) eqn:E; [|done].
    apply Hn in E as [_ []]. done.
Qed.

Lemma shallow_key q n f s :
  tree_ok (fs_nodes s) -> Forall good_name q -> q <> [] -> fs_nodes s !! (q ++ [n]) = Some f ->
  child_key (key_of q) n = key_of (q ++ [n]) /\ dir_key (child_key (key_of q) n).
Proof.
  intros Hok Hg Hne Hf. rewrite child_key_of by done. split; [done|].
  exists (q ++ [n]). split_and!; [by destruct q|by eapply to_good|done].
Qed.

(** The directory transport keeps the promises of [ObjectStore]: every visible
    file is an object, writes are atomic (a failed write changes nothing) and
    removal stays below the key. *)
#[global] Program Instance directory_store : ObjectStore (directory uuid) := {|
  objects := dir_objects;
  store_inv s := tree_ok (fs_nodes s);
  store_key := dir_key;
  store_prefix := dir_key;
|}.
Next Obligation. intros k s s' r Hok E. by destruct (Get_spec _ _ _ _ Hok E) as [-> ?]. Qed.
Next Obligation. intros p s s' r Hok E. by destruct (List_spec _ _ _ _ Hok E) as [-> ?]. Qed.
Next Obligation.
  intros f p s s' r Hok [= <-] E. destruct (read_level_spec _ _ _ _ _ Hok E) as [-> Hl].
  split_and!; [done..|]. intros (q & Hne & Hg & ->) l o -> Ho.
  destruct (Hl q l o Hg Hne eq_refl eq_refl Ho) as (n & [|b] & Hn & Hp); [done|]. injection Hp as <-.
  destruct (shallow_key q n _ _ Hok Hg Hne Hn) as [Hk Hd]. simpl. split; [done|].
  rewrite Hk, (dir_objects_key s _ Hok (to_good _ Hok _ _ Hn)). by rewrite Hn.
Qed.
Next Obligation.
  intros p s s' r Hok E. destruct (read_level_spec _ _ _ _ _ Hok E) as [-> Hl].
  split_and!; [done..|]. intros (q & Hne & Hg & ->) l d -> Hd.
  destruct (Hl q l d Hg Hne eq_refl eq_refl Hd) as (n & [|b] & Hn & Hp); [|done]. injection Hp as <-.
  exact (proj2 (shallow_key q n _ _ Hok Hg Hne Hn)).
Qed.
Next Obligation. intros k rd s s' r Hok (p & Hne & Hg & ->) E. exact (put_spec p rd true s s' r Hok Hne Hg E). Qed.
Next Obligation. intros k s s' r Hok (p & Hne & Hg & ->) E. exact (Remove_spec p s s' r Hok Hne Hg E). Qed.
End Store.

(** A write to the directory transport that succeeds is read back exactly, one that fails (a
    reader error included) leaves every object as it was, and no other object is touched either way.
    *)
Theorem PutAtomic_Get (uuid : nat -> string) (p : path) (rd : Reader) (s s' : FS) (r : result unit) :
  tree_ok (fs_nodes s) -> p <> [] -> Forall good_name p ->
  PutAtomic uuid (key_of p) rd s = (s', r) ->
  tree_ok (fs_nodes s') /\
  (r = Ok tt -> Get (key_of p) s' = (s', Ok (bytes_reader (rd_data rd)))) /\
  (r <> Ok tt -> dir_objects s' = dir_objects s) /\
  (rd_err rd <> None -> r <> Ok tt) /\
  (forall k, k <> key_of p -> dir_objects s' !! k = dir_objects s !! k).
Proof.
  intros Hok Hne Hg E. destruct (put_spec uuid p rd true s s' r Hok Hne Hg E) as [Hok' Hr].
  split; [done|]. destruct r as [[]|e].
  - destruct Hr as [Hrd Hobj]. split_and!; [|done|congruence|].
    + intros _. destruct (Get (key_of p) s') as [s2 r2] eqn:Eg.
      destruct (Get_spec _ _ _ _ Hok' Eg) as [-> Hget]. f_equal.
      specialize (Hget ltac:(exists p; done)). by rewrite Hobj, lookup_insert_eq in Hget.
    + intros k Hk. by rewrite Hobj, lookup_insert_ne.
  - rewrite Hr. by split_and!.
Qed.
