(* ===== verification/Equalize.v ===== *)
(** [internal/sync/equalize/equalize.go]: mirroring of the repository objects
    between endpoints. Each endpoint has its own state; the map iteration over
    the union of keys is a fixed enumeration of the set. *)

From S2P Require Import Prelude Database History Frontier Event Bundle Snapshot Device Transport Gc.

Definition skipKey (key : string) : bool :=
  is_tmp (default key (last (split_on slash key))) || has_prefix "metadata/health/" key.

(** [errors.Join(errs...)] *)
Definition errors_Join {S} (errs : list error) : M S unit :=
  match errs with
  | [] => mret tt
  | e :: es => fail (foldl EJoin e es)
  end.

Section Equalize.
(** The endpoints ([Named]): an identifier and a transport each, the i-th
    component of the world is the state of the i-th endpoint. *)
Context {I S : Type} (n_ID : I -> string) (n_Transport : I -> Transport S).
(** [json.Unmarshal] of the [counter] field alone. *)
Context (json_counter : bytes -> option Z).

Definition manifestCounter (raw : bytes) : Z := default (-1) (json_counter raw).

Definition World := list S.

Definition on (i : nat) {A} (m : M S A) : M World A := fun w =>
  match w !! i with
  | Some s => let '(s', r) := m s in (<[i := s']> w, r)
  | None => (w, Fail (EMsg "index out of range"))
  end.

(** [for _, ep := range endpoints { ... s.Begin ... }]: the [End] calls that
    are due, in the order they were deferred. *)
Fixpoint begin_all (eps : list (nat * I)) (closers : list (M World unit))
    : M World (list (M World unit) * option error) :=
  match eps with
  | [] => mret (closers, None)
  | (i, ep) :: eps =>
      match tr_Session (n_Transport ep) with
      | None => begin_all eps closers
      | Some (begin, end_) =>
          r ← try (on i begin);
          match r with
          | Fail e => mret (closers, Some (EWrap (n_ID ep) e))
          | Ok _ => begin_all eps (on i end_ :: closers)
          end
      end
  end.

(** The listing of one endpoint; a failed listing counts as empty. *)
Definition list_endpoint (i : nat) (ep : I) : M World (gset string * list error) :=
  r ← try (on i (ListLayoutObjects (n_Transport ep)));
  mret (match r with
        | Fail e => (∅, [EWrap (n_ID ep) e])
        | Ok objs => (list_to_set (o_Key <$> List.filter (fun o => negb (skipKey (o_Key o))) objs), [])
        end).

Fixpoint list_all (eps : list (nat * I)) : M World (list (gset string) * list error) :=
  match eps with
  | [] => mret ([], [])
  | (i, ep) :: eps =>
      '(h, e) ← list_endpoint i ep;
      '(hs, es) ← list_all eps;
      mret (h :: hs, e ++ es)
  end.

Definition copy_to (key : string) (raw : bytes) (srcCounter : Z) (dest : nat * I) : M World (list error) :=
  let '(di, ep) := dest in
  skip ← (if String.eqb key "metadata/manifest" && (0 <=? srcCounter) then
            r ← try (on di (readAll (n_Transport ep) key));
            mret (match r with
                  | Ok destRaw => srcCounter <=? manifestCounter destRaw
                  | Fail _ => false
                  end)
          else mret false);
  if (skip : bool) then mret []
  else
    r ← try (on di (tr_PutAtomic (n_Transport ep) key (bytes_reader raw)));
    mret (match r with Ok _ => [] | Fail e => [EWrap (n_ID ep) e] end).

Fixpoint copy_all (key : string) (raw : bytes) (srcCounter : Z) (dests : list (nat * I))
    : M World (list error) :=
  match dests with
  | [] => mret []
  | d :: dests =>
      e ← copy_to key raw srcCounter d;
      es ← copy_all key raw srcCounter dests;
      mret (e ++ es)
  end.

(** [sources] and [dests] of a key. *)
Definition has_key (have : list (gset string)) (key : string) (e : nat * I) : bool :=
  bool_decide (key ∈ default ∅ (have !! e.1)).

Definition mirror_key (eps : list (nat * I)) (have : list (gset string)) (key : string)
    : M World (list error) :=
  let sources := List.filter (has_key have key) eps in
  let dests := List.filter (fun e => negb (has_key have key e)) eps in
  match sources, dests with
  | [], _ => mret []
  | _, [] => mret []
  | (si, src) :: _, _ =>
      r ← try (on si (readAll (n_Transport src) key));
      match r with
      | Fail e => mret [EWrap (n_ID src) e]
      | Ok raw =>
          let srcCounter := if String.eqb key "metadata/manifest" then manifestCounter raw else -1 in
          copy_all key raw srcCounter dests
      end
  end.

Fixpoint mirror_keys (eps : list (nat * I)) (have : list (gset string)) (keys : list string)
    : M World (list error) :=
  match keys with
  | [] => mret []
  | k :: keys =>
      e ← mirror_key eps have k;
      es ← mirror_keys eps have keys;
      mret (e ++ es)
  end.

Definition union_keys (have : list (gset string)) : gset string := ⋃ have.

Definition mirror (eps : list (nat * I)) : M World unit :=
  '(have, errs) ← list_all eps;
  more ← mirror_keys eps have (elements (union_keys have));
  errors_Join (errs ++ more).

Definition Equalize (endpoints : list I) : M World unit :=
  if (length endpoints <? 2)%nat then mret tt
  else
    let eps := imap pair endpoints in
    '(closers, err) ← begin_all eps [];
    r ← try (match err with
             | Some e => fail e
             | None => mirror eps
             end);
    _ ← for_each closers (fun c => ignore c);
    of_result r.
End Equalize.

(** ** Nothing is overwritten, everything is mirrored *)

Section Mirror.
Context {I S : Type} (n_ID : I -> string) (n_Transport : I -> Transport S)
  (json_counter : bytes -> option Z) (endpoints : list I)
  `{Hstore : !forall ep, ObjectStore (n_Transport ep)}.
Hypothesis no_session : forall ep, tr_Session (n_Transport ep) = None.
Hypothesis events_prefix : forall ep, store_prefix (tr := n_Transport ep) "events".
Hypothesis keys_agree : forall ep ep' k,
  store_key (tr := n_Transport ep) k -> store_key (tr := n_Transport ep') k.

Notation obj ep s := (objects (tr := n_Transport ep) s).
Notation inv ep s := (store_inv (tr := n_Transport ep) s).

Definition world_ok (w : World) : Prop :=
  length w = length endpoints /\
  forall i ep s, endpoints !! i = Some ep -> w !! i = Some s -> inv ep s.

Definition listed (have : list (gset string)) (i : nat) : gset string := default ∅ (have !! i).

(** The protected objects are untouched, and no key disappears. *)
Definition keeps_listed (prot : nat -> gset string) : relation World := fun w w' =>
  world_ok w -> world_ok w' /\
  forall i ep s, endpoints !! i = Some ep -> w !! i = Some s ->
    exists s', w' !! i = Some s' /\ dom (obj ep s) ⊆ dom (obj ep s') /\
      forall k, k ∈ prot i -> obj ep s' !! k = obj ep s !! k.

#[local] Instance keeps_listed_preorder prot : PreOrder (keeps_listed prot).
Proof.
  split.
  - intros w Hw. split; [done|]. intros i ep s _ Hs. exists s. by split_and!.
  - intros w1 w2 w3 H12 H23 Hw. destruct (H12 Hw) as [Hw2 R12]. destruct (H23 Hw2) as [Hw3 R23].
    split; [done|]. intros i ep s Hep Hs. destruct (R12 _ _ _ Hep Hs) as (s2 & Hs2 & Hd2 & Hk2).
    destruct (R23 _ _ _ Hep Hs2) as (s3 & Hs3 & Hd3 & Hk3). exists s3. split_and!; [done|by etrans|].
    intros k Hk. by rewrite Hk3, Hk2.
Qed.

(** A step at one endpoint that keeps its invariant and its listed objects. *)
Lemma on_keeps {A} prot i ep (m : M S A) :
  endpoints !! i = Some ep ->
  (forall s, inv ep s -> inv ep (m s).1 /\ dom (obj ep s) ⊆ dom (obj ep (m s).1) /\
     forall k, k ∈ prot i -> obj ep (m s).1 !! k = obj ep s !! k) ->
  mono (keeps_listed prot) (on i m).
Proof.
  intros Hi Hm w [Hlen Hinv]. unfold on. destruct (w !! i) as [s|] eqn:Ei.
  2: { split; [by split|]. intros j ep' s' _ Hs'. exists s'. by split_and!. }
  destruct (Hm s (Hinv _ _ _ Hi Ei)) as (Hs' & Hd & Hk). destruct (m s) as [s' r]. simpl in *.
  pose proof (lookup_lt_Some _ _ _ Ei) as Hlt. split; [split|].
  - by rewrite length_insert.
  - intros j ep' s0 Hj Hs0. destruct (decide (i = j)) as [->|Hne].
    + rewrite list_lookup_insert_eq in Hs0 by done. simplify_eq. done.
    + rewrite list_lookup_insert_ne in Hs0 by done. eauto.
  - intros j ep' s0 Hj Hs0. destruct (decide (i = j)) as [->|Hne].
    + rewrite list_lookup_insert_eq by done. simplify_eq. eauto.
    + rewrite list_lookup_insert_ne by done. eauto.
Qed.

Lemma on_same {A} prot i ep (m : M S A) :
  endpoints !! i = Some ep -> mono (same_objects (tr := n_Transport ep)) m ->
  mono (keeps_listed prot) (on i m).
Proof.
  intros Hi Hm. apply (on_keeps prot i ep m Hi). intros s Hs. destruct (Hm s Hs) as [? ->].
  by split_and!.
Qed.

Lemma readAll_same ep k : mono (same_objects (tr := n_Transport ep)) (readAll (n_Transport ep) k).
Proof. unfold readAll. mono_solve. Qed.

Lemma copy_to_keeps prot key raw c di ep :
  endpoints !! di = Some ep -> store_key (tr := n_Transport ep) key -> key ∉ prot di ->
  mono (keeps_listed prot) (copy_to n_ID n_Transport json_counter key raw c (di, ep)).
Proof.
  intros Hi Hk Hnot. unfold copy_to.
  assert (mono (keeps_listed prot) (on di (readAll (n_Transport ep) key))) as Hr
    by (eapply on_same; [done|apply readAll_same]).
  assert (mono (keeps_listed prot) (on di (tr_PutAtomic (n_Transport ep) key (bytes_reader raw)))) as Hp.
  { apply (on_keeps prot di ep _ Hi). intros s Hs.
    destruct (tr_PutAtomic _ _ _ s) as [s' r] eqn:E.
    destruct (store_put _ _ _ _ _ Hs Hk E) as [Hs' Hr']. simpl. destruct r as [u|e].
    - destruct Hr' as [_ ->]. split_and!; [done|rewrite dom_insert; set_solver|].
      intros k Hk'. rewrite lookup_insert_ne; [done|]. by intros ->.
    - rewrite Hr'. by split_and!. }
  mono_solve.
Qed.

(** The keys the loop works on are listed somewhere, hence store keys. *)
Definition eps : list (nat * I) := imap pair endpoints.

Lemma elem_of_eps i ep : (i, ep) ∈ eps <-> endpoints !! i = Some ep.
Proof.
  unfold eps. rewrite list_elem_of_lookup. setoid_rewrite list_lookup_imap. split.
  - intros (j & Hj). destruct (endpoints !! j) eqn:E; simplify_eq/=. done.
  - intros Hi. exists i. by rewrite Hi.
Qed.

Lemma copy_all_keeps prot key raw c dests :
  (forall di ep, (di, ep) ∈ dests -> endpoints !! di = Some ep /\ key ∉ prot di) ->
  (forall ep, store_key (tr := n_Transport ep) key) ->
  mono (keeps_listed prot) (copy_all n_ID n_Transport json_counter key raw c dests).
Proof.
  intros Hd Hk. induction dests as [|[di ep] dests IH]; simpl; [mono_step|].
  destruct (Hd di ep ltac:(left)) as [Hi Hnot].
  refine (mono_bind _ _ _ _ _); [by apply copy_to_keeps|]. intros e.
  refine (mono_bind _ _ _ _ _); [apply IH; intros; apply Hd; by right|]. intros es.
  mono_step.
Qed.

Lemma has_key_listed have key i ep : has_key (I := I) have key (i, ep) = true <-> key ∈ listed have i.
Proof. unfold has_key, listed. simpl. by rewrite bool_decide_eq_true. Qed.

Lemma mirror_key_keeps prot have key :
  (forall i, key ∉ listed have i -> key ∉ prot i) ->
  (forall ep, store_key (tr := n_Transport ep) key) ->
  mono (keeps_listed prot) (mirror_key n_ID n_Transport json_counter eps have key).
Proof.
  intros Hprot Hk. unfold mirror_key.
  destruct (List.filter (has_key have key) eps) as [|[si src] srcs] eqn:Es; [mono_step|].
  destruct (List.filter (fun e => negb (has_key have key e)) eps) as [|d ds] eqn:Ed;
    [mono_step|].
  assert ((si, src) ∈ eps) as Hsrc%elem_of_eps.
  { apply list_elem_of_In. apply (filter_In (has_key have key)). rewrite Es. by left. }
  refine (mono_bind _ _ _ _ _).
  { mono_step. eapply on_same; [done|apply readAll_same]. }
  intros [raw|e]; [|mono_step]. apply copy_all_keeps; [|done].
  intros di ep Hin. rewrite <- Ed in Hin. apply list_elem_of_In, filter_In in Hin as [Hin Hn].
  apply list_elem_of_In, elem_of_eps in Hin. split; [done|].
  apply Hprot. apply negb_true_iff, not_true_iff_false in Hn. by rewrite has_key_listed in Hn.
Qed.

Lemma mirror_keys_keeps prot have keys :
  (forall key i, key ∈ keys -> key ∉ listed have i -> key ∉ prot i) ->
  (forall key ep, key ∈ keys -> store_key (tr := n_Transport ep) key) ->
  mono (keeps_listed prot) (mirror_keys n_ID n_Transport json_counter eps have keys).
Proof.
  induction keys as [|k keys IH]; intros Hprot Hk; simpl; [mono_step|].
  refine (mono_bind _ _ _ _ _); [apply mirror_key_keeps; [intros i; apply Hprot; left|intros; apply Hk; left]|]. intros e.
  refine (mono_bind _ _ _ _ _); [apply IH; [intros k' i ?; apply Hprot|intros; apply Hk]; by right|]. intros es.
  mono_step.
Qed.

(** Reading and writing at one endpoint, by the laws of its store. *)
Lemma on_inv {A} i (m : M S A) w w' r s :
  w !! i = Some s -> on i m w = (w', r) -> w' = <[i := (m s).1]> w /\ r = (m s).2.
Proof. intros Hs. unfold on. rewrite Hs. destruct (m s). by intros [= <- <-]. Qed.

Lemma readAll_Ok ep k s s' b :
  inv ep s -> store_key (tr := n_Transport ep) k -> readAll (n_Transport ep) k s = (s', Ok b) ->
  obj ep s !! k = Some b.
Proof.
  intros Hs Hk (s1 & rd & Hg & Hr)%bind_Ok_inv.
  destruct (store_get _ _ _ _ Hs Hg) as (_ & _ & Hget). specialize (Hget Hk).
  unfold of_result, ReadAll in Hr. destruct (obj ep s !! k) as [b'|].
  - injection Hget as ->. by injection Hr as _ <-.
  - destruct (Hget rd eq_refl) as [e He]. by rewrite He in Hr.
Qed.

(** A copy that reports no error leaves the key at the destination. *)
Lemma copy_to_Ok key raw c di ep w w' :
  world_ok w -> endpoints !! di = Some ep -> store_key (tr := n_Transport ep) key ->
  copy_to n_ID n_Transport json_counter key raw c (di, ep) w = (w', Ok []) ->
  exists s', w' !! di = Some s' /\ is_Some (obj ep s' !! key) /\
    (key <> "metadata/manifest"%string -> obj ep s' !! key = Some raw).
Proof.
  intros [Hlen Hinv] Hi Hk. unfold copy_to.
  destruct (lookup_lt_is_Some_2 w di) as [s Hs]; [rewrite Hlen; by eapply lookup_lt_Some|].
  pose proof (lookup_lt_Some _ _ _ Hs) as Hlt.
  assert (forall w1 s1, w1 !! di = Some s1 -> inv ep s1 ->
    (r ← try (on di (tr_PutAtomic (n_Transport ep) key (bytes_reader raw)));
     mret (match r with Ok _ => [] | Fail e => [EWrap (n_ID ep) e] end)) w1 = (w', Ok []) ->
    exists s', w' !! di = Some s' /\ obj ep s' !! key = Some raw) as Hput.
  { intros w1 s1 Hs1 Hi1 E. unfold try, mbind, M_bind in E.
    destruct (on di _ w1) as [w2 r] eqn:Eon. destruct (on_inv _ _ _ _ _ _ Hs1 Eon) as [-> ->].
    destruct (tr_PutAtomic _ _ _ s1) as [s2 r2] eqn:Ep.
    destruct (store_put _ _ _ _ _ Hi1 Hk Ep) as [_ Hr]. simpl in E.
    destruct r2 as [u|e]; [|done]. injection E as <-. exists s2.
    rewrite list_lookup_insert_eq by (by eapply lookup_lt_Some). split; [done|].
    destruct Hr as [_ ->]. by rewrite lookup_insert_eq. }
  destruct (String.eqb_spec key "metadata/manifest") as [Hm|Hm]; simpl.
  2: { erewrite bind_Ok by reflexivity. intros (s' & ? & ?)%(Hput w s Hs (Hinv _ _ _ Hi Hs)). eauto. }
  destruct (0 <=? c); simpl.
  2: { erewrite bind_Ok by reflexivity. intros (s' & ? & ?)%(Hput w s Hs (Hinv _ _ _ Hi Hs)). eauto. }
  destruct (readAll (n_Transport ep) key s) as [s1 r1] eqn:Ers.
  assert (try (on di (readAll (n_Transport ep) key)) w = (<[di := s1]> w, Ok r1)) as Hread.
  { unfold try. destruct (on di _ w) as [w1 r] eqn:Eon.
    destruct (on_inv _ _ _ _ _ _ Hs Eon) as [-> ->]. by rewrite Ers. }
  erewrite bind_Ok by (by erewrite bind_Ok by exact Hread).
  destruct (readAll_same ep key s (Hinv _ _ _ Hi Hs)) as [Hs1 Ho1]. rewrite Ers in Hs1, Ho1. simpl in *.
  assert (<[di := s1]> w !! di = Some s1) as Hw1 by (by rewrite list_lookup_insert_eq).
  destruct r1 as [destRaw|e]; cbv beta iota.
  - destruct (c <=? manifestCounter json_counter destRaw).
    + intros [= <-]. exists s1. split; [done|]. split; [|done]. rewrite Ho1.
      rewrite (readAll_Ok _ _ _ _ _ (Hinv _ _ _ Hi Hs) Hk Ers). done.
    + intros (s' & ? & ?)%(Hput _ s1 Hw1 Hs1). eauto.
  - intros (s' & ? & ?)%(Hput _ s1 Hw1 Hs1). eauto.
Qed.

(** After [copy_all], every destination holds the key. *)
Lemma copy_all_Ok key raw c dests w w' :
  world_ok w -> NoDup dests.*1 -> (forall di ep, (di, ep) ∈ dests -> endpoints !! di = Some ep) ->
  (forall ep, store_key (tr := n_Transport ep) key) ->
  copy_all n_ID n_Transport json_counter key raw c dests w = (w', Ok []) ->
  forall di ep, (di, ep) ∈ dests -> exists s', w' !! di = Some s' /\ is_Some (obj ep s' !! key) /\
    (key <> "metadata/manifest"%string -> obj ep s' !! key = Some raw).
Proof.
  intros Hw Hnd Hd Hk. revert w Hw. induction dests as [|[di ep] dests IH]; intros w Hw E di' ep' Hin.
  { by apply elem_of_nil in Hin. }
  simpl in E. rewrite fmap_cons in Hnd. apply NoDup_cons in Hnd as [Hni Hnd].
  apply bind_Ok_inv in E as (w1 & e & E1 & E). apply bind_Ok_inv in E as (w2 & es & E2 & E).
  injection E as <- Ees. apply app_eq_nil in Ees as [-> ->].
  assert (endpoints !! di = Some ep) as Hi by (apply Hd; left).
  destruct (mono_run _ _ _ _ _ (copy_to_keeps (fun _ => ∅) key raw c di ep Hi (Hk _) ltac:(set_solver)) E1 Hw)
    as [Hw1 _].
  apply elem_of_cons in Hin as [[= -> ->]|Hin].
  2: { eapply IH; [done|intros; apply Hd; by right|exact Hw1|done|done]. }
  destruct (copy_to_Ok _ _ _ _ _ _ _ Hw Hi (Hk _) E1) as (s1 & Hs1 & [b Hb] & Hraw).
  assert (mono (keeps_listed (fun j => if decide (j = di) then {[key]} else ∅))
    (copy_all n_ID n_Transport json_counter key raw c dests)) as Hm.
  { apply copy_all_keeps; [|done]. intros dj epj Hj. split; [apply Hd; by right|].
    case_decide as Heq; [|set_solver]. subst. destruct Hni. apply list_elem_of_fmap. by exists (di, epj). }
  destruct (mono_run _ _ _ _ _ Hm E2 Hw1) as [_ Hk2].
  destruct (Hk2 _ _ _ Hi Hs1) as (s2 & Hs2 & _ & Hkey).
  exists s2. rewrite Hkey by (rewrite decide_True by done; set_solver).
  split; [done|]. split; [by rewrite Hb|done].
Qed.

(** *** Listing *)

(** Listing changes no object. *)
Definition same_world : relation World := fun w w' =>
  world_ok w -> world_ok w' /\
  forall i ep s, endpoints !! i = Some ep -> w !! i = Some s ->
    exists s', w' !! i = Some s' /\ obj ep s' = obj ep s.

#[local] Instance same_world_preorder : PreOrder same_world.
Proof.
  split.
  - intros w Hw. split; [done|]. eauto.
  - intros w1 w2 w3 H12 H23 Hw. destruct (H12 Hw) as [Hw2 R12]. destruct (H23 Hw2) as [Hw3 R23].
    split; [done|]. intros i ep s Hep Hs. destruct (R12 _ _ _ Hep Hs) as (s2 & Hs2 & Ho2).
    destruct (R23 _ _ _ Hep Hs2) as (s3 & Hs3 & Ho3). exists s3. split; [done|congruence].
Qed.

Lemma on_list_same i ep :
  endpoints !! i = Some ep -> mono same_world (on i (ListLayoutObjects (n_Transport ep))).
Proof.
  intros Hi w Hw.
  destruct (on_keeps (fun _ => ∅) i ep (ListLayoutObjects (n_Transport ep)) Hi) with (s := w) as [Hw' _].
  { intros s Hs. destruct (ListLayoutObjects_same s Hs) as [? ->]. by split_and!. }
  { done. }
  split; [done|]. intros j epj s Hj Hs. unfold on. destruct (w !! i) as [si|] eqn:Ei; [|eauto].
  pose proof (ListLayoutObjects_same (tr := n_Transport ep) si (proj2 Hw _ _ _ Hi Ei)) as [_ Ho].
  destruct (ListLayoutObjects (n_Transport ep) si) as [si' r]. simpl in *.
  destruct (decide (i = j)) as [->|Hne].
  - rewrite list_lookup_insert_eq by (by eapply lookup_lt_Some). simplify_eq. eauto.
  - rewrite list_lookup_insert_ne by done. eauto.
Qed.

Lemma list_endpoint_spec i ep w w' h errs :
  world_ok w -> endpoints !! i = Some ep ->
  list_endpoint n_ID n_Transport i ep w = (w', Ok (h, errs)) ->
  same_world w w' /\
  forall k, k ∈ h -> store_key (tr := n_Transport ep) k /\
    exists s, w !! i = Some s /\ is_Some (obj ep s !! k).
Proof.
  intros Hw Hi E. unfold list_endpoint in E. apply bind_Ok_inv in E as (w1 & r & E1 & E).
  pose proof (mono_run same_world _ _ _ _ (mono_try _ _ (on_list_same i ep Hi)) E1) as R.
  destruct (lookup_lt_is_Some_2 w i) as [s Hs]; [rewrite (proj1 Hw); by eapply lookup_lt_Some|].
  unfold try in E1. destruct (on i _ w) as [w2 r2] eqn:Eon.
  destruct (on_inv _ _ _ _ _ _ Hs Eon) as [-> ->]. injection E1 as E1 <-.
  destruct (ListLayoutObjects (n_Transport ep) s) as [s1 [objs|e]] eqn:El; injection E as <- <- <-;
    (split; [done|]); [|set_solver].
  intros k Hk. rewrite elem_of_list_to_set, list_elem_of_fmap in Hk. destruct Hk as (o & -> & Ho).
  apply list_elem_of_In, filter_In in Ho as [Ho _]. apply list_elem_of_In in Ho.
  destruct (ListLayoutObjects_stored (events_prefix ep) _ _ _ _ (proj2 Hw _ _ _ Hi Hs) El Ho). eauto.
Qed.

Lemma list_all_spec l w w' hs errs :
  world_ok w -> (forall i ep, (i, ep) ∈ l -> endpoints !! i = Some ep) ->
  list_all n_ID n_Transport l w = (w', Ok (hs, errs)) ->
  same_world w w' /\ length hs = length l /\
  forall j i ep h k, l !! j = Some (i, ep) -> hs !! j = Some h -> k ∈ h ->
    store_key (tr := n_Transport ep) k /\ exists s, w !! i = Some s /\ is_Some (obj ep s !! k).
Proof.
  revert w hs errs. induction l as [|[i ep] l IH]; intros w hs errs Hw Hl E; simpl in E.
  { by injection E as <- <- <-. }
  apply bind_Ok_inv in E as (w1 & [h e] & E1 & E). apply bind_Ok_inv in E as (w2 & [hs' es] & E2 & E).
  injection E as <- <- <-.
  destruct (list_endpoint_spec _ _ _ _ _ _ Hw (Hl _ _ ltac:(left)) E1) as [R1 H1].
  destruct (R1 Hw) as [Hw1 Hsame].
  destruct (IH w1 hs' es Hw1 ltac:(intros; apply Hl; by right) E2) as (R2 & Hlen & H2).
  split_and!; [by etrans|simpl; by rewrite Hlen|]. intros [|j] i' ep' h' k Hj Hh Hk; simplify_eq/=; [eauto|].
  destruct (H2 j i' ep' h' k Hj Hh Hk) as (Hkey & s1 & Hs1 & Ho). split; [done|].
  assert (endpoints !! i' = Some ep') as Hi' by (apply Hl; right; by eapply list_elem_of_lookup_2).
  destruct (lookup_lt_is_Some_2 w i') as [s Hs]; [rewrite (proj1 Hw); by eapply lookup_lt_Some|].
  destruct (Hsame _ _ _ Hi' Hs) as (s1' & Hs1' & Heq). exists s. split; [done|].
  simplify_eq. by rewrite <- Heq.
Qed.

Lemma list_all_total l w : exists w' hs errs, list_all n_ID n_Transport l w = (w', Ok (hs, errs)).
Proof.
  revert w. induction l as [|[i ep] l IH]; intros w; simpl; [eauto|].
  assert (exists w1 h e, list_endpoint n_ID n_Transport i ep w = (w1, Ok (h, e))) as (w1 & h & e & E1).
  { unfold list_endpoint, try, mbind, M_bind. destruct (on i _ w) as [w1 [objs|err]]; simpl; eauto. }
  destruct (IH w1) as (w2 & hs & es & E2). exists w2, (h :: hs), (e ++ es).
  rewrite (bind_Ok _ _ _ _ _ E1), (bind_Ok _ _ _ _ _ E2). done.
Qed.

(** *** One key, all keys *)

(** Every endpoint that did not list the key ends with the value [b]. *)
Definition delivered (have : list (gset string)) (key : string) (b : bytes) (w : World) : Prop :=
  forall i ep, endpoints !! i = Some ep -> key ∉ listed have i ->
    exists s, w !! i = Some s /\ is_Some (obj ep s !! key) /\
      (key <> "metadata/manifest"%string -> obj ep s !! key = Some b).

(** The value comes from an endpoint that listed the key. *)
Definition source_value (have : list (gset string)) (key : string) (b : bytes) (w : World) : Prop :=
  exists j src s, endpoints !! j = Some src /\ w !! j = Some s /\ key ∈ listed have j /\
    obj src s !! key = Some b.

Lemma NoDup_eps_fst (l : list (nat * I)) p : NoDup l.*1 -> NoDup (List.filter p l).*1.
Proof.
  intros Hnd. induction l as [|x l IH]; [done|]. rewrite fmap_cons in Hnd.
  apply NoDup_cons in Hnd as [Hx Hnd]. simpl. destruct (p x); [|auto].
  rewrite fmap_cons. apply NoDup_cons. split; [|auto].
  intros Hin. apply Hx. apply list_elem_of_fmap in Hin as (y & -> & Hy).
  apply list_elem_of_In, filter_In in Hy as [Hy _]. apply list_elem_of_fmap. exists y.
  split; [done|by apply list_elem_of_In].
Qed.

Lemma NoDup_eps : NoDup eps.*1.
Proof.
  unfold eps. assert ((imap pair endpoints).*1 = seq 0 (length endpoints)) as ->; [|apply NoDup_seq].
  apply list_eq. intros j. rewrite list_lookup_fmap, list_lookup_imap.
  destruct (endpoints !! j) as [ep|] eqn:E; simpl.
  - rewrite lookup_seq_lt; [done|by eapply lookup_lt_Some].
  - symmetry. apply lookup_seq_ge. by apply lookup_ge_None.
Qed.

Lemma mirror_key_Ok have key w w' :
  world_ok w -> (forall ep, store_key (tr := n_Transport ep) key) ->
  (exists j ep, endpoints !! j = Some ep /\ key ∈ listed have j) ->
  (forall i ep s, endpoints !! i = Some ep -> w !! i = Some s -> key ∈ listed have i -> is_Some (obj ep s !! key)) ->
  mirror_key n_ID n_Transport json_counter eps have key w = (w', Ok []) ->
  exists b, source_value have key b w /\ delivered have key b w'.
Proof.
  intros Hw Hk (j & epj & Hj & Hkj) Hpres E. unfold mirror_key in E.
  destruct (List.filter (has_key have key) eps) as [|[si src] srcs] eqn:Es.
  { pose proof (filter_nil_elem _ _ (j, epj) Es (proj2 (elem_of_eps _ _) Hj)) as Hf.
    apply not_true_iff_false in Hf. by rewrite has_key_listed in Hf. }
  assert ((si, src) ∈ eps /\ has_key have key (si, src) = true) as [Hsrc%elem_of_eps Hlk%has_key_listed].
  { rewrite list_elem_of_In. apply (filter_In (has_key have key)). rewrite Es. by left. }
  destruct (lookup_lt_is_Some_2 w si) as [s Hs]; [rewrite (proj1 Hw); by eapply lookup_lt_Some|].
  destruct (Hpres _ _ _ Hsrc Hs Hlk) as [b Hb].
  exists b. split; [by exists si, src, s|].
  set (dests := List.filter (fun e => negb (has_key have key e)) eps) in *.
  assert (forall i ep, endpoints !! i = Some ep -> key ∉ listed have i -> (i, ep) ∈ dests) as Hdest.
  { intros i ep Hi Hn. apply list_elem_of_In, filter_In. rewrite <- list_elem_of_In, elem_of_eps.
    split; [done|]. apply negb_true_iff, not_true_iff_false. by rewrite has_key_listed. }
  destruct dests as [|d ds] eqn:Ed.
  { intros i ep Hi Hn. specialize (Hdest i ep Hi Hn). by apply elem_of_nil in Hdest. }
  apply bind_Ok_inv in E as (w1 & r & E1 & E).
  destruct (mono_run _ _ _ _ _ (mono_try _ _ (on_same (fun _ => ∅) si src _ Hsrc (readAll_same src key))) E1 Hw)
    as [Hw1 _].
  unfold try in E1. destruct (on si _ w) as [w2 r2] eqn:Eon.
  destruct (on_inv _ _ _ _ _ _ Hs Eon) as [-> ->]. injection E1 as E1 <-.
  destruct (readAll (n_Transport src) key s) as [s1 [raw|e]] eqn:Er; simpl in E; [|done].
  rewrite (readAll_Ok _ _ _ _ _ (proj2 Hw _ _ _ Hsrc Hs) (Hk _) Er) in Hb. injection Hb as <-.
  intros i ep Hi Hn. eapply (copy_all_Ok _ _ _ (d :: ds)); [exact Hw1| | |done|exact E|by apply Hdest].
  - rewrite <- Ed. apply NoDup_eps_fst, NoDup_eps.
  - intros di epd Hin. rewrite <- Ed in Hin. apply list_elem_of_In, filter_In in Hin as [Hin _].
    by apply elem_of_eps, list_elem_of_In.
Qed.

Lemma mirror_keys_Ok have keys w w' :
  world_ok w -> NoDup keys -> (forall key ep, key ∈ keys -> store_key (tr := n_Transport ep) key) ->
  (forall key, key ∈ keys -> exists j ep, endpoints !! j = Some ep /\ key ∈ listed have j) ->
  (forall key i ep s, key ∈ keys -> endpoints !! i = Some ep -> w !! i = Some s ->
     key ∈ listed have i -> is_Some (obj ep s !! key)) ->
  mirror_keys n_ID n_Transport json_counter eps have keys w = (w', Ok []) ->
  forall key, key ∈ keys -> exists b, source_value have key b w /\ delivered have key b w'.
Proof.
  revert w. induction keys as [|k keys IH]; intros w Hw Hnd Hk Hex Hpres E key Hkey.
  { by apply elem_of_nil in Hkey. }
  apply NoDup_cons in Hnd as [Hni Hnd]. simpl in E.
  apply bind_Ok_inv in E as (w1 & e & E1 & E). apply bind_Ok_inv in E as (w2 & es & E2 & E).
  injection E as <- Ees. apply app_eq_nil in Ees as [-> ->].
  destruct (mono_run _ _ _ _ _ (mirror_key_keeps (listed have) have k ltac:(done)
    ltac:(intros; apply Hk; left)) E1 Hw) as [Hw1 R1].
  apply elem_of_cons in Hkey as [->|Hkey].
  - destruct (mirror_key_Ok have k w w1) as (b & Hsv & Hdel); [done|intros; apply Hk; left|apply Hex; left
      |intros; eapply Hpres; [left|done..]|done|].
    exists b. split; [done|]. intros i ep Hi Hn. destruct (Hdel i ep Hi Hn) as (s & Hs & [b' Hb'] & Hv).
    destruct (mono_run _ _ _ _ _ (mirror_keys_keeps (fun _ => {[k]}) have keys
      ltac:(intros key' j Hin _; rewrite elem_of_singleton; by intros ->)
      ltac:(intros; apply Hk; by right)) E2 Hw1) as [_ R2].
    destruct (R2 _ _ _ Hi Hs) as (s' & Hs' & _ & Hkeep). exists s'.
    rewrite (Hkeep k) by set_solver. split; [done|]. split; [by rewrite Hb'|done].
  - destruct (IH w1 Hw1 Hnd) with (key := key) as (b & (j & src & s1 & Hj & Hs1 & Hl & Hb) & Hdel); [..|done|done|].
    + intros; apply Hk; by right.
    + intros; apply Hex; by right.
    + intros key' i ep s1 Hin Hi Hs1 Hl.
      destruct (lookup_lt_is_Some_2 w i) as [s Hs]; [rewrite (proj1 Hw); by eapply lookup_lt_Some|].
      destruct (R1 _ _ _ Hi Hs) as (s1' & Hs1' & _ & Hkeep). simplify_eq. rewrite Hkeep by done.
      eapply Hpres; [by right|done..].
    + exists b. split; [|done]. exists j, src.
      destruct (lookup_lt_is_Some_2 w j) as [s Hs]; [rewrite (proj1 Hw); by eapply lookup_lt_Some|].
      destruct (R1 _ _ _ Hj Hs) as (s1' & Hs1' & _ & Hkeep). simplify_eq.
      exists s. split_and!; [done..|]. by rewrite <- Hkeep.
Qed.

Lemma begin_all_none l closers w :
  begin_all n_ID n_Transport l closers w = (w, Ok (closers, None)).
Proof. induction l as [|[i ep] l IH]; simpl; [done|]. by rewrite no_session. Qed.

Lemma errors_Join_Ok {T} errs (w w' : T) : errors_Join errs w = (w', Ok tt) -> errs = [] /\ w' = w.
Proof. destruct errs; [|done]. by intros [= <-]. Qed.

Lemma listed_stored w w1 have errs :
  world_ok w -> list_all n_ID n_Transport eps w = (w1, Ok (have, errs)) ->
  forall k i, k ∈ listed have i -> exists ep s, endpoints !! i = Some ep /\
    store_key (tr := n_Transport ep) k /\ w !! i = Some s /\ is_Some (obj ep s !! k).
Proof.
  intros Hw El k i Hk.
  destruct (list_all_spec eps w w1 have errs Hw ltac:(intros ? ?; by rewrite elem_of_eps) El) as (_ & Hlh & Hl).
  unfold listed in Hk. destruct (have !! i) as [h|] eqn:Eh; simpl in Hk; [|set_solver].
  destruct (lookup_lt_is_Some_2 eps i) as [[i' ep] Hi]; [rewrite <- Hlh; by eapply lookup_lt_Some|].
  pose proof Hi as Hi2. unfold eps in Hi2. rewrite list_lookup_imap in Hi2.
  destruct (endpoints !! i) as [ep'|] eqn:Eep; [|done]. injection Hi2 as <- <-.
  destruct (Hl i i ep' h k Hi Eh Hk) as (? & s & ? & ?). eauto 8.
Qed.

End Mirror.
