(* ===== verification/Roster.v ===== *)
(** [internal/sync/syncer/manifest.go] and the roster half of [recover.go]:
    the signed remote manifest, the device files, and how they reach the local
    device table. *)

From S2P Require Import Prelude Database Bundle Keys Device.

Definition syncer_CurrentVersion : Z := 1.

Record RemoteManifest := mkRemoteManifest {
  rm_Version : Z;
  rm_Counter : Z;
  rm_ActiveGeneration : string;
  rm_Devices : list string;
  rm_Retired : list string;
  rm_Pruned : list string;
  rm_UpdatedAt : Z;
  rm_MAC : string;
}.

Definition remote_manifest_zero : RemoteManifest := mkRemoteManifest 0 0 "" [] [] [] 0 "".

Record DeviceFile := mkDeviceFile {
  df_Version : Z;
  df_ID : string;
  df_Name : string;
  df_Hostname : string;
  df_Status : string;
  df_Head : Z;
}.

Definition rm_with_MAC (mac : string) (m : RemoteManifest) : RemoteManifest :=
  mkRemoteManifest (rm_Version m) (rm_Counter m) (rm_ActiveGeneration m) (rm_Devices m)
    (rm_Retired m) (rm_Pruned m) (rm_UpdatedAt m) mac.
Definition rm_with_UpdatedAt (t : Z) (m : RemoteManifest) : RemoteManifest :=
  mkRemoteManifest (rm_Version m) (rm_Counter m) (rm_ActiveGeneration m) (rm_Devices m)
    (rm_Retired m) (rm_Pruned m) t (rm_MAC m).

Section Manifest.
Context `{Mac} `{Codec RemoteManifest}.

Definition remote_macKey (smk : bytes) : bytes := hkdf32 smk (b "remnix-remote-manifest") (b "mac-v1").

Definition remote_mac (m : RemoteManifest) (smk : bytes) : string :=
  hex_encode (hmac_sha256 (remote_macKey smk) (marshal (rm_with_MAC "" m))).

Definition SignRemote (now : Time) (m : RemoteManifest) (smk : bytes) : RemoteManifest :=
  let m := if rm_UpdatedAt m =? 0 then rm_with_UpdatedAt (UnixMilli now) m else m in
  rm_with_MAC (remote_mac m smk) m.

Definition VerifyRemote (m : RemoteManifest) (smk : bytes) : result unit :=
  if negb (String.eqb (remote_mac m smk) (rm_MAC m)) then Fail (EMsg "remote manifest mac mismatch")
  else if negb (rm_Version m =? syncer_CurrentVersion) then Fail (EMsg "unsupported remote version")
  else Ok tt.

Lemma VerifyRemote_SignRemote now m smk :
  rm_Version m = syncer_CurrentVersion -> VerifyRemote (SignRemote now m smk) smk = Ok tt.
Proof.
  intros Hv. unfold VerifyRemote, SignRemote, remote_mac.
  destruct (rm_UpdatedAt m =? 0); simpl; rewrite String.eqb_refl; simpl; by rewrite Hv.
Qed.

(** Signing changes the MAC and the time stamp only. *)
Lemma SignRemote_field {A} (f : RemoteManifest -> A) now m smk :
  (forall m mac, f (rm_with_MAC mac m) = f m) -> (forall m t, f (rm_with_UpdatedAt t m) = f m) ->
  f (SignRemote now m smk) = f m.
Proof.
  intros Hf1 Hf2. unfold SignRemote. rewrite Hf1. destruct (rm_UpdatedAt m =? 0); [apply Hf2|done].
Qed.
End Manifest.

(** ** [uniqueSorted] *)

Fixpoint unique_ids (seen : gset string) (ids : list string) : list string :=
  match ids with
  | [] => []
  | id :: ids => if str_empty id || bool_decide (id ∈ seen) then unique_ids seen ids
                 else id :: unique_ids ({[id]} ∪ seen) ids
  end.

Definition uniqueSorted (ids : list string) : list string := sort_slice str_lt (unique_ids ∅ ids).

Lemma elem_of_unique_ids seen ids x :
  x ∈ unique_ids seen ids <-> x ∈ ids /\ x ∉ seen /\ x <> EmptyString.
Proof.
  revert seen. induction ids as [|id ids IH]; intros seen; simpl.
  { rewrite elem_of_nil. naive_solver. }
  destruct (str_empty id) eqn:E; simpl.
  { rewrite IH, elem_of_cons. assert (id = EmptyString) by by destruct id. naive_solver. }
  assert (id <> EmptyString) by by destruct id.
  case_bool_decide; rewrite ?elem_of_cons, IH, ?elem_of_union, ?elem_of_singleton; [naive_solver|].
  destruct (decide (x = id)) as [->|]; naive_solver.
Qed.

Lemma NoDup_unique_ids seen ids : NoDup (unique_ids seen ids).
Proof.
  revert seen. induction ids as [|id ids IH]; intros seen; simpl; [constructor|].
  case_match; [done|]. constructor; [|done]. rewrite elem_of_unique_ids. set_solver.
Qed.

Lemma elem_of_uniqueSorted ids x : x ∈ uniqueSorted ids <-> x ∈ ids /\ x <> EmptyString.
Proof. unfold uniqueSorted. rewrite elem_of_sort_slice, elem_of_unique_ids. set_unfold. naive_solver. Qed.

Lemma str_lt_weak_order l : weak_order_on str_lt l.
Proof.
  split.
  - intros x y _ _. apply str_lt_asym.
  - intros x y z _ _ _ Hyx Hzy. destruct (str_lt z x) eqn:E; [|done].
    destruct (str_lt x y) eqn:Exy; [by rewrite (str_lt_trans z x y) in Hzy|].
    assert (x = y) as -> by by apply str_lt_total. congruence.
Qed.

(** The list that is signed depends on the set of ids only: not on the order
    in which maps and tables are enumerated, nor on repetitions. *)
Lemma uniqueSorted_canonical ids ids' :
  (forall x, x <> EmptyString -> x ∈ ids <-> x ∈ ids') -> uniqueSorted ids = uniqueSorted ids'.
Proof.
  intros Heq. apply sort_slice_canonical; [apply str_lt_weak_order| |].
  - intros x y _ _. apply str_lt_total.
  - apply NoDup_Permutation; [apply NoDup_unique_ids..|]. intros x.
    rewrite !elem_of_unique_ids. specialize (Heq x). naive_solver.
Qed.

(** ** Applying a manifest to the device table *)

Definition applyRemoteRoster (now : Time) (rm : RemoteManifest) : M DB unit :=
  let skip : gset string := list_to_set (rm_Retired rm ++ rm_Pruned rm) in
  for_each (rm_Devices rm) (fun id =>
    if str_empty id || bool_decide (id ∈ skip) then mret tt
    else
      found ← gets (fun d => Get d id);
      match found with
      | Some _ => mret tt
      | None => Upsert now (mkDevice id id "" StatusActive time_zero None)
      end).

Definition retire_device (now : Time) (id : string) : M DB unit :=
  if str_empty id then mret tt
  else
    known ← gets (fun d => Get d id);
    let name := from_option dv_Name id known in
    let hostname := from_option dv_Hostname "" known in
    let retiredAt := default now (known ≫= dv_RetiredAt) in
    Upsert now (mkDevice id name hostname StatusRetired time_zero (Some retiredAt)).

Definition applyRetired (now : Time) (ids : list string) : M DB unit :=
  for_each ids (retire_device now).

Definition applyPruned (self : string) (ids : list string) : M DB unit :=
  for_each ids (fun id =>
    if str_empty id || String.eqb id self then mret tt else ignore (Delete id)).

(** ** A roster that was applied is in force *)

Lemma retire_device_status now id d :
  id <> EmptyString -> status_of (retire_device now id d).1 id = Some StatusRetired.
Proof.
  intros Hid. unfold retire_device. assert (str_empty id = false) as -> by by destruct id.
  erewrite bind_Ok by reflexivity. unfold Upsert, upsert_device, status_of. simpl.
  rewrite lookup_insert_eq. simpl. unfold upsert_row.
  destruct (db_devices d !! id) as [o|]; simpl; [|done]. by rewrite andb_false_r.
Qed.

Lemma retire_device_other now id id' d : id' <> id ->
  status_of (retire_device now id d).1 id' = status_of d id'.
Proof.
  intros Hne. unfold retire_device. destruct (str_empty id); [done|].
  erewrite bind_Ok by reflexivity. unfold status_of. simpl. by rewrite lookup_insert_ne.
Qed.

Lemma retire_device_ok now id d : exists d', retire_device now id d = (d', Ok tt).
Proof. unfold retire_device. destruct (str_empty id); eexists; reflexivity. Qed.

Lemma applyRetired_run now ids d :
  exists d', applyRetired now ids d = (d', Ok tt) /\
  forall id, status_of d' id =
    if decide (id ∈ ids /\ id <> EmptyString) then Some StatusRetired else status_of d id.
Proof.
  unfold applyRetired. revert d. induction ids as [|i ids IH]; intros d; cbn [for_each].
  { exists d. split; [done|]. intros id. rewrite decide_False; [done|]. by intros [?%elem_of_nil _]. }
  destruct (retire_device_ok now i d) as [d1 E1]. destruct (IH d1) as (d' & E' & Hst).
  exists d'. rewrite (bind_Ok _ _ _ _ _ E1). split; [done|]. intros id. rewrite Hst.
  pose proof (retire_device_status now i d) as Hi. pose proof (retire_device_other now i id d) as Ho.
  rewrite E1 in Hi, Ho. simpl in *. destruct (decide (id = i)) as [->|Hne].
  - destruct (decide (i = EmptyString)) as [He|He].
    + rewrite !decide_False by naive_solver. subst. unfold retire_device in E1. by injection E1 as <-.
    + rewrite (decide_True (P := i ∈ i :: ids /\ _)) by (split; [left|done]). case_decide; auto.
  - rewrite Ho by done. apply decide_ext. rewrite elem_of_cons. naive_solver.
Qed.

Lemma applyPruned_run self ids d :
  exists d', applyPruned self ids d = (d', Ok tt) /\
  forall id, status_of d' id =
    if decide (id ∈ ids /\ id <> EmptyString /\ id <> self) then None else status_of d id.
Proof.
  unfold applyPruned. revert d. induction ids as [|i ids IH]; intros d; cbn [for_each].
  { exists d. split; [done|]. intros id. rewrite decide_False; [done|]. by intros [?%elem_of_nil _]. }
  destruct (str_empty i || String.eqb i self) eqn:E.
  - destruct (IH d) as (d' & E' & Hst). exists d'. erewrite bind_Ok by reflexivity.
    split; [done|]. intros id. rewrite Hst. apply decide_ext. rewrite elem_of_cons.
    apply orb_true_iff in E as [E|E%String.eqb_eq]; [assert (i = EmptyString) by by destruct i|]; naive_solver.
  - apply orb_false_iff in E as [E1 E2%String.eqb_neq].
    destruct (IH (Delete i d).1) as (d' & E' & Hst). exists d'. erewrite bind_Ok by reflexivity.
    split; [done|]. intros id. rewrite Hst.
    assert (status_of (Delete i d).1 id = if decide (id = i) then None else status_of d id) as ->.
    { unfold Delete, status_of. case_decide; subst.
      - destruct (db_devices d !! i) eqn:Ei; simpl; [by rewrite lookup_delete_eq|by rewrite Ei].
      - destruct (db_devices d !! i) eqn:Ei; simpl; [by rewrite lookup_delete_ne|done]. }
    assert (i <> EmptyString) by by destruct i.
    destruct (decide (id = i)) as [->|Hne].
    + rewrite (decide_True (P := i ∈ i :: ids /\ _)) by (split; [left|done]). by case_decide.
    + apply decide_ext. rewrite elem_of_cons. naive_solver.
Qed.

(** Applying a manifest's roster always succeeds and leaves exactly the pruned devices (other
    than this one) absent, the retired ones retired, neither active, and every other device as it
    was. *)
Theorem roster_in_force (now : Time) (self : string) (rm : RemoteManifest) (d : DB) :
  exists d1 d2, applyRetired now (rm_Retired rm) d = (d1, Ok tt) /\
    applyPruned self (rm_Pruned rm) d1 = (d2, Ok tt) /\
    forall id, id <> EmptyString ->
      (id ∈ rm_Pruned rm -> id <> self -> Get d2 id = None) /\
      (id ∈ rm_Retired rm -> ~ (id ∈ rm_Pruned rm /\ id <> self) -> status_of d2 id = Some StatusRetired) /\
      (id ∈ rm_Retired rm \/ id ∈ rm_Pruned rm /\ id <> self -> id ∉ ActiveIDs d2) /\
      (id ∉ rm_Retired rm -> id ∉ rm_Pruned rm -> status_of d2 id = status_of d id).
Proof.
  destruct (applyRetired_run now (rm_Retired rm) d) as (d1 & E1 & H1).
  destruct (applyPruned_run self (rm_Pruned rm) d1) as (d2 & E2 & H2).
  exists d1, d2. split; [done|]. split; [done|]. intros id Hid.
  assert (id ∈ rm_Pruned rm -> id <> self -> status_of d2 id = None) as Hpr.
  { intros. rewrite H2, decide_True by done. done. }
  assert (id ∈ rm_Retired rm -> ~ (id ∈ rm_Pruned rm /\ id <> self) -> status_of d2 id = Some StatusRetired) as Hre.
  { intros. rewrite H2, decide_False, H1, decide_True by naive_solver. done. }
  split_and!; [|done| |].
  - intros Hp Hs. specialize (Hpr Hp Hs). unfold status_of, Get in *. by destruct (db_devices d2 !! id).
  - intros Hor Hact%elem_of_ActiveIDs. destruct (decide (id ∈ rm_Pruned rm /\ id <> self)) as [[]|Hn].
    + by rewrite Hpr in Hact.
    + destruct Hor as [Hr|?]; [|done]. by rewrite (Hre Hr Hn) in Hact.
  - intros. rewrite H2, decide_False, H1, decide_False by naive_solver. done.
Qed.
