(* ===== verification/Engine.v ===== *)
(** [internal/sync/syncer]: the synchronization engine ([engine.go],
    [checkpoint.go], [init.go], [recover.go]). The engine's state is the local
    database, the state of the transport, the change set of the last run, the
    cache of unlocked keys and the calls of the [StoreSMKs] callback so far;
    progress reports have no effect on them. Go maps that the code ranges over
    are enumerated in a fixed order. *)

From S2P Require Import Prelude Database History Frontier Event Device Merge Bundle Snapshot Keys.
From S2P Require Import KeyStore Transport Gc Roster.

Record Options := mkOptions {
  o_DeviceID : string;
  o_DeviceName : string;
  o_Hostname : string;
  o_RecoverySecret : bytes;
  o_Tokens : list Token;
  o_FIDO2 : option (list FidoDevice);
  o_EndpointID : string;
}.

Record ES (S : Type) := mkES {
  es_db : DB;
  es_tr : S;
  es_changes : ChangeSet;
  es_cached : gmap string bytes;
  es_stored : list (gmap string bytes);
}.
Arguments mkES {S}. Arguments es_db {S}. Arguments es_tr {S}.
Arguments es_changes {S}. Arguments es_cached {S}. Arguments es_stored {S}.

Section State.
Context {S : Type}.
Definition set_es_db (d : DB) (s : ES S) : ES S :=
  mkES d (es_tr s) (es_changes s) (es_cached s) (es_stored s).
Definition set_es_tr (t : S) (s : ES S) : ES S :=
  mkES (es_db s) t (es_changes s) (es_cached s) (es_stored s).
Definition set_es_changes (c : ChangeSet) (s : ES S) : ES S :=
  mkES (es_db s) (es_tr s) c (es_cached s) (es_stored s).
Definition set_es_cached (c : gmap string bytes) (s : ES S) : ES S :=
  mkES (es_db s) (es_tr s) (es_changes s) c (es_stored s).

(** [StoreSMKs(smks)] *)
Definition StoreSMKs (smks : gmap string bytes) : M (ES S) unit :=
  modify (fun s => mkES (es_db s) (es_tr s) (es_changes s) (es_cached s) (es_stored s ++ [smks])).

(** A query or update of the database, and a call of the transport. *)
Definition sql {A} (m : M DB A) : M (ES S) A := zoom es_db set_es_db m.
Definition net {A} (m : M S A) : M (ES S) A := zoom es_tr set_es_tr m.
Definition query {A} (f : DB -> A) : M (ES S) A := gets (fun s => f (es_db s)).
End State.

Section Engine.
Context {S : Type} (tr : Transport S) (opts : Options) (now : Time).
Context `{Sha256} `{EventCodecs} `{Aead} `{BundleCodecs} `{Mac} `{Gzip} `{SnapshotCodecs}.
Context `{Codec Manifest} `{Codec AckFile} `{Codec GManifest} `{Codec WrapParams}
  `{Codec RemoteManifest} `{Codec DeviceFile}.
(** [fido2.OpenHMACDevices]: the authenticators found when none were given. *)
Context (OpenHMACDevices : result (list FidoDevice)).

Definition trustKind : string :=
  if str_empty (o_EndpointID opts) then "remote"%string else ("remote:" +:+ o_EndpointID opts)%string.

Definition publishedSeqKey : string :=
  if str_empty (o_EndpointID opts) then ("published_seq:" +:+ o_DeviceID opts)%string
  else ("published_seq:" +:+ o_EndpointID opts +:+ ":" +:+ o_DeviceID opts)%string.

Definition getBytes (key : string) : M (ES S) bytes := net (readAll tr key).

(** [readAll]: the contents of every object below a prefix. *)
Fixpoint read_objects (objs : list Object) (out : gmap string bytes) : M (ES S) (gmap string bytes) :=
  match objs with
  | [] => mret out
  | o :: objs =>
      if bool_decide (is_Some (out !! o_Key o)) then read_objects objs out
      else b ← getBytes (o_Key o); read_objects objs (<[o_Key o := b]> out)
  end.
Definition readPrefix (prefix : string) : M (ES S) (gmap string bytes) :=
  objs ← net (tr_List tr prefix);
  read_objects objs ∅.

(** ** Unlocking *)

Definition cachedSMKValid (d : DB) (g : GManifest) (smk : bytes) : bool :=
  match smk with
  | [] => false
  | _ =>
      is_Ok (Verify g smk) || negb (gm_Active g) ||
      existsb (fun '(kind, r) =>
        has_prefix "remote" kind &&
        match (unmarshal (tr_payload r) : option RemoteManifest) with
        | Some rm => negb (bool_decide (tr_payload r = [])) && is_Ok (VerifyRemote rm smk)
        | None => false
        end) (map_to_list (db_trusted d))
  end.

(** The first loop of [unlockAll]: keys that are cached and still valid; the
    last active generation found is the active one. *)
Definition unlock_cached (d : DB) (cached : gmap string bytes) (gens : list GManifest)
    : gmap string bytes * option GManifest :=
  foldl (fun '(out, active) g =>
    match cached !! gm_GenerationID g with
    | Some smk => if cachedSMKValid d g smk
                  then (<[gm_GenerationID g := smk]> out, if gm_Active g then Some g else active)
                  else (out, active)
    | None => (out, active)
    end) (∅, None) gens.

Definition fidoDevices (gens : list GManifest) : list FidoDevice * option error :=
  match o_FIDO2 opts with
  | Some devs => (devs, None)
  | None =>
      if existsb (fun g => negb (bool_decide (OfType (gm_Slots g) TypeFIDO2Hmac = []))) gens
      then match OpenHMACDevices with
           | Ok devs => (devs, None)
           | Fail e => ([], Some e)
           end
      else ([], None)
  end.

(** The second loop: unwrap what is not cached; an active generation that
    cannot be unwrapped is an error. *)
Fixpoint unlock_slots (u : Unlock) (hidErr : option error) (gens : list GManifest)
    (out : gmap string bytes) (active : option GManifest)
    : result (gmap string bytes * option GManifest) :=
  match gens with
  | [] => Ok (out, active)
  | g :: gens =>
      if bool_decide (is_Some (out !! gm_GenerationID g)) then unlock_slots u hidErr gens out active
      else
        match UnwrapAny (gm_Slots g) u with
        | Fail e =>
            if gm_Active g then
              match hidErr with
              | Some he =>
                  if negb (bool_decide (OfType (gm_Slots g) TypeFIDO2Hmac = [])) &&
                     bool_decide (u_RecoverySecret u = []) && (length (u_Tokens u) =? 0)%nat
                  then Fail (EWrap "unlock generation" he) else Fail (EWrap "unlock generation" e)
              | None => Fail (EWrap "unlock generation" e)
              end
            else unlock_slots u hidErr gens out active
        | Ok (smk, _) =>
            unlock_slots u hidErr gens (<[gm_GenerationID g := smk]> out)
              (if gm_Active g then Some g else active)
        end
  end.

Definition unlockAll : M (ES S) (gmap string bytes * GManifest) :=
  gens ← query Generations;
  st ← get;
  let '(out, active) := unlock_cached (es_db st) (es_cached st) gens in
  match active with
  | Some a => _ ← StoreSMKs out; mret (out, a)
  | None =>
      let '(fido, hidErr) := fidoDevices gens in
      let u := mkUnlock (o_RecoverySecret opts) (o_Tokens opts) fido in
      '(out, active) ← of_result (unlock_slots u hidErr gens out None);
      match active with
      | Some a => _ ← StoreSMKs out; mret (out, a)
      | None => fail (EMsg "no active key generation")
      end
  end.

Definition Unlock_ : M (ES S) (gmap string bytes * GManifest) := unlockAll.

(** ** Pulling metadata *)

Definition wanted_devices : M (ES S) (gset string) :=
  acks ← try (net (tr_List tr "acks/"));
  ckpt ← try (net (NewestCheckpoint tr));
  let fromAcks := match acks with
                  | Ok objs => List.filter (fun id => negb (str_empty id))
                                 (omap (fun o => cut_suffix ".ack" (path_base (o_Key o))) objs)
                  | Fail _ => []
                  end in
  let fromCkpt := match ckpt with
                  | Ok (Some m) => (map_to_list (m_Frontier m)).*1
                  | _ => []
                  end in
  mret (list_to_set (o_DeviceID opts :: fromAcks ++ fromCkpt)).

Definition import_device (wanted : gset string) (e : string * bytes) : M (ES S) unit :=
  let '(key, body) := e in
  if negb (has_suffix ".json" key) then mret tt
  else match (unmarshal body : option DeviceFile) with
       | None => mret tt
       | Some df =>
           if str_empty (df_ID df) || negb (bool_decide (df_ID df ∈ wanted)) then mret tt
           else
             let status := if str_empty (df_Status df) then StatusActive else df_Status df in
             let name := if str_empty (df_Name df) then df_ID df else df_Name df in
             sql (Upsert now (mkDevice (df_ID df) name (df_Hostname df) status time_zero None))
       end.

Definition importWantedDevices : M (ES S) unit :=
  wanted ← wanted_devices;
  raw ← readPrefix "metadata/devices";
  for_each (map_to_list raw) (import_device wanted).

Definition chooseGeneration (ms : list GManifest) (activeID localID : string) : option GManifest :=
  match List.find (fun m => String.eqb (gm_GenerationID m) activeID) ms with
  | Some m => Some m
  | None => match List.find (fun m => String.eqb (gm_GenerationID m) localID) ms with
            | Some m => Some m
            | None => head ms
            end
  end.

(** The remote generation manifests, grouped by sequence number. *)
Fixpoint group_by_seq (raw : list (string * bytes)) (acc : gmap Z (list GManifest))
    : result (gmap Z (list GManifest)) :=
  match raw with
  | [] => Ok acc
  | (key, body) :: raw =>
      if negb (has_suffix "/manifest" key) then group_by_seq raw acc
      else match (unmarshal body : option GManifest) with
           | None => Fail (EWrap "generation manifest" (EMsg "json"))
           | Some m => group_by_seq raw (<[gm_Seq m := default [] (acc !! gm_Seq m) ++ [m]]> acc)
           end
  end.

(** The body of the loop over [bySeq]. *)
Definition import_generation (haveManifest : bool) (activeID : string) (localBySeq : gmap Z string)
    (e : Z * list GManifest) : M (ES S) unit :=
  let '(seq, ms) := e in
  match chooseGeneration ms activeID (default "" (localBySeq !! seq)) with
  | None => mret tt
  | Some m =>
      let put := sql (PutGeneration (UnixMilli now)
                   (if haveManifest then gm_with_Active (String.eqb (gm_GenerationID m) activeID) m else m)) in
      match localBySeq !! seq with
      | Some existing =>
          if negb (String.eqb existing (gm_GenerationID m)) then
            if negb (String.eqb (gm_GenerationID m) activeID) then mret tt
            else _ ← sql (DeleteGeneration existing); put
          else put
      | None => put
      end
  end.

(** The part of [pullMetadata] that accepts [metadata/manifest]. *)
Definition accept_manifest : M (ES S) (option RemoteManifest) :=
  r ← try (getBytes "metadata/manifest");
  match r with
  | Fail e => if errors_Is is_NotExist e then mret None else fail e
  | Ok raw =>
      match (unmarshal raw : option RemoteManifest) with
      | None => fail (EMsg "json")
      | Some rm =>
          trusted ← query (fun d => TrustedCounter d trustKind);
          if rm_Counter rm <? trusted then fail (EMsg "remote manifest rollback detected")
          else
            _ ← sql (SetTrusted (UnixMilli now) trustKind (rm_ActiveGeneration rm) (rm_Counter rm) "" raw);
            _ ← sql (applyRemoteRoster now rm);
            mret (Some rm)
      end
  end.

Definition import_generations (haveManifest : bool) (activeID : string) : M (ES S) unit :=
  raw ← readPrefix "keys/generations";
  bySeq ← of_result (group_by_seq (map_to_list raw) ∅);
  local ← query Generations;
  let localBySeq := foldl (fun acc g => <[gm_Seq g := gm_GenerationID g]> acc) ∅ local in
  for_each (map_to_list bySeq) (import_generation haveManifest activeID localBySeq).

Definition pullMetadata : M (ES S) unit :=
  orm ← accept_manifest;
  _ ← importWantedDevices;
  let rm := default remote_manifest_zero orm in
  _ ← (match orm with
       | Some rm => _ ← sql (applyRetired now (rm_Retired rm));
                    sql (applyPruned (o_DeviceID opts) (rm_Pruned rm))
       | None => mret tt
       end);
  import_generations (bool_decide (is_Some orm)) (rm_ActiveGeneration rm).

(** ** Pulling bundles *)

Definition listEventBundles : M (ES S) (list Object) :=
  match tr_ListShallow tr with
  | None => net (tr_List tr "events/")
  | Some shallow =>
      files ← net (shallow "events"%string);
      dirs ← net (tr_ListDirs tr "events");
      more ← collect (fun d => o ← net (shallow d); mret (Some o)) dirs;
      mret (files ++ concat more)
  end.

Definition bundleDevice (key : string) : string :=
  match split_on slash key with
  | p0 :: p1 :: _ :: _ => if String.eqb p0 "events" then p1 else ""
  | _ => ""
  end.

Definition bundlePulled (d : DB) (key : string) : bool :=
  match db_transport_state d !! ("pulled:" +:+ key)%string with
  | Some v => negb (str_empty v)
  | None => false
  end.

Definition set_state (k v : string) : M DB unit :=
  modify (fun d => set_transport_state (<[k := v]> (db_transport_state d)) d).

Definition markBundlePulled (key : string) : M DB unit := set_state ("pulled:" +:+ key) "1".

Definition peekGeneration (raw : bytes) : string :=
  match PeekHeader raw with Ok h => h_GenerationID h | Fail _ => "" end.

(** The key a bundle is opened with: the one of its generation, or the first
    that opens it. *)
Definition bundle_key (smks : gmap string bytes) (raw : bytes) : option bytes :=
  match smks !! peekGeneration raw with
  | Some smk => Some smk
  | None => List.find (fun v => is_Ok (Unpack raw v)) (rows smks)
  end.

(** One event of [applyEvents], inside the transaction. *)
Definition apply_event (ev : Event) : M (DB * ChangeSet) unit := fun '(d, cs) =>
  if ExistsTx d (ev_DeviceID ev) (ev_Seq ev) then ((d, cs), Ok tt)
  else if ev_Seq ev <=? default 0 (db_heads d !! ev_DeviceID ev) then ((d, cs), Ok tt)
  else
    match (_ ← AppendTx ev; ApplyTracked now ev) d with
    | (d1, Fail e) => ((d1, cs), Fail e)
    | (d1, Ok c) =>
        let '(d2, r) := MarkAppliedTx (ev_DeviceID ev) (ev_Seq ev) d1 in ((d2, cs_Merge cs c), r)
    end.

(** [applyEvents]: the writes are one transaction, the change set is not. *)
Definition applyEvents (evs : list Event) : M (ES S) unit := fun s =>
  match for_each evs apply_event (es_db s, es_changes s) with
  | ((d, cs), Ok _) => (set_es_changes cs (set_es_db d s), Ok tt)
  | ((_, cs), Fail e) => (set_es_changes cs s, Fail e)
  end.

(** One bundle of the loop in [pullBundles]; returns the header when it was
    applied. *)
Definition pull_bundle (smks : gmap string bytes) (key : string) : M (ES S) (option Header) :=
  if str_empty (bundleDevice key) then mret None
  else
    pulled ← query (fun d => bundlePulled d key);
    if (pulled : bool) then mret None
    else
      raw ← getBytes key;
      match bundle_key smks raw with
      | None => fail (EMsg "no key for bundle")
      | Some smk =>
          match Unpack raw smk with
          | Fail e => fail (EWrap "bundle" e)
          | Ok (h, evs) =>
              _ ← applyEvents evs;
              _ ← sql (markBundlePulled key);
              mret (Some h)
          end
      end.

Definition raise_head (heads : Frontier) (h : Header) : Frontier :=
  if at_ heads (h_DeviceID h) <? h_SeqEnd h then <[h_DeviceID h := h_SeqEnd h]> heads else heads.

Definition pullBundles (smks : gmap string bytes) : M (ES S) unit :=
  objs ← listEventBundles;
  local ← query Merge.Get;
  hs ← collect (fun o => pull_bundle smks (o_Key o)) objs;
  let remoteHeads := foldl raise_head (Clone local) hs in
  _ ← for_each ((map_to_list remoteHeads).*1) (fun id => sql (AdvanceContiguous id));
  sql CompactUpToHeads.

(** ** Publishing *)

Definition hist_max (d : DB) (dev : string) : option Z :=
  select_max (fun r => default 0 (hr_origin_seq r))
    (fun r => bool_decide (hr_origin_device_id r = Some dev) && bool_decide (is_Some (hr_origin_seq r)))
    (db_history d).

Definition localMaxSeq (d : DB) : Z :=
  foldl (fun n v => match v with Some v => if n <? v then v else n | None => n end) 0
    [event_max d (o_DeviceID opts); db_heads d !! o_DeviceID opts; hist_max d (o_DeviceID opts)].

(** [nonce] is what [bundle.Pack] draws. *)
Definition publishLocal (nonce smk : bytes) (active : GManifest) : M (ES S) unit :=
  lastPubStr ← query (fun d => db_transport_state d !! publishedSeqKey);
  let lastPub := from_option parse_int 0 lastPubStr in
  maxSeq ← query localMaxSeq;
  if maxSeq <=? lastPub then mret tt
  else
    d ← query id;
    evs ← of_result (Range now d (o_DeviceID opts) (wrap64 (lastPub + 1)) maxSeq);
    match evs with
    | [] => mret tt
    | _ =>
        '(raw, _) ← of_result (Pack nonce (o_DeviceID opts) (gm_GenerationID active) evs smk);
        let key := path_join ["events"; o_DeviceID opts; Filename raw]%string in
        _ ← net (tr_PutAtomic tr key (bytes_reader raw));
        _ ← sql (set_state publishedSeqKey (sprint_d maxSeq));
        _ ← sql (Set_ (o_DeviceID opts) maxSeq);
        sql CompactUpToHeads
    end.

Definition ack_key (id : string) : string := path_join ["acks"; id +:+ ".ack"]%string.

Definition publishAck (checkpointID : string) : M (ES S) unit :=
  self ← query (fun d => Device.Get d (o_DeviceID opts));
  if match self with Some d => String.eqb (dv_Status d) StatusRetired | None => false end
  then mret tt
  else
    f ← query Merge.Get;
    cid ← (if str_empty checkpointID then
             r ← try (getBytes (ack_key (o_DeviceID opts)));
             mret (match r with
                   | Ok b => match ack_Decode b with Ok old => ak_CheckpointID old | Fail _ => checkpointID end
                   | Fail _ => checkpointID
                   end)
           else mret checkpointID);
    net (tr_PutAtomic tr (ack_key (o_DeviceID opts))
           (bytes_reader (ack_Encode (ack_New now (o_DeviceID opts) f cid)))).

Definition device_file (d : DB) (id : string) : DeviceFile :=
  let known := Device.Get d id in
  let name := from_option dv_Name "" known in
  let hostname := from_option dv_Hostname "" known in
  let status := match known with
                | Some k => if str_empty (dv_Status k) then StatusActive else dv_Status k
                | None => StatusActive
                end in
  let self := String.eqb id (o_DeviceID opts) in
  let name := if self && str_empty name then o_DeviceName opts else name in
  let hostname := if self && str_empty hostname then o_Hostname opts else hostname in
  let name := if str_empty name then id else name in
  mkDeviceFile syncer_CurrentVersion id name hostname status (at_ (Merge.Get d) id).

Definition publishDeviceRecord (id : string) : M (ES S) unit :=
  df ← query (fun d => device_file d id);
  net (tr_PutAtomic tr (path_join ["metadata"; "devices"; id +:+ ".json"]%string)
         (bytes_reader (marshal df))).

Definition publishDeviceHead : M (ES S) unit := publishDeviceRecord (o_DeviceID opts).

(** ** Checkpoints ([checkpoint.go]) *)

Definition behindNewestCheckpoint : M (ES S) bool :=
  m ← net (NewestCheckpoint tr);
  local ← query Merge.Get;
  mret (match m with
        | None => false
        | Some m => negb (Dominates local (m_Frontier m))
        end).

Definition all_entries : Filter := mkFilter "" "" "" "" "" "" None None None true false 0.

(** [id] is the fresh uuid and [nonce] what [checkpoint.PackSnapshot] draws. *)
Definition createCheckpoint (id : string) (nonce smk : bytes) (generationID : string) : M (ES S) Manifest :=
  f ← query Merge.Get;
  entries ← query (History.List_ all_entries);
  let m := NewManifest now id generationID f in
  '(nonce, ct) ← of_result (PackSnapshot nonce entries smk);
  let base := path_join ["checkpoints"; m_ID m]%string in
  _ ← net (tr_PutAtomic tr (path_join [base; "manifest"]%string) (bytes_reader (EncodeManifest m)));
  _ ← net (tr_PutAtomic tr (path_join [base; "snapshot"]%string) (bytes_reader (EncodeFile nonce ct)));
  mret m.

Definition CreateCheckpoint (id : string) (nonce smk : bytes) (generationID : string) : M (ES S) Manifest :=
  behind ← behindNewestCheckpoint;
  if (behind : bool) then fail ECheckpointNotCaughtUp else createCheckpoint id nonce smk generationID.

(** [tombstonedIndex]: the deleted rows, by id and by origin. *)
Definition tombstoned_id (d : DB) (id : string) : bool :=
  select_any (fun r => hr_deleted r && String.eqb (hr_id r) id) (db_history d).
Definition tombstoned_origin (d : DB) (dev : string) (seq : Z) : bool :=
  select_any (fun r => hr_deleted r && has_origin dev seq r) (db_history d).

Definition e_set_deleted (e : Entry) : Entry :=
  mkEntry (e_ID e) (e_Command e) (e_StartTS e) (e_EndTS e) (e_DurationMs e) (e_ExitStatus e)
    (e_Cwd e) (e_SessionID e) (e_Hostname e) (e_DeviceID e) (e_Shell e) true
    (e_OriginDeviceID e) (e_OriginSeq e) (e_CreatedAt e).

(** An entry of the snapshot, deleted where the index says so. *)
Definition with_tombstone (d : DB) (e : Entry) : Entry :=
  let byOrigin := match e_OriginSeq e with
                  | Some seq => negb (str_empty (e_OriginDeviceID e)) &&
                                tombstoned_origin d (e_OriginDeviceID e) seq
                  | None => false
                  end in
  if tombstoned_id d (e_ID e) || byOrigin then e_set_deleted e else e.

(** The raise of the heads to the checkpoint's frontier; [local] is the
    frontier read before. *)
Definition raise_heads (local frontier : Frontier) : M DB unit :=
  for_each (map_to_list frontier) (fun '(id, seq) =>
    if at_ local id <? seq then Set_ id seq else mret tt).

Definition BootstrapFromCheckpoint (smk : bytes) (m : Manifest) (snap : bytes) : M (ES S) unit :=
  '(nonce, ct) ← of_result (DecodeFile snap);
  entries ← of_result (UnpackSnapshot smk nonce ct);
  idx ← query id;
  _ ← for_each entries (fun ent => _ ← sql (Insert now (with_tombstone idx ent)); mret tt);
  local ← query Merge.Get;
  _ ← sql (raise_heads local (m_Frontier m));
  sql (SetTrustedCheckpoint (UnixMilli now) trustKind (m_ID m)).

Definition skipStaleCheckpoint (m : Manifest) : M (ES S) bool :=
  trustedID ← query (fun d => TrustedCheckpointID d trustKind);
  if str_empty trustedID || String.eqb trustedID (m_ID m) then mret false
  else
    b ← skip_error (getBytes (path_join ["checkpoints"; trustedID; "manifest"]%string));
    mret (match b ≫= fun b => match DecodeManifest b with Ok m => Some m | Fail _ => None end with
          | Some tm => Dominates (m_Frontier tm) (m_Frontier m) && negb (Dominates (m_Frontier m) (m_Frontier tm))
          | None => false
          end).

(** The keys are tried in turn, the one of the checkpoint's generation first;
    the last error is reported. *)
Fixpoint try_keys (m : Manifest) (snap : bytes) (smks : list bytes) (last : option error) : M (ES S) unit :=
  match smks with
  | [] => fail (match last with
                | Some e => EWrap "checkpoint" e
                | None => EMsg "no key for checkpoint"
                end)
  | smk :: smks =>
      r ← try (BootstrapFromCheckpoint smk m snap);
      match r with
      | Ok _ => mret tt
      | Fail e => try_keys m snap smks (Some e)
      end
  end.

Definition checkpoint_keys (m : Manifest) (smks : gmap string bytes) : list bytes :=
  match smks !! m_GenerationID m with
  | Some (_ :: _ as smk) => [smk]
  | _ => []
  end ++ rows (delete (m_GenerationID m) smks).

Definition pullCheckpoint (smks : gmap string bytes) : M (ES S) unit :=
  om ← net (NewestCheckpoint tr);
  match om with
  | None => mret tt
  | Some m =>
      skip ← skipStaleCheckpoint m;
      if (skip : bool) then mret tt
      else
        local ← query Merge.Get;
        if Dominates local (m_Frontier m)
        then sql (SetTrustedCheckpoint (UnixMilli now) trustKind (m_ID m))
        else
          r ← try (getBytes (path_join ["checkpoints"; m_ID m; "snapshot"]%string));
          match r with
          | Fail e => fail (EWrap "checkpoint snapshot" e)
          | Ok snap => try_keys m snap (checkpoint_keys m smks) None
          end
  end.

(** ** The run *)

(** A session transport is opened first and closed at the end, whatever
    happens; the error of [End] is dropped. *)
Definition withRemote {A} (fn : M (ES S) A) : M (ES S) A :=
  match tr_Session tr with
  | None => fn
  | Some (begin, end_) =>
      _ ← net begin;
      r ← try fn;
      _ ← ignore (net end_);
      of_result r
  end.

Definition Sync (nonce : bytes) : M (ES S) unit :=
  withRemote (
    _ ← modify (set_es_changes cs_zero);
    _ ← net (Dedupe tr);
    _ ← pullMetadata;
    '(smks, active) ← unlockAll;
    _ ← pullCheckpoint smks;
    _ ← pullBundles smks;
    _ ← publishLocal nonce (default [] (smks !! gm_GenerationID active)) active;
    _ ← publishAck "";
    publishDeviceHead).

(** ** Publishing keys and the roster ([init.go]) *)

Definition generation_key (id : string) : string :=
  path_join ["keys"; "generations"; id; "manifest"]%string.

Definition publishGenerationMaterial (m : GManifest) : M (ES S) unit :=
  net (tr_PutAtomic tr (generation_key (gm_GenerationID m)) (bytes_reader (marshal m))).

(** The retired and pruned sets: the local roster and the command, joined with
    the manifest that is there when it verifies. *)
Definition roster_sets (d : DB) (verifySMK : bytes) (extraPruned : list string) (raw : result bytes)
    : gset string * gset string :=
  let retired : gset string :=
    list_to_set (dv_ID <$> List.filter (fun x => String.eqb (dv_Status x) StatusRetired) (Device.List_ d)) in
  let pruned : gset string := list_to_set extraPruned in
  let existing := match raw with
                  | Ok raw => match (unmarshal raw : option RemoteManifest) with
                              | Some rm => if is_Ok (VerifyRemote rm verifySMK) then Some rm else None
                              | None => None
                              end
                  | Fail _ => None
                  end in
  let '(pruned, retired) :=
    match existing with
    | Some rm => (pruned ∪ list_to_set (rm_Pruned rm), retired ∪ list_to_set (rm_Retired rm))
    | None => (pruned, retired)
    end in
  let pruned := pruned ∖ {[ o_DeviceID opts ]} in
  (pruned, retired ∖ pruned).

(** The manifest that is published, before it is signed. *)
Definition roster_manifest (d : DB) (activeGeneration : string) (counter : Z)
    (sets : gset string * gset string) : RemoteManifest :=
  let '(pruned, retired) := sets in
  let devices := match ActiveIDs d with [] => [o_DeviceID opts] | ids => ids end in
  let active := List.filter (fun id => negb (bool_decide (id ∈ pruned) || bool_decide (id ∈ retired))) devices in
  let '(active, pruned, retired) :=
    match active with
    | [] => ([o_DeviceID opts], pruned ∖ {[ o_DeviceID opts ]}, retired ∖ {[ o_DeviceID opts ]})
    | _ => (active, pruned, retired)
    end in
  let trusted := TrustedCounter d trustKind in
  let counter := if counter <=? trusted then wrap64 (trusted + 1) else counter in
  mkRemoteManifest syncer_CurrentVersion counter activeGeneration (uniqueSorted active)
    (uniqueSorted (elements retired)) (uniqueSorted (elements pruned)) 0 "".

Definition publishRemoteRoster (activeGeneration : string) (counter : Z) (signSMK verifySMK : bytes)
    (extraPruned : list string) : M (ES S) unit :=
  raw ← try (getBytes "metadata/manifest");
  d ← query id;
  let rm := SignRemote now (roster_manifest d activeGeneration counter
              (roster_sets d verifySMK extraPruned raw)) signSMK in
  _ ← net (tr_PutAtomic tr "metadata/manifest" (bytes_reader (marshal rm)));
  sql (SetTrusted (UnixMilli now) trustKind activeGeneration (rm_Counter rm) "" (marshal rm)).

Definition publishGeneration (m : GManifest) (smk : bytes) (extraPruned : list string) : M (ES S) unit :=
  _ ← sql (PutGeneration (UnixMilli now) m);
  _ ← publishGenerationMaterial m;
  publishRemoteRoster (gm_GenerationID m) (gm_Counter m) smk smk extraPruned.

Definition PublishGeneration (m : GManifest) (smk : bytes) : M (ES S) unit := publishGeneration m smk [].

(** ** Local changes *)

(** [UPDATE history SET origin_device_id = ?, origin_seq = ? WHERE id = ?],
    subject to the unique index on the origin. *)
Definition set_origin (dev : string) (seq : Z) (id : string) : M DB unit := fun d =>
  match db_history d !! id with
  | None => (d, Ok tt)
  | Some r =>
      if select_any (same_origin (hr_set_origin dev seq r)) (delete id (db_history d))
      then (d, Fail (EMsg "UNIQUE constraint failed"))
      else (set_history (<[id := hr_set_origin dev seq r]> (db_history d)) d, Ok tt)
  end.

(** The tail both enqueue operations share. *)
Definition enqueue_done (seq : Z) : M DB unit :=
  _ ← MarkApplied (o_DeviceID opts) seq;
  _ ← Set_ (o_DeviceID opts) seq;
  CompactUpToHeads.

Definition EnqueueHistoryCreated (entry : Entry) : M DB unit :=
  seq ← gets (fun d => NextSeq d (o_DeviceID opts));
  _ ← Append (NewHistoryCreated now (o_DeviceID opts) seq entry);
  _ ← set_origin (o_DeviceID opts) seq (e_ID entry);
  enqueue_done seq.

Definition newTombstone (deviceID : string) (seq : Z) (historyID origin : string) (originSeq : Z) : Event :=
  NewHistoryTombstoned now deviceID seq (mkHistoryTombstoned historyID origin originSeq).

Definition EnqueueHistoryTombstoned (entry : Entry) : M DB unit :=
  seq ← gets (fun d => NextSeq d (o_DeviceID opts));
  let originSeq := default 0 (e_OriginSeq entry) in
  _ ← Append (newTombstone (o_DeviceID opts) seq (e_ID entry) (e_OriginDeviceID entry) originSeq);
  _ ← Tombstone (e_ID entry);
  enqueue_done seq.

(** ** Retiring and pruning a device *)

Definition RetireDevice (id : string) (at_ : Time) : M (ES S) unit :=
  withRemote (
    _ ← sql (Retire id at_);
    _ ← publishDeviceRecord id;
    _ ← net (tr_Remove tr (ack_key id));
    r ← try unlockAll;
    match r with
    | Fail e => fail (EWrap "unlock to publish retirement" e)
    | Ok (smks, active) => publishGeneration active (default [] (smks !! gm_GenerationID active)) []
    end).

Definition removeRemoteDeviceArtifacts (id : string) : M (ES S) unit :=
  _ ← net (Transport.DeleteIfExists tr (path_join ["metadata"; "devices"; id +:+ ".json"]%string));
  _ ← net (Transport.DeleteIfExists tr (ack_key id));
  net (Transport.DeleteIfExists tr (path_join ["events"; id]%string)).

Definition PruneDevice (id : string) : M (ES S) unit :=
  if String.eqb id (o_DeviceID opts) then fail (EMsg "cannot prune this device")
  else withRemote (
    r ← try unlockAll;
    match r with
    | Fail e => fail (EWrap "unlock to publish prune" e)
    | Ok (smks, active) =>
        _ ← publishGeneration active (default [] (smks !! gm_GenerationID active)) [id];
        c ← try (removeRemoteDeviceArtifacts id);
        match c with
        | Fail e => fail (EWrap "device was pruned from the manifest, but remote cleanup failed" e)
        | Ok _ => sql (Device.DeleteIfExists id)
        end
    end).

(** ** Recovery ([recover.go]) *)

(** The local generations that give way to the recovered one. *)
Definition retire_generation (gen g : GManifest) : M DB unit :=
  if String.eqb (gm_GenerationID g) (gm_GenerationID gen) then mret tt
  else if gm_Seq g =? gm_Seq gen then DeleteGeneration (gm_GenerationID g)
  else if gm_Active g then PutGeneration (UnixMilli now) (gm_with_Active false g)
  else mret tt.

Definition RecoverGeneration (generationID : string) : M (ES S) GManifest :=
  _ ← net (Dedupe tr);
  _ ← importWantedDevices;
  mb ← try (getBytes "metadata/manifest");
  _ ← (match mb with
       | Ok raw => match (unmarshal raw : option RemoteManifest) with
                   | Some rm => _ ← sql (applyRetired now (rm_Retired rm));
                                sql (applyPruned (o_DeviceID opts) (rm_Pruned rm))
                   | None => mret tt
                   end
       | Fail _ => mret tt
       end);
  generationID ← (if negb (str_empty generationID) then mret generationID
                  else
                    ckpt ← net (NewestCheckpoint tr);
                    match ckpt with
                    | None => fail (EMsg "specify a generation id; no checkpoint found on the remote")
                    | Some m => mret (m_GenerationID m)
                    end);
  r ← try (getBytes (generation_key generationID));
  match r with
  | Fail e => fail (EWrap "read generation" e)
  | Ok raw =>
      match (unmarshal raw : option GManifest) with
      | None => fail (EWrap "generation manifest" (EMsg "json"))
      | Some gen0 =>
          let gen := gm_with_Active true gen0 in
          local ← query Generations;
          _ ← for_each local (fun g => sql (retire_generation gen g));
          _ ← sql (PutGeneration (UnixMilli now) gen);
          u ← try unlockAll;
          match u with
          | Fail e => fail (EWrap "unlock recovered generation" e)
          | Ok (smks, active) =>
              _ ← PublishGeneration active (default [] (smks !! gm_GenerationID active));
              _ ← pullCheckpoint smks;
              _ ← publishDeviceHead;
              mret active
          end
      end
  end.
End Engine.
