(* ===== verification/EngineSafety.v ===== *)
(** What a synchronization run cannot break, whatever the transport does and
    wherever it stops: heads and trusted counters never move back, the
    history and key tables stay well formed; and what the published roster
    and the rollback check guarantee. *)

From S2P Require Import Prelude Database History Frontier Event Device Merge Bundle Snapshot Keys.
From S2P Require Import KeyStore Transport Gc Roster Engine.

(** ** Sound steps of the database *)

Definition trusted_grow (d d' : DB) : Prop :=
  forall kind, TrustedCounter d kind <= TrustedCounter d' kind.

Record db_sound (d d' : DB) : Prop := {
  ds_heads : heads_grow d d';
  ds_trusted : trusted_grow d d';
  ds_history : wf d -> wf d';
  ds_keys : keys_wf d -> keys_wf d';
}.

#[global] Instance db_sound_preorder : PreOrder db_sound.
Proof.
  split.
  - intros d. split; [done| |done|done]. intros kind. lia.
  - intros a b' c [H1 H2 H3 H4] [G1 G2 G3 G4]. split; [by etrans| |auto|auto].
    intros kind. specialize (H2 kind). specialize (G2 kind). lia.
Qed.

(** A step that leaves the four concerns alone but possibly one. *)
Definition same_heads (d d' : DB) : Prop := db_heads d' = db_heads d.
Definition same_trusted (d d' : DB) : Prop := db_trusted d' = db_trusted d.
Definition same_history (d d' : DB) : Prop :=
  db_history d' = db_history d /\ db_interns d' = db_interns d.
Definition same_keys (d d' : DB) : Prop :=
  db_generations d' = db_generations d /\ db_slots d' = db_slots d.

Lemma same_heads_grow d d' : same_heads d d' -> heads_grow d d'.
Proof. intros E dev h. rewrite E. intros. exists h. split; [done|lia]. Qed.
Lemma same_trusted_grow d d' : same_trusted d d' -> trusted_grow d d'.
Proof. intros E kind. unfold TrustedCounter. rewrite E. lia. Qed.
Lemma same_history_wf d d' : same_history d d' -> wf d -> wf d'.
Proof. intros [E1 E2] [H1 H2 H3]. split; by rewrite ?E1, ?E2. Qed.
Lemma same_keys_wf d d' : same_keys d d' -> keys_wf d -> keys_wf d'.
Proof. intros [E1 E2]. by apply keys_wf_other. Qed.
#[export] Hint Resolve same_heads_grow same_trusted_grow same_history_wf same_keys_wf : remnix.

Lemma frame_sound d d' :
  same_heads d d' -> same_trusted d d' -> same_history d d' -> same_keys d d' -> db_sound d d'.
Proof. intros. split; eauto with remnix. Qed.

Lemma modify_frame f :
  (forall d, same_heads d (f d) /\ same_trusted d (f d) /\ same_history d (f d) /\ same_keys d (f d)) ->
  mono db_sound (modify f).
Proof. intros Hf d. destruct (Hf d) as (? & ? & ? & ?). by apply frame_sound. Qed.

Lemma MarkApplied_sound dev seq : mono db_sound (MarkApplied dev seq).
Proof. by apply modify_frame. Qed.
Lemma set_state_sound k v : mono db_sound (set_state k v).
Proof. by apply modify_frame. Qed.
Lemma upsert_device_sound id r : mono db_sound (upsert_device id r).
Proof. by apply modify_frame. Qed.
Lemma Upsert_sound now dev : mono db_sound (Upsert now dev).
Proof. apply upsert_device_sound. Qed.
Lemma Delete_sound id : mono db_sound (Device.Delete id).
Proof. intros d. unfold Device.Delete. by case_match; apply frame_sound. Qed.
Lemma AppendTx_sound `{EventCodecs} ev : mono db_sound (AppendTx ev).
Proof. intros d. unfold AppendTx, AppendExec. by case_match; apply frame_sound. Qed.
Lemma CompactUpToHeads_sound : mono db_sound CompactUpToHeads.
Proof. by apply modify_frame. Qed.

Lemma Set_sound dev seq : mono db_sound (Set_ dev seq).
Proof.
  intros d. split; [apply Set_heads_grow|..]; unfold Set_, modify; simpl;
    (destruct (db_heads d !! dev); [case_match|]); eauto with remnix; try done;
    try (intros kind; unfold TrustedCounter; simpl; lia); by apply same_history_wf || by apply same_keys_wf.
Qed.

Lemma advance_loop_sound fuel dev head : mono db_sound (advance_loop fuel dev head).
Proof.
  revert head. induction fuel as [|fuel IH]; intros head d; simpl; [done|].
  destruct (applied _ _ _); [|done].
  refine (mono_bind db_sound _ _ (Set_sound _ _) _ d). intros _. apply IH.
Qed.
Lemma AdvanceContiguous_sound dev : mono db_sound (AdvanceContiguous dev).
Proof. intros d. apply advance_loop_sound. Qed.

Lemma history_sound {A} (m : M DB A) :
  (forall d, same_heads d (m d).1 /\ same_trusted d (m d).1 /\ same_keys d (m d).1) ->
  mono (keeps wf) m -> mono db_sound m.
Proof. intros Hf Hwf d. destruct (Hf d) as (? & ? & ?). split; eauto with remnix. apply Hwf. Qed.

Lemma InsertExec_sound `{Sha256} now e : mono db_sound (InsertExec now e).
Proof.
  apply history_sound; [|apply InsertExec_wf]. intros d. unfold InsertExec.
  destruct (intern_entry _ _). by case_match.
Qed.
Lemma Tombstone_sound id : mono db_sound (Tombstone id).
Proof. by apply history_sound; [|apply Tombstone_wf]. Qed.
Lemma TombstoneByOrigin_sound dev seq : mono db_sound (TombstoneByOrigin dev seq).
Proof. by apply history_sound; [|apply TombstoneByOrigin_wf]. Qed.

(** Operations on the key tables alone. *)
Definition only_keys (d d' : DB) : Prop := same_heads d d' /\ same_trusted d d' /\ same_history d d'.
#[global] Instance only_keys_preorder : PreOrder only_keys.
Proof.
  unfold only_keys, same_heads, same_trusted, same_history. split; [by intros d|].
  intros a b' c (H1 & H2 & H3 & H4) (G1 & G2 & G3 & G4). split_and!; congruence.
Qed.
Lemma only_keys_sound {A} (m : M DB A) :
  mono only_keys m -> mono (keeps keys_wf) m -> mono db_sound m.
Proof. intros Ho Hk d. destruct (Ho d) as (? & ? & ?). split; eauto with remnix. apply Hk. Qed.

Lemma putSlot_only now sl : mono only_keys (putSlot now sl).
Proof. intros d. unfold putSlot. by case_match. Qed.
Lemma modify_only_keys f : (forall d, only_keys d (f d)) -> mono only_keys (modify f).
Proof. by intros Hf d. Qed.
#[export] Hint Resolve putSlot_only modify_only_keys : remnix.
Lemma PutGeneration_sound now m : mono db_sound (PutGeneration now m).
Proof.
  apply only_keys_sound; [|apply putGeneration_wf]. unfold PutGeneration, putGeneration. mono_solve.
  by apply modify_only_keys.
Qed.
Lemma DeleteGeneration_sound id : mono db_sound (DeleteGeneration id).
Proof.
  apply only_keys_sound; [|apply DeleteGeneration_wf]. unfold DeleteGeneration.
  mono_solve; by apply modify_only_keys.
Qed.

Lemma trusted_sound d t :
  (forall kind, TrustedCounter d kind <= from_option tr_counter 0 (t !! kind)) ->
  db_sound d (set_trusted t d).
Proof. intros Ht. split; [by apply same_heads_grow|exact Ht|by apply same_history_wf|by apply same_keys_wf]. Qed.

Lemma SetTrusted_sound now kind gen c cp p d :
  TrustedCounter d kind <= c -> db_sound d (SetTrusted now kind gen c cp p d).1.
Proof.
  intros Hc. apply trusted_sound. intros k. unfold TrustedCounter. rewrite lookup_insert.
  case_decide; subst; simpl; [done|lia].
Qed.
Lemma SetTrustedCheckpoint_sound now kind cp : mono db_sound (SetTrustedCheckpoint now kind cp).
Proof.
  intros d. unfold SetTrustedCheckpoint. case_match; [done|]. apply trusted_sound. intros k.
  unfold TrustedCounter. rewrite lookup_alter. case_decide; subst; [|lia].
  destruct (db_trusted d !! k); simpl; lia.
Qed.
#[export] Hint Resolve MarkApplied_sound set_state_sound upsert_device_sound Upsert_sound Delete_sound
  AppendTx_sound CompactUpToHeads_sound Set_sound AdvanceContiguous_sound InsertExec_sound
  Tombstone_sound TombstoneByOrigin_sound PutGeneration_sound DeleteGeneration_sound
  SetTrustedCheckpoint_sound : remnix.

Lemma ApplyTracked_sound `{Sha256} `{EventCodecs} now ev : mono db_sound (ApplyTracked now ev).
Proof.
  unfold ApplyTracked, applyCreated, applyTombstone, applyDeviceMeta, InsertTx. mono_solve.
Qed.
Lemma applyRemoteRoster_sound now rm : mono db_sound (applyRemoteRoster now rm).
Proof. unfold applyRemoteRoster. mono_solve. Qed.
Lemma applyRetired_sound now ids : mono db_sound (applyRetired now ids).
Proof. unfold applyRetired, retire_device. mono_solve. Qed.
Lemma applyPruned_sound self ids : mono db_sound (applyPruned self ids).
Proof. unfold applyPruned. mono_solve. Qed.
Lemma raise_heads_sound l f : mono db_sound (raise_heads l f).
Proof. unfold raise_heads. mono_solve. Qed.
#[export] Hint Resolve ApplyTracked_sound applyRemoteRoster_sound applyRetired_sound applyPruned_sound
  raise_heads_sound : remnix.

(** ** Sound steps of the engine *)

Definition es_sound {S} : relation (ES S) := fun s s' => db_sound (es_db s) (es_db s').
#[global] Instance es_sound_preorder {S} : PreOrder (@es_sound S).
Proof. unfold es_sound. split; [by intros s|]. intros a b' c ? ?. by etrans. Qed.

Lemma sql_sound {S A} (m : M DB A) : mono db_sound m -> mono (@es_sound S) (sql m).
Proof. intros Hm. apply mono_zoom. intros s. apply Hm. Qed.
Lemma net_sound {S A} (m : M S A) : mono (@es_sound S) (net m).
Proof. apply mono_zoom. intros s. unfold es_sound. simpl. done. Qed.
Lemma query_sound {S A} (f : DB -> A) : mono (@es_sound S) (query f).
Proof. intros s. unfold es_sound. done. Qed.
Lemma changes_sound {S} c : mono (@es_sound S) (modify (set_es_changes c)).
Proof. intros s. unfold es_sound. done. Qed.
Lemma StoreSMKs_sound {S} smks : mono (@es_sound S) (StoreSMKs smks).
Proof. intros s. unfold es_sound. done. Qed.
#[export] Hint Resolve sql_sound net_sound query_sound changes_sound StoreSMKs_sound : remnix.

Section Run.
Context {S : Type} (tr : Transport S) (opts : Options) (now : Time).
Context `{Sha256} `{EventCodecs} `{Aead} `{BundleCodecs} `{Mac} `{Gzip} `{SnapshotCodecs}.
Context `{Codec Manifest} `{Codec AckFile} `{Codec GManifest} `{Codec WrapParams}
  `{Codec RemoteManifest} `{Codec DeviceFile}.
Context (OpenHMACDevices : result (list FidoDevice)).
Notation sound := (@es_sound S).

Lemma getBytes_sound k : mono sound (getBytes tr k).
Proof. apply net_sound. Qed.
Lemma read_objects_sound objs out : mono sound (read_objects tr objs out).
Proof. revert out. induction objs as [|o objs IH]; intros out; simpl; mono_solve. Qed.
#[local] Hint Resolve getBytes_sound read_objects_sound : remnix.
Lemma unlockAll_sound : mono sound (unlockAll opts OpenHMACDevices).
Proof. unfold unlockAll. mono_solve. Qed.
Lemma importWantedDevices_sound : mono sound (importWantedDevices tr opts now).
Proof. unfold importWantedDevices, wanted_devices, readPrefix, import_device. mono_solve. Qed.

(** The manifest is only trusted when its counter is not below the trusted
    one. *)
Lemma accept_manifest_sound : mono sound (accept_manifest tr opts now).
Proof.
  unfold accept_manifest. mono_step; [mono_solve|]. destruct a as [raw|e]; [|mono_solve].
  destruct (unmarshal raw) as [rm|]; [|mono_solve].
  intros s. erewrite bind_Ok by reflexivity.
  destruct (Z.ltb_spec (rm_Counter rm) (TrustedCounter (es_db s) (trustKind opts))) as [|Hc]; [done|].
  assert (exists s1, sql (SetTrusted (UnixMilli now) (trustKind opts) (rm_ActiveGeneration rm)
    (rm_Counter rm) "" raw) s = (s1, Ok tt) /\ sound s s1) as (s1 & E1 & R1).
  { eexists. split; [reflexivity|]. unfold es_sound. simpl.
    exact (SetTrusted_sound (UnixMilli now) (trustKind opts) (rm_ActiveGeneration rm) _ "" raw _ Hc). }
  rewrite (bind_Ok _ _ _ _ _ E1). etrans; [exact R1|].
  assert (mono sound (_ ← sql (applyRemoteRoster now rm); mret (Some rm))) as Hm by mono_solve.
  apply Hm.
Qed.
#[local] Hint Resolve unlockAll_sound importWantedDevices_sound accept_manifest_sound : remnix.
Lemma import_generations_sound have act : mono sound (import_generations tr now have act).
Proof. unfold import_generations, readPrefix, import_generation. mono_solve. Qed.
#[local] Hint Resolve import_generations_sound : remnix.
Lemma pullMetadata_sound : mono sound (pullMetadata tr opts now).
Proof. unfold pullMetadata. mono_solve. Qed.

Lemma for_each_apply_sound evs d cs :
  db_sound d (for_each evs (apply_event now) (d, cs)).1.1.
Proof.
  revert d cs. induction evs as [|ev evs IH]; intros d cs; simpl; [done|].
  assert (db_sound d (apply_event now ev (d, cs)).1.1) as Hev.
  { unfold apply_event. case_match; [done|]. case_match; [done|].
    assert (mono db_sound (_ ← AppendTx ev; ApplyTracked now ev)) as Hm by mono_solve.
    specialize (Hm d). destruct ((_ ← AppendTx ev; ApplyTracked now ev) d) as [d1 [c|e]]; [|done].
    simpl in *. etrans; [exact Hm|]. apply (MarkApplied_sound _ _ d1). }
  unfold mbind, M_bind. destruct (apply_event now ev (d, cs)) as [[d1 cs1] [u|e]]; simpl in *; [|done].
  etrans; [exact Hev|apply IH].
Qed.
Lemma applyEvents_sound evs : mono sound (applyEvents now evs).
Proof.
  intros s. unfold applyEvents. pose proof (for_each_apply_sound evs (es_db s) (es_changes s)) as Hm.
  destruct (for_each evs _ _) as [[d cs] [u|e]]; unfold es_sound; simpl in *; done.
Qed.
#[local] Hint Resolve pullMetadata_sound applyEvents_sound : remnix.
Lemma pullBundles_sound smks : mono sound (pullBundles tr now smks).
Proof. unfold pullBundles, listEventBundles, pull_bundle, markBundlePulled. mono_solve. Qed.
Lemma BootstrapFromCheckpoint_sound smk m snap : mono sound (BootstrapFromCheckpoint opts now smk m snap).
Proof. unfold BootstrapFromCheckpoint, Insert. mono_solve. Qed.
#[local] Hint Resolve BootstrapFromCheckpoint_sound : remnix.
Lemma try_keys_sound m snap smks last : mono sound (try_keys opts now m snap smks last).
Proof. revert last. induction smks as [|smk smks IH]; intros last; simpl; mono_solve. Qed.
#[local] Hint Resolve try_keys_sound : remnix.
Lemma pullCheckpoint_sound smks : mono sound (pullCheckpoint tr opts now smks).
Proof. unfold pullCheckpoint, skipStaleCheckpoint. mono_solve. Qed.
Lemma publishLocal_sound nonce smk active : mono sound (publishLocal tr opts now nonce smk active).
Proof. unfold publishLocal. mono_solve. Qed.
Lemma publishAck_sound cid : mono sound (publishAck tr opts now cid).
Proof. unfold publishAck. mono_solve. Qed.
#[local] Hint Resolve pullBundles_sound pullCheckpoint_sound publishLocal_sound publishAck_sound : remnix.

Lemma Sync_es_sound nonce : mono sound (Sync tr opts now OpenHMACDevices nonce).
Proof. unfold Sync, withRemote, publishDeviceHead, publishDeviceRecord. mono_solve. Qed.

(** C3: Whatever the remote holds and wherever the run stops, a Sync never lowers a replication head
    or a trusted manifest counter, and keeps the history tables (unique keys, interned values) and
    the key tables well-formed. *)
Theorem Sync_sound (nonce : bytes) (s : ES S) :
  let d := es_db s in
  let d' := es_db (Sync tr opts now OpenHMACDevices nonce s).1 in
  (forall dev h, db_heads d !! dev = Some h -> exists h', db_heads d' !! dev = Some h' /\ h <= h') /\
  (forall kind, TrustedCounter d kind <= TrustedCounter d' kind) /\
  (wf d -> wf d') /\ (keys_wf d -> keys_wf d').
Proof.
  destruct (Sync_es_sound nonce s) as [H1' H2' H3' H4']. by split_and!.
Qed.

(** *** The published roster *)

Lemma roster_sets_spec d smk extra raw pruned retired :
  roster_sets opts d smk extra raw = (pruned, retired) ->
  o_DeviceID opts ∉ pruned /\ retired ## pruned /\
  (forall id, id ∈ extra -> id <> o_DeviceID opts -> id ∈ pruned) /\
  (forall b' rm, raw = Ok b' -> unmarshal b' = Some rm -> VerifyRemote rm smk = Ok tt ->
     forall id, id ∈ rm_Pruned rm -> id <> o_DeviceID opts -> id ∈ pruned).
Proof.
  unfold roster_sets. intros E.
  destruct (match raw with Ok _ => _ | Fail _ => _ end) as [rm0|] eqn:Em;
    injection E as <- <-; (split; [set_solver|]); (split; [set_solver|]); split.
  - intros id Hin Hne. apply elem_of_difference. rewrite elem_of_union, elem_of_list_to_set. set_solver.
  - intros b' rm -> Hu Hv id Hin Hne. rewrite Hu, Hv in Em. simpl in Em. injection Em as ->.
    apply elem_of_difference. rewrite elem_of_union, !elem_of_list_to_set. set_solver.
  - intros id Hin Hne. apply elem_of_difference. rewrite elem_of_list_to_set. set_solver.
  - intros b' rm -> Hu Hv. by rewrite Hu, Hv in Em.
Qed.

Lemma roster_manifest_spec d gen c pruned retired :
  o_DeviceID opts ∉ pruned -> retired ## pruned ->
  let rm := roster_manifest opts d gen c (pruned, retired) in
  rm_Version rm = syncer_CurrentVersion /\ rm_ActiveGeneration rm = gen /\
  rm_Counter rm = (if c <=? TrustedCounter d (trustKind opts)
                   then wrap64 (TrustedCounter d (trustKind opts) + 1) else c) /\
  (forall id, id ∈ rm_Devices rm -> id ∉ rm_Retired rm /\ id ∉ rm_Pruned rm) /\
  (forall id, id ∈ rm_Retired rm -> id ∉ rm_Pruned rm) /\
  o_DeviceID opts ∉ rm_Pruned rm /\
  (forall id, id <> EmptyString -> id ∈ rm_Pruned rm <-> id ∈ pruned).
Proof.
  intros Hself Hdis. unfold roster_manifest.
  set (devices := match ActiveIDs d with [] => _ | _ => _ end).
  destruct (List.filter _ devices) as [|a l] eqn:Ef; simpl; (do 3 (split; [done|]));
    setoid_rewrite elem_of_uniqueSorted; setoid_rewrite elem_of_elements.
  - replace (pruned ∖ {[o_DeviceID opts]}) with pruned by set_solver.
    split; [intros id [->%list_elem_of_singleton _]; set_solver|]. set_solver.
  - assert (forall id, id ∈ a :: l -> id ∉ pruned /\ id ∉ retired) as Hact.
    { intros id Hin. rewrite <- Ef in Hin. apply list_elem_of_In, filter_In in Hin as [_ Hn].
      apply negb_true_iff, orb_false_iff in Hn as [?%bool_decide_eq_false ?%bool_decide_eq_false]. done. }
    split; [intros id [Hin _]; destruct (Hact id Hin); split; intros [? _]; done|].
    split; [intros id [Hr _] [Hp _]; set_solver|]. split; [by intros [? _]|]. naive_solver.
Qed.

(** A successful publication writes exactly metadata/manifest, signed with the given key, with
    a counter above the trusted one, which becomes trusted; active, retired and pruned devices are
    disjoint and the device never prunes itself. *)
Theorem publishRemoteRoster_publishes `{!ObjectStore tr} (gen : string) (c : Z)
    (signSMK verifySMK : bytes) (extra : list string) (s s' : ES S) :
  store_inv (es_tr s) -> store_key (tr := tr) "metadata/manifest" ->
  TrustedCounter (es_db s) (trustKind opts) < max_int64 ->
  - 2^63 <= TrustedCounter (es_db s) (trustKind opts) ->
  publishRemoteRoster tr opts now gen c signSMK verifySMK extra s = (s', Ok tt) ->
  exists rm,
    objects (es_tr s') = <["metadata/manifest"%string := marshal rm]> (objects (es_tr s)) /\
    VerifyRemote rm signSMK = Ok tt /\ rm_ActiveGeneration rm = gen /\
    TrustedCounter (es_db s) (trustKind opts) < rm_Counter rm /\ c <= rm_Counter rm /\
    TrustedCounter (es_db s') (trustKind opts) = rm_Counter rm /\
    (forall id, id ∈ rm_Devices rm -> id ∉ rm_Retired rm /\ id ∉ rm_Pruned rm) /\
    (forall id, id ∈ rm_Retired rm -> id ∉ rm_Pruned rm) /\
    o_DeviceID opts ∉ rm_Pruned rm /\
    (forall id, id ∈ extra -> id <> o_DeviceID opts -> id <> EmptyString -> id ∈ rm_Pruned rm).
Proof.
  intros Hinv Hkey Hmax Hmin E. unfold publishRemoteRoster in E.
  apply bind_Ok_inv in E as (s1 & raw & E1 & E). apply bind_Ok_inv in E as (s2 & d & E2 & E).
  injection E2 as <- <-. apply bind_Ok_inv in E as (s3 & u & E3 & E).
  assert (es_db s1 = es_db s /\ store_inv (es_tr s1) /\ objects (es_tr s1) = objects (es_tr s)) as (Hd & Hinv1 & Ho1).
  { unfold try, getBytes, net, zoom in E1. destruct (readAll tr _ (es_tr s)) as [t r] eqn:Er.
    injection E1 as <- _. simpl. split; [done|].
    assert (mono same_objects (readAll tr "metadata/manifest")) as Hm by (unfold readAll; mono_solve).
    exact (mono_run _ _ _ _ _ Hm Er Hinv). }
  rewrite Hd in *. clear E1 Hd.
  destruct (roster_sets opts (es_db s) verifySMK extra raw) as [pruned retired] eqn:Es.
  destruct (roster_sets_spec _ _ _ _ _ _ Es) as (Hself & Hdis & Hextra & _).
  destruct (roster_manifest_spec (es_db s) gen c pruned retired Hself Hdis)
    as (Hv & Hg & Hc & Hdev & Hret & Hsp & Hpr).
  set (rm0 := roster_manifest opts (es_db s) gen c (pruned, retired)) in *.
  exists (SignRemote now rm0 signSMK).
  rewrite (SignRemote_field rm_ActiveGeneration), (SignRemote_field rm_Counter),
    (SignRemote_field rm_Devices), (SignRemote_field rm_Retired), (SignRemote_field rm_Pruned) by done.
  unfold net, zoom in E3. destruct (tr_PutAtomic tr _ _ (es_tr s1)) as [t3 r3] eqn:Ep.
  destruct (store_put _ _ _ _ _ Hinv1 Hkey Ep) as [_ Hput]. injection E3 as <- ->.
  destruct Hput as [_ Hobj]. injection E as <-. simpl.
  rewrite Hobj, Ho1. split; [done|]. split; [by apply VerifyRemote_SignRemote|]. split; [done|].
  match goal with |- _ /\ _ /\ ?t = _ /\ _ => assert (t = rm_Counter rm0) as -> end.
  { unfold TrustedCounter. simpl. rewrite lookup_insert_eq. simpl.
    by destruct (rm_UpdatedAt rm0 =? 0). }
  rewrite Hc. unfold max_int64 in Hmax.
  destruct (Z.leb_spec c (TrustedCounter (es_db s) (trustKind opts))).
  - rewrite wrap64_small by (unfold int64; lia). split_and!; [lia|lia|done|done|done|done|].
    intros id Hin Hne He. apply Hpr; [done|]. by apply Hextra.
  - split_and!; [lia|lia|done|done|done|done|].
    intros id Hin Hne He. apply Hpr; [done|]. by apply Hextra.
Qed.

(** *** Applying events is idempotent *)

(** The event log only grows and the heads stay. *)
Definition log_grows (d d' : DB) : Prop :=
  db_heads d' = db_heads d /\ forall k, is_Some (db_events d !! k) -> is_Some (db_events d' !! k).
#[local] Instance log_grows_preorder : PreOrder log_grows.
Proof.
  split; [by intros d|]. intros a b' c [H1' H2'] [G1 G2]. split; [congruence|auto].
Qed.
Lemma log_same d d' : db_heads d' = db_heads d -> db_events d' = db_events d -> log_grows d d'.
Proof. intros Hh He. split; [done|]. by rewrite He. Qed.

Lemma InsertExec_log now' e : mono log_grows (InsertExec now' e).
Proof.
  intros d. unfold InsertExec. destruct (intern_entry _ _). by case_match; apply log_same.
Qed.
Lemma Tombstone_log id : mono log_grows (Tombstone id).
Proof. intros d. by apply log_same. Qed.
Lemma TombstoneByOrigin_log dev seq : mono log_grows (TombstoneByOrigin dev seq).
Proof. intros d. by apply log_same. Qed.
Lemma upsert_device_log id r : mono log_grows (upsert_device id r).
Proof. intros d. by apply log_same. Qed.
Lemma AppendTx_log ev : mono log_grows (AppendTx ev).
Proof.
  intros d. unfold AppendTx, AppendExec. case_match; [by apply log_same|]. split; [done|]. simpl.
  intros k Hk. rewrite lookup_insert. by case_decide.
Qed.
Lemma MarkAppliedTx_log dev seq : mono log_grows (MarkAppliedTx dev seq).
Proof.
  intros d. split; [done|]. simpl. intros k Hk. rewrite lookup_alter. case_decide; [subst|done].
  by rewrite fmap_is_Some.
Qed.
#[local] Hint Resolve InsertExec_log Tombstone_log TombstoneByOrigin_log upsert_device_log AppendTx_log : remnix.
Lemma append_apply_log ev : mono log_grows (_ ← AppendTx ev; ApplyTracked now ev).
Proof.
  unfold ApplyTracked, applyCreated, applyTombstone, applyDeviceMeta, InsertTx. mono_solve.
Qed.

(** The event needs no work any more. *)
Definition settled (d : DB) (ev : Event) : Prop :=
  is_Some (db_events d !! (ev_DeviceID ev, ev_Seq ev)) \/
  ev_Seq ev <= default 0 (db_heads d !! ev_DeviceID ev).

Lemma settled_grows d d' ev : log_grows d d' -> settled d ev -> settled d' ev.
Proof. unfold settled. intros [-> He] [?|?]; auto. Qed.

Lemma apply_event_settled ev d cs : settled d ev -> apply_event now ev (d, cs) = ((d, cs), Ok tt).
Proof.
  unfold settled, apply_event, ExistsTx, Exists_. intros [Hex|Hle].
  - by rewrite bool_decide_eq_true_2.
  - case_match; [done|]. by rewrite (proj2 (Z.leb_le _ _) Hle).
Qed.

Lemma apply_event_settles ev d cs st :
  apply_event now ev (d, cs) = (st, Ok tt) -> log_grows d st.1 /\ settled st.1 ev.
Proof.
  unfold apply_event, ExistsTx, Exists_. intros E.
  case_bool_decide as Hex; [injection E as <-; split; [done|by left]|].
  destruct (Z.leb_spec (ev_Seq ev) (default 0 (db_heads d !! ev_DeviceID ev))) as [Hle|Hgt];
    [injection E as <-; split; [done|by right]|].
  pose proof (append_apply_log ev d) as Hlog.
  destruct ((_ ← AppendTx ev; ApplyTracked now ev) d) as [d1 [c|e]] eqn:Er; [|done].
  injection E as <-. simpl in *.
  assert (settled d1 ev) as Hs1.
  { left. destruct (bind_Ok_inv _ _ _ _ _ Er) as (d0 & u & Ea & Eb).
    assert (log_grows d0 d1) as [_ Hk].
    { assert (mono log_grows (ApplyTracked now ev)) as Hm
        by (unfold ApplyTracked, applyCreated, applyTombstone, applyDeviceMeta, InsertTx; mono_solve).
      exact (mono_run _ _ _ _ _ Hm Eb). }
    apply Hk. unfold AppendTx, AppendExec in Ea. case_match; [done|]. injection Ea as <- _. simpl.
    by rewrite lookup_insert_eq. }
  pose proof (MarkAppliedTx_log (ev_DeviceID ev) (ev_Seq ev) d1) as Hm. simpl in Hm.
  split; [by etrans|by eapply settled_grows].
Qed.

Lemma for_each_settles evs d cs st :
  for_each evs (apply_event now) (d, cs) = (st, Ok tt) ->
  log_grows d st.1 /\ forall ev, ev ∈ evs -> settled st.1 ev.
Proof.
  revert d cs. induction evs as [|ev evs IH]; intros d cs E; simpl in E.
  { injection E as <-. split; [done|]. by intros ev ?%elem_of_nil. }
  apply bind_Ok_inv in E as ([d1 cs1] & [] & E1 & E2).
  destruct (apply_event_settles _ _ _ _ E1) as [Hg1 Hs1]. destruct (IH _ _ E2) as [Hg2 Hs2]. simpl in *.
  split; [by etrans|]. intros ev' [->|Hin]%elem_of_cons; [by eapply settled_grows|auto].
Qed.

Lemma for_each_settled evs d cs :
  (forall ev, ev ∈ evs -> settled d ev) -> for_each evs (apply_event now) (d, cs) = ((d, cs), Ok tt).
Proof.
  induction evs as [|ev evs IH]; intros Hs; simpl; [done|].
  rewrite (bind_Ok _ _ _ _ _ (apply_event_settled _ _ _ (Hs ev ltac:(left)))).
  apply IH. intros. apply Hs. by right.
Qed.

(** C7: After applyEvents succeeds every event of the list is in the log or below its device's head,
    the heads are unchanged, and applying any of the events again changes nothing, the reported
    change set included. *)
Theorem applyEvents_idempotent (evs : list Event) (s s1 : ES S) :
  applyEvents now evs s = (s1, Ok tt) ->
  (forall ev, ev ∈ evs -> settled (es_db s1) ev) /\
  db_heads (es_db s1) = db_heads (es_db s) /\
  forall evs', evs' ⊆ evs -> applyEvents now evs' s1 = (s1, Ok tt).
Proof.
  unfold applyEvents. intros E.
  destruct (for_each evs _ _) as [[d cs] [[]|e]] eqn:Ef; [|done]. injection E as <-.
  destruct (for_each_settles _ _ _ _ Ef) as [[Hh _] Hs]. simpl in *.
  split; [done|]. split; [done|]. intros evs' Hsub.
  rewrite for_each_settled by (intros ev Hev; apply Hs; by apply Hsub). by destruct s.
Qed.

(** *** A rolled-back manifest is refused *)

(** C21: A remote manifest whose counter is below the trusted one is refused before anything of it
    is stored: the database is unchanged. *)
Theorem pullMetadata_rollback `{!ObjectStore tr} (s : ES S) (raw : bytes) (rm : RemoteManifest) :
  store_inv (es_tr s) -> store_key (tr := tr) "metadata/manifest" ->
  objects (es_tr s) !! "metadata/manifest"%string = Some raw -> unmarshal raw = Some rm ->
  rm_Counter rm < TrustedCounter (es_db s) (trustKind opts) ->
  exists s' e, pullMetadata tr opts now s = (s', Fail e) /\ es_db s' = es_db s.
Proof.
  intros Hinv Hkey Hobj Hun Hlt. unfold pullMetadata.
  destruct (tr_Get tr "metadata/manifest" (es_tr s)) as [t r] eqn:Eg.
  destruct (store_get _ _ _ _ Hinv Eg) as (_ & _ & Hget). specialize (Hget Hkey).
  rewrite Hobj in Hget. subst r.
  assert (try (getBytes tr "metadata/manifest") s = (set_es_tr t s, Ok (Ok raw))) as Hread.
  { unfold try, getBytes, net, zoom, readAll, mbind, M_bind. by rewrite Eg. }
  exists (set_es_tr t s), (EMsg "remote manifest rollback detected"). split; [|done].
  apply bind_Fail. unfold accept_manifest. rewrite (bind_Ok _ _ _ _ _ Hread), Hun.
  erewrite bind_Ok by reflexivity. simpl. by rewrite (proj2 (Z.ltb_lt _ _) Hlt).
Qed.

(** *** A checkpoint without its snapshot *)

(** When the newest checkpoint has a manifest but no snapshot, and the device is neither ahead
    of it nor told to skip it, pulling the checkpoint fails and stores nothing. *)
Theorem pullCheckpoint_needs_snapshot `{!ObjectStore tr} (smks : gmap string bytes) (m : Manifest)
    (s s1 s2 : ES S) :
  net (NewestCheckpoint tr) s = (s1, Ok (Some m)) ->
  skipStaleCheckpoint tr opts m s1 = (s2, Ok false) ->
  store_inv (es_tr s2) -> store_key (tr := tr) (path_join ["checkpoints"; m_ID m; "snapshot"]%string) ->
  objects (es_tr s2) !! path_join ["checkpoints"; m_ID m; "snapshot"]%string = None ->
  Dominates (db_heads (es_db s2)) (m_Frontier m) = false ->
  exists s' e, pullCheckpoint tr opts now smks s = (s', Fail e) /\ es_db s' = es_db s2.
Proof.
  intros E1 E2 Hinv Hkey Hobj Hdom. unfold pullCheckpoint.
  rewrite (bind_Ok _ _ _ _ _ E1), (bind_Ok _ _ _ _ _ E2).
  erewrite bind_Ok by reflexivity. unfold Merge.Get. rewrite Hdom.
  set (key := path_join _) in *.
  assert (exists t e, try (getBytes tr key) s2 = (set_es_tr t s2, Ok (Fail e))) as (t & e & Hread).
  { unfold try, getBytes, net, zoom, readAll, mbind, M_bind.
    destruct (tr_Get tr key (es_tr s2)) as [t [rd|e]] eqn:Eg; [|eauto].
    destruct (store_get _ _ _ _ Hinv Eg) as (_ & _ & Hget). specialize (Hget Hkey).
    rewrite Hobj in Hget. destruct (Hget rd eq_refl) as [e He].
    unfold of_result, ReadAll. rewrite He. eauto. }
  exists (set_es_tr t s2), (EWrap "checkpoint snapshot" e). split; [|done].
  by rewrite (bind_Ok _ _ _ _ _ Hread).
Qed.

(** *** A local command enters the log *)

(** Enqueueing a local command succeeds, raises the device's head to the fresh sequence number,
    stamps the history row with that origin, and leaves the event readable from the log although it
    was compacted. *)
Theorem EnqueueHistoryCreated_logs (entry : Entry) (r : HistoryRow) (d : DB) :
  let self := o_DeviceID opts in
  let seq := NextSeq d self in
  wf d -> seqs_bounded d self -> db_history d !! e_ID entry = Some r ->
  (forall k r', db_history d !! k = Some r' -> has_origin self seq r' = false) ->
  exists d', EnqueueHistoryCreated opts now entry d = (d', Ok tt) /\
    db_heads d' !! self = Some seq /\
    History.Get d' (e_ID entry) = Some (scanEntry (db_interns d) (hr_set_origin self seq r)) /\
    range_at now d' self seq =
      Some (created_at now d' self seq (scanEntry (db_interns d) (hr_set_origin self seq r))).
Proof.
  intros self seq Hwf Hb Hr Hno. unfold EnqueueHistoryCreated. erewrite bind_Ok by reflexivity.
  fold self seq. destruct (NextSeq_above d self Hb) as [Hev Hhd]. fold seq in Hev, Hhd.
  assert (db_events d !! (self, seq) = None) as Hfresh.
  { destruct (db_events d !! (self, seq)) eqn:E; [|done]. specialize (Hev _ _ E). lia. }
  set (ev := NewHistoryCreated now self seq entry).
  assert (Append ev d = (set_events (<[(self, seq) := event_row ev]> (db_events d)) d, Ok tt)) as Ha.
  { unfold Append, AppendExec. simpl. by rewrite Hfresh. }
  rewrite (bind_Ok _ _ _ _ _ Ha).
  assert (select_any (same_origin (hr_set_origin self seq r)) (delete (e_ID entry) (db_history d)) = false) as Hsel.
  { apply select_any_false. intros k r' [_ Hk]%lookup_delete_Some.
    rewrite (same_origin_has_origin self seq) by done. eauto. }
  erewrite bind_Ok by (unfold set_origin; simpl; rewrite Hr, Hsel; reflexivity).
  unfold enqueue_done. erewrite bind_Ok by reflexivity. fold self. simpl.
  assert (exists d1, Set_ self seq (set_events (alter er_set_applied (self, seq)
      (<[(self, seq) := event_row ev]> (db_events d)))
      (set_history (<[e_ID entry := hr_set_origin self seq r]> (db_history d)) d)) = (d1, Ok tt) /\
    db_heads d1 !! self = Some seq /\
    db_history d1 = <[e_ID entry := hr_set_origin self seq r]> (db_history d) /\
    db_interns d1 = db_interns d /\
    db_events d1 !! (self, seq) = Some (er_set_applied (event_row ev))) as (d1 & Hset & Hh1 & Hhist & Hint & Hev1).
  { eexists. split; [reflexivity|]. simpl.
    assert (alter er_set_applied (self, seq) (<[(self, seq):=event_row ev]> (db_events d)) !! (self, seq) =
      Some (er_set_applied (event_row ev))) as Hal by by rewrite lookup_alter_eq, lookup_insert_eq.
    destruct (db_heads d !! self) as [h|] eqn:Eh; [|by split_and!; [apply lookup_insert_eq|..]].
    specialize (Hhd _ eq_refl). rewrite (proj2 (Z.ltb_lt _ _) Hhd). by split_and!; [apply lookup_insert_eq|..]. }
  erewrite bind_Ok by exact Hset.
  exists (CompactUpToHeads d1).1. split; [done|]. split; [done|].
  assert (History.ByOrigin (CompactUpToHeads d1).1 self seq =
    Some (scanEntry (db_interns d) (hr_set_origin self seq r))) as Hby.
  { unfold History.ByOrigin, scanFound. simpl. rewrite Hint, Hhist.
    rewrite (select_one_unique _ _ (e_ID entry) (hr_set_origin self seq r)); [done|by rewrite lookup_insert_eq| |].
    - unfold has_origin. by apply bool_decide_eq_true.
    - intros k' r' Hk' Ho. rewrite lookup_insert in Hk'. case_decide; [congruence|].
      by rewrite (Hno _ _ Hk') in Ho. }
  split.
  - unfold History.Get, scanFound. simpl. by rewrite Hint, Hhist, lookup_insert_eq.
  - unfold range_at. rewrite lookup_compacted, Hev1.
    assert (compactable (db_heads d1) (self, seq) (er_set_applied (event_row ev)) = true) as ->.
    { unfold compactable, is_created_row. simpl. rewrite Hh1. simpl. apply Z.leb_refl. }
    by rewrite Hby.
Qed.
End Run.
