(* ===== verification/Repository.v ===== *)
(** [internal/repository/probe.go]: what kind of repository, if any, an
    endpoint holds, decided from a few known keys without listing the root of
    an expensive backend. *)

From S2P Require Import Prelude Keys Transport.

Inductive ProbeResult := Empty | Unrelated | Valid | Partial | UnsupportedVersion.

#[global] Instance probe_result_eq_dec : EqDecision ProbeResult.
Proof. solve_decision. Defined.

Record Report := mkReport { rp_Result : ProbeResult; rp_Message : string }.

Definition currentRemoteVersion : Z := 1.

(** The two fields of [metadata/manifest] the probe reads. *)
Record remoteManifest := mkProbeManifest { pm_Version : Z; pm_ActiveGeneration : string }.

Definition layoutPrefixes : list string := ["metadata/"; "keys/"; "events/"; "checkpoints/"; "acks/"]%string.
Definition layoutDirs : list string := ["metadata"; "keys"; "events"; "checkpoints"; "acks"]%string.

Definition looksLikeRepo (objs : list Object) (hasManifest hasGens : bool) : bool :=
  hasManifest || hasGens ||
  existsb (fun o => existsb (fun p => has_prefix p (o_Key o)) layoutPrefixes) objs.

Definition hasLayoutDir (dirs : list string) : bool :=
  existsb (fun d => existsb (String.eqb (trim_char slash d)) layoutDirs) dirs.

Section Probe.
Context {S : Type} (tr : Transport S) `{Codec GManifest} `{Codec remoteManifest}.

Definition listShallow (prefix : string) : M S (list Object) :=
  match tr_ListShallow tr with Some f => f prefix | None => mret [] end.

(** A missing object is [None]; an empty one is [Some []]. *)
Definition getOptional (key : string) : M S (option bytes) :=
  r ← try (tr_Get tr key);
  match r with
  | Fail e => if absent e then mret None else fail e
  | Ok rd => b ← of_result (ReadAll rd); mret (Some b)
  end.

Fixpoint layout_prefix_exists (ps : list string) : M S bool :=
  match ps with
  | [] => mret false
  | p :: ps =>
      dirs ← tr_ListDirs tr p;
      match dirs with
      | _ :: _ => mret true
      | [] =>
          files ← listShallow p;
          match files with
          | _ :: _ => mret true
          | [] => layout_prefix_exists ps
          end
      end
  end.
Definition layoutPrefixExists : M S bool := layout_prefix_exists layoutDirs.

Definition generation_file (dir : string) : string :=
  let key := trim_char slash dir in
  if has_suffix "/manifest" key then key else (trim_right slash key +:+ "/manifest")%string.

(** The manifests found through the directories, then through the files. *)
Fixpoint read_manifests (keys : list string) (seen : gset string) : M S (gset string * list bytes) :=
  match keys with
  | [] => mret (seen, [])
  | key :: keys =>
      if bool_decide (key ∈ seen) then read_manifests keys seen
      else
        raw ← getOptional key;
        '(seen, out) ← read_manifests keys ({[key]} ∪ seen);
        mret (seen, match raw with Some b => b :: out | None => out end)
  end.

Definition listGenerationManifests : M S (list bytes) :=
  dirs ← tr_ListDirs tr "keys/generations";
  '(seen, out) ← read_manifests (generation_file <$> dirs) ∅;
  files ← listShallow "keys/generations";
  '(_, more) ← read_manifests (List.filter (has_suffix "manifest") (o_Key <$> files)) seen;
  mret (out ++ more).

Definition version_or_1 (v : Z) : Z := if v =? 0 then 1 else v.

Definition generationLooksValid (raws : list bytes) : bool :=
  existsb (fun raw =>
    match (unmarshal raw : option GManifest) with
    | None => false
    | Some m => negb (str_empty (gm_GenerationID m)) &&
                (version_or_1 (gm_Version m) =? generations_CurrentVersion)
    end) raws.

(** Neither a manifest nor generations. *)
Definition probe_bare : M S Report :=
  looksLike ← layoutPrefixExists;
  if (looksLike : bool) then mret (mkReport Partial "remnix-looking files are present but metadata/manifest and keys/generations are missing")
  else if tr_ListingExpensive tr then mret (mkReport Empty "no remnix metadata at this path")
  else
    dirs ← tr_ListDirs tr "";
    files ← listShallow "";
    mret (if hasLayoutDir dirs || looksLikeRepo files false false
          then mkReport Partial "remnix-looking files are present but metadata/manifest and keys/generations are missing"
          else match dirs, files with
               | [], [] => mkReport Empty "no objects at this path"
               | _, _ => mkReport Unrelated "path contains files that are not a remnix repository"
               end).

Definition probe_manifest (raw : bytes) (gens : list bytes) : Report :=
  match (unmarshal raw : option remoteManifest) with
  | None => mkReport Partial "metadata/manifest is not valid JSON"
  | Some rm =>
      if negb (version_or_1 (pm_Version rm) =? currentRemoteVersion)
      then mkReport UnsupportedVersion ("unsupported repository version " +:+ sprint_d (pm_Version rm))
      else if str_empty (pm_ActiveGeneration rm)
      then mkReport Partial "metadata/manifest is missing active_generation"
      else match gens with
           | [] => mkReport Partial "keys/generations is missing or empty"
           | _ => if negb (generationLooksValid gens)
                  then mkReport Partial "keys/generations does not contain a valid generation manifest"
                  else mkReport Valid "existing remnix repository"
           end
  end.

Definition Probe : M S Report :=
  _ ← PullSession tr;
  manifestRaw ← getOptional "metadata/manifest";
  gens ← listGenerationManifests;
  match manifestRaw with
  | Some (_ :: _ as raw) => mret (probe_manifest raw gens)
  | _ => match gens with
         | [] => probe_bare
         | _ => mret (mkReport Partial "keys/generations found without metadata/manifest")
         end
  end.

(** ** A repository that is there is seen *)

Lemma probe_manifest_result raw gens :
  rp_Result (probe_manifest raw gens) <> Empty /\ rp_Result (probe_manifest raw gens) <> Unrelated.
Proof. unfold probe_manifest. repeat case_match; done. Qed.

Context `{!ObjectStore tr}.
Notation same := (same_objects (tr := tr)).

Lemma listShallow_same p : mono same (listShallow p).
Proof. unfold listShallow. destruct (tr_ListShallow tr) eqn:E; [by apply list_shallow_same|mono_solve]. Qed.
Lemma getOptional_same k : mono same (getOptional k).
Proof. unfold getOptional. mono_solve. Qed.
#[local] Hint Resolve listShallow_same getOptional_same : remnix.
Lemma read_manifests_same keys seen : mono same (read_manifests keys seen).
Proof. revert seen. induction keys as [|k keys IH]; intros seen; simpl; mono_solve. Qed.
#[local] Hint Resolve read_manifests_same : remnix.
Lemma layout_prefix_exists_same ps : mono same (layout_prefix_exists ps).
Proof. induction ps as [|p ps IH]; simpl; mono_solve. Qed.
#[local] Hint Resolve layout_prefix_exists_same : remnix.
Lemma Probe_same : tr_Session tr = None -> mono same Probe.
Proof.
  intros Hs. unfold Probe, PullSession, listGenerationManifests, probe_bare, layoutPrefixExists.
  rewrite Hs. mono_solve.
Qed.

Lemma getOptional_present k s s' r b :
  store_inv s -> store_key k -> objects s !! k = Some b -> getOptional k s = (s', r) -> r = Ok (Some b).
Proof.
  intros Hs Hk Hb E. unfold getOptional, try, mbind, M_bind in E.
  destruct (tr_Get tr k s) as [s1 r1] eqn:Eg. destruct (store_get _ _ _ _ Hs Eg) as (_ & _ & Hget).
  specialize (Hget Hk). rewrite Hb in Hget. subst r1. by injection E as _ <-.
Qed.

(** With a manifest in place the probe never reports an empty or unrelated
    path. *)
Lemma Probe_sees_manifest s s' rep raw :
  tr_Session tr = None -> store_inv s -> store_key "metadata/manifest" ->
  objects s !! "metadata/manifest"%string = Some raw -> raw <> [] ->
  Probe s = (s', Ok rep) -> rp_Result rep <> Empty /\ rp_Result rep <> Unrelated.
Proof.
  intros Hses Hs Hk Hb Hne E. unfold Probe in E.
  apply bind_Ok_inv in E as (s1 & u & E1 & E). unfold PullSession in E1. rewrite Hses in E1.
  injection E1 as <- <-. apply bind_Ok_inv in E as (s2 & m & E2 & E).
  pose proof (getOptional_present _ _ _ _ _ Hs Hk Hb E2) as [= ->].
  apply bind_Ok_inv in E as (s3 & gens & _ & E). destruct raw as [|x raw]; [done|].
  injection E as _ <-. apply probe_manifest_result.
Qed.
End Probe.
