(* ===== verification/Rotate.v ===== *)
(** [internal/sync/syncer]: the first publication of a repository ([init.go],
    [RemoteInitialized] and [InitializeRemote]) and the rotation of the key
    generation ([rotate.go]), which stages the next generation in a journal,
    publishes it, switches [metadata/manifest] to it and then switches the
    local key store. *)

From S2P Require Import Prelude Database History Frontier Event Device Merge Bundle Snapshot Keys.
From S2P Require Import KeyStore Transport Gc Roster Engine Repository.

Section Rotate.
Context {S : Type} (tr : Transport S) (opts : Options) (now : Time).
Context `{Mac} `{Aead} `{Codec GManifest} `{Codec WrapParams} `{Codec YubiMeta}
  `{Codec RemoteManifest} `{Codec DeviceFile} `{Codec remoteManifest}.
Context (OpenHMACDevices : result (list FidoDevice)).
(** [recovery.Encode], and the randomness and clock of the new generation. *)
Context (Encode : bytes -> result string) (gd : GenDraw) (rewraps draws : nat -> Draw).

(** ** [init.go] *)

Definition RemoteInitialized : M S bool :=
  rep ← Probe tr;
  mret (bool_decide (rp_Result rep = Valid) || bool_decide (rp_Result rep = Partial) ||
        bool_decide (rp_Result rep = UnsupportedVersion)).

Definition ErrRemoteInitialized : error := EMsg "remote already initialized".

Definition version_file : bytes := b "{" ++ x22 :: b "version" ++ x22 :: b ":1}".

Definition InitializeRemote (m : GManifest) (smk : bytes) : M (ES S) unit :=
  rep ← net (Probe tr);
  match rp_Result rep with
  | Valid => fail ErrRemoteInitialized
  | Partial | UnsupportedVersion => fail (EWrap (rp_Message rep) ErrRemoteInitialized)
  | Empty | Unrelated =>
      _ ← sql (PutGeneration (UnixMilli now) m);
      _ ← sql (Upsert now (mkDevice (o_DeviceID opts) (o_DeviceName opts) (o_Hostname opts)
                 StatusActive time_zero None));
      _ ← net (tr_PutAtomic tr (generation_key (gm_GenerationID m)) (bytes_reader (marshal m)));
      let rm := SignRemote now (mkRemoteManifest syncer_CurrentVersion 1 (gm_GenerationID m)
                  [o_DeviceID opts] [] [] 0 "") smk in
      _ ← net (tr_PutAtomic tr "metadata/manifest" (bytes_reader (marshal rm)));
      _ ← net (tr_PutAtomic tr "metadata/version" (bytes_reader version_file));
      _ ← sql (SetTrusted (UnixMilli now) (trustKind opts) (gm_GenerationID m) (rm_Counter rm) "" (marshal rm));
      publishDeviceHead tr opts
  end.

(** ** [rotate.go] *)

Definition rotationNotCommitted (e : error) : error := EWrap "key rotation was not committed" e.
Definition rotationCommittedLocal (e : error) : error :=
  EWrap "key rotation committed remotely, but local key state could not be updated" e.

Definition generationsAtSeq (gens : list GManifest) (seq : Z) : list GManifest :=
  List.filter (fun g => gm_Seq g =? seq) gens.

Definition findGeneration (gens : list GManifest) (id : string) : option GManifest :=
  List.find (fun g => String.eqb (gm_GenerationID g) id) gens.

Definition rejectConflictingSeq (atSeq : list GManifest) (expectedID : string) : result unit :=
  if str_empty expectedID then
    if (1 <? length atSeq)%nat then Fail (EMsg "conflicting generations claim the same seq") else Ok tt
  else if existsb (fun g => negb (String.eqb (gm_GenerationID g) expectedID)) atSeq
       then Fail (EMsg "conflicting generation also claims the seq") else Ok tt.

(** The loop of [listRemoteGenerations] over the objects read. *)
Fixpoint parse_generations (raw : list (string * bytes)) : result (list GManifest) :=
  match raw with
  | [] => Ok []
  | (key, body) :: raw =>
      if negb (has_suffix "/manifest" key) then parse_generations raw
      else match (unmarshal body : option GManifest) with
           | None => Fail (EWrap "generation manifest" (EMsg "json"))
           | Some m => ms ← parse_generations raw; Ok (m :: ms)
           end
  end.
Definition listRemoteGenerations : M (ES S) (list GManifest) :=
  raw ← readPrefix tr "keys/generations";
  of_result (parse_generations (map_to_list raw)).

(** A manifest that cannot be read is no manifest. *)
Definition loadRemoteManifest : M (ES S) (option RemoteManifest) :=
  r ← try (getBytes tr "metadata/manifest");
  match r with
  | Fail _ => mret None
  | Ok raw => match (unmarshal raw : option RemoteManifest) with
              | None => fail (EMsg "json")
              | Some rm => mret (Some rm)
              end
  end.

(** Empty keys are not cached. *)
Definition rememberSMKs (smks : gmap string bytes) : M (ES S) unit :=
  _ ← modify (fun s => set_es_cached (filter (fun '(_, smk) => smk <> []) smks ∪ es_cached s) s);
  s ← get;
  StoreSMKs (es_cached s).

Definition rotation_unlock : Unlock :=
  mkUnlock (o_RecoverySecret opts) (o_Tokens opts) (default [] (o_FIDO2 opts)).

Definition verifyNewGeneration (next : GManifest) (smk : bytes) : result unit :=
  match Verify next smk with
  | Fail e => Fail (EWrap "verify new generation" e)
  | Ok _ =>
      match UnwrapAny (gm_Slots next) rotation_unlock with
      | Fail e => Fail (EWrap "new generation is not recoverable" e)
      | Ok (got, _) => if bool_decide (got = smk) then Ok tt
                       else Fail (EMsg "new generation slot unwrap mismatch")
      end
  end.

(** The keys at hand, then the cache, then the slots. *)
Definition usable_key (d : DB) (m : GManifest) (keys : gmap string bytes) : option bytes :=
  match keys !! gm_GenerationID m with
  | Some smk => if cachedSMKValid d m smk then Some smk else None
  | None => None
  end.
Definition smkFor (m : GManifest) (smks : gmap string bytes) (s : ES S) : result bytes :=
  match usable_key (es_db s) m smks with
  | Some smk => Ok smk
  | None =>
      match usable_key (es_db s) m (es_cached s) with
      | Some smk => Ok smk
      | None => '(smk, _) ← UnwrapAny (gm_Slots m) rotation_unlock; Ok smk
      end
  end.
Definition smk_for (m : GManifest) (smks : gmap string bytes) : M (ES S) bytes := fun s =>
  (s, smkFor m smks s).

(** Runs [m] and rewrites its error. *)
Definition wrap_error {A} (w : error -> error) (m : M (ES S) A) : M (ES S) A :=
  r ← try m;
  match r with Ok a => mret a | Fail e => fail (w e) end.

Definition loadJournalPair (rot : RotationRow) (smks : gmap string bytes) (remoteGens : list GManifest)
    : M (ES S) (GManifest * GManifest * bytes * bytes) :=
  old ← query (fun d => Generation d (rr_old_generation_id rot));
  match old with
  | None => fail (rotationNotCommitted (EMsg "in-progress rotation is missing old generation"))
  | Some old =>
      known ← query (fun d => Generation d (rr_new_generation_id rot));
      next ← (match known with
              | Some next => mret next
              | None =>
                  match findGeneration remoteGens (rr_new_generation_id rot) with
                  | Some remote =>
                      let next := gm_with_Active false remote in
                      _ ← wrap_error rotationNotCommitted (sql (PutGeneration (UnixMilli now) next));
                      mret next
                  | None => fail (rotationNotCommitted (EMsg "in-progress rotation generation is missing"))
                  end
              end);
      oldSMK ← wrap_error rotationNotCommitted (smk_for old smks);
      newSMK ← wrap_error rotationNotCommitted (smk_for next smks);
      mret (old, next, oldSMK, newSMK)
  end.

(** The generation the remote has already moved to, when this device can
    unlock it and the manifest verifies under its key. *)
Definition remoteAheadOfLocal (local : GManifest) (smks : gmap string bytes) (rm : RemoteManifest)
    : M (ES S) (option (GManifest * bytes)) :=
  let id := rm_ActiveGeneration rm in
  if str_empty id || String.eqb id (gm_GenerationID local) then mret None
  else
    known ← query (fun d => Generation d id);
    next ← (match known with
            | Some next => mret next
            | None =>
                raw ← wrap_error (fun _ => EMsg "remote already selects another generation")
                        (getBytes tr (generation_key id));
                match (unmarshal raw : option GManifest) with
                | Some m => mret m
                | None => fail (EMsg "json")
                end
            end);
    smk ← wrap_error (fun _ => EMsg "remote already selects a generation this device cannot unlock")
            (smk_for next smks);
    mret (if is_Ok (VerifyRemote rm smk) then Some (gm_with_Active false next, smk) else None).

(** Whether the switch took place: the manifest is read back, since a write
    that reported an error may have gone through. *)
Definition activateRotatedGeneration (next : GManifest) (oldSMK newSMK : bytes)
    : M (ES S) (bool * option error) :=
  putErr ← try (publishRemoteRoster tr opts now (gm_GenerationID next) (gm_Counter next) newSMK oldSMK []);
  loaded ← try loadRemoteManifest;
  let selected := match loaded with
                  | Ok (Some rm) => is_Ok (VerifyRemote rm newSMK) &&
                                    String.eqb (rm_ActiveGeneration rm) (gm_GenerationID next)
                  | _ => false
                  end in
  if selected then
    _ ← ignore (sql (SetRotationPhase (UnixMilli now) RotationManifestCommitted));
    mret (true, None)
  else match putErr with
       | Fail e => mret (false, Some (rotationNotCommitted (EWrap "failed to activate new generation" e)))
       | Ok _ =>
           _ ← ignore (sql (SetRotationPhase (UnixMilli now) RotationManifestCommitted));
           mret (true, None)
       end.

Definition reconcileRotatedLocal (old next : GManifest) (newSMK : bytes) : M (ES S) unit :=
  r ← try (sql (PromoteRotation (UnixMilli now) (gm_GenerationID old) (gm_GenerationID next)));
  _ ← (match r with
       | Ok _ => mret tt
       | Fail _ => _ ← sql (PutGeneration (UnixMilli now) (gm_with_Active false old));
                   sql (PutGeneration (UnixMilli now) (gm_with_Active true next))
       end);
  rememberSMKs {[gm_GenerationID next := newSMK]}.

(** The pair the function returns: the encoded recovery secret is handed back
    with the error, too. *)
Definition finishRotation (old next : GManifest) (oldSMK newSMK : bytes) (encoded : string)
    : M (ES S) (string * option error) :=
  _ ← rememberSMKs (<[gm_GenerationID next := newSMK]> {[gm_GenerationID old := oldSMK]});
  let pub := Sign (gm_with_Active true next) newSMK in
  published ← try (publishGenerationMaterial tr pub);
  match published with
  | Fail e => mret (encoded, Some (rotationNotCommitted (EWrap "failed to publish new generation" e)))
  | Ok _ =>
      _ ← ignore (sql (SetRotationPhase (UnixMilli now) RotationGenerationPublished));
      '(committed, err) ← activateRotatedGeneration next oldSMK newSMK;
      match err, committed with
      | Some e, false => mret (encoded, Some e)
      | _, _ =>
          r ← try (reconcileRotatedLocal old next newSMK);
          match r with
          | Fail e => mret (encoded, Some (rotationCommittedLocal e))
          | Ok _ =>
              _ ← ignore (sql (SetRotationPhase (UnixMilli now) RotationComplete));
              mret (encoded, None)
          end
      end
  end.

Definition with_draws {A} (l : list A) : list (Draw * A) := imap (fun i x => (draws i, x)) l.

(** No journal and the remote is not ahead: adopt the one generation that
    already claims the next number, or mint a new one. *)
Definition start_rotation (active : GManifest) (smks : gmap string bytes) (remoteGens : list GManifest)
    : M (ES S) (string * option error) :=
  let remoteAtSeq := generationsAtSeq remoteGens (wrap64 (gm_Seq active + 1)) in
  let activeSMK := default [] (smks !! gm_GenerationID active) in
  _ ← of_result (rejectConflictingSeq remoteAtSeq "");
  match remoteAtSeq with
  | [cand] =>
      smk ← wrap_error (fun _ => EMsg "a generation with this seq already exists and cannot be proven to belong to this rotation")
              (smk_for cand smks);
      let cand := gm_with_Active false cand in
      _ ← wrap_error rotationNotCommitted (sql (StageRotation (UnixMilli now) cand active ""));
      finishRotation active cand activeSMK smk ""
  | _ =>
      '(next, newSMK, encoded) ← wrap_error rotationNotCommitted (of_result
        (NewGenerationFromSlots Encode gd rewraps active
           (match o_RecoverySecret opts with [] => None | secret => Some secret end)
           (with_draws (o_Tokens opts)) (with_draws (default [] (o_FIDO2 opts)))));
      _ ← wrap_error rotationNotCommitted (of_result (verifyNewGeneration next newSMK));
      _ ← wrap_error rotationNotCommitted (sql (StageRotation (UnixMilli now) next active encoded));
      finishRotation active next activeSMK newSMK encoded
  end.

(** An early return, with no secret to hand back, is a [Fail]. *)
Definition rotateGeneration : M (ES S) (string * option error) :=
  '(smks, active) ← wrap_error rotationNotCommitted (Unlock_ opts OpenHMACDevices);
  _ ← rememberSMKs smks;
  rot ← query Rotation;
  remoteGens ← wrap_error rotationNotCommitted listRemoteGenerations;
  orm ← wrap_error rotationNotCommitted loadRemoteManifest;
  match rot with
  | Some rot =>
      '(old, next, oldSMK, newSMK) ← loadJournalPair rot smks remoteGens;
      _ ← of_result (rejectConflictingSeq (generationsAtSeq remoteGens (rr_new_seq rot)) (rr_new_generation_id rot));
      finishRotation old next oldSMK newSMK (rr_recovery_bech32 rot)
  | None =>
      ahead ← (match orm with Some rm => remoteAheadOfLocal active smks rm | None => mret None end);
      match ahead with
      | Some (next, newSMK) =>
          let oldSMK := default [] (smks !! gm_GenerationID active) in
          staged ← try (sql (StageRotation (UnixMilli now) next active ""));
          _ ← (match staged with
               | Ok _ => mret tt
               | Fail e =>
                   known ← query (fun d => Generation d (gm_GenerationID next));
                   match known with Some _ => mret tt | None => fail (rotationNotCommitted e) end
               end);
          finishRotation active next oldSMK newSMK ""
      | None => start_rotation active smks remoteGens
      end
  end.

Definition RotateGeneration : M (ES S) (string * option error) := withRemote tr rotateGeneration.
End Rotate.

(** ** Safety *)

Section Safety.
Context {S : Type} (tr : Transport S) (opts : Options) (now : Time) `{!ObjectStore tr}.
Context `{Mac} `{Aead} `{Codec GManifest} `{Codec WrapParams} `{Codec YubiMeta}
  `{Codec RemoteManifest} `{Codec DeviceFile} `{Codec remoteManifest}.
Notation objs s := (objects (tr := tr) (es_tr s)).
Notation inv s := (store_inv (tr := tr) (es_tr s)).
Notation manifest := "metadata/manifest"%string.

(** Reading the remote changes neither the objects nor the database. *)
Definition reads : relation (ES S) := fun s s' =>
  es_db s' = es_db s /\ (inv s -> inv s' /\ objs s' = objs s).
#[local] Instance reads_preorder : PreOrder reads.
Proof.
  unfold reads. split; [by intros s|]. intros s1 s2 s3 [-> H12] [-> H23]. split; [done|].
  intros Hi. destruct (H12 Hi) as [Hi2 <-]. auto.
Qed.
Lemma net_reads {A} (m : M S A) : mono (same_objects (tr := tr)) m -> mono reads (net m).
Proof. intros Hm. apply mono_zoom. intros s. split; [done|]. intros Hi. exact (Hm _ Hi). Qed.
Lemma query_reads {A} (f : DB -> A) : mono reads (query f).
Proof. by intros s. Qed.
Lemma getBytes_reads k : mono reads (getBytes tr k).
Proof. apply net_reads. unfold readAll. mono_solve. Qed.
#[local] Hint Resolve query_reads getBytes_reads : remnix.
Lemma loadRemoteManifest_reads : mono reads (loadRemoteManifest tr).
Proof. unfold loadRemoteManifest. mono_solve. Qed.

(** The parts of the database a phase change of the journal leaves alone. *)
Definition journal_same (d d' : DB) : Prop :=
  db_generations d' = db_generations d /\
  rr_new_generation_id <$> db_rotation d' = rr_new_generation_id <$> db_rotation d.

Lemma SetRotationPhase_run ph (s : ES S) :
  exists d, ignore (sql (SetRotationPhase (UnixMilli now) ph)) s = (set_es_db d s, Ok tt) /\
    journal_same (es_db s) d.
Proof.
  unfold ignore, sql, zoom, SetRotationPhase. destruct (db_rotation (es_db s)) as [r|] eqn:E; simpl.
  - eexists. split; [done|]. unfold journal_same. simpl. by rewrite E.
  - exists (es_db s). done.
Qed.

(** [publishRemoteRoster] writes a manifest signed with [signSMK] that selects
    [gen], or leaves the remote as it was. *)
Lemma publishRemoteRoster_outcome gen c signSMK verifySMK extra s :
  inv s -> store_key (tr := tr) manifest ->
  exists s' r, publishRemoteRoster tr opts now gen c signSMK verifySMK extra s = (s', r) /\
    inv s' /\ journal_same (es_db s) (es_db s') /\
    match r with
    | Ok _ => exists rm, objs s' = <[manifest := marshal rm]> (objs s) /\
                VerifyRemote rm signSMK = Ok tt /\ rm_ActiveGeneration rm = gen
    | Fail _ => objs s' = objs s
    end.
Proof.
  intros Hi Hk. unfold publishRemoteRoster.
  destruct (try (getBytes tr manifest) s) as [s1 r1] eqn:E1.
  assert (reads s s1) as [Hd Hs].
  { eapply mono_run; [|exact E1]. mono_solve. }
  destruct (Hs Hi) as [Hi1 Ho1].
  assert (exists raw, r1 = Ok raw) as [raw ->] by (unfold try in E1; case_match; simplify_eq; eauto).
  rewrite (bind_Ok _ _ _ _ _ E1). erewrite bind_Ok by reflexivity.
  set (rm := SignRemote _ _ _). unfold id in rm.
  unfold net, zoom. unfold mbind, M_bind.
  destruct (tr_PutAtomic tr manifest (bytes_reader (marshal rm)) (es_tr s1)) as [t r] eqn:Ep.
  destruct (store_put _ _ _ _ _ Hi1 Hk Ep) as [Hi2 Hp].
  destruct r as [[]|e]; eexists _, _; (split; [reflexivity|]); simpl.
  - destruct Hp as [_ ->]. rewrite Ho1. split; [done|]. split; [by rewrite <- Hd|].
    exists rm. split; [done|]. unfold rm. rewrite (SignRemote_field rm_ActiveGeneration) by done.
    split; [apply VerifyRemote_SignRemote|]; unfold roster_manifest; by repeat case_match.
  - rewrite Hp, Ho1. split; [done|]. by rewrite Hd.
Qed.

Lemma getBytes_stored k s s' raw :
  inv s -> store_key (tr := tr) k -> getBytes tr k s = (s', Ok raw) -> objs s !! k = Some raw.
Proof.
  intros Hi Hk. unfold getBytes, net, zoom, readAll, mbind, M_bind.
  destruct (tr_Get tr k (es_tr s)) as [t [rd|e]] eqn:Eg; [|done].
  destruct (store_get _ _ _ _ Hi Eg) as (_ & _ & Hget). specialize (Hget Hk).
  destruct (objs s !! k) as [raw'|].
  - injection Hget as ->. by intros [= _ <-].
  - destruct (Hget rd eq_refl) as [e He]. unfold of_result, ReadAll. by rewrite He.
Qed.

Lemma loadRemoteManifest_stored s s' rm :
  inv s -> store_key (tr := tr) manifest -> loadRemoteManifest tr s = (s', Ok (Some rm)) ->
  exists raw, objs s !! manifest = Some raw /\ unmarshal raw = Some rm.
Proof.
  intros Hi Hk E. unfold loadRemoteManifest in E. apply bind_Ok_inv in E as (s1 & r & E1 & E).
  unfold try in E1. destruct (getBytes tr manifest s) as [s2 [raw|e]] eqn:Eg; injection E1 as <- <-; [|done].
  exists raw. split; [by eapply getBytes_stored|]. destruct (unmarshal raw); [|done]. by injection E as _ ->.
Qed.

(** The remote selects the generation [id] with a manifest signed with [smk]. *)
Definition selects (id : string) (smk : bytes) (objs : gmap string bytes) : Prop :=
  exists rm raw, objs !! manifest = Some raw /\ (raw = marshal rm \/ unmarshal raw = Some rm) /\
    VerifyRemote rm smk = Ok tt /\ rm_ActiveGeneration rm = id.

Lemma journal_same_trans d1 d2 d3 : journal_same d1 d2 -> journal_same d2 d3 -> journal_same d1 d3.
Proof. unfold journal_same. intros [-> ->] [-> ->]. done. Qed.

Lemma activate_outcome next oldSMK newSMK s :
  inv s -> store_key (tr := tr) manifest ->
  exists s' committed err,
    activateRotatedGeneration tr opts now next oldSMK newSMK s = (s', Ok (committed, err)) /\
    inv s' /\ journal_same (es_db s) (es_db s') /\
    (forall k, k <> manifest -> objs s' !! k = objs s !! k) /\
    (if committed : bool then err = None /\ selects (gm_GenerationID next) newSMK (objs s')
     else is_Some err /\ objs s' = objs s).
Proof.
  intros Hi Hk. unfold activateRotatedGeneration.
  destruct (publishRemoteRoster_outcome (gm_GenerationID next) (gm_Counter next) newSMK oldSMK [] s Hi Hk)
    as (s1 & putErr & E1 & Hi1 & Hj1 & Hput).
  assert (try (publishRemoteRoster tr opts now (gm_GenerationID next) (gm_Counter next) newSMK oldSMK []) s
    = (s1, Ok putErr)) as Et by (unfold try; by rewrite E1).
  rewrite (bind_Ok _ _ _ _ _ Et).
  destruct (loadRemoteManifest tr s1) as [s2 loaded] eqn:E2.
  assert (try (loadRemoteManifest tr) s1 = (s2, Ok loaded)) as El by (unfold try; by rewrite E2).
  rewrite (bind_Ok _ _ _ _ _ El).
  destruct (mono_run _ _ _ _ _ loadRemoteManifest_reads E2) as [Hd2 Hs2]. destruct (Hs2 Hi1) as [Hi2 Ho2].
  assert (forall k, k <> manifest -> objs s1 !! k = objs s !! k) as Hother.
  { intros k Hne. destruct putErr as [[]|]; [|by rewrite Hput].
    destruct Hput as (rm & -> & _). by rewrite lookup_insert_ne. }
  set (selected := match loaded with Ok (Some rm) => _ | _ => false end).
  destruct (SetRotationPhase_run RotationManifestCommitted s2) as (d & Ep & Hj2).
  assert (journal_same (es_db s) d) as Hj.
  { eapply journal_same_trans; [exact Hj1|]. by rewrite <- Hd2. }
  destruct selected eqn:Es.
  - rewrite (bind_Ok _ _ _ _ _ Ep). eexists _, _, _. split; [reflexivity|]. simpl.
    split; [done|]. split; [done|]. rewrite Ho2. split; [done|]. split; [done|].
    unfold selected in Es. destruct loaded as [[rm|]|]; try done.
    destruct (loadRemoteManifest_stored _ _ _ Hi1 Hk E2) as (raw & Hr & Hu).
    apply andb_true_iff in Es as [Hv Hg%String.eqb_eq]. exists rm, raw.
    destruct (VerifyRemote rm newSMK) as [[]|]; [auto|done].
  - destruct putErr as [[]|e].
    + rewrite (bind_Ok _ _ _ _ _ Ep). eexists _, _, _. split; [reflexivity|]. simpl.
      split; [done|]. split; [done|]. rewrite Ho2. split; [done|]. split; [done|].
      destruct Hput as (rm & -> & Hv & Hg). exists rm, (marshal rm). rewrite lookup_insert_eq. auto.
    + eexists _, _, _. split; [reflexivity|]. simpl. rewrite Ho2, Hput. unfold journal_same. by rewrite Hd2.
Qed.

Lemma reconcileRotatedLocal_run old next newSMK (s : ES S) :
  exists s', try (reconcileRotatedLocal now old next newSMK) s = (s', Ok (Ok tt)) /\ es_tr s' = es_tr s /\
    db_generations (es_db s') = alter (gr_set_status "active") (gm_GenerationID next)
      (alter (gr_set_status "retained") (gm_GenerationID old) (db_generations (es_db s))) /\
    rr_new_generation_id <$> db_rotation (es_db s') = rr_new_generation_id <$> db_rotation (es_db s).
Proof.
  eexists. split; [reflexivity|]. simpl. split; [done|]. split; [done|]. by destruct (db_rotation (es_db s)).
Qed.

Lemma publishGenerationMaterial_outcome m s :
  inv s -> store_key (tr := tr) (generation_key (gm_GenerationID m)) ->
  exists t r, try (publishGenerationMaterial tr m) s = (set_es_tr t s, Ok r) /\ store_inv (tr := tr) t /\
    objects t = match r with
                | Ok _ => <[generation_key (gm_GenerationID m) := marshal m]> (objs s)
                | Fail _ => objs s
                end.
Proof.
  intros Hi Hkey. unfold try, publishGenerationMaterial, net, zoom.
  destruct (tr_PutAtomic tr _ _ (es_tr s)) as [t r] eqn:Ep. exists t, r. split; [done|].
  destruct (store_put _ _ _ _ _ Hi Hkey Ep) as [Hi1 Hp]. split; [done|]. destruct r as [[]|e]; [|done].
  by destruct Hp as [_ ->].
Qed.


(** Unlocking only reads the database. *)
Definition same_db : relation (ES S) := fun s s' => es_db s' = es_db s.
#[local] Instance same_db_preorder : PreOrder same_db.
Proof. split; [done|]. intros s1 s2 s3 H12 H23. unfold same_db in *. congruence. Qed.
Lemma unlockAll_db OpenHMACDevices : mono same_db (unlockAll (S := S) opts OpenHMACDevices).
Proof.
  assert (forall smks, mono same_db (StoreSMKs smks)) as Hst by by intros smks s.
  unfold unlockAll, query. mono_solve.
Qed.

Lemma wrap_error_run {A} w (m : M (ES S) A) s s' r :
  m s = (s', r) -> wrap_error w m s = (s', match r with Ok a => Ok a | Fail e => Fail (w e) end).
Proof. intros E. unfold wrap_error, try, mbind, M_bind. rewrite E. by destruct r. Qed.

Lemma rotateGeneration_same_draws OpenHMACDevices (Encode Encode' : bytes -> result string)
    (gd gd' : GenDraw) (rewraps rewraps' draws draws' : nat -> Draw) (s : ES S) :
  is_Some (db_rotation (es_db s)) ->
  rotateGeneration tr opts now OpenHMACDevices Encode gd rewraps draws s =
  rotateGeneration tr opts now OpenHMACDevices Encode' gd' rewraps' draws' s.
Proof.
  intros [rot Hrot]. unfold rotateGeneration.
  destruct (unlockAll opts OpenHMACDevices s) as [s1 r1] eqn:E1.
  pose proof (mono_run _ _ _ _ _ (unlockAll_db OpenHMACDevices) E1) as Hdb. unfold same_db in Hdb.
  apply (wrap_error_run rotationNotCommitted) in E1. unfold Unlock_.
  destruct r1 as [[smks active]|e]; [|by rewrite !(bind_Fail _ _ _ _ _ E1)].
  rewrite !(bind_Ok _ _ _ _ _ E1).
  assert (forall B (f : option RotationRow -> M (ES S) B), (_ ← rememberSMKs smks; query Rotation ≫= f) s1 =
    f (Some rot) (rememberSMKs smks s1).1) as Hstep.
  { intros B f. change (f (Rotation (es_db s1)) (rememberSMKs smks s1).1 = f (Some rot) (rememberSMKs smks s1).1).
    unfold Rotation. by rewrite Hdb, Hrot. }
  by rewrite !Hstep.
Qed.

(** While a rotation is journaled, rotateGeneration does not mint a generation: its result does
    not depend on the random key, secret, ids and nonces a new generation would be made of. *)
Theorem rotateGeneration_resumes OpenHMACDevices (Encode Encode' : bytes -> result string)
    (gd gd' : GenDraw) (rewraps rewraps' draws draws' : nat -> Draw) (s : ES S) :
  is_Some (db_rotation (es_db s)) ->
  rotateGeneration tr opts now OpenHMACDevices Encode gd rewraps draws s =
  rotateGeneration tr opts now OpenHMACDevices Encode' gd' rewraps' draws' s.
Proof. apply rotateGeneration_same_draws. Qed.

(** InitializeRemote on a path that already holds a non-empty metadata/manifest fails and
    changes neither the remote nor the database. *)
Theorem InitializeRemote_guard (m : GManifest) (smk raw : bytes) (s : ES S) :
  tr_Session tr = None -> inv s -> store_key (tr := tr) manifest ->
  objs s !! manifest = Some raw -> raw <> [] ->
  exists s' e, InitializeRemote tr opts now m smk s = (s', Fail e) /\
    es_db s' = es_db s /\ objs s' = objs s.
Proof.
  intros Hses Hi Hk Hraw Hne. unfold InitializeRemote.
  destruct (Probe tr (es_tr s)) as [t r] eqn:Ep.
  assert (net (Probe tr) s = (set_es_tr t s, r)) as En by (unfold net, zoom; by rewrite Ep).
  destruct (mono_run _ _ _ _ _ (Probe_same tr Hses) Ep Hi) as [_ Ho].
  destruct r as [rep|e]; [|rewrite (bind_Fail _ _ _ _ _ En); by eexists _, _].
  destruct (Probe_sees_manifest tr _ _ _ _ Hses Hi Hk Hraw Hne Ep) as [Hn1 Hn2].
  rewrite (bind_Ok _ _ _ _ _ En). destruct (rp_Result rep); first [done|by eexists _, _].
Qed.
End Safety.
