(* ===== verification/Delivery.v ===== *)
(** What a publication puts on the remote and what a pull takes from it: the
    two halves of the exchange of events through a transport. *)

From S2P Require Import Prelude Database History Frontier Event Device Merge Bundle Snapshot.
From S2P Require Import Keys KeyStore Transport Gc Roster Engine EngineSafety Rotate.

Lemma collect_each {S A B} (R : relation S) `{!PreOrder R} (f : A -> M S (option B)) xs s s' ys x :
  (forall x, x ∈ xs -> mono R (f x)) -> collect f xs s = (s', Ok ys) -> x ∈ xs ->
  exists s1 s2 y, R s s1 /\ f x s1 = (s2, Ok y) /\ R s2 s'.
Proof.
  revert s ys. induction xs as [|x0 xs IH]; intros s ys Hm E Hx; [by apply elem_of_nil in Hx|].
  simpl in E. apply bind_Ok_inv in E as (s1 & y0 & E1 & E).
  apply bind_Ok_inv in E as (s2 & ys' & E2 & E). injection E as <- _.
  assert (mono R (collect f xs)) as Hxs by (apply mono_collect; [done|]; intros; apply Hm; by right).
  apply elem_of_cons in Hx as [->|Hx].
  - exists s, s1, y0. split; [done|]. split; [done|]. exact (mono_run _ _ _ _ _ Hxs E2).
  - destruct (IH s1 ys') as (t1 & t2 & y & R1 & Ey & R2); [intros; apply Hm; by right|done|done|].
    exists t1, t2, y. split; [|done]. etrans; [|exact R1].
    exact (mono_run _ _ _ _ _ (Hm x0 ltac:(left)) E1).
Qed.

(** ** Publishing *)

Section Publish.
Context {S : Type} (tr : Transport S) (opts : Options) (now : Time) `{!ObjectStore tr}.
Context `{Sha256} `{EventCodecs} `{Aead} `{BundleCodecs}.
Notation self := (o_DeviceID opts).

Definition bundle_path (raw : bytes) : string := path_join ["events"; self; Filename raw]%string.
Definition published (d : DB) : Z := from_option parse_int 0 (db_transport_state d !! publishedSeqKey opts).

Lemma localMaxSeq_ge d :
  0 <= localMaxSeq opts d /\
  (forall n, event_max d self = Some n -> n <= localMaxSeq opts d) /\
  (forall n, db_heads d !! self = Some n -> n <= localMaxSeq opts d) /\
  (forall n, hist_max d self = Some n -> n <= localMaxSeq opts d).
Proof.
  unfold localMaxSeq. simpl. destruct (event_max d self), (db_heads d !! self), (hist_max d self);
    repeat case_match; split_and!; intros; simplify_eq; lia.
Qed.
Lemma localMaxSeq_le d n :
  0 <= n -> (forall m, event_max d self = Some m -> m <= n) -> db_heads d !! self = Some n ->
  (forall m, hist_max d self = Some m -> m <= n) -> localMaxSeq opts d = n.
Proof.
  intros Hz He Hh Hm. unfold localMaxSeq. simpl. rewrite Hh.
  destruct (event_max d self) as [e|], (hist_max d self) as [m|];
    repeat match goal with H : forall m, Some ?x = Some m -> _ |- _ => specialize (H x eq_refl) end;
    repeat case_match; lia.
Qed.

Lemma event_max_compact d n :
  event_max (CompactUpToHeads d).1 self = Some n -> exists m, event_max d self = Some m /\ n <= m.
Proof.
  intros (r & Hr)%event_max_Some. simpl in Hr. apply map_lookup_filter_Some in Hr as [Hr _].
  by eapply event_max_ge.
Qed.

Lemma Set_self_max d :
  db_heads (Set_ self (localMaxSeq opts d) d).1 !! self = Some (localMaxSeq opts d).
Proof.
  destruct (localMaxSeq_ge d) as (_ & _ & Hh & _). simpl.
  destruct (db_heads d !! self) as [h|] eqn:E; [|simpl; by rewrite lookup_insert_eq].
  specialize (Hh h eq_refl). destruct (Z.ltb_spec h (localMaxSeq opts d)); simpl;
    [by rewrite lookup_insert_eq|]. rewrite E. f_equal. lia.
Qed.

(** The updates after the upload leave nothing to publish. *)
Definition after_upload (d : DB) : DB :=
  (CompactUpToHeads (Set_ self (localMaxSeq opts d)
     (set_state (publishedSeqKey opts) (sprint_d (localMaxSeq opts d)) d).1).1).1.

Lemma after_upload_settled d :
  int64 (localMaxSeq opts d) ->
  localMaxSeq opts (after_upload d) = localMaxSeq opts d /\ published (after_upload d) = localMaxSeq opts d.
Proof.
  intros Hi. destruct (localMaxSeq_ge d) as (Hz & He & _ & Hm).
  set (d1 := (set_state (publishedSeqKey opts) (sprint_d (localMaxSeq opts d)) d).1).
  set (d2 := (Set_ self (localMaxSeq opts d) d1).1).
  assert (db_history d2 = db_history d1 /\ db_events d2 = db_events d1 /\
    db_transport_state d2 = db_transport_state d1) as (Eh & Ee & Et).
  { unfold d2. simpl. by repeat case_match. }
  change (after_upload d) with ((CompactUpToHeads d2).1). split.
  - apply localMaxSeq_le; [done|..|exact (Set_self_max d1)|].
    + intros m (n & Hn & Hle)%event_max_compact. unfold event_max in Hn. rewrite Ee in Hn.
      specialize (He n Hn). lia.
    + intros m Hh. apply Hm. unfold hist_max in *. simpl in Hh. by rewrite Eh in Hh.
  - unfold published. simpl. rewrite Et. unfold d1. simpl. rewrite lookup_insert_eq. simpl.
    by apply parse_int_sprint_d.
Qed.

Lemma publishLocal_nothing nonce smk active s :
  localMaxSeq opts (es_db s) <= published (es_db s) -> publishLocal tr opts now nonce smk active s = (s, Ok tt).
Proof.
  intros Hle. unfold publishLocal. erewrite bind_Ok by reflexivity. erewrite bind_Ok by reflexivity.
  fold (published (es_db s)). by rewrite (proj2 (Z.leb_le _ _) Hle).
Qed.

(** C5: When there are unpublished events, a successful publishLocal adds exactly one object to the
    remote, which unpacks to the events of Range after the last published one, raises the device's
    head to the newest of them, and leaves nothing to publish: running it again changes nothing. *)
Theorem publishLocal_publishes `{!AeadLaws} `{!BundleCodecLaws} (nonce smk : bytes) (active : GManifest)
    (evs : list Event) (s s' : ES S) :
  let d := es_db s in
  let gen := gm_GenerationID active in
  store_inv (es_tr s) ->
  (forall raw h, Pack nonce self gen evs smk = Ok (raw, h) -> store_key (tr := tr) (bundle_path raw)) ->
  published d < localMaxSeq opts d -> int64 (localMaxSeq opts d) ->
  Range now d self (wrap64 (published d + 1)) (localMaxSeq opts d) = Ok evs -> evs <> [] ->
  bundle_valid nonce self gen evs smk ->
  publishLocal tr opts now nonce smk active s = (s', Ok tt) ->
  (exists raw h, objects (es_tr s') = <[bundle_path raw := raw]> (objects (es_tr s)) /\
     Unpack raw smk = Ok (h, evs) /\ h_DeviceID h = self /\ h_GenerationID h = gen) /\
  db_heads (es_db s') !! self = Some (localMaxSeq opts d) /\
  forall nonce' smk' active', publishLocal tr opts now nonce' smk' active' s' = (s', Ok tt).
Proof.
  intros d gen Hi Hk Hlt H64 HR Hne Hv E. unfold publishLocal in E.
  erewrite bind_Ok in E by reflexivity. erewrite bind_Ok in E by reflexivity.
  pose proof (proj2 (Z.leb_gt _ _) Hlt) as Hgt. unfold published, d in Hgt. rewrite Hgt in E.
  erewrite bind_Ok in E by reflexivity. unfold published, d in HR. unfold id in E. rewrite HR in E.
  erewrite bind_Ok in E by reflexivity. destruct evs as [|ev evs]; [done|]. fold gen in E.
  destruct (Pack nonce self gen (ev :: evs) smk) as [[raw h]|e] eqn:Ep; [|done].
  erewrite bind_Ok in E by reflexivity. fold (bundle_path raw) in E.
  destruct (Unpack_Pack_valid _ _ _ _ _ _ _ Hv Ep) as (Hu & _ & Hh).
  apply bind_Ok_inv in E as (s1 & [] & E1 & E). unfold net, zoom in E1.
  destruct (tr_PutAtomic tr _ _ (es_tr s)) as [t r] eqn:Et. injection E1 as <- ->.
  destruct (store_put _ _ _ _ _ Hi (Hk raw h eq_refl) Et) as (_ & _ & Ho).
  assert (s' = set_es_db (after_upload d) (set_es_tr t s)) as -> by (by injection E as <-).
  destruct (after_upload_settled d H64) as [Hmax Hpub]. split; [|split].
  - exists raw, h. simpl. rewrite Ho. by subst h.
  - simpl. exact (Set_self_max (set_state (publishedSeqKey opts) (sprint_d (localMaxSeq opts d)) d).1).
  - intros nonce' smk' active'. apply publishLocal_nothing. simpl. rewrite Hmax, Hpub. done.
Qed.
End Publish.

(** ** Pulling *)

(** Nothing that is settled or marked as pulled is undone. *)
Record progress (d d' : DB) : Prop := {
  pg_settled : forall ev, settled d ev -> settled d' ev;
  pg_pulled : forall k, bundlePulled d k = true -> bundlePulled d' k = true;
}.
#[global] Instance progress_preorder : PreOrder progress.
Proof.
  split; [by intros d; split|]. intros d1 d2 d3 [S12 P12] [S23 P23]. split; auto.
Qed.

Definition same_state (d d' : DB) : Prop := db_transport_state d' = db_transport_state d.
#[global] Instance same_state_preorder : PreOrder same_state.
Proof. unfold same_state. split; [by intros d|]. intros d1 d2 d3 -> ->. done. Qed.

Lemma Set_progress dev seq d :
  is_Some (db_heads d !! dev) \/ 0 <= seq -> progress d (Set_ dev seq d).1.
Proof.
  intros Hok. simpl. destruct (db_heads d !! dev) as [h|] eqn:Eh.
  - destruct (Z.ltb_spec h seq); [|done]. split; [|done].
    intros ev [Hev|Hle]; [by left|right]. simpl. rewrite lookup_insert. case_decide; [subst|done].
    rewrite Eh in Hle. simpl in *. lia.
  - destruct Hok as [[? ?]|Hz]; [done|]. split; [|done].
    intros ev [Hev|Hle]; [by left|right]. simpl. rewrite lookup_insert. case_decide; [subst|done].
    rewrite Eh in Hle. simpl in *. lia.
Qed.

Lemma advance_loop_progress fuel dev head d :
  is_Some (db_heads d !! dev) \/ head = 0 -> progress d (advance_loop fuel dev head d).1.
Proof.
  revert d head. induction fuel as [|fuel IH]; intros d head Hok; simpl; [done|].
  destruct (applied d dev (wrap64 (head + 1))); [|done]. erewrite bind_Ok by reflexivity.
  etrans; [apply (Set_progress dev (wrap64 (head + 1)))|apply IH].
  - destruct Hok as [?| ->]; [by left|by right].
  - left. destruct (db_heads d !! dev) as [h|] eqn:Eh; [case_match|]; simpl;
      by rewrite ?lookup_insert_eq, ?Eh.
Qed.
Lemma AdvanceContiguous_progress dev : mono progress (AdvanceContiguous dev).
Proof.
  intros d. apply advance_loop_progress. destruct (db_heads d !! dev); [by left|by right].
Qed.

(** What compaction removes is below the head. *)
Lemma CompactUpToHeads_progress : mono progress CompactUpToHeads.
Proof.
  intros d. split; [|done]. intros ev [[r Hr]|Hle]; [|by right]. unfold settled. simpl.
  destruct (compactable (db_heads d) (ev_DeviceID ev, ev_Seq ev) r) eqn:Ec.
  - right. unfold compactable in Ec. apply andb_true_iff in Ec as [_ Ec%Z.leb_le]. exact Ec.
  - left. exists r. apply map_lookup_filter_Some. split; [done|]. simpl. by rewrite Ec.
Qed.

Lemma markBundlePulled_progress key : mono progress (markBundlePulled key).
Proof.
  intros d. split; [done|]. intros k. unfold bundlePulled. simpl. rewrite lookup_insert.
  by case_decide.
Qed.

Section Pull.
Context {S : Type} (tr : Transport S) (now : Time) `{!ObjectStore tr}.
Context `{Sha256} `{EventCodecs} `{Aead} `{BundleCodecs}.
Notation objs s := (objects (tr := tr) (es_tr s)).
Notation inv s := (store_inv (tr := tr) (es_tr s)).
(** The one prefix the code lists level by level. *)
Hypothesis events_prefix : store_prefix (tr := tr) "events".

(** Applying events does not touch the marks. *)
Lemma InsertExec_state now' e : mono same_state (InsertExec now' e).
Proof. intros d. unfold InsertExec. destruct (intern_entry _ _). by case_match. Qed.
Lemma Tombstone_state id : mono same_state (Tombstone id).
Proof. by intros d. Qed.
Lemma TombstoneByOrigin_state dev seq : mono same_state (TombstoneByOrigin dev seq).
Proof. by intros d. Qed.
Lemma upsert_device_state id r : mono same_state (upsert_device id r).
Proof. by intros d. Qed.
Lemma AppendTx_state ev : mono same_state (AppendTx ev).
Proof. intros d. unfold AppendTx, AppendExec. by case_match. Qed.
#[local] Hint Resolve InsertExec_state Tombstone_state TombstoneByOrigin_state upsert_device_state
  AppendTx_state : remnix.
Lemma append_apply_state ev : mono same_state (_ ← AppendTx ev; ApplyTracked now ev).
Proof. unfold ApplyTracked, applyCreated, applyTombstone, applyDeviceMeta, InsertTx. mono_solve. Qed.

Lemma for_each_state evs d cs st :
  for_each evs (apply_event now) (d, cs) = (st, Ok tt) -> same_state d st.1.
Proof.
  revert d cs. induction evs as [|ev evs IH]; intros d cs E; simpl in E; [by injection E as <-|].
  apply bind_Ok_inv in E as ([d1 cs1] & [] & E1 & E2). etrans; [|exact (IH _ _ E2)].
  unfold apply_event in E1. case_match; [by injection E1 as <- _|]. case_match; [by injection E1 as <- _|].
  pose proof (append_apply_state ev d) as Hs.
  destruct ((_ ← AppendTx ev; ApplyTracked now ev) d) as [d2 [c|e]]; [|done]. by injection E1 as <- _.
Qed.

Lemma applyEvents_progress evs : mono (fun s s' : ES S => progress (es_db s) (es_db s') /\ es_tr s' = es_tr s)
  (applyEvents now evs).
Proof.
  intros s. unfold applyEvents.
  destruct (for_each evs _ _) as [[d cs] [[]|e]] eqn:E; [|by split].
  split; [|done]. simpl. destruct (for_each_settles _ _ _ _ _ E) as [Hl _].
  pose proof (for_each_state _ _ _ _ E) as Ht. simpl in *. split.
  - intros ev. by apply settled_grows.
  - intros k. unfold bundlePulled. by rewrite Ht.
Qed.

(** Every bundle that is marked and still there was opened, and its events
    are settled. *)
Definition marks_sound (s : ES S) : Prop := forall k raw,
  bundlePulled (es_db s) k = true -> objs s !! k = Some raw ->
  exists smk h evs, Unpack raw smk = Ok (h, evs) /\ forall ev, ev ∈ evs -> settled (es_db s) ev.

Definition pulls : relation (ES S) := fun s s' =>
  inv s -> inv s' /\ objs s' = objs s /\ progress (es_db s) (es_db s') /\ (marks_sound s -> marks_sound s').
#[local] Instance pulls_preorder : PreOrder pulls.
Proof.
  unfold pulls. split; [by intros s|]. intros s1 s2 s3 H12 H23 Hi.
  destruct (H12 Hi) as (Hi2 & O2 & P2 & M2). destruct (H23 Hi2) as (Hi3 & O3 & P3 & M3).
  split; [done|]. split; [congruence|]. split; [by etrans|auto].
Qed.

(** A step that adds no mark. *)
Lemma pulls_unmarked s s' :
  (inv s -> inv s' /\ objs s' = objs s) -> progress (es_db s) (es_db s') ->
  (forall k, bundlePulled (es_db s') k = bundlePulled (es_db s) k) -> pulls s s'.
Proof.
  intros Hio Hp Hk Hi. destruct (Hio Hi) as [Hi' Ho]. split_and!; [done..|].
  intros Hm k raw. rewrite Hk, Ho. intros Hb Hr. destruct (Hm k raw Hb Hr) as (smk & h & evs & Hu & Hs).
  exists smk, h, evs. split; [done|]. intros ev Hin. by apply (pg_settled _ _ Hp), Hs.
Qed.

Lemma reads_pulls s s' : reads tr s s' -> pulls s s'.
Proof. intros [Hd Hio]. apply pulls_unmarked; [done|by rewrite Hd|by rewrite Hd]. Qed.

Lemma mark_pulls key raw smk h evs (s : ES S) :
  objs s !! key = Some raw -> Unpack raw smk = Ok (h, evs) -> (forall ev, ev ∈ evs -> settled (es_db s) ev) ->
  pulls s (sql (markBundlePulled key) s).1 /\ bundlePulled (es_db (sql (markBundlePulled key) s).1) key = true.
Proof.
  intros Hraw Hu Hs. pose proof (markBundlePulled_progress key (es_db s)) as Hp. split.
  - intros Hi. split_and!; [done|done|done|]. intros Hm k raw'. simpl. unfold bundlePulled. simpl.
    rewrite lookup_insert. case_decide as Hk.
    + apply (inj (String.append "pulled:")) in Hk as <-. intros _ Hr'. rewrite Hraw in Hr'.
      injection Hr' as <-. exists smk, h, evs. split; [done|]. intros ev Hin. by apply Hs.
    + intros Hb Hr'. exact (Hm k raw' Hb Hr').
  - unfold bundlePulled. simpl. by rewrite lookup_insert_eq.
Qed.

Lemma pull_bundle_run smks key s s' r :
  inv s -> store_key (tr := tr) key -> pull_bundle tr now smks key s = (s', r) ->
  pulls s s' /\ (str_empty (bundleDevice key) = false -> is_Ok r = true -> bundlePulled (es_db s') key = true).
Proof.
  intros Hi Hk E. unfold pull_bundle in E.
  destruct (str_empty (bundleDevice key)); [by injection E as <- <-|].
  erewrite bind_Ok in E by reflexivity.
  destruct (bundlePulled (es_db s) key) eqn:Eb; [by injection E as <- <-|].
  destruct (getBytes tr key s) as [s1 [raw|e]] eqn:Eg.
  2: { rewrite (bind_Fail _ _ _ _ _ Eg) in E. injection E as <- <-. split; [|done]. apply reads_pulls. exact (mono_run _ _ _ _ _ (getBytes_reads tr key) Eg). }
  assert (reads tr s s1) as Hr by exact (mono_run _ _ _ _ _ (getBytes_reads tr key) Eg).
  pose proof (getBytes_stored tr _ _ _ _ Hi Hk Eg) as Hraw. rewrite (bind_Ok _ _ _ _ _ Eg) in E.
  destruct (bundle_key smks raw) as [smk|]; [|injection E as <- <-; split; [by apply reads_pulls|done]].
  destruct (Unpack raw smk) as [[h evs]|e] eqn:Eu; [|injection E as <- <-; split; [by apply reads_pulls|done]].
  pose proof (applyEvents_progress evs s1) as [Hp Ht].
  destruct (applyEvents now evs s1) as [s2 [[]|e]] eqn:Ea; simpl in Hp, Ht.
  2: { rewrite (bind_Fail _ _ _ _ _ Ea) in E. injection E as <- <-. split; [|done]. etrans; [by apply reads_pulls|].
       unfold applyEvents in Ea. destruct (for_each evs _ _) as [[d cs] [[]|e']]; [done|]. injection Ea as <- _.
       by apply pulls_unmarked. }
  assert (forall ev, ev ∈ evs -> settled (es_db s2) ev) as Hs.
  { unfold applyEvents in Ea. destruct (for_each evs _ _) as [[d cs] [[]|e']] eqn:Ef; [|done].
    injection Ea as <-. exact (proj2 (for_each_settles _ _ _ _ _ Ef)). }
  destruct Hr as [Hd Hio]. destruct (Hio Hi) as [Hi1 Ho1].
  destruct (mark_pulls key raw smk h evs s2) as [Hmark Hmarked]; [by rewrite Ht, Ho1|done|done|].
  rewrite (bind_Ok _ _ _ _ _ Ea) in E. injection E as <- <-. split; [|done].
  etrans; [apply reads_pulls; by split|]. etrans; [|exact Hmark].
  apply pulls_unmarked; [by rewrite Ht|done|].
  unfold applyEvents in Ea. destruct (for_each evs _ _) as [[d cs] [[]|e']] eqn:Ef; [|done].
  injection Ea as <-. pose proof (for_each_state _ _ _ _ Ef) as Hst. simpl in Hst.
  intros k. unfold bundlePulled. simpl. by rewrite Hst.
Qed.

Lemma listEventBundles_reads : mono (reads tr) (listEventBundles tr).
Proof.
  unfold listEventBundles. destruct (tr_ListShallow tr) eqn:Ef; [|apply net_reads; mono_solve].
  assert (PreOrder (reads tr)) by apply reads_preorder.
  assert (forall p, mono (reads tr) (net (m p))) as Hm by (intros p; apply net_reads; by apply list_shallow_same).
  assert (forall p, mono (reads tr) (net (tr_ListDirs tr p))) as Hd by (intros p; apply net_reads; mono_solve).
  mono_solve.
Qed.

Lemma listEventBundles_keys s s' l o :
  inv s -> listEventBundles tr s = (s', Ok l) -> o ∈ l -> store_key (tr := tr) (o_Key o).
Proof.
  intros Hi E Ho.
  assert (forall p t t' l', store_inv (tr := tr) t -> tr_List tr p t = (t', Ok l') -> o ∈ l' -> store_key (tr := tr) (o_Key o))
    as Hlist by (intros p t t' l' Ht Et Hin; exact (proj1 (tr_List_stored _ _ _ _ _ Ht Et Hin))).
  unfold listEventBundles in E. destruct (tr_ListShallow tr) as [f|] eqn:Hf.
  2: { unfold net, zoom in E. destruct (tr_List tr "events/" (es_tr s)) as [t r] eqn:Et.
       injection E as _ ->. by eapply Hlist. }
  apply bind_Ok_inv in E as (s1 & files & E1 & E). apply bind_Ok_inv in E as (s2 & dirs & E2 & E).
  apply bind_Ok_inv in E as (s3 & more & E3 & E). injection E as <- <-.
  unfold net, zoom in E1. destruct (f "events"%string (es_tr s)) as [t1 r1] eqn:Ef. injection E1 as <- ->.
  destruct (store_list_shallow _ _ _ _ _ Hi Hf Ef) as (Hi1 & _ & Hfiles).
  unfold net, zoom in E2. simpl in E2. destruct (tr_ListDirs tr "events" t1) as [t2 r2] eqn:Ed. injection E2 as <- ->.
  destruct (store_list_dirs _ _ _ _ Hi1 Ed) as (Hi2 & _ & Hdirs).
  apply elem_of_app in Ho as [Ho|Ho]; [exact (proj1 (Hfiles events_prefix _ _ eq_refl Ho))|].
  apply elem_of_concat in Ho as (l & Hl & Ho).
  assert (forall p, mono (reads tr) (net (f p))) as Hm by (intros p; apply net_reads; by apply list_shallow_same).
  assert (PreOrder (reads tr)) by apply reads_preorder.
  eapply (collect_inv (reads tr)) in E3 as (dir & s4 & s5 & Hdir & [_ Hr] & E3); [|intros x; mono_solve|exact Hl].
  destruct (Hr Hi2) as [Hi4 _]. apply bind_Ok_inv in E3 as (s6 & l' & E3 & Heq). injection Heq as _ <-.
  unfold net, zoom in E3. destruct (f dir (es_tr s4)) as [t6 r6] eqn:E6. injection E3 as _ ->.
  destruct (store_list_shallow _ _ _ _ _ Hi4 Hf E6) as (_ & _ & Hmore).
  exact (proj1 (Hmore (Hdirs events_prefix _ _ eq_refl Hdir) _ _ eq_refl Ho)).
Qed.

Lemma pull_bundle_pulls smks key : store_key (tr := tr) key -> mono pulls (pull_bundle tr now smks key).
Proof.
  intros Hk s Hi. destruct (pull_bundle tr now smks key s) as [s' r] eqn:E.
  exact (proj1 (pull_bundle_run _ _ _ _ _ Hi Hk E) Hi).
Qed.

Lemma sql_pulls {A} (m : M DB A) : mono progress m -> mono same_state m -> mono pulls (sql (S := S) m).
Proof.
  intros Hp Hst. apply mono_zoom. intros s. apply pulls_unmarked; [done|apply Hp|].
  intros k. unfold bundlePulled. simpl. by rewrite (Hst (es_db s)).
Qed.
Lemma AdvanceContiguous_state dev : mono same_state (AdvanceContiguous dev).
Proof.
  intros d. unfold AdvanceContiguous. generalize (Datatypes.S (size (db_events d))) (default 0 (db_heads d !! dev)).
  intros fuel head. revert d head. induction fuel as [|fuel IH]; intros d head; simpl; [done|].
  case_match; [|done]. erewrite bind_Ok by reflexivity. etrans; [|apply IH]. unfold same_state. simpl.
  by repeat case_match.
Qed.

(** C6: A successful pullBundles leaves the remote unchanged and every event of every listed bundle
    in the log or below its device's head, and keeps that true of all bundles marked as pulled: no
    mark is set for events that did not arrive. *)
Theorem pullBundles_delivers (smks : gmap string bytes) (s s1 s' : ES S) (listed : list Object) :
  inv s -> marks_sound s ->
  listEventBundles tr s = (s1, Ok listed) -> pullBundles tr now smks s = (s', Ok tt) ->
  objs s' = objs s /\ marks_sound s' /\
  forall o raw, o ∈ listed -> bundleDevice (o_Key o) <> EmptyString -> objs s !! o_Key o = Some raw ->
    exists smk h evs, Unpack raw smk = Ok (h, evs) /\ forall ev, ev ∈ evs -> settled (es_db s') ev.
Proof.
  intros Hi Hm El E. unfold pullBundles in E. rewrite (bind_Ok _ _ _ _ _ El) in E.
  erewrite bind_Ok in E by reflexivity. apply bind_Ok_inv in E as (s2 & hs & Ec & E).
  assert (pulls s s1) as R1 by (apply reads_pulls; exact (mono_run _ _ _ _ _ listEventBundles_reads El)).
  assert (pulls s2 s') as R3.
  { eapply mono_run; [|exact E]. mono_step; [mono_step; apply sql_pulls;
      [apply AdvanceContiguous_progress|apply AdvanceContiguous_state]|].
    apply sql_pulls; [apply CompactUpToHeads_progress|by intros d]. }
  assert (forall o, o ∈ listed -> mono pulls (pull_bundle tr now smks (o_Key o))) as Hpb.
  { intros o Ho. apply pull_bundle_pulls. by eapply listEventBundles_keys. }
  assert (pulls s1 s2) as R2 by (eapply mono_run; [|exact Ec]; by apply mono_collect; [apply pulls_preorder|]).
  assert (pulls s s') as R by (etrans; [exact R1|etrans; [exact R2|exact R3]]).
  destruct (R Hi) as (Hi' & Ho' & Hp' & Hm'). split; [done|]. split; [auto|].
  intros o raw Hin Hdev Hraw. apply (Hm' Hm (o_Key o) raw); [|by rewrite Ho'].
  destruct (collect_each pulls _ _ _ _ _ o Hpb Ec Hin) as (sa & sb & y & Ra & Eo & Rb).
  destruct (R1 Hi) as (Hi1 & _). destruct (Ra Hi1) as (Hia & _).
  destruct (pull_bundle_run _ _ _ _ _ Hia (listEventBundles_keys _ _ _ _ Hi El Hin) Eo) as [Rab Hmk].
  destruct (Rab Hia) as (Hib & _). destruct (Rb Hib) as (Hi2 & _ & Pb & _). destruct (R3 Hi2) as (_ & _ & P3 & _).
  apply (pg_pulled _ _ P3), (pg_pulled _ _ Pb), Hmk; [|done]. by destruct (bundleDevice (o_Key o)).
Qed.
End Pull.
