(* ===== verification/Text.v ===== *)
(** The parts of Go's [strings], [strconv] and [os] packages the outer
    components use, on byte strings, with the lemmas on them that are shared:
    trimming, replacing, fields, case, environment expansion. *)

From S2P Require Import Prelude.
From Stdlib Require Import Ascii.

Notation code c := (N_of_ascii c).
Definition chr (n : N) : string := String (ascii_of_N n) EmptyString.
Definition nl : ascii := "010"%char.
Definition NUL : ascii := "000"%char.

(** ** Slices of a string *)

Fixpoint str_drop (n : nat) (s : string) : string :=
  match n, s with
  | O, _ => s
  | _, EmptyString => EmptyString
  | Datatypes.S n, String _ s => str_drop n s
  end.
Fixpoint str_take (n : nat) (s : string) : string :=
  match n, s with
  | O, _ => EmptyString
  | _, EmptyString => EmptyString
  | Datatypes.S n, String c s => String c (str_take n s)
  end.
(** [s[n]] *)
Fixpoint str_at (n : nat) (s : string) : option ascii :=
  match n, s with
  | _, EmptyString => None
  | O, String c _ => Some c
  | Datatypes.S n, String _ s => str_at n s
  end.
Definition str_reverse (s : string) : string := str_rev s EmptyString.

Lemma str_drop_app (a b : string) : str_drop (String.length a) (a +:+ b) = b.
Proof. by induction a. Qed.
Lemma str_take_app (a b : string) : str_take (String.length a) (a +:+ b) = a.
Proof. induction a as [|c a IH]; [by destruct b|]. simpl. by f_equal. Qed.
Lemma str_app_nil_r (a : string) : (a +:+ "")%string = a.
Proof. induction a as [|c a IH]; [done|]. exact (f_equal (String c) IH). Qed.
Lemma str_length_app (a b : string) :
  String.length (a +:+ b) = (String.length a + String.length b)%nat.
Proof. induction a as [|c a IH]; simpl; [done|]. by f_equal. Qed.

Lemma str_drop_app_le n a b : (n <= String.length a)%nat -> str_drop n (a +:+ b) = (str_drop n a +:+ b)%string.
Proof.
  revert a. induction n as [|n IH]; intros a Hn; [done|]. destruct a as [|c a]; simpl in *; [lia|]. apply IH. lia.
Qed.
Lemma str_take_app_le n a b : (n <= String.length a)%nat -> str_take n (a +:+ b) = str_take n a.
Proof.
  revert a. induction n as [|n IH]; intros a Hn; [by destruct a, b|]. destruct a as [|c a]; simpl in *; [lia|].
  f_equal. apply IH. lia.
Qed.
Lemma str_drop_len n s : String.length (str_drop n s) = (String.length s - n)%nat.
Proof. revert s. induction n as [|n IH]; intros s; simpl; [lia|]. destruct s; simpl; [done|]. apply IH. Qed.
Lemma str_take_len n s : (String.length (str_take n s) <= n)%nat.
Proof.
  revert s. induction n as [|n IH]; intros s; [by destruct s|]. destruct s as [|c s]; simpl; [lia|]. specialize (IH s). lia.
Qed.
Lemma str_take_drop n s : (str_take n s +:+ str_drop n s)%string = s.
Proof. revert s. induction n as [|n IH]; intros s; [by destruct s|]. destruct s as [|c s]; [done|]. exact (f_equal (String c) (IH s)). Qed.

Lemma has_prefix_self_app (p s : string) : has_prefix p (p +:+ s) = true.
Proof. induction p as [|c p IH]; simpl; [done|]. by rewrite Ascii.eqb_refl. Qed.
Lemma has_prefix_split (p s : string) :
  has_prefix p s = true -> s = (p +:+ str_drop (String.length p) s)%string.
Proof.
  revert s. induction p as [|c p IH]; intros s; [done|]. destruct s as [|d s]; [done|]. simpl.
  intros [->%Ascii.eqb_eq H]%andb_true_iff. exact (f_equal (String d) (IH _ H)).
Qed.

Lemma str_rev_app s acc1 acc2 : str_rev s (acc1 +:+ acc2) = (str_rev s acc1 +:+ acc2)%string.
Proof. revert acc1. induction s as [|c s IH]; intros acc1; simpl; [done|]. exact (IH (String c acc1)). Qed.
Lemma str_reverse_cons c s : str_reverse (String c s) = (str_reverse s +:+ String c EmptyString)%string.
Proof. exact (str_rev_app s EmptyString (String c EmptyString)). Qed.
Lemma str_reverse_app a b : str_reverse (a +:+ b) = (str_reverse b +:+ str_reverse a)%string.
Proof.
  induction a as [|c a IH].
  - simpl. by rewrite str_app_nil_r.
  - change (String c a +:+ b)%string with (String c (a +:+ b)). rewrite !str_reverse_cons, IH.
    by rewrite str_app_assoc.
Qed.
Lemma str_reverse_involutive s : str_reverse (str_reverse s) = s.
Proof. induction s as [|c s IH]; [done|]. by rewrite str_reverse_cons, str_reverse_app, IH. Qed.

(** [strings.Trim] twice is [strings.Trim] once. *)
Lemma trim_left_idem c s : trim_left c (trim_left c s) = trim_left c s.
Proof. induction s as [|d s IH]; [done|]. simpl. destruct (Ascii.eqb c d) eqn:E; [done|]. simpl. by rewrite E. Qed.
Lemma trim_left_suffix c s : exists t, s = (t +:+ trim_left c s)%string.
Proof.
  induction s as [|d s [t IH]]; [by exists EmptyString|]. simpl. destruct (Ascii.eqb c d); [|by exists EmptyString].
  exists (String d t). simpl. exact (f_equal (String d) IH).
Qed.
Lemma trim_left_head c d s : trim_left c (String d s) = String d s <-> Ascii.eqb c d = false.
Proof.
  simpl. destruct (Ascii.eqb c d); [|done]. split; [|done]. intros H. exfalso.
  destruct (trim_left_suffix c s) as [t Ht]. rewrite H in Ht. apply (f_equal String.length) in Ht.
  rewrite str_length_app in Ht. simpl in Ht. lia.
Qed.
Lemma trim_char_idem c s : trim_char c (trim_char c s) = trim_char c s.
Proof.
  unfold trim_char. set (u := trim_left c s).
  assert (trim_left c u = u) as Hu by apply trim_left_idem. clearbody u.
  assert (trim_left c (trim_right c u) = trim_right c u) as ->.
  { unfold trim_right. destruct (trim_left_suffix c (str_reverse u)) as [t Ht].
    fold (str_reverse u). set (w := trim_left c (str_reverse u)) in *. clearbody w.
    apply (f_equal str_reverse) in Ht. rewrite str_reverse_involutive, str_reverse_app in Ht.
    fold (str_reverse w). destruct (str_reverse w) as [|d v]; [done|]. subst u.
    apply trim_left_head in Hu. by apply trim_left_head. }
  unfold trim_right. fold (str_reverse u). 
  set (w := trim_left c (str_reverse u)). change (str_rev (trim_left c (str_reverse (str_reverse w))) EmptyString = str_reverse w).
  rewrite str_reverse_involutive. unfold w. by rewrite trim_left_idem.
Qed.

(** [strings.TrimPrefix], [strings.TrimSuffix] *)
Definition trim_prefix (p s : string) : string :=
  if has_prefix p s then str_drop (String.length p) s else s.
Definition trim_suffix (p s : string) : string :=
  if has_suffix p s then str_take (String.length s - String.length p) s else s.

(** ** White space *)

(** The UTF-8 encodings of the runes [unicode.IsSpace] accepts. *)
Definition spaces : list string :=
  [ chr 9; chr 10; chr 11; chr 12; chr 13; chr 32;
    chr 194 +:+ chr 133; chr 194 +:+ chr 160; chr 225 +:+ chr 154 +:+ chr 128;
    chr 226 +:+ chr 128 +:+ chr 128; chr 226 +:+ chr 128 +:+ chr 129; chr 226 +:+ chr 128 +:+ chr 130;
    chr 226 +:+ chr 128 +:+ chr 131; chr 226 +:+ chr 128 +:+ chr 132; chr 226 +:+ chr 128 +:+ chr 133;
    chr 226 +:+ chr 128 +:+ chr 134; chr 226 +:+ chr 128 +:+ chr 135; chr 226 +:+ chr 128 +:+ chr 136;
    chr 226 +:+ chr 128 +:+ chr 137; chr 226 +:+ chr 128 +:+ chr 138; chr 226 +:+ chr 128 +:+ chr 168;
    chr 226 +:+ chr 128 +:+ chr 169; chr 226 +:+ chr 128 +:+ chr 175; chr 226 +:+ chr 129 +:+ chr 159;
    chr 227 +:+ chr 128 +:+ chr 128 ]%string.

Definition space_prefix (sps : list string) (s : string) : option nat :=
  String.length <$> List.find (fun p => has_prefix p s) sps.

(** Strip members of [sps] from the front; each step removes at least a byte,
    so the length is fuel enough. *)
Fixpoint strip_front (sps : list string) (fuel : nat) (s : string) : string :=
  match fuel with
  | O => s
  | Datatypes.S fuel =>
      match space_prefix sps s with
      | Some n => strip_front sps fuel (str_drop n s)
      | None => s
      end
  end.
Definition trim_left_space (s : string) : string := strip_front spaces (String.length s) s.
Definition trim_right_space (s : string) : string :=
  str_reverse (strip_front (str_reverse <$> spaces) (String.length s) (str_reverse s)).
(** [strings.TrimSpace] *)
Definition trim_space (s : string) : string := trim_right_space (trim_left_space s).

(** [strings.Fields]: the maximal runs of bytes outside white space. *)
Fixpoint fields_from (fuel : nat) (cur s : string) : list string :=
  let flush := if str_empty cur then [] else [cur] in
  match fuel, s with
  | O, _ | _, EmptyString => flush
  | Datatypes.S fuel, String c s' =>
      match space_prefix spaces s with
      | Some n => flush ++ fields_from fuel EmptyString (str_drop n s)
      | None => fields_from fuel (cur +:+ String c EmptyString) s'
      end
  end.
Definition fields (s : string) : list string := fields_from (Datatypes.S (String.length s)) EmptyString s.

(** ** Case, replacement *)

Definition in_range (lo hi : N) (c : ascii) : bool := (lo <=? code c)%N && (code c <=? hi)%N.
Definition is_digit (c : ascii) : bool := in_range 48 57 c.
Definition is_lower (c : ascii) : bool := in_range 97 122 c.
Definition is_upper (c : ascii) : bool := in_range 65 90 c.

(** Go's [strings.ToLower] and [strings.ToUpper] on ASCII; bytes above 127 are
    kept. *)
Definition lower_char (c : ascii) : ascii := if is_upper c then ascii_of_N (code c + 32) else c.
Definition upper_char (c : ascii) : ascii := if is_lower c then ascii_of_N (code c - 32) else c.
Fixpoint str_map (f : ascii -> ascii) (s : string) : string :=
  match s with
  | EmptyString => EmptyString
  | String c s => String (f c) (str_map f s)
  end.
Definition to_lower : string -> string := str_map lower_char.
Lemma to_lower_length s : String.length (to_lower s) = String.length s.
Proof. unfold to_lower. induction s as [|c s IH]; [done|]. simpl. by rewrite IH. Qed.
Definition to_upper : string -> string := str_map upper_char.

Fixpoint str_all (p : ascii -> bool) (s : string) : bool :=
  match s with
  | EmptyString => true
  | String c s => p c && str_all p s
  end.
Lemma str_all_app p a b : str_all p (a +:+ b) = str_all p a && str_all p b.
Proof. induction a as [|c a IH]; simpl; [done|]. by rewrite IH, andb_assoc. Qed.
Definition str_has (c : ascii) (s : string) : bool := negb (str_all (fun d => negb (Ascii.eqb c d)) s).

(** [strings.ReplaceAll(s, old, new)] for a non-empty [old]. *)
Fixpoint replace_from (fuel : nat) (old new s : string) : string :=
  match fuel, s with
  | O, _ => s
  | _, EmptyString => EmptyString
  | Datatypes.S fuel, String c s' =>
      if has_prefix old s then (new +:+ replace_from fuel old new (str_drop (String.length old) s))%string
      else String c (replace_from fuel old new s')
  end.
Definition replace_all (s old new : string) : string := replace_from (String.length s) old new s.

Fixpoint skip_while (p : ascii -> bool) (s : string) : string :=
  match s with
  | String c s' => if p c then skip_while p s' else s
  | EmptyString => EmptyString
  end.

(** [ReplaceAllString]: leftmost matches, not overlapping. The pattern gives
    the text kept of a match and what follows it, which is shorter. *)
Fixpoint replace_matches (m : string -> option (string * string)) (mask : string) (fuel : nat) (s : string) : string :=
  match fuel, s with
  | O, _ => s
  | _, EmptyString => EmptyString
  | Datatypes.S fuel, String c s' =>
      match m s with
      | Some (kept, rest) => (kept +:+ mask +:+ replace_matches m mask fuel rest)%string
      | None => String c (replace_matches m mask fuel s')
      end
  end.

(** [strings.Cut(s, sep)] for a one-byte separator. *)
Fixpoint cut (sep : ascii) (s : string) : option (string * string) :=
  match s with
  | EmptyString => None
  | String c s =>
      if Ascii.eqb c sep then Some (EmptyString, s)
      else (fun '(a, b) => (String c a, b)) <$> cut sep s
  end.

Lemma cut_Some sep s a b : cut sep s = Some (a, b) ->
  s = (a +:+ String sep b)%string /\ str_has sep a = false.
Proof.
  revert a. induction s as [|c s IH]; intros a; simpl; [done|].
  destruct (Ascii.eqb_spec c sep) as [->|Hne]; [by intros [= <- <-]|].
  destruct (cut sep s) as [[a' b']|] eqn:Hs; simpl; [|done]. intros [= <- <-].
  destruct (IH a' eq_refl) as [-> Ha]. split; [done|]. unfold str_has in *. simpl. rewrite (proj2 (Ascii.eqb_neq sep c)) by congruence. done.
Qed.
Lemma cut_app sep a b : str_has sep a = false -> cut sep (a +:+ String sep b) = Some (a, b).
Proof.
  induction a as [|c a IH]; simpl; [by rewrite Ascii.eqb_refl|].
  intros Ha. unfold str_has in Ha. simpl in Ha.
  destruct (Ascii.eqb_spec sep c) as [|Hne]; [done|]. simpl in Ha.
  rewrite (proj2 (Ascii.eqb_neq c sep)) by congruence. by rewrite (IH Ha).
Qed.

(** [strconv.Atoi]: [None] on a syntax or a range error. *)
Definition Atoi (s : string) : option Z :=
  let unsigned (s : string) : option Z := match s with EmptyString => None | _ => parse_digits s 0 end in
  z ← match s with
      | String "-" s => Z.opp <$> unsigned s
      | String "+" s => unsigned s
      | _ => unsigned s
      end;
  if (- 2^63 <=? z) && (z <=? max_int64) then Some z else None.

Lemma Atoi_pretty (n : N) : Z.of_N n <= max_int64 -> Atoi (pretty n) = Some (Z.of_N n).
Proof.
  intros Hn. unfold Atoi. destruct (pretty_N_first n) as (c & s & Hc & Hd). pose proof (parse_digits_pretty_N n) as Hp.
  rewrite Hc in Hp |- *. rewrite Hp.
  assert ((- 2^63 <=? Z.of_N n) && (Z.of_N n <=? max_int64) = true) as Hb.
  { apply andb_true_iff. split; apply Z.leb_le; lia. }
  destruct c as [[] [] [] [] [] [] [] []]; try (by exfalso; apply Hd); simpl; by rewrite Hb.
Qed.

(** ** [os.Expand] *)

Definition isShellSpecialVar (c : ascii) : bool :=
  is_digit c || existsb (Ascii.eqb c) ["*"; "#"; "$"; "@"; "!"; "?"; "-"]%char.
Definition isAlphaNum (c : ascii) : bool :=
  Ascii.eqb c "_" || is_digit c || is_lower c || is_upper c.

Fixpoint take_while (p : ascii -> bool) (s : string) : string :=
  match s with
  | String c s' => if p c then String c (take_while p s') else EmptyString
  | EmptyString => EmptyString
  end.

(** The name and the number of bytes it takes up. *)
Definition getShellName (s : string) : string * nat :=
  match s with
  | String "{" s' =>
      let scan := match cut "}" s' with
                  | Some (EmptyString, _) => (EmptyString, 2%nat)
                  | Some (name, _) => (name, (String.length name + 2)%nat)
                  | None => (EmptyString, 1%nat)
                  end in
      match s' with
      | String c (String "}" _) => if isShellSpecialVar c then (String c EmptyString, 3%nat) else scan
      | _ => scan
      end
  | String c _ => if isShellSpecialVar c then (String c EmptyString, 1%nat)
                  else let name := take_while isAlphaNum s in (name, String.length name)
  | EmptyString => (EmptyString, 0%nat)
  end.

Fixpoint expand_from (mapping : string -> string) (fuel : nat) (s : string) : string :=
  match fuel, s with
  | O, _ => s
  | _, EmptyString => EmptyString
  | Datatypes.S fuel, String c s' =>
      if Ascii.eqb c "$" && negb (str_empty s') then
        let '(name, w) := getShellName s' in
        ((if str_empty name then if (0 <? w)%nat then "" else "$" else mapping name)
          +:+ expand_from mapping fuel (str_drop w s'))%string
      else String c (expand_from mapping fuel s')
  end.
Definition os_Expand (s : string) (mapping : string -> string) : string :=
  expand_from mapping (String.length s) s.

Lemma str_has_cons sep c s : str_has sep (String c s) = Ascii.eqb sep c || str_has sep s.
Proof. unfold str_has. simpl. by destruct (Ascii.eqb sep c). Qed.

Lemma os_Expand_plain s mapping : str_has "$" s = false -> os_Expand s mapping = s.
Proof.
  unfold os_Expand. induction s as [|c s IH]; [done|]. rewrite str_has_cons.
  intros [Hc Hs]%orb_false_iff. cbn [String.length expand_from].
  rewrite Ascii.eqb_sym, Hc, (IH Hs). done.
Qed.

Lemma str_all_weaken (p q : ascii -> bool) s : (forall c, p c = true -> q c = true) -> str_all p s = true -> str_all q s = true.
Proof. intros Hpq. induction s as [|c s IH]; simpl; [done|]. intros [Hc Hs]%andb_true_iff. by rewrite (Hpq _ Hc), (IH Hs). Qed.

(** ** Texts without white space *)

(** A printable character of ASCII starts and ends no white space. *)
Definition printable (c : ascii) : bool := in_range 33 126 c.

Lemma no_space_prefix sps c s :
  forallb (fun p => match p with String d _ => negb (printable d) | EmptyString => false end) sps = true ->
  printable c = true -> space_prefix sps (String c s) = None.
Proof.
  intros Hs Hc. unfold space_prefix. induction sps as [|p sps IH]; [done|]. simpl in Hs |- *.
  apply andb_true_iff in Hs as [Hp Hs]. destruct p as [|d p]; [done|]. simpl.
  destruct (Ascii.eqb_spec d c) as [->|]; [by rewrite Hc in Hp|]. by apply IH.
Qed.

Lemma trim_space_inner c m d :
  printable c = true -> printable d = true ->
  trim_space (String c m +:+ String d EmptyString) = (String c m +:+ String d EmptyString)%string.
Proof.
  intros Hc Hd. unfold trim_space, trim_left_space.
  assert (forall n s, strip_front spaces n (String c s) = String c s) as Hl.
  { intros [|n] s; [done|]. cbn [strip_front]. by rewrite no_space_prefix. }
  change (String c m +:+ String d EmptyString)%string with (String c (m +:+ String d EmptyString)). rewrite Hl.
  unfold trim_right_space. change (String c (m +:+ String d EmptyString)) with (String c m +:+ String d EmptyString)%string.
  rewrite str_reverse_app. change (str_reverse (String d EmptyString)) with (String d EmptyString).
  assert (forall n s, strip_front (str_reverse <$> spaces) n (String d s) = String d s) as Hr.
  { intros [|n] s; [done|]. cbn [strip_front]. by rewrite no_space_prefix. }
  change (String d EmptyString +:+ str_reverse (String c m))%string with (String d (str_reverse (String c m))). rewrite Hr.
  change (String d (str_reverse (String c m))) with (String d EmptyString +:+ str_reverse (String c m))%string.
  by rewrite str_reverse_app, str_reverse_involutive.
Qed.

Lemma trim_space_one c : printable c = true -> trim_space (String c EmptyString) = String c EmptyString.
Proof. destruct c as [[] [] [] [] [] [] [] []]; vm_compute; congruence. Qed.

Lemma str_last s : s = EmptyString \/ exists m c, s = (m +:+ String c EmptyString)%string.
Proof.
  induction s as [|c s [->|(m & d & ->)]]; [by left|right; by exists EmptyString, c|right; by exists (String c m), d].
Qed.

(** A text without white space is not trimmed. *)
Lemma trim_space_printable s : str_all printable s = true -> trim_space s = s.
Proof.
  intros Hs. destruct (str_last s) as [->|(m & d & ->)]; [reflexivity|].
  rewrite str_all_app in Hs. apply andb_true_iff in Hs as [Hm Hd]. simpl in Hd. rewrite andb_true_r in Hd.
  destruct m as [|c m]; [by apply trim_space_one|]. simpl in Hm. apply andb_true_iff in Hm as [Hc _]. by apply trim_space_inner.
Qed.

(** ** What trimming removes *)

Notation inhabited sps := (forallb (fun p => negb (str_empty p)) sps = true).

Lemma space_prefix_pos sps s k : inhabited sps -> space_prefix sps s = Some k -> (0 < k <= String.length s)%nat.
Proof.
  intros Hs. unfold space_prefix. destruct (List.find (fun p => has_prefix p s) sps) as [p|] eqn:Ef; [|done]. intros [= <-].
  apply find_some in Ef as [Hin Hp]. rewrite forallb_forall in Hs. specialize (Hs _ Hin). apply has_prefix_split in Hp.
  split; [destruct p; [done|simpl; lia]|]. rewrite Hp, str_length_app. lia.
Qed.

Lemma strip_front_len sps n s : inhabited sps -> (String.length (strip_front sps n s) <= String.length s)%nat.
Proof.
  intros Hs. revert s. induction n as [|n IH]; intros s; [done|]. cbn [strip_front].
  destruct (space_prefix sps s) as [k|] eqn:E; [|done]. specialize (IH (str_drop k s)). rewrite str_drop_len in IH. lia.
Qed.

Lemma strip_front_fixed sps n s : inhabited sps ->
  String.length (strip_front sps (Datatypes.S n) s) = String.length s -> space_prefix sps s = None.
Proof.
  intros Hs. cbn [strip_front]. destruct (space_prefix sps s) as [k|] eqn:E; [|done]. intros H.
  apply (space_prefix_pos _ _ _ Hs) in E. pose proof (strip_front_len sps n (str_drop k s) Hs) as Hl. rewrite str_drop_len in Hl. lia.
Qed.

Lemma strip_front_none sps n s : space_prefix sps s = None -> strip_front sps n s = s.
Proof. intros H. destruct n; [done|]. cbn [strip_front]. by rewrite H. Qed.

Lemma str_reverse_len s : String.length (str_reverse s) = String.length s.
Proof. induction s as [|c s IH]; [done|]. rewrite str_reverse_cons, str_length_app, IH. simpl. lia. Qed.

Lemma trim_space_len s : (String.length (trim_space s) <= String.length s)%nat.
Proof.
  unfold trim_space, trim_right_space, trim_left_space. rewrite str_reverse_len. etrans; [by apply strip_front_len|].
  rewrite str_reverse_len. by apply strip_front_len.
Qed.

Lemma str_drop_split k s : exists x, s = (x +:+ str_drop k s)%string.
Proof.
  revert s. induction k as [|k IH]; intros s; [by exists EmptyString|]. destruct s as [|c s]; [by exists EmptyString|].
  destruct (IH s) as [x E]. exists (String c x). exact (f_equal (String c) E).
Qed.
Lemma strip_front_split sps n s : exists x, s = (x +:+ strip_front sps n s)%string.
Proof.
  revert s. induction n as [|n IH]; intros s; [by exists EmptyString|]. cbn [strip_front]. destruct (space_prefix sps s) as [k|]; [|by exists EmptyString].
  destruct (str_drop_split k s) as [x Ex], (IH (str_drop k s)) as [y Ey]. exists (x +:+ y)%string. by rewrite str_app_assoc, <- Ey.
Qed.
Lemma strip_front_clean sps n s : inhabited sps -> (String.length s <= n)%nat -> space_prefix sps (strip_front sps n s) = None.
Proof.
  intros Hs. revert s. induction n as [|n IH]; intros s Hn.
  - assert (s = EmptyString) as -> by (by destruct s; [|simpl in Hn; lia]). destruct (space_prefix sps EmptyString) as [k|] eqn:E; [|done].
    apply (space_prefix_pos _ _ _ Hs) in E. simpl in E. lia.
  - cbn [strip_front]. destruct (space_prefix sps s) as [k|] eqn:E; [|done]. apply IH. rewrite str_drop_len. apply (space_prefix_pos _ _ _ Hs) in E. lia.
Qed.
Lemma space_prefix_app sps a b : space_prefix sps (a +:+ b) = None -> space_prefix sps a = None.
Proof.
  unfold space_prefix. destruct (List.find (fun p => has_prefix p a) sps) as [p|] eqn:Ef; [|done]. apply find_some in Ef as [Hin Hp].
  destruct (List.find _ sps) as [q|] eqn:Eg; [done|]. intros _. apply (find_none _ _ Eg) in Hin. apply has_prefix_split in Hp. rewrite Hp, str_app_assoc in Hin.
  by rewrite has_prefix_self_app in Hin.
Qed.
Lemma trim_space_idem s : trim_space (trim_space s) = trim_space s.
Proof.
  set (t := trim_left_space s). assert (space_prefix spaces t = None) as Ht by (by apply strip_front_clean).
  set (v := strip_front (str_reverse <$> spaces) (String.length t) (str_reverse t)).
  assert (space_prefix (str_reverse <$> spaces) v = None) as Hv by (apply strip_front_clean; [done|by rewrite str_reverse_len]).
  change (trim_space s) with (str_reverse v). destruct (strip_front_split (str_reverse <$> spaces) (String.length t) (str_reverse t)) as [x Ex]. fold v in Ex.
  apply (f_equal str_reverse) in Ex. rewrite str_reverse_involutive, str_reverse_app in Ex. rewrite Ex in Ht. apply space_prefix_app in Ht.
  unfold trim_space, trim_left_space. rewrite (strip_front_none _ _ _ Ht). unfold trim_right_space. rewrite str_reverse_involutive. by rewrite (strip_front_none _ _ _ Hv).
Qed.

(** ** Text fields *)

(** What the interfaces use of a text field, and of a key press. *)
Class TextInput (TI Key : Type) := {
  ti_New : TI;
  ti_Value : TI -> string;
  ti_SetValue : string -> TI -> TI;
  ti_Focus : TI -> TI;
  ti_Update : Key -> TI -> TI;
  key_String : Key -> string;
}.
#[global] Hint Mode TextInput ! - : typeclass_instances.
