(* ===== verification/Advanced.v ===== *)
(** The report queries of [internal/history]: [Stats] and [CommandSummaries] of
    [store.go], and [advanced.go], the filter of the history inspector in its
    two forms, in memory ([Match], [SummarizeRuns]) and as SQL over the
    interned table. The theorems say when the two agree. A compiled regular
    expression is a parameter: what it matches and its source text. *)

From Stdlib Require Import Ascii.
From S2P Require Import Prelude Database History Text.

Inductive SummarySort := SortRecent | SortTop | SortFailed.
#[global] Instance SummarySort_eq_dec : EqDecision SummarySort.
Proof. solve_decision. Defined.
Definition SummarySort_Next (s : SummarySort) : SummarySort :=
  match s with SortRecent => SortTop | SortTop => SortFailed | SortFailed => SortRecent end.

Record CommandSummary := mkSummary {
  cs_Command : string; cs_Runs : Z; cs_Success : Z; cs_Failed : Z; cs_FirstTS : Time; cs_LastTS : Time;
  cs_LastExit : option Z; cs_LastCwd : string; cs_LastHost : string; cs_LastDurationMs : option Z;
}.

Record Stats := mkStats {
  st_Commands : Z; st_Deleted : Z; st_Devices : Z; st_Sessions : Z; st_Success : Z; st_Failed : Z;
}.

(** ** SQL *)

Definition count (p : HistoryRow -> bool) (d : DB) : Z := Z.of_nat (length (List.filter p (rows (db_history d)))).
Definition exit_ok (r : HistoryRow) : bool := bool_decide (hr_exit_status r = Some 0).
Definition exit_failed (r : HistoryRow) : bool :=
  match hr_exit_status r with Some x => negb (x =? 0) | None => false end.
Definition live (r : HistoryRow) : bool := negb (hr_deleted r).

(** [COUNT(DISTINCT x)] does not count [NULL]. *)
Definition Store_Stats (d : DB) : Stats :=
  mkStats (count live d) (count hr_deleted d)
    (Z.of_nat (size (list_to_set (hr_device_id <$> rows (db_history d)) : gset string)))
    (Z.of_nat (size (list_to_set (omap hr_session_id (rows (db_history d))) : gset Z)))
    (count (fun r => live r && exit_ok r) d) (count (fun r => live r && exit_failed r) d).

(** A row of the aggregate subquery. *)
Record Aggregate := mkAggregate { ag_runs : Z; ag_success : Z; ag_failed : Z; ag_first : Z; ag_last : Z }.

Definition same_hash (a b : HistoryRow) : bool := bool_decide (hr_command_hash a = hr_command_hash b).

(** [GROUP BY command_hash] over the rows with [p]; [MIN] and [MAX] start from
    a row of the group. *)
Definition aggregate (p : HistoryRow -> bool) (d : DB) (r : HistoryRow) : option Aggregate :=
  match List.filter (fun g => p g && same_hash g r) (rows (db_history d)) with
  | [] => None
  | g :: gs =>
      let n q := Z.of_nat (length (List.filter q (g :: gs))) in
      Some (mkAggregate (Z.of_nat (length (g :: gs))) (n exit_ok) (n exit_failed)
              (foldr (fun x => Z.min (hr_start_ts x)) (hr_start_ts g) gs)
              (foldr (fun x => Z.max (hr_start_ts x)) (hr_start_ts g) gs))
  end.

(** A row [h] with [q] that no newer row with [q] and the same hash shadows,
    joined with the aggregate of its hash. *)
Definition summary_of (p q : HistoryRow -> bool) (sort : SummarySort) (d : DB) (h : HistoryRow) : option (HistoryRow * Aggregate) :=
  if q h && negb (select_any (fun h2 => q h2 && same_hash h2 h && newer h2 h) (db_history d)) then
    a ← aggregate p d h;
    if bool_decide (sort = SortFailed) && (ag_failed a <=? 0) then None else Some (h, a)
  else None.

Definition summary_before (sort : SummarySort) (x y : HistoryRow * Aggregate) : bool :=
  let by_last := if ag_last x.2 =? ag_last y.2 then str_lt (hr_command x.1) (hr_command y.1) else ag_last y.2 <? ag_last x.2 in
  match sort with
  | SortTop => if ag_runs x.2 =? ag_runs y.2 then by_last else ag_runs y.2 <? ag_runs x.2
  | _ => by_last
  end.

Definition scan_summary (i : Interns) (x : HistoryRow * Aggregate) : CommandSummary :=
  let '(h, a) := x in
  mkSummary (hr_command h) (ag_runs a) (ag_success a) (ag_failed a) (time_UnixMilli (ag_first a)) (time_UnixMilli (ag_last a))
    (hr_exit_status h) (null_string_value (intern_value (in_cwd i) (hr_cwd_id h)))
    (null_string_value (intern_value (in_hostname i) (hr_hostname_id h))) (hr_duration_ms h).

Definition select_summaries (p q : HistoryRow -> bool) (sort : SummarySort) (limit : Z) (d : DB) : list CommandSummary :=
  scan_summary (db_interns d) <$>
    limit_rows limit (sort_slice (summary_before sort) (omap (summary_of p q sort d) (rows (db_history d)))).

(** [instr(lower(command), lower(?)) > 0] *)
Definition has_needle (needle : string) (r : HistoryRow) : bool :=
  unless_empty needle (contains (sql_lower needle) (sql_lower (hr_command r))).

Definition CommandSummaries (query : string) (sort : SummarySort) (limit : Z) (d : DB) : list CommandSummary :=
  select_summaries (fun r => live r && has_needle query r) live sort limit d.

(** ** [advanced.go] *)

Definition is_meta (c : ascii) : bool :=
  existsb (Ascii.eqb c) ["\"; "."; "+"; "*"; "?"; "("; ")"; "|"; "["; "]"; "{"; "}"; "^"; "$"]%char.
(** [regexp.QuoteMeta] *)
Fixpoint QuoteMeta (s : string) : string :=
  match s with
  | EmptyString => EmptyString
  | String c s => if is_meta c then String "\" (String c (QuoteMeta s)) else String c (QuoteMeta s)
  end.
Fixpoint literal_loop (pat : string) : string :=
  match pat with
  | EmptyString => EmptyString
  | String c pat => if is_meta c then EmptyString else String c (literal_loop pat)
  end.
Definition RegexLiteralPrefix (pat : string) : string :=
  if str_empty pat then EmptyString else if String.eqb (QuoteMeta pat) pat then pat else literal_loop pat.

Definition is_set {A} (x : option A) : bool := match x with Some _ => true | None => false end.

(** [columnMatch], [stringMatch] and [intMatch]: the values that match. *)
Record columnMatch (V : Type) := mkMatch { cm_set : bool; cm_vals : list V; cm_allowNil : bool; cm_notNil : bool }.
Arguments mkMatch {V}. Arguments cm_set {V}. Arguments cm_vals {V}. Arguments cm_allowNil {V}. Arguments cm_notNil {V}.
Definition match_zero {V} : columnMatch V := mkMatch false [] false false.

Definition impossible {V} (m : columnMatch V) : bool :=
  cm_set m && bool_decide (length (cm_vals m) = 0%nat) && negb (cm_allowNil m).

(** [total] rows, of which [vals] matched. *)
Definition resolved {V} (vals : list V) (total : nat) (allowNil : bool) : columnMatch V :=
  if (0 <? total)%nat && (length vals =? total)%nat then
    if allowNil then mkMatch false [] true false else mkMatch true [] false true
  else mkMatch true vals allowNil false.

(** The clause a match contributes: [col IS NOT NULL], [col IS NULL], or
    [col IN (...)] with or without [OR col IS NULL]. *)
Definition column_pred {V} `{EqDecision V} (m : columnMatch V) (col : option V) : bool :=
  negb (cm_set m) ||
  if cm_notNil m then is_set col
  else match col with Some x => bool_decide (x ∈ cm_vals m) | None => cm_allowNil m end.

(** The device column: an empty text counts as [NULL]. *)
Definition device_pred (m : columnMatch string) (dev : string) : bool :=
  negb (cm_set m) ||
  if cm_notNil m then negb (str_empty dev)
  else bool_decide (dev ∈ cm_vals m) || (cm_allowNil m && str_empty dev).

Section Advanced.
Context {Re : Type} (MatchString : Re -> string -> bool) (Re_String : Re -> string).

Record AdvancedFilter := mkAdvanced {
  af_CommandRE : option Re; af_CommandNeedle : string; af_CwdRE : option Re; af_HostRE : option Re; af_ShellRE : option Re;
  af_SessionRE : option Re; af_DeviceRE : option Re; af_ExitRE : option Re; af_ExitFailed : bool; af_Exit : option Z;
  af_Since : option Time; af_Until : option Time; af_Sort : SummarySort; af_Limit : Z;
}.

Definition Active (f : AdvancedFilter) : bool :=
  is_set (af_CommandRE f) || negb (str_empty (af_CommandNeedle f)) || is_set (af_CwdRE f) || is_set (af_HostRE f) ||
  is_set (af_ShellRE f) || is_set (af_SessionRE f) || is_set (af_DeviceRE f) || is_set (af_ExitRE f) ||
  af_ExitFailed f || is_set (af_Exit f) || is_set (af_Since f) || is_set (af_Until f).

(** An unset expression does not constrain. *)
Definition re_ok (re : option Re) (s : string) : bool := from_option (fun re => MatchString re s) true re.

Definition Match (f : AdvancedFilter) (e : Entry) : bool :=
  negb (e_Deleted e) &&
  re_ok (af_CommandRE f) (e_Command e) && re_ok (af_CwdRE f) (e_Cwd e) && re_ok (af_HostRE f) (e_Hostname e) &&
  re_ok (af_ShellRE f) (e_Shell e) && re_ok (af_SessionRE f) (e_SessionID e) && re_ok (af_DeviceRE f) (e_DeviceID e) &&
  (negb (af_ExitFailed f) || match e_ExitStatus e with Some x => negb (x =? 0) | None => false end) &&
  from_option (fun x => bool_decide (e_ExitStatus e = Some x)) true (af_Exit f) &&
  from_option (fun re => match e_ExitStatus e with Some x => MatchString re (pretty x) | None => false end) true (af_ExitRE f) &&
  from_option (fun t => negb (e_StartTS e <? t)) true (af_Since f) &&
  from_option (fun t => negb (t <? e_StartTS e)) true (af_Until f).

Definition FilterEntries (entries : list Entry) (f : AdvancedFilter) : list Entry :=
  if Active f then List.filter (Match f) entries else List.filter (fun e => negb (e_Deleted e)) entries.

(** The loop of [SummarizeRuns]; [first] is [i == 0]. *)
Definition summarize_step (first : bool) (cs : CommandSummary) (last : Entry) (e : Entry) : CommandSummary * Entry :=
  let newest := first || (cs_LastTS cs <? e_StartTS e) || ((e_StartTS e =? cs_LastTS cs) && str_lt (e_ID last) (e_ID e)) in
  (mkSummary (cs_Command cs) (cs_Runs cs + 1)
     (cs_Success cs + match e_ExitStatus e with Some x => if x =? 0 then 1 else 0 | None => 0 end)
     (cs_Failed cs + match e_ExitStatus e with Some x => if x =? 0 then 0 else 1 | None => 0 end)
     (if first || (e_StartTS e <? cs_FirstTS cs) then e_StartTS e else cs_FirstTS cs)
     (if newest then e_StartTS e else cs_LastTS cs) None "" "" None,
   if newest then e else last).
Fixpoint summarize_loop (first : bool) (cs : CommandSummary) (last : Entry) (runs : list Entry) : CommandSummary * Entry :=
  match runs with
  | [] => (cs, last)
  | e :: runs => let '(cs, last) := summarize_step first cs last e in summarize_loop false cs last runs
  end.
Definition summary_zero (command : string) : CommandSummary :=
  mkSummary command 0 0 0 time_zero time_zero None "" "" None.
Definition SummarizeRuns (command : string) (runs : list Entry) : CommandSummary :=
  match runs with
  | [] => summary_zero command
  | _ =>
      let '(cs, last) := summarize_loop true (summary_zero command) entry_zero runs in
      mkSummary (cs_Command cs) (cs_Runs cs) (cs_Success cs) (cs_Failed cs) (cs_FirstTS cs) (cs_LastTS cs)
        (e_ExitStatus last) (e_Cwd last) (e_Hostname last) (e_DurationMs last)
  end.

(** *** Resolution of the expressions against the tables *)

Definition resolveIntern (t : gmap string Z) (re : Re) : columnMatch Z :=
  resolved (omap (fun '(v, i) => if MatchString re v then Some i else None) (map_to_list t)) (size t) (MatchString re "").

Definition resolveStrings (values : list string) (re : Re) : columnMatch string :=
  resolved (List.filter (MatchString re) values) (length values) (MatchString re "").

(** A [NULL] status is counted and never among the values. *)
Definition resolveExits (values : list (option Z)) (re : Re) : columnMatch Z :=
  let vals := omap (fun v => match v with Some x => if MatchString re (pretty x) then Some x else None | None => None end) values in
  let allowNil := MatchString re "" in
  if (0 <? length values)%nat && (length vals =? length values)%nat && allowNil then mkMatch false [] true false
  else mkMatch true vals allowNil false.

Record resolvedAdvanced := mkResolved {
  ra_cwd : columnMatch Z; ra_host : columnMatch Z; ra_shell : columnMatch Z; ra_session : columnMatch Z;
  ra_device : columnMatch string; ra_exits : columnMatch Z;
}.

(** The expression of one column; [None] is [r.impossible]. *)
Definition resolve_column {V} (resolve : Re -> columnMatch V) (re : option Re) : option (columnMatch V) :=
  match re with
  | None => Some match_zero
  | Some re => let m := resolve re in if impossible m then None else Some m
  end.

Definition device_ids (d : DB) : list string := elements (list_to_set (hr_device_id <$> rows (db_history d)) : gset string).
Definition exit_values (d : DB) : list (option Z) :=
  elements (list_to_set (hr_exit_status <$> List.filter live (rows (db_history d))) : gset (option Z)).

Definition resolveAdvanced (f : AdvancedFilter) (d : DB) : option resolvedAdvanced :=
  let i := db_interns d in
  cwd ← resolve_column (resolveIntern (in_cwd i)) (af_CwdRE f);
  host ← resolve_column (resolveIntern (in_hostname i)) (af_HostRE f);
  shell ← resolve_column (resolveIntern (in_shell i)) (af_ShellRE f);
  session ← resolve_column (resolveIntern (in_session i)) (af_SessionRE f);
  device ← resolve_column (resolveStrings (device_ids d)) (af_DeviceRE f);
  exits ← resolve_column (resolveExits (exit_values d)) (af_ExitRE f);
  Some (mkResolved cwd host shell session device exits).

Definition resolved_predicates (f : AdvancedFilter) (m : resolvedAdvanced) (r : HistoryRow) : bool :=
  live r &&
  column_pred (ra_cwd m) (hr_cwd_id r) && column_pred (ra_host m) (hr_hostname_id r) &&
  column_pred (ra_shell m) (hr_shell_id r) && column_pred (ra_session m) (hr_session_id r) &&
  device_pred (ra_device m) (hr_device_id r) && column_pred (ra_exits m) (hr_exit_status r) &&
  (negb (af_ExitFailed f) || exit_failed r) &&
  from_option (fun x => bool_decide (hr_exit_status r = Some x)) true (af_Exit f) &&
  from_option (fun t => UnixMilli t <=? hr_start_ts r) true (af_Since f) &&
  from_option (fun t => hr_start_ts r <=? UnixMilli t) true (af_Until f) &&
  has_needle (af_CommandNeedle f) r.

Definition with_needle (f : AdvancedFilter) : AdvancedFilter :=
  match af_CommandRE f with
  | Some re =>
      if str_empty (af_CommandNeedle f) then
        mkAdvanced (af_CommandRE f) (RegexLiteralPrefix (Re_String re)) (af_CwdRE f) (af_HostRE f) (af_ShellRE f) (af_SessionRE f)
          (af_DeviceRE f) (af_ExitRE f) (af_ExitFailed f) (af_Exit f) (af_Since f) (af_Until f) (af_Sort f) (af_Limit f)
      else f
  | None => f
  end.

Definition CommandSummariesAdvanced (f : AdvancedFilter) (d : DB) : list CommandSummary :=
  let f := with_needle f in
  if negb (Active f) then CommandSummaries "" (af_Sort f) (af_Limit f) d
  else match resolveAdvanced f d with
       | None => []
       | Some m =>
           let p := resolved_predicates f m in
           let out := select_summaries p p (af_Sort f) (af_Limit f) d in
           match af_CommandRE f with
           | Some re => limit_rows (af_Limit f) (List.filter (fun cs => MatchString re (cs_Command cs)) out)
           | None => out
           end
       end.

Definition ListByCommandMatching (command : string) (f : AdvancedFilter) (d : DB) : list Entry :=
  if str_empty command then []
  else if negb (re_ok (af_CommandRE f) command) then []
  else if negb (Active f) then ListByCommand command d
  else match resolveAdvanced f d with
       | None => []
       | Some m =>
           scanEntries (db_interns d)
             (sort_slice newer (List.filter (fun r => resolved_predicates f m r && String.eqb (hr_command r) command)
                (rows (db_history d))))
       end.
End Advanced.

(** ** Agreement of the two forms *)

Section Agreement.
Context {Re : Type} (MatchString : Re -> string -> bool) (Re_String : Re -> string).
Notation re_ok := (re_ok MatchString).
Notation AF := (AdvancedFilter (Re := Re)).

(** The expression rejects the empty text or some value there is: otherwise
    [resolved] reports [notNil] without values, which [impossible] takes for no
    match at all. *)
Definition untrapped (values : list string) (re : option Re) : Prop :=
  forall re0, re = Some re0 -> MatchString re0 "" = true \/ values = [] \/ exists v, v ∈ values /\ MatchString re0 v = false.

Lemma filter_all_length {A} (p : A -> bool) (l : list A) :
  length (List.filter p l) = length l <-> forall x, x ∈ l -> p x = true.
Proof.
  induction l as [|x l IH]; simpl; [split; [intros _ x H; by apply not_elem_of_nil in H|done]|].
  pose proof (filter_length_le p l) as Hle. destruct (p x) eqn:E; simpl; split.
  - intros [= H] y [->|Hy]%elem_of_cons; [done|]. by apply IH.
  - intros H. f_equal. apply IH. intros y Hy. apply H. by right.
  - intros H. lia.
  - intros H. rewrite (H x) in E by left. done.
Qed.

Lemma resolved_cases {V} (vals : list V) (values : list string) (re : Re) :
  length vals = length (List.filter (MatchString re) values) -> untrapped values (Some re) ->
  let m := resolved vals (length values) (MatchString re "") in
  if impossible m then MatchString re "" = false /\ forall v, v ∈ values -> MatchString re v = false
  else m = mkMatch true vals (MatchString re "") false \/
    m = mkMatch false [] true false /\ MatchString re "" = true /\ forall v, v ∈ values -> MatchString re v = true.
Proof.
  intros Hlen Hu. unfold resolved. destruct (_ && _) eqn:E.
  - apply andb_true_iff in E as [E1%Nat.ltb_lt E2%Nat.eqb_eq]. rewrite Hlen in E2.
    rewrite filter_all_length in E2. destruct (MatchString re "") eqn:En.
    + unfold impossible. simpl. right. done.
    + destruct (Hu re eq_refl) as [?|[->|(v & Hv & Hf)]]; [congruence|simpl in E1; lia|]. rewrite (E2 v Hv) in Hf. done.
  - unfold impossible. simpl. destruct (bool_decide_reflect (length vals = 0%nat)) as [H0|H0]; simpl.
    + destruct (MatchString re "") eqn:En; simpl; [by left|]. split; [done|]. intros v Hv.
      destruct (MatchString re v) eqn:Ev; [|done]. exfalso. rewrite Hlen in H0. apply nil_length_inv in H0.
      assert (v ∈ List.filter (MatchString re) values) as Hin by (apply list_elem_of_In, filter_In; split; [by apply list_elem_of_In|done]).
      rewrite H0 in Hin. by apply not_elem_of_nil in Hin.
    + by left.
Qed.

(** A column of interned texts. *)
Lemma intern_column (t : gmap string Z) (re : option Re) :
  intern_inj t -> untrapped (map_to_list t).*1 re ->
  match resolve_column (resolveIntern MatchString t) re with
  | None => forall col, registered t col -> re_ok re (null_string_value (intern_value t col)) = false
  | Some m => forall col, registered t col -> column_pred m col = re_ok re (null_string_value (intern_value t col))
  end.
Proof.
  intros Hinj Hu. destruct re as [re|]; [|done]. unfold resolve_column, resolveIntern.
  assert (forall v i, t !! v = Some i -> intern_value t (Some i) = Some v) as Hval by (intros v i; by apply intern_value_lookup).
  assert (forall x, x ∈ omap (fun '(v, i) => if MatchString re v then Some i else None) (map_to_list t) <->
    exists v, t !! v = Some x /\ MatchString re v = true) as Helem.
  { intros x. rewrite list_elem_of_omap. split.
    - intros ([v i] & Hin%elem_of_map_to_list & Hx). destruct (MatchString re v) eqn:Ev; [|done]. simplify_eq. eauto.
    - intros (v & Hv & Hm). exists (v, x). split; [by apply elem_of_map_to_list|by rewrite Hm]. }
  assert (forall v i, t !! v = Some i -> v ∈ (map_to_list t).*1) as Hkeys.
  { intros v i Hv. apply list_elem_of_fmap. exists (v, i). split; [done|by apply elem_of_map_to_list]. }
  set (vals := omap _ _) in *.
  pose proof (resolved_cases vals (map_to_list t).*1 re) as Hc. rewrite length_fmap, length_map_to_list in Hc.
  assert (length vals = length (List.filter (MatchString re) (map_to_list t).*1)) as Hlen.
  { unfold vals. clear. induction (map_to_list t) as [|[v i] l IH]; [done|]. rewrite fmap_cons. cbn [omap list_omap List.filter fst].
    destruct (MatchString re v); cbn [length]; [f_equal|]; exact IH. }
  specialize (Hc Hlen Hu). cbv zeta in Hc. destruct (impossible _) eqn:Ei.
  - destruct Hc as [H1 H2]. intros [i|] Hreg; [|done]. destruct Hreg as (v & Hv). rewrite (Hval v i Hv). simpl. eauto.
  - intros col Hreg. destruct Hc as [->|(-> & Hnil & Hall)]; unfold column_pred; simpl.
    + destruct col as [i|]; [|done]. destruct Hreg as (v & Hv). rewrite (Hval v i Hv). simpl.
      apply eq_iff_eq_true. rewrite bool_decide_eq_true, Helem. split; [|eauto].
      intros (v' & Hv' & Hm). by rewrite (Hinj v v' i Hv Hv').
    + symmetry. destruct col as [i|]; [|done]. destruct Hreg as (v & Hv). rewrite (Hval v i Hv). simpl. eauto.
Qed.

(** The device column. *)
Lemma device_column (values : list string) (re : option Re) :
  untrapped values re ->
  match resolve_column (resolveStrings MatchString values) re with
  | None => forall dev, dev ∈ values -> re_ok re dev = false
  | Some m => forall dev, dev ∈ values -> device_pred m dev = re_ok re dev
  end.
Proof.
  intros Hu. destruct re as [re|]; [|done]. unfold resolve_column, resolveStrings.
  pose proof (resolved_cases (List.filter (MatchString re) values) values re eq_refl Hu) as Hc. cbv zeta in Hc.
  destruct (impossible _); [by destruct Hc|]. intros dev Hdev. destruct Hc as [->|(-> & _ & Hall)]; unfold device_pred; simpl.
  - apply eq_iff_eq_true. rewrite orb_true_iff, bool_decide_eq_true, list_elem_of_In, filter_In, <- list_elem_of_In, andb_true_iff.
    split; [|by left]. intros [[_ ?]|[Hn He]]; [done|]. destruct dev; done.
  - symmetry. by apply Hall.
Qed.

(** The exit status. An expression that matches the empty text also keeps the
    rows without a status, which [Match] drops. *)
Lemma exit_column (values : list (option Z)) (re : option Re) :
  (forall re0, re = Some re0 -> MatchString re0 "" = false) ->
  let keeps x := from_option (fun re => match x with Some n => MatchString re (pretty n) | None => false end) true re in
  match resolve_column (resolveExits MatchString values) re with
  | None => forall x, x ∈ values -> keeps x = false
  | Some m => forall x, x ∈ values -> column_pred m x = keeps x
  end.
Proof.
  intros Hnil keeps. destruct re as [re|]; [|done]. specialize (Hnil re eq_refl). subst keeps. unfold resolve_column, resolveExits.
  set (vals := omap _ values). rewrite Hnil, andb_false_r.
  assert (forall n, Some n ∈ values -> n ∈ vals <-> MatchString re (pretty n) = true) as Hin.
  { intros n Hn. unfold vals. rewrite list_elem_of_omap. split.
    - intros ([x|] & _ & Hx); [|done]. destruct (MatchString re (pretty x)) eqn:E; by simplify_eq.
    - intros Hm. exists (Some n). by rewrite Hm. }
  unfold impossible. simpl. destruct (bool_decide_reflect (length vals = 0%nat)) as [H0%nil_length_inv|H0]; simpl.
  - intros [n|] Hx; [|done]. simpl. destruct (MatchString re (pretty n)) eqn:E; [|done].
    rewrite H0 in Hin. apply (Hin n Hx), not_elem_of_nil in E. done.
  - intros [n|] Hx; unfold column_pred; simpl; [|done]. apply eq_iff_eq_true. rewrite bool_decide_eq_true. by apply Hin.
Qed.

(** *** Filtering and sorting commute *)

Lemma filter_insert_by {A} (less : A -> A -> bool) (p : A -> bool) (x : A) (l : list A) :
  weak_order_on less (x :: l) -> sorted_by less l ->
  List.filter p (insert_by less x l) = if p x then insert_by less x (List.filter p l) else List.filter p l.
Proof.
  intros Hw Hs. induction Hs as [|y l Hs IH Hy]; [done|]. cbn [insert_by].
  assert (weak_order_on less (x :: l)) as Hw' by (eapply weak_order_on_sub; [|exact Hw]; set_solver).
  destruct (less y x) eqn:E.
  - cbn [List.filter]. rewrite (IH Hw'). destruct (p x), (p y); cbn [insert_by]; rewrite ?E; done.
  - change (List.filter p (x :: y :: l)) with (if p x then x :: List.filter p (y :: l) else List.filter p (y :: l)).
    destruct (p x); [|done]. assert (forall z, z ∈ List.filter p (y :: l) -> less z x = false) as Hz.
    { intros z Hz%list_elem_of_In%filter_In. destruct Hz as [Hz%list_elem_of_In _]. apply elem_of_cons in Hz as [->|Hz]; [done|].
      rewrite Forall_forall in Hy. destruct Hw as [_ Htr]. apply (Htr x y z); [set_solver..|done|by apply Hy]. }
    destruct (List.filter p (y :: l)) as [|z k]; [done|]. cbn [insert_by]. by rewrite (Hz z) by left.
Qed.

Lemma filter_sort_slice {A} (less : A -> A -> bool) (p : A -> bool) (l : list A) :
  weak_order_on less l -> List.filter p (sort_slice less l) = sort_slice less (List.filter p l).
Proof.
  induction l as [|x l IH]; intros Hw; [done|].
  assert (weak_order_on less l) as Hw' by (eapply weak_order_on_sub; [|exact Hw]; set_solver).
  unfold sort_slice in *. cbn [foldr List.filter]. fold (sort_slice less l). rewrite filter_insert_by.
  - unfold sort_slice. rewrite (IH Hw'). by destruct (p x).
  - eapply weak_order_on_sub; [|exact Hw]. intros z. rewrite !elem_of_cons, elem_of_sort_slice. done.
  - by apply sort_slice_sorted.
Qed.

Lemma newer_weak_order l : weak_order_on newer l.
Proof.
  split.
  - intros x y _ _ Hxy. destruct (newer y x) eqn:E; [|done]. pose proof (newer_trans _ _ _ Hxy E) as H. by rewrite newer_irrefl in H.
  - intros x y z _ _ _. unfold newer. rewrite !orb_false_iff, !andb_false_iff, !Z.ltb_ge, !Z.eqb_neq. intros [H1 H1'] [H2 H2'].
    split; [lia|]. destruct (decide (hr_start_ts z = hr_start_ts x)); [|by left]. right.
    destruct H1' as [?|H1']; [lia|]. destruct H2' as [?|H2']; [lia|].
    destruct (str_lt (hr_id x) (hr_id z)) eqn:E; [|done].
    destruct (str_lt (hr_id z) (hr_id y)) eqn:H; [pose proof (str_lt_trans _ _ _ E H); congruence|].
    pose proof (str_lt_total _ _ H2' H). congruence.
Qed.

Definition without_command (f : AF) : AF :=
  mkAdvanced None "" (af_CwdRE f) (af_HostRE f) (af_ShellRE f) (af_SessionRE f) (af_DeviceRE f) (af_ExitRE f) (af_ExitFailed f)
    (af_Exit f) (af_Since f) (af_Until f) (af_Sort f) (af_Limit f).
Notation Match := (Match MatchString).

Lemma Match_split f e : Match f e = re_ok (af_CommandRE f) (e_Command e) && Match (without_command f) e.
Proof. unfold Advanced.Match. simpl. by destruct (Advanced.re_ok MatchString (af_CommandRE f) (e_Command e)), (e_Deleted e). Qed.

(** Where the two forms of a filter agree on a database: no expression falls
    into the trap of [resolved], one for the exit status does not match the
    empty text, and the lower bound is at the precision of the table. *)
Record agreeable (f : AF) (d : DB) : Prop := {
  ag_cwd : untrapped (map_to_list (in_cwd (db_interns d))).*1 (af_CwdRE f);
  ag_host : untrapped (map_to_list (in_hostname (db_interns d))).*1 (af_HostRE f);
  ag_shell : untrapped (map_to_list (in_shell (db_interns d))).*1 (af_ShellRE f);
  ag_session : untrapped (map_to_list (in_session (db_interns d))).*1 (af_SessionRE f);
  ag_device : untrapped (device_ids d) (af_DeviceRE f);
  ag_exit : forall re, af_ExitRE f = Some re -> MatchString re "" = false;
  ag_since : forall t, af_Since f = Some t -> t = time_UnixMilli (UnixMilli t);
}.

Lemma since_agrees (f : AF) d ms : agreeable f d ->
  from_option (fun t => UnixMilli t <=? ms) true (af_Since f) =
  from_option (fun t => negb (time_UnixMilli ms <? t)) true (af_Since f).
Proof.
  intros Hf. pose proof (ag_since _ _ Hf) as Hs. destruct (af_Since f) as [t|]; [|done]. specialize (Hs t eq_refl). simpl.
  rewrite Hs at 2. unfold time_UnixMilli. destruct (Z.leb_spec (UnixMilli t) ms), (Z.ltb_spec (ms * 1000000) (UnixMilli t * 1000000)); simpl; lia.
Qed.

Lemma until_agrees (until : option Time) ms :
  from_option (fun t => ms <=? UnixMilli t) true until = from_option (fun t => negb (t <? time_UnixMilli ms)) true until.
Proof.
  destruct until as [t|]; [|done]. simpl. unfold UnixMilli, time_UnixMilli.
  pose proof (Z.div_mod t 1000000). pose proof (Z.mod_pos_bound t 1000000).
  destruct (Z.leb_spec ms (t / 1000000)), (Z.ltb_spec t (ms * 1000000)); simpl; lia.
Qed.

Lemma elem_device_ids d k r : db_history d !! k = Some r -> hr_device_id r ∈ device_ids d.
Proof.
  intros Hr. unfold device_ids. apply elem_of_elements, elem_of_list_to_set, list_elem_of_fmap. exists r. split; [done|].
  apply elem_of_rows. eauto.
Qed.

Lemma elem_exit_values d k r : db_history d !! k = Some r -> live r = true -> hr_exit_status r ∈ exit_values d.
Proof.
  intros Hr Hl. unfold exit_values. apply elem_of_elements, elem_of_list_to_set, list_elem_of_fmap. exists r. split; [done|].
  apply list_elem_of_In, filter_In. split; [|done]. apply list_elem_of_In, elem_of_rows. eauto.
Qed.

(** On a row of the table the SQL clauses and [Match] say the same. *)
Lemma row_agrees (f : AF) d k r :
  wf d -> agreeable f d -> db_history d !! k = Some r ->
  match resolveAdvanced MatchString f d with
  | None => Match (without_command f) (scanEntry (db_interns d) r) = false
  | Some m => resolved_predicates f m r =
      Match (without_command f) (scanEntry (db_interns d) r) && has_needle (af_CommandNeedle f) r
  end.
Proof.
  intros Hwf Hf Hr. destruct (wf_registered _ Hwf k r Hr) as (R1 & R2 & R3 & R4). destruct (wf_interns _ Hwf) as [I1 I2 I3 I4].
  pose proof (intern_column _ _ I1 (ag_cwd _ _ Hf)) as C1. pose proof (intern_column _ _ I3 (ag_host _ _ Hf)) as C2.
  pose proof (intern_column _ _ I4 (ag_shell _ _ Hf)) as C3. pose proof (intern_column _ _ I2 (ag_session _ _ Hf)) as C4.
  pose proof (device_column _ _ (ag_device _ _ Hf)) as C5. pose proof (exit_column (exit_values d) _ (ag_exit _ _ Hf)) as C6.
  unfold Advanced.Match, without_command. cbn [af_CommandRE af_CwdRE af_HostRE af_ShellRE af_SessionRE af_DeviceRE af_ExitRE
    af_ExitFailed af_Exit af_Since af_Until]. simpl e_Deleted. simpl e_Cwd. simpl e_Hostname. simpl e_Shell. simpl e_SessionID.
  simpl e_DeviceID. simpl e_ExitStatus. simpl e_StartTS. fold (live r).
  unfold resolveAdvanced. destruct (live r) eqn:El; [|by repeat (destruct (resolve_column _ _); [|done]); unfold resolved_predicates; rewrite El].
  pose proof (elem_device_ids d k r Hr) as Hdev. pose proof (elem_exit_values d k r Hr El) as Hex.
  destruct (resolve_column _ (af_CwdRE f)) as [m1|]; simpl; [|by rewrite (C1 _ R1)]. rewrite <- (C1 _ R1).
  destruct (resolve_column _ (af_HostRE f)) as [m2|]; simpl; [|by rewrite (C2 _ R3), ?andb_false_r]. rewrite <- (C2 _ R3).
  destruct (resolve_column _ (af_ShellRE f)) as [m3|]; simpl; [|by rewrite (C3 _ R4), ?andb_false_r]. rewrite <- (C3 _ R4).
  destruct (resolve_column _ (af_SessionRE f)) as [m4|]; simpl; [|by rewrite (C4 _ R2), ?andb_false_r]. rewrite <- (C4 _ R2).
  destruct (resolve_column _ (af_DeviceRE f)) as [m5|]; simpl; [|by rewrite (C5 _ Hdev), ?andb_false_r]. rewrite <- (C5 _ Hdev).
  destruct (resolve_column _ (af_ExitRE f)) as [m6|]; simpl; [|by rewrite (C6 _ Hex), ?andb_false_r]. rewrite <- (C6 _ Hex).
  unfold resolved_predicates. simpl. rewrite El, <- (since_agrees f d _ Hf), <- until_agrees. fold (exit_failed r). simpl.
  repeat match goal with |- context [column_pred ?m ?c] => destruct (column_pred m c) end;
    destruct (device_pred m5 _), (_ || exit_failed r), (from_option _ _ (af_Exit f)), (from_option _ _ (af_Since f)),
      (from_option _ _ (af_Until f)), (has_needle _ r); reflexivity.
Qed.
Lemma filter_rows_ext (p q : HistoryRow -> bool) d :
  (forall k r, db_history d !! k = Some r -> p r = q r) ->
  List.filter p (rows (db_history d)) = List.filter q (rows (db_history d)).
Proof. intros Hpq. apply filter_ext_in. intros r Hr%list_elem_of_In%elem_of_rows. destruct Hr as (k & Hr). eauto. Qed.

Lemma Match_live f e : Match f e = true -> e_Deleted e = false.
Proof. unfold Advanced.Match. by destruct (e_Deleted e). Qed.

(** The rows of a command that the SQL query lists are those the filter
    keeps in memory. *)
Lemma ListByCommandMatching_reference (command : string) (f : AF) (d : DB) :
  wf d -> agreeable f d -> command <> EmptyString ->
  unless_empty (af_CommandNeedle f) (contains (sql_lower (af_CommandNeedle f)) (sql_lower command)) = true ->
  ListByCommandMatching MatchString command f d = FilterEntries MatchString (ListByCommand command d) f.
Proof.
  intros Hwf Hf Hc Hn. unfold ListByCommandMatching, FilterEntries, ListByCommand, scanEntries.
  replace (str_empty command) with false by by destruct command.
  rewrite !filter_fmap, !filter_sort_slice, !filter_both by apply newer_weak_order.
  assert (re_ok (af_CommandRE f) command = false -> Active f = true) as Hre.
  { unfold Active. by destruct (af_CommandRE f). }
  destruct (Active f) eqn:Ea; simpl.
  - pose proof (row_agrees f d) as Hrow.
    assert (forall k r, db_history d !! k = Some r ->
      (negb (hr_deleted r) && String.eqb (hr_command r) command) && Match f (scanEntry (db_interns d) r) =
      (if re_ok (af_CommandRE f) command then Match (without_command f) (scanEntry (db_interns d) r) else false)
        && String.eqb (hr_command r) command) as Hm.
    { intros k r Hr. destruct (String.eqb_spec (hr_command r) command) as [<-|]; [|by rewrite !andb_false_r].
      rewrite Match_split. simpl. rewrite !andb_true_r. destruct (re_ok (af_CommandRE f) (hr_command r)); simpl; [|by rewrite andb_false_r].
      destruct (Match (without_command f) (scanEntry (db_interns d) r)) eqn:E; [|by rewrite andb_false_r].
      apply Match_live in E. simpl in E. by rewrite E. }
    destruct (re_ok (af_CommandRE f) command); simpl.
    + destruct (resolveAdvanced MatchString f d) as [m|].
      * f_equal. f_equal. apply filter_rows_ext. intros k r Hr. unfold compose. rewrite (Hm k r Hr), (Hrow k r Hwf Hf Hr).
        destruct (String.eqb_spec (hr_command r) command) as [<-|]; [|by rewrite !andb_false_r].
        unfold has_needle. by rewrite Hn, !andb_true_r.
      * rewrite (filter_rows_ext _ (fun _ => false)); [by rewrite List.filter_false|]. intros k r Hr. unfold compose.
        by rewrite (Hm k r Hr), (Hrow k r Hwf Hf Hr).
    + rewrite (filter_rows_ext _ (fun _ => false)); [by rewrite List.filter_false|]. intros k r Hr. unfold compose.
      by rewrite (Hm k r Hr).
  - destruct (re_ok (af_CommandRE f) command) eqn:Er; simpl; [|by specialize (Hre eq_refl)].
    f_equal. f_equal. apply filter_rows_ext. intros k r Hr. unfold compose. simpl. by destruct (hr_deleted r), (String.eqb _ _).
Qed.

(** *** Summaries *)

Definition entry_newer (a b : Entry) : bool :=
  (e_StartTS b <? e_StartTS a) || ((e_StartTS a =? e_StartTS b) && str_lt (e_ID b) (e_ID a)).
Definition entry_ok (e : Entry) : bool := bool_decide (e_ExitStatus e = Some 0).
Definition entry_failed (e : Entry) : bool := match e_ExitStatus e with Some x => negb (x =? 0) | None => false end.

(** [cs] is the summary of the entries [seen], [last] the newest of them. *)
Record so_far (command : string) (seen : list Entry) (cs : CommandSummary) (last : Entry) : Prop := {
  sf_command : cs_Command cs = command;
  sf_runs : cs_Runs cs = Z.of_nat (length seen);
  sf_success : cs_Success cs = Z.of_nat (length (List.filter entry_ok seen));
  sf_failed : cs_Failed cs = Z.of_nat (length (List.filter entry_failed seen));
  sf_last : last ∈ seen /\ cs_LastTS cs = e_StartTS last;
  sf_newest : forall e, e ∈ seen -> entry_newer e last = false;
  sf_first : exists e, e ∈ seen /\ cs_FirstTS cs = e_StartTS e;
  sf_oldest : forall e, e ∈ seen -> cs_FirstTS cs <= e_StartTS e;
}.

Lemma entry_newer_trans_false a b c : entry_newer a b = false -> entry_newer b c = false -> entry_newer a c = false.
Proof.
  unfold entry_newer. rewrite !orb_false_iff, !andb_false_iff, !Z.ltb_ge, !Z.eqb_neq. intros [H1 H1'] [H2 H2'].
  split; [lia|]. destruct (decide (e_StartTS a = e_StartTS c)); [|by left]. right.
  destruct H1' as [?|H1']; [lia|]. destruct H2' as [?|H2']; [lia|].
  destruct (str_lt (e_ID c) (e_ID a)) eqn:E; [|done].
  destruct (str_lt (e_ID a) (e_ID b)) eqn:H; [pose proof (str_lt_trans _ _ _ E H); congruence|].
  pose proof (str_lt_total _ _ H H1'). congruence.
Qed.

Lemma entry_newer_asym a b : entry_newer a b = true -> entry_newer b a = false.
Proof.
  unfold entry_newer. rewrite orb_true_iff, andb_true_iff, Z.ltb_lt, Z.eqb_eq, orb_false_iff, andb_false_iff, Z.ltb_ge, Z.eqb_neq.
  intros [H|[H Hs]]; split; [lia|left; lia|lia|right; by apply str_lt_asym].
Qed.

Lemma entry_newer_irrefl a : entry_newer a a = false.
Proof. unfold entry_newer. by rewrite Z.ltb_irrefl, str_lt_irrefl, andb_false_r. Qed.

Lemma exit_counts e :
  match e_ExitStatus e with Some x => if x =? 0 then 1 else 0 | None => 0 end = (if entry_ok e then 1 else 0) /\
  match e_ExitStatus e with Some x => if x =? 0 then 0 else 1 | None => 0 end = (if entry_failed e then 1 else 0).
Proof.
  unfold entry_ok, entry_failed. destruct (e_ExitStatus e) as [x|]; [|by rewrite bool_decide_false].
  destruct (Z.eqb_spec x 0) as [->|Hx]; [by rewrite bool_decide_true|]. rewrite bool_decide_false by congruence. done.
Qed.

Lemma filter_cons_length {A} (p : A -> bool) x l :
  Z.of_nat (length (List.filter p (x :: l))) = Z.of_nat (length (List.filter p l)) + (if p x then 1 else 0).
Proof. simpl. destruct (p x); simpl; lia. Qed.

Lemma summarize_step_spec command seen cs last e :
  so_far command seen cs last ->
  so_far command (e :: seen) (summarize_step false cs last e).1 (summarize_step false cs last e).2.
Proof.
  intros [H1 H2 H3 H4 [H5 H5'] H6 (e0 & H7 & H7') H8]. destruct (exit_counts e) as [X1 X2].
  unfold summarize_step. rewrite X1, X2. rewrite H5'. simpl orb. fold (entry_newer e last).
  split; cbn [fst snd cs_Command cs_Runs cs_Success cs_Failed cs_FirstTS cs_LastTS].
  - done.
  - simpl. lia.
  - rewrite filter_cons_length. lia.
  - rewrite filter_cons_length. lia.
  - destruct (entry_newer e last); split; [left|done|by right|done].
  - destruct (entry_newer e last) eqn:E; intros x [->|Hx]%elem_of_cons; [apply entry_newer_irrefl| |done|by apply H6].
    apply entry_newer_asym in E. eapply entry_newer_trans_false; [by apply H6|done].
  - destruct (e_StartTS e <? cs_FirstTS cs); [exists e; split; [left|done]|exists e0; split; [by right|done]].
  - destruct (Z.ltb_spec (e_StartTS e) (cs_FirstTS cs)); intros x [->|Hx]%elem_of_cons; try lia; specialize (H8 x Hx); lia.
Qed.

Lemma summarize_loop_spec command seen cs last runs :
  so_far command seen cs last ->
  so_far command (rev runs ++ seen) (summarize_loop false cs last runs).1 (summarize_loop false cs last runs).2.
Proof.
  revert seen cs last. induction runs as [|e runs IH]; intros seen cs last Hs; [done|]. cbn [summarize_loop rev].
  pose proof (summarize_step_spec command seen cs last e Hs) as Hst. destruct (summarize_step false cs last e) as [cs' last'].
  rewrite <- app_assoc. by apply IH.
Qed.

Lemma so_far_perm command l l' cs last : l ≡ₚ l' -> so_far command l cs last -> so_far command l' cs last.
Proof.
  intros Hp [H1 H2 H3 H4 [H5 H5'] H6 (e0 & H7 & H7') H8].
  assert (forall p : Entry -> bool, length (List.filter p l) = length (List.filter p l')) as Hl.
  { intros p. apply Permutation_length. clear -Hp. induction Hp as [|x l l' Hp IH|x y l|l l1 l2 H1 IH1 H2 IH2]; simpl;
      [done| |by destruct (p x), (p y); try apply Permutation_swap|by rewrite IH1]. destruct (p x); [by f_equiv|done]. }
  split; [done|by rewrite H2, Hp|by rewrite H3, Hl|by rewrite H4, Hl|by rewrite <- Hp| | |].
  - intros e He. apply H6. by rewrite Hp.
  - exists e0. by rewrite <- Hp.
  - intros e He. apply H8. by rewrite Hp.
Qed.

(** The summary read off [so_far]: it depends on the entries only. *)
Lemma so_far_unique command l cs cs' last last' :
  (forall a b, a ∈ l -> b ∈ l -> e_ID a = e_ID b -> a = b) -> so_far command l cs last -> so_far command l cs' last' ->
  last = last' /\ cs_Runs cs = cs_Runs cs' /\ cs_Success cs = cs_Success cs' /\ cs_Failed cs = cs_Failed cs' /\
  cs_FirstTS cs = cs_FirstTS cs' /\ cs_LastTS cs = cs_LastTS cs'.
Proof.
  intros Hid [H1 H2 H3 H4 [H5 H5'] H6 (e0 & H7 & H7') H8] [G1 G2 G3 G4 [G5 G5'] G6 (e1 & G7 & G7') G8].
  assert (last = last') as <-.
  { apply Hid; [done..|]. pose proof (H6 _ G5) as E1. pose proof (G6 _ H5) as E2. unfold entry_newer in E1, E2.
    rewrite !orb_false_iff, !andb_false_iff, !Z.ltb_ge, !Z.eqb_neq in E1, E2. destruct E1 as [? [?|E1]], E2 as [? [?|E2]]; try lia.
    by apply str_lt_total. }
  split_and!; [done|congruence..| |congruence]. pose proof (H8 _ G7). pose proof (G8 _ H7). lia.
Qed.

Definition of_last (cs : CommandSummary) (last : Entry) : CommandSummary :=
  mkSummary (cs_Command cs) (cs_Runs cs) (cs_Success cs) (cs_Failed cs) (cs_FirstTS cs) (cs_LastTS cs)
    (e_ExitStatus last) (e_Cwd last) (e_Hostname last) (e_DurationMs last).

Lemma SummarizeRuns_spec command runs :
  runs <> [] -> exists cs last, so_far command runs cs last /\ SummarizeRuns command runs = of_last cs last.
Proof.
  destruct runs as [|e runs]; [done|]. intros _. unfold SummarizeRuns. cbn [summarize_loop].
  destruct (summarize_step true (summary_zero command) entry_zero e) as [cs0 last0] eqn:E0.
  assert (so_far command [e] cs0 last0) as H0.
  { unfold summarize_step in E0. destruct (exit_counts e) as [X1 X2]. rewrite X1, X2 in E0. simpl in E0. injection E0 as <- <-.
    split; simpl; try done.
    - by destruct (entry_ok e).
    - by destruct (entry_failed e).
    - split; [left|done].
    - intros x ->%list_elem_of_singleton. apply entry_newer_irrefl.
    - exists e. split; [left|done].
    - intros x ->%list_elem_of_singleton. lia. }
  pose proof (summarize_loop_spec command [e] cs0 last0 runs H0) as Hl.
  destruct (summarize_loop false cs0 last0 runs) as [cs last]. exists cs, last. split; [|done].
  eapply so_far_perm; [|exact Hl]. rewrite <- Permutation_rev. by rewrite Permutation_app_comm.
Qed.

(** *** The SQL side *)

(** The hash tells the commands of the table apart. *)
Definition hash_ok (d : DB) : Prop :=
  forall k k' r r', db_history d !! k = Some r -> db_history d !! k' = Some r' ->
    hr_command_hash r = hr_command_hash r' <-> hr_command r = hr_command r'.

Definition group (p : HistoryRow -> bool) (d : DB) (command : string) : list HistoryRow :=
  List.filter (fun r => p r && String.eqb (hr_command r) command) (rows (db_history d)).

Lemma elem_of_group p d command r :
  r ∈ group p d command <-> exists k, db_history d !! k = Some r /\ p r = true /\ hr_command r = command.
Proof.
  unfold group. rewrite list_elem_of_In, filter_In, <- list_elem_of_In, elem_of_rows, andb_true_iff, String.eqb_eq. naive_solver.
Qed.

Lemma fold_min_spec g gs :
  (exists r, r ∈ g :: gs /\ foldr (fun x => Z.min (hr_start_ts x)) (hr_start_ts g) gs = hr_start_ts r) /\
  forall r, r ∈ g :: gs -> foldr (fun x => Z.min (hr_start_ts x)) (hr_start_ts g) gs <= hr_start_ts r.
Proof.
  induction gs as [|x gs [(r & Hr & E) IH]]; simpl.
  { split; [exists g; split; [left|done]|]. intros r ->%list_elem_of_singleton. lia. }
  split.
  - rewrite E. destruct (Z.min_spec (hr_start_ts x) (hr_start_ts r)) as [[_ ->]|[_ ->]].
    + exists x. split; [right; left|done].
    + exists r. split; [|done]. apply elem_of_cons in Hr as [->|Hr]; [left|by do 2 right].
  - intros y [->|[->|Hy]%elem_of_cons]%elem_of_cons; [specialize (IH g ltac:(left)); lia|lia|].
    specialize (IH y ltac:(by right)). lia.
Qed.

Lemma fold_max_spec g gs :
  (exists r, r ∈ g :: gs /\ foldr (fun x => Z.max (hr_start_ts x)) (hr_start_ts g) gs = hr_start_ts r) /\
  forall r, r ∈ g :: gs -> hr_start_ts r <= foldr (fun x => Z.max (hr_start_ts x)) (hr_start_ts g) gs.
Proof.
  induction gs as [|x gs [(r & Hr & E) IH]]; simpl.
  { split; [exists g; split; [left|done]|]. intros r ->%list_elem_of_singleton. lia. }
  split.
  - rewrite E. destruct (Z.max_spec (hr_start_ts x) (hr_start_ts r)) as [[_ ->]|[_ ->]].
    + exists r. split; [|done]. apply elem_of_cons in Hr as [->|Hr]; [left|by do 2 right].
    + exists x. split; [right; left|done].
  - intros y [->|[->|Hy]%elem_of_cons]%elem_of_cons; [specialize (IH g ltac:(left)); lia|lia|].
    specialize (IH y ltac:(by right)). lia.
Qed.

Lemma scan_newer i a b : entry_newer (scanEntry i a) (scanEntry i b) = newer a b.
Proof.
  unfold entry_newer, newer. simpl. unfold time_UnixMilli.
  replace (hr_start_ts b * 1000000 <? hr_start_ts a * 1000000) with (hr_start_ts b <? hr_start_ts a)
    by (destruct (Z.ltb_spec (hr_start_ts b) (hr_start_ts a)), (Z.ltb_spec (hr_start_ts b * 1000000) (hr_start_ts a * 1000000)); lia).
  by replace (hr_start_ts a * 1000000 =? hr_start_ts b * 1000000) with (hr_start_ts a =? hr_start_ts b)
    by (destruct (Z.eqb_spec (hr_start_ts a) (hr_start_ts b)), (Z.eqb_spec (hr_start_ts a * 1000000) (hr_start_ts b * 1000000)); lia).
Qed.

(** The aggregate of a row's hash is that of its command. *)
Lemma aggregate_group p d k h :
  hash_ok d -> db_history d !! k = Some h ->
  List.filter (fun g => p g && same_hash g h) (rows (db_history d)) = group p d (hr_command h).
Proof.
  intros Hh Hk. unfold group. apply filter_rows_ext. intros k' r Hr. unfold same_hash. f_equal. apply eq_iff_eq_true.
  rewrite bool_decide_eq_true, String.eqb_eq. by apply (Hh k' k).
Qed.

(** Not shadowed: no row of the group is newer. *)
Lemma not_shadowed p d k h :
  hash_ok d -> db_history d !! k = Some h ->
  select_any (fun h2 => p h2 && same_hash h2 h && newer h2 h) (db_history d) = false <->
  forall r, r ∈ group p d (hr_command h) -> newer r h = false.
Proof.
  intros Hh Hk. rewrite select_any_false. setoid_rewrite elem_of_group. unfold same_hash. split.
  - intros Hn r (k' & Hr & Hp & Hc). specialize (Hn k' r Hr). rewrite Hp, bool_decide_true in Hn; [done|]. by apply (Hh k' k).
  - intros Hn k' r Hr. destruct (p r) eqn:Hp; [|done]. destruct (bool_decide_reflect (hr_command_hash r = hr_command_hash h)) as [Hc|]; [|done].
    simpl. apply Hn. exists k'. split_and!; [done..|]. by apply (Hh k' k).
Qed.

Lemma summary_row_spec p d k h a :
  hash_ok d -> db_history d !! k = Some h -> p h = true -> aggregate p d h = Some a ->
  (forall r, r ∈ group p d (hr_command h) -> newer r h = false) ->
  so_far (hr_command h) (scanEntries (db_interns d) (group p d (hr_command h))) (scan_summary (db_interns d) (h, a)) (scanEntry (db_interns d) h).
Proof.
  intros Hh Hk Hp Ha Hn. unfold aggregate in Ha. rewrite (aggregate_group p d k h Hh Hk) in Ha.
  assert (h ∈ group p d (hr_command h)) as Hin by (apply elem_of_group; eauto).
  destruct (group p d (hr_command h)) as [|g gs] eqn:Eg; [by apply not_elem_of_nil in Hin|]. injection Ha as <-.
  set (l := g :: gs) in *. unfold scanEntries. destruct (fold_min_spec g gs) as [(r1 & Hr1 & Hmin) Hmin'].
  destruct (fold_max_spec g gs) as [(r2 & Hr2 & Hmax) Hmax']. fold l in Hr1, Hr2, Hmin', Hmax'.
  split; cbn [scan_summary cs_Command cs_Runs cs_Success cs_Failed cs_FirstTS cs_LastTS ag_runs ag_success ag_failed ag_first ag_last].
  - done.
  - by rewrite length_fmap.
  - rewrite filter_fmap, length_fmap. done.
  - rewrite filter_fmap, length_fmap. done.
  - split; [by apply list_elem_of_fmap_2|]. simpl. f_equal. rewrite Hmax. pose proof (Hn _ Hr2) as E.
    unfold newer in E. apply orb_false_iff in E as [E%Z.ltb_ge _]. pose proof (Hmax' h Hin). lia.
  - intros e (r & -> & Hr)%list_elem_of_fmap. rewrite scan_newer. by apply Hn.
  - exists (scanEntry (db_interns d) r1). split; [by apply list_elem_of_fmap_2|]. simpl. by rewrite Hmin.
  - intros e (r & -> & Hr)%list_elem_of_fmap. simpl. unfold time_UnixMilli. specialize (Hmin' r Hr). lia.
Qed.

Lemma group_ids p d c a b :
  wf d -> a ∈ scanEntries (db_interns d) (group p d c) -> b ∈ scanEntries (db_interns d) (group p d c) -> e_ID a = e_ID b -> a = b.
Proof.
  intros Hwf (ra & -> & Ha)%list_elem_of_fmap (rb & -> & Hb)%list_elem_of_fmap E. simpl in E. f_equal.
  apply elem_of_group in Ha as (ka & Ha & _), Hb as (kb & Hb & _).
  pose proof (hw_key _ (wf_history _ Hwf) _ _ Ha). pose proof (hw_key _ (wf_history _ Hwf) _ _ Hb). congruence.
Qed.

Lemma SummarizeRuns_unique command l cs last :
  (forall a b, a ∈ l -> b ∈ l -> e_ID a = e_ID b -> a = b) -> so_far command l cs last -> SummarizeRuns command l = of_last cs last.
Proof.
  intros Hid Hs. destruct (SummarizeRuns_spec command l) as (cs' & last' & Hs' & ->).
  { intros ->. destruct (sf_last _ _ _ _ Hs) as [H _]. by apply not_elem_of_nil in H. }
  destruct (so_far_unique _ _ _ _ _ _ Hid Hs Hs') as (<- & ? & ? & ? & ? & ?). unfold of_last.
  rewrite (sf_command _ _ _ _ Hs), (sf_command _ _ _ _ Hs'). by f_equal.
Qed.

Lemma SummarizeRuns_perm command l l' :
  (forall a b, a ∈ l -> b ∈ l -> e_ID a = e_ID b -> a = b) -> l ≡ₚ l' -> SummarizeRuns command l = SummarizeRuns command l'.
Proof.
  intros Hid Hp. destruct (decide (l = [])) as [->|Hne]; [by apply Permutation_nil_l in Hp as ->|].
  destruct (SummarizeRuns_spec command l Hne) as (cs & last & Hs & ->). symmetry. apply SummarizeRuns_unique.
  - intros a b. rewrite <- Hp. apply Hid.
  - by eapply so_far_perm.
Qed.

Lemma summary_of_spec p sort d k h x :
  wf d -> hash_ok d -> db_history d !! k = Some h -> summary_of p p sort d h = Some x ->
  x.1 = h /\ p h = true /\
  scan_summary (db_interns d) x = SummarizeRuns (hr_command h) (scanEntries (db_interns d) (group p d (hr_command h))) /\
  (sort = SortFailed -> 0 < ag_failed x.2).
Proof.
  intros Hwf Hh Hk. unfold summary_of. destruct (p h) eqn:Hp; simpl; [|done].
  destruct (select_any _ _) eqn:Es; simpl; [done|]. rewrite (not_shadowed p d k h Hh Hk) in Es.
  destruct (aggregate p d h) as [a|] eqn:Ea; simpl; [|done].
  destruct (bool_decide (sort = SortFailed) && (ag_failed a <=? 0)) eqn:Ef; [done|]. intros [= <-]. split_and!; [done|done| |].
  - symmetry. rewrite (SummarizeRuns_unique _ _ (scan_summary (db_interns d) (h, a)) (scanEntry (db_interns d) h)); [done| |].
    + intros x y. by apply group_ids.
    + by eapply summary_row_spec.
  - intros ->. rewrite bool_decide_true in Ef by done. apply Z.leb_gt in Ef. done.
Qed.

(** The summaries of the rows with [p]: one for each command that has some. *)
Lemma select_summaries_spec p sort limit d cs :
  wf d -> hash_ok d -> limit <= 0 ->
  cs ∈ select_summaries p p sort limit d <->
  exists c, group p d c <> [] /\ cs = SummarizeRuns c (scanEntries (db_interns d) (group p d c)) /\ (sort = SortFailed -> 0 < cs_Failed cs).
Proof.
  intros Hwf Hh Hl. unfold select_summaries, limit_rows. rewrite (proj2 (Z.ltb_ge 0 limit) Hl), list_elem_of_fmap.
  setoid_rewrite elem_of_sort_slice. setoid_rewrite list_elem_of_omap. setoid_rewrite elem_of_rows. split.
  - intros (x & -> & h & (k & Hk) & Hx). destruct (summary_of_spec p sort d k h x Hwf Hh Hk Hx) as (E1 & Hp & E2 & Hf).
    exists (hr_command h). split_and!; [|done|].
    + intros Hg. assert (h ∈ group p d (hr_command h)) as Hin by (apply elem_of_group; eauto). rewrite Hg in Hin. by apply not_elem_of_nil in Hin.
    + intros Hs. specialize (Hf Hs). by destruct x.
  - intros (c & Hg & -> & Hf). destruct (newest_exists (group p d c) Hg) as (h & Hin & Hmax).
    { intros r r' (k & Hr & _)%elem_of_group (k' & Hr' & _)%elem_of_group E.
      pose proof (hw_key _ (wf_history _ Hwf) _ _ Hr). pose proof (hw_key _ (wf_history _ Hwf) _ _ Hr'). congruence. }
    pose proof Hin as (k & Hk & Hp & <-)%elem_of_group.
    assert (forall r, r ∈ group p d (hr_command h) -> newer r h = false) as Hn.
    { intros r Hr. destruct (Hmax r Hr) as [->|Hr']; [apply newer_irrefl|]. apply (proj1 (newer_weak_order [h; r])); [left|right; left|done]. }
    destruct (aggregate p d h) as [a|] eqn:Ea.
    2: { unfold aggregate in Ea. rewrite (aggregate_group p d k h Hh Hk) in Ea. by destruct (group p d (hr_command h)). }
    pose proof (summary_row_spec p d k h a Hh Hk Hp Ea Hn) as Hs.
    assert (SummarizeRuns (hr_command h) (scanEntries (db_interns d) (group p d (hr_command h))) = scan_summary (db_interns d) (h, a)) as E.
    { rewrite (SummarizeRuns_unique _ _ _ _ ltac:(intros x y; by apply group_ids) Hs). done. }
    exists (h, a). rewrite E in *. split; [done|]. exists h. split; [by exists k|]. unfold summary_of. rewrite Hp. simpl.
    rewrite (proj2 (not_shadowed p d k h Hh Hk) Hn). simpl. rewrite Ea. simpl.
    destruct (bool_decide_reflect (sort = SortFailed)) as [Hsf|]; [|done]. specialize (Hf Hsf). simpl in *.
    by rewrite (proj2 (Z.leb_gt _ _) Hf).
Qed.

Lemma NoDup_omap {A B C} (f : A -> option B) (g : B -> C) (l : list A) :
  NoDup l -> (forall x y bx by_, x ∈ l -> y ∈ l -> f x = Some bx -> f y = Some by_ -> g bx = g by_ -> x = y) -> NoDup (g <$> omap f l).
Proof.
  induction 1 as [|x l Hx Hl IH]; intros Hg; [constructor|]. cbn [omap list_omap]. fold (omap f l).
  assert (NoDup (g <$> omap f l)) as IH' by (apply IH; intros; eapply Hg; eauto; by right).
  destruct (f x) as [b|] eqn:E; [|done]. rewrite fmap_cons. apply NoDup_cons. split; [|done].
  intros (b' & E' & (y & Hy & Ey)%list_elem_of_omap)%list_elem_of_fmap. apply Hx. by rewrite (Hg x y b b' ltac:(left) ltac:(by right) E Ey E').
Qed.

Lemma rows_NoDup d : wf d -> NoDup (rows (db_history d)).
Proof.
  intros Hwf. unfold rows. eapply NoDup_fmap_2_strong; [|apply NoDup_map_to_list].
  intros [k r] [k' r'] Hk%elem_of_map_to_list Hk'%elem_of_map_to_list E. simpl in E. subst r'.
  pose proof (hw_key _ (wf_history _ Hwf) _ _ Hk). pose proof (hw_key _ (wf_history _ Hwf) _ _ Hk'). congruence.
Qed.

Lemma select_summaries_once p sort limit d :
  wf d -> hash_ok d -> limit <= 0 -> NoDup (cs_Command <$> select_summaries p p sort limit d).
Proof.
  intros Hwf Hh Hl. unfold select_summaries, limit_rows. rewrite (proj2 (Z.ltb_ge 0 limit) Hl), <- list_fmap_compose.
  rewrite sort_slice_perm. apply NoDup_omap; [by apply rows_NoDup|].
  intros h h' x x' (k & Hk)%elem_of_rows (k' & Hk')%elem_of_rows Hx Hx' E.
  pose proof Hx as Hs. pose proof Hx' as Hs'. unfold summary_of in Hs, Hs'.
  destruct (summary_of_spec p sort d k h x Hwf Hh Hk Hx) as (<- & Hp & _). destruct (summary_of_spec p sort d k' h' x' Hwf Hh Hk' Hx') as (<- & Hp' & _).
  rewrite Hp in Hs. rewrite Hp' in Hs'. simpl in Hs, Hs'.
  destruct (select_any _ _) eqn:E1 in Hs; [done|]. destruct (select_any _ _) eqn:E2 in Hs'; [done|].
  rewrite (not_shadowed p d k _ Hh Hk) in E1. rewrite (not_shadowed p d k' _ Hh Hk') in E2.
  assert (hr_command x.1 = hr_command x'.1) as Ec by (by destruct x, x'). rewrite Ec in E1.
  assert (newer x'.1 x.1 = false) as N1 by (apply E1, elem_of_group; eauto).
  assert (newer x.1 x'.1 = false) as N2 by (apply E2, elem_of_group; eauto).
  destruct (decide (hr_id x.1 = hr_id x'.1)) as [Hi|Hi]; [|by destruct (newer_total _ _ Hi); congruence].
  pose proof (hw_key _ (wf_history _ Hwf) _ _ Hk). pose proof (hw_key _ (wf_history _ Hwf) _ _ Hk'). congruence.
Qed.

(** The filter the query runs with. *)
Notation needle_of f := (af_CommandNeedle (with_needle Re_String f)).
Definition needle_ok (f : AF) (c : string) : bool := unless_empty (needle_of f) (contains (sql_lower (needle_of f)) (sql_lower c)).

Lemma with_needle_fields (f : AF) : without_command (with_needle Re_String f) = without_command f /\
  af_CommandRE (with_needle Re_String f) = af_CommandRE f /\ af_Sort (with_needle Re_String f) = af_Sort f /\
  af_Limit (with_needle Re_String f) = af_Limit f.
Proof. unfold with_needle. destruct (af_CommandRE f) eqn:E; [destruct (str_empty _)|]; by rewrite ?E. Qed.

Lemma agreeable_without (f g : AF) d : without_command f = without_command g -> agreeable f d -> agreeable g d.
Proof. intros [= E1 E2 E3 E4 E5 E6 E7 E8 E9 E10 _ _] []. split; by rewrite <- ?E1, <- ?E2, <- ?E3, <- ?E4, <- ?E5, <- ?E6, <- ?E9. Qed.

(** A filter that is not active accepts the live entries. *)
Lemma inactive_match (f : AF) e : Active f = false -> Match f e = negb (e_Deleted e).
Proof.
  unfold Active. rewrite !orb_false_iff. intros HA. destruct_and! HA. unfold Advanced.Match.
  destruct (af_CommandRE f), (af_CwdRE f), (af_HostRE f), (af_ShellRE f), (af_SessionRE f), (af_DeviceRE f), (af_ExitRE f), (af_Exit f),
    (af_Since f), (af_Until f); try done. repeat match goal with H : af_ExitFailed f = false |- _ => rewrite H; clear H end.
  by destruct (e_Deleted e).
Qed.

(** The entries of a command in memory, as a selection of rows. *)
Lemma runs_rows (f : AF) (d : DB) (c : string) :
  FilterEntries MatchString (ListByCommand c d) f ≡ₚ
  scanEntries (db_interns d) (group (fun r => Match f (scanEntry (db_interns d) r)) d c).
Proof.
  unfold FilterEntries, ListByCommand, scanEntries, group.
  assert (List.filter (fun e => if Active f then Match f e else negb (e_Deleted e)) (scanEntry (db_interns d) <$>
    sort_slice newer (List.filter (fun r => negb (hr_deleted r) && String.eqb (hr_command r) c) (rows (db_history d)))) ≡ₚ
    scanEntry (db_interns d) <$> List.filter (fun r => Match f (scanEntry (db_interns d) r) && String.eqb (hr_command r) c) (rows (db_history d))) as H.
  { rewrite filter_fmap, filter_sort_slice, filter_both by apply newer_weak_order. rewrite sort_slice_perm.
    erewrite filter_rows_ext; [done|]. intros k r Hr. unfold compose. simpl.
    destruct (String.eqb (hr_command r) c); [|by rewrite !andb_false_r]. rewrite !andb_true_r.
    destruct (Active f) eqn:Ea; [|rewrite (inactive_match f _ Ea); simpl; by destruct (hr_deleted r)].
    destruct (Match f (scanEntry (db_interns d) r)) eqn:Em; [|by rewrite andb_false_r]. apply Match_live in Em. simpl in Em. by rewrite Em. }
  by destruct (Active f).
Qed.

Lemma group_ext p q d c : (forall k r, db_history d !! k = Some r -> hr_command r = c -> p r = q r) -> group p d c = group q d c.
Proof.
  intros Hpq. unfold group. apply filter_rows_ext. intros k r Hr. destruct (String.eqb_spec (hr_command r) c); [|by rewrite !andb_false_r].
  by rewrite (Hpq k r).
Qed.

Lemma group_none p d c : (forall k r, db_history d !! k = Some r -> hr_command r = c -> p r = false) -> group p d c = [].
Proof.
  intros Hp. rewrite (group_ext p (fun _ => false) d c Hp). unfold group. simpl. apply List.filter_false.
Qed.

(** The rows behind a summary, with the expression of the command: those
    [Match] accepts, provided the command has the needle. *)
Lemma group_reference (f : AF) (d : DB) (c : string) m :
  wf d -> agreeable f d -> resolveAdvanced MatchString (with_needle Re_String f) d = Some m ->
  group (fun r => resolved_predicates (with_needle Re_String f) m r && re_ok (af_CommandRE f) (hr_command r)) d c =
  if needle_ok f c then group (fun r => Match f (scanEntry (db_interns d) r)) d c else [].
Proof.
  intros Hwf Hf Hm. destruct (with_needle_fields f) as (Hw & _).
  assert (forall k r, db_history d !! k = Some r -> resolved_predicates (with_needle Re_String f) m r =
    Match (without_command f) (scanEntry (db_interns d) r) && has_needle (needle_of f) r) as Hrow.
  { intros k r Hr. pose proof (row_agrees (with_needle Re_String f) d k r Hwf (agreeable_without _ _ _ (eq_sym Hw) Hf) Hr) as H.
    rewrite Hm, Hw in H. exact H. }
  destruct (needle_ok f c) eqn:En.
  - apply group_ext. intros k r Hr <-. rewrite (Hrow k r Hr), (Match_split f). simpl. unfold has_needle. unfold needle_ok in En. rewrite En.
    by destruct (Match (without_command f) (scanEntry (db_interns d) r)), (re_ok (af_CommandRE f) (hr_command r)).
  - apply group_none. intros k r Hr <-. rewrite (Hrow k r Hr). unfold has_needle. unfold needle_ok in En. by rewrite En, andb_false_r.
Qed.

(** When no column can match, no entry does. *)
Lemma impossible_reference (f : AF) (d : DB) (c : string) :
  wf d -> agreeable f d -> resolveAdvanced MatchString (with_needle Re_String f) d = None ->
  group (fun r => Match f (scanEntry (db_interns d) r)) d c = [].
Proof.
  intros Hwf Hf Hm. destruct (with_needle_fields f) as (Hw & _). apply group_none. intros k r Hr _.
  pose proof (row_agrees (with_needle Re_String f) d k r Hwf (agreeable_without _ _ _ (eq_sym Hw) Hf) Hr) as H.
  rewrite Hm, Hw in H. by rewrite (Match_split f), H, andb_false_r.
Qed.

Lemma SummarizeRuns_command c l : l <> [] -> cs_Command (SummarizeRuns c l) = c.
Proof. intros Hl. destruct (SummarizeRuns_spec c l Hl) as (cs & last & Hs & ->). apply (sf_command _ _ _ _ Hs). Qed.

Lemma scanEntries_nil i l : scanEntries i l = [] <-> l = [].
Proof. unfold scanEntries. split; [apply fmap_nil_inv|by intros ->]. Qed.

(** The summaries of the SQL query, before the expression of the command. *)
Lemma select_reference (f : AF) (d : DB) p cs :
  wf d -> hash_ok d -> af_Limit f <= 0 ->
  (forall c, group (fun r => p r && re_ok (af_CommandRE f) (hr_command r)) d c =
     if needle_ok f c then group (fun r => Match f (scanEntry (db_interns d) r)) d c else []) ->
  cs ∈ select_summaries p p (af_Sort f) (af_Limit f) d /\ re_ok (af_CommandRE f) (cs_Command cs) = true <->
  exists c, let runs := FilterEntries MatchString (ListByCommand c d) f in
    runs <> [] /\ cs = SummarizeRuns c runs /\ needle_ok f c = true /\ (af_Sort f = SortFailed -> 0 < cs_Failed cs).
Proof.
  intros Hwf Hh Hl Hg. rewrite (select_summaries_spec p _ _ d cs Hwf Hh Hl).
  assert (forall c, re_ok (af_CommandRE f) c = true -> group (fun r => p r && re_ok (af_CommandRE f) (hr_command r)) d c = group p d c) as Hre.
  { intros c Hc. apply group_ext. intros k r Hr <-. by rewrite Hc, andb_true_r. }
  assert (forall c, SummarizeRuns c (FilterEntries MatchString (ListByCommand c d) f) =
    SummarizeRuns c (scanEntries (db_interns d) (group (fun r => Match f (scanEntry (db_interns d) r)) d c))) as Hsum.
  { intros c. symmetry. apply SummarizeRuns_perm; [intros a b; by apply group_ids|]. by rewrite runs_rows. }
  assert (forall c, FilterEntries MatchString (ListByCommand c d) f <> [] <-> group (fun r => Match f (scanEntry (db_interns d) r)) d c <> []) as Hne.
  { intros c. rewrite <- (scanEntries_nil (db_interns d)). split; intros Hn E; apply Hn.
    - apply Permutation_nil_r. rewrite <- E. apply runs_rows.
    - apply Permutation_nil_r. rewrite <- E. symmetry. apply runs_rows. }
  split.
  - intros [(c & Hc & -> & Hf) Hcmd]. rewrite SummarizeRuns_command in Hcmd by (by rewrite scanEntries_nil).
    exists c. cbv zeta. rewrite Hsum, Hne. specialize (Hg c). rewrite (Hre c Hcmd) in Hg. destruct (needle_ok f c); [|congruence].
    rewrite <- Hg. done.
  - intros (c & Hc & -> & Hn & Hf). rewrite Hsum in *. apply Hne in Hc. specialize (Hg c). rewrite Hn in Hg.
    assert (re_ok (af_CommandRE f) c = true) as Hcmd.
    { destruct (re_ok (af_CommandRE f) c) eqn:E; [done|]. destruct Hc. rewrite <- Hg. apply group_none. intros k r Hr <-. by rewrite E, andb_false_r. }
    rewrite SummarizeRuns_command by (by rewrite scanEntries_nil). split; [|done]. exists c. rewrite <- (Hre c Hcmd), Hg. done.
Qed.

(** The expression of the command is applied to the summaries. *)
Definition keep_command (f : AF) (out : list CommandSummary) : list CommandSummary :=
  match af_CommandRE f with
  | Some re => limit_rows (af_Limit f) (List.filter (fun cs => MatchString re (cs_Command cs)) out)
  | None => out
  end.

Lemma keep_command_filter (f : AF) out :
  af_Limit f <= 0 -> keep_command f out = List.filter (fun cs => re_ok (af_CommandRE f) (cs_Command cs)) out.
Proof.
  intros Hl. unfold keep_command, limit_rows. rewrite (proj2 (Z.ltb_ge 0 _) Hl). destruct (af_CommandRE f); [done|].
  symmetry. apply List.filter_true.
Qed.

Lemma kept_reference (f : AF) (d : DB) p :
  wf d -> hash_ok d -> af_Limit f <= 0 ->
  (forall c, group (fun r => p r && re_ok (af_CommandRE f) (hr_command r)) d c =
     if needle_ok f c then group (fun r => Match f (scanEntry (db_interns d) r)) d c else []) ->
  let out := keep_command f (select_summaries p p (af_Sort f) (af_Limit f) d) in
  NoDup (cs_Command <$> out) /\ forall cs, cs ∈ out <->
    exists c, let runs := FilterEntries MatchString (ListByCommand c d) f in
      runs <> [] /\ cs = SummarizeRuns c runs /\ needle_ok f c = true /\ (af_Sort f = SortFailed -> 0 < cs_Failed cs).
Proof.
  intros Hwf Hh Hl Hg out. unfold out. rewrite (keep_command_filter f _ Hl). split.
  - rewrite <- (filter_fmap (re_ok (af_CommandRE f)) cs_Command). apply NoDup_ListNoDup, List.NoDup_filter, NoDup_ListNoDup, (select_summaries_once p _ _ d Hwf Hh Hl).
  - intros cs. rewrite <- (select_reference f d p cs Hwf Hh Hl Hg). by rewrite list_elem_of_In, filter_In, <- list_elem_of_In.
Qed.

Lemma inactive_with_needle (f : AF) :
  Active (with_needle Re_String f) = false -> with_needle Re_String f = f /\ af_CommandRE f = None /\ af_CommandNeedle f = EmptyString.
Proof.
  unfold with_needle. destruct (af_CommandRE f) eqn:E.
  - destruct (str_empty (af_CommandNeedle f)); unfold Active; simpl; by rewrite ?E.
  - intros H. split_and!; [done..|]. unfold Active in H. rewrite E in H. by destruct (af_CommandNeedle f).
Qed.

Lemma select_summaries_ext p p' q sort limit d :
  (forall r, p r = p' r) -> select_summaries p q sort limit d = select_summaries p' q sort limit d.
Proof.
  intros Hp. assert (forall h, aggregate p d h = aggregate p' d h) as Ha.
  { intros h. unfold aggregate. erewrite (List.filter_ext (fun g => p g && same_hash g h)); [done|]. intros g. by rewrite Hp. }
  unfold select_summaries. erewrite list_omap_ext; [done|]. apply Forall2_same_length_lookup_2; [done|].
  intros i x y Hx Hy. rewrite Hx in Hy. injection Hy as <-. unfold summary_of. by rewrite Ha.
Qed.

(** A filter that is not active selects the live rows. *)
Lemma inactive_summaries (f : AF) d :
  Active (with_needle Re_String f) = false ->
  CommandSummaries "" (af_Sort f) (af_Limit f) d = keep_command f (select_summaries live live (af_Sort f) (af_Limit f) d) /\
  forall c, group (fun r => live r && re_ok (af_CommandRE f) (hr_command r)) d c =
    if needle_ok f c then group (fun r => Match f (scanEntry (db_interns d) r)) d c else [].
Proof.
  intros Ha. destruct (inactive_with_needle f Ha) as (Hw & Hre & Hn). split.
  - unfold keep_command, CommandSummaries. rewrite Hre. apply select_summaries_ext. intros r. apply andb_true_r.
  - intros c. unfold needle_ok. rewrite Hw, Hn. simpl. apply group_ext. intros k r _ _. rewrite Hw in Ha.
    rewrite (inactive_match f _ Ha), Hre. apply andb_true_r.
Qed.

(** C16: The history inspector's SQL is equivalent to filtering in memory: for a filter without a
    limit the summaries are exactly those SummarizeRuns computes from the entries Match accepts, one
    for each command that has some (with a failed run when sorted by failures), and the entries
    listed for a command are those Match accepts, in order. This holds where no expression matches
    every stored value but not the empty text, one for the exit status does not match the empty
    text, the lower bound is in milliseconds, and the command contains the literal prefix of its
    expression. *)
Theorem advanced_reference (f : AF) (d : DB) :
  wf d -> hash_ok d -> agreeable f d -> af_Limit f <= 0 ->
  NoDup (cs_Command <$> CommandSummariesAdvanced MatchString Re_String f d) /\
  (forall cs, cs ∈ CommandSummariesAdvanced MatchString Re_String f d <->
    exists c, let runs := FilterEntries MatchString (ListByCommand c d) f in
      runs <> [] /\ cs = SummarizeRuns c runs /\ needle_ok f c = true /\ (af_Sort f = SortFailed -> 0 < cs_Failed cs)) /\
  (forall c, c <> EmptyString ->
     unless_empty (af_CommandNeedle f) (contains (sql_lower (af_CommandNeedle f)) (sql_lower c)) = true ->
     ListByCommandMatching MatchString c f d = FilterEntries MatchString (ListByCommand c d) f).
Proof.
  intros Hwf Hh Hf Hl. apply and_assoc. split; [|intros c; by apply ListByCommandMatching_reference].
  unfold CommandSummariesAdvanced. destruct (with_needle_fields f) as (Hw & -> & -> & ->).
  destruct (Active (with_needle Re_String f)) eqn:Ha; simpl.
  - destruct (resolveAdvanced MatchString (with_needle Re_String f) d) as [m|] eqn:Em.
    + apply (kept_reference f d _ Hwf Hh Hl). intros c. by apply group_reference.
    + split; [constructor|]. intros cs. split; [by intros ?%not_elem_of_nil|]. intros (c & Hne & _). destruct Hne.
      apply Permutation_nil_r. rewrite runs_rows, (impossible_reference f d c Hwf Hf Em). done.
  - destruct (inactive_summaries f d Ha) as [-> Hg]. by apply (kept_reference f d live Hwf Hh Hl).
Qed.
End Agreement.
