(* ===== verification/Importers.v ===== *)
(** [internal/importers]: reading the history files of other shells. A file is
    scanned by lines as [bufio.Scanner] does with a buffer of one megabyte;
    the three parsers, the guess of the format and the conversion to entries
    follow. The theorems say which files are read back without loss. *)

From S2P Require Import Prelude Database History Text.
From Stdlib Require Import Ascii.

(** ** [bufio.Scanner] with [ScanLines]

    What a reader delivers before it ends, and how it ends ([None] at the end
    of the file; an error comes without data, as from a file). *)
Record Reader := mkReader { rd_data : string; rd_err : option error }.

Definition CR : ascii := "013"%char.
Definition maxToken : Z := 1024 * 1024.
Definition ErrTooLong : error := EMsg "bufio.Scanner: token too long".
Definition dropCR (s : string) : string := trim_suffix (String CR EmptyString) s.
(** The buffer is full before the end of the line is seen. *)
Definition too_long (line : string) : bool := maxToken <=? Z.of_nat (String.length line).

(** The pieces between line breaks; the last one is a line only when it is not
    empty. *)
Fixpoint scan_tokens (pieces : list string) (e : option error) : list string * option error :=
  match pieces with
  | [] => ([], e)
  | [p] => if too_long p then ([], Some ErrTooLong) else if str_empty p then ([], e) else ([dropCR p], e)
  | p :: ps => if too_long p then ([], Some ErrTooLong) else let '(l, e) := scan_tokens ps e in (dropCR p :: l, e)
  end.
Definition Scan_all (r : Reader) : list string * option error := scan_tokens (split_on nl (rd_data r)) (rd_err r).

(** ** Records *)

(** [time.Unix(sec, 0)]: the seconds are kept from year 1 in 64 bits. *)
Definition time_Unix (sec : Z) : Time := (wrap64 (sec + 62135596800) - 62135596800) * 1000000000.

Record HistRecord := mkHist {
  rc_Command : string; rc_StartTS : Time; rc_Duration : option Z; rc_Exit : option Z; rc_Cwd : string;
}.
Definition quote : ascii := "034"%char.

Definition zsh_line (line : string) : option HistRecord :=
  if negb (has_prefix ": " line) then
    if str_empty (trim_space line) then None else Some (mkHist line (time_Unix 0) None None "")
  else
    match cut ";" (trim_prefix ": " line) with
    | None => None
    | Some (meta, cmd) =>
        let '(tsStr, durStr) := default (meta, EmptyString) (cut ":" meta) in
        Some (mkHist cmd (time_Unix (parse_int (trim_space tsStr)))
                ((fun dur => wrap64 (dur * 1000)) <$> Atoi (trim_space durStr)) None "")
    end.
Definition parseZsh (r : Reader) : list HistRecord * option error :=
  let '(lines, e) := Scan_all r in (omap zsh_line lines, e).

(** A line [#1234] is the time of the command that follows. *)
Definition bash_stamp (line : string) : option Z :=
  if has_prefix "#" line then Atoi (trim_prefix "#" line) else None.
Fixpoint bash_loop (pendingTS : option Time) (lines : list string) : list HistRecord :=
  match lines with
  | [] => []
  | line :: lines =>
      match bash_stamp line with
      | Some ts => bash_loop (Some (time_Unix ts)) lines
      | None =>
          if str_empty (trim_space line) then bash_loop pendingTS lines
          else mkHist line (default time_zero pendingTS) None None "" :: bash_loop None lines
      end
  end.
Definition parseBash (r : Reader) : list HistRecord * option error :=
  let '(lines, e) := Scan_all r in (bash_loop None lines, e).

Definition fish_flush (cur : option HistRecord) : list HistRecord :=
  match cur with
  | Some c => if str_empty (rc_Command c) then [] else [c]
  | None => []
  end.
(** What a line that does not start a command does to the current one. *)
Definition fish_attr (line : string) (c : HistRecord) : HistRecord :=
  if has_prefix "when:" line then
    mkHist (rc_Command c) (time_Unix (parse_int (trim_space (trim_prefix "when:" line)))) (rc_Duration c) (rc_Exit c) (rc_Cwd c)
  else if has_prefix "paths:" line then c
  else if has_prefix "-" line && str_empty (rc_Cwd c) then
    mkHist (rc_Command c) (rc_StartTS c) (rc_Duration c) (rc_Exit c) (trim_char quote (trim_space (trim_prefix "-" line)))
  else c.
Fixpoint fish_loop (cur : option HistRecord) (lines : list string) : list HistRecord :=
  match lines with
  | [] => fish_flush cur
  | line :: lines =>
      let line := trim_space line in
      if has_prefix "- cmd:" line then
        let cmd := trim_char quote (trim_space (trim_prefix "- cmd:" line)) in
        fish_flush cur ++ fish_loop (Some (mkHist cmd time_zero None None "")) lines
      else fish_loop (fish_attr line <$> cur) lines
  end.
Definition parseFish (r : Reader) : list HistRecord * option error :=
  let '(lines, e) := Scan_all r in (fish_loop None lines, e).

Definition ParseHistfile (r : Reader) (kind : string) : list HistRecord * option error :=
  if String.eqb (to_lower kind) "zsh" then parseZsh r
  else if String.eqb (to_lower kind) "bash" then parseBash r
  else if String.eqb (to_lower kind) "fish" then parseFish r
  else ([], Some (EMsg "unknown histfile kind")).

Definition DetectKind (path firstLine : string) : string :=
  let base := to_lower path in
  if contains "fish" base then "fish"
  else if contains "zsh" base then "zsh"
  else if contains "bash" base then "bash"
  else if has_prefix ": " (trim_space firstLine) then "zsh"
  else if has_prefix "- cmd:" (trim_space firstLine) then "fish"
  else "bash".

(** [open] is what [os.Open] gives for the path. *)
Definition ReadHistfile (open : result Reader) (path kind : string) : list HistRecord * option error :=
  match open with
  | Fail e => ([], Some e)
  | Ok r =>
      if str_empty kind || String.eqb kind "auto" then ParseHistfile r (DetectKind path (str_take 128 (rd_data r)))
      else ParseHistfile r kind
  end.

Definition rec_entry (deviceID shell : string) (i : nat) (r : HistRecord) : Entry :=
  mkEntry "" (rc_Command r) (if time_IsZero (rc_StartTS r) then time_Unix (Z.of_nat i) else rc_StartTS r) None
    (rc_Duration r) (rc_Exit r) (rc_Cwd r) "" "" deviceID shell false "" None time_zero.
Fixpoint to_entries (deviceID shell : string) (i : nat) (recs : list HistRecord) : list Entry :=
  match recs with
  | [] => []
  | r :: recs =>
      (if str_empty (trim_space (rc_Command r)) then [] else [rec_entry deviceID shell i r]) ++
      to_entries deviceID shell (Datatypes.S i) recs
  end.
Definition ToEntries (recs : list HistRecord) (deviceID shell : string) : list Entry := to_entries deviceID shell 0 recs.

(** ** [atuin.go] *)

Definition unixMaybeNano (ts : Z) : Time := if 1000000000000 <? ts then ts else time_Unix ts.
Definition durationToMs (d : Z) : Z := if 1000000 <? d then d `quot` 1000000 else d.

Record AtuinRow := mkAtuin {
  at_id : string; at_timestamp : Z; at_duration : Z; at_exit : Z; at_command : string; at_cwd : string; at_session : string; at_hostname : string;
}.
Definition atuin_entry (deviceID : string) (r : AtuinRow) : option Entry :=
  if str_empty (trim_space (at_command r)) then None
  else Some (mkEntry (at_id r) (at_command r) (unixMaybeNano (at_timestamp r)) None (Some (durationToMs (at_duration r)))
               (Some (at_exit r)) (at_cwd r) (at_session r) (at_hostname r) deviceID "atuin" false "" None time_zero).
(** [query] is what the other program's database answers. *)
Definition ImportAtuin (query : result (list AtuinRow)) (deviceID : string) : result (list Entry) :=
  match query with Ok rows => Ok (omap (atuin_entry deviceID) rows) | Fail e => Fail e end.

(** ** Numbers *)

Lemma parse_digits_all s acc z : parse_digits s acc = Some z -> str_all is_digit s = true.
Proof.
  revert acc. induction s as [|c s IH]; intros acc; simpl; [done|]. destruct (digit_value c) as [d|] eqn:E; simpl; [|done].
  intros H. rewrite (IH _ H), andb_true_r. unfold digit_value in E. unfold is_digit, in_range.
  destruct ((48 <=? Z.of_N (code c)) && (Z.of_N (code c) <=? 57)) eqn:B; [|done]. apply andb_true_iff in B as [B1 B2].
  apply andb_true_iff. split; apply N.leb_le; lia.
Qed.

(** The characters of a printed number. *)
Definition numeric (c : ascii) : bool := is_digit c || Ascii.eqb c "-".
Lemma pretty_numeric (z : Z) : str_all numeric (pretty z) = true.
Proof.
  assert (forall n : N, str_all numeric (pretty n) = true) as Hn.
  { intros n. apply (str_all_weaken is_digit); [intros c H; unfold numeric; by rewrite H|].
    eapply parse_digits_all, parse_digits_pretty_N. }
  destruct z as [|p|p]; [reflexivity|exact (Hn (N.pos p))|]. change (str_all numeric ("-" +:+ pretty (N.pos p)) = true).
  rewrite str_all_app, Hn. reflexivity.
Qed.

Lemma numeric_lacks sep s : numeric sep = false -> str_all numeric s = true -> str_has sep s = false.
Proof.
  intros Hsep Hs. unfold str_has. apply negb_false_iff. revert Hs. apply str_all_weaken. intros c Hc.
  destruct (Ascii.eqb_spec sep c); [congruence|done].
Qed.

Lemma pretty_lacks sep (z : Z) : numeric sep = false -> str_has sep (pretty z) = false.
Proof. intros H. apply (numeric_lacks sep _ H), pretty_numeric. Qed.

Lemma str_has_app sep a b : str_has sep (a +:+ b) = str_has sep a || str_has sep b.
Proof. induction a as [|c a IH]; [done|]. change (String c a +:+ b)%string with (String c (a +:+ b)). by rewrite !str_has_cons, IH, orb_assoc. Qed.

Lemma numeric_trim s : str_all numeric s = true -> trim_space s = s.
Proof.
  intros Hs. apply trim_space_printable. revert Hs. apply str_all_weaken.
  intros c. destruct c as [[] [] [] [] [] [] [] []]; vm_compute; congruence.
Qed.

Lemma Atoi_pretty_Z (z : Z) : int64 z -> Atoi (pretty z) = Some z.
Proof.
  intros Hz. unfold int64 in Hz. assert (max_int64 = 2^63 - 1) as Hm by reflexivity.
  destruct z as [|p|p]; [reflexivity|exact (Atoi_pretty (N.pos p) ltac:(lia))|].
  change (Atoi (String "-" (pretty (N.pos p))) = Some (Z.neg p)).
  destruct (pretty_N_first (N.pos p)) as (c & s & Hc & _). pose proof (parse_digits_pretty_N (N.pos p)) as Hp.
  rewrite Hc in Hp |- *. unfold Atoi. cbv beta iota. rewrite Hp. cbn [fmap option_fmap option_map mbind option_bind Z.opp Z.of_N].
  change (- Z.pos p) with (Z.neg p).
  assert ((- 2^63 <=? Z.neg p) && (Z.neg p <=? max_int64) = true) as -> by (apply andb_true_iff; split; apply Z.leb_le; lia).
  done.
Qed.

(** ** Files read back *)

Definition unlines (lines : list string) : string := foldr (fun l s => l +:+ String nl s)%string EmptyString lines.

(** A line the scanner returns as it is. *)
Record plain_line (l : string) : Prop := {
  pl_nl : str_has nl l = false;
  pl_CR : dropCR l = l;
  pl_short : Z.of_nat (String.length l) < maxToken;
}.

Lemma split_on_plain sep s : str_has sep s = false -> split_on sep s = [s].
Proof.
  induction s as [|c s IH]; [done|]. rewrite str_has_cons. intros [Hc Hs]%orb_false_iff. simpl.
  rewrite Ascii.eqb_sym, Hc, (IH Hs). done.
Qed.

Lemma Scan_all_unlines lines e : Forall plain_line lines -> Scan_all (mkReader (unlines lines) e) = (lines, e).
Proof.
  intros Hl. unfold Scan_all. simpl. assert (split_on nl (unlines lines) = lines ++ [EmptyString]) as ->.
  { induction Hl as [|l lines Hl _ IH]; [done|]. simpl. rewrite split_on_app, IH, (split_on_plain nl l (pl_nl _ Hl)). done. }
  induction Hl as [|l lines Hl _ IH]; [done|]. simpl. rewrite IH.
  assert (too_long l = false) as -> by (apply Z.leb_gt, Hl). rewrite (pl_CR _ Hl). by destruct lines.
Qed.

(** The three formats, as the shells write them: seconds, and a duration in
    seconds for zsh. *)
Record Run := mkRun { run_command : string; run_ts : Z; run_duration : Z }.
Definition zsh_print (r : Run) : list string :=
  [(": " +:+ pretty (run_ts r) +:+ ":" +:+ pretty (run_duration r) +:+ ";" +:+ run_command r)%string].
Definition bash_print (r : Run) : list string := [("#" +:+ pretty (run_ts r))%string; run_command r].
Definition fish_print (r : Run) : list string :=
  [("- cmd: " +:+ run_command r)%string; ("  when: " +:+ pretty (run_ts r))%string].

Definition in_time (ts : Z) : Prop := int64 ts /\ int64 (ts + 62135596800).
Definition read_back (duration : option Z) (r : Run) : HistRecord :=
  mkHist (run_command r) (run_ts r * 1000000000) duration None "".

Lemma time_Unix_in ts : in_time ts -> time_Unix ts = ts * 1000000000.
Proof. intros [_ H]. unfold time_Unix. rewrite wrap64_small by done. lia. Qed.

Lemma trim_prefix_app p s : trim_prefix p (p +:+ s) = s.
Proof. unfold trim_prefix. by rewrite has_prefix_self_app, str_drop_app. Qed.

Lemma zsh_line_print r : in_time (run_ts r) -> int64 (run_duration r * 1000) ->
  zsh_line (": " +:+ pretty (run_ts r) +:+ ":" +:+ pretty (run_duration r) +:+ ";" +:+ run_command r) =
  Some (read_back (Some (run_duration r * 1000)) r).
Proof.
  intros Ht Hd. unfold zsh_line. rewrite has_prefix_self_app, trim_prefix_app. cbn [negb].
  rewrite <- (str_app_assoc ":"), <- (str_app_assoc (pretty (run_ts r))).
  rewrite (cut_app ";" _ (run_command r)).
  2: { rewrite !str_has_app. by rewrite !pretty_lacks. }
  change (":" +:+ pretty (run_duration r))%string with (String ":" (pretty (run_duration r))).
  rewrite cut_app by (by apply pretty_lacks). cbn [default from_option id].
  rewrite !numeric_trim, parse_int_sprint_d, Atoi_pretty_Z, time_Unix_in by (try apply pretty_numeric; try apply Ht; unfold int64 in *; lia).
  cbn [fmap option_fmap option_map]. by rewrite wrap64_small.
Qed.

(** A file in one of the formats. *)
Definition file (print : Run -> list string) (runs : list Run) : Reader := mkReader (unlines (runs ≫= print)) None.

Lemma Scan_all_file print runs : Forall plain_line (runs ≫= print) -> Scan_all (file print runs) = (runs ≫= print, None).
Proof. apply Scan_all_unlines. Qed.

Lemma bash_loop_print runs :
  Forall (fun r => in_time (run_ts r) /\ bash_stamp (run_command r) = None /\ trim_space (run_command r) <> EmptyString) runs ->
  bash_loop None (runs ≫= bash_print) = read_back None <$> runs.
Proof.
  induction 1 as [|r runs (Ht & Hs & Hc) _ IH]; [done|]. cbn [mbind list_bind bash_print app bash_loop].
  assert (bash_stamp ("#" +:+ pretty (run_ts r)) = Some (run_ts r)) as ->.
  { unfold bash_stamp. rewrite has_prefix_self_app, trim_prefix_app. apply Atoi_pretty_Z, Ht. }
  rewrite Hs. destruct (trim_space (run_command r)) eqn:E; [done|]. cbn [str_empty default from_option].
  rewrite time_Unix_in by done. by rewrite IH.
Qed.

(** *** Trimming around a key *)

Lemma trim_space_fixed s : s <> EmptyString -> trim_space s = s ->
  space_prefix spaces s = None /\ space_prefix (str_reverse <$> spaces) (str_reverse s) = None.
Proof.
  unfold trim_space, trim_right_space, trim_left_space. intros Hne H. destruct s as [|c s]; [done|].
  assert (space_prefix spaces (String c s) = None) as Hl.
  { apply (strip_front_fixed spaces (String.length s) _ eq_refl). apply Nat.le_antisymm; [by apply strip_front_len|].
    rewrite <- H at 1. rewrite str_reverse_len. etrans; [by apply strip_front_len|]. by rewrite str_reverse_len. }
  split; [done|]. rewrite (strip_front_none _ _ _ Hl) in H.
  apply (strip_front_fixed (str_reverse <$> spaces) (String.length s)); [reflexivity|]. rewrite str_reverse_len. rewrite <- H at 2. by rewrite str_reverse_len.
Qed.

Lemma has_prefix_across p a z :
  has_prefix p (a +:+ z) = true -> has_prefix p a = true \/ exists q, p = (a +:+ q)%string /\ q <> EmptyString /\ has_prefix q z = true.
Proof.
  revert a. induction p as [|c p IH]; intros a; [by left|]. destruct a as [|d a]; simpl; [right; by exists (String c p)|].
  intros [->%Ascii.eqb_eq H]%andb_true_iff. rewrite Ascii.eqb_refl. destruct (IH _ H) as [?|(q & -> & ?)]; [by left|right; by exists q].
Qed.

(** No white space reaches across a blank. *)
Lemma space_prefix_across sps a z :
  forallb (fun p => negb (str_has " " (str_drop 1 p))) sps = true -> a <> EmptyString ->
  space_prefix sps a = None -> space_prefix sps (a +:+ String " " z) = None.
Proof.
  intros Hs Ha. unfold space_prefix. induction sps as [|p sps IH]; [done|]. simpl in Hs |- *. apply andb_true_iff in Hs as [Hp Hs].
  destruct (has_prefix p a) eqn:E; [done|]. intros Hn. destruct (has_prefix p (a +:+ String " " z)) eqn:E'; [|by apply IH].
  apply has_prefix_across in E' as [|(q & -> & Hq & Hz)]; [congruence|].
  destruct a as [|c a]; [done|]. destruct q as [|d q]; [done|]. simpl in Hz. apply andb_true_iff in Hz as [->%Ascii.eqb_eq _].
  simpl in Hp. rewrite str_has_app, str_has_cons in Hp. by rewrite orb_true_r in Hp.
Qed.

Lemma trim_space_blank s : trim_space (String " " s) = trim_space s.
Proof. reflexivity. Qed.

Lemma trim_space_keyed c k s : printable c = true -> s <> EmptyString -> trim_space s = s ->
  trim_space (String c k +:+ String " " s) = (String c k +:+ String " " s)%string.
Proof.
  intros Hc Hne Hs. apply (trim_space_fixed _ Hne) in Hs as [_ Hs]. unfold trim_space, trim_left_space.
  rewrite (strip_front_none _ _ (String c k +:+ String " " s)) by (by apply no_space_prefix).
  unfold trim_right_space. rewrite strip_front_none; [apply str_reverse_involutive|].
  rewrite str_reverse_app, str_reverse_cons, str_app_assoc. apply space_prefix_across; [reflexivity| |done].
  intros E. apply Hne. by rewrite <- (str_reverse_involutive s), E.
Qed.

Lemma fish_cmd_line cmd : cmd <> EmptyString -> trim_space cmd = cmd ->
  trim_space ("- cmd: " +:+ cmd) = ("- cmd: " +:+ cmd)%string /\
  trim_space (trim_prefix "- cmd:" ("- cmd: " +:+ cmd)) = cmd.
Proof.
  intros Hne Hs. split; [exact (trim_space_keyed "-" " cmd:" cmd eq_refl Hne Hs)|].
  change ("- cmd: " +:+ cmd)%string with ("- cmd:" +:+ String " " cmd)%string. by rewrite trim_prefix_app, trim_space_blank.
Qed.

Lemma fish_when_line ts c : in_time ts ->
  trim_space ("  when: " +:+ pretty ts) = ("when: " +:+ pretty ts)%string /\
  fish_attr ("when: " +:+ pretty ts) c = mkHist (rc_Command c) (ts * 1000000000) (rc_Duration c) (rc_Exit c) (rc_Cwd c).
Proof.
  intros Ht. assert (pretty ts <> EmptyString) as Hne.
  { intros E. pose proof (parse_int_sprint_d ts (proj1 Ht)) as H. pose proof (Atoi_pretty_Z ts (proj1 Ht)) as H'. by rewrite E in H'. }
  pose proof (numeric_trim _ (pretty_numeric ts)) as Hs. split.
  - change ("  when: " +:+ pretty ts)%string with (String " " (String " " ("when:" +:+ String " " (pretty ts)))).
    rewrite !trim_space_blank. exact (trim_space_keyed "w" "hen:" _ eq_refl Hne Hs).
  - unfold fish_attr. change ("when: " +:+ pretty ts)%string with ("when:" +:+ String " " (pretty ts))%string.
    rewrite has_prefix_self_app, trim_prefix_app, trim_space_blank, Hs, parse_int_sprint_d by apply Ht. by rewrite time_Unix_in.
Qed.

Lemma fish_loop_print cur runs :
  Forall (fun r => in_time (run_ts r) /\ run_command r <> EmptyString /\ trim_space (run_command r) = run_command r /\
    trim_char quote (run_command r) = run_command r) runs ->
  fish_loop cur (runs ≫= fish_print) = fish_flush cur ++ (read_back None <$> runs).
Proof.
  intros H. revert cur. induction H as [|r runs (Ht & Hne & Hs & Hq) _ IH]; intros cur; [by rewrite app_nil_r|].
  cbn [mbind list_bind fish_print app fish_loop]. destruct (fish_cmd_line _ Hne Hs) as [-> Hc].
  assert (has_prefix "- cmd:" ("- cmd: " +:+ run_command r) = true) as -> by reflexivity. rewrite Hc, Hq.
  f_equal. cbn [fmap option_fmap option_map]. destruct (fish_when_line _ (mkHist (run_command r) time_zero None None "") Ht) as [-> Hw].
  assert (has_prefix "- cmd:" ("when: " +:+ pretty (run_ts r)) = false) as -> by reflexivity.
  rewrite Hw, IH. cbn [fish_flush rc_Command]. assert (str_empty (run_command r) = false) as -> by (by destruct (run_command r)). done.
Qed.

(** Runs whose commands each format can carry. *)
Definition zsh_ok (r : Run) : Prop :=
  in_time (run_ts r) /\ int64 (run_duration r * 1000) /\ Forall plain_line (zsh_print r).
Definition bash_ok (r : Run) : Prop :=
  in_time (run_ts r) /\ bash_stamp (run_command r) = None /\ trim_space (run_command r) <> EmptyString /\ Forall plain_line (bash_print r).
Definition fish_ok (r : Run) : Prop :=
  in_time (run_ts r) /\ run_command r <> EmptyString /\ trim_space (run_command r) = run_command r /\
  trim_char quote (run_command r) = run_command r /\ Forall plain_line (fish_print r).

Lemma Forall_bind_print (print : Run -> list string) runs :
  Forall (fun r => Forall plain_line (print r)) runs -> Forall plain_line (runs ≫= print).
Proof. induction 1 as [|r runs Hr _ IH]; [constructor|]. cbn [mbind list_bind]. by apply Forall_app. Qed.

(** C19: What the shells write, the importer reads back: a zsh file with extended history, a bash
    file with time stamps and a fish file are parsed into exactly the commands, times and (for zsh)
    durations that were written, in order and without an error, for lines without breaks or trailing
    carriage return that stay below a megabyte, and commands the format can carry (for fish without
    blanks or quotation marks at the ends). *)
Theorem histfile_roundtrip (runs : list Run) :
  (Forall zsh_ok runs -> ParseHistfile (file zsh_print runs) "zsh" = ((fun r => read_back (Some (run_duration r * 1000)) r) <$> runs, None)) /\
  (Forall bash_ok runs -> ParseHistfile (file bash_print runs) "bash" = (read_back None <$> runs, None)) /\
  (Forall fish_ok runs -> ParseHistfile (file fish_print runs) "fish" = (read_back None <$> runs, None)).
Proof.
  unfold ParseHistfile. simpl. unfold parseZsh, parseBash, parseFish. split_and!; intros H.
  - rewrite Scan_all_file by (apply Forall_bind_print; eapply Forall_impl; [exact H|by intros r (_ & _ & ?)]). f_equal.
    induction H as [|r runs (Ht & Hd & _) _ IH]; [done|]. cbn [mbind list_bind zsh_print app omap list_omap].
    rewrite zsh_line_print by done. cbn [fmap list_fmap]. f_equal. exact IH.
  - rewrite Scan_all_file by (apply Forall_bind_print; eapply Forall_impl; [exact H|by intros r (_ & _ & _ & ?)]). f_equal.
    apply bash_loop_print. eapply Forall_impl; [exact H|]. by intros r (? & ? & ? & _).
  - rewrite Scan_all_file by (apply Forall_bind_print; eapply Forall_impl; [exact H|by intros r (_ & _ & _ & _ & ?)]). f_equal.
    apply (fish_loop_print None). eapply Forall_impl; [exact H|]. by intros r (? & ? & ? & ? & _).
Qed.
