(* ===== verification/Migrate.v ===== *)
(** [internal/db]: the migrations of the local database. [migrate.go] loads the
    scripts of a directory, runs those that are not recorded, each in a
    transaction with its hook, and records them; [migrate_hooks.go] rewrites
    the event log into its thin form and the history table into its interned
    form. SQLite's execution of a statement is a parameter of the runner. *)

From Stdlib Require Import Ascii.
From S2P Require Import Prelude Database History Event Text.

(** ** [migrate_hooks.go] *)

(** A row of [history] before the migration [0004_history_compact]. *)
Record OldHistoryRow := mkOldRow {
  oh_id : string; oh_command : string; oh_start_ts : Z; oh_end_ts : option Z; oh_duration_ms : option Z; oh_exit_status : option Z;
  oh_cwd : option string; oh_session : option string; oh_hostname : option string; oh_device_id : string; oh_shell : option string;
  oh_deleted : bool; oh_origin_device_id : option string; oh_origin_seq : option Z; oh_created_at : Z;
}.

(** The local database while it is migrated: the old [history] table beside
    the tables of the current schema. *)
Record Local := mkLocal { lc_old : gmap string OldHistoryRow; lc_db : DB }.
Definition on_db {A} : M DB A -> M Local A := zoom lc_db (fun d l => mkLocal (lc_old l) d).

(** Decoding one text field of an event's payload, and no other. *)
Class ThinCodecs := { thin_created_ID : bytes -> option string; thin_tombstoned_HistoryID : bytes -> option string }.
Class ThinLaws `{EventCodecs, ThinCodecs} := {
  thin_created_law (p : HistoryCreated) : codec_valid p -> thin_created_ID (marshal p) = Some (hc_ID p);
  thin_tombstoned_law (p : HistoryTombstoned) : codec_valid p -> thin_tombstoned_HistoryID (marshal p) = Some (ht_HistoryID p);
}.

Section Hooks.
Context `{EventCodecs, ThinCodecs, Sha256}.

(** [thinEvent] has the fields and the encoding of an event. *)
Definition decodeThinEvent (b : bytes) : option Event := unmarshal b.
Definition historyIDFromThin (ev : Event) : string :=
  if String.eqb (ev_Type ev) TypeHistoryCreated then default EmptyString (thin_created_ID (ev_Payload ev))
  else if String.eqb (ev_Type ev) TypeHistoryTombstoned then default EmptyString (thin_tombstoned_HistoryID (ev_Payload ev))
  else EmptyString.

Definition thin_row (r : EventRow) : EventRow :=
  let '(historyID, payload) :=
    match er_payload r with
    | [] => (null_string_value (er_history_id r), er_payload r)
    | _ =>
        match decodeThinEvent (er_payload r) with
        | None => (null_string_value (er_history_id r), er_payload r)
        | Some ev =>
            (if str_empty (historyIDFromThin ev) then null_string_value (er_history_id r) else historyIDFromThin ev,
             if is_history_type (ev_Type ev) then [] else er_payload r)
        end
    end in
  mkEventRow (er_event_type r) (null_string historyID) payload (er_applied r) (er_created_at r).

(** The rows are copied into a new table with the same primary key. *)
Definition copy_thin (x : (string * Z) * EventRow) : M (gmap (string * Z) EventRow) unit := fun new =>
  match new !! x.1 with
  | Some _ => (new, Fail (EMsg "UNIQUE constraint failed"))
  | None => (<[x.1 := thin_row x.2]> new, Ok tt)
  end.

Definition rewriteSyncEvents : M DB unit := fun d =>
  match for_each (map_to_list (db_events d)) copy_thin ∅ with
  | (new, Ok _) => (set_events new d, Ok tt)
  | (_, Fail e) => (d, Fail e)
  end.

(** [internTx] and [internID] are the same two statements. *)
Definition internTx (value : string) (t : gmap string Z) : gmap string Z * option Z := internID value t.

Definition rewrite_row (r : OldHistoryRow) : M DB unit := fun d =>
  let i := db_interns d in
  let '(cwd, cwdID) := internTx (null_string_value (oh_cwd r)) (in_cwd i) in
  let '(sess, sessID) := internTx (null_string_value (oh_session r)) (in_session i) in
  let '(host, hostID) := internTx (null_string_value (oh_hostname r)) (in_hostname i) in
  let '(shell, shellID) := internTx (null_string_value (oh_shell r)) (in_shell i) in
  let d := set_interns (mkInterns cwd sess host shell) d in
  let row := mkHistoryRow (oh_id r) (oh_command r) (HashCommand (oh_command r)) (oh_start_ts r) (oh_end_ts r) (oh_duration_ms r)
    (oh_exit_status r) cwdID sessID hostID (oh_device_id r) shellID (oh_deleted r)
    (null_string (null_string_value (oh_origin_device_id r))) (oh_origin_seq r) (oh_created_at r) in
  match db_history d !! oh_id r with
  | Some _ => (d, Fail (EMsg "UNIQUE constraint failed"))
  | None => (set_history (<[oh_id r := row]> (db_history d)) d, Ok tt)
  end.

(** [CREATE UNIQUE INDEX] fails on two rows with the same key. *)
Definition collide (same : HistoryRow -> HistoryRow -> bool) (h : gmap string HistoryRow) : bool :=
  existsb (fun '(k, r) => existsb (fun '(k', r') => negb (String.eqb k k') && same r r') (map_to_list h)) (map_to_list h).
Definition create_unique_index (same : HistoryRow -> HistoryRow -> bool) : M DB unit := fun d =>
  if collide same (db_history d) then (d, Fail (EMsg "UNIQUE constraint failed")) else (d, Ok tt).

Definition rewriteHistory : M Local unit := fun l =>
  on_db (_ ← modify (set_history ∅);
         _ ← for_each (rows (lc_old l)) rewrite_row;
         _ ← create_unique_index same_origin;
         create_unique_index same_dedup) l.

Definition postHooks (id : string) : option (M Local unit) :=
  if String.eqb id "0003_thin_events" then Some (on_db rewriteSyncEvents)
  else if String.eqb id "0004_history_compact" then Some rewriteHistory
  else None.
End Hooks.

(** ** [migrate.go] *)

Record Migration := mkMigration { mg_ID : string; mg_SQL : string; mg_Checksum : string }.
Record MigrationState := mkStatus { ms_ID : string; ms_Checksum : string; ms_Applied : bool; ms_AppliedAt : option Z; ms_Mismatch : bool }.
Record appliedRec := mkApplied { ar_checksum : string; ar_appliedAt : Z }.

(** An entry of the directory; [de_body] is what reading it gives. *)
Record DirEntry := mkDirEntry { de_name : string; de_dir : bool; de_body : result string }.

Record Schema (D : Type) := mkSchema { sc_data : D; sc_migrations : gmap string appliedRec }.
Arguments mkSchema {D}. Arguments sc_data {D}. Arguments sc_migrations {D}.

Definition no_comment (line : string) : bool := negb (has_prefix "--" (trim_space line)).
Fixpoint split_loop (b : string) (lines : list string) : list string :=
  match lines with
  | [] => let rest := trim_space b in if str_empty rest then [] else [rest]
  | line :: lines =>
      if negb (no_comment line) then split_loop b lines
      else
        let b := (b +:+ line +:+ String nl EmptyString)%string in
        let stmt := trim_space b in
        if has_suffix ";" stmt then (if str_empty stmt || String.eqb stmt ";" then [] else [stmt]) ++ split_loop EmptyString lines
        else split_loop b lines
  end.
Definition splitSQL (s : string) : list string := split_loop EmptyString (split_on nl s).

Section Runner.
Context {D : Type} (exec : string -> M D unit) (hooks : string -> option (M D unit)).
(** [hex.EncodeToString] of the checksum, and the time of a migration. *)
Context (checksum : string -> string) (now : Time).
Notation SD := (Schema D).

Fixpoint load_all (files : list DirEntry) : result (list Migration) :=
  match files with
  | [] => Ok []
  | f :: files =>
      match de_body f with
      | Fail e => Fail (EWrap "read" e)
      | Ok body =>
          out ← load_all files;
          Ok (mkMigration (trim_suffix ".sql" (de_name f)) body (checksum body) :: out)
      end
  end.
Definition LoadMigrationsFS (dir : result (list DirEntry)) : result (list Migration) :=
  match dir with
  | Fail e => Fail (EWrap "read migrations" e)
  | Ok entries =>
      load_all (sort_slice (fun a b => str_lt (de_name a) (de_name b))
        (List.filter (fun e => negb (de_dir e || negb (has_suffix ".sql" (de_name e)))) entries))
  end.

Definition on_data {A} : M D A -> M SD A := zoom sc_data (fun d s => mkSchema d (sc_migrations s)).

Definition record_migration (m : Migration) : M SD unit := fun s =>
  match sc_migrations s !! mg_ID m with
  | Some _ => (s, Fail (EMsg "UNIQUE constraint failed"))
  | None => (mkSchema (sc_data s) (<[mg_ID m := mkApplied (mg_Checksum m) (now `div` 1000000000)]> (sc_migrations s)), Ok tt)
  end.
Definition run_hook (m : Migration) : M SD unit :=
  match hooks (mg_ID m) with Some hook => on_data hook | None => mret tt end.

(** The transaction of one migration: its statements, its hook, its record. *)
Definition apply_migration (m : Migration) : M SD unit :=
  transaction (_ ← on_data (for_each (splitSQL (mg_SQL m)) exec); _ ← run_hook m; record_migration m).

Definition migrate_step (applied : gmap string appliedRec) (m : Migration) : M SD unit :=
  match applied !! mg_ID m with
  | Some rec =>
      if negb (String.eqb (ar_checksum rec) (mg_Checksum m)) then fail (EMsg "checksum mismatch") else mret tt
  | None => apply_migration m
  end.

Definition migrateFS (dir : result (list DirEntry)) : M SD unit := fun s =>
  match LoadMigrationsFS dir with
  | Fail e => (s, Fail e)
  | Ok migs => for_each migs (migrate_step (sc_migrations s)) s
  end.

(** The time of a status is kept in seconds. *)
Definition migration_status (s : SD) (m : Migration) : MigrationState :=
  match sc_migrations s !! mg_ID m with
  | Some rec => mkStatus (mg_ID m) (mg_Checksum m) true (Some (ar_appliedAt rec)) (negb (String.eqb (ar_checksum rec) (mg_Checksum m)))
  | None => mkStatus (mg_ID m) (mg_Checksum m) false None false
  end.
Definition MigrationStatus (dir : result (list DirEntry)) (s : SD) : result (list MigrationState) :=
  match LoadMigrationsFS dir with
  | Fail e => Fail e
  | Ok migs => Ok (migration_status s <$> migs)
  end.
End Runner.

(** ** The thin event log *)

Section ThinSpec.
Context `{EventCodecs, !EventCodecLaws, ThinCodecs, !ThinLaws}.

Lemma copy_thin_all l new :
  NoDup l.*1 -> (forall k, k ∈ l.*1 -> new !! k = None) ->
  for_each l copy_thin new = (list_to_map ((fun x => (x.1, thin_row x.2)) <$> l) ∪ new, Ok tt).
Proof.
  revert new. induction l as [|[k r] l IH]; intros new Hnd Hnew; [simpl; by rewrite (left_id_L ∅ (∪))|].
  rewrite fmap_cons, NoDup_cons in Hnd. destruct Hnd as [Hk Hnd]. cbn [for_each copy_thin fst snd].
  unfold mbind, M_bind, copy_thin at 1. simpl. rewrite (Hnew k) by (simpl; left). simpl.
  rewrite IH; [|done|].
  - f_equal. rewrite <- insert_union_l, insert_union_r; [done|]. apply not_elem_of_list_to_map.
    rewrite <- list_fmap_compose. intros Hin. apply Hk. by erewrite list_fmap_ext in Hin.
  - intros k' Hk'. rewrite lookup_insert_ne by (intros ->; done). apply Hnew. by right.
Qed.

Lemma rewriteSyncEvents_run d : rewriteSyncEvents d = (set_events (thin_row <$> db_events d) d, Ok tt).
Proof.
  unfold rewriteSyncEvents. rewrite copy_thin_all; [|apply NoDup_fst_map_to_list|intros; apply lookup_empty].
  rewrite (right_id_L ∅ (∪)). do 2 f_equal. apply map_eq. intros k. rewrite lookup_fmap.
  destruct (db_events d !! k) as [r|] eqn:E; simpl.
  - apply elem_of_list_to_map_1.
    + rewrite <- list_fmap_compose. erewrite list_fmap_ext; [apply NoDup_fst_map_to_list|done].
    + apply list_elem_of_fmap. exists (k, r). split; [done|]. by apply elem_of_map_to_list.
  - apply not_elem_of_list_to_map. rewrite <- list_fmap_compose. intros ([k' r] & -> & Hin)%list_elem_of_fmap.
    apply elem_of_map_to_list in Hin. simpl in E. congruence.
Qed.

(** A row as it was stored before the log was thin: the whole event. *)
Definition fat_row (ev : Event) (applied : bool) : EventRow := mkEventRow (ev_Type ev) None (Encode ev) applied (ev_TimeUnix ev).
Definition set_applied (applied : bool) (r : EventRow) : EventRow :=
  mkEventRow (er_event_type r) (er_history_id r) (er_payload r) applied (er_created_at r).

(** An event the codecs can carry; what is encoded is not empty. *)
Record sound_event (ev : Event) : Prop := {
  se_version : ev_Version ev = CurrentVersion;
  se_valid : codec_valid ev;
  se_bytes : Encode ev <> [];
  se_created : ev_Type ev = TypeHistoryCreated -> exists p : HistoryCreated, ev_Payload ev = marshal p /\ codec_valid p;
  se_tombstoned : ev_Type ev = TypeHistoryTombstoned -> exists p : HistoryTombstoned, ev_Payload ev = marshal p /\ codec_valid p;
}.

Lemma historyIDFromThin_of ev : sound_event ev -> historyIDFromThin ev = historyIDOf ev.
Proof.
  intros [_ _ _ Hc Ht]. unfold historyIDFromThin, historyIDOf, DecodeHistoryCreated, DecodeHistoryTombstoned.
  destruct (String.eqb_spec (ev_Type ev) TypeHistoryCreated) as [E|_].
  - destruct (Hc E) as (p & -> & Hp). by rewrite thin_created_law, unmarshal_marshal.
  - destruct (String.eqb_spec (ev_Type ev) TypeHistoryTombstoned) as [E|_]; [|done].
    destruct (Ht E) as (p & -> & Hp). by rewrite thin_tombstoned_law, unmarshal_marshal.
Qed.

Lemma thin_fat ev applied : sound_event ev -> thin_row (fat_row ev applied) = set_applied applied (event_row ev).
Proof.
  intros Hs. pose proof (historyIDFromThin_of ev Hs) as Hid. destruct Hs as [Hv Hok Hb _ _].
  assert (decodeThinEvent (Encode ev) = Some ev) as Hd.
  { unfold decodeThinEvent, Encode. rewrite Hv. by apply unmarshal_marshal. }
  unfold thin_row, fat_row, event_row, set_applied. simpl. destruct (Encode ev) as [|b bs] eqn:E; [done|]. rewrite Hd, Hid. cbn [null_string_value default from_option er_event_type er_history_id er_payload er_created_at].
  by destruct (historyIDOf ev).
Qed.
End ThinSpec.

(** ** The interned history table *)

(** The entry a row of the old table stands for. *)
Definition old_entry (r : OldHistoryRow) : Entry :=
  mkEntry (oh_id r) (oh_command r) (time_UnixMilli (oh_start_ts r)) (time_UnixMilli <$> oh_end_ts r) (oh_duration_ms r)
    (oh_exit_status r) (null_string_value (oh_cwd r)) (null_string_value (oh_session r)) (null_string_value (oh_hostname r))
    (oh_device_id r) (null_string_value (oh_shell r)) (oh_deleted r) (null_string_value (oh_origin_device_id r)) (oh_origin_seq r)
    (time_UnixMilli (oh_created_at r)).

(** The constraints of the old table: its primary key and its two unique
    indexes, in which [NULL] collides with nothing. *)
Record old_wf (old : gmap string OldHistoryRow) : Prop := {
  ow_key : forall k r, old !! k = Some r -> oh_id r = k;
  ow_origin : forall k k' r r' dev seq, old !! k = Some r -> old !! k' = Some r' ->
    oh_origin_device_id r = Some dev -> oh_origin_device_id r' = Some dev -> oh_origin_seq r = Some seq -> oh_origin_seq r' = Some seq -> k = k';
  ow_dedup : forall k k' r r' cwd, old !! k = Some r -> old !! k' = Some r' -> oh_deleted r = false -> oh_deleted r' = false ->
    oh_command r = oh_command r' -> oh_start_ts r = oh_start_ts r' -> oh_cwd r = Some cwd -> oh_cwd r' = Some cwd ->
    oh_device_id r = oh_device_id r' -> k = k';
}.

Section RewriteSpec.
Context `{Sha256}.

(** No two commands of the table share a hash. *)
Definition collision_free (old : gmap string OldHistoryRow) : Prop :=
  forall k k' r r', old !! k = Some r -> old !! k' = Some r' ->
    HashCommand (oh_command r) = HashCommand (oh_command r') -> oh_command r = oh_command r'.

(** An interned column refers to the text of the old one. *)
Definition refers (t : gmap string Z) (v : option string) (id : option Z) : Prop :=
  match id with
  | Some i => exists s, v = Some s /\ t !! s = Some i
  | None => null_string_value v = EmptyString
  end.

Lemma refers_mono t t' v id : t ⊆ t' -> refers t v id -> refers t' v id.
Proof. intros Hs. destruct id; [|done]. intros (s & -> & Hv). exists s. split; [done|]. by eapply lookup_weaken. Qed.

Lemma refers_registered t v id : refers t v id -> registered t id.
Proof. destruct id; [|done]. intros (s & _ & Hv). by exists s. Qed.

Lemma refers_value t v id : intern_inj t -> refers t v id -> null_string_value (intern_value t id) = null_string_value v.
Proof.
  intros Ht. destruct id as [i|]; [|by intros ->]. intros (s & -> & Hv). by rewrite (intern_value_lookup t s i Ht Hv).
Qed.

Lemma internTx_refers v t : refers (internTx (null_string_value v) t).1 v (internTx (null_string_value v) t).2.
Proof.
  unfold internTx. pose proof (internID_lookup (null_string_value v) t) as Hl. unfold refers.
  destruct (internID (null_string_value v) t).2 as [i|]; [|done]. destruct Hl as [Hl Hne].
  destruct v as [s|]; [|done]. by exists s.
Qed.

Record copied (i : Interns) (r : OldHistoryRow) (row : HistoryRow) : Prop := {
  cp_row : row = mkHistoryRow (oh_id r) (oh_command r) (HashCommand (oh_command r)) (oh_start_ts r) (oh_end_ts r) (oh_duration_ms r)
    (oh_exit_status r) (hr_cwd_id row) (hr_session_id row) (hr_hostname_id row) (oh_device_id r) (hr_shell_id row) (oh_deleted r)
    (null_string (null_string_value (oh_origin_device_id r))) (oh_origin_seq r) (oh_created_at r);
  cp_cwd : refers (in_cwd i) (oh_cwd r) (hr_cwd_id row);
  cp_session : refers (in_session i) (oh_session r) (hr_session_id row);
  cp_hostname : refers (in_hostname i) (oh_hostname r) (hr_hostname_id row);
  cp_shell : refers (in_shell i) (oh_shell r) (hr_shell_id row);
}.

Lemma copied_mono i i' r row : interns_sub i i' -> copied i r row -> copied i' r row.
Proof. intros (? & ? & ? & ?) []. split; [done|by eapply refers_mono..]. Qed.

Lemma copied_registered i r row : copied i r row -> row_registered i row.
Proof. intros []. split_and!; by eapply refers_registered. Qed.

Lemma copied_entry i r row : interns_wf i -> copied i r row -> scanEntry i row = old_entry r.
Proof.
  intros [Wc Ws Wh Wl] [Hr Hc Hs Hh Hl]. unfold scanEntry. rewrite Hr. simpl. unfold old_entry.
  rewrite (refers_value _ _ _ Wc Hc), (refers_value _ _ _ Ws Hs), (refers_value _ _ _ Wh Hh), (refers_value _ _ _ Wl Hl).
  by rewrite null_string_value_null_string.
Qed.

(** The new table while the rows are copied. *)
Record copying (d0 : DB) (l : list OldHistoryRow) (d : DB) : Prop := {
  cy_interns : interns_wf (db_interns d);
  cy_rows : forall k row, db_history d !! k = Some row -> exists r, r ∈ l /\ oh_id r = k /\ copied (db_interns d) r row;
  cy_all : forall r, r ∈ l -> is_Some (db_history d !! oh_id r);
  cy_rest : set_history ∅ (set_interns interns_empty d) = set_history ∅ (set_interns interns_empty d0);
}.

Lemma rewrite_row_run d0 l d r :
  copying d0 l d -> (forall r', r' ∈ l -> oh_id r' <> oh_id r) ->
  exists d', rewrite_row r d = (d', Ok tt) /\ copying d0 (l ++ [r]) d'.
Proof.
  intros [[Hc Hs Hh Hl] Hrows Hall Hrest] Hnew. unfold rewrite_row.
  pose proof (internTx_refers (oh_cwd r) (in_cwd (db_interns d))) as Rc. pose proof (internTx_refers (oh_session r) (in_session (db_interns d))) as Rs.
  pose proof (internTx_refers (oh_hostname r) (in_hostname (db_interns d))) as Rh. pose proof (internTx_refers (oh_shell r) (in_shell (db_interns d))) as Rl.
  unfold internTx in *.
  pose proof (internID_inj (null_string_value (oh_cwd r)) _ Hc) as Ic. pose proof (internID_sub (null_string_value (oh_cwd r)) (in_cwd (db_interns d))) as Sc.
  pose proof (internID_inj (null_string_value (oh_session r)) _ Hs) as Is. pose proof (internID_sub (null_string_value (oh_session r)) (in_session (db_interns d))) as Ss.
  pose proof (internID_inj (null_string_value (oh_hostname r)) _ Hh) as Ih. pose proof (internID_sub (null_string_value (oh_hostname r)) (in_hostname (db_interns d))) as Sh.
  pose proof (internID_inj (null_string_value (oh_shell r)) _ Hl) as Il. pose proof (internID_sub (null_string_value (oh_shell r)) (in_shell (db_interns d))) as Sl.
  destruct (internID (null_string_value (oh_cwd r)) _) as [cwd cwdID], (internID (null_string_value (oh_session r)) _) as [sess sessID],
    (internID (null_string_value (oh_hostname r)) _) as [host hostID], (internID (null_string_value (oh_shell r)) _) as [shell shellID]. simpl in *.
  assert (db_history d !! oh_id r = None) as Hn.
  { destruct (db_history d !! oh_id r) as [row|] eqn:E; [|done]. destruct (Hrows _ _ E) as (r' & Hr' & Heq & _). by destruct (Hnew r'). }
  rewrite Hn. eexists. split; [done|]. split; simpl.
  - by split.
  - intros k row. rewrite lookup_insert. case_decide as Hk.
    + intros [= <-]. exists r. split; [apply elem_of_app; right; by left|]. split; [done|]. split; simpl; done.
    + intros Hrow. destruct (Hrows _ _ Hrow) as (r' & Hr' & Heq & Hcp). exists r'. split; [apply elem_of_app; by left|]. split; [done|].
      eapply copied_mono; [|exact Hcp]. by split_and!.
  - intros r' [Hr'| ->%list_elem_of_singleton]%elem_of_app; rewrite lookup_insert_is_Some.
    + destruct (decide (oh_id r = oh_id r')); [by left|right; split; [done|by apply Hall]].
    + by left.
  - exact Hrest.
Qed.
Lemma rewrite_rows_run d0 l l' d :
  copying d0 l d -> NoDup (oh_id <$> l ++ l') -> exists d', for_each l' rewrite_row d = (d', Ok tt) /\ copying d0 (l ++ l') d'.
Proof.
  revert l d. induction l' as [|r l' IH]; intros l d Hd Hnd; [rewrite app_nil_r; by exists d|].
  destruct (rewrite_row_run d0 l d r Hd) as (d1 & E1 & H1).
  { intros r' Hr' Heq. rewrite fmap_app, fmap_cons in Hnd. apply NoDup_app in Hnd as (_ & Hd' & _).
    apply (Hd' (oh_id r)); [rewrite <- Heq; by apply list_elem_of_fmap_2|by left]. }
  rewrite (app_assoc l [r] l' : l ++ r :: l' = _) in *. destruct (IH (l ++ [r]) d1 H1) as (d' & E' & H'); [done|].
  exists d'. split; [|done]. cbn [for_each]. by rewrite (bind_Ok _ _ _ _ _ E1).
Qed.

Lemma collide_false same h :
  (forall k k' r r', h !! k = Some r -> h !! k' = Some r' -> same r r' = true -> k = k') -> collide same h = false.
Proof.
  intros Hs. unfold collide. apply not_true_iff_false. intros ([k r] & Hr & ([k' r'] & Hr' & Hc)%existsb_exists)%existsb_exists.
  apply list_elem_of_In, elem_of_map_to_list in Hr. apply list_elem_of_In, elem_of_map_to_list in Hr'.
  apply andb_true_iff in Hc as [Hne Hc]. destruct (String.eqb_spec k k') as [|Hk]; [done|]. by apply Hk, (Hs k k' r r').
Qed.

(** The constraints of the old table are those of the new one. *)
Lemma copying_wf old d0 d l :
  old_wf old -> collision_free old -> (forall r, r ∈ l <-> exists k, old !! k = Some r) -> copying d0 l d -> wf d.
Proof.
  intros Hold Hcf Hl [Hi Hrows Hall _].
  assert (forall k row, db_history d !! k = Some row -> exists r, old !! k = Some r /\ copied (db_interns d) r row) as Hr.
  { intros k row Hrow. destruct (Hrows _ _ Hrow) as (r & Hin & <- & Hcp). exists r. split; [|done].
    apply Hl in Hin as (k' & Hk'). by rewrite <- (ow_key _ Hold _ _ Hk') in Hk'. }
  split; [split|done|].
  - intros k row Hrow. destruct (Hrows _ _ Hrow) as (r & _ & <- & [Hcp _ _ _ _]). by rewrite Hcp.
  - intros k k' a b Ha Hb. destruct (Hr _ _ Ha) as (r & Hk & [Ra _ _ _ _]), (Hr _ _ Hb) as (r' & Hk' & [Rb _ _ _ _]).
    rewrite Ra, Rb. unfold same_origin. simpl.
    destruct (oh_origin_device_id r) as [[|c s]|] eqn:E1, (oh_origin_seq r) as [q|] eqn:E2, (oh_origin_device_id r') as [[|c' s']|] eqn:E3,
      (oh_origin_seq r') as [q'|] eqn:E4; try done. intros [Hd%String.eqb_eq Hq%Z.eqb_eq]%andb_true_iff.
    change (String c s = String c' s') in Hd. apply (ow_origin _ Hold k k' r r' (String c s) q); try done; [by rewrite E3, Hd|by rewrite E4, Hq].
  - intros k k' a b Ha Hb. destruct (Hr _ _ Ha) as (r & Hk & [Ra Ca _ _ _]), (Hr _ _ Hb) as (r' & Hk' & [Rb Cb _ _ _]).
    rewrite Ra, Rb. unfold same_dedup. simpl. rewrite !andb_true_iff, !negb_true_iff, bool_decide_eq_true, Z.eqb_eq, String.eqb_eq.
    destruct (hr_cwd_id a) as [i|], (hr_cwd_id b) as [j|]; try by intros [[_ ?] _]. intros [[[[[? ?] Hh] ?] ->%Z.eqb_eq] ?].
    destruct Ca as (s & Hs & Hi1), Cb as (s' & Hs' & Hi2). rewrite (iw_cwd _ Hi _ _ _ Hi1 Hi2) in Hs.
    eapply (ow_dedup _ Hold); eauto.
  - intros k row Hrow. destruct (Hrows _ _ Hrow) as (r & _ & _ & Hcp). by eapply copied_registered.
Qed.

Lemma rewriteHistory_run (l : Local) :
  old_wf (lc_old l) -> collision_free (lc_old l) -> interns_wf (db_interns (lc_db l)) ->
  exists d, rewriteHistory l = (mkLocal (lc_old l) d, Ok tt) /\ wf d /\
    (forall id, History.Get d id = old_entry <$> lc_old l !! id) /\
    set_history ∅ (set_interns interns_empty d) = set_history ∅ (set_interns interns_empty (lc_db l)).
Proof.
  intros Hold Hcf Hi. set (d0 := set_history ∅ (lc_db l)).
  assert (copying d0 [] d0) as H0.
  { split; [done| |by intros r ?%not_elem_of_nil|done]. intros k row Hk. simpl in Hk. by rewrite lookup_empty in Hk. }
  assert (forall r, r ∈ rows (lc_old l) <-> exists k, lc_old l !! k = Some r) as Hl by (intros r; apply elem_of_rows).
  destruct (rewrite_rows_run d0 [] (rows (lc_old l)) d0 H0) as (d & E & Hd).
  { unfold rows. rewrite app_nil_l, <- list_fmap_compose.
    rewrite (list_fmap_ext _ fst (map_to_list (lc_old l))); [apply NoDup_fst_map_to_list|].
    intros i [k r] Hi'. apply list_elem_of_lookup_2, elem_of_map_to_list in Hi'. apply (ow_key _ Hold _ _ Hi'). }
  rewrite app_nil_l in Hd. pose proof (copying_wf _ _ _ _ Hold Hcf Hl Hd) as Hwf. exists d. split.
  - unfold rewriteHistory, on_db, zoom. unfold mbind, M_bind. simpl. fold d0. rewrite E. unfold create_unique_index.
    rewrite (collide_false same_origin) by apply (hw_origin _ (wf_history _ Hwf)). by rewrite (collide_false same_dedup) by apply (hw_dedup _ (wf_history _ Hwf)).
  - split; [done|]. split; [|apply (cy_rest _ _ _ Hd)]. intros id. unfold History.Get, scanFound.
    destruct (lc_old l !! id) as [r|] eqn:Er; simpl.
    + destruct (cy_all _ _ _ Hd r) as [row Hrow]; [apply Hl; eauto|]. rewrite (ow_key _ Hold _ _ Er) in Hrow. rewrite Hrow. simpl. f_equal.
      destruct (cy_rows _ _ _ Hd _ _ Hrow) as (r' & Hr' & Hk & Hcp). apply Hl in Hr' as (k' & Hk').
      rewrite <- (ow_key _ Hold _ _ Hk'), Hk in Hk'. rewrite Er in Hk'. injection Hk' as ->. apply copied_entry; [apply (cy_interns _ _ _ Hd)|done].
    + destruct (db_history d !! id) as [row|] eqn:Hrow; [|done]. exfalso.
      destruct (cy_rows _ _ _ Hd _ _ Hrow) as (r & Hr & Hk & _). apply Hl in Hr as (k & Hk'). pose proof (ow_key _ Hold _ _ Hk'). congruence.
Qed.
End RewriteSpec.

(** ** The hooks together *)

Section HooksSpec.
Context `{EventCodecs, !EventCodecLaws, ThinCodecs, !ThinLaws, Sha256}.

(** C17: The hooks of the migrations lose nothing: run on a database of the first schema they
    succeed, and leave well-formed tables in which every history entry reads as before under its
    identifier and every event row is the one the current code would have appended, with its applied
    mark; no other table changes. The old table has to satisfy its own constraints, its commands
    must not collide under the hash, and the event rows must hold encoded events. *)
Theorem hooks_upgrade (l : Local) (log : gmap (string * Z) (Event * bool)) :
  old_wf (lc_old l) -> collision_free (lc_old l) -> interns_wf (db_interns (lc_db l)) ->
  db_events (lc_db l) = (fun x => fat_row x.1 x.2) <$> log -> (forall k x, log !! k = Some x -> sound_event x.1) ->
  exists d, (_ ← on_db rewriteSyncEvents; rewriteHistory) l = (mkLocal (lc_old l) d, Ok tt) /\ wf d /\
    (forall id, History.Get d id = old_entry <$> lc_old l !! id) /\
    db_events d = (fun x => set_applied x.2 (event_row x.1)) <$> log /\
    set_events ∅ (set_history ∅ (set_interns interns_empty d)) = set_events ∅ (set_history ∅ (set_interns interns_empty (lc_db l))).
Proof.
  intros Hold Hcf Hi He Hs. set (d1 := set_events (thin_row <$> db_events (lc_db l)) (lc_db l)).
  destruct (rewriteHistory_run (mkLocal (lc_old l) d1) Hold Hcf Hi) as (d & E & Hwf & Hget & Hrest).
  exists d. split_and!; [|done|done| |by apply (f_equal (set_events ∅)) in Hrest].
  - unfold mbind, M_bind, on_db at 1, zoom. rewrite rewriteSyncEvents_run. exact E.
  - apply (f_equal db_events) in Hrest. simpl in Hrest. rewrite Hrest, He. apply map_eq. intros k. rewrite !lookup_fmap.
    destruct (log !! k) as [x|] eqn:Ek; [|done]. simpl. f_equal. apply thin_fat. by eapply Hs.
Qed.
End HooksSpec.

(** ** The runner *)

Lemma has_suffix_split p s : has_suffix p s = true -> s = (trim_suffix p s +:+ p)%string.
Proof.
  intros Hs. unfold trim_suffix. rewrite Hs. unfold has_suffix in Hs. apply has_prefix_split in Hs.
  change (str_rev s EmptyString) with (str_reverse s) in Hs. change (str_rev p EmptyString) with (str_reverse p) in Hs.
  assert (exists q, s = (q +:+ p)%string) as (q & ->).
  { exists (str_reverse (str_drop (String.length (str_reverse p)) (str_reverse s))).
    rewrite <- (str_reverse_involutive s) at 1. by rewrite Hs at 1; rewrite str_reverse_app, str_reverse_involutive. }
  rewrite str_length_app. replace (String.length q + String.length p - String.length p)%nat with (String.length q) by lia.
  by rewrite str_take_app.
Qed.

Section RunnerSpec.
Context {D : Type} (exec : string -> M D unit) (hooks : string -> option (M D unit)) (checksum : string -> string) (now : Time).
Notation SD := (Schema D).
Notation apply_migration := (apply_migration exec hooks now).
Notation migrateFS := (migrateFS exec hooks checksum now).
Notation LoadMigrationsFS := (LoadMigrationsFS checksum).

Lemma load_all_ids files migs : load_all checksum files = Ok migs ->
  mg_ID <$> migs = (fun f => trim_suffix ".sql" (de_name f)) <$> files /\ Forall (fun m => mg_Checksum m = checksum (mg_SQL m)) migs.
Proof.
  revert migs. induction files as [|f files IH]; intros migs; simpl; [by intros [= <-]|].
  destruct (de_body f); [|done]. destruct (load_all checksum files) as [out|]; [|done]. simpl. intros [= <-].
  destruct (IH out eq_refl) as [H1 H2]. split; [simpl; by f_equal|by constructor].
Qed.

(** Distinct file names give distinct identifiers. *)
Lemma LoadMigrationsFS_ids entries migs :
  NoDup (de_name <$> entries) -> LoadMigrationsFS (Ok entries) = Ok migs -> NoDup (mg_ID <$> migs).
Proof.
  intros Hnd H. apply load_all_ids in H as [-> _].
  set (p := fun e => negb (de_dir e || negb (has_suffix ".sql" (de_name e)))).
  pose proof (NoDup_fmap_filter de_name p entries Hnd) as Hf.
  rewrite (sort_slice_perm _ (List.filter p entries)).
  assert (forall e, e ∈ List.filter p entries -> de_name e = (trim_suffix ".sql" (de_name e) +:+ ".sql")%string) as Hsuf.
  { intros e. rewrite list_elem_of_In, filter_In. intros [_ He]. apply has_suffix_split. unfold p in He.
    by destruct (de_dir e), (has_suffix ".sql" (de_name e)). }
  induction (List.filter p entries) as [|e l IH]; [constructor|]. rewrite fmap_cons, NoDup_cons in Hf |- *. destruct Hf as [He Hf].
  split; [|apply IH; [done|intros x Hx; apply Hsuf; by right]]. intros (x & Hx & Hin)%list_elem_of_fmap. apply He, list_elem_of_fmap.
  exists x. split; [|done]. rewrite (Hsuf e), (Hsuf x) by (by left || by right). by rewrite Hx.
Qed.

(** The migrations that are not recorded, in order. *)
Definition pending (applied : gmap string appliedRec) (migs : list Migration) : list Migration :=
  List.filter (fun m => bool_decide (applied !! mg_ID m = None)) migs.

(** Some migrations, each applied with success. *)
Inductive ran : list Migration -> SD -> SD -> Prop :=
| ran_nil s : ran [] s s
| ran_cons m ms s s1 s2 : apply_migration m s = (s1, Ok tt) -> ran ms s1 s2 -> ran (m :: ms) s s2.

Lemma apply_migration_result m s s' r : apply_migration m s = (s', r) ->
  match r with
  | Ok _ => sc_migrations s' = <[mg_ID m := mkApplied (mg_Checksum m) (now `div` 1000000000)]> (sc_migrations s) /\ sc_migrations s !! mg_ID m = None
  | Fail _ => s' = s
  end.
Proof.
  unfold Migrate.apply_migration, transaction.
  destruct ((on_data (for_each (splitSQL (mg_SQL m)) exec) ≫= (fun _ => run_hook hooks m ≫= (fun _ => record_migration now m))) s)
    as [s1 [[]|e]] eqn:E; intros [= <- <-]; [|done].
  apply bind_Ok_inv in E as (s2 & [] & E1 & E). apply bind_Ok_inv in E as (s3 & [] & E2 & E3).
  assert (forall A (m : M D A) t t' x, on_data m t = (t', Ok x) -> sc_migrations t' = sc_migrations t) as Hon.
  { intros A m0 t t' x. unfold on_data, zoom. destruct (m0 (sc_data t)) as [d []]; by intros [= <- _]. }
  apply Hon in E1. assert (sc_migrations s3 = sc_migrations s2) as E2'.
  { unfold run_hook in E2. destruct (hooks (mg_ID m)); [by apply Hon in E2|]. by injection E2 as <-. }
  unfold record_migration in E3. rewrite E2', E1 in E3. destruct (sc_migrations s !! mg_ID m) eqn:El; [done|]. by injection E3 as <-.
Qed.
Lemma ran_records ms s s' : ran ms s s' ->
  sc_migrations s ⊆ sc_migrations s' /\
  (forall m, m ∈ ms -> sc_migrations s' !! mg_ID m = Some (mkApplied (mg_Checksum m) (now `div` 1000000000))) /\
  (forall id, id ∉ mg_ID <$> ms -> sc_migrations s' !! id = sc_migrations s !! id).
Proof.
  induction 1 as [s|m ms s s1 s2 E _ (Hsub & Hin & Hout)]; [split_and!; [done|by intros m ?%not_elem_of_nil|done]|].
  apply apply_migration_result in E as [E Hn]. split_and!.
  - etrans; [|exact Hsub]. rewrite E. by apply insert_subseteq.
  - intros m' [->|Hm']%elem_of_cons; [|by apply Hin]. eapply lookup_weaken; [|exact Hsub]. rewrite E. apply lookup_insert_eq.
  - intros id Hid. rewrite fmap_cons, not_elem_of_cons in Hid. destruct Hid as [Hne Hid]. rewrite Hout by done. rewrite E.
    by apply lookup_insert_ne.
Qed.

(** How the loop over the migrations ends. *)
Definition ending (applied : gmap string appliedRec) (migs rest : list Migration) (s' : SD) (r : result unit) : Prop :=
  match r with
  | Ok _ => rest = [] /\ forall m rec, m ∈ migs -> applied !! mg_ID m = Some rec -> ar_checksum rec = mg_Checksum m
  | Fail e =>
      (exists m rec, m ∈ migs /\ applied !! mg_ID m = Some rec /\ ar_checksum rec <> mg_Checksum m) \/
      (exists m rest', rest = m :: rest' /\ apply_migration m s' = (s', Fail e))
  end.

Lemma ending_cons applied m migs rest s' r :
  (forall rec, applied !! mg_ID m = Some rec -> ar_checksum rec = mg_Checksum m) ->
  ending applied migs rest s' r -> ending applied (m :: migs) rest s' r.
Proof.
  intros Hm. destruct r as [[]|e]; simpl.
  - intros [-> Hall]. split; [done|]. intros m' rec [->|Hin]%elem_of_cons; [by apply Hm|by apply Hall].
  - intros [(m' & rec & Hin & H)|H]; [left|by right]. exists m', rec. split; [by right|done].
Qed.

Lemma migrate_loop applied migs s s' r :
  for_each migs (migrate_step exec hooks now applied) s = (s', r) ->
  exists done rest, pending applied migs = done ++ rest /\ ran done s s' /\ ending applied migs rest s' r.
Proof.
  revert s. induction migs as [|m migs IH]; intros s; cbn [for_each].
  { intros [= <- <-]. exists [], []. split; [done|]. split; [constructor|]. split; [done|]. by intros m rec ?%not_elem_of_nil. }
  unfold mbind, M_bind, pending. destruct (migrate_step exec hooks now applied m s) as [s1 r1] eqn:E. simpl.
  unfold migrate_step in E. destruct (applied !! mg_ID m) as [rec|] eqn:Ea.
  - rewrite bool_decide_eq_false_2 by done. destruct (String.eqb_spec (ar_checksum rec) (mg_Checksum m)) as [Hc|Hc]; simpl in E.
    + injection E as <- <-. intros H. destruct (IH s H) as (done & rest & Hp & Hr & He). exists done, rest. split_and!; [done..|].
      apply ending_cons; [|done]. intros rec' Hrec. congruence.
    + injection E as <- <-. intros [= <- <-]. exists [], (pending applied migs). split_and!; [done|constructor|].
      left. exists m, rec. split; [by left|done].
  - rewrite bool_decide_eq_true_2 by done. pose proof (apply_migration_result _ _ _ _ E) as Hm. destruct r1 as [[]|e].
    + intros H. destruct (IH s1 H) as (done & rest & Hp & Hr & He). exists (m :: done), rest. split_and!.
      * simpl. by f_equal.
      * by econstructor.
      * apply ending_cons; [|done]. intros rec Hrec. congruence.
    + intros [= <- <-]. subst s1. exists [], (m :: pending applied migs). split_and!; [done|constructor|]. right. by exists m, (pending applied migs).
Qed.
End RunnerSpec.

Lemma pending_unrecorded applied migs m : m ∈ pending applied migs -> applied !! mg_ID m = None.
Proof. unfold pending. rewrite list_elem_of_In, filter_In, bool_decide_eq_true. tauto. Qed.

Lemma pending_NoDup applied migs : NoDup (mg_ID <$> migs) -> NoDup (mg_ID <$> pending applied migs).
Proof. by apply NoDup_fmap_filter. Qed.

(** A database whose migrations are all recorded is left alone. *)
Lemma migrate_nothing {D} (exec : string -> M D unit) hooks now applied migs s :
  (forall m, m ∈ migs -> exists rec, applied !! mg_ID m = Some rec /\ ar_checksum rec = mg_Checksum m) ->
  for_each migs (migrate_step exec hooks now applied) s = (s, Ok tt).
Proof.
  induction migs as [|m migs IH]; intros Hall; [done|]. cbn [for_each]. destruct (Hall m) as (rec & Hrec & Hc); [by left|].
  rewrite (bind_Ok _ _ s s tt); [apply IH; intros m' Hm'; apply Hall; by right|].
  unfold migrate_step. rewrite Hrec, Hc, String.eqb_refl. done.
Qed.

