(* ===== verification/Utf8.v ===== *)
(** Go's [unicode/utf8]: decoding a string into runes, the way [[]rune(s)] and
    [range s] do it, and encoding a rune; and the width of [int32], which a rune
    has. *)

From S2P Require Import Prelude Text.
From Stdlib Require Import Ascii.

(** Two's complement wrap-around of [int32]. *)
Definition wrap32 (z : Z) : Z := (z + 2^31) `mod` 2^32 - 2^31.
Lemma wrap32_small z : - 2^31 <= z < 2^31 -> wrap32 z = z.
Proof. unfold wrap32. intros H. rewrite Z.mod_small; lia. Qed.

Definition RuneError : Z := 65533.

Definition between (lo hi x : Z) : bool := (lo <=? x) && (x <=? hi).
Definition byte_at (n : nat) (s : string) : Z :=
  match str_at n s with Some c => Z.of_N (code c) | None => -1 end.
Definition is_cont (x : Z) : bool := between 128 191 x.

(** The second byte a lead byte allows, and the length of the sequence. *)
Definition utf8_lead (x : Z) : option (Z * Z * nat) :=
  if between 194 223 x then Some (128, 191, 2%nat)
  else if x =? 224 then Some (160, 191, 3%nat)
  else if between 225 236 x || between 238 239 x then Some (128, 191, 3%nat)
  else if x =? 237 then Some (128, 159, 3%nat)
  else if x =? 240 then Some (144, 191, 4%nat)
  else if between 241 243 x then Some (128, 191, 4%nat)
  else if x =? 244 then Some (128, 143, 4%nat)
  else None.

(** [utf8.DecodeRuneInString] of a non-empty string: the rune and its width. *)
Definition DecodeRune (s : string) : Z * nat :=
  let x := byte_at 0 s in
  if x <? 128 then (x, 1%nat)
  else
    match utf8_lead x with
    | None => (RuneError, 1%nat)
    | Some (lo, hi, n) =>
        let b1 := byte_at 1 s in
        if negb (between lo hi b1) then (RuneError, 1%nat)
        else if (n =? 2)%nat then (Z.lor (Z.shiftl (Z.land x 31) 6) (Z.land b1 63), 2%nat)
        else
          let b2 := byte_at 2 s in
          if negb (is_cont b2) then (RuneError, 1%nat)
          else if (n =? 3)%nat then
            (Z.lor (Z.lor (Z.shiftl (Z.land x 15) 12) (Z.shiftl (Z.land b1 63) 6)) (Z.land b2 63), 3%nat)
          else
            let b3 := byte_at 3 s in
            if negb (is_cont b3) then (RuneError, 1%nat)
            else (Z.lor (Z.lor (Z.shiftl (Z.land x 7) 18) (Z.shiftl (Z.land b1 63) 12))
                    (Z.lor (Z.shiftl (Z.land b2 63) 6) (Z.land b3 63)), 4%nat)
    end.

Fixpoint runes_from (fuel : nat) (s : string) : list Z :=
  match fuel, s with
  | O, _ | _, EmptyString => []
  | Datatypes.S fuel, _ => let '(r, w) := DecodeRune s in r :: runes_from fuel (str_drop w s)
  end.
(** [[]rune(s)]; a rune takes at least one byte. *)
Definition runes (s : string) : list Z := runes_from (String.length s) s.

(** [utf8.AppendRune]; a rune out of range is encoded as [RuneError]. *)
Definition byte_chr (z : Z) : ascii := ascii_of_N (Z.to_N z).
Definition EncodeRune (r : Z) : string :=
  let r := if (r <? 0) || (1114111 <? r) || between 55296 57343 r then RuneError else r in
  let cont n := byte_chr (Z.lor 128 (Z.land (Z.shiftr r n) 63)) in
  if r <? 128 then String (byte_chr r) EmptyString
  else if r <? 2048 then String (byte_chr (Z.lor 192 (Z.shiftr r 6))) (String (cont 0) EmptyString)
  else if r <? 65536 then
    String (byte_chr (Z.lor 224 (Z.shiftr r 12))) (String (cont 6) (String (cont 0) EmptyString))
  else String (byte_chr (Z.lor 240 (Z.shiftr r 18)))
         (String (cont 12) (String (cont 6) (String (cont 0) EmptyString))).

Example runes_mixed : runes ("a" +:+ EncodeRune 233 +:+ EncodeRune 8364 +:+ EncodeRune 128512 +:+ chr 255)%string
  = [97; 233; 8364; 128512; RuneError].
Proof. reflexivity. Qed.

Lemma runes_ascii s : str_all (fun c => (code c <? 128)%N) s = true ->
  runes s = (fun c => Z.of_N (code c)) <$> String.list_ascii_of_string s.
Proof.
  unfold runes. induction s as [|c s IH]; [done|]. simpl. intros [Hc Hs]%andb_true_iff.
  unfold DecodeRune, byte_at. cbn [str_at]. assert (Z.of_N (code c) <? 128 = true) as -> by (apply N.ltb_lt in Hc; apply Z.ltb_lt; lia).
  cbn [str_drop]. f_equal. auto.
Qed.

(** A byte of zero is a rune of its own wherever it stands. *)
Lemma byte_at_step n s : 0 < byte_at n s -> str_has NUL (str_drop n s) = true -> str_has NUL (str_drop (Datatypes.S n) s) = true.
Proof.
  revert s. induction n as [|n IH]; intros [|c s] Hb Hn; try done.
  - cbn [str_drop] in *. rewrite str_has_cons in Hn. apply orb_true_iff in Hn as [<-%Ascii.eqb_eq|Hn]; [by vm_compute in Hb|done].
  - exact (IH s Hb Hn).
Qed.

Lemma DecodeRune_NUL s : str_has NUL s = true -> (DecodeRune s).1 = 0 \/ str_has NUL (str_drop (DecodeRune s).2 s) = true.
Proof.
  intros Hs.
  destruct (Z.ltb_spec 0 (byte_at 0 s)) as [Hp|Hp].
  - right. assert (str_has NUL (str_drop 1 s) = true) as H1 by (by apply (byte_at_step 0)).
    unfold DecodeRune. case_match; [done|]. destruct (utf8_lead (byte_at 0 s)) as [[[lo hi] n]|] eqn:El; [|done].
    assert (128 <= lo) as Hlo by (unfold utf8_lead in El; repeat case_match; simplify_eq; lia).
    destruct (between lo hi (byte_at 1 s)) eqn:E1; [|done]. apply andb_true_iff in E1 as [E1%Z.leb_le _].
    assert (str_has NUL (str_drop 2 s) = true) as H2 by (apply (byte_at_step 1); [lia|done]). cbn [negb]. case_match; [done|].
    destruct (is_cont (byte_at 2 s)) eqn:E2; [|done]. apply andb_true_iff in E2 as [E2%Z.leb_le _].
    assert (str_has NUL (str_drop 3 s) = true) as H3 by (apply (byte_at_step 2); [lia|done]). cbn [negb]. case_match; [done|].
    destruct (is_cont (byte_at 3 s)) eqn:E3; [|done]. apply andb_true_iff in E3 as [E3%Z.leb_le _].
    apply (byte_at_step 3); [lia|done].
  - left. destruct s as [|c s]; [done|]. unfold DecodeRune. unfold byte_at in *. cbn [str_at] in *.
    assert (Z.of_N (code c) = 0) as -> by lia. done.
Qed.

Lemma runes_NUL s : str_has NUL s = true -> 0 ∈ runes s.
Proof.
  unfold runes. assert (forall fuel s, (String.length s <= fuel)%nat -> str_has NUL s = true -> 0 ∈ runes_from fuel s) as H; [|by apply H].
  clear s. induction fuel as [|fuel IH]; intros s Hf Hs; [by destruct s; [|simpl in Hf; lia]|]. destruct s as [|c s]; [done|].
  pose proof (DecodeRune_NUL _ Hs) as Hd. cbn [runes_from]. destruct (DecodeRune (String c s)) as [r w] eqn:E. cbn [fst snd] in Hd.
  destruct Hd as [->|Hd]; [by left|]. right. apply IH; [|done].
  assert (1 <= w)%nat by (unfold DecodeRune in E; repeat case_match; simplify_eq; lia).
  destruct w as [|w]; [lia|]. cbn [str_drop]. pose proof (str_drop_len w s). simpl in Hf. lia.
Qed.

(** [utf8.ValidString] *)
Fixpoint valid_from (fuel : nat) (s : string) : bool :=
  match fuel, s with
  | O, _ | _, EmptyString => true
  | Datatypes.S fuel, _ =>
      let '(r, w) := DecodeRune s in negb ((r =? RuneError) && (w =? 1)%nat) && valid_from fuel (str_drop w s)
  end.
Definition ValidString (s : string) : bool := valid_from (String.length s) s.
