(* ===== verification/Rclone.v ===== *)
(** [internal/transport/rclone/remote.go]: the transport over an rclone
    backend (Google Drive, S3, Dropbox, ...). The rclone library is the class
    [Rclone]: [F] is the type of its [fs.Fs] values, [B] the state of the
    remote and of rclone's caches. Every call may change the state and may
    fail; the optional features of a backend are optional fields. The laws the
    theorems of [RcloneSpec] need of it are stated there.

    An [fs.Object] is a Go value: [ro_addr] is its identity ([a == b] of the
    interfaces), [ro_ID] what its [ID] method returns where it has one.
    [strings.ToLower], [uuid.NewString] and the clock are parameters. *)

From S2P Require Import Prelude Transport.
From Stdlib Require Import Ascii.

(** * The rclone library *)

(** The sentinels [errors.Is] is asked for. *)
Inductive rsent :=
| ErrorObjectNotFound | ErrorDirNotFound | ErrorPermissionDenied | ErrorIsDir | ErrorIsFile
| ErrorCommandNotFound | OsErrNotExist.
#[global] Instance rsent_eq_dec : EqDecision rsent.
Proof. solve_decision. Defined.

(** An error of the library: the sentinels it wraps and its [Error()] text. *)
Record rerr := mkRerr { re_chain : list rsent; re_text : string }.
Definition r_Is (e : rerr) (s : rsent) : bool := bool_decide (s ∈ re_chain e).

Record RObj := mkRObj {
  ro_Remote : string;
  ro_Size : Z;
  ro_ModTime : Time;
  ro_ID : option string;        (** [ID()], where the object has it *)
  ro_ParentID : option string;  (** [fs.ParentIDer] *)
  ro_addr : nat;
}.
Record RDir := mkRDir {
  rd_Remote : string;
  rd_ID : string;
  rd_ParentID : option string;
}.
Inductive DirEntry := EObj (o : RObj) | EDir (d : RDir).

(** [entries.ForObject] and [entries.ForDir] *)
Definition ForObject (es : list DirEntry) : list RObj :=
  omap (fun e => match e with EObj o => Some o | EDir _ => None end) es.
Definition ForDir (es : list DirEntry) : list RDir :=
  omap (fun e => match e with EDir d => Some d | EObj _ => None end) es.

Record driveQueryFolder := mkFolder {
  qf_ID : string;
  qf_Name : string;
  qf_Parents : list string;
}.

Record Features (B : Type) := mkFeatures {
  fe_DuplicateFiles : bool;
  fe_BucketBased : bool;
  fe_Copy : bool;
  fe_Move : option (RObj -> string -> B -> B * (option RObj + rerr));
  fe_Purge : option (string -> B -> B * option rerr);
  fe_About : option (B -> B * option rerr);
  fe_MergeDirs : option (list RDir -> B -> B * option rerr);
  (** [Command("query", q)]: the folders its answer decodes to as JSON, [None]
      when it does not *)
  fe_Command : option (string -> B -> B * (option (list driveQueryFolder) + rerr));
  fe_DirCacheFlush : option (B -> B);
}.
Arguments fe_DuplicateFiles {B} _.
Arguments fe_BucketBased {B} _.
Arguments fe_Copy {B} _.
Arguments fe_Move {B} _.
Arguments fe_Purge {B} _.
Arguments fe_About {B} _.
Arguments fe_MergeDirs {B} _.
Arguments fe_Command {B} _.
Arguments fe_DirCacheFlush {B} _.

Class Rclone (F B : Type) := {
  rc_Type : string -> B -> string;   (** [config.FileGetValue(name, "type")] *)
  rc_NewFs : string -> B -> B * (F + rerr);
  rc_Name : F -> string;
  rc_Features : F -> Features B;
  rc_List : F -> string -> B -> B * (list DirEntry + rerr);
  rc_NewObject : F -> string -> B -> B * (RObj + rerr);
  rc_Open : F -> RObj -> B -> B * (Reader + rerr);
  rc_Put : F -> string -> Time -> bytes -> B -> B * (option RObj * option rerr);
  rc_Remove : F -> RObj -> B -> B * option rerr;
  rc_Mkdir : F -> string -> B -> B * option rerr;
  rc_Rmdir : F -> string -> B -> B * option rerr;
}.
#[global] Hint Mode Rclone ! - : typeclass_instances.

(** A library call: its error is a value the caller looks at. *)
Definition call {B A} (m : B -> B * A) : M B A := fun b => let '(b', a) := m b in (b', Ok a).
(** [_ = call()] *)
Definition drop {B A} (m : B -> B * A) : M B unit := fun b => ((m b).1, Ok tt).

(** * Errors *)

Definition isRcloneNotFound (e : rerr) : bool := r_Is e ErrorObjectNotFound || r_Is e ErrorDirNotFound.

Definition remoteNotFoundMsg (msg : string) : bool :=
  contains "path_lookup/not_found" msg || contains "path/not_found" msg || contains "/not_found" msg.

(** The library's error handed on as it is. *)
Definition raw (e : rerr) : error :=
  if r_Is e OsErrNotExist then EWrap (re_text e) ENotExist else EMsg (re_text e).

(** [isNotFound] of an error [mapErr] returned: of the library's own sentinels
    none survives it. *)
Definition isNotFound (e : error) : bool := errors_Is is_NotExist e.
Definition ignoreNotFound (e : option error) : result unit :=
  match e with
  | None => Ok tt
  | Some e => if isNotFound e then Ok tt else Fail e
  end.

Definition dirKeepName : string := ".remnix-dir".

Definition isBucketType (typ : string) : bool :=
  existsb (String.eqb typ) ["s3"; "gcs"; "azureblob"; "b2"; "swift"]%string.

(** [rclone path]: bucket backends get a trailing slash. *)
Definition fsSpec (remoteName root typ : string) : string :=
  let spec := (remoteName +:+ ":")%string in
  let root := trim_char slash root in
  if str_empty root then spec
  else let spec := (spec +:+ root)%string in
       if isBucketType typ then (spec +:+ "/")%string else spec.

Definition skipObject (o : RObj) : bool :=
  (ro_Size o <? 0) || String.eqb (path_base (ro_Remote o)) dirKeepName.

Definition isTempName (key : string) : bool :=
  let base := path_base key in has_suffix ".tmp" base || contains ".tmp-" base.

Definition objectID (o : RObj) : string := default EmptyString (ro_ID o).

Definition sameObject (a b : RObj) : bool :=
  (ro_addr a =? ro_addr b)%nat ||
  (negb (str_empty (objectID a)) && String.eqb (objectID a) (objectID b)).

(** [newestObject(objs)] for [objs = o :: os] *)
Definition newestObject (o : RObj) (os : list RObj) : RObj :=
  foldl (fun keep o => if ro_ModTime keep <? ro_ModTime o then o else keep) o os.

(** [parent := path.Dir(key)] with ["."] for the root *)
Definition listParent (key : string) : string :=
  let parent := path_dir key in if String.eqb parent "." then EmptyString else parent.

(** [byName[x] = append(byName[x], o)]; the groups are kept in the order their
    names first occur. *)
Fixpoint group_add {A} (name : string) (a : A) (m : list (string * list A)) : list (string * list A) :=
  match m with
  | [] => [(name, [a])]
  | (n, l) :: m => if String.eqb n name then (n, l ++ [a]) :: m else (n, l) :: group_add name a m
  end.
Definition group_by {A} (f : A -> string) (l : list A) : list (string * list A) :=
  foldl (fun m a => group_add (f a) a m) [] l.

(** The names a [seen] map lets through: the first occurrence of each. *)
Definition unseen (names : list string) : list string :=
  foldl (fun acc n => if bool_decide (n ∈ acc) then acc else acc ++ [n]) [] names.

Definition layout : list string := ["acks"; "metadata"; "keys"; "events"; "checkpoints"]%string.

Section Text.
Context (ToLower : string -> string).

Definition isHeadObjectForbidden (e : rerr) : bool :=
  let msg := ToLower (re_text e) in
  contains "headobject" msg &&
  (contains "403" msg || contains "forbidden" msg || contains "accessdenied" msg || contains "access denied" msg).

Definition listAllBucketsDenied (e : rerr) : bool :=
  let msg := ToLower (re_text e) in
  (contains "listallmybuckets" msg || contains "storage.buckets.list" msg) ||
  (contains "listbuckets" msg &&
   (contains "accessdenied" msg || contains "access denied" msg || contains "forbidden" msg)).

Definition listBucketDenied (e : rerr) : bool :=
  let msg := ToLower (re_text e) in
  negb (listAllBucketsDenied e) && (contains "listbucket" msg || contains "listobject" msg) &&
  (contains "accessdenied" msg || contains "access denied" msg || contains "forbidden" msg ||
   contains "not authorized" msg).

Definition mapErr (e : rerr) : error :=
  if isRcloneNotFound e then EWrap (re_text e) ENotExist
  else if r_Is e ErrorPermissionDenied then EWrap (re_text e) EPermissionDenied
  else
    let msg := ToLower (re_text e) in
    if remoteNotFoundMsg msg then EWrap (re_text e) ENotExist
    else if contains "accessdenied" msg || contains "access denied" msg ||
            contains "not authorized to perform" msg || (contains "forbidden" msg && contains "403" msg)
    then EWrap (re_text e) EPermissionDenied
    else if contains "unauthenticated" msg || contains "unauthorized" msg || contains "oauth" msg ||
            (contains "expired" msg && contains "token" msg)
    then EWrap (re_text e) EAuthRequired
    else if contains "connection refused" msg || contains "no such host" msg ||
            contains "network is unreachable" msg || contains "terminated signal" msg
    then EWrap (re_text e) EOffline
    else raw e.
End Text.

(** * The transport *)

Record RTransport (F : Type) := mkRTransport { t_fs : F; t_remote : string; t_root : string }.
Arguments mkRTransport {F} _ _ _.
Arguments t_fs {F} _.
Arguments t_remote {F} _.
Arguments t_root {F} _.

Section Open.
Context {F B : Type} `{!Rclone F B} (ToLower : string -> string).

Definition Open (remoteName root : string) : M B (RTransport F) :=
  typ ← gets (rc_Type (F := F) remoteName);
  r ← call (rc_NewFs (fsSpec remoteName root typ));
  r ← match r with
      | inr e =>
          if isHeadObjectForbidden ToLower e then
            let alt := (remoteName +:+ ",no_head_object,no_check_bucket:" +:+ trim_char slash root)%string in
            let alt := if isBucketType typ && negb (has_suffix "/" alt) then (alt +:+ "/")%string else alt in
            call (rc_NewFs alt)
          else mret r
      | inl _ => mret r
      end;
  match r with
  | inr e => if r_Is e ErrorIsFile then fail (EMsg "remote path is a file, not a directory")
             else fail (mapErr ToLower e)
  | inl f => mret (mkRTransport f remoteName (trim_char slash root))
  end.

Definition OpenLocal (dir : string) : M B (RTransport F) :=
  r ← call (rc_NewFs dir);
  match r with
  | inr e => fail (mapErr ToLower e)
  | inl f => mret (mkRTransport f "local" dir)
  end.
End Open.

Section Transport.
Context {F B : Type} `{!Rclone F B} (ToLower : string -> string) (uuid : B -> string) (now : B -> Time).
(** The order in which Go iterates over a map is not specified. *)
Context (map_order : forall A : Type, list (string * A) -> list (string * A)).
Context (fuel : nat) (t : RTransport F).

Local Notation fs := (t_fs t).
Local Notation feat := (rc_Features (t_fs t)).
Local Notation mapErr := (mapErr ToLower).

(** An error of the library, or none, as the transport returns it. *)
Definition mapped (e : option rerr) : result unit :=
  match e with None => Ok tt | Some e => Fail (mapErr e) end.
Definition mapped_found (e : option rerr) : result unit := ignoreNotFound (mapErr <$> e).

Definition allowsDuplicateNames : bool := fe_DuplicateFiles feat.

Definition flushDirCache : M B unit :=
  match fe_DirCacheFlush feat with None => mret tt | Some flush => modify flush end.

(** ** Listing *)

(** The callback of [ForDir] in [walk]: one directory further, unless an error
    was met. *)
Definition walk_into (rec : string -> B -> B * (list RObj * option rerr))
    (st : B * (list RObj * option rerr)) (d : RDir) : B * (list RObj * option rerr) :=
  match st with
  | (b, (out, Some e)) => (b, (out, Some e))
  | (b, (out, None)) =>
      let '(b, (out', err)) := rec (rd_Remote d) b in
      (b, (out ++ out', match err with
                        | Some e => if r_Is e ErrorDirNotFound then None else Some e
                        | None => None
                        end))
  end.

(** [walk]: the objects visited, and the error that ended it. [fuel] bounds
    the depth of the directories. *)
Fixpoint walk (fuel : nat) (dir : string) (b : B) : B * (list RObj * option rerr) :=
  match fuel with
  | O => (b, ([], Some (mkRerr [] "recursion limit")))
  | S fuel =>
      match rc_List fs dir b with
      | (b, inr e) => (b, ([], Some e))
      | (b, inl es) => foldl (walk_into (walk fuel)) (b, (ForObject es, None)) (ForDir es)
      end
  end.

Definition visible (o : RObj) : bool := negb (skipObject o) && negb (isTempName (ro_Remote o)).
Definition toObject (o : RObj) : Object := mkObject (ro_Remote o) (ro_Size o).

Definition List_ (prefix : string) : M B (list Object) :=
  r ← call (walk fuel (trim_char slash prefix));
  let '(objs, err) := r in
  match err with
  | Some e => if r_Is e ErrorDirNotFound then mret (toObject <$> List.filter visible objs)
              else fail (mapErr e)
  | None => mret (toObject <$> List.filter visible objs)
  end.

(** One level, a missing directory counts as empty. *)
Definition list_level {A} (pick : list DirEntry -> list A) (prefix : string) : M B (list A) :=
  r ← call (rc_List fs (trim_char slash prefix));
  match r with
  | inr e => if r_Is e ErrorDirNotFound then mret [] else fail (mapErr e)
  | inl es => mret (pick es)
  end.

Definition visible_dir (name : string) : bool := negb (contains ".tmp-" (path_base name)).

Definition ListDirs : string -> M B (list string) :=
  list_level (fun es => List.filter visible_dir (rd_Remote <$> ForDir es)).
Definition ListShallow : string -> M B (list Object) :=
  list_level (fun es => toObject <$> List.filter visible (ForObject es)).

Definition Get (key : string) : M B Reader :=
  r ← call (rc_NewObject fs (trim_char slash key));
  match r with
  | inr e => fail (mapErr e)
  | inl obj =>
      if skipObject obj then fail (EWrap "skipping non-downloadable object" ENotExist) else
      rc ← call (rc_Open fs obj);
      match rc with
      | inr e => fail (mapErr e)
      | inl rc => mret rc
      end
  end.

(** ** Writing *)

Definition objectsNamed (key : string) : M B (list RObj) :=
  let key := trim_char slash key in
  r ← call (rc_List fs (listParent key));
  match r with
  | inr _ => mret []
  | inl es => mret (List.filter (fun o => negb (skipObject o) && String.eqb (ro_Remote o) key) (ForObject es))
  end.

Definition removeOthers (key : string) (keep : RObj) : M B unit :=
  if negb allowsDuplicateNames then mret tt else
  objs ← objectsNamed key;
  for_each objs (fun o => if sameObject o keep then mret tt else drop (rc_Remove fs o)).

Definition removeTempsFor (key : string) : M B unit :=
  let key := trim_char slash key in
  r ← call (rc_List fs (listParent key));
  match r with
  | inr _ => mret tt
  | inl es =>
      for_each (ForObject es) (fun o =>
        if skipObject o then mret tt
        else if has_prefix (key +:+ ".tmp-") (ro_Remote o) then drop (rc_Remove fs o) else mret tt)
  end.

Definition removeDestForMove (src : RObj) (final : string) : M B unit :=
  objs ← objectsNamed final;
  for_each objs (fun o =>
    if sameObject o src then mret tt
    else e ← call (rc_Remove fs o); of_result (mapped e)).

(** The library returns the object it stored together with no error; a nil
    object there would be a nil dereference. *)
Definition upload (key : string) (data : bytes) : M B RObj :=
  n ← gets now;
  r ← call (rc_Put fs key n data);
  match r with
  | (obj, Some e) =>
      _ ← match obj with Some o => drop (rc_Remove fs o) | None => mret tt end;
      fail (mapErr e)
  | (Some obj, None) =>
      if ro_Size obj =? Z.of_nat (length data) then mret obj
      else _ ← drop (rc_Remove fs obj); fail (EMsg "rclone put size mismatch")
  | (None, None) => fail (EMsg "nil object")
  end.

(** The object [rename] returns is not used by its only caller. *)
Definition rename (obj : RObj) (final : string) (data : bytes) : M B unit :=
  match fe_Move feat with
  | Some move =>
      _ ← removeDestForMove obj final;
      r ← call (move obj final);
      match r with
      | inr e => fail (mapErr e)
      | inl _ => mret tt
      end
  | None =>
      n ← gets now;
      r ← call (rc_Put fs final n data);
      _ ← drop (rc_Remove fs obj);
      match r with
      | (finalObj, Some e) =>
          _ ← match finalObj with Some o => drop (rc_Remove fs o) | None => mret tt end;
          fail (mapErr e)
      | (_, None) => mret tt
      end
  end.

Definition put (key : string) (r : Reader) (atomic : bool) : M B unit :=
  let key := trim_char slash key in
  let parent := path_dir key in
  _ ← (if negb (String.eqb parent ".") && negb (str_empty parent) && negb allowsDuplicateNames
       then e ← call (rc_Mkdir fs parent); of_result (mapped e)
       else mret tt);
  data ← of_result (ReadAll r);
  if allowsDuplicateNames then
    obj ← upload key data;
    _ ← removeOthers key obj;
    removeTempsFor key
  else
    u ← gets uuid;
    let final := key in
    let upload_key := if atomic then (key +:+ ".tmp-" +:+ u)%string else key in
    obj ← upload upload_key data;
    if negb atomic || String.eqb upload_key final then mret tt else
    res ← try (rename obj final data);
    match res with
    | Fail e => _ ← drop (rc_Remove fs obj); fail e
    | Ok _ => mret tt
    end.

Definition Put (key : string) (r : Reader) : M B unit := put key r false.
Definition PutAtomic (key : string) (r : Reader) : M B unit := put key r true.

(** [[]byte("dir\n")] *)
Definition dir_marker : bytes := [Byte.x64; Byte.x69; Byte.x72; Byte.x0a].

Definition Mkdir (key : string) : M B unit :=
  let key := trim_char slash key in
  e ← call (rc_Mkdir fs key);
  match e with
  | Some e => fail (mapErr e)
  | None => if str_empty key || negb (fe_BucketBased feat) then mret tt
            else Put (key +:+ "/" +:+ dirKeepName) (bytes_reader dir_marker)
  end.

(** ** Removing *)

(** The two callbacks of [walkRemove]; both do nothing after an error. *)
Definition remove_next (st : B * option rerr) (o : RObj) : B * option rerr :=
  match st with
  | (b, Some e) => (b, Some e)
  | (b, None) => rc_Remove fs o b
  end.
Definition remove_into (rec : string -> B -> B * option rerr) (st : B * option rerr) (d : RDir) :
    B * option rerr :=
  match st with
  | (b, Some e) => (b, Some e)
  | (b, None) => match rec (rd_Remote d) b with
                 | (b, Some e) => (b, Some e)
                 | (b, None) => rc_Rmdir fs (rd_Remote d) b
                 end
  end.

Fixpoint walkRemove (fuel : nat) (dir : string) (b : B) : B * option rerr :=
  match fuel with
  | O => (b, Some (mkRerr [] "recursion limit"))
  | S fuel =>
      match rc_List fs dir b with
      | (b, inr e) => (b, Some e)
      | (b, inl es) =>
          match foldl remove_next (b, None) (ForObject es) with
          | (b, Some e) => (b, Some e)
          | (b, None) => foldl (remove_into (walkRemove fuel)) (b, None) (ForDir es)
          end
      end
  end.

(** The objects are all tried; the first error is kept. *)
Definition remove_all (objs : list RObj) : B -> B * option rerr := fun b =>
  foldl (fun '(b, firstErr) o =>
    let '(b, e) := rc_Remove fs o b in
    (b, match firstErr with None => e | Some _ => firstErr end)) (b, None) objs.

Definition Remove (key : string) : M B unit :=
  let key := trim_char slash key in
  objs ← (if allowsDuplicateNames then objectsNamed key else mret []);
  match objs with
  | _ :: _ => e ← call (remove_all objs); of_result (mapped_found e)
  | [] =>
      r ← call (rc_NewObject fs key);
      match r with
      | inl obj => e ← call (rc_Remove fs obj); of_result (mapped_found e)
      | inr e =>
          if negb (isRcloneNotFound e) && negb (r_Is e ErrorIsDir) && negb (isNotFound (mapErr e))
          then fail (mapErr e)
          else
            match fe_Purge feat with
            | Some purge => e ← call (purge key); of_result (mapped_found e)
            | None =>
                e ← call (walkRemove fuel key);
                match e with
                | Some e => if isRcloneNotFound e then mret tt else fail (mapErr e)
                | None => e ← call (rc_Rmdir fs key); of_result (mapped_found e)
                end
            end
      end
  end.

(** ** Duplicates *)

Definition currentDirID (dir : string) : M B string :=
  r ← call (rc_List fs dir);
  match r with
  | inr _ => mret EmptyString
  | inl es =>
      let first ids := default EmptyString (List.find (fun p => negb (str_empty p)) (omap id ids)) in
      let id := first (rd_ParentID <$> ForDir es) in
      mret (if str_empty id then first (ro_ParentID <$> ForObject es) else id)
  end.

(** [ds[0], ds[i] = ds[i], ds[0]] *)
Definition swap_front {A} (i : nat) (l : list A) : list A :=
  match l !! 0%nat, l !! i with
  | Some x, Some y => <[i := x]> (<[0%nat := y]> l)
  | _, _ => l
  end.

Definition mergeDirSlice (g : F) (ds : list RDir) (keepID : string) : M B unit :=
  match fe_MergeDirs (rc_Features g) with
  | None => mret tt
  | Some merge =>
      if (length ds <? 2)%nat then mret tt else
      let ds := if str_empty keepID then Some ds
                else (fun p => swap_front p.1 ds) <$> list_find (fun d => rd_ID d = keepID) ds in
      match ds with
      | None => mret tt
      | Some ds =>
          e ← call (merge ds);
          match e with
          | Some e => fail (mapErr e)
          | None => match fe_DirCacheFlush (rc_Features g) with None => mret tt | Some flush => modify flush end
          end
      end
  end.

(** [strings.ReplaceAll(name, "'", "\'")] *)
Fixpoint escape_quotes (s : string) : string :=
  match s with
  | EmptyString => EmptyString
  | String c s => if Ascii.eqb c "'"%char then String "\"%char (String c (escape_quotes s))
                  else String c (escape_quotes s)
  end.
Definition folder_query (name : string) : string :=
  ("name='" +:+ escape_quotes name +:+ "' and mimeType='application/vnd.google-apps.folder' and trashed=false")%string.

Definition first_parent (q : driveQueryFolder) : option string := qf_Parents q !! 0%nat.

Definition mergeQueryNamed (name keepID : string) : M B unit :=
  match fe_Command feat with
  | None => mret tt
  | Some cmd =>
      if str_empty name then mret tt else
      out ← call (cmd (folder_query name));
      match out with
      | inr e => if r_Is e ErrorCommandNotFound then mret tt else fail (mapErr e)
      | inl None => mret tt
      | inl (Some files) =>
          if (length files <? 2)%nat then mret tt else
          keepParent ← (if negb (str_empty keepID)
                        then mret (default EmptyString
                                    (List.find (fun q => String.eqb (qf_ID q) keepID &&
                                                         bool_decide (qf_Parents q <> [])) files
                                     ≫= first_parent))
                        else currentDirID EmptyString);
          if str_empty keepParent then mret tt else
          let ds := (fun q => mkRDir name (qf_ID q) None) <$>
                    List.filter (fun q => bool_decide (first_parent q = Some keepParent)) files in
          mergeDirSlice fs ds keepID
      end
  end.

Definition mergeRootDuplicatesViaParent (leaf keepID : string) : M B unit :=
  let parent := path_dir (t_root t) in
  let spec := (t_remote t +:+ ":")%string in
  let spec := if negb (String.eqb parent ".") && negb (str_empty parent) then (spec +:+ parent)%string else spec in
  r ← call (rc_NewFs spec);
  match r with
  | inr _ => mret tt
  | inl parentFs =>
      r ← call (rc_List parentFs EmptyString);
      match r with
      | inr e => if r_Is e ErrorDirNotFound then mret tt else fail (mapErr e)
      | inl es =>
          mergeDirSlice parentFs
            (List.filter (fun d => String.eqb (path_base (rd_Remote d)) leaf) (ForDir es)) keepID
      end
  end.

Definition mergeRootDuplicates : M B unit :=
  if str_empty (t_root t) || negb (bool_decide (is_Some (fe_MergeDirs feat))) then mret tt else
  let leaf := path_base (t_root t) in
  keepID ← currentDirID EmptyString;
  _ ← mergeQueryNamed leaf keepID;
  if bool_decide (is_Some (fe_Command feat)) && negb (str_empty keepID) then mret tt
  else mergeRootDuplicatesViaParent leaf keepID.

Definition mergeLayoutDuplicates : M B unit :=
  rootID ← currentDirID EmptyString;
  if str_empty rootID then mret tt
  else for_each layout (fun name => mergeQueryNamed name EmptyString).

Definition mergeDuplicateDirs (dir : string) : M B unit :=
  match fe_MergeDirs feat with
  | None => mret tt
  | Some merge =>
      r ← call (rc_List fs dir);
      match r with
      | inr e => if r_Is e ErrorDirNotFound then mret tt else fail (mapErr e)
      | inl es =>
          let byName := group_by rd_Remote (List.filter (fun d => visible_dir (rd_Remote d)) (ForDir es)) in
          let groups := List.filter (fun g => (2 <=? length g.2)%nat) (map_order _ byName) in
          _ ← for_each groups (fun g => e ← call (merge g.2); of_result (mapped e));
          match groups with [] => mret tt | _ :: _ => flushDirCache end
      end
  end.

(** One group of objects under one name: all but the newest are removed. *)
Definition keepNewest (objs : list RObj) : M B unit :=
  match objs with
  | o :: (_ :: _) as os =>
      let keep := newestObject o (tail objs) in
      for_each objs (fun o => if sameObject o keep then mret tt else drop (rc_Remove fs o))
  | _ => mret tt
  end.

Fixpoint dedupeTree (fuel : nat) (dir : string) : M B unit :=
  match fuel with
  | O => fail (EMsg "recursion limit")
  | S fuel =>
      _ ← mergeDuplicateDirs dir;
      r ← call (rc_List fs dir);
      match r with
      | inr e => if r_Is e ErrorDirNotFound then mret tt else fail (mapErr e)
      | inl es =>
          let objs := List.filter (fun o => negb (skipObject o)) (ForObject es) in
          _ ← for_each objs (fun o => if isTempName (ro_Remote o) then drop (rc_Remove fs o) else mret tt);
          let byName := if allowsDuplicateNames
                        then group_by ro_Remote (List.filter (fun o => negb (isTempName (ro_Remote o))) objs)
                        else [] in
          let dirs := unseen (List.filter visible_dir (rd_Remote <$> ForDir es)) in
          _ ← for_each (map_order _ byName) (fun g => keepNewest g.2);
          for_each dirs (dedupeTree fuel)
      end
  end.

Definition Dedupe : M B unit :=
  _ ← flushDirCache;
  _ ← mergeRootDuplicates;
  _ ← flushDirCache;
  _ ← mergeDuplicateDirs EmptyString;
  _ ← mergeLayoutDuplicates;
  _ ← flushDirCache;
  for_each layout (dedupeTree fuel).

(** ** Health and capabilities *)

Definition healthy : HealthStatus := mkHealthStatus HealthOK "ok" "".

Definition HealthCheck : M B HealthStatus :=
  if fe_BucketBased feat then
    r ← call (rc_List fs EmptyString);
    match r with
    | inl _ => mret healthy
    | inr e =>
        if r_Is e ErrorDirNotFound then mret healthy
        else if str_empty (t_root t) && listAllBucketsDenied ToLower e
        then mret (mkHealthStatus HealthOK
               "credentials accepted; listing all buckets is not permitted - enter a bucket name" "")
        else
          let st := ClassifyHealth (Some (mapErr e)) in
          mret (if listBucketDenied ToLower e
                then mkHealthStatus (hs_State st) (hs_Message st)
                       "Grant s3:ListBucket on this bucket. If the policy sets s3:prefix, enter that prefix (listing the bucket root is denied)."
                else st)
    end
  else
    match fe_About feat with
    | Some about =>
        e ← call about;
        mret (match e with Some e => ClassifyHealth (Some (mapErr e)) | None => healthy end)
    | None =>
        r ← call (rc_NewObject fs ".remnix-health-check");
        mret (match r with
              | inl _ => healthy
              | inr e => if isRcloneNotFound e then healthy else ClassifyHealth (Some (mapErr e))
              end)
    end.

Definition is_some {A} (o : option A) : bool := match o with Some _ => true | None => false end.

Definition capabilities : Capabilities :=
  let local := String.eqb (t_remote t) "local" || String.eqb (rc_Name fs) "local" || String.eqb (rc_Name fs) "memory" in
  mkCapabilities (is_some (fe_Move feat)) true (is_some (fe_Move feat) || fe_Copy feat)
    (is_some (fe_Purge feat)) (fe_BucketBased feat) (negb local).

Definition rclone : Transport B :=
  mkTransport B List_ Get Put PutAtomic Remove ListDirs Mkdir (tc_ListingExpensive capabilities)
    (Some ListShallow) (Some Dedupe) None.
End Transport.
