(* ===== verification/RcloneSpec.v ===== *)
(** What the rclone transport guarantees over a backend that may fail at any
    call: a write touches nothing but its key, leaves the whole data under it
    when it succeeds and never a torn object where the backend renames; the
    removal of duplicates never loses the newest copy of an object. *)

From S2P Require Import Prelude Transport Text Rclone.

(** * What is assumed of rclone

    A remote stores copies, and more than one may lie under one path on the
    backends that allow duplicate names. A copy is identified by its [ID]
    there, by its path elsewhere. [copies f b] is what is stored below the
    root of [f]. *)
Record Copy := mkCopy { cp_path : string; cp_data : bytes; cp_time : Time }.

Definition copy_of {F B} `{!Rclone F B} (f : F) (o : RObj) : string :=
  if fe_DuplicateFiles (rc_Features f) then objectID o else ro_Remote o.

(** The object describes a stored copy. *)
Definition shows (m : gmap string Copy) (c : string) (o : RObj) : Prop :=
  exists d, m !! c = Some (mkCopy (ro_Remote o) d (ro_ModTime o)) /\ ro_Size o = Z.of_nat (length d).

Definition under (key : string) (cp : option Copy) : Prop := forall x, cp = Some x -> cp_path x = key.

(** The documented behaviour of the library: listing and looking up change
    nothing and report what is stored; [Put] touches one copy, of the given
    path, also when it fails, and one of the right length is the whole data;
    [Remove] removes one copy or fails; [Move] moves a copy or fails;
    [MergeDirs] brings the copies of several directories together. *)
Class RcloneLaws (F B : Type) `{!Rclone F B} := {
  copies : F -> B -> gmap string Copy;
  law_list f dir b b' r : rc_List f dir b = (b', r) ->
    (forall g, copies g b' = copies g b) /\
    (forall es, r = inl es ->
       NoDup (copy_of f <$> ForObject es) /\
       (forall o, o ∈ ForObject es -> 0 <= ro_Size o -> shows (copies f b) (copy_of f o) o));
  law_put f key n data b b' obj err : rc_Put f key n data b = (b', (obj, err)) ->
    exists c, (forall c', c' <> c -> copies f b' !! c' = copies f b !! c') /\
      under key (copies f b !! c) /\ under key (copies f b' !! c) /\
      (forall o, obj = Some o ->
         copy_of f o = c /\ (fe_DuplicateFiles (rc_Features f) = true -> objectID o <> EmptyString)) /\
      (err = None -> exists o d tm, obj = Some o /\ copies f b' !! c = Some (mkCopy key d tm) /\
         ro_Size o = Z.of_nat (length d) /\ (length d = length data -> d = data));
  law_remove f o b b' e : rc_Remove f o b = (b', e) ->
    copies f b' = delete (copy_of f o) (copies f b) \/ (copies f b' = copies f b /\ e <> None);
  law_move f move o final b b' r cp :
    fe_Move (rc_Features f) = Some move -> move o final b = (b', r) ->
    copies f b !! copy_of f o = Some cp ->
    (copies f b' = copies f b /\ exists e, r = inr e) \/
    (exists c tm, copies f b' = <[c := mkCopy final (cp_data cp) tm]> (delete (copy_of f o) (copies f b)) /\
       (c = copy_of f o \/ under final (copies f b !! c)));
  law_mkdir (f : F) dir b g : copies g (rc_Mkdir f dir b).1 = copies g b;
  law_newfs spec b g : copies g (rc_NewFs (F := F) spec b).1 = copies g b;
  law_flush (f : F) flush b g : fe_DirCacheFlush (rc_Features f) = Some flush -> copies g (flush b) = copies g b;
  law_command (f : F) cmd q b g : fe_Command (rc_Features f) = Some cmd -> copies g (cmd q b).1 = copies g b;
  law_merge (f : F) merge ds b g : fe_MergeDirs (rc_Features f) = Some merge ->
    copies g b ⊆ copies g (merge ds b).1;
}.

(** * Runs over a list whose elements stay good *)

Lemma for_each_keeping {S A} (R : relation S) `{!PreOrder R} (P : A -> S -> Prop) (f : A -> M S unit) xs s :
  (forall x s, P x s -> R s (f x s).1) -> (forall x s s', P x s -> R s s' -> P x s') ->
  (forall x, x ∈ xs -> P x s) -> R s (for_each xs f s).1.
Proof.
  intros Hf HP. revert s. induction xs as [|x xs IH]; intros s Hxs; simpl; [reflexivity|].
  pose proof (Hf x s (Hxs x ltac:(left))) as H1. unfold mbind, M_bind.
  destruct (f x s) as [s1 [u|e]]; simpl in *; [|done].
  etrans; [exact H1|]. apply IH. intros y Hy. eapply HP; [|exact H1]. apply Hxs. by right.
Qed.

Lemma bind_tail {S A B C} (R : relation S) `{!PreOrder R} (m1 : M S A) (m2 : M S B) (m3 : M S C) s :
  R s ((_ ← m1; m2) s).1 -> mono R m3 -> R s ((_ ← m1; _ ← m2; m3) s).1.
Proof.
  rewrite !bind_run. destruct (m1 s) as [s1 [a|e]]; [|done]. rewrite bind_run.
  destruct (m2 s1) as [s2 [a'|e]]; [|done]. intros H H3. etrans; [exact H|apply H3].
Qed.

Section Frame.
Context {F B : Type} `{!Rclone F B} `{!RcloneLaws F B} (f : F).

(** ** What a sequence of removals may touch *)

Section Touch.
Context (mine : string -> Copy -> bool).

(** Only copies satisfying [mine] come or go. *)
Definition touches : relation B := fun b b' =>
  forall c cp, mine c cp = false -> copies f b !! c = Some cp <-> copies f b' !! c = Some cp.
#[global] Instance touches_preorder : PreOrder touches.
Proof.
  split; [by intros b c cp _|]. intros b1 b2 b3 H1 H2 c cp Hm. by rewrite (H1 c cp Hm), (H2 c cp Hm).
Qed.

Definition own (c : string) (b : B) : Prop := forall cp, copies f b !! c = Some cp -> mine c cp = true.

Lemma own_touches c b b' : own c b -> touches b b' -> own c b'.
Proof.
  intros Ho Ht cp Hc. destruct (mine c cp) eqn:Hm; [done|]. apply (Ht c cp Hm), Ho in Hc. congruence.
Qed.

Lemma touches_at c b b' :
  (forall c', c' <> c -> copies f b' !! c' = copies f b !! c') -> own c b -> own c b' -> touches b b'.
Proof.
  intros Hs Ho Ho' c' cp Hm. destruct (decide (c' = c)) as [->|Hn]; [|by rewrite Hs].
  split; intros Hc; [apply Ho in Hc|apply Ho' in Hc]; congruence.
Qed.

Lemma touches_same b b' : copies f b' = copies f b -> touches b b'.
Proof. intros E c cp _. by rewrite E. Qed.

Lemma remove_touches o b : own (copy_of f o) b -> touches b (rc_Remove f o b).1.
Proof.
  intros Ho. destruct (rc_Remove f o b) as [b' e] eqn:E. simpl.
  destruct (law_remove _ _ _ _ _ E) as [Hd|[Hd _]]; [|by apply touches_same].
  apply (touches_at (copy_of f o)); [intros c' Hn; by rewrite Hd, lookup_delete_ne|done|].
  intros cp. by rewrite Hd, lookup_delete_eq.
Qed.

(** A loop that removes some of the objects it is given. *)
Lemma sweep_touches (test : RObj -> bool) (g : RObj -> M B unit) objs b :
  (forall o b, test o = false -> (g o b).1 = b) ->
  (forall o b, test o = true -> (g o b).1 = (rc_Remove f o b).1) ->
  (forall o, o ∈ objs -> test o = true -> own (copy_of f o) b) ->
  touches b (for_each objs g b).1.
Proof.
  intros Hkeep Hrem Ho.
  apply (for_each_keeping touches (fun o b => test o = true -> own (copy_of f o) b)); [..|done].
  - intros o s H. destruct (test o) eqn:E; [rewrite Hrem by done; by apply remove_touches, H|by rewrite Hkeep].
  - intros o s s' H Ht Htest. eapply own_touches; [by apply H|done].
Qed.
End Touch.

Lemma touches_weaken (P Q : string -> Copy -> bool) b b' :
  (forall c cp, Q c cp = false -> P c cp = false) -> touches P b b' -> touches Q b b'.
Proof. intros H Ht c cp Hq. apply Ht. auto. Qed.
End Frame.

(** * Writing *)

Section Writing.
Context {F B : Type} `{!Rclone F B} `{!RcloneLaws F B}.
Context (ToLower : string -> string) (uuid : B -> string) (now : B -> Time) (t : RTransport F).
Local Notation f := (t_fs t).
Local Notation dup := (fe_DuplicateFiles (rc_Features f)).

(** The copies a write of [k] may touch: those under it, and its temporaries. *)
Definition about (k : string) (cp : Copy) : bool :=
  String.eqb (cp_path cp) k || has_prefix (k +:+ ".tmp-") (cp_path cp).

Lemma temp_not_key k p : has_prefix (k +:+ ".tmp-") p = true -> p <> k.
Proof.
  intros H%has_prefix_split. intros ->. apply (f_equal String.length) in H.
  rewrite !str_length_app in H. simpl in H. lia.
Qed.

(** A put, checked: it touches one copy, and if it succeeds the whole data is
    there. *)
Lemma upload_run key data b b' r :
  upload ToLower now t key data b = (b', r) ->
  exists c, (forall c', c' <> c -> copies f b' !! c' = copies f b !! c') /\
    under key (copies f b !! c) /\ under key (copies f b' !! c) /\
    (forall o, r = Ok o -> copy_of f o = c /\ (dup = true -> objectID o <> EmptyString) /\
       exists tm, copies f b' !! c = Some (mkCopy key data tm)).
Proof.
  unfold upload, mbind, M_bind, gets, call, drop.
  destruct (rc_Put f key (now b) data b) as [b1 [obj err]] eqn:E.
  destruct (law_put _ _ _ _ _ _ _ _ E) as (c & Hsame & Hb & Hb1 & Hobj & Hok).
  assert (forall o b2, obj = Some o -> (rc_Remove f o b1).1 = b2 ->
    (forall c', c' <> c -> copies f b2 !! c' = copies f b !! c') /\ under key (copies f b2 !! c)) as Hdrop.
  { intros o b2 Ho <-. destruct (Hobj o Ho) as [Hc _].
    destruct (rc_Remove f o b1) as [b2 e] eqn:Er. simpl.
    destruct (law_remove _ _ _ _ _ Er) as [Hd|[Hd _]]; rewrite Hd, ?Hc; [|done].
    split; [intros c' Hn; rewrite lookup_delete_ne by done; auto|by rewrite lookup_delete_eq]. }
  destruct err as [e|].
  - destruct obj as [o|]; simpl; intros [= <- <-]; exists c;
      [destruct (Hdrop o _ eq_refl eq_refl)|]; split_and!; done.
  - destruct (Hok eq_refl) as (o & d & tm & -> & Hd & Hsz & Hwhole). destruct (Hobj o eq_refl) as [Hc Hid].
    destruct (ro_Size o =? Z.of_nat (length data)) eqn:Es; simpl; intros [= <- <-]; exists c.
    + apply Z.eqb_eq in Es. rewrite Hwhole in Hd by lia.
      split_and!; try done. intros o' [= <-]. eauto.
    + destruct (Hdrop o _ eq_refl eq_refl). split_and!; done.
Qed.

Lemma objectsNamed_run key b b' r :
  objectsNamed t key b = (b', r) ->
  (forall g, copies g b' = copies g b) /\
  exists objs, r = Ok objs /\
    forall o, o ∈ objs -> shows (copies f b) (copy_of f o) o /\ ro_Remote o = trim_char slash key.
Proof.
  unfold objectsNamed, mbind, M_bind, call.
  destruct (rc_List f (listParent (trim_char slash key)) b) as [b1 rl] eqn:E.
  destruct (law_list _ _ _ _ _ E) as [Hs Hl].
  destruct rl as [es|e]; intros [= <- <-]; (split; [done|]); eexists; (split; [reflexivity|]).
  - intros o Hin. apply list_elem_of_In, filter_In in Hin as [Hin Hp]. apply list_elem_of_In in Hin.
    apply andb_true_iff in Hp as [Hsk Hk]. apply negb_true_iff, orb_false_iff in Hsk as [Hsz _].
    destruct (Hl es eq_refl) as [_ Hsh]. split; [apply Hsh; [done|lia]|by apply String.eqb_eq].
  - by intros o ?%elem_of_nil.
Qed.

(** A removed object was one of those shown. *)
Lemma shows_own (mine : string -> Copy -> bool) o b :
  shows (copies f b) (copy_of f o) o ->
  (forall tm d, mine (copy_of f o) (mkCopy (ro_Remote o) d tm) = true) -> own f mine (copy_of f o) b.
Proof. intros (d & Hd & _) Hm cp Hc. rewrite Hd in Hc. injection Hc as <-. apply Hm. Qed.

Lemma removeOthers_touches key keep b :
  trim_char slash key = key -> (dup = true -> objectID keep <> EmptyString) ->
  touches f (fun c cp => String.eqb (cp_path cp) key && negb (String.eqb c (copy_of f keep))) b
    (removeOthers t key keep b).1.
Proof.
  intros Hkey Hid. unfold removeOthers, allowsDuplicateNames. destruct dup eqn:Hdup; [|done]. simpl.
  unfold mbind, M_bind. destruct (objectsNamed t key b) as [b1 r] eqn:E.
  destruct (objectsNamed_run _ _ _ _ E) as (Hs & objs & -> & Hobjs). rewrite Hkey in Hobjs.
  etrans; [by apply touches_same, Hs|].
  apply (sweep_touches f _ (fun o => negb (sameObject o keep))).
  { intros o s. by destruct (sameObject o keep). }
  { intros o s. by destruct (sameObject o keep). }
  intros o Hin Hn. destruct (Hobjs o Hin) as [Hsh Hr]. rewrite <- (Hs f) in Hsh.
  apply shows_own; [done|]. intros tm d. simpl. rewrite Hr, String.eqb_refl. simpl.
  apply negb_true_iff, String.eqb_neq. unfold copy_of. rewrite Hdup. intros Heq.
  apply negb_true_iff, orb_false_iff in Hn as [_ Hn]. rewrite Heq in Hn. rewrite String.eqb_refl in Hn.
  specialize (Hid eq_refl). by destruct (objectID keep).
Qed.

Lemma removeTempsFor_touches key b :
  trim_char slash key = key ->
  touches f (fun _ cp => has_prefix (key +:+ ".tmp-") (cp_path cp)) b (removeTempsFor t key b).1.
Proof.
  intros Hkey. unfold removeTempsFor, mbind, M_bind, call. rewrite Hkey.
  destruct (rc_List f (listParent key) b) as [b1 r] eqn:E.
  destruct (law_list _ _ _ _ _ E) as [Hs Hl].
  etrans; [by apply touches_same, (Hs f)|]. destruct r as [es|e]; [|done].
  apply (sweep_touches f _ (fun o => negb (skipObject o) && has_prefix (key +:+ ".tmp-") (ro_Remote o))).
  { intros o s. destruct (skipObject o); [done|]. by destruct (has_prefix _ _). }
  { intros o s. destruct (skipObject o); [done|]. by destruct (has_prefix _ _). }
  intros o Hin [Hsk Hp]%andb_true_iff. apply negb_true_iff, orb_false_iff in Hsk as [Hsz _].
  destruct (Hl es eq_refl) as [_ Hsh]. apply shows_own; [|done]. rewrite (Hs f). apply Hsh; [done|lia].
Qed.

(** Copies only disappear. *)
Definition shrinks : relation B := fun b b' => copies f b' ⊆ copies f b.
#[local] Instance shrinks_preorder : PreOrder shrinks.
Proof. unfold shrinks. split; [by intros b; reflexivity|]. intros b1 b2 b3 H1 H2. by etrans. Qed.

Lemma remove_shrinks o b : shrinks b (rc_Remove f o b).1.
Proof.
  destruct (rc_Remove f o b) as [b' e] eqn:E. unfold shrinks. simpl.
  destruct (law_remove _ _ _ _ _ E) as [->|[-> _]]; [apply delete_subseteq|done].
Qed.

Lemma removeDestForMove_run src k b :
  trim_char slash k = k ->
  touches f (fun _ cp => String.eqb (cp_path cp) k) b (removeDestForMove ToLower t src k b).1 /\
  shrinks b (removeDestForMove ToLower t src k b).1.
Proof.
  intros Hk. unfold removeDestForMove, mbind at 1 3, M_bind at 1 3.
  destruct (objectsNamed t k b) as [b1 r] eqn:E.
  destruct (objectsNamed_run _ _ _ _ E) as (Hs & objs & -> & Hobjs). rewrite Hk in Hobjs. split.
  - etrans; [by apply touches_same, Hs|]. apply (sweep_touches f _ (fun o => negb (sameObject o src))).
    + intros o s. by destruct (sameObject o src).
    + intros o s. destruct (sameObject o src); [done|]. intros _. unfold mbind, M_bind, call, of_result.
      by destruct (rc_Remove f o s).
    + intros o Hin _. destruct (Hobjs o Hin) as [Hsh Hr]. rewrite <- (Hs f) in Hsh.
      apply shows_own; [done|]. intros tm d. simpl. by rewrite Hr, String.eqb_refl.
  - transitivity b1; [unfold shrinks; by rewrite Hs|]. apply mono_for_each; [apply _|].
    intros o _ s. destruct (sameObject o src); [done|]. pose proof (remove_shrinks o s) as H.
    unfold mbind, M_bind, call, of_result. by destruct (rc_Remove f o s).
Qed.

Lemma about_key k d tm : about k (mkCopy k d tm) = true.
Proof. unfold about. simpl. by rewrite String.eqb_refl. Qed.
Lemma about_temp k tmp d tm : has_prefix (k +:+ ".tmp-") tmp = true -> about k (mkCopy tmp d tm) = true.
Proof. unfold about. simpl. intros ->. by rewrite orb_true_r. Qed.
Lemma own_under k c b : under k (copies f b !! c) -> own f (fun _ => about k) c b.
Proof. intros H cp Hc. unfold about. by rewrite (H _ Hc), String.eqb_refl. Qed.
Lemma own_temp k tmp c b :
  has_prefix (k +:+ ".tmp-") tmp = true -> under tmp (copies f b !! c) -> own f (fun _ => about k) c b.
Proof. intros Hp H cp Hc. unfold about. rewrite (H _ Hc), Hp. by rewrite orb_true_r. Qed.

(** A move on the server, from a temporary of [k] to [k]. *)
Lemma move_touches k tmp data tm c tm' obj b b' :
  has_prefix (k +:+ ".tmp-") tmp = true -> copies f b !! copy_of f obj = Some (mkCopy tmp data tm) ->
  copies f b' = <[c := mkCopy k data tm']> (delete (copy_of f obj) (copies f b)) ->
  c = copy_of f obj \/ under k (copies f b !! c) -> touches f (fun _ => about k) b b'.
Proof.
  intros Hp Hobj Hb' Hc c' cp Hm. rewrite Hb'.
  destruct (decide (c' = c)) as [->|Hn].
  - rewrite lookup_insert_eq. split; intros Hl.
    + exfalso. destruct Hc as [->|Hu].
      * rewrite Hobj in Hl. injection Hl as <-. by rewrite (about_temp _ _ _ _ Hp) in Hm.
      * by rewrite (own_under _ _ _ Hu _ Hl) in Hm.
    + injection Hl as <-. by rewrite about_key in Hm.
  - rewrite lookup_insert_ne by done. destruct (decide (c' = copy_of f obj)) as [->|Hn'].
    + rewrite lookup_delete_eq, Hobj. split; [|done]. intros [= <-]. by rewrite (about_temp _ _ _ _ Hp) in Hm.
    + by rewrite lookup_delete_ne.
Qed.

(** Whatever fails on the way of a rename on the server, nothing but the key
    and its temporaries is touched and no torn object is left under the key. *)
Lemma rename_move_run move obj k data b b' r tmp tm :
  fe_Move (rc_Features f) = Some move ->
  trim_char slash k = k -> has_prefix (k +:+ ".tmp-") tmp = true ->
  copies f b !! copy_of f obj = Some (mkCopy tmp data tm) ->
  rename ToLower now t obj k data b = (b', r) ->
  touches f (fun _ => about k) b b' /\
  (forall c cp, copies f b' !! c = Some cp -> cp_path cp = k -> copies f b !! c = Some cp \/ cp_data cp = data) /\
  (r = Ok tt -> exists c cp, copies f b' !! c = Some cp /\ cp_path cp = k /\ cp_data cp = data).
Proof.
  intros Hmv Hk Hp Hobj. unfold rename. rewrite Hmv. unfold mbind, M_bind.
  destruct (removeDestForMove_run obj k b Hk) as [Ht1 Hs1].
  destruct (removeDestForMove ToLower t obj k b) as [b1 r1]. simpl in Ht1, Hs1.
  assert (touches f (fun _ => about k) b b1) as Ht.
  { eapply touches_weaken; [|exact Ht1]. intros c cp. unfold about. by destruct (String.eqb _ _). }
  assert (forall c cp, copies f b1 !! c = Some cp -> copies f b !! c = Some cp) as Hback.
  { intros c cp H. exact (lookup_weaken _ _ _ _ H Hs1). }
  destruct r1 as [u|e]; [|intros [= <- <-]; split_and!; [done|auto|done]].
  unfold call. destruct (move obj k b1) as [b2 rm] eqn:Em.
  assert (copies f b1 !! copy_of f obj = Some (mkCopy tmp data tm)) as Hobj1.
  { apply Ht1; [|done]. simpl. apply String.eqb_neq. by apply temp_not_key. }
  destruct (law_move _ _ _ _ _ _ _ _ Hmv Em Hobj1) as [[Hsame [e ->]]|(c & tm' & Hb2 & Hc)].
  - intros [= <- <-]. split_and!; [|rewrite Hsame; auto|done]. etrans; [exact Ht|]. by apply touches_same.
  - assert (touches f (fun _ => about k) b b2) as Ht2.
    { etrans; [exact Ht|]. eapply move_touches; eauto. }
    assert (forall c cp, copies f b2 !! c = Some cp -> cp_path cp = k -> copies f b !! c = Some cp \/ cp_data cp = data) as Htorn.
    { intros c' cp. rewrite Hb2. intros [[<- <-]|[_ [_ Hl]%lookup_delete_Some]]%lookup_insert_Some _; [by right|auto]. }
    assert (exists c cp, copies f b2 !! c = Some cp /\ cp_path cp = k /\ cp_data cp = data) as Hdone.
    { exists c. eexists. rewrite Hb2, lookup_insert_eq. done. }
    destruct rm; intros [= <- <-]; split_and!; done.
Qed.

(** Without one the data is written again, and this copy is not checked. *)
Lemma rename_put_run obj k data b b' r tmp tm :
  fe_Move (rc_Features f) = None -> has_prefix (k +:+ ".tmp-") tmp = true ->
  copies f b !! copy_of f obj = Some (mkCopy tmp data tm) ->
  rename ToLower now t obj k data b = (b', r) ->
  touches f (fun _ => about k) b b' /\
  (r = Ok tt -> exists c cp, copies f b' !! c = Some cp /\ cp_path cp = k).
Proof.
  intros Hmv Hp Hobj. unfold rename. rewrite Hmv. unfold mbind, M_bind, gets, call, drop.
  destruct (rc_Put f k (now b) data b) as [b1 [fo err]] eqn:E.
  destruct (law_put _ _ _ _ _ _ _ _ E) as (c & Hsame & Hb & Hb1 & Hfo & Hok).
  assert (touches f (fun _ => about k) b b1) as Ht1.
  { apply (touches_at f _ c); [done|by apply own_under..]. }
  assert (c <> copy_of f obj) as Hne.
  { intros ->. apply Hb in Hobj. simpl in Hobj. by apply (temp_not_key k tmp). }
  assert (touches f (fun _ => about k) b1 (rc_Remove f obj b1).1) as Ht2.
  { apply remove_touches. apply (own_temp k tmp); [done|]. intros x. rewrite Hsame, Hobj by done. by intros [= <-]. }
  pose proof (remove_touches f (fun c' _ => String.eqb c' (copy_of f obj)) obj b1 ltac:(intros ??; apply String.eqb_refl)) as Hkeep.
  destruct (rc_Remove f obj b1) as [b2 e2]. simpl in Ht2, Hkeep. destruct err as [e|].
  - destruct fo as [o|]; intros [= <- <-]; (split; [|done]); [|by etrans].
    etrans; [exact Ht1|]. etrans; [exact Ht2|]. apply remove_touches. eapply own_touches; [|exact Ht2].
    destruct (Hfo o eq_refl) as [-> _]. by apply own_under.
  - intros [= <- <-]. split; [by etrans|]. intros _. destruct (Hok eq_refl) as (o & d & tm' & _ & Hd & _).
    exists c, (mkCopy k d tm'). split; [|done]. apply Hkeep; [by apply String.eqb_neq|done].
Qed.

(** The uploaded object is where it was put, and nothing else was touched. *)
Lemma upload_key_run k key data b b' r :
  key = k \/ has_prefix (k +:+ ".tmp-") key = true ->
  upload ToLower now t key data b = (b', r) ->
  touches f (fun _ => about k) b b' /\
  (key <> k -> forall c cp, copies f b' !! c = Some cp -> cp_path cp = k -> copies f b !! c = Some cp) /\
  (forall o, r = Ok o -> (dup = true -> objectID o <> EmptyString) /\
     exists tm, copies f b' !! copy_of f o = Some (mkCopy key data tm)).
Proof.
  intros Hkey E. destruct (upload_run _ _ _ _ _ E) as (c & Hsame & Hb & Hb' & Hr). split_and!.
  - apply (touches_at f _ c); [done|..]; destruct Hkey as [->|Hp]; eauto using own_under, own_temp.
  - intros Hne c' cp Hc Hpath. destruct (decide (c' = c)) as [->|Hn]; [|by rewrite <- Hsame].
    apply Hb' in Hc. congruence.
  - intros o ->. destruct (Hr o eq_refl) as (<- & ? & ?). eauto.
Qed.

(** A write on a backend with duplicate names: the new copy outlives the
    removal of the others. *)
Lemma put_duplicates_run k data b b' r :
  trim_char slash k = k ->
  (obj ← upload ToLower now t k data; _ ← removeOthers t k obj; removeTempsFor t k) b = (b', r) ->
  touches f (fun _ => about k) b b' /\
  (r = Ok tt -> exists c cp, copies f b' !! c = Some cp /\ cp_path cp = k /\ cp_data cp = data).
Proof.
  intros Hk. unfold mbind, M_bind. destruct (upload ToLower now t k data b) as [b1 r1] eqn:E1.
  destruct (upload_key_run k k data b b1 r1 (or_introl eq_refl) E1) as (Ht1 & _ & Hr1).
  destruct r1 as [obj|e]; [|intros [= <- <-]; done]. destruct (Hr1 obj eq_refl) as (Hid & tm & Hobj).
  pose proof (removeOthers_touches k obj b1 Hk Hid) as Ht2.
  destruct (removeOthers t k obj b1) as [b2 [u|e]]; simpl in Ht2.
  - pose proof (removeTempsFor_touches k b2 Hk) as Ht3. destruct (removeTempsFor t k b2) as [b3 r3].
    simpl in Ht3. intros [= <- <-]. split.
    + etrans; [exact Ht1|]. etrans; [eapply touches_weaken; [|exact Ht2]|eapply touches_weaken; [|exact Ht3]];
        intros c cp; simpl; unfold about; intros [Hn1 Hn2]%orb_false_iff; by rewrite ?Hn1.
    + intros _. exists (copy_of f obj), (mkCopy k data tm). split; [|done]. apply Ht3.
      { simpl. destruct (has_prefix _ k) eqn:Hp; [by apply temp_not_key in Hp|done]. }
      apply Ht2; [|exact Hobj]. simpl. by rewrite !String.eqb_refl.
  - intros [= <- <-]. split; [|done]. etrans; [exact Ht1|]. eapply touches_weaken; [|exact Ht2].
    intros c cp. simpl. unfold about. intros [-> _]%orb_false_iff. done.
Qed.

(** A temporary uploaded and renamed. *)
Lemma put_renamed_run k u data b b' r :
  trim_char slash k = k ->
  (obj ← upload ToLower now t (k +:+ ".tmp-" +:+ u)%string data;
   res ← try (rename ToLower now t obj k data);
   match res with
   | Fail e => _ ← drop (rc_Remove f obj); fail e
   | Ok _ => mret tt
   end) b = (b', r) ->
  touches f (fun _ => about k) b b' /\
  (r = Ok tt -> exists c cp, copies f b' !! c = Some cp /\ cp_path cp = k /\
     (is_Some (fe_Move (rc_Features f)) -> cp_data cp = data)) /\
  (is_Some (fe_Move (rc_Features f)) -> forall c cp, copies f b' !! c = Some cp -> cp_path cp = k ->
     copies f b !! c = Some cp \/ cp_data cp = data).
Proof.
  intros Hk. set (tmp := (k +:+ ".tmp-" +:+ u)%string).
  assert (has_prefix (k +:+ ".tmp-") tmp = true) as Hp.
  { unfold tmp. rewrite <- str_app_assoc. apply has_prefix_self_app. }
  unfold mbind, M_bind, try. destruct (upload ToLower now t tmp data b) as [b1 r1] eqn:E1.
  destruct (upload_key_run k tmp data b b1 r1 (or_intror Hp) E1) as (Ht1 & Hold & Hr1).
  specialize (Hold (temp_not_key _ _ Hp)). destruct r1 as [obj|e].
  2:{ intros [= <- <-]. split_and!; [done|done|]. intros _ c cp Hc Hpath. left. eauto. }
  destruct (Hr1 obj eq_refl) as (_ & tm & Hobj).
  destruct (rename ToLower now t obj k data b1) as [b2 r2] eqn:E2.
  assert (touches f (fun _ => about k) b1 b2) as Ht2.
  { destruct (fe_Move (rc_Features f)) eqn:Hmv;
      [by eapply (rename_move_run _ obj k data b1)|by eapply (rename_put_run obj k data b1)]. }
  assert (is_Some (fe_Move (rc_Features f)) -> forall c cp, copies f b2 !! c = Some cp -> cp_path cp = k ->
    copies f b !! c = Some cp \/ cp_data cp = data) as Htorn.
  { intros [move Hmv] c cp Hc Hpath.
    destruct (rename_move_run _ _ _ _ _ _ _ _ _ Hmv Hk Hp Hobj E2) as (_ & H & _).
    destruct (H c cp Hc Hpath); [left|by right]. eauto. }
  destruct r2 as [[]|e]; intros [= <- <-]; split_and!; try done.
  - by etrans.
  - intros _. destruct (fe_Move (rc_Features f)) as [move|] eqn:Hmv.
    + destruct (rename_move_run _ _ _ _ _ _ _ _ _ Hmv Hk Hp Hobj E2) as (_ & _ & H).
      destruct (H eq_refl) as (c & cp & ? & ? & ?). exists c, cp. done.
    + destruct (rename_put_run _ _ _ _ _ _ _ _ Hmv Hp Hobj E2) as (_ & H).
      destruct (H eq_refl) as (c & cp & ? & ?). exists c, cp. split_and!; [done..|]. by intros [].
  - etrans; [exact Ht1|]. etrans; [exact Ht2|]. apply remove_touches.
    eapply own_touches; [|exact Ht2]. apply (own_temp k tmp); [done|]. intros x. rewrite Hobj. by intros [= <-].
  - intros Hmv c cp Hc. apply (Htorn Hmv). eapply lookup_weaken; [exact Hc|]. apply remove_shrinks.
Qed.

(** The parent directory is made first; no copy changes. *)
Lemma mkdir_parent_run (g : bool) parent b b' (r : result unit) :
  (if g then e ← call (rc_Mkdir f parent); of_result (mapped ToLower e) else mret tt) b = (b', r) ->
  copies f b' = copies f b.
Proof.
  destruct g; [|by intros [= <- _]]. unfold mbind, M_bind, call, of_result.
  pose proof (law_mkdir f parent b f) as Hl. destruct (rc_Mkdir f parent b) as [b1 e]. by intros [= <- _].
Qed.

(** C29: A write through rclone, over a backend every call of which may fail, touches only copies
    under its key and the key's own temporaries; if it reports success the key holds a copy, with
    exactly the data wherever the checked upload is the stored object (duplicate names, plain
    writes, backends that rename on the server); and an atomic write on a backend that renames never
    leaves a torn object: what lies under the key afterwards was there before or is the whole new
    data, whatever failed. *)
Theorem rclone_put_contract key rd atomic b b' res :
  let k := trim_char slash key in
  put ToLower uuid now t key rd atomic b = (b', res) ->
  touches f (fun _ => about k) b b' /\
  (res = Ok tt -> rd_err rd = None /\ exists c cp, copies f b' !! c = Some cp /\ cp_path cp = k /\
     (dup = true \/ atomic = false \/ is_Some (fe_Move (rc_Features f)) -> cp_data cp = rd_data rd)) /\
  (atomic = true -> dup = false -> is_Some (fe_Move (rc_Features f)) ->
   forall c cp, copies f b' !! c = Some cp -> cp_path cp = k ->
     copies f b !! c = Some cp \/ cp_data cp = rd_data rd).
Proof.
  intros k. unfold put. fold k. pose proof (trim_char_idem slash key : trim_char slash k = k) as Hk.
  rewrite bind_run. match goal with |- context [match ?m b with _ => _ end] => destruct (m b) as [b1 r1] eqn:E1 end.
  pose proof (mkdir_parent_run _ _ _ _ _ E1) as Hs. clear E1.
  assert (touches f (fun _ => about k) b b1) as Ht1 by by apply touches_same.
  destruct r1 as [u|e]; [|intros [= <- <-]; split_and!; [done|done|rewrite Hs; auto]].
  rewrite bind_run. unfold of_result, ReadAll. destruct (rd_err rd) as [e|].
  { intros [= <- <-]. split_and!; [done|done|rewrite Hs; auto]. }
  unfold allowsDuplicateNames. destruct dup eqn:Hdup.
  - intros E. destruct (put_duplicates_run _ _ _ _ _ Hk E) as [Ht Hok]. split_and!; [by etrans| |done].
    intros Hr. split; [done|]. destruct (Hok Hr) as (c & cp & ? & ? & ?). exists c, cp. done.
  - rewrite bind_run. unfold gets. simpl. destruct atomic; simpl.
    + assert (String.eqb (k +:+ ".tmp-" +:+ uuid b1) k = false) as ->.
      { apply String.eqb_neq, temp_not_key. rewrite <- str_app_assoc. apply has_prefix_self_app. }
      intros E. destruct (put_renamed_run _ _ _ _ _ _ Hk E) as (Ht & Hok & Htorn). split_and!; [by etrans|..].
      * intros Hr. split; [done|]. destruct (Hok Hr) as (c & cp & ? & ? & Hd). exists c, cp.
        split_and!; [done..|]. intros [?|[?|?]]; [done..|auto].
      * intros _ _. by rewrite Hs in Htorn.
    + rewrite bind_run. destruct (upload ToLower now t k (rd_data rd) b1) as [b2 r2] eqn:E2.
      destruct (upload_key_run k k _ _ _ _ (or_introl eq_refl) E2) as (Ht & _ & Hok).
      destruct r2 as [obj|e]; intros [= <- <-]; split_and!; try done; [by etrans| |by etrans].
      intros _. split; [done|]. destruct (Hok obj eq_refl) as (_ & tm & Hobj).
      exists (copy_of f obj). eexists. done.
Qed.
End Writing.

(** * Grouping and the newest object *)

Lemma group_add_names {A} (name : string) (a : A) m n :
  n ∈ (group_add name a m).*1 <-> n = name \/ n ∈ m.*1.
Proof.
  induction m as [|[n' l] m IH]; simpl; [set_solver|].
  destruct (String.eqb_spec n' name) as [->|Hn]; simpl; set_solver.
Qed.

Lemma group_add_nodup {A} (name : string) (a : A) m : NoDup m.*1 -> NoDup (group_add name a m).*1.
Proof.
  induction m as [|[n' l] m IH]; simpl; intros Hnd; [repeat constructor; by intros ?%elem_of_nil|].
  apply NoDup_cons in Hnd as [Hn Hnd]. destruct (String.eqb_spec n' name) as [->|Hne]; [by constructor|].
  rewrite fmap_cons. apply NoDup_cons. split; [|auto]. rewrite group_add_names. intros [?|?]; auto.
Qed.

Lemma group_add_elem {A} (name : string) (a : A) m g :
  NoDup m.*1 -> g ∈ group_add name a m ->
  (g.1 <> name /\ g ∈ m) \/
  (g.1 = name /\ ((exists l, g.2 = l ++ [a] /\ (name, l) ∈ m) \/ (g.2 = [a] /\ name ∉ m.*1))).
Proof.
  induction m as [|[n' l] m IH]; simpl; intros Hnd Hg.
  { apply list_elem_of_singleton in Hg as ->. right. split; [done|]. right. split; [done|]. by intros ?%elem_of_nil. }
  apply NoDup_cons in Hnd as [Hn Hnd]. destruct (String.eqb_spec n' name) as [->|Hne].
  - apply elem_of_cons in Hg as [->|Hg]; [right; split; [done|]; left; exists l; split; [done|left]|].
    left. split; [|by right]. intros E. apply Hn. rewrite <- E. by apply list_elem_of_fmap_2.
  - apply elem_of_cons in Hg as [->|Hg]; [left; split; [done|left]|].
    destruct (IH Hnd Hg) as [[? ?]|[? [(l' & ? & ?)|[? Hnot]]]]; [left; split; [done|by right]|right..].
    + split; [done|]. left. exists l'. split; [done|by right].
    + split; [done|]. right. split; [done|]. intros [E|?]%elem_of_cons; [by simpl in E|done].
Qed.

(** Every group is the elements of its name, in their order. *)
Lemma group_by_spec {A} (key : A -> string) l :
  NoDup (group_by key l).*1 /\
  (forall g, g ∈ group_by key l -> g.2 = List.filter (fun a => String.eqb (key a) g.1) l) /\
  (forall a, a ∈ l -> key a ∈ (group_by key l).*1).
Proof.
  induction l as [|a l (Hnd & Hg & Hc)] using rev_ind.
  { split_and!; [constructor|by intros g ?%elem_of_nil|by intros g ?%elem_of_nil]. }
  unfold group_by in *. rewrite foldl_snoc. set (m := foldl _ [] l) in *. split_and!.
  - by apply group_add_nodup.
  - intros g Hin. rewrite filter_snoc.
    destruct (group_add_elem _ _ _ _ Hnd Hin) as [[Hn Hm]|[Hn [(l' & Hl & Hm)|[Hl Hm]]]].
    + rewrite (proj2 (String.eqb_neq _ _)) by congruence. rewrite app_nil_r. auto.
    + rewrite Hn, String.eqb_refl, Hl. f_equal. exact (Hg _ Hm).
    + rewrite Hn, String.eqb_refl, Hl. destruct (List.filter _ l) as [|x xs] eqn:E; [done|]. exfalso.
      assert (In x (List.filter (fun y => String.eqb (key y) (key a)) l)) as Hx by (rewrite E; by left).
      apply filter_In in Hx as [Hx Hk]. apply String.eqb_eq in Hk. apply Hm. rewrite <- Hk.
      apply Hc. by apply list_elem_of_In.
  - intros x Hx. rewrite group_add_names. apply elem_of_app in Hx as [Hx|Hx%list_elem_of_singleton]; [auto|].
    left. by rewrite Hx.
Qed.

Lemma newestObject_max o os :
  newestObject o os ∈ o :: os /\ (forall x, x ∈ o :: os -> ro_ModTime x <= ro_ModTime (newestObject o os)).
Proof.
  unfold newestObject. induction os as [|y os [Hin Hmax]] using rev_ind.
  { simpl. split; [left|]. by intros x ->%list_elem_of_singleton. }
  rewrite foldl_snoc. set (keep := foldl _ o os) in *. destruct (ro_ModTime keep <? ro_ModTime y) eqn:E.
  - split; [set_solver|]. intros x Hx. apply Z.ltb_lt in E.
    assert (x ∈ o :: os \/ x = y) as [Hx'| ->] by set_solver; [|lia]. specialize (Hmax x Hx'). lia.
  - apply Z.ltb_ge in E. split; [set_solver|]. intros x Hx.
    assert (x ∈ o :: os \/ x = y) as [Hx'| ->] by set_solver; [auto|lia].
Qed.

(** * Removing duplicates *)

Section Dedupe.
Context {F B : Type} `{!Rclone F B} `{!RcloneLaws F B}.
Context (ToLower : string -> string) (map_order : forall A : Type, list (string * A) -> list (string * A)).
Context (Horder : forall A l, map_order A l ≡ₚ l) (t : RTransport F).
Local Notation f := (t_fs t).

(** Merging directories only brings copies in. *)
Definition grows : relation B := fun b b' => forall g : F, copies g b ⊆ copies g b'.
#[local] Instance grows_preorder : PreOrder grows.
Proof. unfold grows. split; [by intros b g; reflexivity|]. intros b1 b2 b3 H1 H2 g. etrans; [apply H1|apply H2]. Qed.

(** No object is lost: each still has a copy, at least as new. Temporaries do
    not count. *)
Definition thins : relation B := fun b b' => forall c cp,
  copies f b !! c = Some cp -> isTempName (cp_path cp) = false ->
  exists c' cp', copies f b' !! c' = Some cp' /\ cp_path cp' = cp_path cp /\ cp_time cp <= cp_time cp'.
#[local] Instance thins_preorder : PreOrder thins.
Proof.
  split; [intros b c cp Hc _; eauto with lia|]. intros b1 b2 b3 H1 H2 c cp Hc Ht.
  destruct (H1 c cp Hc Ht) as (c1 & cp1 & Hc1 & Hp1 & ?).
  destruct (H2 c1 cp1 Hc1) as (c2 & cp2 & Hc2 & Hp2 & ?); [by rewrite Hp1|].
  exists c2, cp2. split; [done|]. split; [congruence|lia].
Qed.

Lemma grows_thins b b' : grows b b' -> thins b b'.
Proof. intros H c cp Hc _. exists c, cp. split; [by eapply lookup_weaken|]. split; [done|lia]. Qed.

Lemma touches_temps_thins b b' : touches f (fun _ cp => isTempName (cp_path cp)) b b' -> thins b b'.
Proof. intros H c cp Hc Hn. exists c, cp. split; [by apply (H c cp Hn)|]. split; [done|lia]. Qed.

Lemma list_grows (g : F) dir : mono grows (call (rc_List g dir)).
Proof.
  intros b g'. unfold call. destruct (rc_List g dir b) as [b' r] eqn:E.
  by destruct (law_list _ _ _ _ _ E) as [-> _].
Qed.
Lemma newfs_grows spec : mono grows (call (rc_NewFs (F := F) spec)).
Proof. intros b g. unfold call. pose proof (law_newfs spec b g) as H. destruct (rc_NewFs spec b). by rewrite <- H. Qed.
Lemma flush_grows (g : F) flush : fe_DirCacheFlush (rc_Features g) = Some flush -> mono grows (modify flush).
Proof. intros Hf b g'. simpl. by rewrite (law_flush _ _ _ _ Hf). Qed.
Lemma command_grows (g : F) cmd q : fe_Command (rc_Features g) = Some cmd -> mono grows (call (cmd q)).
Proof.
  intros Hf b g'. unfold call. pose proof (law_command _ _ q b g' Hf) as H.
  destruct (cmd q b). by rewrite <- H.
Qed.
Lemma merge_grows (g : F) merge ds : fe_MergeDirs (rc_Features g) = Some merge -> mono grows (call (merge ds)).
Proof. intros Hf b g'. unfold call. pose proof (law_merge _ _ ds b g' Hf) as H. by destruct (merge ds b). Qed.
#[local] Hint Resolve list_grows newfs_grows flush_grows command_grows merge_grows : remnix.

Lemma flushDirCache_grows : mono grows (flushDirCache t).
Proof. unfold flushDirCache. mono_solve. Qed.
Lemma currentDirID_grows dir : mono grows (currentDirID t dir).
Proof. unfold currentDirID. mono_solve. Qed.
Lemma mergeDirSlice_grows (g : F) ds keepID : mono grows (mergeDirSlice ToLower g ds keepID).
Proof. unfold mergeDirSlice. mono_solve. Qed.
#[local] Hint Resolve flushDirCache_grows currentDirID_grows mergeDirSlice_grows : remnix.
Lemma mergeQueryNamed_grows name keepID : mono grows (mergeQueryNamed ToLower t name keepID).
Proof. unfold mergeQueryNamed. mono_solve. Qed.
Lemma mergeViaParent_grows leaf keepID : mono grows (mergeRootDuplicatesViaParent ToLower t leaf keepID).
Proof. unfold mergeRootDuplicatesViaParent. mono_solve. Qed.
#[local] Hint Resolve mergeQueryNamed_grows mergeViaParent_grows : remnix.
Lemma mergeRootDuplicates_grows : mono grows (mergeRootDuplicates ToLower t).
Proof. unfold mergeRootDuplicates. mono_solve. Qed.
Lemma mergeLayoutDuplicates_grows : mono grows (mergeLayoutDuplicates ToLower t).
Proof. unfold mergeLayoutDuplicates. mono_solve. Qed.
Lemma mergeDuplicateDirs_grows dir : mono grows (mergeDuplicateDirs ToLower map_order t dir).
Proof. unfold mergeDuplicateDirs. mono_solve. Qed.

Lemma grows_mono_thins {A} (m : M B A) : mono grows m -> mono thins m.
Proof. intros H b. apply grows_thins, H. Qed.

(** A group of listed objects under one name, as long as its copies are there. *)
Definition group_ok (g : string * list RObj) (b : B) : Prop :=
  NoDup (copy_of f <$> g.2) /\
  forall o, o ∈ g.2 -> ro_Remote o = g.1 /\ shows (copies f b) (copy_of f o) o.

Lemma group_ok_touches g b b' :
  touches f (fun _ cp => negb (String.eqb (cp_path cp) g.1)) b b' -> group_ok g b -> group_ok g b'.
Proof.
  intros Ht [Hnd Hg]. split; [done|]. intros o Ho. destruct (Hg o Ho) as [Hr (d & Hd & Hsz)].
  split; [done|]. exists d. split; [|done]. apply Ht; [|done]. simpl. by rewrite Hr, String.eqb_refl.
Qed.

(** Keeping the newest: the others of the group may go, the newest stays. *)
Lemma keepNewest_run g b :
  group_ok g b ->
  touches f (fun _ cp => String.eqb (cp_path cp) g.1) b (keepNewest t g.2 b).1 /\
  thins b (keepNewest t g.2 b).1.
Proof.
  intros [Hnd Hg]. unfold keepNewest. destruct (g.2) as [|o [|o' os]] eqn:Eg; [done..|].
  set (keep := newestObject o (tail (o :: o' :: os))). destruct (newestObject_max o (o' :: os)) as [Hk Hmax].
  change (newestObject o (o' :: os)) with keep in *. set (objs := o :: o' :: os) in *.
  assert (touches f (fun c cp => String.eqb (cp_path cp) g.1 && negb (String.eqb c (copy_of f keep)) &&
            (cp_time cp <=? ro_ModTime keep)) b
    (for_each objs (fun o => if sameObject o keep then mret tt else drop (rc_Remove f o)) b).1) as Ht.
  { apply (sweep_touches f _ (fun o => negb (sameObject o keep))).
    - intros x s. by destruct (sameObject x keep).
    - intros x s. by destruct (sameObject x keep).
    - intros x Hx Hn. destruct (Hg x Hx) as [Hr (d & Hd & _)]. intros cp. rewrite Hd. intros [= <-]. simpl.
      rewrite Hr, String.eqb_refl. apply andb_true_iff. split; [|apply Z.leb_le; auto]. simpl.
      apply negb_true_iff, String.eqb_neq. intros E.
      rewrite (NoDup_fmap_inj_elem _ _ _ _ Hnd Hx Hk E) in Hn. unfold sameObject in Hn.
      by rewrite Nat.eqb_refl in Hn. }
  split.
  - eapply touches_weaken; [|exact Ht]. intros c cp. simpl. by intros ->.
  - intros c cp Hc _. destruct (Hg keep Hk) as [Hkr (d & Hd & _)].
    destruct (String.eqb (cp_path cp) g.1 && (cp_time cp <=? ro_ModTime keep)) eqn:E.
    + apply andb_true_iff in E as [Hp%String.eqb_eq Htm%Z.leb_le].
      exists (copy_of f keep). eexists. split; [apply Ht; [|exact Hd]|].
      { simpl. by rewrite String.eqb_refl, andb_false_r. }
      simpl. split; [congruence|done].
    + exists c, cp. split; [apply Ht; [|done]|split; [done|lia]]. simpl.
      destruct (String.eqb (cp_path cp) g.1); [|done]. simpl in *. by rewrite E, andb_false_r.
Qed.

Lemma keepNewest_groups gs b :
  NoDup gs.*1 -> (forall g, g ∈ gs -> group_ok g b) ->
  thins b (for_each gs (fun g => keepNewest t g.2) b).1.
Proof.
  revert b. induction gs as [|g gs IH]; intros b; [done|]. rewrite fmap_cons, NoDup_cons.
  intros [Hn Hnd] Hg. simpl. rewrite bind_run.
  destruct (keepNewest_run g b (Hg g ltac:(left))) as [Ht Hth].
  destruct (keepNewest t g.2 b) as [b1 [u|e]]; simpl in *; [|done].
  etrans; [exact Hth|]. apply IH; [done|]. intros g' Hg'. eapply group_ok_touches; [|apply Hg; by right].
  eapply touches_weaken; [|exact Ht]. intros c cp. simpl. intros E%negb_false_iff%String.eqb_eq.
  apply String.eqb_neq. rewrite E. intros E'. apply Hn. rewrite <- E'. by apply list_elem_of_fmap_2.
Qed.

Lemma skipObject_size o : skipObject o = false -> 0 <= ro_Size o.
Proof. intros [H _]%orb_false_iff. lia. Qed.

(** One directory: the listed temporaries go, of the objects under one name
    the newest stays. *)
Lemma dedupe_level_thins objs b :
  NoDup (copy_of f <$> objs) -> (forall o, o ∈ objs -> shows (copies f b) (copy_of f o) o) ->
  thins b ((_ ← for_each objs (fun o => if isTempName (ro_Remote o) then drop (rc_Remove f o) else mret tt);
            for_each (map_order _ (if allowsDuplicateNames t
                                   then group_by ro_Remote (List.filter (fun o => negb (isTempName (ro_Remote o))) objs)
                                   else [])) (fun g => keepNewest t g.2)) b).1.
Proof.
  intros Hnd Hsh. rewrite bind_run.
  assert (touches f (fun _ cp => isTempName (cp_path cp)) b
    (for_each objs (fun o => if isTempName (ro_Remote o) then drop (rc_Remove f o) else mret tt) b).1) as Ht.
  { apply (sweep_touches f _ (fun o => isTempName (ro_Remote o)));
      [by intros o s ->|by intros o s ->|]. intros o Ho Htmp. apply shows_own; auto. }
  destruct (for_each objs _ b) as [b1 [u|e]]; simpl in Ht; [|by apply touches_temps_thins].
  etrans; [by apply touches_temps_thins|].
  destruct (allowsDuplicateNames t); [|rewrite (proj1 (Permutation_nil_r _) (Horder _ [])); done].
  set (objs' := List.filter (fun o => negb (isTempName (ro_Remote o))) objs).
  destruct (group_by_spec ro_Remote objs') as (Hnames & Hgroups & _). apply keepNewest_groups.
  { by rewrite Horder. }
  intros g Hg. rewrite Horder in Hg. rewrite (surjective_pairing g), (Hgroups g Hg). split; simpl.
  { by do 2 apply NoDup_fmap_filter. }
  intros o Ho. apply list_elem_of_In, filter_In in Ho as [Ho Hr]. apply filter_In in Ho as [Ho Hn].
  apply list_elem_of_In in Ho. apply String.eqb_eq in Hr. apply negb_true_iff in Hn. split; [done|].
  destruct (Hsh o Ho) as (d & Hd & Hsz). exists d. split; [|done]. by apply Ht.
Qed.

Lemma dedupeTree_thins fuel dir : mono thins (dedupeTree ToLower map_order t fuel dir).
Proof.
  revert dir. induction fuel as [|fuel IH]; intros dir; [apply mono_fail, _|]. cbn [dedupeTree].
  apply mono_bind; [apply _|by apply grows_mono_thins, mergeDuplicateDirs_grows|]. intros _ b.
  rewrite bind_run. unfold call. destruct (rc_List f dir b) as [b1 r] eqn:E.
  destruct (law_list _ _ _ _ _ E) as [Hs Hl].
  assert (thins b b1) as H1 by (apply grows_thins; intros g; by rewrite Hs).
  destruct r as [es|e]; [|by destruct (r_Is e ErrorDirNotFound)]. etrans; [exact H1|].
  destruct (Hl es eq_refl) as [Hnd Hsh].
  apply (bind_tail thins); [|by apply mono_for_each; [apply _|auto]].
  apply dedupe_level_thins; [by apply NoDup_fmap_filter|].
  intros o Ho. apply list_elem_of_In, filter_In in Ho as [Ho Hk%negb_true_iff]. rewrite (Hs f).
  apply Hsh; [by apply list_elem_of_In|by apply skipObject_size].
Qed.

(** C30: The removal of duplicates never loses an object, whatever calls of the backend fail on the
    way and in whatever order the groups are visited: every object that had a copy before Dedupe
    (temporaries apart) has one afterwards, at least as new; merged directories only bring copies
    in. *)
Theorem dedupe_keeps_newest fuel : mono thins (Dedupe ToLower map_order fuel t).
Proof.
  unfold Dedupe. do 6 (refine (mono_bind thins _ _ _ _);
    [solve [auto using grows_mono_thins, flushDirCache_grows, mergeRootDuplicates_grows,
              mergeDuplicateDirs_grows, mergeLayoutDuplicates_grows] | intros _]).
  apply mono_for_each; [apply _|]. intros dir _. apply dedupeTree_thins.
Qed.
End Dedupe.

(** * The recursions end

    The depth of the directories of a remote is finite, and listing, merging
    and removing do not raise it. *)

Definition dir_depth (d : string) : nat := if str_empty d then 0 else length (split_on slash d).

Class RcloneDepth (F B : Type) `{!Rclone F B} := {
  rc_bound : F -> B -> nat;
  bound_list f dir b b' r : rc_List f dir b = (b', r) ->
    (rc_bound f b' <= rc_bound f b)%nat /\
    (forall es d, r = inl es -> d ∈ ForDir es ->
       (dir_depth dir < dir_depth (rd_Remote d) <= rc_bound f b)%nat);
  bound_remove (f : F) o b : (rc_bound f (rc_Remove f o b).1 <= rc_bound f b)%nat;
  bound_rmdir (f : F) dir b : (rc_bound f (rc_Rmdir f dir b).1 <= rc_bound f b)%nat;
  bound_flush (f : F) flush b : fe_DirCacheFlush (rc_Features f) = Some flush ->
    (rc_bound f (flush b) <= rc_bound f b)%nat;
  bound_merge (f : F) merge ds b : fe_MergeDirs (rc_Features f) = Some merge ->
    (rc_bound f (merge ds b).1 <= rc_bound f b)%nat;
}.

(** Two loops whose bodies agree on the states the first one reaches. *)
Lemma foldl_agree {S A} (R : relation S) `{!PreOrder R} (f g : S -> A -> S) xs s :
  (forall x s', x ∈ xs -> R s s' -> f s' x = g s' x) -> (forall x s', x ∈ xs -> R s s' -> R s' (g s' x)) ->
  foldl f s xs = foldl g s xs /\ R s (foldl g s xs).
Proof.
  revert s. induction xs as [|x xs IH]; intros s Hfg HR; simpl; [done|].
  rewrite Hfg by (reflexivity || left). assert (R s (g s x)) as H1 by (apply HR; [left|reflexivity]).
  destruct (IH (g s x)) as [-> H2].
  - intros y s' Hy Hs. apply Hfg; [by right|by etrans].
  - intros y s' Hy Hs. apply HR; [by right|by etrans].
  - split; [done|by etrans].
Qed.

Lemma for_each_agree {S A} (R : relation S) `{!PreOrder R} (f g : A -> M S unit) xs s :
  (forall x s', x ∈ xs -> R s s' -> f x s' = g x s') -> (forall x, mono R (g x)) ->
  for_each xs f s = for_each xs g s.
Proof.
  intros Hfg HR. revert s Hfg. induction xs as [|x xs IH]; intros s Hfg; [done|]. simpl. rewrite !bind_run.
  rewrite Hfg by (reflexivity || left). pose proof (HR x s) as H1.
  destruct (g x s) as [s1 [u|e]]; simpl in H1; [|done].
  apply IH. intros y s' Hy Hs. apply Hfg; [by right|by etrans].
Qed.

Section Fuel.
Context {F B : Type} `{!Rclone F B} `{!RcloneDepth F B}.
Context (ToLower : string -> string) (map_order : forall A : Type, list (string * A) -> list (string * A)).
Context (t : RTransport F).
Local Notation f := (t_fs t).

Definition lowers : relation B := fun b b' => (rc_bound f b' <= rc_bound f b)%nat.
#[local] Instance lowers_preorder : PreOrder lowers.
Proof. unfold lowers. split; [intros b; lia|intros b1 b2 b3; lia]. Qed.

#[local] Instance lowers_fst_preorder {A} : PreOrder (fun s s' : B * A => lowers s.1 s'.1).
Proof. split; [by intros s|]. intros s1 s2 s3 H1 H2. by etrans. Qed.

Lemma list_lowers dir b : lowers b (rc_List f dir b).1.
Proof. destruct (rc_List f dir b) as [b' r] eqn:E. by apply bound_list in E as [? _]. Qed.

Lemma foldl_lowers {A E} (step : B * E -> A -> B * E) xs st :
  (forall st x, lowers st.1 (step st x).1) -> lowers st.1 (foldl step st xs).1.
Proof.
  intros Hs. revert st. induction xs as [|x xs IH]; intros st; simpl; [reflexivity|].
  etrans; [apply Hs|apply IH].
Qed.

Lemma walk_into_lowers rec :
  (forall dir b, lowers b (rec dir b).1) -> forall st d, lowers st.1 (walk_into rec st d).1.
Proof.
  intros Hr [b [out [e|]]] d; [reflexivity|]. simpl. pose proof (Hr (rd_Remote d) b) as H.
  by destruct (rec (rd_Remote d) b) as [? [? ?]].
Qed.
Lemma remove_next_lowers st o : lowers st.1 (remove_next t st o).1.
Proof. destruct st as [b [e|]]; [reflexivity|]. apply bound_remove. Qed.
Lemma remove_into_lowers rec :
  (forall dir b, lowers b (rec dir b).1) -> forall st d, lowers st.1 (remove_into t rec st d).1.
Proof.
  intros Hr [b [e|]] d; [reflexivity|]. simpl. pose proof (Hr (rd_Remote d) b) as H.
  destruct (rec (rd_Remote d) b) as [b1 [e|]]; simpl in *; [done|]. etrans; [exact H|apply bound_rmdir].
Qed.

Lemma walk_lowers n dir b : lowers b (walk t n dir b).1.
Proof.
  revert dir b. induction n as [|n IH]; intros dir b; simpl; [reflexivity|].
  pose proof (list_lowers dir b) as Hl. destruct (rc_List f dir b) as [b1 [es|e]]; simpl in *; [|done].
  etrans; [exact Hl|]. exact (foldl_lowers _ _ (b1, (_, None)) (walk_into_lowers _ IH)).
Qed.

Lemma walkRemove_lowers n dir b : lowers b (walkRemove t n dir b).1.
Proof.
  revert dir b. induction n as [|n IH]; intros dir b; simpl; [reflexivity|].
  pose proof (list_lowers dir b) as Hl. destruct (rc_List f dir b) as [b1 [es|e]]; simpl in *; [|done].
  pose proof (foldl_lowers _ (ForObject es) (b1, None) remove_next_lowers) as Hr.
  destruct (foldl (remove_next t) (b1, None) (ForObject es)) as [b2 [e|]]; simpl in Hr; [by etrans|].
  etrans; [exact Hl|]. etrans; [exact Hr|]. exact (foldl_lowers _ _ (b2, None) (remove_into_lowers _ IH)).
Qed.

(** The listed directories are deeper than the one listed, and not deeper than
    the bound: there are none at the bound. *)
Lemma list_none dir b b1 es :
  (rc_bound f b <= dir_depth dir)%nat -> rc_List f dir b = (b1, inl es) -> ForDir es = [].
Proof.
  intros Hb E. apply bound_list in E as [_ Hd]. destruct (ForDir es) as [|d ds] eqn:Ed; [done|].
  specialize (Hd es d eq_refl). rewrite Ed in Hd. specialize (Hd ltac:(left)). lia.
Qed.

(** With fuel above the remaining depth the result is that of any more fuel. *)
Lemma walk_enough n m dir b :
  (rc_bound f b <= dir_depth dir + n)%nat -> walk t (S n + m) dir b = walk t (S n) dir b.
Proof.
  revert dir b. induction n as [|n IH]; intros dir b Hb.
  - simpl. destruct (rc_List f dir b) as [b1 [es|e]] eqn:E; [|done].
    rewrite (list_none dir b b1 es) by (done || lia). done.
  - change (walk t (S (S n) + m)) with (walk t (S (S n + m))). cbn [walk].
    destruct (rc_List f dir b) as [b1 [es|e]] eqn:E; [|done]. apply bound_list in E as [Hb1 Hd].
    refine (proj1 (foldl_agree (fun s s' => lowers s.1 s'.1) _ _ _ _ _ _)).
    + intros d [b' [out [e|]]] Hin Hs; [done|]. unfold lowers in Hs. simpl in Hs.
      specialize (Hd es d eq_refl Hin). cbn [walk_into].
      rewrite (IH (rd_Remote d) b') by lia. done.
    + intros d st _ _. apply walk_into_lowers. intros. apply (walk_lowers (S n)).
Qed.

Lemma walkRemove_enough n m dir b :
  (rc_bound f b <= dir_depth dir + n)%nat -> walkRemove t (S n + m) dir b = walkRemove t (S n) dir b.
Proof.
  revert dir b. induction n as [|n IH]; intros dir b Hb.
  - simpl. destruct (rc_List f dir b) as [b1 [es|e]] eqn:E; [|done].
    rewrite (list_none dir b b1 es) by (done || lia). done.
  - change (walkRemove t (S (S n) + m)) with (walkRemove t (S (S n + m))). cbn [walkRemove].
    destruct (rc_List f dir b) as [b1 [es|e]] eqn:E; [|done]. apply bound_list in E as [Hb1 Hd].
    pose proof (foldl_lowers _ (ForObject es) (b1, None) remove_next_lowers) as Hr.
    destruct (foldl (remove_next t) (b1, None) (ForObject es)) as [b2 [e|]]; [done|].
    refine (proj1 (foldl_agree (fun s s' => lowers s.1 s'.1) _ _ _ _ _ _)).
    + intros d [b' [e|]] Hin Hs; [done|]. unfold lowers in Hs, Hr. simpl in Hs, Hr.
      specialize (Hd es d eq_refl Hin). cbn [remove_into].
      rewrite (IH (rd_Remote d) b') by lia. done.
    + intros d st _ _. apply remove_into_lowers. intros. apply (walkRemove_lowers (S n)).
Qed.

Lemma call_list_lowers dir : mono lowers (call (rc_List f dir)).
Proof. intros b. unfold call. pose proof (list_lowers dir b) as H. by destruct (rc_List f dir b). Qed.
Lemma drop_remove_lowers o : mono lowers (drop (rc_Remove f o)).
Proof. intros b. apply bound_remove. Qed.
Lemma call_merge_lowers merge ds : fe_MergeDirs (rc_Features f) = Some merge -> mono lowers (call (merge ds)).
Proof. intros Hm b. unfold call. pose proof (bound_merge f merge ds b Hm) as H. by destruct (merge ds b). Qed.
Lemma flush_lowers flush : fe_DirCacheFlush (rc_Features f) = Some flush -> mono lowers (modify flush).
Proof. intros Hm b. exact (bound_flush f flush b Hm). Qed.
#[local] Hint Resolve call_list_lowers drop_remove_lowers call_merge_lowers flush_lowers : remnix.

Lemma mergeDuplicateDirs_lowers dir : mono lowers (mergeDuplicateDirs ToLower map_order t dir).
Proof. unfold mergeDuplicateDirs, flushDirCache. mono_solve. Qed.
Lemma keepNewest_lowers objs : mono lowers (keepNewest t objs).
Proof. unfold keepNewest. mono_solve. Qed.
#[local] Hint Resolve mergeDuplicateDirs_lowers keepNewest_lowers : remnix.

Lemma dedupeTree_lowers n dir : mono lowers (dedupeTree ToLower map_order t n dir).
Proof. revert dir. induction n as [|n IH]; intros dir; cbn [dedupeTree]; mono_solve. Qed.

Lemma elem_of_unseen names n : n ∈ unseen names -> n ∈ names.
Proof.
  unfold unseen. induction names as [|x names IH] using rev_ind; [done|]. rewrite foldl_snoc.
  case_bool_decide; rewrite !elem_of_app; [auto|]. intros [?|?]; auto.
Qed.

(** The same step after two runs of one program. *)
Lemma bind_agree {A C} (m : M B A) (g h : A -> M B C) b :
  (forall b1 a, m b = (b1, Ok a) -> g a b1 = h a b1) -> (m ≫= g) b = (m ≫= h) b.
Proof. intros H. rewrite !bind_run. destruct (m b) as [b1 [a|e]]; [auto|done]. Qed.

Lemma dedupeTree_enough n m dir b :
  (rc_bound f b <= dir_depth dir + n)%nat ->
  dedupeTree ToLower map_order t (S n + m) dir b = dedupeTree ToLower map_order t (S n) dir b.
Proof.
  revert dir b. induction n as [|n IH]; intros dir b Hb; cbn [Nat.add]; cbn [dedupeTree].
  all: apply bind_agree; intros b1 ? E1; apply bind_agree; intros b2 r E2.
  all: pose proof (mono_run _ _ _ _ _ (mergeDuplicateDirs_lowers dir) E1) as L1.
  all: unfold call in E2; destruct (rc_List f dir b1) as [b2' r'] eqn:E; injection E2 as -> ->.
  all: destruct r as [es|e]; [|done]; apply bind_agree; intros b3 ? E3; apply bind_agree; intros b4 ? E4.
  - rewrite (list_none dir b1 b2 es) by (done || unfold lowers in L1; lia). done.
  - apply bound_list in E as [L2 Hd].
    apply (mono_run lowers) in E3; [|mono_solve]. apply (mono_run lowers) in E4; [|mono_solve].
    apply (for_each_agree lowers); [|intros; apply (dedupeTree_lowers (S n))].
    intros d b' Hin L5. apply elem_of_unseen in Hin.
    apply list_elem_of_In, filter_In in Hin as [Hin _]. apply list_elem_of_In, list_elem_of_fmap in Hin as (x & -> & Hx).
    specialize (Hd es x eq_refl Hx). unfold lowers in *. apply (IH (rd_Remote x) b'). lia.
Qed.

(** C31: The recursions over the directories of a remote end: listing, recursive removal and the
    removal of duplicates recurse to the depth of the directories and no further, whatever the calls
    return, so that the results with fuel for that depth are the results with any more fuel. *)
Theorem rclone_recursion_ends n m dir b :
  (rc_bound f b <= dir_depth dir + n)%nat ->
  walk t (S n + m) dir b = walk t (S n) dir b /\
  walkRemove t (S n + m) dir b = walkRemove t (S n) dir b /\
  dedupeTree ToLower map_order t (S n + m) dir b = dedupeTree ToLower map_order t (S n) dir b.
Proof. intros Hb. split; [by apply walk_enough|]. split; [by apply walkRemove_enough|by apply dedupeTree_enough]. Qed.
End Fuel.
