(* ===== verification/Staged.v ===== *)
(** [internal/transport/scp/scp.go] and [internal/transport/rsync/rsync.go]:
    the transports that work on a local copy of the remote, pulled by [Begin]
    and pushed by [End]. The operations between are those of the directory
    transport on the copy ([inner] here, any object store); the copying
    program is a parameter, called with the arguments the source builds, and
    what it does to the two sides is a hypothesis about those calls. *)

From S2P Require Import Prelude Transport.

(** The working copy and the remote. *)
Record Stage (S W : Type) := mkStage { sg_work : S; sg_remote : W }.
Arguments mkStage {S W} _ _.
Arguments sg_work {S W} _.
Arguments sg_remote {S W} _.

Record SCP := mkSCP { sc_Host : string; sc_User : string; sc_Path : string; sc_Port : Z; sc_Work : string }.
Record Rsync := mkRsync { rs_Remote : string; rs_Work : string }.

Definition spec (t : SCP) : string :=
  let host := if str_empty (sc_User t) then sc_Host t else (sc_User t +:+ "@" +:+ sc_Host t)%string in
  (host +:+ ":" +:+ sc_Path t)%string.

Definition scpArgs (t : SCP) (src dst : string) : list string :=
  ["-r"; "-q"]%string ++ (if 0 <? sc_Port t then ["-P"; sprint_d (sc_Port t)]%string else []) ++ [src; dst].

Definition ensureSlash (p : string) : string :=
  if str_empty p then p else if has_suffix "/" p then p else (p +:+ "/")%string.

Definition rsyncArgs (src dst : string) : list string := ["-a"; "--exclude"; "*.tmp-*"; src; dst]%string.

Definition scp_WorkDir (base : string) : string := path_join [base; "scp-stage"%string].
Definition rsync_WorkDir (base : string) : string := path_join [base; "rsync-stage"%string].

Section Staged.
Context {S W : Type} (inner : Transport S).
(** [exec.CommandContext(name, args...)], run to its end: the error, if any.
    [os.MkdirAll(t.Work)] *)
Context (run : string -> list string -> Stage S W -> Stage S W * option error).
Context (MkdirAll : string -> M S unit).
(** [inner.HealthCheck] *)
Context (inner_HealthCheck : M S HealthStatus).

Definition work_set (w : S) (s : Stage S W) : Stage S W := mkStage w (sg_remote s).
(** An operation on the working copy. *)
Definition on_work {A} (m : M S A) : M (Stage S W) A := zoom sg_work work_set m.

Definition exec (name : string) (args : list string) : M (Stage S W) (option error) := fun s =>
  let '(s', e) := run name args s in (s', Ok e).

Definition staged (begin end_ : M (Stage S W) unit) : Transport (Stage S W) :=
  mkTransport (Stage S W)
    (fun p => on_work (tr_List inner p)) (fun k => on_work (tr_Get inner k))
    (fun k r => on_work (tr_Put inner k r)) (fun k r => on_work (tr_PutAtomic inner k r))
    (fun k => on_work (tr_Remove inner k)) (fun p => on_work (tr_ListDirs inner p))
    (fun k => on_work (tr_Mkdir inner k)) (tr_ListingExpensive inner)
    ((fun f p => on_work (f p)) <$> tr_ListShallow inner) None (Some (begin, end_)).

(** The error of the pull is dropped. *)
Definition scp_Begin (t : SCP) : M (Stage S W) unit :=
  _ ← on_work (MkdirAll (sc_Work t));
  _ ← exec "scp" (scpArgs t (spec t +:+ "/.") (sc_Work t));
  mret tt.
Definition scp_End (t : SCP) : M (Stage S W) unit :=
  e ← exec "scp" (scpArgs t (sc_Work t +:+ "/.") (spec t));
  match e with Some e => fail (EWrap "scp push" e) | None => mret tt end.
Definition scp_HealthCheck (t : SCP) : M (Stage S W) HealthStatus :=
  if str_empty (sc_Host t) || str_empty (sc_Path t)
  then mret (mkHealthStatus HealthMisconfigured "scp host or path is empty" "")
  else on_work inner_HealthCheck.
Definition scp (t : SCP) : Transport (Stage S W) := staged (scp_Begin t) (scp_End t).

Definition runRsync (src dst : string) : M (Stage S W) unit :=
  e ← exec "rsync" (rsyncArgs src dst);
  match e with Some e => fail (EWrap "rsync" e) | None => mret tt end.
(** The [opened] flag is written and never read. *)
Definition rsync_Begin (t : Rsync) : M (Stage S W) unit :=
  _ ← on_work (MkdirAll (rs_Work t));
  ignore (runRsync (ensureSlash (rs_Remote t)) (ensureSlash (rs_Work t))).
Definition rsync_End (t : Rsync) : M (Stage S W) unit :=
  runRsync (ensureSlash (rs_Work t)) (ensureSlash (rs_Remote t)).
Definition rsync_HealthCheck (t : Rsync) : M (Stage S W) HealthStatus :=
  if str_empty (rs_Remote t) then mret (mkHealthStatus HealthMisconfigured "rsync remote is empty" "")
  else on_work inner_HealthCheck.
Definition rsync (t : Rsync) : Transport (Stage S W) := staged (rsync_Begin t) (rsync_End t).

(** * What a session leaves on the remote *)

Section Session.
Context `{!ObjectStore inner} (files : W -> gmap string bytes).
Notation stage_ok s := (store_inv (sg_work s)).
Notation work s := (objects (sg_work s)).
Notation remote s := (files (sg_remote s)).

(** The copying programs: files that are copied replace those of the same
    name, all others stay. A failed call may have copied some of them; a pull
    does not change the remote, a push not the working copy. *)
Definition pulls (name : string) (args : list string) : Prop := forall s s' e,
  stage_ok s -> run name args s = (s', e) ->
  stage_ok s' /\ remote s' = remote s /\ (e = None -> work s' = remote s ∪ work s).
Definition pushes (name : string) (args : list string) : Prop := forall s s' e,
  stage_ok s -> run name args s = (s', e) ->
  sg_work s' = sg_work s /\ (e = None -> remote s' = work s ∪ remote s) /\
  (forall k, is_Some (remote s !! k) -> is_Some (remote s' !! k)).

(** A session: it begins with a pull whose error is dropped, and ends with a
    push. *)
Definition pulling (begin : M (Stage S W) unit) : Prop := forall s s' r,
  stage_ok s -> begin s = (s', r) -> stage_ok s' /\ remote s' = remote s.
Definition pushing (end_ : M (Stage S W) unit) : Prop := forall s s' r,
  stage_ok s -> end_ s = (s', r) ->
  sg_work s' = sg_work s /\ (r = Ok tt -> remote s' = work s ∪ remote s) /\
  (forall k, is_Some (remote s !! k) -> is_Some (remote s' !! k)).

(** What a client does to the working copy between the two. *)
Definition on_copy (fn : M (Stage S W) unit) : Prop := forall s s' r,
  stage_ok s -> fn s = (s', r) -> stage_ok s' /\ remote s' = remote s.

Lemma exec_run name args s s' r : exec name args s = (s', r) -> exists e, run name args s = (s', e) /\ r = Ok e.
Proof. unfold exec. destruct (run name args s) as [s1 e]. intros [= <- <-]. eauto. Qed.

Context (HMkdir : forall d s s' r, store_inv s -> MkdirAll d s = (s', r) -> store_inv s').

Lemma on_work_mkdir d s s' r : stage_ok s -> on_work (MkdirAll d) s = (s', r) -> stage_ok s' /\ remote s' = remote s.
Proof.
  unfold on_work, zoom. destruct (MkdirAll d (sg_work s)) as [w r1] eqn:E. intros Hs [= <- _].
  split; [|done]. by eapply HMkdir.
Qed.

Lemma scp_pulling t : pulls "scp" (scpArgs t (spec t +:+ "/.") (sc_Work t)) -> pulling (scp_Begin t).
Proof.
  intros Hp s s' r Hs. unfold scp_Begin. rewrite bind_run.
  destruct (on_work (MkdirAll (sc_Work t)) s) as [s1 [u|e]] eqn:E1;
    destruct (on_work_mkdir _ _ _ _ Hs E1) as [H1 Hr1]; [|by intros [= <- _]].
  rewrite bind_run. destruct (exec _ _ s1) as [s2 r2] eqn:E2. apply exec_run in E2 as (e & E2 & ->).
  destruct (Hp _ _ _ H1 E2) as (? & ? & _). intros [= <- _]. split; [done|congruence].
Qed.
Lemma scp_pushing t : pushes "scp" (scpArgs t (sc_Work t +:+ "/.") (spec t)) -> pushing (scp_End t).
Proof.
  intros Hp s s' r Hs. unfold scp_End. rewrite bind_run. destruct (exec _ _ s) as [s2 r2] eqn:E2.
  apply exec_run in E2 as (e & E2 & ->). destruct (Hp _ _ _ Hs E2) as (? & ? & ?).
  destruct e as [e|]; intros [= <- <-]; (split; [done|]); (split; [|done]); auto. done.
Qed.

Lemma runRsync_run src dst s s' r : runRsync src dst s = (s', r) ->
  exists e, run "rsync" (rsyncArgs src dst) s = (s', e) /\ (r = Ok tt -> e = None).
Proof.
  unfold runRsync. rewrite bind_run. destruct (exec _ _ s) as [s2 r2] eqn:E2.
  apply exec_run in E2 as (e & E2 & ->). destruct e as [e|]; intros [= <- <-]; eauto. exists (Some e). done.
Qed.
Lemma rsync_pulling t : pulls "rsync" (rsyncArgs (ensureSlash (rs_Remote t)) (ensureSlash (rs_Work t))) ->
  pulling (rsync_Begin t).
Proof.
  intros Hp s s' r Hs. unfold rsync_Begin. rewrite bind_run.
  destruct (on_work (MkdirAll (rs_Work t)) s) as [s1 [u|e]] eqn:E1;
    destruct (on_work_mkdir _ _ _ _ Hs E1) as [H1 Hr1]; [|by intros [= <- _]].
  unfold ignore. destruct (runRsync _ _ s1) as [s2 r2] eqn:E2. apply runRsync_run in E2 as (e & E2 & _).
  destruct (Hp _ _ _ H1 E2) as (? & ? & _). intros [= <- _]. split; [done|simpl; congruence].
Qed.
Lemma rsync_pushing t : pushes "rsync" (rsyncArgs (ensureSlash (rs_Work t)) (ensureSlash (rs_Remote t))) ->
  pushing (rsync_End t).
Proof.
  intros Hp s s' r Hs E. apply runRsync_run in E as (e & E & Hr).
  destruct (Hp _ _ _ Hs E) as (? & ? & ?). auto.
Qed.

Lemma session_run begin end_ fn s s' r :
  pulling begin -> pushing end_ -> on_copy fn -> stage_ok s ->
  WithSession (staged begin end_) (fun _ m => m) fn s = (s', r) ->
  (r = Ok tt -> remote s' = work s' ∪ remote s) /\
  (forall k, is_Some (remote s !! k) -> is_Some (remote s' !! k)).
Proof.
  intros Hbegin Hend Hfn Hs. unfold WithSession. simpl. rewrite bind_run.
  destruct (begin s) as [s1 [u|e]] eqn:E1; destruct (Hbegin _ _ _ Hs E1) as [H1 R1].
  2:{ intros [= <- <-]. split; [done|]. by rewrite R1. }
  rewrite bind_run. unfold try. destruct (fn s1) as [s2 r2] eqn:E2. destruct (Hfn _ _ _ H1 E2) as [H2 R2].
  rewrite bind_run. destruct (end_ s2) as [s3 r3] eqn:E3. destruct (Hend _ _ _ H2 E3) as (W3 & P3 & K3).
  rewrite R2, R1 in *.
  destruct r2 as [[]|e2], r3 as [[]|e3]; intros [= <- <-]; (split; [|done]); try done.
  intros _. rewrite W3. auto.
Qed.

(** What a session of the scp and rsync transports leaves on the remote: if
    it reports success, the remote holds the working copy over what it held
    before, so that everything written during the session is published; and
    whatever happens, no object ever disappears from the remote. *)
Theorem staged_session_publishes (t : SCP) (u : Rsync) fn s s' r :
  pulls "scp" (scpArgs t (spec t +:+ "/.") (sc_Work t)) -> pushes "scp" (scpArgs t (sc_Work t +:+ "/.") (spec t)) ->
  pulls "rsync" (rsyncArgs (ensureSlash (rs_Remote u)) (ensureSlash (rs_Work u))) ->
  pushes "rsync" (rsyncArgs (ensureSlash (rs_Work u)) (ensureSlash (rs_Remote u))) ->
  on_copy fn -> stage_ok s ->
  WithSession (scp t) (fun _ m => m) fn s = (s', r) \/ WithSession (rsync u) (fun _ m => m) fn s = (s', r) ->
  (r = Ok tt -> remote s' = work s' ∪ remote s) /\
  (forall k, is_Some (remote s !! k) -> is_Some (remote s' !! k)).
Proof.
  intros P1 P2 P3 P4 Hfn Hs [E|E]; (eapply session_run; [..|exact E]; [| |exact Hfn|exact Hs]);
    eauto using scp_pulling, scp_pushing, rsync_pulling, rsync_pushing.
Qed.

(** The operations of a client are operations on the working copy. *)
Lemma put_on_copy begin end_ k rd : store_key k -> on_copy (tr_PutAtomic (staged begin end_) k rd).
Proof.
  intros Hk s s' r Hs. simpl. unfold on_work, zoom. destruct (tr_PutAtomic inner k rd (sg_work s)) as [w r1] eqn:E.
  intros [= <- _]. split; [|done]. by destruct (store_put _ _ _ _ _ Hs Hk E).
Qed.
Lemma remove_on_copy begin end_ k : store_key k -> on_copy (tr_Remove (staged begin end_) k).
Proof.
  intros Hk s s' r Hs. simpl. unfold on_work, zoom. destruct (tr_Remove inner k (sg_work s)) as [w r1] eqn:E.
  intros [= <- _]. split; [|done]. by destruct (store_remove _ _ _ _ Hs Hk E).
Qed.
End Session.
End Staged.
