(* ===== verification/HelpParse.v ===== *)
(** [internal/helpparse]: commands and flags recovered from the help text of a
    program ([parse.go], [identify.go]), its one-line summary ([summary.go]),
    the matching of menu rows ([enrich.go]) and the choice among probed texts
    ([probe.go]). Case mapping and the Unicode classes are parameters. *)

From S2P Require Import Prelude Text Utf8.
From Stdlib Require Import Ascii.

(** ** Helpers of [strings] *)

Definition tab : ascii := "009"%char.
Definition blank (c : ascii) : bool := Ascii.eqb c " " || Ascii.eqb c tab.
(** [strings.TrimLeft(s, cutset)], [strings.TrimRight(s, cutset)] *)
Definition trim_left_set (p : ascii -> bool) (s : string) : string := skip_while p s.
Definition trim_right_set (p : ascii -> bool) (s : string) : string := str_reverse (skip_while p (str_reverse s)).
(** [strings.Index]: the text before the first occurrence and the text from it on. *)
Fixpoint split_at (sub s : string) : option (string * string) :=
  if has_prefix sub s then Some (EmptyString, s)
  else match s with
       | EmptyString => None
       | String c s' => (fun '(a, b) => (String c a, b)) <$> split_at sub s'
       end.

(** ** Names *)

Notation Kind := string (only parsing).
Definition KindCommand : Kind := "command".
Definition KindFlag : Kind := "flag".
Record Entity := mkEntity { en_Name : string; en_Descr : string; en_Kind : Kind }.
#[global] Instance Entity_eq_dec : EqDecision Entity.
Proof. solve_decision. Defined.
Inductive sectionKind := sectionOther | sectionCommands | sectionFlags | sectionSkip.
#[global] Instance sectionKind_eq_dec : EqDecision sectionKind.
Proof. solve_decision. Defined.

Definition is_word (c : ascii) : bool := isAlphaNum c.
(** [^(?:-\w|--[\w-]+)$] *)
Definition flagToken (tok : string) : bool :=
  match tok with
  | String d (String c rest) =>
      Ascii.eqb d "-" &&
      if str_empty rest then is_word c else Ascii.eqb c "-" && str_all (fun x => is_word x || Ascii.eqb x "-") rest
  | _ => false
  end.
(** [^[A-Za-z][A-Za-z0-9._+-]*$] *)
Definition name_char (c : ascii) : bool :=
  is_lower c || is_upper c || is_digit c || existsb (Ascii.eqb c) ["."; "_"; "+"; "-"]%char.
Definition commandName (name : string) : bool :=
  match name with
  | String c rest => (is_lower c || is_upper c) && str_all name_char rest
  | EmptyString => false
  end.

Definition stopwords : list string :=
  ["is"; "one"; "of"; "the"; "following"; "and"; "or"; "for"; "this"; "that"; "with"; "from"; "a"; "an"; "to"; "in"; "on"; "as";
   "by"; "at"; "be"; "option"; "options"; "argument"; "arguments"; "usage"; "synopsis"; "description"; "example"; "examples";
   "see"; "also"]%string.
Definition bracket (c : ascii) : bool := existsb (Ascii.eqb c) ["["; "]"; "{"; "}"; "<"; ">"; "("; ")"; "|"]%char.

(** A name outside ASCII is refused by the pattern, so folding ASCII is enough. *)
Definition validCommandName (name : string) : bool :=
  if str_empty name || negb (str_all (fun c => negb (bracket c)) name) then false
  else if existsb (String.eqb (to_lower name)) stopwords then false
  else if String.eqb (to_lower name) "command" || String.eqb (to_lower name) "group" then false
  else commandName name.

Definition cleanDescr (d : string) : string :=
  trim_space (trim_prefix "-" (trim_prefix "-" (trim_prefix "-" (trim_space d)))).
Definition leadingSpaces (s : string) : Z := Z.of_nat (String.length (take_while blank s)).

(** ** [enrich.go] *)

Definition safe_rune (r : Z) : bool :=
  between 97 122 r || between 65 90 r || between 48 57 r || existsb (Z.eqb r) [45; 95; 46; 47; 43; 61; 58; 64; 126].
Definition safeArg (w : string) : bool :=
  if str_empty w || String.eqb w "-" || String.eqb w "--" then false else forallb safe_rune (runes w).
Definition SafeArg (w : string) : bool := safeArg w.

Definition HelpArgv (prefix : string) : list string :=
  let trimmed := trim_space prefix in
  if str_empty trimmed then []
  else
    let words := fields trimmed in
    let words := if negb (has_suffix " " prefix) && (1 <? length words)%nat then take (length words - 1) words else words in
    if forallb safeArg words then words else [].

Definition matchToken (item : string) : string :=
  match last (fields item) with
  | None => EmptyString
  | Some tok =>
      match cut "=" tok with
      | Some (a, _) => if negb (str_empty a) && has_prefix "-" tok then a else tok
      | None => tok
      end
  end.

(** The loop over the words of a row: [None] on an unsafe word. *)
Fixpoint item_words (ws : list string) : option (list string) :=
  match ws with
  | [] => Some []
  | w :: ws =>
      if has_prefix "-" w then Some []
      else if negb (safeArg w) then None
      else cons w <$> item_words ws
  end.
Definition argvEqual (a b : list string) : bool := bool_decide (a = b).

Definition ItemArgv (prefix item : string) : list string :=
  let tok := matchToken item in
  if str_empty tok || has_prefix "-" tok || negb (safeArg tok) then []
  else
    match item_words (fields item) with
    | None => []
    | Some words =>
        if (1 <? length words)%nat then words
        else
          match last (HelpArgv prefix) with
          | None => if (length words =? 1)%nat then words else []
          | Some l =>
              if (length words =? 1)%nat && argvEqual words (HelpArgv prefix) then []
              else if String.eqb l tok then []
              else HelpArgv prefix ++ [tok]
          end
    end.

Definition missing_descr (descrs : list string) (i : nat) : bool :=
  match descrs !! i with Some d => str_empty (trim_space d) | None => true end.
Definition NeedsEnrich (items descrs : list string) : bool := existsb (missing_descr descrs) (seq 0 (length items)).

(** [cache.go]: the rows of a menu, with their descriptions. *)
Definition entitiesToItems (argv : list string) (ents : list Entity) : list string * list string :=
  if (length argv =? 0)%nat || (length ents =? 0)%nat then ([], [])
  else
    let head := join_with " " argv in
    let keep := List.filter (fun e => negb (str_empty (en_Name e) || negb (SafeArg (en_Name e)))) ents in
    ((fun e => head +:+ " " +:+ en_Name e)%string <$> keep, en_Descr <$> keep).

Section Help.
(** [strings.ToLower], [unicode.IsLetter], [unicode.IsUpper], [unicode.IsDigit] *)
Context (ToLower : string -> string) (IsLetter IsUpper IsDigit : Z -> bool).

Definition by_name (entities : list Entity) : gmap string string :=
  foldl (fun m e => if str_empty (en_Descr e) then m else <[en_Name e := en_Descr e]> m) ∅ entities.
Definition by_lower (entities : list Entity) : gmap string string :=
  foldl (fun m e =>
    if str_empty (en_Descr e) then m
    else match m !! ToLower (en_Name e) with Some _ => m | None => <[ToLower (en_Name e) := en_Descr e]> m end) ∅ entities.

Definition enrich_item (entities : list Entity) (item descr : string) : string :=
  if negb (str_empty (trim_space descr)) then descr
  else
    let tok := matchToken item in
    if str_empty tok then descr
    else match by_name entities !! tok with
         | Some d => d
         | None => default descr (by_lower entities !! ToLower tok)
         end.
Definition Enrich (prefix : string) (items descrs : list string) (entities : list Entity) : list string :=
  imap (fun i item => enrich_item entities item (default EmptyString (descrs !! i))) items.

(** ** [identify.go] *)

Inductive Framework := Unknown | Argparse | Click | Cobra | GnuArgp | Busybox | GoFlag | BsdTerse.

Definition signatures : list (string * Framework * bool) :=
  [("show this help message and exit", Argparse, true); ("Show this message and exit.", Click, false); ("Available Commands:", Cobra, false);
   ("Mandatory arguments to long options are mandatory for short options too.", GnuArgp, false);
   ("Mandatory or optional arguments to long options are also mandatory or optional", GnuArgp, false);
   ("BusyBox is copyrighted", Busybox, false)]%string.

Definition scanGoFlagUsage (help : string) : bool :=
  existsb (fun line => has_prefix "Usage of " line && has_suffix ":" (trim_right "013" line)) (split_on nl help).
Definition looksLikeBSDTerse (help : string) : bool :=
  let nonBlank := List.filter (fun line => negb (str_empty (trim_space line))) (split_on nl help) in
  let hasUsage := existsb (fun line => has_prefix "usage:" (trim_left_set blank line)) nonBlank in
  hasUsage && negb (contains "--" help) && (0 <? length nonBlank)%nat && (length nonBlank <=? 20)%nat.

Definition Identify (help : string) : Framework :=
  let lower := ToLower help in
  match List.find (fun '(marker, _, ignoreCase) => if ignoreCase : bool then contains (ToLower marker) lower else contains marker help) signatures with
  | Some (_, fw, _) => fw
  | None => if scanGoFlagUsage help then GoFlag else if looksLikeBSDTerse help then BsdTerse else Unknown
  end.

(** ** [parse.go]: rows *)

Definition isMetavar (s : string) : bool :=
  if str_empty s then false
  else if has_prefix "<" s || has_prefix "[" s then true
  else forallb (fun r => negb (IsLetter r && negb (IsUpper r) && negb (r =? 95))) (runes s).
Definition looksLikeDescrStart (s : string) : bool :=
  match runes s with r :: _ => IsLetter r || IsDigit r | [] => false end.

(** The loop over the flags of a row; [None] when one of them is not a flag.
    Each round takes a flag off the text, so its length is fuel enough. *)
Fixpoint flag_loop (fuel : nat) (rest : string) (toks : list string) : option (list string * string) :=
  match fuel with
  | O => Some (toks, rest)
  | Datatypes.S fuel =>
      let rest := trim_left_set blank rest in
      if negb (has_prefix "-" rest) then Some (toks, rest)
      else
        let tok := take_while (fun c => negb (blank c || Ascii.eqb c ",")) rest in
        if negb (flagToken tok) then None
        else
          let rest := trim_left_set blank (str_drop (String.length tok) rest) in
          match rest with
          | String "," rest => flag_loop fuel (trim_left_set blank rest) (toks ++ [tok])
          | _ => Some (toks ++ [tok], rest)
          end
  end.

Definition flag_descr (rest : string) : string :=
  let rest := trim_space rest in
  let rest := match fields rest with
              | f :: _ => if negb (has_prefix "-" f) && isMetavar f then trim_space (trim_prefix f rest) else rest
              | [] => rest
              end in
  match split_at "  " rest with
  | None => rest
  | Some (head, tail) =>
      let head := trim_space head in
      let tail := trim_space tail in
      if isMetavar head || str_empty head then tail else if looksLikeDescrStart tail then tail else rest
  end.

Definition parseFlagRow (s : string) : option (list string * string) :=
  let s := trim_space s in
  if negb (has_prefix "-" s) then None
  else match flag_loop (String.length s) s [] with
       | None | Some ([], _) => None
       | Some (toks, rest) => Some (toks, cleanDescr (flag_descr rest))
       end.

(** The text before the first tab or pair of blanks, and from there on; the
    last byte starts no gap. *)
Fixpoint split_gap (s : string) : option (string * string) :=
  match s with
  | String a ((String b _) as t) =>
      if Ascii.eqb a tab || (Ascii.eqb a " " && Ascii.eqb b " ") then Some (EmptyString, s)
      else (fun '(x, y) => (String a x, y)) <$> split_gap t
  | _ => None
  end.
Definition parseTwoColumnCommand (s : string) : option (string * string) :=
  let s := trim_space s in
  if str_empty s || has_prefix "-" s || has_prefix "{" s then None
  else match split_gap s with
       | None => None
       | Some (name, descr) =>
           let name := trim_space name in
           let descr := trim_space descr in
           if negb (validCommandName name) || str_empty descr then None else Some (name, cleanDescr descr)
       end.
Definition looksLikeFlagRow (s : string) : bool := bool_decide (is_Some (parseFlagRow s)).
Definition looksLikeCommandRow (s : string) : bool := bool_decide (is_Some (parseTwoColumnCommand s)).

Definition parseTwoColumnOrName (s : string) : option (string * string) :=
  match fields s with
  | [] => None
  | f :: fs =>
      if negb (validCommandName f) then None
      else match parseTwoColumnCommand s with
           | Some r => Some r
           | None => match fs with [] => Some (f, EmptyString) | _ => None end
           end
  end.
Definition parseBulletRow (s : string) : option (string * string) :=
  match trim_space s with
  | String c ((String d (String _ _)) as rest) =>
      if existsb (Ascii.eqb c) ["o"; "+"; "*"]%char && blank d then parseTwoColumnOrName (trim_space rest) else None
  | _ => None
  end.
Definition isBulletCommand (s : string) : bool := bool_decide (is_Some (parseBulletRow s)).
Definition parseNameOnly (s : string) : option string :=
  match fields s with
  | [f] => let name := trim_right ":" f in if validCommandName name then Some name else None
  | _ => None
  end.

(** ** [parse.go]: headings *)

Definition isShouty (s : string) : bool :=
  let letters := List.filter IsLetter (runes s) in
  (0 <? length letters)%nat && forallb IsUpper letters.
Definition looksLikeTitleHeading (s : string) : bool :=
  forallb (fun w => match runes w with r :: _ => negb (IsLetter r && negb (IsUpper r)) | [] => true end) (fields s) &&
  (length (fields s) <=? 4)%nat.
Definition isSynopsisLine (s : string) : bool :=
  let low := ToLower (trim_space s) in
  has_prefix "usage:" low || has_prefix "usage " low || has_prefix "synopsis" low || has_prefix "Usage of " s.

Definition mentions (key : string) (words : list string) : bool := existsb (fun w => contains w key) words.
Definition is_one_of (key : string) (words : list string) : bool := existsb (String.eqb key) words.

Definition classifyHeading (line : string) : option sectionKind :=
  let colon := has_suffix ":" (trim_space line) in
  let t := trim_right ":" (trim_space line) in
  if str_empty t then None
  else if (5 <? length (fields t))%nat then None
  else if (3 <=? length (fields t))%nat && negb (isShouty t) && negb colon then None
  else if negb colon && negb (isShouty t) && negb (looksLikeTitleHeading t) then None
  else
    let key := ToLower t in
    if mentions key ["alias"; "see also"; "example"; "copyright"; "author"; "environment"]%string ||
       is_one_of key ["name"; "synopsis"; "description"; "see also"]%string then Some sectionSkip
    else if mentions key ["available command"; "available service"; "subcommand"]%string ||
       is_one_of key ["commands"; "command"; "groups"; "group"; "services"; "service"]%string then Some sectionCommands
    else if mentions key ["option"; "flag"]%string then Some sectionFlags
    else if isShouty t && mentions key ["command"; "group"; "service"]%string then Some sectionCommands
    else if colon && looksLikeTitleHeading t then Some sectionOther
    else None.

(** ** [parse.go]: the pass over the lines *)

(** The entities found, the position of each name, the current section, and a
    name that waits for its description. *)
Record PState := mkPState {
  ps_ents : list Entity; ps_seen : gmap string nat; ps_section : sectionKind;
  ps_pendingName : string; ps_pendingIndent : Z; ps_pendingDescr : string;
}.

Definition addEntity (name descr : string) (st : PState) : PState :=
  let name := trim_space name in
  let descr := cleanDescr descr in
  if str_empty name then st
  else match ps_seen st !! name with
       | Some i =>
           mkPState (alter (fun e => if str_empty (en_Descr e) && negb (str_empty descr) then mkEntity (en_Name e) descr (en_Kind e) else e) i (ps_ents st))
             (ps_seen st) (ps_section st) (ps_pendingName st) (ps_pendingIndent st) (ps_pendingDescr st)
       | None =>
           mkPState (ps_ents st ++ [mkEntity name descr (if has_prefix "-" name then KindFlag else KindCommand)])
             (<[name := length (ps_ents st)]> (ps_seen st)) (ps_section st) (ps_pendingName st) (ps_pendingIndent st) (ps_pendingDescr st)
       end.
Definition set_pending (name : string) (indent : Z) (descr : string) (st : PState) : PState :=
  mkPState (ps_ents st) (ps_seen st) (ps_section st) name indent descr.
Definition set_section (k : sectionKind) (st : PState) : PState :=
  mkPState (ps_ents st) (ps_seen st) k (ps_pendingName st) (ps_pendingIndent st) (ps_pendingDescr st).
Definition flushPending (st : PState) : PState :=
  if str_empty (ps_pendingName st) then st
  else set_pending EmptyString (-1) EmptyString (addEntity (ps_pendingName st) (trim_space (ps_pendingDescr st)) st).
Definition has_pending (st : PState) : bool := negb (str_empty (ps_pendingName st)).

(** A bullet row takes its description from the next line when it has none;
    the flag says that the line is used up. *)
Definition bullet_step (indent : Z) (name descr : string) (next : option string) (st : PState) : PState * bool :=
  if negb (str_empty descr) || bool_decide (ps_section st = sectionCommands) || bool_decide (ps_section st = sectionOther) then
    match next with
    | Some line =>
        let n := trim_space line in
        if str_empty descr && negb (str_empty n) && (indent <? leadingSpaces (trim_right_set blank line)) &&
           negb (looksLikeCommandRow n) && negb (isBulletCommand n)
        then (addEntity name n st, true) else (addEntity name descr st, false)
    | None => (addEntity name descr st, false)
    end
  else (st, false).

(** A line that is no continuation, heading or synopsis. *)
Definition row_step (indent : Z) (trimmed : string) (next : option string) (st : PState) : PState * bool :=
  if bool_decide (ps_section st = sectionSkip) then (st, false)
  else match parseFlagRow trimmed with
       | Some (names, descr) => (foldl (fun st n => addEntity n descr st) st names, false)
       | None =>
           match parseBulletRow trimmed with
           | Some (name, descr) => bullet_step indent name descr next st
           | None =>
               match parseTwoColumnCommand trimmed with
               | Some (name, descr) => (addEntity name descr st, false)
               | None =>
                   match parseNameOnly trimmed with
                   | Some name => if 1 <=? indent then (set_pending name indent EmptyString st, false) else (st, false)
                   | None => (st, false)
                   end
               end
           end
       end.

Definition line_step (line : string) (next : option string) (st : PState) : PState * bool :=
  let raw := trim_right_set blank line in
  let indent := leadingSpaces raw in
  let trimmed := trim_space raw in
  if str_empty trimmed then
    (if has_pending st && negb (str_empty (ps_pendingDescr st)) then flushPending st else st, false)
  else match classifyHeading trimmed with
       | Some kind => (set_section kind (flushPending st), false)
       | None =>
           if isSynopsisLine trimmed then (flushPending st, false)
           else if has_pending st then
             if (ps_pendingIndent st <? indent) && negb (looksLikeCommandRow trimmed) && negb (looksLikeFlagRow trimmed) && negb (isBulletCommand trimmed)
             then
               let sep := if str_empty (ps_pendingDescr st) then EmptyString else " "%string in
               (set_pending (ps_pendingName st) (ps_pendingIndent st) (ps_pendingDescr st +:+ sep +:+ trimmed) st, false)
             else row_step indent trimmed next (flushPending st)
           else row_step indent trimmed next st
       end.

Fixpoint parse_loop (lines : list string) (st : PState) : PState :=
  match lines with
  | [] => flushPending st
  | line :: rest =>
      let '(st, used) := line_step line (head rest) st in
      if used : bool then match rest with [] => flushPending st | _ :: rest => parse_loop rest st end
      else parse_loop rest st
  end.
Definition parseLines (lines : list string) (fw : Framework) : list Entity :=
  ps_ents (parse_loop lines (mkPState [] ∅ (match fw with GoFlag => sectionFlags | _ => sectionOther end) EmptyString (-1) EmptyString)).

(** [\x1b\[[0-9;?]*[a-zA-Z]] *)
Definition match_escape (s : string) : option (string * string) :=
  match s with
  | String c (String d v) =>
      if (code c =? 27)%N && Ascii.eqb d "[" then
        match skip_while (fun c => is_digit c || Ascii.eqb c ";" || Ascii.eqb c "?") v with
        | String e rest => if is_lower e || is_upper e then Some (EmptyString, rest) else None
        | EmptyString => None
        end
      else None
  | _ => None
  end.

(** A backspace takes back the rune before it. *)
Definition strip_rune (out : list Z) (r : Z) : list Z := if r =? 8 then removelast out else out ++ [r].
Definition stripBackspace (s : string) : string :=
  if negb (existsb (Z.eqb 8) (runes s)) then s
  else foldr (fun r acc => EncodeRune r +:+ acc)%string EmptyString (foldl strip_rune [] (runes s)).

Definition CRLF : string := String "013" (String nl EmptyString).
Definition normalizeHelp (help : string) : string :=
  let help := replace_matches match_escape "" (String.length help) help in
  let help := stripBackspace help in
  let help := replace_all help CRLF (String nl EmptyString) in
  replace_all help (String "013" EmptyString) (String nl EmptyString).

Definition Parse (help : string) : list Entity :=
  let help := normalizeHelp help in parseLines (split_on nl help) (Identify help).

(** ** [summary.go] *)

Definition collapseSpace (s : string) : string := join_with " " (fields s).

Definition nameDashSummary (s : string) : string :=
  match split_at " - " (collapseSpace s) with
  | Some (_, rest) => trim_space (str_drop 3 rest)
  | None => EmptyString
  end.

(** [low[dot+1-len(a):dot+1] == a]; the slice is out of range when lowering
    made the text shorter. *)
Fixpoint abbrev_loop (low : string) (dot : nat) (abbrevs : list string) : option bool :=
  match abbrevs with
  | [] => Some false
  | a :: abbrevs =>
      if (String.length a <=? dot + 1)%nat then
        if (String.length low <? dot + 1)%nat then None
        else if String.eqb (str_take (String.length a) (str_drop (dot + 1 - String.length a) low)) a then Some true
        else abbrev_loop low dot abbrevs
      else abbrev_loop low dot abbrevs
  end.
Definition isAbbrevDot (s : string) (dot : nat) : option bool :=
  if (dot <? 1)%nat then Some false else abbrev_loop (ToLower s) dot ["e.g."; "i.e."; "etc."; "vs."]%string.

(** The loop of [firstSentence] at byte [i], with [n] bytes to go; [None] is
    the panic of an index out of range. *)
Fixpoint sentence_loop (s : string) (n i : nat) : option string :=
  match n with
  | O => Some s
  | Datatypes.S n =>
      if negb (bool_decide (str_at i s = Some "."%char)) then sentence_loop s n (Datatypes.S i)
      else
        match str_at (Datatypes.S i) s with
        | None => Some s
        | Some c =>
            if negb (Ascii.eqb c " ") then sentence_loop s n (Datatypes.S i)
            else
              match isAbbrevDot s i with
              | None => None
              | Some true => sentence_loop s n (Datatypes.S i)
              | Some false =>
                  let rest := trim_space (str_drop (Datatypes.S i) s) in
                  if str_empty rest || IsUpper (DecodeRune rest).1 then Some (trim_space (str_take (Datatypes.S i) s))
                  else sentence_loop s n (Datatypes.S i)
              end
        end
  end.
Definition firstSentence (s : string) : option string :=
  let s := collapseSpace s in
  if str_empty s then Some EmptyString else sentence_loop s (String.length s) 0.

Definition summaryMaxRunes : nat := 160.
(** [string(rs)] *)
Definition string_of_runes (rs : list Z) : string := foldr (fun r acc => EncodeRune r +:+ acc)%string EmptyString rs.
(** The position after the last blank among the first [cut] runes. *)
Fixpoint cut_back (rs : list Z) (cut : nat) : nat :=
  match cut with
  | O => O
  | Datatypes.S k => if bool_decide (rs !! k = Some 32) then cut else cut_back rs k
  end.
Definition clipOneLine (s : string) : string :=
  let s := collapseSpace s in
  if str_empty s then EmptyString
  else if (length (runes s) <=? summaryMaxRunes)%nat then s
  else
    let cut := cut_back (runes s) summaryMaxRunes in
    let cut := if (cut <? summaryMaxRunes `div` 2)%nat then summaryMaxRunes else cut in
    trim_space (string_of_runes (take cut (runes s))).

Inductive nodeKind := nodeName | nodeDescription | nodeStop.
#[global] Instance nodeKind_eq_dec : EqDecision nodeKind.
Proof. solve_decision. Defined.
Definition nodeSection (trimmed : string) : option nodeKind :=
  let key := ToLower (trim_right ":" (trim_space trimmed)) in
  if String.eqb key "name" then Some nodeName
  else if String.eqb key "description" || String.eqb key "overview" then Some nodeDescription
  else match classifyHeading trimmed with Some _ => Some nodeStop | None => None end.

(** The lines of the NAME and of the DESCRIPTION section. *)
Fixpoint node_loop (section : option nodeKind) (nameParts descParts : list string) (lines : list string) : list string * list string :=
  let described := bool_decide (section = Some nodeDescription) && negb (bool_decide (descParts = [])) in
  match lines with
  | [] => (nameParts, descParts)
  | raw :: lines =>
      let trimmed := trim_space raw in
      if str_empty trimmed then if described then (nameParts, descParts) else node_loop section nameParts descParts lines
      else match nodeSection trimmed with
           | Some kind =>
               if described && negb (bool_decide (kind = nodeDescription)) then (nameParts, descParts)
               else node_loop (Some kind) nameParts descParts lines
           | None =>
               match section with
               | Some nodeName => node_loop section (nameParts ++ [trimmed]) descParts lines
               | Some nodeDescription => node_loop section nameParts (descParts ++ [trimmed]) lines
               | _ => node_loop section nameParts descParts lines
               end
           end
  end.

Definition NodeSummary (help : string) : option string :=
  let help := normalizeHelp help in
  if str_empty (trim_space help) then Some EmptyString
  else
    let '(nameParts, descParts) := node_loop None [] [] (split_on nl help) in
    let s := nameDashSummary (join_with " " nameParts) in
    if negb (str_empty s) then Some (clipOneLine s)
    else match descParts with
         | [] => Some EmptyString
         | _ => clipOneLine <$> firstSentence (join_with " " descParts)
         end.

(** ** [probe.go]: the choice of a text *)

Definition helpArgvVariants (argv : list string) : list (list string) :=
  [argv ++ ["--help"%string]; argv ++ ["help"%string]; argv ++ ["-h"%string]].
Definition describedCommands (ents : list Entity) : Z :=
  Z.of_nat (length (List.filter (fun e => negb (str_empty (en_Descr e)) && negb (has_prefix "-" (en_Name e))) ents)).
Definition helpPageRank (out : string) (described : Z) : option Z :=
  sum ← NodeSummary out; Some (described * 10 + if str_empty sum then 0 else 100).

Definition help_markers : list string :=
  ["usage"; "available commands"; "available services"; "options:"; "flags:"; "--help"; "synopsis"; "commands:"; "groups";
   "show this help"; "show this message"; "group is one of the following"; "command is one of the following"]%string.
Definition flag_line (line : string) : bool :=
  let t := trim_space line in negb (str_empty t) && has_prefix "-" t && (contains "  " t || contains "," t).
Definition helpScore (s : string) : Z :=
  let low := ToLower s in
  let flagLines := length (List.filter flag_line (split_on nl s)) in
  Z.of_nat (length (List.filter (fun m => contains m low) help_markers)) +
  (if (2 <=? flagLines)%nat then 2 else if (flagLines =? 1)%nat then 1 else 0) +
  (if (40 <? length (List.filter IsLetter (runes s)))%nat then 1 else 0).
Definition looksLikeHelp (s : string) : bool := if str_empty (trim_space s) then false else 2 <=? helpScore s.
Definition pickStream (stdout stderr : string) : string :=
  match looksLikeHelp stdout, looksLikeHelp stderr with
  | true, false => stdout
  | false, true => stderr
  | true, true => if helpScore stdout <? helpScore stderr then stderr else stdout
  | false, false => if negb (str_empty (trim_space stdout)) then stdout else trim_space stderr
  end.

(** Running a program: its two outputs and its error; and whether the context
    has ended after the [n]th attempt. *)
Context (run : list string -> string * string * option error) (ctx_done : nat -> bool).

Definition runHelp (args : list string) : string * option error :=
  let '(stdout, stderr, err) := run args in
  let picked := pickStream stdout stderr in
  if str_empty picked then (EmptyString, err) else (picked, None).

(** The loop over the variants; the outer [None] is a panic. *)
Fixpoint probe_loop (n : nat) (variants : list (list string)) (best : string) (bestN : Z) (lastErr : option error) : option (result string) :=
  let settled := if negb (str_empty best) then Some (Ok best)
                 else Some (Fail (default (EMsg "no help output") lastErr)) in
  match variants with
  | [] => settled
  | args :: variants =>
      let '(out, err) := runHelp args in
      let lastErr := match err with Some _ => err | None => lastErr end in
      if str_empty out then probe_loop (Datatypes.S n) variants best bestN lastErr
      else
        let k := describedCommands (Parse out) in
        rank ← helpPageRank out k;
        sum ← NodeSummary out;
        let '(best, bestN) := if bestN <? rank then (out, rank) else (best, bestN) in
        if (3 <=? k) || negb (str_empty sum) then Some (Ok out)
        else if ctx_done n then
          (if negb (str_empty best) then Some (Ok best) else Some (Fail (default (EMsg "no help output") lastErr)))
        else probe_loop (Datatypes.S n) variants best bestN lastErr
  end.
Definition ProbeWithPATH (argv : list string) : option (result string) :=
  match argv with
  | [] => Some (Fail (EMsg "empty argv"))
  | _ => probe_loop 0 (helpArgvVariants argv) EmptyString (-1) None
  end.
End Help.

(** ** Well-formed entities *)

Definition good_name (n : string) : bool := flagToken n || validCommandName n.

(** What the parser may report: a flag or a command with an admissible name. *)
Definition good_entity (e : Entity) : Prop :=
  good_name (en_Name e) = true /\ en_Kind e = (if has_prefix "-" (en_Name e) then KindFlag else KindCommand).

(** A character of a name: printable, and allowed in a probe. *)
Definition plain_char (c : ascii) : bool := name_char c.

Lemma char_cases (p q : ascii -> bool) : forallb (fun n => implb (p (ascii_of_nat n)) (q (ascii_of_nat n))) (seq 0 256) = true ->
  forall c, p c = true -> q c = true.
Proof.
  intros H c Hc. rewrite forallb_forall in H. specialize (H (nat_of_ascii c)).
  rewrite ascii_nat_embedding, Hc in H. apply H. apply in_seq. pose proof (nat_ascii_bounded c). lia.
Qed.

Lemma commandName_plain n : commandName n = true -> str_all plain_char n = true /\ has_prefix "-" n = false /\ n <> EmptyString.
Proof.
  destruct n as [|c n]; [done|]. cbn [commandName str_all has_prefix]. intros [Hc Hn]%andb_true_iff.
  assert (plain_char c && negb (Ascii.eqb "-" c) = true) as [Hp Hd%negb_true_iff]%andb_true_iff.
  { revert c Hc. apply (char_cases (fun c => is_lower c || is_upper c)). vm_compute. reflexivity. }
  rewrite Hp, Hd. done.
Qed.

Lemma flagToken_plain n : flagToken n = true -> str_all plain_char n = true /\ has_prefix "-" n = true /\ n <> "-"%string /\ n <> "--"%string.
Proof.
  destruct n as [|d [|c n]]; [done..|]. cbn [flagToken]. intros [->%Ascii.eqb_eq Hn]%andb_true_iff.
  assert (forall x, is_word x || Ascii.eqb x "-" = true -> plain_char x = true) as Hx by (apply char_cases; vm_compute; reflexivity).
  cbn [str_all has_prefix]. destruct n as [|x n]; cbn [str_empty] in Hn.
  - rewrite (Hx c) by (by rewrite Hn). split_and!; [done..|intros [= ->]; done].
  - apply andb_true_iff in Hn as [->%Ascii.eqb_eq Hn]. split_and!; [|done..].
    rewrite (str_all_weaken _ _ _ Hx Hn). done.
Qed.

Lemma validCommandName_name n : validCommandName n = true -> commandName n = true.
Proof. unfold validCommandName. repeat case_match; done. Qed.

Lemma good_name_plain n : good_name n = true -> str_all plain_char n = true /\ n <> EmptyString /\ safeArg n = true.
Proof.
  intros Hn. assert (str_all plain_char n = true /\ n <> EmptyString /\ n <> "-"%string /\ n <> "--"%string) as (Hp & Hne & H1 & H2).
  { unfold good_name in Hn. apply orb_true_iff in Hn as [Hf|Hv].
    - apply flagToken_plain in Hf as (? & ? & ? & ?). split_and!; [done|by intros ->|done..].
    - apply validCommandName_name, commandName_plain in Hv as (? & Hd & ?). split_and!; [done..|by intros ->|by intros ->]. }
  split_and!; [done..|]. unfold safeArg. rewrite (proj2 (String.eqb_neq n "-") H1), (proj2 (String.eqb_neq n "--") H2).
  assert (str_empty n = false) as -> by (by destruct n). cbn [orb].
  rewrite runes_ascii.
  - clear -Hp. induction n as [|c n IH]; [done|]. cbn [str_all] in Hp. apply andb_true_iff in Hp as [Hc Hp]. cbn. rewrite (IH Hp), andb_true_r.
    revert c Hc. apply (char_cases plain_char (fun c => safe_rune (Z.of_N (code c)))). vm_compute. reflexivity.
  - revert Hp. apply str_all_weaken. apply char_cases. vm_compute. reflexivity.
Qed.

Lemma good_name_trim n : good_name n = true -> trim_space n = n.
Proof.
  intros (Hp & _)%good_name_plain. apply trim_space_printable. revert Hp. apply str_all_weaken. apply char_cases. vm_compute. reflexivity.
Qed.

Section ParseSpec.
Context (ToLower : string -> string) (IsLetter IsUpper IsDigit : Z -> bool).

Lemma flag_loop_tokens fuel rest toks toks' rest' :
  flag_loop fuel rest toks = Some (toks', rest') -> Forall (fun t => flagToken t = true) toks -> Forall (fun t => flagToken t = true) toks'.
Proof.
  revert rest toks. induction fuel as [|fuel IH]; intros rest toks; cbn [flag_loop]; [by intros [= <- <-]|].
  destruct (negb (has_prefix "-" (trim_left_set blank rest))); [by intros [= <- <-]|].
  set (tok := take_while _ _). destruct (flagToken tok) eqn:Et; [|done]. cbn [negb]. intros H Ht.
  assert (Forall (fun t => flagToken t = true) (toks ++ [tok])) as Ht' by (apply Forall_app; by repeat constructor).
  set (rest2 := trim_left_set blank (str_drop _ _)) in H.
  destruct rest2 as [|c rest2]; [by injection H as <- <-|]. destruct c as [[] [] [] [] [] [] [] []]; try (by injection H as <- <-). by eapply IH.
Qed.

Lemma parseFlagRow_names s names descr : parseFlagRow IsLetter IsUpper IsDigit s = Some (names, descr) -> Forall (fun n => good_name n = true) names.
Proof.
  unfold parseFlagRow. destruct (negb _); [done|]. destruct (flag_loop _ _ []) as [[[|t toks] rest]|] eqn:E; [done| |done].
  intros [= <- <-]. apply flag_loop_tokens in E; [|constructor]. eapply Forall_impl; [exact E|].
  intros n Hn. unfold good_name. by rewrite Hn.
Qed.

Lemma parseTwoColumnCommand_name s n d : parseTwoColumnCommand s = Some (n, d) -> good_name n = true.
Proof.
  unfold parseTwoColumnCommand. repeat case_match; try done. intros [= <- <-].
  match goal with H : negb _ || _ = false |- _ => apply orb_false_iff in H as [H _]; apply negb_false_iff in H; unfold good_name; rewrite H end.
  by rewrite orb_true_r.
Qed.

Lemma parseBulletRow_name s n d : parseBulletRow s = Some (n, d) -> good_name n = true.
Proof.
  unfold parseBulletRow. destruct (trim_space s) as [|c [|d' [|x s']]]; try done. case_match; [|done].
  unfold parseTwoColumnOrName. destruct (fields _) as [|f fs]; [done|]. destruct (validCommandName f) eqn:Ev; [|done]. cbn [negb].
  destruct (parseTwoColumnCommand _) as [[n' d'']|] eqn:E; [intros [= <- <-]; by eapply parseTwoColumnCommand_name|].
  destruct fs; [|done]. intros [= <- <-]. unfold good_name. by rewrite Ev, orb_true_r.
Qed.

Lemma parseNameOnly_name s n : parseNameOnly s = Some n -> good_name n = true.
Proof.
  unfold parseNameOnly. destruct (fields s) as [|f [|]]; try done. cbv zeta. destruct (validCommandName _) eqn:E; [|done]. intros [= <-].
  unfold good_name. by rewrite E, orb_true_r.
Qed.

Record state_ok (st : PState) : Prop := {
  so_seen : forall n i, ps_seen st !! n = Some i <-> exists e, ps_ents st !! i = Some e /\ en_Name e = n;
  so_good : Forall good_entity (ps_ents st);
  so_pending : ps_pendingName st = EmptyString \/ good_name (ps_pendingName st) = true;
}.

Lemma addEntity_ok n d st : good_name n = true -> state_ok st -> state_ok (addEntity n d st).
Proof.
  intros Hn [Hs Hg Hp]. unfold addEntity. rewrite (good_name_trim n Hn). destruct (str_empty n); [done|].
  destruct (ps_seen st !! n) as [i|] eqn:E.
  - set (f := fun e => if str_empty (en_Descr e) && negb (str_empty (cleanDescr d)) then mkEntity (en_Name e) (cleanDescr d) (en_Kind e) else e).
    assert (forall e, en_Name (f e) = en_Name e /\ en_Kind (f e) = en_Kind e) as Hf by (intros e; unfold f; by case_match).
    split; [|by apply Forall_alter; [|intros e _ He; unfold good_entity; destruct (Hf e) as [-> ->]]|done].
    intros n' j. cbn [ps_seen ps_ents]. rewrite (Hs n' j). destruct (decide (j = i)) as [->|Hj].
    + rewrite list_lookup_alter_eq. split.
      * intros (e & He & <-). exists (f e). rewrite He. split; [done|]. apply Hf.
      * intros (e & (e' & He' & ->)%fmap_Some & <-). exists e'. split; [done|]. symmetry. apply Hf.
    + by rewrite list_lookup_alter_ne.
  - split; cbn [ps_seen ps_ents ps_pendingName]; [| |done].
    + intros n' j. rewrite lookup_insert. case_decide as Hd.
      * subst n'. split; [intros [= <-]; eexists; split; [apply list_lookup_middle; done|done]|].
        intros (e & He & Hne). apply lookup_app_Some in He as [He|[Hl He]]; [by rewrite (proj2 (Hs n j)) in E by eauto|].
        apply list_lookup_singleton_Some in He as [He _]. f_equal. lia.
      * rewrite (Hs n' j). split; [intros (e & He & Hne); exists e; split; [by apply lookup_app_l_Some|done]|].
        intros (e & He & Hne). apply lookup_app_Some in He as [He|[Hl He]]; [by exists e|].
        apply list_lookup_singleton_Some in He as [_ <-]. by destruct Hd.
    + apply Forall_app. split; [done|]. by repeat constructor.
Qed.

Lemma set_section_ok k st : state_ok st -> state_ok (set_section k st).
Proof. intros [Hs Hg Hp]. by split. Qed.
Lemma set_pending_ok n i d st : n = EmptyString \/ good_name n = true -> state_ok st -> state_ok (set_pending n i d st).
Proof. intros Hn [Hs Hg Hp]. by split. Qed.
Lemma flushPending_ok st : state_ok st -> state_ok (flushPending st).
Proof.
  intros H. unfold flushPending. destruct (so_pending _ H) as [E|E]; [by rewrite E|]. destruct (str_empty _); [done|].
  apply set_pending_ok; [by left|]. by apply addEntity_ok.
Qed.

Lemma foldl_addEntity_ok names d st : Forall (fun n => good_name n = true) names -> state_ok st ->
  state_ok (foldl (fun st n => addEntity n d st) st names).
Proof. intros Hn. revert st. induction Hn; intros st Hst; [done|]. simpl. apply IHHn. by apply addEntity_ok. Qed.

Lemma row_step_ok indent trimmed next st : state_ok st -> state_ok (row_step IsLetter IsUpper IsDigit indent trimmed next st).1.
Proof.
  intros H. unfold row_step. case_match; [done|]. destruct (parseFlagRow _ _ _ trimmed) as [[names descr]|] eqn:E1.
  { apply parseFlagRow_names in E1. by apply foldl_addEntity_ok. }
  destruct (parseBulletRow trimmed) as [[n d]|] eqn:E2.
  { apply parseBulletRow_name in E2. unfold bullet_step. repeat case_match; try done; by apply addEntity_ok. }
  destruct (parseTwoColumnCommand trimmed) as [[n d]|] eqn:E3.
  { apply parseTwoColumnCommand_name in E3. by apply addEntity_ok. }
  destruct (parseNameOnly trimmed) as [n|] eqn:E4; [|done]. apply parseNameOnly_name in E4.
  case_match; [|done]. apply set_pending_ok; [by right|done].
Qed.

Lemma line_step_ok line next st : state_ok st -> state_ok (line_step ToLower IsLetter IsUpper IsDigit line next st).1.
Proof.
  intros H. unfold line_step. cbv zeta.
  repeat first [done | apply flushPending_ok | apply set_section_ok | apply row_step_ok | apply set_pending_ok; [apply H|] | case_match].
Qed.

Lemma parse_loop_ok lines st : state_ok st -> state_ok (parse_loop ToLower IsLetter IsUpper IsDigit lines st).
Proof.
  assert (forall n lines st, (length lines <= n)%nat -> state_ok st -> state_ok (parse_loop ToLower IsLetter IsUpper IsDigit lines st)) as Hn.
  { clear. induction n as [|n IH]; intros [|line rest] st Hl H; cbn [parse_loop]; try (by apply flushPending_ok); simpl in Hl; [lia|].
    pose proof (line_step_ok line (head rest) st H) as Hs. destruct (line_step _ _ _ _ line (head rest) st) as [st' used]. simpl in Hs.
    destruct used; [destruct rest as [|x rest]; [by apply flushPending_ok|]|]; apply IH; simpl in *; try done; lia. }
  by apply (Hn (length lines)).
Qed.

Lemma Parse_good help : NoDup (en_Name <$> Parse ToLower IsLetter IsUpper IsDigit help) /\
  Forall good_entity (Parse ToLower IsLetter IsUpper IsDigit help).
Proof.
  unfold Parse, parseLines. set (st := parse_loop _ _ _ _ _ _).
  assert (state_ok st) as [Hs Hg _].
  { apply parse_loop_ok. split; [|constructor|by left]. intros n i. cbn [ps_seen ps_ents]. rewrite lookup_empty, lookup_nil. naive_solver. }
  split; [|done]. apply NoDup_alt. intros i j n Hi Hj. apply list_lookup_fmap_Some in Hi as (e & -> & He), Hj as (e' & Hn & He').
  assert (ps_seen st !! en_Name e = Some i) as Ei by (apply Hs; eauto).
  assert (ps_seen st !! en_Name e = Some j) as Ej by (apply Hs; eauto). congruence.
Qed.

(** C24: What the parser recovers from a help text is well formed, whatever the text: names are
    distinct, each is a flag or a command name by the code's own patterns and its kind says which,
    and every one is shown in the menu, none being dropped as unsafe. *)
Theorem Parse_wellformed (help : string) (argv : list string) :
  let ents := Parse ToLower IsLetter IsUpper IsDigit help in
  NoDup (en_Name <$> ents) /\
  Forall (fun e => (if has_prefix "-" (en_Name e) then flagToken (en_Name e) && bool_decide (en_Kind e = KindFlag)
                    else validCommandName (en_Name e) && bool_decide (en_Kind e = KindCommand)) = true /\
                   trim_space (en_Name e) = en_Name e) ents /\
  (argv <> [] -> entitiesToItems argv ents = ((fun e => join_with " " argv +:+ " " +:+ en_Name e)%string <$> ents, en_Descr <$> ents)).
Proof.
  cbv zeta. destruct (Parse_good help) as [Hnd Hg]. set (ents := Parse _ _ _ _ help) in *. split_and!; [done| |].
  - eapply Forall_impl; [exact Hg|]. intros e [Hn Hk]. split; [|by apply good_name_trim].
    rewrite Hk. unfold good_name in Hn. apply orb_true_iff in Hn as [Hf|Hv].
    + pose proof (flagToken_plain _ Hf) as (_ & -> & _). rewrite Hf. done.
    + pose proof (commandName_plain _ (validCommandName_name _ Hv)) as (_ & -> & _). rewrite Hv. done.
  - intros Hne. unfold entitiesToItems. destruct argv as [|a argv]; [done|]. cbn [length Nat.eqb orb].
    rewrite (List.forallb_filter_id _ ents); [by destruct ents|]. apply forallb_forall. intros e He.
    rewrite Forall_forall in Hg. destruct (Hg e (proj2 (list_elem_of_In _ _) He)) as [Hn _].
    destruct (good_name_plain _ Hn) as (_ & Hne' & Hsafe). unfold SafeArg. rewrite Hsafe. by destruct (en_Name e).
Qed.
End ParseSpec.

(** ** Summaries *)

Section SummarySpec.
Context (ToLower : string -> string) (IsLetter IsUpper IsDigit : Z -> bool).

Lemma abbrev_loop_total low dot abbrevs : (dot + 1 <= String.length low)%nat -> exists b, abbrev_loop low dot abbrevs = Some b.
Proof.
  intros Hd. induction abbrevs as [|a abbrevs IH]; cbn [abbrev_loop]; [by exists false|]. case_match; [|done].
  rewrite (proj2 (Nat.ltb_ge _ _) Hd). case_match; [by exists true|done].
Qed.

Lemma sentence_loop_total s n i : (String.length s <= String.length (ToLower s))%nat -> (i + n = String.length s)%nat ->
  exists r, sentence_loop ToLower IsUpper s n i = Some r.
Proof.
  intros Hl. revert i. induction n as [|n IH]; intros i Hi; cbn [sentence_loop]; [by eexists|]. case_match; [apply IH; lia|].
  case_match; [|by eexists]. case_match; [apply IH; lia|].
  assert (exists b, isAbbrevDot ToLower s i = Some b) as [b ->].
  { unfold isAbbrevDot. case_match; [by eexists|]. apply abbrev_loop_total. lia. }
  destruct b; [apply IH; lia|]. case_match; [by eexists|apply IH; lia].
Qed.

Lemma DecodeRune_width s : s <> EmptyString -> (1 <= (DecodeRune s).2 <= 4)%nat.
Proof. intros Hs. unfold DecodeRune. repeat case_match; simpl; lia. Qed.

Lemma runes_bytes s : (String.length s <= 4 * length (runes s))%nat.
Proof.
  unfold runes. assert (forall fuel s, (String.length s <= fuel)%nat -> (String.length s <= 4 * length (runes_from fuel s))%nat) as H; [|by apply H].
  clear s. induction fuel as [|fuel IH]; intros s Hf; [lia|]. destruct s as [|c s]; [simpl; lia|]. cbn [runes_from].
  pose proof (DecodeRune_width (String c s)) as Hw. destruct (DecodeRune (String c s)) as [r w]. simpl in Hw.
  pose proof (str_drop_len w (String c s)) as Hd. specialize (IH (str_drop w (String c s))). cbn [length] in *. simpl in Hf, Hd |- *.
  assert (1 <= w <= 4)%nat by (by apply Hw). lia.
Qed.

Lemma EncodeRune_len r : (String.length (EncodeRune r) <= 4)%nat.
Proof. unfold EncodeRune. repeat case_match; simpl; lia. Qed.

Lemma string_of_runes_len rs : (String.length (string_of_runes rs) <= 4 * length rs)%nat.
Proof. induction rs as [|r rs IH]; [done|]. simpl. rewrite str_length_app. pose proof (EncodeRune_len r). lia. Qed.

Lemma cut_back_le rs cut : (cut_back rs cut <= cut)%nat.
Proof. induction cut as [|k IH]; [done|]. cbn [cut_back]. case_match; lia. Qed.

Lemma clipOneLine_len s : (String.length (clipOneLine s) <= 640)%nat.
Proof.
  unfold clipOneLine. cbv zeta. case_match; [simpl; lia|]. case_match eqn:E.
  - apply Nat.leb_le in E. pose proof (runes_bytes (collapseSpace s)). unfold summaryMaxRunes in E. lia.
  - etrans; [apply trim_space_len|]. etrans; [apply string_of_runes_len|]. rewrite length_take.
    pose proof (cut_back_le (runes (collapseSpace s)) summaryMaxRunes). unfold summaryMaxRunes in *. case_match; lia.
Qed.

(** A help text of any size gives a summary of bounded size, and gives one at all, provided lowering a text does
    not shorten it: NodeSummary does not index out of range, and what it returns is at most 640 bytes long. *)
Theorem NodeSummary_bounded (help : string) :
  (forall s, String.length s <= String.length (ToLower s))%nat ->
  exists s, NodeSummary ToLower IsLetter IsUpper help = Some s /\ (String.length s <= 640)%nat.
Proof.
  intros Hl. unfold NodeSummary. cbv zeta. case_match; [exists EmptyString; split; [done|simpl; lia]|].
  destruct (node_loop _ _ _ None [] [] _) as [nameParts descParts].
  case_match; [eexists; split; [done|apply clipOneLine_len]|].
  destruct descParts as [|d ds]; [exists EmptyString; split; [done|simpl; lia]|].
  unfold firstSentence. cbv zeta. case_match; [simpl; eexists; split; [done|vm_compute; lia]|].
  destruct (sentence_loop_total (collapseSpace (join_with " " (d :: ds))) (String.length (collapseSpace (join_with " " (d :: ds)))) 0)
    as [r ->]; [apply Hl|done|]. eexists. split; [done|apply clipOneLine_len].
Qed.
End SummarySpec.

(** ** Menu rows *)

Lemma HelpArgv_safe prefix : Forall (fun w => safeArg w = true) (HelpArgv prefix).
Proof.
  unfold HelpArgv. cbv zeta. case_match; [constructor|]. case_match eqn:E; [|constructor].
  rewrite forallb_forall in E. apply Forall_forall. intros w Hw. apply E. by apply list_elem_of_In.
Qed.

Lemma item_words_safe ws words : item_words ws = Some words -> Forall (fun w => safeArg w = true /\ has_prefix "-" w = false) words.
Proof.
  revert words. induction ws as [|w ws IH]; intros words; cbn [item_words]; [intros [= <-]; constructor|].
  destruct (has_prefix "-" w) eqn:Ed; [intros [= <-]; constructor|]. destruct (safeArg w) eqn:Es; [|done]. cbn [negb].
  destruct (item_words ws) as [l|]; [|done]. intros [= <-]. constructor; [done|by apply IH].
Qed.

Lemma ItemArgv_safe prefix item : Forall (fun w => safeArg w = true) (ItemArgv prefix item).
Proof.
  unfold ItemArgv. cbv zeta. case_match eqn:Et; [constructor|]. apply orb_false_iff in Et as [_ Et%negb_false_iff].
  destruct (item_words (fields item)) as [words|] eqn:Ew; [|constructor]. apply item_words_safe in Ew.
  assert (Forall (fun w => safeArg w = true) words) as Hw by (eapply Forall_impl; [exact Ew|by intros w []]).
  case_match; [done|]. destruct (last (HelpArgv prefix)) eqn:El; [|case_match; [done|constructor]].
  case_match; [constructor|]. case_match; [constructor|]. apply Forall_app. split; [apply HelpArgv_safe|by repeat constructor].
Qed.
