(* ===== verification/HelpCache.v ===== *)
(** The cache of help pages: [internal/suggestcache/store.go], the tables on
    disk, and [internal/helpparse/cache.go], the cache of a session in front of
    them, which probes a program only when neither has the page. The session
    is written against the interface [Durable]; the tables implement it. *)

From S2P Require Import Prelude Text Utf8 HelpParse.
From Stdlib Require Import Ascii.

(** [ArgvKey]: the words of a command joined by NUL. *)
Definition ArgvKey (argv : list string) : string := join_with (String NUL EmptyString) argv.

Record DurablePage := mkPage { dp_Entities : list Entity; dp_Summary : string }.

(** ** The interface *)

Class Durable (D : Type) := {
  dLoad : list string -> D -> option DurablePage;
  dLoadMany : list (list string) -> D -> gmap string DurablePage;
  dSave : list string -> list Entity -> string -> M D unit;
}.
#[global] Hint Mode Durable ! : typeclass_instances.

(** What the session relies on: pages are found by key, alone or together;
    saving makes the page found with its summary, leaves the others alone, and
    changes nothing when it fails. *)
Class DurableLaws (D : Type) `{Durable D} := {
  dl_key a b (d : D) : a <> [] -> b <> [] -> ArgvKey a = ArgvKey b -> dLoad a d = dLoad b d;
  dl_many argvs (d : D) a : a ∈ argvs -> a <> [] -> dLoadMany argvs d !! ArgvKey a = dLoad a d;
  dl_saved argv ents sum (d d' : D) : dSave argv ents sum d = (d', Ok tt) -> dp_Summary <$> dLoad argv d' = Some sum;
  dl_others argv ents sum (d d' : D) b : dSave argv ents sum d = (d', Ok tt) -> ArgvKey b <> ArgvKey argv -> dLoad b d' = dLoad b d;
  dl_failed argv ents sum (d d' : D) e : dSave argv ents sum d = (d', Fail e) -> d' = d;
}.

(** ** [store.go] *)

Record Tool := mkTool { tl_Name : string; tl_BinPath : string; tl_BinMtime : Z; tl_BinSize : Z; tl_Version : string; tl_WarmedAt : Z }.
Record PageRow := mkPageRow { pg_tool : string; pg_summary : string; pg_probed_at : Z }.

(** The tables [tools], [pages] and [entities]; the key of an entity is
    [(parent_argv, name, kind)]. *)
Record Store := mkStore {
  s_tools : gmap string Tool; s_pages : gmap string PageRow; s_entities : gmap (string * string * string) string;
}.
Definition store_empty : Store := mkStore ∅ ∅ ∅.

Definition ToolName (argv : list string) : string := match argv with [] => EmptyString | a :: _ => path_base a end.

(** The columns of [tools] have defaults. *)
Definition bare_tool (name : string) : Tool := mkTool name "" 0 0 "" 0.
Definition insert_tool (name : string) (s : Store) : Store :=
  mkStore (match s_tools s !! name with Some _ => s_tools s | None => <[name := bare_tool name]> (s_tools s) end) (s_pages s) (s_entities s).
Definition upsert_page (key tool summary : string) (now : Time) (s : Store) : Store :=
  mkStore (s_tools s) (<[key := mkPageRow tool summary (now `div` 1000000000)]> (s_pages s)) (s_entities s).
Definition delete_entities (key : string) (s : Store) : Store :=
  mkStore (s_tools s) (s_pages s) (filter (fun x => x.1.1.1 <> key) (s_entities s)).

Definition entity_kind (name kind : string) : string :=
  if str_empty kind then if has_prefix "-" name then KindFlag else KindCommand else kind.

(** The loop of [Save]; [seen] holds the pairs already written. *)
Fixpoint save_entities (key : string) (seen : gset string) (ents : list Entity) : M Store unit :=
  match ents with
  | [] => mret tt
  | e :: ents =>
      let name := trim_space (en_Name e) in
      let kind := entity_kind name (en_Kind e) in
      let dup := (name +:+ String NUL kind)%string in
      if str_empty name || bool_decide (dup ∈ seen) then save_entities key seen ents
      else fun s =>
        match s_entities s !! (key, name, kind) with
        | Some _ => (s, Fail (EMsg "UNIQUE constraint failed"))
        | None => save_entities key ({[dup]} ∪ seen) ents (mkStore (s_tools s) (s_pages s) (<[(key, name, kind) := en_Descr e]> (s_entities s)))
        end
  end.

Definition Save (now : Time) (argv : list string) (ents : list Entity) (summary : string) : M Store unit :=
  match argv with
  | [] => fail (EMsg "suggest cache: empty argv")
  | _ =>
      let key := ArgvKey argv in
      transaction (
        _ ← modify (insert_tool (ToolName argv));
        _ ← modify (upsert_page key (ToolName argv) summary now);
        _ ← modify (delete_entities key);
        save_entities key ∅ ents)
  end.

(** [SELECT ... WHERE parent_argv = ? ORDER BY name]; rows with the same name
    come in the order of the primary key. *)
Definition entity_lt (a b : Entity) : bool :=
  if String.eqb (en_Name a) (en_Name b) then str_lt (en_Kind a) (en_Kind b) else str_lt (en_Name a) (en_Name b).
Definition entities_of (key : string) (s : Store) : list Entity :=
  sort_slice entity_lt
    (omap (fun '((parent, name, kind), descr) => if String.eqb parent key then Some (mkEntity name descr kind) else None) (map_to_list (s_entities s))).

Fixpoint uniqueKeys (seen : gset string) (argvs : list (list string)) : list string :=
  match argvs with
  | [] => []
  | a :: argvs =>
      if (length a =? 0)%nat || bool_decide (ArgvKey a ∈ seen) then uniqueKeys seen argvs
      else ArgvKey a :: uniqueKeys ({[ArgvKey a]} ∪ seen) argvs
  end.
Definition page_of (key : string) (s : Store) : option DurablePage :=
  (fun r => mkPage (entities_of key s) (pg_summary r)) <$> s_pages s !! key.
Definition LoadMany (argvs : list (list string)) (s : Store) : gmap string DurablePage :=
  list_to_map (omap (fun k => pair k <$> page_of k s) (uniqueKeys ∅ argvs)).
Definition Load (argv : list string) (s : Store) : option DurablePage :=
  match argv with [] => None | _ => LoadMany [argv] s !! ArgvKey argv end.

(** Deleting a page deletes its entities ([ON DELETE CASCADE]). *)
Definition delete_pages (tool : string) (s : Store) : Store :=
  let pages := filter (fun x => pg_tool x.2 <> tool) (s_pages s) in
  mkStore (s_tools s) pages (filter (fun x => ~ (is_Some (s_pages s !! x.1.1.1) /\ pages !! x.1.1.1 = None)) (s_entities s)).
Definition purge_tool (tool : string) (s : Store) : Store :=
  let tool := trim_space tool in
  if str_empty tool then s
  else let s := delete_pages tool s in mkStore (delete tool (s_tools s)) (s_pages s) (s_entities s).
Definition Purge (tools : list string) : M Store unit :=
  match tools with
  | [] => fail (EMsg "suggest cache: no tools")
  | _ => modify (fun s => foldl (fun s t => purge_tool t s) s tools)
  end.
Definition PurgeAll : M Store unit := modify (fun _ => store_empty).
Definition UpsertTool (t : Tool) : M Store unit :=
  if str_empty (tl_Name t) then fail (EMsg "suggest cache: empty tool name")
  else modify (fun s => mkStore (<[tl_Name t := t]> (s_tools s)) (s_pages s) (s_entities s)).

(** ** [cache.go]: the cache of a session *)

Section Session.
Context {D : Type} `{Durable D}.
(** Case mapping and character classes, and the program's help text. *)
Context (ToLower : string -> string) (IsLetter IsUpper IsDigit : Z -> bool).
(** A probe, and whether the context has ended after it. *)
Context (probe : list string -> result string) (ctx_err : list string -> bool).

(** The two maps of [Cache], its durable store, and the probes made so far. *)
Record Session := mkSession {
  ss_byKey : gmap string (list Entity); ss_summaries : gmap string string; ss_durable : option D; ss_probed : list (list string);
}.
Definition NewCache : Session := mkSession ∅ ∅ None [].
Definition SetDurable (d : option D) : M Session unit := modify (fun s => mkSession (ss_byKey s) (ss_summaries s) d (ss_probed s)).

Definition Get (argv : list string) (s : Session) : option (list Entity) := ss_byKey s !! ArgvKey argv.
Definition GetSummary (argv : list string) (s : Session) : option string := ss_summaries s !! ArgvKey argv.
Definition Put (argv : list string) (ents : list Entity) (s : Session) : Session :=
  mkSession (<[ArgvKey argv := ents]> (ss_byKey s)) (ss_summaries s) (ss_durable s) (ss_probed s).
Definition PutSummary (argv : list string) (summary : string) (s : Session) : Session :=
  mkSession (ss_byKey s) (<[ArgvKey argv := summary]> (ss_summaries s)) (ss_durable s) (ss_probed s).
Definition hydrate (argv : list string) (ents : list Entity) (summary : string) (s : Session) : Session :=
  PutSummary argv summary (Put argv ents s).

Definition lookupPage (argv : list string) : M Session (option (list Entity * string)) := fun s =>
  match Get argv s with
  | Some ents => (s, Ok (Some (ents, default EmptyString (GetSummary argv s))))
  | None =>
      match GetSummary argv s with
      | Some sum => (s, Ok (Some ([], sum)))
      | None =>
          match d ← ss_durable s; dLoad argv d with
          | None => (s, Ok None)
          | Some p => (hydrate argv (dp_Entities p) (dp_Summary p) s, Ok (Some (dp_Entities p, dp_Summary p)))
          end
      end
  end.

(** An error of [Save] is logged. *)
Definition persistPage (argv : list string) (ents : list Entity) (summary : string) (s : Session) : Session :=
  let s := hydrate argv ents summary s in
  match ss_durable s with
  | None => s
  | Some d => mkSession (ss_byKey s) (ss_summaries s) (Some (dSave argv ents summary d).1) (ss_probed s)
  end.

Definition log_probe (argv : list string) : M Session unit :=
  modify (fun s => mkSession (ss_byKey s) (ss_summaries s) (ss_durable s) (ss_probed s ++ [argv])).

(** [probeAndPersist] for one caller at a time: concurrent calls with the same
    key wait for the first and share its result. *)
Definition probeAndPersist (argv : list string) : M Session (list Entity * string) :=
  page ← lookupPage argv;
  match page with
  | Some p => mret p
  | None =>
      _ ← log_probe argv;
      match probe argv with
      | Fail _ | Ok EmptyString =>
          if ctx_err argv then mret ([], EmptyString)
          else _ ← modify (persistPage argv [] EmptyString); mret ([], EmptyString)
      | Ok help =>
          match NodeSummary ToLower IsLetter IsUpper help with
          | None => fail (EMsg "panic: slice bounds out of range")
          | Some sum =>
              let ents := Parse ToLower IsLetter IsUpper IsDigit help in
              _ ← modify (persistPage argv ents sum); mret (ents, sum)
          end
      end
  end.

Definition page_entities (argv : list string) : M Session (list Entity) :=
  page ← lookupPage argv;
  match page with
  | Some (ents, _) => mret ents
  | None => r ← probeAndPersist argv; mret r.1
  end.

Definition FillEmpty (prefix : string) (items descrs : list string) : M Session (list string) :=
  if negb (NeedsEnrich items descrs) then mret descrs
  else match HelpArgv prefix with
       | [] => mret descrs
       | argv => ents ← page_entities argv; mret (Enrich ToLower prefix items descrs ents)
       end.
Definition Items (prefix : string) : M Session (list string * list string) :=
  match HelpArgv prefix with
  | [] => mret ([], [])
  | argv => ents ← page_entities argv; mret (entitiesToItems argv ents)
  end.
Definition CompleteOrHistory (prefix : string) (items descrs : list string) (history : option (list string)) : M Session (list string * list string) :=
  match items with
  | _ :: _ => mret (items, descrs)
  | [] =>
      r ← Items prefix;
      match r.1 with
      | _ :: _ => mret r
      | [] => mret (default [] history, [])
      end
  end.

(** *** [FillNodes] *)

(** The rows of the first loop: those without a description that have a
    command of their own, answered from memory or still missing. *)
Definition pad (items descrs : list string) : list string := descrs ++ replicate (length items - length descrs) EmptyString.
Definition node_row (prefix : string) (s : Session) (out : list string) (i : nat) (item : string) : list string * list (nat * list string) :=
  if negb (str_empty (trim_space (default EmptyString (out !! i)))) then (out, [])
  else
    let argv := ItemArgv prefix item in
    if (length argv =? 0)%nat || argvEqual argv (HelpArgv prefix) then (out, [])
    else match GetSummary argv s with
         | Some sum => (if str_empty sum then out else <[i := sum]> out, [])
         | None => (out, [(i, argv)])
         end.
Fixpoint node_rows (prefix : string) (s : Session) (out : list string) (i : nat) (items : list string) : list string * list (nat * list string) :=
  match items with
  | [] => (out, [])
  | item :: items =>
      let '(out, m) := node_row prefix s out i item in
      let '(out, ms) := node_rows prefix s out (Datatypes.S i) items in (out, m ++ ms)
  end.

(** The second loop: the pages the durable store has. *)
Fixpoint durable_rows (pages : gmap string DurablePage) (missing : list (nat * list string)) (out : list string) (s : Session)
    : list string * list (nat * list string) * Session :=
  match missing with
  | [] => (out, [], s)
  | (i, argv) :: missing =>
      match pages !! ArgvKey argv with
      | None => let '(out, still, s) := durable_rows pages missing out s in (out, (i, argv) :: still, s)
      | Some p =>
          durable_rows pages missing (if str_empty (dp_Summary p) then out else <[i := dp_Summary p]> out) (hydrate argv (dp_Entities p) (dp_Summary p) s)
      end
  end.

(** What is left for the workers: the descriptions so far, the rows to probe. *)
Definition fill_start (prefix : string) (items descrs : list string) (limit : Z) (s : Session) : list string * list (nat * list string) * Session :=
  let out := pad items descrs in
  if negb (NeedsEnrich items out) then (out, [], s)
  else
    let '(out, missing) := node_rows prefix s out 0 items in
    let '(out, missing, s) :=
      match ss_durable s with
      | Some d => if (0 <? length missing)%nat then durable_rows (dLoadMany missing.*2 d) missing out s else (out, missing, s)
      | None => (out, missing, s)
      end in
    (out, if (0 <? limit) && (limit <? Z.of_nat (length missing)) then take (Z.to_nat limit) missing else missing, s).

Definition nodeProbeJobs : nat := 4.

(** The workers: [po_next] is the next row, [po_running] the rows being probed. *)
Record Pool := mkPool { po_next : nat; po_running : list nat; po_out : list string; po_session : Session }.

(** A worker takes the next row; a worker finishes its row. *)
Inductive pool_step (missing : list (nat * list string)) : Pool -> Pool -> Prop :=
| pool_take p :
    (po_next p < length missing)%nat -> (length (po_running p) < nodeProbeJobs)%nat ->
    pool_step missing p (mkPool (Datatypes.S (po_next p)) (po_running p ++ [po_next p]) (po_out p) (po_session p))
| pool_finish p l k l' i argv s' ents sum :
    po_running p = l ++ k :: l' -> missing !! k = Some (i, argv) -> probeAndPersist argv (po_session p) = (s', Ok (ents, sum)) ->
    pool_step missing p (mkPool (po_next p) (l ++ l') (if str_empty sum then po_out p else <[i := sum]> (po_out p)) s').
End Session.
