(* ===== verification/HelpCacheSpec.v ===== *)
(** What the cache of help pages promises: the tables implement the interface
    of the session and keep their references, a page that is saved is loaded
    back, a program is probed only when its page is nowhere, and the workers
    that fill a menu compute the same descriptions in every schedule. *)

From S2P Require Import Prelude Text Utf8 HelpParse HelpCache.
From Stdlib Require Import Ascii.

(** ** Loading *)

Lemma elem_uniqueKeys seen argvs k :
  k ∈ uniqueKeys seen argvs <-> k ∉ seen /\ exists a, a ∈ argvs /\ a <> [] /\ ArgvKey a = k.
Proof.
  revert seen. induction argvs as [|a argvs IH]; intros seen; cbn [uniqueKeys].
  { rewrite elem_of_nil. split; [done|]. intros (_ & a & Ha & _). by apply elem_of_nil in Ha. }
  destruct (Nat.eqb_spec (length a) 0) as [Hl|Hl]; cbn [orb].
  { apply nil_length_inv in Hl as ->. rewrite IH. split; intros (Hk & b & Hb & Hne & He); (split; [done|]); exists b; (split; [|done]).
    - by right.
    - by apply elem_of_cons in Hb as [->|]. }
  assert (a <> []) as Ha by (by intros ->). case_bool_decide as Hs.
  - rewrite IH. split; intros (Hk & b & Hb & Hne & He); (split; [done|]); exists b; (split; [|done]); [by right|].
    apply elem_of_cons in Hb as [->|]; [by subst|done].
  - rewrite elem_of_cons, IH. split.
    + intros [->|(Hk & b & Hb & Hne & He)]; [split; [done|]; exists a; split; [by left|done]|].
      split; [set_solver|]. exists b. split; [by right|done].
    + intros (Hk & b & [->|Hb]%elem_of_cons & Hne & He); [by left|]. destruct (decide (k = ArgvKey a)) as [|Hd]; [by left|right].
      split; [set_solver|]. by exists b.
Qed.

Lemma lookup_pairs {B} (f : string -> option B) ks k :
  (list_to_map (omap (fun k => pair k <$> f k) ks) : gmap string B) !! k = (if decide (k ∈ ks) then f k else None).
Proof.
  induction ks as [|x ks IH]; [by rewrite decide_False by apply not_elem_of_nil|].
  assert (k <> x -> (if decide (k ∈ x :: ks) then f k else None) = (if decide (k ∈ ks) then f k else None)) as Hne.
  { intros Hk. apply decide_ext. rewrite elem_of_cons. tauto. }
  assert (k = x -> (if decide (k ∈ x :: ks) then f k else None) = f k) as Heq.
  { intros ->. rewrite decide_True; [done|]. apply elem_of_cons. by left. }
  cbn [omap list_omap]. destruct (f x) as [b|] eqn:Ex; cbn [fmap option_fmap option_map].
  - simpl. destruct (decide (k = x)) as [Hk|Hk]; [rewrite (Heq Hk), Hk, Ex; apply lookup_insert_eq|].
    rewrite (Hne Hk), lookup_insert_ne by done. exact IH.
  - etrans; [exact IH|]. destruct (decide (k = x)) as [Hk|Hk]; [|symmetry; by apply Hne]. rewrite (Heq Hk), Hk, Ex. by destruct (decide (x ∈ ks)).
Qed.

Lemma LoadMany_page argvs s a : a ∈ argvs -> a <> [] -> LoadMany argvs s !! ArgvKey a = page_of (ArgvKey a) s.
Proof.
  intros Ha Hne. unfold LoadMany. rewrite lookup_pairs. rewrite decide_True; [done|]. apply elem_uniqueKeys. split; [set_solver|]. by exists a.
Qed.

Lemma Load_page argv s : argv <> [] -> Load argv s = page_of (ArgvKey argv) s.
Proof. intros Hne. destruct argv as [|a argv]; [done|]. apply LoadMany_page; [by left|done]. Qed.

(** ** Saving *)

(** The entities as they are written: trimmed, with a kind, each pair once. *)
Fixpoint written (seen : gset string) (ents : list Entity) : list Entity :=
  match ents with
  | [] => []
  | e :: ents =>
      let name := trim_space (en_Name e) in
      let kind := entity_kind name (en_Kind e) in
      let dup := (name +:+ String NUL kind)%string in
      if str_empty name || bool_decide (dup ∈ seen) then written seen ents
      else mkEntity name (en_Descr e) kind :: written ({[dup]} ∪ seen) ents
  end.
Notation row_of key e := ((key, en_Name e, en_Kind e), en_Descr e).

Lemma save_entities_run key seen ents s :
  (forall name kind, is_Some (s_entities s !! (key, name, kind)) -> (name +:+ String NUL kind)%string ∈ seen) ->
  exists new, save_entities key seen ents s = (mkStore (s_tools s) (s_pages s) new, Ok tt) /\
    (forall k n d, k <> key -> new !! (k, n, d) = s_entities s !! (k, n, d)) /\
    (forall n d x, new !! (key, n, d) = Some x <-> s_entities s !! (key, n, d) = Some x \/ mkEntity n x d ∈ written seen ents).
Proof.
  revert seen s. induction ents as [|e ents IH]; intros seen s Hs; cbn [save_entities written].
  { exists (s_entities s). split; [by destruct s|]. split; [done|]. intros n d x. rewrite elem_of_nil. tauto. }
  set (name := trim_space (en_Name e)). set (kind := entity_kind name (en_Kind e)).
  destruct (str_empty name || bool_decide ((name +:+ String NUL kind)%string ∈ seen)) eqn:E; [by apply IH|].
  apply orb_false_iff in E as [_ E]. rewrite bool_decide_eq_false in E.
  destruct (s_entities s !! (key, name, kind)) eqn:El; [by destruct E; apply Hs|].
  destruct (IH ({[(name +:+ String NUL kind)%string]} ∪ seen) (mkStore (s_tools s) (s_pages s) (<[(key, name, kind) := en_Descr e]> (s_entities s))))
    as (new & Hrun & Hother & Hnew).
  { cbn [s_entities]. intros n d. rewrite lookup_insert. case_decide as Hd; [injection Hd as <- <-; set_solver|]. intros H. apply Hs in H. set_solver. }
  exists new. split; [exact Hrun|]. split.
  - intros k n d Hk. rewrite (Hother k n d Hk). cbn [s_entities]. rewrite lookup_insert_ne; [done|congruence].
  - intros n d x. rewrite Hnew. cbn [s_entities]. rewrite lookup_insert, elem_of_cons. case_decide as Hd.
    + injection Hd as <- <-. rewrite El. naive_solver.
    + naive_solver.
Qed.

Lemma written_NoDup seen ents : NoDup ((fun e => (en_Name e, en_Kind e)) <$> written seen ents) /\
  forall e, e ∈ written seen ents -> (en_Name e +:+ String NUL (en_Kind e))%string ∉ seen.
Proof.
  revert seen. induction ents as [|e ents IH]; intros seen; cbn [written]; [split; [constructor|by intros e ?%not_elem_of_nil]|].
  set (name := trim_space (en_Name e)). set (kind := entity_kind name (en_Kind e)).
  destruct (str_empty name || bool_decide ((name +:+ String NUL kind)%string ∈ seen)) eqn:E; [done|].
  apply orb_false_iff in E as [_ E]. rewrite bool_decide_eq_false in E.
  destruct (IH ({[(name +:+ String NUL kind)%string]} ∪ seen)) as [Hnd Hns]. split.
  - rewrite fmap_cons, NoDup_cons. split; [|done]. intros (e' & Heq & Hin)%list_elem_of_fmap. simpl in Heq. injection Heq as Hn Hk.
    apply (Hns e' Hin). rewrite <- Hn, <- Hk. set_solver.
  - intros e' [->|Hin]%elem_of_cons; [done|]. apply Hns in Hin. set_solver.
Qed.

Notation rows_of key s :=
  (omap (fun '((parent, name, kind), descr) => if String.eqb parent key then Some (mkEntity name descr kind) else None) (map_to_list (s_entities s))).

Lemma elem_rows_of key s e : e ∈ rows_of key s <-> s_entities s !! (key, en_Name e, en_Kind e) = Some (en_Descr e).
Proof.
  rewrite list_elem_of_omap. split.
  - intros ([[[p n] d] x] & Hin & Heq). destruct (String.eqb_spec p key) as [->|]; [|done]. injection Heq as <-. by apply elem_of_map_to_list.
  - intros He. exists ((key, en_Name e, en_Kind e), en_Descr e). split; [by apply elem_of_map_to_list|]. rewrite String.eqb_refl. by destruct e.
Qed.

Lemma rows_of_NoDup key s : NoDup (rows_of key s).
Proof.
  assert (NoDup (map_to_list (s_entities s))) as Hm by apply NoDup_map_to_list. revert Hm.
  induction (map_to_list (s_entities s)) as [|[[[p n] d] x] ms IH]; intros Hm; [constructor|]. apply NoDup_cons in Hm as [Hx Hm]. cbn [omap list_omap].
  destruct (String.eqb_spec p key) as [->|]; [|by apply IH]. apply NoDup_cons. split; [|by apply IH].
  intros ([[[p' n'] d'] x'] & Hin & Heq)%list_elem_of_omap. destruct (String.eqb_spec p' key) as [->|]; [|done]. injection Heq as -> -> ->. done.
Qed.

(** The entities of a page are those that were written. *)
Lemma entities_of_perm key s l :
  NoDup ((fun e => (en_Name e, en_Kind e)) <$> l) ->
  (forall n d x, s_entities s !! (key, n, d) = Some x <-> mkEntity n x d ∈ l) ->
  entities_of key s ≡ₚ l.
Proof.
  intros Hnd Hl. unfold entities_of. rewrite sort_slice_perm. apply NoDup_Permutation; [apply rows_of_NoDup|by apply NoDup_fmap_1 in Hnd|].
  intros e. rewrite elem_rows_of, Hl. by destruct e.
Qed.

(** The order of the entities is total. *)
Lemma entity_lt_spec a b : entity_lt a b = true <->
  str_lt (en_Name a) (en_Name b) = true \/ (en_Name a = en_Name b /\ str_lt (en_Kind a) (en_Kind b) = true).
Proof.
  unfold entity_lt. destruct (String.eqb_spec (en_Name a) (en_Name b)) as [E|E]; [rewrite E, str_lt_irrefl; naive_solver|naive_solver].
Qed.
Lemma entity_lt_total a b : entity_lt a b = false -> entity_lt b a = false -> en_Name a = en_Name b /\ en_Kind a = en_Kind b.
Proof.
  intros Hab Hba. unfold entity_lt in *. rewrite (String.eqb_sym (en_Name b)) in Hba.
  destruct (String.eqb_spec (en_Name a) (en_Name b)) as [E|E]; [split; [done|by apply str_lt_total]|]. by destruct E; apply str_lt_total.
Qed.
Lemma entity_lt_asym a b : entity_lt a b = true -> entity_lt b a = false.
Proof.
  intros H. apply not_true_iff_false. rewrite entity_lt_spec in *.
  intros [H1|[H1 H1']]; destruct H as [H2|[H2 H2']]; [|rewrite H2 in H1| rewrite H1 in H2|]; try (by rewrite str_lt_irrefl in *).
  - by rewrite (str_lt_asym _ _ H2) in H1.
  - by rewrite (str_lt_asym _ _ H2') in H1'.
Qed.
Lemma entity_lt_trans_false a b c : entity_lt b a = false -> entity_lt c b = false -> entity_lt c a = false.
Proof.
  intros H1 H2. apply not_true_iff_false. intros H3.
  assert (forall x y z, entity_lt x y = true -> entity_lt y z = true -> entity_lt x z = true) as Htr.
  { intros x y z. rewrite !entity_lt_spec. intros [A|[A A']] [B|[B B']].
    - left. by eapply str_lt_trans.
    - left. by rewrite <- B.
    - left. by rewrite A.
    - right. split; [congruence|by eapply str_lt_trans]. }
  destruct (entity_lt a b) eqn:E; [by rewrite (Htr _ _ _ H3 E) in H2|]. destruct (entity_lt_total _ _ E H1) as [En Ek].
  assert (entity_lt c b = true) by (rewrite entity_lt_spec in H3 |- *; by rewrite <- En, <- Ek). congruence.
Qed.
Lemma entity_weak_order l : weak_order_on entity_lt l.
Proof. split; [intros x y _ _; apply entity_lt_asym|intros x y z _ _ _; apply entity_lt_trans_false]. Qed.

(** A page depends on the rows with its key. *)
Lemma page_of_ext k s s' :
  s_pages s !! k = s_pages s' !! k -> (forall n d, s_entities s !! (k, n, d) = s_entities s' !! (k, n, d)) -> page_of k s = page_of k s'.
Proof.
  intros Hp He. assert (entities_of k s = entities_of k s') as E; [|unfold page_of; by rewrite Hp, E].
  apply sort_slice_canonical; [apply entity_weak_order| |].
  - intros x y Hx Hy H1 H2. destruct (entity_lt_total _ _ H1 H2) as [En Ek]. apply elem_rows_of in Hx, Hy. rewrite En, Ek in Hx.
    destruct x, y; simpl in *. congruence.
  - apply NoDup_Permutation; [apply rows_of_NoDup..|]. intros e. by rewrite !elem_rows_of, He.
Qed.

Lemma Save_run now argv ents sum s : argv <> [] ->
  exists new, Save now argv ents sum s =
    (mkStore (s_tools (insert_tool (ToolName argv) s)) (<[ArgvKey argv := mkPageRow (ToolName argv) sum (now `div` 1000000000)]> (s_pages s)) new, Ok tt) /\
    (forall k n d, k <> ArgvKey argv -> new !! (k, n, d) = s_entities s !! (k, n, d)) /\
    (forall n d x, new !! (ArgvKey argv, n, d) = Some x <-> mkEntity n x d ∈ written ∅ ents).
Proof.
  intros Hne. destruct argv as [|a argv]; [done|]. set (key := ArgvKey (a :: argv)).
  set (s1 := delete_entities key (upsert_page key (ToolName (a :: argv)) sum now (insert_tool (ToolName (a :: argv)) s))).
  assert (forall k n d x, s_entities s1 !! (k, n, d) = Some x <-> s_entities s !! (k, n, d) = Some x /\ k <> key) as Hdel.
  { intros k n d x. unfold s1, delete_entities. cbn [s_entities upsert_page insert_tool]. rewrite map_lookup_filter_Some. done. }
  destruct (save_entities_run key ∅ ents s1) as (new & Hrun & Hother & Hnew).
  { intros n d [x Hx]. by apply Hdel in Hx as [_ []]. }
  exists new. split; [|split].
  - unfold Save, transaction. fold key. unfold mbind, M_bind, modify. change (save_entities key ∅ ents _) with (save_entities key ∅ ents s1).
    rewrite Hrun. done.
  - intros k n d Hk. rewrite (Hother k n d Hk). apply option_eq. intros x. rewrite Hdel. tauto.
  - intros n d x. rewrite Hnew. split; [intros [Hx|]; [|done]|by right]. by apply Hdel in Hx as [_ []].
Qed.


(** ** The tables implement the interface *)

#[global] Instance store_durable (now : Time) : Durable Store := {| dLoad := Load; dLoadMany := LoadMany; dSave := Save now |}.

#[global] Instance store_laws now : @DurableLaws Store (store_durable now).
Proof.
  split; cbn [dLoad dLoadMany dSave store_durable].
  - intros a b d Ha Hb E. by rewrite !Load_page, E.
  - intros argvs d a Ha Hne. by rewrite LoadMany_page, Load_page.
  - intros argv ents sum d d' H. destruct argv as [|a argv]; [done|].
    destruct (Save_run now (a :: argv) ents sum d) as (new & E & _ & _); [done|]. rewrite E in H. injection H as <-.
    rewrite Load_page by done. unfold page_of. cbn [s_pages]. by rewrite lookup_insert_eq.
  - intros argv ents sum d d' b H Hb. destruct argv as [|a argv]; [done|].
    destruct (Save_run now (a :: argv) ents sum d) as (new & E & Ho & _); [done|]. rewrite E in H. injection H as <-.
    destruct b as [|b bs]; [done|]. rewrite !Load_page by done.
    apply page_of_ext; cbn [s_pages s_entities]; [by rewrite lookup_insert_ne|]. intros n k. by apply Ho.
  - intros argv ents sum d d' e H. destruct argv as [|a argv]; [by injection H as <- _|].
    destruct (Save_run now (a :: argv) ents sum d) as (new & E & _ & _); [done|]. rewrite E in H. discriminate.
Qed.

(** Entities belong to pages. *)
Definition references (s : Store) : Prop := forall k n d, is_Some (s_entities s !! (k, n, d)) -> is_Some (s_pages s !! k).

Definition purged (tools : list string) (r : PageRow) : bool :=
  existsb (fun t => negb (str_empty (trim_space t)) && String.eqb (pg_tool r) (trim_space t)) tools.
Definition keep_row (tools : list string) (o : option PageRow) : option PageRow := r ← o; if purged tools r then None else Some r.

Lemma purge_tool_page t s k : references s ->
  references (purge_tool t s) /\ s_pages (purge_tool t s) !! k = keep_row [t] (s_pages s !! k) /\
  page_of k (purge_tool t s) =
    match keep_row [t] (s_pages s !! k) with Some _ => page_of k s | None => None end.
Proof.
  intros Hr. unfold purge_tool, keep_row, purged. cbv zeta. cbn [existsb]. destruct (str_empty (trim_space t)).
  { split; [done|]. unfold page_of. by destruct (s_pages s !! k). }
  set (t' := trim_space t). set (pages := filter (fun x => pg_tool x.2 <> t') (s_pages s)).
  assert (forall k, pages !! k = match s_pages s !! k with Some r => if String.eqb (pg_tool r) t' then None else Some r | None => None end) as Hp.
  { intros k'. apply option_eq. intros r. unfold pages. rewrite map_lookup_filter_Some. simpl. destruct (s_pages s !! k') as [r'|]; [|naive_solver].
    destruct (String.eqb_spec (pg_tool r') t'); naive_solver. }
  assert (forall k n d, s_entities (delete_pages t' s) !! (k, n, d) = if decide (is_Some (pages !! k)) then s_entities s !! (k, n, d) else None) as He.
  { intros k' n d. apply option_eq. intros x. unfold delete_pages. cbn [s_entities]. fold pages. rewrite map_lookup_filter_Some. cbn [fst].
    case_decide as Hd; rewrite eq_None_not_Some; [tauto|]. split; [|done]. intros [Hx Hn]. destruct Hn. split; [|done]. by eapply Hr. }
  cbn [negb andb s_pages]. change (s_pages (delete_pages t' s)) with pages. fold t'. split_and!.
  - intros k' n d. cbn [s_entities s_pages]. rewrite He. case_decide; [done|]. by intros [? ?].
  - rewrite Hp. destruct (s_pages s !! k) as [r|]; [|done]. simpl. by rewrite orb_false_r.
  - destruct (s_pages s !! k) as [r|] eqn:Ek; simpl; rewrite ?orb_false_r.
    + destruct (String.eqb (pg_tool r) t') eqn:Et.
      * unfold page_of. cbn [s_pages]. change (s_pages (delete_pages t' s)) with pages. by rewrite Hp, Ek, Et.
      * apply page_of_ext; cbn [s_pages s_entities].
        -- change (s_pages (delete_pages t' s)) with pages. by rewrite Hp, Ek, Et.
        -- intros n d. rewrite He, Hp, Ek, Et. by rewrite decide_True by (by eexists).
    + unfold page_of. cbn [s_pages]. change (s_pages (delete_pages t' s)) with pages. by rewrite Hp, Ek.
Qed.

(** ** Pages of parsed texts *)

Lemma str_has_all sep s (p : ascii -> bool) : p sep = false -> str_all p s = true -> str_has sep s = false.
Proof.
  intros Hsep Hs. unfold str_has. apply negb_false_iff. revert Hs. apply str_all_weaken. intros c Hc. destruct (Ascii.eqb_spec sep c); [congruence|done].
Qed.

Lemma good_dup_inj e e' : good_entity e -> good_entity e' ->
  (en_Name e +:+ String NUL (en_Kind e))%string = (en_Name e' +:+ String NUL (en_Kind e'))%string -> en_Name e = en_Name e'.
Proof.
  intros [He _] [He' _] E. apply good_name_plain in He as (He & _), He' as (He' & _).
  apply (f_equal (cut NUL)) in E. rewrite !cut_app in E by (by apply (str_has_all NUL _ plain_char)). congruence.
Qed.

Lemma written_good seen ents : NoDup (en_Name <$> ents) -> Forall good_entity ents ->
  (forall e, e ∈ ents -> (en_Name e +:+ String NUL (en_Kind e))%string ∉ seen) -> written seen ents = ents.
Proof.
  intros Hnd Hg. revert seen. induction Hg as [|e ents He Hg IH]; intros seen Hseen; [done|]. rewrite fmap_cons, NoDup_cons in Hnd. destruct Hnd as [Hn Hnd].
  cbn [written]. pose proof He as [Hname Hkind]. rewrite (good_name_trim _ Hname).
  assert (entity_kind (en_Name e) (en_Kind e) = en_Kind e) as -> by (unfold entity_kind; rewrite Hkind; by destruct (has_prefix "-" (en_Name e))).
  assert (str_empty (en_Name e) = false) as -> by (pose proof (good_name_plain _ Hname) as (_ & ? & _); by destruct (en_Name e)).
  rewrite bool_decide_eq_false_2 by (apply Hseen; by left). cbn [orb]. rewrite IH; [by destruct e|done|].
  intros e' He'. rewrite not_elem_of_union, not_elem_of_singleton. split; [|apply Hseen; by right].
  intros E. apply Hn. rewrite Forall_forall in Hg. rewrite <- (good_dup_inj _ _ (Hg _ He') He E). by apply list_elem_of_fmap_2.
Qed.

Lemma purge_tools_page tools s k : references s ->
  references (foldl (fun s t => purge_tool t s) s tools) /\
  page_of k (foldl (fun s t => purge_tool t s) s tools) = match keep_row tools (s_pages s !! k) with Some _ => page_of k s | None => None end.
Proof.
  revert s. induction tools as [|t tools IH]; intros s Hr; cbn [foldl].
  { split; [done|]. unfold page_of. by destruct (s_pages s !! k). }
  destruct (purge_tool_page t s k Hr) as (Hr1 & Hk1 & Hp1). destruct (IH _ Hr1) as [Hr2 Hp2]. split; [done|]. rewrite Hp2, Hk1, Hp1.
  unfold keep_row, purged. destruct (s_pages s !! k) as [r|]; [|done]. simpl. rewrite orb_false_r.
  destruct (_ && _); simpl; [done|]. by destruct (existsb _ tools).
Qed.

(** Saving a parsed text: the page is there, the others are as before. *)
Lemma Save_parsed (ToLower : string -> string) (IsLetter IsUpper IsDigit : Z -> bool) (now : Time) argv help sum s :
  argv <> [] -> references s ->
  let ents := Parse ToLower IsLetter IsUpper IsDigit help in
  exists s', Save now argv ents sum s = (s', Ok tt) /\ references s' /\
    (exists l, Load argv s' = Some (mkPage l sum) /\ l ≡ₚ ents /\ sorted_by entity_lt l) /\
    (forall b, ArgvKey b <> ArgvKey argv -> Load b s' = Load b s).
Proof.
  intros Hne Hr ents. destruct (Parse_good ToLower IsLetter IsUpper IsDigit help) as [Hnd Hg]. fold ents in Hnd, Hg.
  destruct (Save_run now argv ents sum s Hne) as (new & E & Ho & Hn). rewrite (written_good ∅ ents Hnd Hg) in Hn by set_solver.
  eexists. split; [exact E|]. set (s' := mkStore _ _ new) in *.
  assert (references s') as Hr'.
  { intros k n d. cbn [s_entities s_pages s']. destruct (decide (k = ArgvKey argv)) as [->|Hk]; [rewrite lookup_insert_eq; by eexists|].
    rewrite Ho, lookup_insert_ne by done. apply Hr. }
  split; [done|]. split.
  - exists (entities_of (ArgvKey argv) s'). split; [|split].
    + rewrite Load_page by done. unfold page_of, s' at 2. cbn [s_pages]. by rewrite lookup_insert_eq.
    + apply entities_of_perm; [|exact Hn]. by apply (NoDup_fmap_1 fst); rewrite <- list_fmap_compose.
    + apply sort_slice_sorted, entity_weak_order.
  - intros b Hb. exact (@dl_others Store (store_durable now) (store_laws now) argv ents sum s s' b E Hb).
Qed.

(** The tables of the help cache keep what they are given: saving the commands and flags of a
    parsed help text succeeds, loading the page gives all of them back and nothing else, in the
    order of their names, with the summary; other pages are as before; purging tools removes exactly
    the pages of these tools; entities always belong to a page. *)
Theorem help_pages_roundtrip (ToLower : string -> string) (IsLetter IsUpper IsDigit : Z -> bool) (now : Time)
    (argv : list string) (help sum : string) (s : Store) :
  argv <> [] -> references s ->
  let ents := Parse ToLower IsLetter IsUpper IsDigit help in
  exists s', Save now argv ents sum s = (s', Ok tt) /\ references s' /\
    (exists l, Load argv s' = Some (mkPage l sum) /\ l ≡ₚ ents /\ sorted_by entity_lt l) /\
    (forall b, ArgvKey b <> ArgvKey argv -> Load b s' = Load b s) /\
    (forall tools, tools <> [] -> exists s'', Purge tools s' = (s'', Ok tt) /\ references s'' /\
       forall b, b <> [] -> Load b s'' = match keep_row tools (s_pages s' !! ArgvKey b) with Some _ => Load b s' | None => None end).
Proof.
  intros Hne Hr ents. destruct (Save_parsed ToLower IsLetter IsUpper IsDigit now argv help sum s Hne Hr) as (s' & E & Hr' & Hl & Ho).
  exists s'. split_and!; [done..|]. intros tools Ht. destruct tools as [|t tools]; [done|]. eexists. split; [done|].
  split; [apply (purge_tools_page (t :: tools) s' (ArgvKey argv) Hr')|]. intros b Hb. rewrite !Load_page by done.
  apply (purge_tools_page (t :: tools) s' (ArgvKey b) Hr').
Qed.

(** ** The session *)

(** A command line the session may probe. *)
Definition safe_argv (argv : list string) : Prop := argv <> [] /\ Forall (fun w => safeArg w = true) argv.

Lemma safeArg_no_NUL w : safeArg w = true -> str_has NUL w = false.
Proof.
  unfold safeArg. case_match; [done|]. intros Hw. destruct (str_has NUL w) eqn:E; [|done].
  apply runes_NUL, list_elem_of_In in E. rewrite forallb_forall in Hw. by specialize (Hw _ E).
Qed.

Lemma ArgvKey_cons w ws : ws <> [] -> ArgvKey (w :: ws) = (w +:+ String NUL (ArgvKey ws))%string.
Proof. destruct ws; [done|]. done. Qed.

Lemma cut_lacks sep s : str_has sep s = false -> cut sep s = None.
Proof.
  induction s as [|c s IH]; [done|]. rewrite str_has_cons. intros [Hc Hs]%orb_false_iff. cbn [cut].
  rewrite Ascii.eqb_sym, Hc, (IH Hs). done.
Qed.

Lemma ArgvKey_inj a b : safe_argv a -> safe_argv b -> ArgvKey a = ArgvKey b -> a = b.
Proof.
  intros [Ha Fa] [Hb Fb]. revert b Hb Fb. induction Fa as [|w ws Hw Fa IH]; intros b Hb Fb; [done|].
  destruct Fb as [|v vs Hv Fb]; [done|]. pose proof (safeArg_no_NUL _ Hw) as Nw. pose proof (safeArg_no_NUL _ Hv) as Nv. intros E.
  destruct ws as [|w' ws], vs as [|v' vs].
  - unfold ArgvKey in E. simpl in E. by subst.
  - rewrite (ArgvKey_cons v) in E by done. apply (f_equal (cut NUL)) in E. rewrite cut_app in E by done.
    unfold ArgvKey in E at 1. simpl in E. by rewrite cut_lacks in E.
  - rewrite (ArgvKey_cons w) in E by done. apply (f_equal (cut NUL)) in E. rewrite cut_app in E by done.
    unfold ArgvKey in E at 2. simpl in E. by rewrite (cut_lacks _ v) in E.
  - rewrite (ArgvKey_cons w), (ArgvKey_cons v) in E by done. apply (f_equal (cut NUL)) in E. rewrite !cut_app in E by done.
    assert (w = v /\ ArgvKey (w' :: ws) = ArgvKey (v' :: vs)) as [-> E'] by (split; congruence). f_equal. by apply IH.
Qed.

Section SessionSpec.
Context {D : Type} `{Durable D} `{!DurableLaws D}.
Context (ToLower : string -> string) (IsLetter IsUpper IsDigit : Z -> bool).
Context (probe : list string -> result string) (ctx_err : list string -> bool).
Notation Session := (Session (D := D)).
Notation probeAndPersist := (probeAndPersist (D := D) ToLower IsLetter IsUpper IsDigit probe ctx_err).
Notation page_entities := (page_entities (D := D) ToLower IsLetter IsUpper IsDigit probe ctx_err).
Notation Items := (Items (D := D) ToLower IsLetter IsUpper IsDigit probe ctx_err).

(** The page a lookup finds. *)
Definition peek (argv : list string) (s : Session) : option (list Entity * string) :=
  match Get argv s with
  | Some ents => Some (ents, default EmptyString (GetSummary argv s))
  | None =>
      match GetSummary argv s with
      | Some sum => Some ([], sum)
      | None => (fun p => (dp_Entities p, dp_Summary p)) <$> (d ← ss_durable s; dLoad argv d)
      end
  end.

(** The page a probe yields; [None] when summarizing it panics. *)
Definition fetched (argv : list string) : option (list Entity * string) :=
  match probe argv with
  | Fail _ | Ok EmptyString => Some ([], EmptyString)
  | Ok help => pair (Parse ToLower IsLetter IsUpper IsDigit help) <$> NodeSummary ToLower IsLetter IsUpper help
  end.
Definition probe_failed (argv : list string) : bool := match probe argv with Fail _ | Ok EmptyString => true | _ => false end.

(** A failed probe whose context has ended is not remembered. *)
Definition dropped (argv : list string) : bool := probe_failed argv && ctx_err argv.

Lemma peek_key a b s : a <> [] -> b <> [] -> ArgvKey a = ArgvKey b -> peek a s = peek b s.
Proof.
  intros Ha Hb E. unfold peek, Get, GetSummary. rewrite E. destruct (ss_durable s) as [d|]; [|done]. simpl. by rewrite (dl_key a b d Ha Hb E).
Qed.

Lemma peek_hydrate argv ents sum s b :
  peek b (hydrate argv ents sum s) = if decide (ArgvKey b = ArgvKey argv) then Some (ents, sum) else peek b s.
Proof.
  unfold peek, Get, GetSummary, hydrate, Put, PutSummary. cbn [ss_byKey ss_summaries ss_durable].
  destruct (decide (ArgvKey b = ArgvKey argv)) as [->|Hne]; [by rewrite !lookup_insert_eq|]. by rewrite !lookup_insert_ne.
Qed.

Lemma lookupPage_run argv s : argv <> [] ->
  exists s', lookupPage argv s = (s', Ok (peek argv s)) /\ ss_probed s' = ss_probed s /\ ss_durable s' = ss_durable s /\
    forall b, b <> [] -> peek b s' = peek b s.
Proof.
  intros Hne. unfold lookupPage. destruct (peek argv s) as [q|] eqn:Ep; unfold peek in Ep;
    destruct (Get argv s) as [ents|] eqn:Eg; try (injection Ep as <-; by exists s); try done;
    destruct (GetSummary argv s) as [sum|] eqn:Es; try (injection Ep as <-; by exists s); try done;
    destruct (d ← ss_durable s; dLoad argv d) as [p|] eqn:El; try done; [|by exists s].
  injection Ep as <-. eexists. split; [done|]. split_and!; [done..|]. intros b Hb. rewrite peek_hydrate. case_decide as Hk; [|done].
  rewrite (peek_key b argv s Hb Hne Hk). unfold peek. by rewrite Eg, Es, El.
Qed.

Lemma persistPage_run argv ents sum s :
  ss_probed (persistPage argv ents sum s) = ss_probed s /\
  forall b, peek b (persistPage argv ents sum s) = if decide (ArgvKey b = ArgvKey argv) then Some (ents, sum) else peek b s.
Proof.
  unfold persistPage. cbv zeta. change (ss_durable (hydrate argv ents sum s)) with (ss_durable s).
  destruct (ss_durable s) as [d|] eqn:Ed; [|split; [done|intros b; apply peek_hydrate]]. split; [done|]. intros b.
  pose proof (peek_hydrate argv ents sum s b) as Hh. destruct (decide (ArgvKey b = ArgvKey argv)) as [Hk|Hk].
  - unfold peek, Get, GetSummary. cbn [ss_byKey ss_summaries hydrate PutSummary Put]. rewrite Hk, !lookup_insert_eq. done.
  - rewrite <- Hh. unfold peek. change (ss_durable (hydrate argv ents sum s)) with (ss_durable s). rewrite Ed. cbn [ss_durable].
    change (Get b (mkSession _ _ _ _)) with (Get b (hydrate argv ents sum s)). change (GetSummary b (mkSession _ _ _ _)) with (GetSummary b (hydrate argv ents sum s)).
    simpl. destruct (dSave argv ents sum d) as [d' [[]|e]] eqn:Es; simpl; [by rewrite (dl_others _ _ _ _ _ b Es Hk)|by rewrite (dl_failed _ _ _ _ _ _ Es)].
Qed.

(** A probe with its page: found, or fetched and kept unless the context ended. *)
Lemma probeAndPersist_run argv s s' r : argv <> [] -> probeAndPersist argv s = (s', Ok r) ->
  match peek argv s with
  | Some p => r = p /\ ss_probed s' = ss_probed s /\ forall b, b <> [] -> peek b s' = peek b s
  | None => fetched argv = Some r /\ ss_probed s' = ss_probed s ++ [argv] /\
      forall b, b <> [] -> peek b s' =
        if decide (ArgvKey b = ArgvKey argv /\ dropped argv = false) then Some r else peek b s
  end.
Proof.
  intros Hne. unfold HelpCache.probeAndPersist. destruct (lookupPage_run argv s Hne) as (s1 & E1 & Hp1 & Hd1 & Hk1).
  rewrite (bind_Ok _ _ _ _ _ E1). destruct (peek argv s) as [p|]; [intros [= <- <-]; by split_and!|].
  unfold mbind, M_bind at 1, log_probe, modify at 1. set (s2 := mkSession _ _ _ _).
  assert (forall b, b <> [] -> peek b s2 = peek b s) as Hk2 by (intros b Hb; rewrite <- (Hk1 b Hb); done).
  assert (ss_probed s2 = ss_probed s ++ [argv]) as Hp2 by (unfold s2; cbn [ss_probed]; by rewrite Hp1).
  assert (forall ents sum b, b <> [] -> peek b (persistPage argv ents sum s2) = if decide (ArgvKey b = ArgvKey argv) then Some (ents, sum) else peek b s) as Hk3.
  { intros ents sum b Hb. rewrite (proj2 (persistPage_run argv ents sum s2)). by rewrite Hk2. }
  assert (forall ents sum (c : bool), c = false ->
    (persistPage argv ents sum s2, Ok (ents, sum)) = (s', Ok r) ->
    Some (ents, sum) = Some r /\ ss_probed s' = ss_probed s ++ [argv] /\
    forall b, b <> [] -> peek b s' = if decide (ArgvKey b = ArgvKey argv /\ c = false) then Some r else peek b s) as Hkeep.
  { intros ents sum c Hc [= <- <-]. split_and!; [done|by rewrite (proj1 (persistPage_run argv ents sum s2))|].
    intros b Hb. rewrite (Hk3 ents sum b Hb). apply decide_ext. naive_solver. }
  unfold fetched, dropped, probe_failed. destruct (probe argv) as [[|c h]|e].
  1, 3: destruct (ctx_err argv); [|apply (Hkeep [] EmptyString false eq_refl)]; intros [= <- <-]; split_and!; [done..|];
    intros b Hb; rewrite (Hk2 b Hb), decide_False; [done|naive_solver].
  destruct (NodeSummary _ _ _ _) as [sum|]; [|done]. apply (Hkeep _ sum false eq_refl).
Qed.

(** A page is found unless summarizing it panics. *)
Lemma probeAndPersist_total argv s : argv <> [] -> fetched argv <> None -> exists s' r, probeAndPersist argv s = (s', Ok r).
Proof.
  intros Hne Hf. unfold HelpCache.probeAndPersist. destruct (lookupPage_run argv s Hne) as (s1 & E1 & _).
  rewrite (bind_Ok _ _ _ _ _ E1). destruct (peek argv s) as [p|]; [by do 2 eexists|].
  unfold mbind, M_bind at 1, log_probe, modify at 1. unfold fetched in Hf.
  destruct (probe argv) as [[|c h]|e]; [destruct (ctx_err argv); by do 2 eexists| |destruct (ctx_err argv); by do 2 eexists].
  destruct (NodeSummary _ _ _ _); [by do 2 eexists|done].
Qed.

(** ** Probing once *)

(** What a session does: its calls, the start of [FillNodes], and a page that a
    worker of [FillNodes] finishes. *)
Inductive session_step : Session -> Session -> Prop :=
| step_Items prefix s s' r : Items prefix s = (s', Ok r) -> session_step s s'
| step_FillEmpty prefix items descrs s s' r :
    FillEmpty ToLower IsLetter IsUpper IsDigit probe ctx_err prefix items descrs s = (s', Ok r) -> session_step s s'
| step_CompleteOrHistory prefix items descrs history s s' r :
    CompleteOrHistory ToLower IsLetter IsUpper IsDigit probe ctx_err prefix items descrs history s = (s', Ok r) -> session_step s s'
| step_FillNodes prefix items descrs limit s : session_step s (fill_start prefix items descrs limit s).2
| step_worker prefix item s s' r : ItemArgv prefix item <> [] -> probeAndPersist (ItemArgv prefix item) s = (s', Ok r) -> session_step s s'.

(** The probes are of safe commands; those that were not cut short by the end of
    their context are of different commands whose pages are still there. *)
Definition probed_once (s : Session) : Prop :=
  Forall safe_argv (ss_probed s) /\
  NoDup (filter (fun a => dropped a = false) (ss_probed s)) /\
  Forall (fun a => dropped a = false -> is_Some (peek a s)) (ss_probed s).

Lemma probed_once_keep s s' : probed_once s -> ss_probed s' = ss_probed s ->
  (forall b, b <> [] -> is_Some (peek b s) -> is_Some (peek b s')) -> probed_once s'.
Proof.
  intros (Hs & Hn & Hf) E Hk. unfold probed_once. rewrite E. split_and!; [done..|].
  rewrite Forall_forall in *. intros a Ha Hd. apply Hk; [by apply Hs|]. by apply Hf.
Qed.

Lemma probeAndPersist_once argv s s' r : safe_argv argv -> probeAndPersist argv s = (s', Ok r) -> probed_once s -> probed_once s'.
Proof.
  intros Ha E Ho. pose proof (probeAndPersist_run argv s s' r (proj1 Ha) E) as R. destruct (peek argv s) as [p|] eqn:Ep.
  { destruct R as (_ & Hp & Hk). apply (probed_once_keep s s' Ho Hp). intros b Hb. by rewrite Hk. }
  destruct R as (_ & Hp & Hk), Ho as (Hs & Hn & Hf). rewrite Forall_forall in Hs, Hf. unfold probed_once. rewrite Hp, filter_app. split_and!.
  - apply Forall_app. split; [by apply Forall_forall|by constructor].
  - apply NoDup_app. split; [done|]. split; [|rewrite filter_cons, filter_nil; case_decide; repeat constructor; set_solver].
    intros a [Hd Hin]%list_elem_of_filter [_ ->%list_elem_of_singleton]%list_elem_of_filter. specialize (Hf _ Hin Hd). rewrite Ep in Hf. by destruct Hf.
  - apply Forall_app. split; [apply Forall_forall; intros a Hin Hd|constructor; [intros Hd|constructor]].
    + rewrite Hk by (by apply Hs). destruct (decide (ArgvKey a = ArgvKey argv /\ dropped argv = false)); [by eexists|by apply Hf].
    + rewrite Hk by apply Ha. rewrite decide_True by done. by eexists.
Qed.

Lemma page_entities_once argv s s' r : safe_argv argv -> page_entities argv s = (s', Ok r) -> probed_once s -> probed_once s'.
Proof.
  intros Ha. unfold HelpCache.page_entities. destruct (lookupPage_run argv s (proj1 Ha)) as (s1 & E1 & Hp1 & _ & Hk1).
  rewrite (bind_Ok _ _ _ _ _ E1). intros E Ho. assert (probed_once s1) as Ho1 by (apply (probed_once_keep s s1 Ho Hp1); intros b Hb; by rewrite Hk1).
  destruct (peek argv s) as [[]|]; [by injection E as <- <-|]. apply bind_Ok_inv in E as (s2 & r2 & E2 & [= <- <-]).
  by eapply probeAndPersist_once.
Qed.

Lemma HelpArgv_cons prefix w ws : HelpArgv prefix = w :: ws -> safe_argv (w :: ws).
Proof. intros E. split; [done|]. rewrite <- E. apply HelpArgv_safe. Qed.

Lemma Items_once prefix s s' r : Items prefix s = (s', Ok r) -> probed_once s -> probed_once s'.
Proof.
  unfold HelpCache.Items. destruct (HelpArgv prefix) as [|w ws] eqn:Eh; [by intros [= <- <-]|].
  intros (s1 & r1 & E1 & [= <- <-])%bind_Ok_inv. apply (page_entities_once (w :: ws) s s1 r1); [by eapply HelpArgv_cons|done].
Qed.

Lemma durable_rows_keep pages missing out s :
  ss_probed (durable_rows pages missing out s).2 = ss_probed s /\
  forall b, is_Some (peek b s) -> is_Some (peek b (durable_rows pages missing out s).2).
Proof.
  revert out s. induction missing as [|[i argv] missing IH]; intros out s; [done|]. cbn [durable_rows].
  destruct (pages !! ArgvKey argv) as [p|]; [|specialize (IH out s); by destruct (durable_rows pages missing out s) as [[]]].
  set (out' := if str_empty _ then _ else _). destruct (IH out' (hydrate argv (dp_Entities p) (dp_Summary p) s)) as [Hp Hk]. split; [done|].
  intros b Hb. apply Hk. rewrite peek_hydrate. by case_decide; [eexists|].
Qed.

Lemma fill_start_keep prefix items descrs limit s :
  ss_probed (fill_start prefix items descrs limit s).2 = ss_probed s /\
  forall b, is_Some (peek b s) -> is_Some (peek b (fill_start prefix items descrs limit s).2).
Proof.
  unfold fill_start. cbv zeta. destruct (negb _); [done|]. destruct (node_rows _ _ _ _ _) as [out missing]. destruct (ss_durable s) as [d|]; [|done].
  destruct (0 <? length missing)%nat; [|done]. pose proof (durable_rows_keep (dLoadMany missing.*2 d) missing out s) as Hd. by destruct (durable_rows _ _ _ _) as [[]].
Qed.

Lemma session_step_once s s' : session_step s s' -> probed_once s -> probed_once s'.
Proof.
  intros Hstep Ho. destruct Hstep as [prefix s s' r E|prefix items descrs s s' r E|prefix items descrs history s s' r E|prefix items descrs limit s|prefix item s s' r Hne E].
  - by eapply Items_once.
  - revert E. unfold FillEmpty. destruct (negb _); [by intros [= <- <-]|]. destruct (HelpArgv prefix) as [|w ws] eqn:Eh; [by intros [= <- <-]|].
    intros (s1 & r1 & E1 & [= <- <-])%bind_Ok_inv. by apply (page_entities_once (w :: ws) s s1 r1); [eapply HelpArgv_cons|..].
  - revert E. unfold CompleteOrHistory. destruct items; [|by intros [= <- <-]].
    intros (s1 & r1 & E1 & E2)%bind_Ok_inv. apply (Items_once _ _ _ _ E1) in Ho. destruct r1.1; by injection E2 as <- <-.
  - destruct (fill_start_keep prefix items descrs limit s) as [Hp Hk]. apply (probed_once_keep s); [done..|auto].
  - apply (probeAndPersist_once (ItemArgv prefix item) s s' r); [|done..]. split; [done|apply ItemArgv_safe].
Qed.

(** C23: A program is asked for its help text at most once in a session: whatever calls are made in
    whatever order, every command line that is run is non-empty and made of safe words, and leaving
    aside probes that failed because their context had ended, none is run twice, because a lookup
    finds its page from then on. *)
Theorem help_probed_once (d : option D) (s : Session) :
  rtc session_step (mkSession ∅ ∅ d []) s ->
  Forall safe_argv (ss_probed s) /\
  NoDup (ArgvKey <$> filter (fun a => dropped a = false) (ss_probed s)) /\
  forall argv, argv ∈ ss_probed s -> dropped argv = false -> exists s', lookupPage argv s = (s', Ok (peek argv s)) /\ is_Some (peek argv s).
Proof.
  intros Hrun. assert (probed_once s) as (Hs & Hn & Hf).
  { assert (probed_once (mkSession ∅ ∅ d [])) as H0 by (split_and!; constructor).
    revert H0. induction Hrun as [|s1 s2 s3 H1 _ IH]; [done|]. intros H0. by apply IH, (session_step_once s1). }
  split_and!; [done| |].
  - apply NoDup_fmap_2_strong; [|done]. intros a b [_ Ha]%list_elem_of_filter [_ Hb]%list_elem_of_filter.
    rewrite Forall_forall in Hs. apply ArgvKey_inj; by apply Hs.
  - rewrite Forall_forall in Hs, Hf. intros argv Hin Hd. destruct (lookupPage_run argv s) as (s' & E & _); [by apply Hs|]. exists s'. split; [done|by apply Hf].
Qed.

(** ** The workers *)

(** The rows left to the workers: different rows of the menu, each with the
    command of its item. *)
Definition rows_ok (prefix : string) (items : list string) (missing : list (nat * list string)) : Prop :=
  NoDup missing.*1 /\
  Forall (fun m => m.2 <> [] /\ exists item, items !! m.1 = Some item /\ m.2 = ItemArgv prefix item) missing.

Lemma rows_ok_sublist prefix items l l' : l `sublist_of` l' -> rows_ok prefix items l' -> rows_ok prefix items l.
Proof.
  intros Hs [Hn Hf]. split; [|rewrite Forall_forall in *; intros m Hm; apply Hf; by eapply elem_of_sublist].
  eapply (sublist_NoDup _ l'.*1); [exact Hn|]. clear -Hs. by induction Hs; simpl; constructor.
Qed.

Lemma node_row_shape prefix (s : Session) out i item out' ms : node_row prefix s out i item = (out', ms) ->
  length out' = length out /\ (ms = [] \/ ms = [(i, ItemArgv prefix item)] /\ ItemArgv prefix item <> []).
Proof.
  unfold node_row. cbv zeta. destruct (negb _); [intros [= <- <-]; auto|].
  destruct (ItemArgv prefix item) as [|w ws]; [intros [= <- <-]; auto|]. cbn [length Nat.eqb orb].
  destruct (argvEqual _ _); [intros [= <- <-]; auto|]. destruct (GetSummary _ _); [|intros [= <- <-]; auto].
  intros [= <- <-]. split; [|auto]. case_match; [done|apply length_insert].
Qed.

Lemma node_rows_shape prefix (s : Session) all out i items out' ms :
  (forall k, items !! k = all !! (i + k)%nat) -> node_rows prefix s out i items = (out', ms) ->
  length out' = length out /\ rows_ok prefix all ms /\ Forall (fun m => (i <= m.1)%nat) ms.
Proof.
  revert out i out' ms. induction items as [|item items IH]; intros out i out' ms Hall; cbn [node_rows].
  { intros [= <- <-]. split_and!; [done|split; constructor|constructor]. }
  destruct (node_row _ _ _ _ _) as [out1 m] eqn:E1. destruct (node_rows _ _ _ _ _) as [out2 ms2] eqn:E2. intros [= <- <-].
  apply node_row_shape in E1 as [Hl1 Hm]. apply IH in E2 as (Hl2 & [Hn Hf] & Hge);
    [|intros k; specialize (Hall (Datatypes.S k)); simpl in Hall; by rewrite Hall, Nat.add_succ_r].
  split; [lia|]. assert (Forall (fun m => (i <= m.1)%nat) ms2) as Hge' by (eapply Forall_impl; [exact Hge|simpl; intros; lia]).
  destruct Hm as [->|[-> Hne]]; [by split_and!; [split|]|]. split; [split|].
  - cbn. constructor; [|done]. intros (m & -> & Hin)%list_elem_of_fmap. rewrite Forall_forall in Hge. specialize (Hge _ Hin). simpl in Hge. lia.
  - constructor; [|done]. split; [done|]. exists item. split; [|done]. specialize (Hall 0%nat). by rewrite Nat.add_0_r in Hall.
  - by constructor.
Qed.

Lemma durable_rows_shape pages missing out (s : Session) :
  (durable_rows pages missing out s).1.2 `sublist_of` missing /\ length (durable_rows pages missing out s).1.1 = length out.
Proof.
  revert out s. induction missing as [|[i argv] missing IH]; intros out s; [done|]. cbn [durable_rows].
  destruct (pages !! ArgvKey argv) as [p|].
  - set (out' := if str_empty _ then _ else _). destruct (IH out' (hydrate argv (dp_Entities p) (dp_Summary p) s)) as [Hs Hl].
    split; [by constructor|]. rewrite Hl. unfold out'. case_match; [done|apply length_insert].
  - specialize (IH out s) as [Hs Hl]. destruct (durable_rows pages missing out s) as [[]]. split; [by constructor|done].
Qed.

Lemma fill_start_shape prefix items descrs limit (s s1 : Session) out missing :
  fill_start prefix items descrs limit s = (out, missing, s1) ->
  rows_ok prefix items missing /\ (length items <= length out)%nat /\ (0 < limit -> Z.of_nat (length missing) <= limit).
Proof.
  assert (length items <= length (pad items descrs))%nat as Hpad by (unfold pad; rewrite length_app, length_replicate; lia).
  unfold fill_start. cbv zeta. destruct (negb _); [intros [= <- <- <-]; split_and!; [split; constructor|done|simpl; lia]|].
  destruct (node_rows _ _ _ _ _) as [out1 m1] eqn:E1. apply (node_rows_shape _ _ items) in E1 as (Hl1 & Hr1 & _); [|done].
  set (x := match ss_durable s with Some _ => _ | None => _ end).
  assert (x.1.2 `sublist_of` m1 /\ length x.1.1 = length out1) as [Hs2 Hl2].
  { unfold x. destruct (ss_durable s) as [d|]; [|done]. destruct (0 <? length m1)%nat; [apply durable_rows_shape|done]. }
  destruct x as [[out2 m2] s2]. simpl in Hs2, Hl2. intros [= <- <- <-]. split_and!; [|lia|].
  - apply (rows_ok_sublist _ _ _ m1); [|done]. etransitivity; [|exact Hs2]. destruct (_ && _); [apply sublist_take|done].
  - intros Hlim. destruct (0 <? limit) eqn:E0; [|apply Z.ltb_ge in E0; lia]. simpl. destruct (Z.ltb_spec limit (Z.of_nat (length m2))); [rewrite length_take|]; lia.
Qed.

(** The page of a command: where a lookup finds it, else what its program says. *)
Definition page (s : Session) (argv : list string) : option (list Entity * string) :=
  match peek argv s with Some p => Some p | None => fetched argv end.

(** The description of a row after its page is known. *)
Definition filled (s : Session) (out : list string) (i : nat) (argv : list string) : option string :=
  match page s argv with
  | Some (_, sum) => if str_empty sum then out !! i else Some sum
  | None => out !! i
  end.

(** What a lookup finds after some pages were fetched. *)
Definition pages_from (s s' : Session) : Prop :=
  forall b, safe_argv b -> peek b s' = peek b s \/ peek b s = None /\ peek b s' = fetched b.

Lemma worker_page s s1 s2 argv r : pages_from s s1 -> safe_argv argv -> probeAndPersist argv s1 = (s2, Ok r) ->
  page s argv = Some r /\ pages_from s s2.
Proof.
  intros Hf Hs E. pose proof (probeAndPersist_run argv s1 s2 r (proj1 Hs) E) as R. unfold page.
  pose proof (Hf argv Hs) as Ha. destruct (peek argv s1) as [q|] eqn:Eq.
  - destruct R as (-> & _ & Hp). split; [destruct Ha as [<-|[-> Ha]]; [done|by rewrite <- Ha]|].
    intros b Hb. rewrite (Hp b (proj1 Hb)). by apply Hf.
  - destruct R as (Hr & _ & Hp). assert (peek argv s = None) as Hnone by (destruct Ha as [<-|[-> _]]; done). rewrite Hnone. split; [done|].
    intros b Hb. rewrite (Hp b (proj1 Hb)). destruct (decide (ArgvKey b = ArgvKey argv /\ dropped argv = false)) as [[Hkey _]|]; [|by apply Hf].
    apply (ArgvKey_inj _ _ Hb Hs) in Hkey as ->. right. by rewrite Hr.
Qed.

Record pool_inv (missing : list (nat * list string)) (out : list string) (s : Session) (p : Pool (D := D)) : Prop := {
  pi_next : (po_next p <= length missing)%nat;
  pi_running : Forall (fun k => (k < po_next p)%nat) (po_running p);
  pi_distinct : NoDup (po_running p);
  pi_pages : pages_from s (po_session p);
  pi_length : length (po_out p) = length out;
  pi_others : forall i, i ∉ missing.*1 -> po_out p !! i = out !! i;
  pi_rows : forall k i argv, missing !! k = Some (i, argv) ->
    po_out p !! i = if decide ((k < po_next p)%nat /\ k ∉ po_running p) then filled s out i argv else out !! i;
}.

Lemma pool_start missing out s : pool_inv missing out s (mkPool 0 [] out s).
Proof.
  constructor; cbn [po_next po_running po_out po_session]; [lia|constructor|constructor|by left|done|done|]. intros k i argv _. rewrite decide_False; [done|lia].
Qed.

Lemma pool_take_inv missing out s p : (po_next p < length missing)%nat -> pool_inv missing out s p ->
  pool_inv missing out s (mkPool (Datatypes.S (po_next p)) (po_running p ++ [po_next p]) (po_out p) (po_session p)).
Proof.
  intros Hn [H1 H2 H3 H4 H5 H6 H7]. constructor; cbn [po_next po_running po_out po_session]; [lia| | |done..|].
  - apply Forall_app. split; [eapply Forall_impl; [exact H2|simpl; lia]|repeat constructor].
  - apply NoDup_app. split_and!; [done| |repeat constructor; set_solver]. intros k Hk ->%list_elem_of_singleton.
    rewrite Forall_forall in H2. specialize (H2 _ Hk). lia.
  - intros k i argv Hk. rewrite (H7 _ _ _ Hk). apply decide_ext. rewrite elem_of_app, list_elem_of_singleton.
    split; [intros [? Hr]; split; [lia|intros [?| ->]; [done|lia]]|]. intros [Hlt Hr]. split; [|tauto].
    assert (k <> po_next p) by tauto. lia.
Qed.

Lemma pool_finish_inv prefix items missing out s p l k l' i argv s' ents sum :
  rows_ok prefix items missing -> (length items <= length out)%nat ->
  po_running p = l ++ k :: l' -> missing !! k = Some (i, argv) -> probeAndPersist argv (po_session p) = (s', Ok (ents, sum)) ->
  pool_inv missing out s p ->
  pool_inv missing out s (mkPool (po_next p) (l ++ l') (if str_empty sum then po_out p else <[i := sum]> (po_out p)) s').
Proof.
  intros [Hnd Hrows] Hlen Hrun Hk E [H1 H2 H3 H4 H5 H6 H7].
  assert (safe_argv argv /\ (i < length out)%nat) as [Hsafe Hi].
  { rewrite Forall_forall in Hrows. destruct (Hrows (i, argv)) as (Hne & item & Hit & Ha); [by eapply list_elem_of_lookup_2|]. simpl in *.
    split; [split; [done|rewrite Ha; apply ItemArgv_safe]|]. apply lookup_lt_Some in Hit. lia. }
  destruct (worker_page s _ _ argv _ H4 Hsafe E) as [Hpage H4'].
  rewrite Hrun in H2, H3. rewrite Forall_app, Forall_cons in H2. destruct H2 as (Hl & Hkn & Hl').
  apply NoDup_app in H3 as (Nl & Hd & Nl'). apply NoDup_cons in Nl' as [Nk Nl'].
  assert (k ∉ l ++ l') as Hkl by (rewrite not_elem_of_app; split; [intros Hx; apply (Hd _ Hx); by left|done]).
  assert (forall j x y, missing !! j = Some (x, y) -> j <> k -> x <> i) as Hother.
  { intros j x y Hj Hne ->. apply Hne. eapply (NoDup_lookup missing.*1); [done|by rewrite list_lookup_fmap, Hj|by rewrite list_lookup_fmap, Hk]. }
  set (out' := if str_empty sum then po_out p else _).
  assert (forall x, x <> i -> out' !! x = po_out p !! x) as Hout by (intros x Hx; unfold out'; case_match; [done|by rewrite list_lookup_insert_ne]).
  constructor; cbn [po_next po_running po_out po_session]; [done|by apply Forall_app| |done| | |].
  - apply NoDup_app. split_and!; [done| |done]. intros x Hx Hx'. apply (Hd _ Hx). by right.
  - unfold out'. case_match; [done|by rewrite length_insert].
  - intros x Hx. rewrite Hout; [by apply H6|]. intros ->. apply Hx. apply list_elem_of_fmap. exists (i, argv). split; [done|by eapply list_elem_of_lookup_2].
  - intros j x y Hj. destruct (decide (j = k)) as [->|Hjk].
    + rewrite Hk in Hj. injection Hj as <- <-. rewrite decide_True by done. unfold filled. rewrite Hpage. unfold out'.
      destruct (str_empty sum); [|rewrite list_lookup_insert_eq; [done|lia]]. rewrite (H7 _ _ _ Hk), decide_False; [done|].
      intros [_ Hx]. apply Hx. rewrite Hrun, elem_of_app. right. by left.
    + rewrite (Hout x) by (by eapply Hother). rewrite (H7 _ _ _ Hj). apply decide_ext. rewrite Hrun, !elem_of_app, elem_of_cons. tauto.
Qed.

Lemma pool_step_inv prefix items missing out s p p' :
  rows_ok prefix items missing -> (length items <= length out)%nat ->
  pool_step ToLower IsLetter IsUpper IsDigit probe ctx_err missing p p' -> pool_inv missing out s p -> pool_inv missing out s p'.
Proof. intros Hr Hl []; [by apply pool_take_inv|by eapply pool_finish_inv]. Qed.

(** All rows taken and finished; the steps that are left. *)
Definition pool_done (missing : list (nat * list string)) (p : Pool (D := D)) : Prop := po_next p = length missing /\ po_running p = [].
Definition pool_left (missing : list (nat * list string)) (p : Pool (D := D)) : nat :=
  (2 * (length missing - po_next p) + length (po_running p))%nat.

Lemma pool_progress prefix items missing out s p :
  rows_ok prefix items missing -> (forall m, m ∈ missing -> fetched m.2 <> None) -> pool_inv missing out s p ->
  pool_done missing p \/ exists p', pool_step ToLower IsLetter IsUpper IsDigit probe ctx_err missing p p'.
Proof.
  intros [_ Hrows] Hf [H1 H2 _ _ _ _ _]. destruct (po_running p) as [|k l] eqn:Er.
  - destruct (decide (po_next p = length missing)); [by left|]. right. eexists. apply pool_take; [lia|]. rewrite Er. unfold nodeProbeJobs. simpl. lia.
  - right. apply Forall_cons in H2 as [Hk _]. destruct (lookup_lt_is_Some_2 missing k ltac:(lia)) as [[i argv] Em].
    assert ((i, argv) ∈ missing) as Hin by (by eapply list_elem_of_lookup_2). rewrite Forall_forall in Hrows.
    destruct (probeAndPersist_total argv (po_session p)) as (s' & [ents sum] & E); [apply (Hrows _ Hin)|apply (Hf _ Hin)|].
    eexists. by eapply (pool_finish _ _ _ _ _ _ missing p [] k l).
Qed.

Lemma pool_step_left missing p p' :
  pool_step ToLower IsLetter IsUpper IsDigit probe ctx_err missing p p' -> (pool_left missing p' < pool_left missing p)%nat.
Proof.
  intros [p0 Hn _|p0 l k l' i argv s' ents sum Hr _ _]; unfold pool_left; cbn [po_next po_running]; rewrite ?Hr, !length_app; simpl; lia.
Qed.

(** Filling a menu from the help texts of its rows computes the same descriptions in every
    schedule of its workers, and finishes: the workers get different rows with commands of safe
    words only, no more than the limit; from any state they can reach they can go on until every row
    is finished, and only finitely many steps are left; then a row given to them has the summary of
    its own page, known before or fetched, or its old description when that summary is empty, and
    the other rows are untouched. No help text may make the summary panic. *)
Theorem FillNodes_any_schedule (prefix : string) (items descrs : list string) (limit : Z) (s s1 : Session) (out : list string)
    (missing : list (nat * list string)) (p : Pool) :
  fill_start prefix items descrs limit s = (out, missing, s1) ->
  (forall m, m ∈ missing -> fetched m.2 <> None) ->
  rtc (pool_step ToLower IsLetter IsUpper IsDigit probe ctx_err missing) (mkPool 0 [] out s1) p ->
  (forall m, m ∈ missing -> safe_argv m.2) /\ (0 < limit -> Z.of_nat (length missing) <= limit) /\
  (pool_done missing p \/ exists p', pool_step ToLower IsLetter IsUpper IsDigit probe ctx_err missing p p') /\
  (forall p', pool_step ToLower IsLetter IsUpper IsDigit probe ctx_err missing p p' -> (pool_left missing p' < pool_left missing p)%nat) /\
  (pool_done missing p ->
     (forall i argv, (i, argv) ∈ missing -> po_out p !! i = filled s1 out i argv) /\
     (forall i, i ∉ missing.*1 -> po_out p !! i = out !! i)).
Proof.
  intros Hstart Hf Hrun. apply fill_start_shape in Hstart as (Hrows & Hlen & Hlimit).
  assert (pool_inv missing out s1 p) as Hinv.
  { pose proof (pool_start missing out s1) as H0. revert H0. induction Hrun as [|p1 p2 p3 Hstep _ IH]; [done|].
    intros H0. apply IH. by apply (pool_step_inv prefix items missing out s1 p1 p2). }
  split; [|split; [done|split; [by eapply pool_progress|split; [apply pool_step_left|]]]].
  - intros m Hm. destruct Hrows as [_ Hrows]. rewrite Forall_forall in Hrows. destruct (Hrows _ Hm) as (Hne & item & _ & E).
    split; [done|]. rewrite E. apply ItemArgv_safe.
  - intros [Hn Hr]. split; [|apply (pi_others _ _ _ _ Hinv)]. intros i argv [k Hk]%list_elem_of_lookup.
    rewrite (pi_rows _ _ _ _ Hinv k i argv Hk), decide_True; [done|]. rewrite Hn, Hr. split; [by eapply lookup_lt_Some|set_solver].
Qed.
End SessionSpec.
