(* ===== verification/Warmup.v ===== *)
(** [internal/suggestcache/warmup.go] and [job.go]: the background walk over the
    command tree of a program that fills the cache of help pages, with its
    workers, and the queue of programs that later invocations add to a running
    warm-up. Running a program is a parameter. *)

From S2P Require Import Prelude Text Utf8 HelpParse HelpCache HelpCacheSpec.
From Stdlib Require Import Ascii.

(** ** [warmup.go] *)

Section Warmup.
Context (ToLower : string -> string) (IsLetter IsUpper IsDigit : Z -> bool).
(** What a program prints when asked for help, and the clock. *)
Context (probe : list string -> result string) (now : Time).
(** [opts.Jobs] and [opts.Depth] *)
Context (jobs : nat) (depth : Z).

(** The children of a page that are walked; a name is compared with [help] by
    [strings.EqualFold], which folds no other character to one of its letters. *)
Definition walked (e : Entity) : bool :=
  negb (String.eqb (en_Kind e) KindFlag || has_prefix "-" (en_Name e)) && negb (String.eqb (to_lower (en_Name e)) "help") && SafeArg (en_Name e).
Fixpoint add_children (argv : list string) (ents : list Entity) (visited : gset string) (pending : list (list string)) : gset string * list (list string) :=
  match ents with
  | [] => (visited, pending)
  | e :: ents =>
      let child := argv ++ [en_Name e] in
      if negb (walked e) || bool_decide (ArgvKey child ∈ visited) then add_children argv ents visited pending
      else add_children argv ents ({[ArgvKey child]} ∪ visited) (pending ++ [child])
  end.
Definition deeper (argv : list string) : bool := (depth <=? 0) || (Z.of_nat (length argv) <? depth).

(** The shared variables, the argvs being probed, whether the context has
    ended, the table, and the pages saved so far. *)
Record Walk := mkWalk {
  wk_pending : list (list string); wk_visited : gset string; wk_active : list (list string); wk_ended : bool;
  wk_store : Store; wk_saved : list (list string);
}.
Definition walk_start (tool : string) (s : Store) : Walk := mkWalk [[tool]] {[ArgvKey [tool]]} [] false s [].

(** The page a probe yields; [None] when summarizing it panics. *)
Definition page_of_probe (argv : list string) : option (list Entity * string) :=
  match probe argv with
  | Fail _ | Ok EmptyString => Some ([], EmptyString)
  | Ok help => pair (Parse ToLower IsLetter IsUpper IsDigit help) <$> NodeSummary ToLower IsLetter IsUpper help
  end.

(** The part of a worker after its probe. *)
Definition finish (argv : list string) (ents : list Entity) (sum : string) (active : list (list string)) (w : Walk) : Walk :=
  let '(visited, pending) :=
    if negb (wk_ended w) && deeper argv then add_children argv ents (wk_visited w) (wk_pending w) else (wk_visited w, wk_pending w) in
  mkWalk pending visited active (wk_ended w) (Save now argv ents sum (wk_store w)).1 (wk_saved w ++ [argv]).

(** A worker takes an argv; a worker saves its page and queues the children;
    the context ends. *)
Inductive walk_step : Walk -> Walk -> Prop :=
| walk_take argv rest w :
    wk_pending w = argv :: rest -> wk_ended w = false -> (length (wk_active w) < jobs)%nat ->
    walk_step w (mkWalk rest (wk_visited w) (wk_active w ++ [argv]) false (wk_store w) (wk_saved w))
| walk_finish argv l l' ents sum w :
    wk_active w = l ++ argv :: l' -> page_of_probe argv = Some (ents, sum) -> walk_step w (finish argv ents sum (l ++ l') w)
| walk_end w : wk_ended w = false -> walk_step w (mkWalk (wk_pending w) (wk_visited w) (wk_active w) true (wk_store w) (wk_saved w)).
Definition walk_over (w : Walk) : Prop := wk_ended w = false /\ wk_pending w = [] /\ wk_active w = [].

(** ** The tree of commands *)

Inductive node (tool : string) : list string -> Prop :=
| node_root : node tool [tool]
| node_child argv ents sum e :
    node tool argv -> page_of_probe argv = Some (ents, sum) -> deeper argv = true -> e ∈ ents -> walked e = true -> node tool (argv ++ [en_Name e]).

Lemma node_shape tool argv : node tool argv -> exists ws, argv = tool :: ws /\ Forall (fun w => safeArg w = true) ws.
Proof.
  induction 1 as [|argv ents sum e _ (ws & -> & Hws) _ _ _ Hw]; [by exists []|]. exists (ws ++ [en_Name e]). split; [done|].
  apply Forall_app. split; [done|]. constructor; [|done]. unfold walked in Hw. by apply andb_true_iff in Hw as [_ ?].
Qed.
Lemma node_key_inj tool a b : node tool a -> node tool b -> ArgvKey a = ArgvKey b -> a = b.
Proof.
  intros (wa & -> & Ha)%node_shape (wb & -> & Hb)%node_shape E. f_equal.
  destruct wa as [|x wa], wb as [|y wb]; [done|..].
  1, 2: exfalso; apply (f_equal String.length) in E; change (ArgvKey [tool]) with tool in E; rewrite ArgvKey_cons, str_length_app in E by discriminate; cbn in E; lia.
  rewrite !(ArgvKey_cons tool) in E by done. apply ArgvKey_inj; [by split..|]. revert E. generalize (ArgvKey (x :: wa)) (ArgvKey (y :: wb)). clear.
  intros u v. induction tool as [|c t IH]; cbn; intros E; [by injection E|]. injection E as E. auto.
Qed.

(** ** The invariant of the walk *)

Definition children (argv : list string) (ents : list Entity) : list (list string) := (fun e => argv ++ [en_Name e]) <$> List.filter walked ents.

Lemma add_children_spec argv ents visited pending v' p' : add_children argv ents visited pending = (v', p') ->
  exists new, p' = pending ++ new /\ (forall k, k ∈ v' <-> k ∈ visited \/ k ∈ ArgvKey <$> new) /\ NoDup (ArgvKey <$> new) /\
    Forall (fun c => ArgvKey c ∉ visited) new /\ new `sublist_of` children argv ents /\
    (forall c, c ∈ children argv ents -> ArgvKey c ∈ v').
Proof.
  revert visited pending. induction ents as [|e ents IH]; intros visited pending; cbn [add_children].
  { intros [= <- <-]. exists []. rewrite app_nil_r. split_and!; try done; [set_solver|apply NoDup_nil_2|set_solver]. }
  unfold children. cbn [List.filter]. destruct (walked e) eqn:Ew; cbn [negb orb]; [|by apply IH].
  case_bool_decide as Hv; intros E; apply IH in E as (new & -> & Hk & Hnd & Hf & Hs & Hc).
  - exists new. cbn [fmap list_fmap]. split_and!; try done; [by apply sublist_inserts_l with (k := [_])|].
    intros c [->|Hin]%elem_of_cons; [apply Hk; by left|by apply Hc].
  - exists ((argv ++ [en_Name e]) :: new). rewrite <- app_assoc. cbn [fmap list_fmap]. split_and!; try done.
    + intros k. rewrite Hk, elem_of_union, elem_of_singleton, elem_of_cons. tauto.
    + constructor; [|done]. intros (c & Ec & Hin)%list_elem_of_fmap. rewrite Forall_forall in Hf. apply (Hf c Hin). rewrite <- Ec. set_solver.
    + constructor; [done|]. eapply Forall_impl; [exact Hf|]. set_solver.
    + by constructor.
    + intros c [->|Hin]%elem_of_cons; [apply Hk; left; set_solver|by apply Hc].
Qed.

Definition walk_all (w : Walk) : list (list string) := wk_saved w ++ wk_active w ++ wk_pending w.
Record walk_inv (tool : string) (s : Store) (w : Walk) : Prop := {
  wi_refs : references (wk_store w);
  wi_nodes : Forall (node tool) (walk_all w);
  wi_distinct : NoDup (walk_all w);
  wi_visited k : k ∈ wk_visited w <-> k ∈ ArgvKey <$> walk_all w;
  wi_root : [tool] ∈ walk_all w;
  wi_pages argv : argv ∈ wk_saved w ->
    exists ents sum l, page_of_probe argv = Some (ents, sum) /\ Load argv (wk_store w) = Some (mkPage l sum) /\ l ≡ₚ ents /\ sorted_by entity_lt l;
  wi_others b : ArgvKey b ∉ ArgvKey <$> wk_saved w -> Load b (wk_store w) = Load b s;
  wi_children argv ents sum c : wk_ended w = false -> argv ∈ wk_saved w -> page_of_probe argv = Some (ents, sum) -> deeper argv = true ->
    c ∈ children argv ents -> ArgvKey c ∈ wk_visited w;
}.

Lemma walk_start_inv tool s : references s -> walk_inv tool s (walk_start tool s).
Proof.
  intros Hr. constructor; unfold walk_all; cbn; try done; try set_solver.
  - by repeat constructor.
  - apply NoDup_singleton.
Qed.

(** What is saved for an argv is a parsed text, also when the probe failed. *)
Lemma page_of_probe_parsed argv ents sum : page_of_probe argv = Some (ents, sum) -> exists help, ents = Parse ToLower IsLetter IsUpper IsDigit help.
Proof.
  unfold page_of_probe. assert (Parse ToLower IsLetter IsUpper IsDigit EmptyString = []) as Hempty.
  { unfold Parse. change (normalizeHelp EmptyString) with EmptyString. cbn [split_on]. unfold parseLines. destruct (Identify _ _); reflexivity. }
  destruct (probe argv) as [[|c h]|e]; [intros [= <- <-]; by exists EmptyString| |intros [= <- <-]; by exists EmptyString].
  destruct (NodeSummary _ _ _ _); [|done]. intros [= <- <-]. by eexists.
Qed.

Lemma walk_take_inv tool s w argv rest : wk_pending w = argv :: rest -> wk_ended w = false -> walk_inv tool s w ->
  walk_inv tool s (mkWalk rest (wk_visited w) (wk_active w ++ [argv]) false (wk_store w) (wk_saved w)).
Proof.
  intros Hp Ee Hi.
  assert (walk_all w = walk_all (mkWalk rest (wk_visited w) (wk_active w ++ [argv]) false (wk_store w) (wk_saved w))) as Ea.
  { unfold walk_all. cbn. rewrite Hp, <- !app_assoc. done. }
  destruct Hi as [A B C D E F G I]. rewrite Ea in *. constructor; try done. cbn. intros a ents sum c _. by apply I.
Qed.

(** The page is saved; the walk's lists change only by what is queued. *)
Lemma finish_shape argv ents sum active w : exists new,
  wk_pending (finish argv ents sum active w) = wk_pending w ++ new /\
  (forall k, k ∈ wk_visited (finish argv ents sum active w) <-> k ∈ wk_visited w \/ k ∈ ArgvKey <$> new) /\ NoDup (ArgvKey <$> new) /\
  Forall (fun c => ArgvKey c ∉ wk_visited w) new /\
  new `sublist_of` (if negb (wk_ended w) && deeper argv then children argv ents else []) /\
  (wk_ended w = false -> deeper argv = true -> forall c, c ∈ children argv ents -> ArgvKey c ∈ wk_visited (finish argv ents sum active w)) /\
  wk_active (finish argv ents sum active w) = active /\ wk_ended (finish argv ents sum active w) = wk_ended w /\
  wk_store (finish argv ents sum active w) = (Save now argv ents sum (wk_store w)).1 /\ wk_saved (finish argv ents sum active w) = wk_saved w ++ [argv].
Proof.
  unfold finish. destruct (negb (wk_ended w) && deeper argv) eqn:Ed.
  - destruct (add_children argv ents (wk_visited w) (wk_pending w)) as [v' p'] eqn:E. apply add_children_spec in E as (new & -> & Hk & Hnd & Hf & Hs & Hc).
    exists new. by split_and!.
  - exists []. cbn. rewrite app_nil_r. split_and!; try done; [set_solver|apply NoDup_nil_2|]. intros He Hd. by rewrite He, Hd in Ed.
Qed.

Lemma walk_finish_inv tool s w argv l l' ents sum :
  wk_active w = l ++ argv :: l' -> page_of_probe argv = Some (ents, sum) -> walk_inv tool s w -> walk_inv tool s (finish argv ents sum (l ++ l') w).
Proof.
  intros Ha Hp Hi. destruct (finish_shape argv ents sum (l ++ l') w) as (new & P1 & P2 & P3 & P4 & P5 & P6 & P7 & P8 & P9 & P10).
  set (w' := finish argv ents sum (l ++ l') w) in *. destruct Hi as [A B C D E F G I].
  assert (walk_all w' ≡ₚ walk_all w ++ new) as Hall.
  { unfold walk_all. rewrite P1, P7, P10, Ha. rewrite <- !app_assoc. apply Permutation_app_head. cbn [app].
    apply (Permutation_middle l (l' ++ wk_pending w ++ new) argv). }
  assert (argv ∈ walk_all w) as Hin by (unfold walk_all; rewrite Ha, !elem_of_app, elem_of_cons; tauto).
  assert (node tool argv) as Hnode by (rewrite Forall_forall in B; auto).
  assert (Forall (node tool) new) as Hnew.
  { apply Forall_forall. intros c Hc. destruct (negb (wk_ended w) && deeper argv) eqn:Ed; [|apply (elem_of_sublist _ _ _ Hc), elem_of_nil in P5; done].
    apply (elem_of_sublist _ _ _ Hc) in P5. apply list_elem_of_fmap in P5 as (e & -> & He). apply list_elem_of_In, filter_In in He as [He Hw].
    apply andb_true_iff in Ed as [_ Ed]. eapply node_child; try done. by apply list_elem_of_In. }
  assert (argv <> []) as Hne by (destruct (node_shape _ _ Hnode) as (ws & -> & _); done).
  destruct (page_of_probe_parsed _ _ _ Hp) as [help Eh].
  destruct (Save_parsed ToLower IsLetter IsUpper IsDigit now argv help sum (wk_store w) Hne A) as (s' & Es & Hr & Hl & Ho). rewrite <- Eh in *.
  rewrite Es in P9. cbn [fst] in P9.
  assert (forall a, a ∈ wk_saved w -> ArgvKey a <> ArgvKey argv) as Hdiff.
  { intros a Hs Ek. rewrite Forall_forall in B. assert (a ∈ walk_all w) as Hs' by (unfold walk_all; rewrite elem_of_app; by left).
    apply (node_key_inj tool a argv) in Ek as ->; [|by auto..]. unfold walk_all in C. rewrite Ha in C. apply NoDup_app in C as (_ & C & _).
    apply (C _ Hs). rewrite !elem_of_app, elem_of_cons. tauto. }
  constructor; rewrite ?P9, ?P10, ?P8.
  - done.
  - rewrite Hall. by apply Forall_app.
  - rewrite Hall. apply NoDup_app. split_and!; [done| |by eapply NoDup_fmap_1]. intros c Hc Hc'. rewrite Forall_forall in P4. apply (P4 _ Hc'). apply D. by apply list_elem_of_fmap_2.
  - intros k. rewrite P2, D, Hall, fmap_app, elem_of_app. done.
  - rewrite Hall, elem_of_app. by left.
  - intros a [Hs|Hs]%elem_of_app; [|apply list_elem_of_singleton in Hs as ->; destruct Hl as (ll & ? & ? & ?); by exists ents, sum, ll].
    rewrite Ho by auto. by apply F.
  - intros b Hb. rewrite fmap_app, not_elem_of_app in Hb. destruct Hb as [Hb1 Hb2]. rewrite Ho; [by apply G|]. intros Ek. apply Hb2. rewrite Ek. by left.
  - intros a ents' sum' c He [Hs|Hs]%elem_of_app Hp' Hd Hc; [apply P2; left; by eapply I|]. apply list_elem_of_singleton in Hs as ->.
    apply P6; [done..|]. rewrite Hp in Hp'. by injection Hp' as <- <-.
Qed.

Lemma walk_step_inv tool s w w' : walk_step w w' -> walk_inv tool s w -> walk_inv tool s w'.
Proof.
  intros [argv rest w0 Hp He _|argv l l' ents sum w0 Ha Hp|w0 He] Hi; [by apply walk_take_inv|by apply walk_finish_inv|].
  destruct Hi as [A B C D E F G I]. by constructor.
Qed.

Lemma walk_inv_run tool s w : references s -> rtc walk_step (walk_start tool s) w -> walk_inv tool s w.
Proof.
  intros Hr Hrun. pose proof (walk_start_inv tool s Hr) as Hi. revert Hi.
  induction Hrun as [|w1 w2 w3 Hs _ IH]; [done|]. intros Hi. apply IH. by eapply walk_step_inv.
Qed.

Lemma walk_over_saved tool s w : walk_inv tool s w -> walk_over w -> forall argv, node tool argv -> argv ∈ wk_saved w.
Proof.
  intros Hi (He & Hp & Ha). assert (walk_all w = wk_saved w) as Hall by (unfold walk_all; by rewrite Hp, Ha, app_nil_r).
  destruct Hi as [_ B _ D E _ _ I]. rewrite Hall in *. induction 1 as [|argv ents sum e Hn IH Hpage Hd Hin Hw]; [done|].
  assert (ArgvKey (argv ++ [en_Name e]) ∈ wk_visited w) as Hv.
  { eapply (I argv ents sum); try done. apply list_elem_of_fmap. exists e. split; [done|]. apply list_elem_of_In, filter_In. split; [by apply list_elem_of_In|done]. }
  apply D, list_elem_of_fmap in Hv as (b & Ek & Hb). rewrite Forall_forall in B.
  apply (node_key_inj tool) in Ek as ->; [done|by eapply node_child|by apply B].
Qed.

(** The warm-up of a program saves the page of every command in its tree, once each, and of
    nothing else, in every schedule of its workers: the tree starts at the program, the children of
    a command are the commands its own help text lists (apart from flags, help and unsafe names),
    down to the depth limit. The pages hold what was parsed from the help texts; pages of other
    command lines stay as they were. *)
Theorem walk_covers (tool : string) (s : Store) (w : Walk) :
  references s -> rtc walk_step (walk_start tool s) w ->
  NoDup (wk_saved w) /\ Forall (node tool) (wk_saved w) /\
  (forall argv, argv ∈ wk_saved w ->
     exists ents sum l, page_of_probe argv = Some (ents, sum) /\ Load argv (wk_store w) = Some (mkPage l sum) /\ l ≡ₚ ents /\ sorted_by entity_lt l) /\
  (forall b, (forall argv, node tool argv -> ArgvKey b <> ArgvKey argv) -> Load b (wk_store w) = Load b s) /\
  (walk_over w -> forall argv, node tool argv -> argv ∈ wk_saved w).
Proof.
  intros Hr Hrun. pose proof (walk_inv_run tool s w Hr Hrun) as Hi. assert (Forall (node tool) (wk_saved w)) as Hn.
  { pose proof (wi_nodes _ _ _ Hi) as Hn. unfold walk_all in Hn. by apply Forall_app in Hn as [? _]. }
  split_and!; [|done|apply (wi_pages _ _ _ Hi)| |by eapply walk_over_saved].
  - pose proof (wi_distinct _ _ _ Hi) as Hd. unfold walk_all in Hd. by apply NoDup_app in Hd as [? _].
  - intros b Hb. apply (wi_others _ _ _ Hi). intros (argv & Ek & Hin)%list_elem_of_fmap. rewrite Forall_forall in Hn. by apply (Hb argv); [apply Hn|].
Qed.

(** ** The walk ends when its depth is limited *)

(** The steps for the tree below a command, [n] levels of it. *)
Fixpoint weight (n : nat) (argv : list string) : nat :=
  2 + match n with
      | O => 0
      | Datatypes.S n => match page_of_probe argv with Some (ents, _) => sum_list_with (weight n) (children argv ents) | None => 0 end
      end.
Definition weight_of (argv : list string) : nat := weight (Z.to_nat depth - length argv) argv.
Definition walk_left (w : Walk) : nat :=
  (sum_list_with weight_of (wk_pending w) + sum_list_with (fun a => weight_of a - 1) (wk_active w) + if wk_ended w then 0 else 1)%nat.

Lemma weight_pos n argv : (2 <= weight n argv)%nat.
Proof. destruct n; cbn; lia. Qed.
Lemma sum_sublist (f : list string -> nat) l k : l `sublist_of` k -> (sum_list_with f l <= sum_list_with f k)%nat.
Proof. induction 1; cbn; lia. Qed.

Lemma walk_step_left w w' : 0 < depth -> walk_step w w' -> (walk_left w' < walk_left w)%nat.
Proof.
  intros Hdep [argv rest w0 Hp He _|argv l l' ents sum w0 Ha Hp|w0 He].
  - unfold walk_left. cbn. rewrite Hp, He, sum_list_with_app. cbn.
    pose proof (weight_pos (Z.to_nat depth - length argv) argv) as Hw. fold (weight_of argv) in Hw. lia.
  - destruct (finish_shape argv ents sum (l ++ l') w0) as (new & P1 & _ & _ & _ & P5 & _ & P7 & P8 & _ & _). unfold walk_left. rewrite P1, P7, P8, Ha, !sum_list_with_app. cbn.
    assert (sum_list_with weight_of new + 1 <= weight_of argv - 1)%nat; [|lia].
    pose proof (weight_pos (Z.to_nat depth - length argv) argv) as Hw. fold (weight_of argv) in Hw.
    destruct (negb (wk_ended w0) && deeper argv) eqn:Ed; [|apply sublist_nil_r in P5 as ->; cbn; lia].
    apply andb_true_iff in Ed as [_ Ed]. unfold deeper in Ed. apply orb_true_iff in Ed as [Ed%Z.leb_le|Ed%Z.ltb_lt]; [lia|].
    apply (sum_sublist weight_of) in P5. unfold weight_of at 2. destruct (Z.to_nat depth - length argv)%nat as [|n] eqn:En; [lia|]. cbn. rewrite Hp.
    enough (sum_list_with weight_of (children argv ents) = sum_list_with (weight n) (children argv ents)) by lia.
    unfold children. induction (List.filter walked ents) as [|e es IH]; [done|]. cbn. rewrite IH. f_equal. unfold weight_of. f_equal. rewrite length_app. cbn. lia.
  - unfold walk_left. cbn. rewrite He. lia.
Qed.

(** With a depth limit the warm-up of a program ends, in every schedule of its workers: each step brings it closer to
    the end, and as long as the context has not ended and something is pending or being probed, some worker can go on.
    Without a limit it need not end. *)
Theorem walk_terminates (w : Walk) :
  0 < depth -> (0 < jobs)%nat -> (forall argv, page_of_probe argv <> None) ->
  (forall w', walk_step w w' -> (walk_left w' < walk_left w)%nat) /\
  (wk_ended w = false -> walk_over w \/ exists w', walk_step w w' /\ wk_ended w' = false).
Proof.
  intros Hd Hj Hp. split; [intros w'; by apply walk_step_left|]. intros He. destruct (wk_active w) as [|argv l] eqn:Ea.
  - destruct (wk_pending w) as [|argv rest] eqn:Ep; [by left|]. right. eexists. split; [eapply walk_take; [done|done|by rewrite Ea]|done].
  - right. destruct (page_of_probe argv) as [[ents sum]|] eqn:E; [|by destruct (Hp argv)]. eexists. split; [by eapply (walk_finish argv [] l)|].
    destruct (finish_shape argv ents sum ([] ++ l) w) as (new & _ & _ & _ & _ & _ & _ & _ & P8 & _). by rewrite P8.
Qed.
End Warmup.

(** [warmupTool] up to the walk, with the clock, [lookPath], [os.Stat] and
    [probeVersion]. *)
Definition warm_prepare (now : Time) (lookPath : string -> string) (stat : string -> option (Z * Z)) (probeVersion : string -> string) (tool : string) : M Store unit :=
  _ ← Purge [tool];
  let bin := lookPath tool in
  let '(mtime, sz) := default (0, 0) (stat bin) in
  UpsertTool (mkTool tool bin mtime sz (probeVersion bin) (now `div` 1000000000)).


(** ** [job.go] *)

Record JobStatus := mkJob {
  jb_Running : bool; jb_PID : Z; jb_Tools : list string; jb_Tool : string; jb_Last : string; jb_Remaining : list string; jb_Queued : list string;
  jb_Pages : Z; jb_Pending : Z; jb_InFlight : Z; jb_Message : string; jb_StartedAt : Z; jb_FinishedAt : Z; jb_Error : string;
}.
Definition noJob : JobStatus := mkJob false 0 [] "" "" [] [] 0 0 0 "" 0 0 "".

Definition Line (st : JobStatus) : string :=
  let s := if str_empty (jb_Message st) then if str_empty (jb_Tool st) then "starting"%string else ("warming " +:+ jb_Tool st)%string else jb_Message st in
  let extra := match jb_Remaining st with [] => [] | ts => ["next " +:+ join_with " " ts]%string end ++
               match jb_Queued st with [] => [] | ts => ["queued " +:+ join_with " " ts]%string end in
  match extra with [] => s | _ => (s +:+ "  [" +:+ join_with "; " extra +:+ "]")%string end.

Definition containsTool (l : list string) (tool : string) : bool := existsb (String.eqb tool) l.
Fixpoint append_unique (seen : gset string) (dst tools : list string) : list string :=
  match tools with
  | [] => dst
  | t :: tools =>
      let t := trim_space t in
      if str_empty t || bool_decide (t ∈ seen) then append_unique seen dst tools else append_unique ({[t]} ∪ seen) (dst ++ [t]) tools
  end.
Definition appendUnique (dst tools : list string) : list string := append_unique (list_to_set dst) dst tools.

(** The status file, the file with the process identifier (0 when there is
    none), and the processes that are alive. *)
Record World := mkWorld { jw_status : option JobStatus; jw_pid : Z; jw_alive : gset Z }.
Definition ReadJob (w : World) : JobStatus := default noJob (jw_status w).
Definition WriteJob (st : JobStatus) (w : World) : World := mkWorld (Some st) (jw_pid w) (jw_alive w).
(** [withJob], under the lock of the status file. *)
Definition withJob (f : JobStatus -> result JobStatus) : M World unit := fun w =>
  match f (ReadJob w) with Ok st => (WriteJob st w, Ok tt) | Fail e => (w, Fail e) end.

Definition pidAlive (w : World) (pid : Z) : bool := bool_decide (pid ∈ jw_alive w).
Definition RunningPID (w : World) : option Z :=
  if (0 <? jw_pid w) && pidAlive w (jw_pid w) then Some (jw_pid w)
  else let st := ReadJob w in if jb_Running st && (0 <? jb_PID st) && pidAlive w (jb_PID st) then Some (jb_PID st) else None.
Definition jobIsLive (w : World) (st : JobStatus) : bool :=
  if negb (jb_Running st) then false
  else if (0 <? jb_PID st) && negb (pidAlive w (jb_PID st)) then false
  else match RunningPID w with
       | Some pid => if (jb_PID st =? 0) || (pid =? jb_PID st) then true else (0 <? jb_PID st) && pidAlive w (jb_PID st)
       | None => (0 <? jb_PID st) && pidAlive w (jb_PID st)
       end.

Definition errNotRunning : error := EMsg "warmup not running".
Definition enqueue_one (cur : JobStatus * list string) (t : string) : JobStatus * list string :=
  let '(st, added) := cur in
  let t := trim_space t in
  if str_empty t then cur
  else if String.eqb t (jb_Tool st) || containsTool (jb_Remaining st) t || containsTool (jb_Queued st) t then cur
  else (mkJob (jb_Running st) (jb_PID st) (appendUnique (jb_Tools st) [t]) (jb_Tool st) (jb_Last st) (jb_Remaining st) (jb_Queued st ++ [t])
          (jb_Pages st) (jb_Pending st) (jb_InFlight st) (jb_Message st) (jb_StartedAt st) (jb_FinishedAt st) (jb_Error st), added ++ [t]).
Definition Enqueue (tools : list string) : M World (JobStatus * list string) := fun w =>
  if negb (jobIsLive w (ReadJob w)) then (w, Fail errNotRunning)
  else let r := foldl enqueue_one (ReadJob w, []) tools in (WriteJob r.1 w, Ok r).

(** [Start], up to the launch of the worker: the process that runs already, or
    none. *)
Definition start_enqueue (tools : list string) : M World (option (Z * list string)) := fun w =>
  match tools with
  | [] => (w, Fail (EMsg "specify tools to warm"))
  | _ => match RunningPID w with
         | None => (w, Ok None)
         | Some _ =>
             match Enqueue tools w with
             | (w, Ok (st, added)) => (w, Ok (Some (jb_PID st, added)))
             | (w, Fail _) => (w, Ok None)
             end
         end
  end.
(** The launch, and the status written after it without the lock. *)
Definition start_launch (pid : Z) (w : World) : World := mkWorld (jw_status w) pid ({[pid]} ∪ jw_alive w).
Definition start_status (now : Time) (tools : list string) (pid : Z) : JobStatus :=
  mkJob true pid tools "" "" (drop 1 tools) [] 0 0 0 "starting" (now `div` 1000000000) 0 "".

(** ** [RunWorker] *)

(** [Progress] of [warmup.go]. *)
Record Progress := mkProgress { pg_Tool : string; pg_Last : string; pg_Pages : Z; pg_Pending : Z; pg_InFlight : Z; pg_Message : string }.

(** What the worker does to the status, each under the lock: when it starts,
    on progress, when the table cannot be opened, when it panics. *)
Definition job_begin (pid now : Z) (tools : list string) (st : JobStatus) : JobStatus :=
  mkJob true pid (appendUnique (jb_Tools st) tools) (jb_Tool st) (jb_Last st) (jb_Remaining st) (jb_Queued st) (jb_Pages st) (jb_Pending st) (jb_InFlight st)
    "starting" (if jb_StartedAt st =? 0 then now else jb_StartedAt st) 0 "".
Definition job_progress (pid : Z) (p : Progress) (st : JobStatus) : JobStatus :=
  mkJob true pid (jb_Tools st) (pg_Tool p) (pg_Last p) (jb_Remaining st) (jb_Queued st) (pg_Pages p) (pg_Pending p) (pg_InFlight p)
    (pg_Message p) (jb_StartedAt st) (jb_FinishedAt st) (jb_Error st).
Definition job_unopened (now : Z) (e : string) (st : JobStatus) : JobStatus :=
  mkJob false (jb_PID st) (jb_Tools st) (jb_Tool st) (jb_Last st) (jb_Remaining st) (jb_Queued st) (jb_Pages st) (jb_Pending st) (jb_InFlight st)
    e (jb_StartedAt st) now e.
Definition job_panicked (now : Z) (e : string) (st : JobStatus) : JobStatus :=
  mkJob false (jb_PID st) (jb_Tools st) (jb_Tool st) (jb_Last st) (jb_Remaining st) (jb_Queued st) (jb_Pages st) 0 0 e (jb_StartedAt st) now e.
(** [takeQueued]; the end of the work; the next tool; the end with an error. *)
Definition takeQueued (st : JobStatus) : JobStatus :=
  mkJob (jb_Running st) (jb_PID st) (jb_Tools st) (jb_Tool st) (jb_Last st) (jb_Remaining st) [] (jb_Pages st) (jb_Pending st) (jb_InFlight st)
    (jb_Message st) (jb_StartedAt st) (jb_FinishedAt st) (jb_Error st).
Definition job_stop (now : Z) (st : JobStatus) : JobStatus :=
  mkJob false (jb_PID st) (jb_Tools st) (jb_Tool st) (jb_Last st) [] (jb_Queued st) (jb_Pages st) 0 0
    (if str_empty (jb_Message st) || has_prefix "starting" (jb_Message st) then "warmup complete" else jb_Message st) (jb_StartedAt st) now (jb_Error st).
Definition job_next (pid : Z) (tool : string) (rest : list string) (st : JobStatus) : JobStatus :=
  mkJob true pid (appendUnique (appendUnique (jb_Tools st) [tool]) rest) tool "" rest (jb_Queued st) 0 0 0
    ("warming " +:+ tool) (jb_StartedAt st) (jb_FinishedAt st) (jb_Error st).
Definition job_failed (now : Z) (e : string) (st : JobStatus) : JobStatus :=
  mkJob false (jb_PID st) (jb_Tools st) (jb_Tool st) (jb_Last st) (jb_Remaining st) (jb_Queued st) (jb_Pages st) 0 0
    (if str_empty (jb_Message st) then e else jb_Message st) (jb_StartedAt st) now e.
Definition removePID (pid : Z) (w : World) : World := mkWorld (jw_status w) (if jw_pid w =? pid then 0 else jw_pid w) (jw_alive w).

(** Where the worker is: before its first update, before the table is open, at
    the head of its loop, with nothing left, with a tool to take, warming a
    tool, after its loop, and returned. *)
Inductive JobPhase :=
| PInit | POpen | PLoop | PCheck | PNext
| PWarm (tool : string)
| PEnd (e : option string)
| PDone (e : option string)
| PExit (e : option string).
#[global] Instance JobPhase_eq_dec : EqDecision JobPhase.
Proof. solve_decision. Defined.

(** The worker's [remaining], the tools it has warmed, and those the clients
    were promised. *)
Record Job := mkJobRun { jr_world : World; jr_phase : JobPhase; jr_remaining : list string; jr_warmed : list string; jr_wanted : list string }.
Definition job_update (f : JobStatus -> JobStatus) (w : World) : World := WriteJob (f (ReadJob w)) w.
(** After [Start] has launched the worker and written its status. *)
Definition job_start (now pid : Z) (tools : list string) (w : World) : Job :=
  mkJobRun (WriteJob (start_status now tools pid) (start_launch pid w)) PInit tools [] tools.
Definition promised (tools : list string) : list string := List.filter (fun t => negb (str_empty t)) (trim_space <$> tools).

Definition returned (ph : JobPhase) : bool := match ph with PDone _ | PExit _ => true | _ => false end.

(** One step of the worker, or of a client that enqueues tools. The status
    file can be read and written; what the clock says is arbitrary. *)
Inductive job_step (pid : Z) : Job -> Job -> Prop :=
| js_begin now w rem warmed wanted :
    job_step pid (mkJobRun w PInit rem warmed wanted) (mkJobRun (job_update (job_begin pid now rem) (mkWorld (jw_status w) pid (jw_alive w))) POpen rem warmed wanted)
| js_open w rem warmed wanted :
    job_step pid (mkJobRun w POpen rem warmed wanted) (mkJobRun w PLoop rem warmed wanted)
| js_unopened now e w rem warmed wanted :
    job_step pid (mkJobRun w POpen rem warmed wanted) (mkJobRun (job_update (job_unopened now e) w) (PDone (Some e)) rem warmed wanted)
| js_take w rem warmed wanted rem' :
    rem' = appendUnique rem (jb_Queued (ReadJob w)) ->
    job_step pid (mkJobRun w PLoop rem warmed wanted)
      (mkJobRun (job_update takeQueued w) (match rem' with [] => PCheck | _ => PNext end) rem' warmed wanted)
| js_check now w rem warmed wanted rem' :
    rem' = appendUnique rem (jb_Queued (ReadJob w)) ->
    job_step pid (mkJobRun w PCheck rem warmed wanted)
      (match rem' with
       | [] => mkJobRun (job_update (fun st => job_stop now (takeQueued st)) w) (PEnd None) rem' warmed wanted
       | _ => mkJobRun (job_update takeQueued w) PLoop rem' warmed wanted
       end)
| js_next w tool rest warmed wanted :
    job_step pid (mkJobRun w PNext (tool :: rest) warmed wanted) (mkJobRun (job_update (job_next pid tool rest) w) (PWarm tool) rest warmed wanted)
| js_progress p w tool rem warmed wanted :
    pg_Tool p = tool ->
    job_step pid (mkJobRun w (PWarm tool) rem warmed wanted) (mkJobRun (job_update (job_progress pid p) w) (PWarm tool) rem warmed wanted)
| js_warmed w tool rem warmed wanted :
    job_step pid (mkJobRun w (PWarm tool) rem warmed wanted) (mkJobRun w PLoop rem (warmed ++ [tool]) wanted)
| js_unwarmed e w tool rem warmed wanted :
    job_step pid (mkJobRun w (PWarm tool) rem warmed wanted) (mkJobRun w (PEnd (Some e)) rem warmed wanted)
| js_context e w ph rem warmed wanted :
    ph = PLoop \/ ph = PEnd None ->
    job_step pid (mkJobRun w ph rem warmed wanted) (mkJobRun w (PEnd (Some e)) rem warmed wanted)
| js_panic now e w ph rem warmed wanted :
    returned ph = false ->
    job_step pid (mkJobRun w ph rem warmed wanted) (mkJobRun (job_update (job_panicked now e) w) (PDone (Some e)) rem warmed wanted)
| js_done w rem warmed wanted :
    job_step pid (mkJobRun w (PEnd None) rem warmed wanted) (mkJobRun w (PDone None) rem warmed wanted)
| js_failed now e w rem warmed wanted :
    job_step pid (mkJobRun w (PEnd (Some e)) rem warmed wanted) (mkJobRun (job_update (job_failed now e) w) (PDone (Some e)) rem warmed wanted)
| js_exit e w rem warmed wanted :
    job_step pid (mkJobRun w (PDone e) rem warmed wanted)
      (mkJobRun (let w' := removePID pid w in mkWorld (jw_status w') (jw_pid w') (jw_alive w' ∖ {[pid]})) (PExit e) rem warmed wanted)
| js_enqueue tools w w' r ph rem warmed wanted :
    Enqueue tools w = (w', Ok r) ->
    job_step pid (mkJobRun w ph rem warmed wanted) (mkJobRun w' ph rem warmed (wanted ++ promised tools)).

(** ** The queue loses nothing *)

Lemma append_unique_elem seen dst tools x :
  (forall y, y ∈ seen -> y ∈ dst) -> x ∈ append_unique seen dst tools <-> x ∈ dst \/ x ∈ promised tools.
Proof.
  revert seen dst. induction tools as [|t tools IH]; intros seen dst Hs; cbn; [set_solver|].
  destruct (str_empty (trim_space t)) eqn:Et; cbn; [by apply IH|]. destruct (decide (trim_space t ∈ seen)) as [Hin|Hn].
  - rewrite bool_decide_true by done. rewrite IH by done. specialize (Hs _ Hin). set_solver.
  - rewrite bool_decide_false by done. rewrite IH; set_solver.
Qed.
Lemma appendUnique_elem dst tools x : x ∈ appendUnique dst tools <-> x ∈ dst \/ x ∈ promised tools.
Proof. apply append_unique_elem. set_solver. Qed.

Definition clean (t : string) : Prop := trim_space t = t /\ str_empty t = false.
Lemma elem_of_promised tools t : t ∈ promised tools <-> str_empty t = false /\ exists u, u ∈ tools /\ t = trim_space u.
Proof.
  unfold promised. rewrite list_elem_of_In, filter_In, <- list_elem_of_In, list_elem_of_fmap, negb_true_iff. naive_solver.
Qed.
Lemma promised_clean tools t : t ∈ promised tools -> clean t.
Proof. intros (He & u & _ & ->)%elem_of_promised. split; [apply trim_space_idem|done]. Qed.
Lemma promised_of_clean tools t : Forall clean tools -> t ∈ promised tools <-> t ∈ tools.
Proof.
  intros Hc. rewrite Forall_forall in Hc. rewrite elem_of_promised. split.
  - intros (_ & u & Hu & ->). by rewrite (proj1 (Hc _ Hu)).
  - intros Ht. destruct (Hc _ Ht) as [E He]. eauto.
Qed.

(** What enqueueing does to the status. *)
Record enqueued (st st' : JobStatus) (tools added : list string) : Prop := {
  eq_running : jb_Running st' = jb_Running st;
  eq_tool : jb_Tool st' = jb_Tool st;
  eq_remaining : jb_Remaining st' = jb_Remaining st;
  eq_error : jb_Error st' = jb_Error st;
  eq_queued : jb_Queued st' = jb_Queued st ++ added;
  eq_added : forall t, t ∈ added -> t ∈ promised tools;
  eq_served : forall t, t ∈ promised tools -> t = jb_Tool st \/ t ∈ jb_Remaining st \/ t ∈ jb_Queued st';
}.
Lemma containsTool_iff l t : containsTool l t = true <-> t ∈ l.
Proof. unfold containsTool. rewrite existsb_exists, list_elem_of_In. setoid_rewrite String.eqb_eq. naive_solver. Qed.
Lemma promised_cons t tools : promised (t :: tools) = promised [t] ++ promised tools.
Proof. unfold promised. cbn. by destruct (str_empty _). Qed.
Lemma enqueue_one_spec st added t : exists new,
  (enqueue_one (st, added) t).2 = added ++ new /\ enqueued st (enqueue_one (st, added) t).1 [t] new.
Proof.
  unfold enqueue_one. destruct (str_empty (trim_space t)) eqn:Et.
  { exists []. rewrite app_nil_r. split; [done|]. constructor; cbn; rewrite ?Et, ?app_nil_r; set_solver. }
  assert (promised [t] = [trim_space t]) as Hp by (unfold promised; cbn; by rewrite Et).
  destruct (_ || _ || _) eqn:Ec.
  - exists []. rewrite app_nil_r. split; [done|]. rewrite !orb_true_iff, String.eqb_eq, !containsTool_iff in Ec.
    constructor; cbn [fst]; rewrite ?Hp, ?app_nil_r; set_solver.
  - exists [trim_space t]. split; [done|]. constructor; cbn [fst jb_Running jb_Tool jb_Remaining jb_Error jb_Queued]; rewrite ?Hp; set_solver.
Qed.
Lemma enqueue_all_spec tools st added : exists new,
  (foldl enqueue_one (st, added) tools).2 = added ++ new /\ enqueued st (foldl enqueue_one (st, added) tools).1 tools new.
Proof.
  revert st added. induction tools as [|t tools IH]; intros st added; cbn [foldl].
  { exists []. rewrite app_nil_r. split; [done|]. constructor; cbn; rewrite ?app_nil_r; set_solver. }
  destruct (enqueue_one_spec st added t) as (n1 & E1 & S1). destruct (enqueue_one (st, added) t) as [st1 a1]. cbn in E1, S1. subst a1.
  destruct (IH st1 (added ++ n1)) as (n2 & -> & S2). exists (n1 ++ n2). split; [by rewrite (assoc_L app)|]. destruct S1, S2.
  constructor; [congruence..| | |]; rewrite ?(promised_cons t tools).
  - rewrite eq_queued1, eq_queued0. by rewrite (assoc_L app).
  - set_solver.
  - intros x [Hx|Hx]%elem_of_app; [apply eq_served0 in Hx|apply eq_served1 in Hx]; rewrite ?eq_queued1, ?eq_tool0, ?eq_remaining0 in *; set_solver.
Qed.
Lemma Enqueue_spec tools w w' st added : Enqueue tools w = (w', Ok (st, added)) ->
  jb_Running (ReadJob w) = true /\ w' = WriteJob st w /\ enqueued (ReadJob w) st tools added.
Proof.
  unfold Enqueue. destruct (jobIsLive w (ReadJob w)) eqn:El; cbn [negb]; [|by intros [=]].
  destruct (enqueue_all_spec tools (ReadJob w) []) as (new & E & Hs). destruct (foldl _ _ _) as [st1 a1]. cbn in E, Hs. intros [= <- <- <-]. subst a1.
  split_and!; [|done|done]. unfold jobIsLive in El. by destruct (jb_Running _).
Qed.

(** ** The invariant of a run *)

Definition going (ph : JobPhase) : Prop := match ph with PEnd (Some _) | PDone (Some _) | PExit (Some _) => False | _ => True end.
Definition current (ph : JobPhase) : list string := match ph with PWarm t => [t] | _ => [] end.
Definition begun (j : Job) : list string := jr_warmed j ++ current (jr_phase j).
Definition phase_inv (j : Job) : Prop :=
  let st := ReadJob (jr_world j) in
  match jr_phase j with
  | PCheck => jr_remaining j = []
  | PEnd None | PDone None | PExit None => jr_remaining j = [] /\ jb_Queued st = [] /\ jb_Running st = false
  | PDone (Some e) | PExit (Some e) => jb_Running st = false /\ jb_Error st = e
  | _ => True
  end.
Record job_inv (j : Job) : Prop := {
  ji_only : forall t, t ∈ begun j ++ jr_remaining j ++ jb_Queued (ReadJob (jr_world j)) -> t ∈ jr_wanted j;
  ji_clean : Forall clean (jb_Queued (ReadJob (jr_world j)));
  ji_phase : phase_inv j;
  ji_kept : going (jr_phase j) ->
    (forall t, t ∈ jr_wanted j -> t ∈ begun j ++ jr_remaining j ++ jb_Queued (ReadJob (jr_world j))) /\
    (forall t, t ∈ jb_Remaining (ReadJob (jr_world j)) -> t ∈ begun j ++ jr_remaining j) /\
    (jb_Tool (ReadJob (jr_world j)) = EmptyString \/ jb_Tool (ReadJob (jr_world j)) ∈ begun j);
}.

Lemma job_start_inv now pid tools w : job_inv (job_start now pid tools w).
Proof.
  constructor; cbn; [set_solver|constructor|done|]. intros _. split_and!; [set_solver| |by left].
  destruct tools; cbn; rewrite ?drop_0; set_solver.
Qed.
(** Moving the queue to the worker's own list. *)
Lemma taken_elem rem w t : Forall clean (jb_Queued (ReadJob w)) ->
  t ∈ appendUnique rem (jb_Queued (ReadJob w)) <-> t ∈ rem ++ jb_Queued (ReadJob w).
Proof. intros Hc. by rewrite appendUnique_elem, promised_of_clean, elem_of_app. Qed.

Lemma job_enqueue_inv tools w w' r ph rem warmed wanted : Enqueue tools w = (w', Ok r) ->
  job_inv (mkJobRun w ph rem warmed wanted) -> job_inv (mkJobRun w' ph rem warmed (wanted ++ promised tools)).
Proof.
  destruct r as [st added]. intros (Hr & -> & [E1 E2 E3 E4 E5 E6 E7])%Enqueue_spec [H1 H2 H3 H4]. unfold phase_inv, begun in *; cbn in *.
  constructor; unfold phase_inv, begun; cbn; rewrite ?E5; [set_solver| | |].
  - apply Forall_app. split; [done|]. apply Forall_forall. intros t Ht. eauto using promised_clean.
  - destruct ph as [| | | | | |[e|]|[e|]|[e|]]; rewrite ?E1, ?E4; naive_solver congruence.
  - intros Hg. specialize (H4 Hg) as (K1 & K2 & K3). rewrite E2, E3. split_and!; [|done|done].
    intros t [Ht|Ht]%elem_of_app; [set_solver|]. pose proof (promised_clean _ _ Ht) as [_ Hne].
    apply E7 in Ht as [->|[Ht|Ht]]; [|set_solver|rewrite E5 in Ht; set_solver].
    destruct K3 as [K3|K3]; [by rewrite K3 in Hne|set_solver].
Qed.

(** The worker takes the queue, and goes on in another phase. *)
Lemma job_take_inv f ph ph' w rem warmed wanted :
  ph = PLoop \/ ph = PCheck -> current ph' = [] ->
  jb_Queued (f (ReadJob w)) = [] -> jb_Tool (f (ReadJob w)) = jb_Tool (ReadJob w) -> (forall t, t ∈ jb_Remaining (f (ReadJob w)) -> t ∈ jb_Remaining (ReadJob w)) ->
  phase_inv (mkJobRun (job_update f w) ph' (appendUnique rem (jb_Queued (ReadJob w))) warmed wanted) ->
  job_inv (mkJobRun w ph rem warmed wanted) ->
  job_inv (mkJobRun (job_update f w) ph' (appendUnique rem (jb_Queued (ReadJob w))) warmed wanted).
Proof.
  intros Hph Hc Hq Ht Hr Hpi [H1 H2 _ H4]. pose proof (fun t => taken_elem rem w t H2) as Htk. unfold begun in *. cbn in *.
  assert (current ph = [] /\ going ph) as [Hc0 Hg] by (by destruct Hph as [-> | ->]). rewrite Hc0 in *. specialize (H4 Hg) as (K1 & K2 & K3).
  constructor; unfold begun; cbn -[appendUnique]; rewrite ?Hc, ?Hq, ?Ht; [|constructor|done|].
  - intros t Hin. apply H1. rewrite !elem_of_app, Htk, elem_of_app in Hin. set_solver.
  - intros _. split_and!; [|intros t Hin%Hr%K2|by eauto].
    + intros t Hin%K1. rewrite !elem_of_app, Htk, elem_of_app. set_solver.
    + rewrite !elem_of_app, Htk, elem_of_app. set_solver.
Qed.

Lemma job_step_inv pid j j' : job_step pid j j' -> job_inv j -> job_inv j'.
Proof.
  intros Hs. destruct Hs as [| | |w rem warmed wanted rem' Er|now w rem warmed wanted rem' Er|w tool rest warmed wanted|p w tool rem warmed wanted Ep|w tool rem warmed wanted| | | | | | |].
  15: by eapply job_enqueue_inv.
  4: { subst rem'. apply job_take_inv; [by left|by destruct (appendUnique _ _)|done..|]. unfold phase_inv. cbn -[appendUnique]. by destruct (appendUnique _ _) eqn:E. }
  4: { destruct rem' as [|t l]; rewrite Er.
       - apply job_take_inv; [by right|done|done|done|set_solver|]. unfold phase_inv. cbn -[appendUnique]. by rewrite <- Er.
       - apply job_take_inv; [by right|done..|]. by unfold phase_inv. }
  all: intros [H1 H2 H3 H4]; unfold phase_inv, begun in *; cbn in *.
  all: try by (constructor; unfold phase_inv, begun; cbn; [set_solver|done|done|naive_solver]).
  all: destruct (H4 I) as (K1 & K2 & K3); constructor; unfold phase_inv, begun; cbn; [set_solver|done|done|]; intros _.
  - split_and!; set_solver.
  - rewrite Ep. split_and!; [done|done|set_solver].
  - split_and!; set_solver.
Qed.

Lemma job_inv_run pid now tools w j : rtc (job_step pid) (job_start now pid tools w) j -> job_inv j.
Proof. revert j. apply (rtc_ind_r job_inv); [apply job_start_inv|]. eauto using job_step_inv. Qed.


(** ** [Follow] *)

(** [warmupLogTail], from the content of the log; empty when there is none. *)
Definition warmupLogTail (content : option string) : string :=
  match content with
  | None => EmptyString
  | Some b =>
      let s := trim_space b in
      if str_empty s then EmptyString
      else let lines := split_on "010"%char s in join_with (String "010"%char EmptyString) (drop (length lines - 20) lines)
  end.

Section Follow.
Context (log : option string).

Definition lost (w : World) (st : JobStatus) : bool := jb_Running st && (0 <? jb_PID st) && negb (pidAlive w (jb_PID st)).
Definition lost_error (st : JobStatus) : error := EMsg ("warmup process " +:+ sprint_d (jb_PID st) +:+ " is not running").
(** The first look finds no live worker. *)
Definition follow_none (w : World) : list string * result unit :=
  let st := ReadJob w in
  let line := Line st in
  let shown := if negb (str_empty line) && negb (String.eqb line "starting") then [line] else [] in
  if lost w st then
    if negb (str_empty (jb_Error st)) then (shown, Fail (EMsg (jb_Error st)))
    else (shown ++ (if str_empty (warmupLogTail log) then [] else [warmupLogTail log]) ++ ["warmup not running"%string], Fail (lost_error st))
  else if str_empty (jb_Message st) && (jb_PID st =? 0) then (["no warmup running"%string], Ok tt)
  else (shown, if negb (str_empty (jb_Error st)) then Fail (EMsg (jb_Error st)) else Ok tt).
(** The lines printed while the polls see these worlds, and the answer, if
    there is one by then. *)
Fixpoint follow_polls (first sawLive : bool) (last : string) (polls : list World) : list string * option (result unit) :=
  match polls with
  | [] => ([], None)
  | w :: polls =>
      let st := ReadJob w in
      let live := jobIsLive w st in
      let sawLive := live || sawLive in
      let line := Line st in
      if first && negb live then let r := follow_none w in (r.1, Some r.2)
      else
        let '(out, last) := if negb (str_empty line) && negb (String.eqb line last) then ([line], line) else ([], last) in
        if negb live && negb (str_empty (jb_Error st)) then (out, Some (Fail (EMsg (jb_Error st))))
        else if negb live && lost w st then (out, Some (Fail (lost_error st)))
        else if negb live && sawLive then (out, Some (Ok tt))
        else let '(out', r) := follow_polls false sawLive last polls in (out ++ out', r)
  end.
Definition Follow (polls : list World) : list string * option (result unit) := follow_polls true false EmptyString polls.

(** Following ends with the first look that finds no live worker, and not
    before. *)
Lemma follow_polls_returns polls first sawLive last : first = true \/ sawLive = true ->
  (follow_polls first sawLive last polls).2 = None <-> Forall (fun w => jobIsLive w (ReadJob w) = true) polls.
Proof.
  revert first sawLive last. induction polls as [|w polls IH]; intros first sawLive last Hf; cbn [follow_polls]; [done|].
  rewrite Forall_cons. destruct (jobIsLive w (ReadJob w)) eqn:El.
  - rewrite andb_false_r. cbn [negb andb orb]. destruct (if negb (str_empty _) && _ then _ else _) as [out last'].
    specialize (IH false true last' (or_intror eq_refl)). destruct (follow_polls _ _ _ _) as [out' r]. cbn in *. naive_solver.
  - destruct first; cbn [negb andb]; [cbn; naive_solver|]. destruct Hf as [Hf|Hf]; [done|]. rewrite Hf. cbn [orb].
    destruct (if negb (str_empty _) && _ then _ else _) as [out last']. repeat case_match; cbn; naive_solver.
Qed.
Theorem Follow_returns polls : (Follow polls).2 = None <-> Forall (fun w => jobIsLive w (ReadJob w) = true) polls.
Proof. apply follow_polls_returns. by left. Qed.
End Follow.
