(* ===== verification/Config.v ===== *)
(** [internal/config] ([config.go], [expand.go], [paths.go]): the settings, the
    endpoints of the synchronization, the checks made before they are used or
    saved, the defaults, and where the files live. Loading
    and saving are in [ConfigWrite]; [time.ParseDuration] is a parameter. *)

From S2P Require Import Prelude Text.
From Stdlib Require Import Ascii.

Definition Config_CurrentVersion : Z := 2.

Record SyntaxColors := mkSyntaxColors {
  sc_Command : string; sc_Keyword : string; sc_Flag : string; sc_String : string; sc_Comment : string;
  sc_Operator : string; sc_Variable : string; sc_Path : string; sc_Number : string; sc_Argument : string;
}.
Record Colors := mkColors {
  co_Accent : string; co_Title : string; co_Muted : string; co_Rule : string; co_Select : string;
  co_Badge : string; co_Duration : string; co_Failed : string; co_Time : string; co_Text : string;
  co_Syntax : SyntaxColors;
}.
Record Icons := mkIcons {
  ic_Cursor : string; ic_SuggestionTyped : string; ic_SuggestionHistory : string;
  ic_SuggestionCompletion : string; ic_Separator : string; ic_MoveUpDown : string;
}.
Record UI := mkUI { ui_Colors : Colors; ui_Icons : Icons }.

Definition TypeRclone : string := "rclone".
Definition TypeDirectory : string := "directory".
Definition TypeRsync : string := "rsync".
Definition TypeSCP : string := "scp".

Record Endpoint := mkEndpoint {
  ep_ID : string; ep_Type : string; ep_DisplayName : string; ep_Enabled : bool; ep_RcloneRemote : string;
  ep_Provider : string; ep_Path : string; ep_Remote : string; ep_Host : string; ep_User : string; ep_Port : Z;
}.
#[global] Instance Endpoint_eq_dec : EqDecision Endpoint.
Proof. solve_decision. Defined.

(** [config.Sync]; the other packages have a [Sync] of their own. *)
Record SyncConfig := mkSyncConfig {
  sy_Enabled : option bool;
  sy_Interval : string;
  sy_GCInterval : string;
  sy_RcloneEngine : string;
  sy_Endpoints : list Endpoint;
  sy_Callbacks : list string;
}.
Record DaemonConfig := mkDaemonConfig { dc_CompactInterval : string; dc_ConfigWatchInterval : string }.
Record SuggestIcons := mkSuggestIcons { si_Typed : string; si_History : string; si_Completion : string }.
Record Suggest := mkSuggest {
  su_Enabled : option bool; su_Menu : option bool; su_MenuMax : Z; su_Completions : option bool;
  su_Icons : SuggestIcons; su_Accept : list string;
}.
Record PtyProxy := mkPtyProxy { pp_Enabled : option bool; pp_Height : Z }.

Record Config := mkConfig {
  cf_Version : Z;
  cf_DeviceID : string;
  cf_DeviceName : string;
  cf_DatabasePath : string;
  cf_Sync : SyncConfig;
  cf_Daemon : DaemonConfig;
  cf_Suggest : Suggest;
  cf_PtyProxy : PtyProxy;
  cf_UI : UI;
  cf_DisableAutoMigrate : bool;
}.

(** ** Endpoints *)

Definition set_Endpoints (eps : list Endpoint) (s : SyncConfig) : SyncConfig :=
  mkSyncConfig (sy_Enabled s) (sy_Interval s) (sy_GCInterval s) (sy_RcloneEngine s) eps (sy_Callbacks s).

Definition Label (e : Endpoint) : string :=
  let n := trim_space (ep_DisplayName e) in if str_empty n then ep_ID e else n.

Definition RcloneEngineOrDefault (s : SyncConfig) : string :=
  if str_empty (sy_RcloneEngine s) then "embedded"%string else sy_RcloneEngine s.

Definition EnabledEndpoints (s : SyncConfig) : list Endpoint := List.filter ep_Enabled (sy_Endpoints s).

Definition Sync_IsEnabled (s : SyncConfig) : bool :=
  match sy_Enabled s with
  | Some false => false
  | _ => (0 <? length (EnabledEndpoints s))%nat
  end.

Definition has_id (id : string) (ep : Endpoint) : bool := String.eqb (ep_ID ep) id.

Definition Sync_Endpoint (s : SyncConfig) (id : string) : option Endpoint :=
  List.find (has_id id) (sy_Endpoints s).

Fixpoint upsert (ep : Endpoint) (eps : list Endpoint) : list Endpoint :=
  match eps with
  | [] => [ep]
  | existing :: eps => if has_id (ep_ID ep) existing then ep :: eps else existing :: upsert ep eps
  end.
Definition UpsertEndpoint (ep : Endpoint) (s : SyncConfig) : SyncConfig :=
  set_Endpoints (upsert ep (sy_Endpoints s)) s.

(** The last endpoint with the identifier is returned, all of them go. *)
Definition RemoveEndpoint (id : string) (s : SyncConfig) : SyncConfig * option Endpoint :=
  (set_Endpoints (List.filter (fun ep => negb (has_id id ep)) (sy_Endpoints s)) s,
   last (List.filter (has_id id) (sy_Endpoints s))).

Definition DirectoryEndpoint (id path : string) : Endpoint :=
  mkEndpoint id TypeDirectory "" true "" "" path "" "" "" 0.

(** ** Defaults *)

Definition is_true (o : option bool) : bool := bool_decide (o = Some true).
Definition PtyProxy_IsEnabled (p : PtyProxy) : bool := is_true (pp_Enabled p).

Definition Percent (p : Z) : Z := if (p <=? 0) || (100 <=? p) then 100 else p.
Definition Full (p : Z) : bool := 100 <=? Percent p.
Definition HeightPercent (p : PtyProxy) : Z := Percent (pp_Height p).

Definition Suggest_IsEnabled (s : Suggest) : bool := default true (su_Enabled s).
Definition MenuEnabled (s : Suggest) : bool := is_true (su_Menu s).
Definition CompletionsEnabled (s : Suggest) : bool := is_true (su_Completions s).
Definition MenuLimit (s : Suggest) : Z :=
  if su_MenuMax s <=? 0 then 8 else if 32 <? su_MenuMax s then 32 else su_MenuMax s.
Definition AcceptKeys (s : Suggest) : list string :=
  match List.filter (fun k => negb (str_empty k)) (trim_space <$> su_Accept s) with
  | [] => ["Right"%string]
  | out => out
  end.

Definition blank (s : string) : bool := str_empty (trim_space s).
Definition icon_or (v fallback : string) : string := if blank v then fallback else v.
Definition Suggest_IconTyped (s : Suggest) : string := icon_or (si_Typed (su_Icons s)) "›".
Definition Suggest_IconHistory (s : Suggest) : string := icon_or (si_History (su_Icons s)) "*".
Definition Suggest_IconCompletion (s : Suggest) : string := icon_or (si_Completion (su_Icons s)) "+".
(** The methods of [*Config]; [None] is the nil pointer. *)
Definition IconTyped (c : option Config) : string :=
  match c with
  | None => "›"%string
  | Some c => icon_or (ic_SuggestionTyped (ui_Icons (cf_UI c))) (Suggest_IconTyped (cf_Suggest c))
  end.
Definition IconHistory (c : option Config) : string :=
  match c with
  | None => "*"%string
  | Some c => icon_or (ic_SuggestionHistory (ui_Icons (cf_UI c))) (Suggest_IconHistory (cf_Suggest c))
  end.
Definition IconCompletion (c : option Config) : string :=
  match c with
  | None => "+"%string
  | Some c => icon_or (ic_SuggestionCompletion (ui_Icons (cf_UI c))) (Suggest_IconCompletion (cf_Suggest c))
  end.
Definition CursorOrDefault (i : Icons) : string := icon_or (ic_Cursor i) "❯".
Definition SeparatorOrDefault (i : Icons) : string := icon_or (ic_Separator i) "·".
Definition MoveUpDownOrDefault (i : Icons) : string := icon_or (ic_MoveUpDown i) "↑↓".

(** [strings.EqualFold(v, "default")]: no letter of the word folds to one
    outside ASCII. *)
Definition is_default (v : string) : bool := String.eqb (to_lower v) "default".

Definition colorOr (v fallback : string) : string :=
  let v := trim_space v in if str_empty v || is_default v then fallback else v.
Definition AccentOrDefault (c : Colors) : string := colorOr (co_Accent c) "#F5C2E7".
Definition TitleOrDefault (c : Colors) : string := colorOr (co_Title c) "#CBA6F7".
Definition MutedOrDefault (c : Colors) : string := colorOr (co_Muted c) "#585B70".
Definition RuleOrDefault (c : Colors) : string := colorOr (co_Rule c) "#313244".
Definition SelectOrDefault (c : Colors) : string := colorOr (co_Select c) "#313244".
Definition BadgeOrDefault (c : Colors) : string := colorOr (co_Badge c) "#89B4FA".
Definition DurationOrDefault (c : Colors) : string := colorOr (co_Duration c) "#A6E3A1".
Definition FailedOrDefault (c : Colors) : string := colorOr (co_Failed c) "#F38BA8".
Definition TimeOrDefault (c : Colors) : string := colorOr (co_Time c) "#7F849C".
Definition TextOrDefault (c : Colors) : string := colorOr (co_Text c) "#CDD6F4".

(** ** Validation *)

Definition is_hex (c : ascii) : bool := is_digit c || in_range 97 102 c || in_range 65 70 c.

Definition validateColor (key v : string) : result unit :=
  let v := trim_space v in
  if str_empty v || is_default v then Ok tt
  else match v with
       | String "#" h =>
           if negb ((String.length h =? 3) || (String.length h =? 6))%nat then Fail (EMsg "invalid color")
           else if str_all is_hex h then Ok tt else Fail (EMsg "invalid color")
       | _ => Fail (EMsg "invalid color")
       end.

Definition color_pairs (c : Colors) : list (string * string) :=
  let s := co_Syntax c in
  [ ("ui.colors.accent", co_Accent c); ("ui.colors.title", co_Title c); ("ui.colors.muted", co_Muted c);
    ("ui.colors.rule", co_Rule c); ("ui.colors.select", co_Select c); ("ui.colors.badge", co_Badge c);
    ("ui.colors.duration", co_Duration c); ("ui.colors.failed", co_Failed c); ("ui.colors.time", co_Time c);
    ("ui.colors.text", co_Text c); ("ui.colors.syntax.command", sc_Command s);
    ("ui.colors.syntax.keyword", sc_Keyword s); ("ui.colors.syntax.flag", sc_Flag s);
    ("ui.colors.syntax.string", sc_String s); ("ui.colors.syntax.comment", sc_Comment s);
    ("ui.colors.syntax.operator", sc_Operator s); ("ui.colors.syntax.variable", sc_Variable s);
    ("ui.colors.syntax.path", sc_Path s); ("ui.colors.syntax.number", sc_Number s);
    ("ui.colors.syntax.argument", sc_Argument s) ]%string.

Fixpoint validate_colors (pairs : list (string * string)) : result unit :=
  match pairs with
  | [] => Ok tt
  | (k, v) :: pairs => _ ← validateColor k v; validate_colors pairs
  end.

Definition known_type (t : string) : bool :=
  existsb (String.eqb t) [TypeRclone; TypeDirectory; TypeRsync; TypeSCP].

Fixpoint validate_endpoints (seen : gset string) (eps : list Endpoint) : result unit :=
  match eps with
  | [] => Ok tt
  | ep :: eps =>
      if blank (ep_ID ep) then Fail (EMsg "endpoint id is required")
      else if bool_decide (ep_ID ep ∈ seen) then Fail (EMsg "duplicate endpoint id")
      else if known_type (ep_Type ep) then validate_endpoints ({[ep_ID ep]} ∪ seen) eps
      else if str_empty (ep_Type ep) then Fail (EMsg "type is required")
      else Fail (EMsg "unknown type")
  end.

Definition validate (c : Config) : result unit :=
  _ ← validate_colors (color_pairs (ui_Colors (cf_UI c)));
  validate_endpoints ∅ (sy_Endpoints (cf_Sync c)).

Definition EnsureDevice (id name : string) (c : Config) : Config :=
  mkConfig (cf_Version c) (if str_empty (cf_DeviceID c) then id else cf_DeviceID c)
    (if str_empty (cf_DeviceName c) then name else cf_DeviceName c) (cf_DatabasePath c) (cf_Sync c)
    (cf_Daemon c) (cf_Suggest c) (cf_PtyProxy c) (cf_UI c) (cf_DisableAutoMigrate c).

(** ** Durations *)

Section Durations.
(** [time.ParseDuration], in nanoseconds. *)
Context (ParseDuration : string -> option Z).
Definition Second : Z := 1000000000.
Definition Minute : Z := 60 * Second.
Definition Hour : Z := 60 * Minute.

Definition duration_or (fallback : Z) (ok : Z -> bool) (s : string) : Z :=
  if str_empty s then fallback
  else match ParseDuration s with
       | Some d => if ok d then d else fallback
       | None => fallback
       end.

Definition IntervalDuration (s : SyncConfig) : Z :=
  duration_or (5 * Minute) (fun d => negb (d <? Second)) (sy_Interval s).
Definition GCIntervalDuration (s : SyncConfig) : Z :=
  duration_or Hour (fun d => negb (d <=? 0)) (sy_GCInterval s).
Definition CompactIntervalDuration (d : DaemonConfig) : Z :=
  duration_or (5 * Minute) (fun d => negb (d <=? 0)) (dc_CompactInterval d).
Definition ConfigWatchIntervalDuration (d : DaemonConfig) : Z :=
  duration_or (30 * Second) (fun d => negb (d <? Second)) (dc_ConfigWatchInterval d).
End Durations.

(** ** The environment: paths and expansion *)

Record Env := mkEnv {
  env_Getenv : string -> string;
  env_UserHomeDir : result string;
  env_TempDir : string;
  env_Getpid : Z;
}.

Section Paths.
Context (env : Env).
Definition appName : string := "remnix".

(** [filepath.Join] on a slash-separated system is [path.Join]. *)
Definition first_dir (own xdg : string) (otherwise : string) : string :=
  let d := env_Getenv env own in
  if negb (str_empty d) then d
  else let d := env_Getenv env xdg in
       if negb (str_empty d) then path_join [d; appName] else otherwise.

Definition home_dir (parts : list string) : string :=
  match env_UserHomeDir env with
  | Fail _ => path_join ["."; "." +:+ appName]%string
  | Ok home => path_join (home :: parts)
  end.

Definition ConfigDir : string :=
  first_dir "REMNIX_CONFIG_DIR" "XDG_CONFIG_HOME" (home_dir [".config"; appName]%string).
Definition DataDir : string :=
  first_dir "REMNIX_DATA_DIR" "XDG_DATA_HOME" (home_dir [".local"; "share"; appName]%string).
Definition RuntimeDir : string :=
  first_dir "REMNIX_RUNTIME_DIR" "XDG_RUNTIME_DIR" (path_join [env_TempDir env; appName]).

Definition in_data (name : string) : string := path_join [DataDir; name].
Definition in_runtime (name : string) : string := path_join [RuntimeDir; name].
Definition ConfigPath : string := path_join [ConfigDir; "config.yaml"%string].
Definition IgnoreCommandsPath : string := path_join [ConfigDir; "ignore-commands.txt"%string].
Definition IgnoreCommandsRegexPath : string := path_join [ConfigDir; "ignore-commands.regex"%string].
Definition RcloneConfigPath : string := in_data "rclone.conf".
Definition legacyRcloneConfigPath : string := path_join [ConfigDir; "rclone.conf"%string].
Definition SetupStatePath : string := in_data "setup-state.json".
Definition LocalPath : string := in_data "local.yaml".
Definition DatabasePath : string := in_data "history.db".
Definition SuggestCachePath : string := in_data "suggest-cache.db".
Definition LockPath : string := in_data "remnix.lock".
Definition DaemonStatusPath : string := in_data "daemon-status.json".
Definition AgentSocketPath : string := in_runtime "agent.sock".
Definition ControlSocketPath : string := in_runtime "control.sock".
Definition TerminalSocketPath : string := in_runtime "terminal.sock".
Definition PIDFilePath : string := in_runtime "daemon.pid".
Definition SuggestCacheWarmupPIDPath : string := in_runtime "suggest-cache-warmup.pid".
Definition SuggestCacheWarmupLogPath : string := in_runtime "suggest-cache-warmup.log".
Definition SuggestCacheWarmupStatusPath : string := in_data "suggest-cache-warmup.json".
Definition SuggestCacheWarmupLockPath : string := in_data "suggest-cache-warmup.lock".
Definition PtyProxySocketPath : string :=
  in_runtime ("pty-proxy-" +:+ sprint_d (env_Getpid env) +:+ ".sock")%string.

Definition Expand (s : string) : string :=
  if str_empty s then s
  else
    let s := os_Expand s (env_Getenv env) in
    match env_UserHomeDir env with
    | Fail _ => s
    | Ok home =>
        if str_empty home then s
        else if String.eqb s "~" then home
        else if has_prefix "~/" s then (home +:+ str_drop 1 s)%string
        else
          let s := replace_all s " ~/" (" " +:+ home +:+ "/")%string in
          let s := replace_all s (chr 9 +:+ "~/") (chr 9 +:+ home +:+ "/")%string in
          if has_suffix " ~" s then (trim_suffix " ~" s +:+ " " +:+ home)%string else s
    end.
End Paths.

Definition Default (env : Env) : Config :=
  let nosyn := mkSyntaxColors "" "" "" "" "" "" "" "" "" "" in
  mkConfig Config_CurrentVersion "" "" (DatabasePath env) (mkSyncConfig None "" "" "" [] [])
    (mkDaemonConfig "" "") (mkSuggest None None 0 None (mkSuggestIcons "" "" "") []) (mkPtyProxy None 0)
    (mkUI (mkColors "" "" "" "" "" "" "" "" "" "" nosyn) (mkIcons "" "" "" "" "" "")) false.

(** ** Properties *)

(** The endpoints of a configuration that passed validation. *)
Definition endpoints_ok (eps : list Endpoint) : Prop :=
  NoDup (ep_ID <$> eps) /\
  forall ep, ep ∈ eps -> blank (ep_ID ep) = false /\ known_type (ep_Type ep) = true.

Lemma validate_endpoints_spec seen eps :
  validate_endpoints seen eps = Ok tt <->
  endpoints_ok eps /\ forall ep, ep ∈ eps -> ep_ID ep ∉ seen.
Proof.
  unfold endpoints_ok. revert seen. induction eps as [|ep eps IH]; intros seen; simpl.
  { split; [|done]. intros _. split; [split; [constructor|]|]; by intros ? ?%elem_of_nil. }
  rewrite NoDup_cons. setoid_rewrite elem_of_cons. setoid_rewrite list_elem_of_fmap.
  destruct (blank (ep_ID ep)) eqn:Eb.
  { split; [done|]. intros [[_ H] _]. destruct (H ep ltac:(by left)). congruence. }
  case_bool_decide as Hin.
  { split; [done|]. intros [_ H]. by destruct (H ep ltac:(by left)). }
  destruct (known_type (ep_Type ep)) eqn:Et.
  2: { split; [by destruct (str_empty _)|]. intros [[_ H] _]. destruct (H ep ltac:(by left)). congruence. }
  rewrite IH. setoid_rewrite elem_of_union. setoid_rewrite elem_of_singleton. split.
  - intros [[Hnd Hok] Hs]. split_and!; [|done| |].
    + intros (ep' & Heq & Hep'). apply (Hs ep' Hep'). by left.
    + intros ep' [->|?]; auto.
    + intros ep' [->|Hep']; [done|]. intros ?. apply (Hs ep' Hep'). by right.
  - intros [[[Hnot Hnd] Hok] Hs]. split; [split; [done|auto]|].
    intros ep' Hep' [Heq|Hx]; [|by apply (Hs ep'); auto]. apply Hnot. eauto.
Qed.

Lemma has_id_iff id ep : has_id id ep = true <-> ep_ID ep = id.
Proof. apply String.eqb_eq. Qed.

Lemma find_has_id id eps ep :
  NoDup (ep_ID <$> eps) -> List.find (has_id id) eps = Some ep <-> ep ∈ eps /\ ep_ID ep = id.
Proof.
  induction eps as [|e eps IH]; simpl; intros Hnd.
  { split; [done|]. by intros [?%elem_of_nil _]. }
  apply NoDup_cons in Hnd as [Hnot Hnd]. rewrite elem_of_cons.
  destruct (has_id id e) eqn:E; [apply has_id_iff in E|].
  - split; [intros [= <-]; auto|]. intros [[->|Hin] Hid]; [done|]. destruct Hnot.
    apply list_elem_of_fmap. exists ep. by rewrite E, Hid.
  - rewrite (IH Hnd). split; [by intros [? ?]; auto|]. intros [[->|?] Hid]; [|done].
    apply not_true_iff_false in E. by rewrite has_id_iff in E.
Qed.

Lemma elem_of_upsert ep x eps :
  NoDup (ep_ID <$> eps) -> x ∈ upsert ep eps <-> x = ep \/ x ∈ eps /\ ep_ID x <> ep_ID ep.
Proof.
  induction eps as [|e eps IH]; simpl; intros Hnd.
  { rewrite list_elem_of_singleton. split; [auto|]. intros [|[?%elem_of_nil _]]; done. }
  apply NoDup_cons in Hnd as [Hnot Hnd].
  destruct (has_id (ep_ID ep) e) eqn:E; [apply has_id_iff in E|apply not_true_iff_false in E; rewrite has_id_iff in E];
    rewrite !elem_of_cons.
  - split; [|naive_solver]. intros [?|Hx]; [auto|]. right. split; [auto|]. intros Heq. apply Hnot.
    apply list_elem_of_fmap. exists x. by rewrite E, Heq.
  - rewrite (IH Hnd). naive_solver.
Qed.

Lemma upsert_NoDup ep eps : NoDup (ep_ID <$> eps) -> NoDup (ep_ID <$> upsert ep eps).
Proof.
  induction eps as [|e eps IH]; intros Hnd; [constructor; [apply not_elem_of_nil|constructor]|].
  cbn [fmap list_fmap] in Hnd. pose proof Hnd as Hnd0. apply NoDup_cons in Hnd as [Hnot Hnd]. simpl.
  destruct (has_id (ep_ID ep) e) eqn:E; simpl; [apply has_id_iff in E; rewrite <- E; done|].
  apply NoDup_cons. split; [|auto]. rewrite list_elem_of_fmap. intros (x & Heq & Hx).
  apply elem_of_upsert in Hx as [->|[Hx _]]; [|apply Hnot, list_elem_of_fmap; eauto|done].
  apply not_true_iff_false in E. by rewrite has_id_iff in E.
Qed.

Lemma find_ext id eps eps' :
  NoDup (ep_ID <$> eps) -> NoDup (ep_ID <$> eps') ->
  (forall x, ep_ID x = id -> x ∈ eps <-> x ∈ eps') ->
  List.find (has_id id) eps = List.find (has_id id) eps'.
Proof.
  intros H1 H2 Heq. apply option_eq. intros x. rewrite !find_has_id by done.
  split; intros [? Hid]; split; [|done| |done]; by apply (Heq x Hid).
Qed.

Lemma elem_of_without id x eps :
  x ∈ List.filter (fun ep => negb (has_id id ep)) eps <-> x ∈ eps /\ ep_ID x <> id.
Proof.
  rewrite list_elem_of_In, filter_In, <- list_elem_of_In, negb_true_iff.
  split; intros [? H]; split; [done| |done|].
  - intros Hid. apply has_id_iff in Hid. congruence.
  - apply not_true_iff_false. by rewrite has_id_iff.
Qed.

Lemma without_NoDup id eps :
  NoDup (ep_ID <$> eps) -> NoDup (ep_ID <$> List.filter (fun ep => negb (has_id id ep)) eps).
Proof.
  induction eps as [|e eps IH]; simpl; [done|]. intros [Hnot Hnd]%NoDup_cons.
  destruct (negb (has_id id e)); simpl; [|auto]. apply NoDup_cons. split; [|auto].
  rewrite list_elem_of_fmap. intros (x & Heq & [Hx _]%elem_of_without). apply Hnot.
  apply list_elem_of_fmap. eauto.
Qed.

(** With distinct identifiers the removed endpoint is the one the lookup finds. *)
Lemma last_with_id id eps :
  NoDup (ep_ID <$> eps) -> last (List.filter (has_id id) eps) = List.find (has_id id) eps.
Proof.
  induction eps as [|e eps IH]; simpl; [done|]. intros [Hnot Hnd]%NoDup_cons.
  destruct (has_id id e) eqn:E; [|auto]. apply has_id_iff in E.
  assert (List.filter (has_id id) eps = []) as ->; [|done].
  destruct (List.filter (has_id id) eps) as [|x l] eqn:Ef; [done|]. destruct Hnot.
  assert (In x (List.filter (has_id id) eps)) as [Hx Hid]%filter_In by (rewrite Ef; by left).
  apply has_id_iff in Hid. apply list_elem_of_fmap. exists x. rewrite list_elem_of_In. by rewrite E, Hid.
Qed.

(** A configuration that validates has endpoints with pairwise distinct, non-blank identifiers
    and known types, so an identifier selects one endpoint; adding or replacing a valid endpoint
    keeps the configuration valid, makes the lookup return it and leaves the others' lookups alone;
    removing an identifier makes its lookup fail and leaves the others' alone. *)
Theorem endpoints_store (c : Config) (ep : Endpoint) :
  validate c = Ok tt -> blank (ep_ID ep) = false -> known_type (ep_Type ep) = true ->
  let s := cf_Sync c in
  (forall id e, Sync_Endpoint s id = Some e <-> e ∈ sy_Endpoints s /\ ep_ID e = id) /\
  (let s' := UpsertEndpoint ep s in
   validate_endpoints ∅ (sy_Endpoints s') = Ok tt /\ Sync_Endpoint s' (ep_ID ep) = Some ep /\
   forall id, id <> ep_ID ep -> Sync_Endpoint s' id = Sync_Endpoint s id) /\
  (let '(s', removed) := RemoveEndpoint (ep_ID ep) s in
   validate_endpoints ∅ (sy_Endpoints s') = Ok tt /\ removed = Sync_Endpoint s (ep_ID ep) /\
   Sync_Endpoint s' (ep_ID ep) = None /\
   forall id, id <> ep_ID ep -> Sync_Endpoint s' id = Sync_Endpoint s id).
Proof.
  intros Hval Hid Htype s. unfold validate in Hval.
  destruct (validate_colors _) as [u|e]; [|done]. cbn [mbind result_bind] in Hval.
  apply validate_endpoints_spec in Hval as [[Hnd Hok] _]. fold s in Hnd, Hok.
  unfold Sync_Endpoint, UpsertEndpoint, RemoveEndpoint. cbn [sy_Endpoints set_Endpoints].
  pose proof (upsert_NoDup ep _ Hnd) as Hnd1. pose proof (without_NoDup (ep_ID ep) _ Hnd) as Hnd2.
  split; [intros id e; by apply find_has_id|].
  split; [split; [|split]|split; [|split; [|split]]].
  - apply validate_endpoints_spec. split; [|set_solver]. split; [done|].
    intros x [->|[? _]]%elem_of_upsert; auto.
  - apply find_has_id; [done|]. split; [|done]. apply elem_of_upsert; auto.
  - intros id Hne. apply find_ext; [done..|]. intros x <-. rewrite elem_of_upsert by done. naive_solver.
  - apply validate_endpoints_spec. split; [|set_solver]. split; [done|].
    intros x [? _]%elem_of_without. auto.
  - by apply last_with_id.
  - destruct (List.find _ _) as [x|] eqn:E; [|done]. apply find_has_id in E as [[_ Hx]%elem_of_without ?]; done.
  - intros id Hne. apply find_ext; [done..|]. intros x <-. rewrite elem_of_without. naive_solver.
Qed.

(** Whatever the settings say, the intervals are positive; the two that pace
    loops are at least a second. *)
Lemma intervals_positive (ParseDuration : string -> option Z) (s : SyncConfig) (d : DaemonConfig) :
  Second <= IntervalDuration ParseDuration s /\ 0 < GCIntervalDuration ParseDuration s /\
  0 < CompactIntervalDuration ParseDuration d /\ Second <= ConfigWatchIntervalDuration ParseDuration d.
Proof.
  unfold IntervalDuration, GCIntervalDuration, CompactIntervalDuration, ConfigWatchIntervalDuration,
    duration_or, Hour, Minute, Second.
  split_and!; destruct (str_empty _); [lia| |lia| |lia| |lia|]; destruct (ParseDuration _) as [z|]; try lia.
  - destruct (Z.ltb_spec z 1000000000); simpl; lia.
  - destruct (Z.leb_spec z 0); simpl; lia.
  - destruct (Z.leb_spec z 0); simpl; lia.
  - destruct (Z.ltb_spec z 1000000000); simpl; lia.
Qed.

(** A leading tilde is the home directory, and text without dollars, tildes or
    blanks is left as it is. *)
Lemma Expand_home env home (rest : string) :
  env_UserHomeDir env = Ok home -> home <> EmptyString -> str_has "$" rest = false ->
  Expand env ("~/" +:+ rest) = (home +:+ "/" +:+ rest)%string.
Proof.
  intros Hh Hne Hd. unfold Expand. cbn [str_empty]. change ("~/" +:+ rest)%string with (String "~" (String "/" rest)).
  rewrite os_Expand_plain by by rewrite !str_has_cons. rewrite Hh. by destruct home.
Qed.
