(* ===== verification/ConfigWrite.v ===== *)
(** [internal/config/write.go]: the configuration is written back into the
    user's own YAML file. The old document is updated in place, so that its
    comments, styles and order survive, and keys that are missing get their
    defaults; the file gets one schema header and keeps its indentation. The
    YAML library (decoding to nodes, encoding of nodes and of the [Config]
    struct) is a parameter; nodes are its [yaml.Node].

    Nodes are pointers in the source, updated in place: an update returns the
    new node here. [Alias] is not kept: nodes that come from a struct have
    none, and every node of the old document is matched with one of those or
    dropped. *)

From S2P Require Import Prelude Text Config.
From Stdlib Require Import Ascii.

(** * [yaml.Node] *)

Inductive YKind := DocumentNode | SequenceNode | MappingNode | ScalarNode | AliasNode.
#[global] Instance YKind_eq_dec : EqDecision YKind.
Proof. solve_decision. Defined.

Inductive node := mkNode {
  n_Kind : YKind;
  n_Style : Z;
  n_Tag : string;
  n_Value : string;
  n_Anchor : string;
  n_HeadComment : string;
  n_LineComment : string;
  n_FootComment : string;
  n_Content : list node;
}.

Definition set_Content (c : list node) (n : node) : node :=
  mkNode (n_Kind n) (n_Style n) (n_Tag n) (n_Value n) (n_Anchor n) (n_HeadComment n) (n_LineComment n)
    (n_FootComment n) c.

Definition is_kind (k : YKind) (n : node) : bool := bool_decide (n_Kind n = k).

(** [for i := 0; i+1 < len(l); i += 2]: consecutive pairs; a last one without
    a partner is not visited. *)
Fixpoint pairs {A} (l : list A) : list (A * A) :=
  match l with
  | k :: v :: l => (k, v) :: pairs l
  | _ => []
  end.
Definition unpairs {A} (l : list (A * A)) : list A := concat ((fun p => [p.1; p.2]) <$> l).

(** [m[k.Value] = v] over the pairs: the last one of a key counts. *)
Definition last_of {A} (key : A -> string) (k : string) (ps : list (A * A)) : option A :=
  foldl (fun acc p => if String.eqb (key p.1) k then Some p.2 else acc) None ps.

Definition unwrapDoc (n : node) : node :=
  match n_Kind n, n_Content n with
  | DocumentNode, [c] => c
  | _, _ => n
  end.

(** The value of the first pair with that key. *)
Definition first_of (k : string) (ps : list (node * node)) : option node :=
  snd <$> List.find (fun p => String.eqb (n_Value p.1) k) ps.

Definition mappingString (n : node) (key : string) : string :=
  if is_kind MappingNode n then from_option n_Value EmptyString (first_of key (pairs (n_Content n)))
  else EmptyString.

Definition sequenceHasIDs (n : node) : bool :=
  existsb (fun item => negb (str_empty (mappingString item "id"))) (n_Content n).

Definition copyValueKeepComments (dst src : node) : node :=
  let style := if negb (n_Style dst =? 0) && is_kind ScalarNode src then n_Style dst else n_Style src in
  mkNode (n_Kind src) style (n_Tag src) (n_Value src) (n_Anchor src) (n_HeadComment dst) (n_LineComment dst)
    (n_FootComment dst) (n_Content src).

(** * Updating a document in place *)

(** A child of the node that is updated, and the update of it. *)
Abbreviation kid := (node * (node -> node))%type.

Definition matchSeqItem (old : list kid) (used : list bool) (src : node) : option nat :=
  let free := List.filter (fun x => negb x.2.2) (imap (fun i x => (i, x)) (zip old used)) in
  fst <$> (if is_kind ScalarNode src
           then List.find (fun x => is_kind ScalarNode x.2.1.1 && String.eqb (n_Value x.2.1.1) (n_Value src)) free
           else head free).

(** [applyMapping]: the keys of the old mapping in their order, and those only
    the new one has. *)
Definition kept_pairs (old : list (kid * kid)) (ps : list (node * node)) (keep : bool) : list (node * node) :=
  omap (fun p => match last_of n_Value (n_Value p.1.1) ps with
                 | None => if keep then Some (p.1.1, p.2.1) else None
                 | Some sv => Some (p.1.1, p.2.2 sv)
                 end) old.
Definition used_key (old : list (kid * kid)) (ps : list (node * node)) (k : string) : bool :=
  existsb (fun p => String.eqb (n_Value p.1.1) k) old && bool_decide (is_Some (last_of n_Value k ps)).
Definition added_pairs (old : list (kid * kid)) (ps : list (node * node)) (srcKeys : list (node * node)) :
    list (node * node) :=
  omap (fun p => if used_key old ps (n_Value p.1) then None
                 else (fun v => (p.1, v)) <$> last_of n_Value (n_Value p.1) ps) srcKeys.
Definition applyMapping (old : list kid) (src : node) (keep : bool) : list node :=
  let ps := pairs (n_Content src) in
  unpairs (kept_pairs (pairs old) ps keep ++ added_pairs (pairs old) ps ps).

(** The items one by one, each old one used at most once. *)
Definition seq_step (old : list kid) (st : list bool * list node) (sn : node) : list bool * list node :=
  let '(used, next) := st in
  match matchSeqItem old used sn with
  | Some i => (<[i := true]> used, next ++ [match old !! i with Some k => k.2 sn | None => sn end])
  | None => (used, next ++ [sn])
  end.
Definition applyPlainSeq (old : list kid) (src : node) : list node :=
  (foldl (seq_step old) (replicate (length old) false, []) (n_Content src)).2.

(** Items are found by their [id]; the others are taken in order. An old item
    found twice is one node: both places show its last update. (Two items of
    one [id] are refused by [validate] before anything is written; the second
    update starts from the item as it was read.) *)
Definition kid_id (k : kid) : string := mappingString k.1 "id".
Definition index_by_id (old : list kid) (id : string) : option nat :=
  foldl (fun acc x => if String.eqb (kid_id x.2) id then Some x.1 else acc) None (imap (fun i x => (i, x)) old).
Definition anonymous (old : list kid) : list kid := List.filter (fun k => str_empty (kid_id k)) old.

Record IdState := mkIdState {
  is_current : gmap nat node;        (** the old items updated so far *)
  is_next : list (nat + node);
  is_ai : nat;
}.
Definition id_step (old : list kid) (st : IdState) (sn : node) : IdState :=
  let id := mappingString sn "id" in
  match (if str_empty id then None else index_by_id old id) with
  | Some i =>
      match old !! i with
      | Some k => mkIdState (<[i := k.2 sn]> (is_current st)) (is_next st ++ [inl i]) (is_ai st)
      | None => st
      end
  | None =>
      match anonymous old !! is_ai st with
      | Some k => mkIdState (is_current st) (is_next st ++ [inr (k.2 sn)]) (S (is_ai st))
      | None => mkIdState (is_current st) (is_next st ++ [inr sn]) (is_ai st)
      end
  end.
Definition applyIdentifiedSeq (old : list kid) (src : node) : list node :=
  let st := foldl (id_step old) (mkIdState ∅ [] 0) (n_Content src) in
  omap (fun x => match x with inl i => is_current st !! i | inr n => Some n end) (is_next st).

Definition applySequence (dst : node) (old : list kid) (src : node) : list node :=
  if sequenceHasIDs src || sequenceHasIDs dst then applyIdentifiedSeq old src else applyPlainSeq old src.

Fixpoint applyYAML (dst : node) (src : node) (keep : bool) {struct dst} : node :=
  let src := unwrapDoc src in
  match dst with
  | mkNode kind style tag value anchor hc lc fc content =>
      let old : list kid := List.map (fun c => (c, fun sn => applyYAML c sn keep)) content in
      let with_content c := mkNode kind style tag value anchor hc lc fc c in
      match kind, n_Kind src with
      | DocumentNode, _ =>
          match old with
          | [] => with_content [src]
          | k :: ks => with_content (k.2 src :: (fst <$> ks))
          end
      | MappingNode, MappingNode => with_content (applyMapping old src keep)
      | SequenceNode, SequenceNode => with_content (applySequence dst old src)
      | _, _ => copyValueKeepComments dst src
      end
  end.

(** ** Missing keys *)

(** The values that are mappings on both sides are filled themselves; of a key
    that occurs twice, the last one. *)
Fixpoint fill_pairs (tmpl : list (node * node)) (l : list (kid * kid)) : list (node * node) :=
  match l with
  | [] => []
  | (k, v) :: l =>
      (k.1, match first_of (n_Value k.1) tmpl with
            | Some tv => if is_kind MappingNode v.1 && is_kind MappingNode tv &&
                            negb (existsb (fun p => String.eqb (n_Value p.1.1) (n_Value k.1)) l)
                         then v.2 tv else v.1
            | None => v.1
            end) :: fill_pairs tmpl l
  end.

Fixpoint fillMissing (dst : node) (tmpl : node) {struct dst} : node :=
  let tmpl := unwrapDoc tmpl in
  match dst with
  | mkNode kind style tag value anchor hc lc fc content =>
      let old : list kid := List.map (fun c => (c, fillMissing c)) content in
      let with_content c := mkNode kind style tag value anchor hc lc fc c in
      match kind, n_Kind tmpl with
      | DocumentNode, _ =>
          match old with
          | [] => with_content [tmpl]
          | k :: ks => with_content (k.2 tmpl :: (fst <$> ks))
          end
      | MappingNode, MappingNode =>
          let ps := pairs (n_Content tmpl) in
          let have k := existsb (fun p => String.eqb (n_Value p.1) k) (pairs content) in
          let filled := fill_pairs ps (pairs old) in
          with_content (unpairs (filled ++ List.filter (fun p => negb (have (n_Value p.1))) ps))
      | _, _ => dst
      end
  end.

(** ** [setMappingBool] *)

Definition bool_node (n : node) (v : bool) : node :=
  mkNode ScalarNode 0 "!!bool" (if v then "true" else "false") (n_Anchor n) (n_HeadComment n) (n_LineComment n)
    (n_FootComment n) [].

(** The first value under the key, updated. *)
Fixpoint update_first (k : string) (f : node -> node) (content : list node) : list node :=
  match content with
  | key :: v :: rest => if String.eqb (n_Value key) k then key :: f v :: rest
                        else key :: v :: update_first k f rest
  | _ => content
  end.
Fixpoint set_bool (path : list string) (v : bool) (n : node) : node :=
  match path with
  | [] => n
  | key :: path =>
      if is_kind MappingNode n
      then set_Content (update_first key (fun x => match path with
                                                    | [] => bool_node x v
                                                    | _ :: _ => set_bool path v x
                                                    end) (n_Content n)) n
      else n
  end.
Definition setMappingBool (root : node) (path : list string) (v : bool) : node :=
  match n_Kind root, n_Content root with
  | DocumentNode, [c] => set_Content [set_bool path v c] root
  | _, _ => set_bool path v root
  end.

(** * The text around the document *)

Definition LF : ascii := "010"%char.
Definition CR : ascii := "013"%char.
Definition TAB : ascii := "009"%char.

Definition schemaURL : string := "https://remnix.app/config.schema.json".
Definition schemaComment : string := "# yaml-language-server: $schema=" +:+ schemaURL.
Definition isSchemaComment (line : string) : bool := has_prefix "# yaml-language-server: $schema=" line.

Definition stripSchemaCommentText (s : string) : string :=
  if str_empty s then EmptyString
  else join_with (String LF EmptyString)
         (List.filter (fun line => negb (isSchemaComment (trim_space line))) (split_on LF s)).

Fixpoint stripSchemaComments (n : node) : node :=
  match n with
  | mkNode kind style tag value anchor hc lc fc content =>
      mkNode kind style tag value anchor (stripSchemaCommentText hc) (stripSchemaCommentText lc)
        (stripSchemaCommentText fc) (List.map stripSchemaComments content)
  end.

Record yamlIndent := mkIndent { yi_spaces : Z; yi_tabs : bool }.
Definition defaultYAMLIndent : Z := 4.
Definition clampYAMLIndent (n : Z) : Z := if n <? 2 then 2 else if 9 <? n then 9 else n.

(** The bytes at the front that satisfy a test, and the rest. *)
Fixpoint span_str (p : ascii -> bool) (s : string) : string * string :=
  match s with
  | String c s' => if p c then let '(a, b) := span_str p s' in (String c a, b) else (EmptyString, s)
  | EmptyString => (EmptyString, EmptyString)
  end.

(** What one line says about the indentation, if anything. *)
Definition line_indent (raw : string) : option yamlIndent :=
  let line := trim_right CR raw in
  let '(ws, rest) := span_str (fun c => Ascii.eqb c " " || Ascii.eqb c TAB) line in
  let content := trim_space rest in
  if str_empty content || has_prefix "#" content || String.eqb content "---" || String.eqb content "..." then None
  else if str_empty ws then None
  else if has_prefix "-" content then None
  else if existsb (Ascii.eqb TAB) (String.list_ascii_of_string ws) then Some (mkIndent defaultYAMLIndent true)
  else Some (mkIndent (clampYAMLIndent (Z.of_nat (String.length ws))) false).

Definition detectYAMLIndent (data : string) : yamlIndent :=
  default (mkIndent defaultYAMLIndent false) (head (omap line_indent (split_on LF data))).

Fixpoint repeat_char (c : ascii) (n : nat) (s : string) : string :=
  match n with O => s | S n => String c (repeat_char c n s) end.

Definition tabbed_line (width : Z) (line : string) : string :=
  let '(ws, rest) := span_str (fun c => Ascii.eqb c " ") line in
  let n := Z.of_nat (String.length ws) in
  if n =? 0 then line
  else repeat_char TAB (Z.to_nat (n / width)) (repeat_char " " (Z.to_nat (n mod width)) rest).
Definition leadingSpacesToTabs (data : string) (width : Z) : string :=
  let width := clampYAMLIndent width in
  join_with (String LF EmptyString) (tabbed_line width <$> split_on LF data).

(** The lines before the document, dropped one by one; [None] when nothing but
    such lines is left. *)
Definition plain_line (line : string) : string :=
  trim_right CR (span_str (fun c => Ascii.eqb c " " || Ascii.eqb c TAB) line).2.
Fixpoint strip_lines (lines : list string) : list string :=
  match lines with
  | [] => []
  | line :: rest =>
      let plain := plain_line line in
      let found := match rest with [] => false | _ :: _ => true end in
      if str_empty plain && found then strip_lines rest
      else if String.eqb plain "---" || String.eqb plain "..." || isSchemaComment plain
      then if found then strip_lines rest else [EmptyString]
      else lines
  end.
Definition BOM : string := String "239"%char (String "187"%char (String "191"%char EmptyString)).
Definition stripYAMLPreamble (s : string) : string :=
  join_with (String LF EmptyString) (strip_lines (split_on LF (trim_prefix BOM s))).

Definition prependSchemaHeader (body : string) : string :=
  let s := stripYAMLPreamble body in
  let nl := String LF EmptyString in
  let s := if negb (str_empty s) && negb (has_suffix nl s) then (s +:+ nl)%string else s in
  (schemaComment +:+ nl +:+ "---" +:+ nl +:+ s)%string.

(** * The file *)

(** [defaultUserConfigYAML], as the node its text decodes to. *)
Definition scalar (tag value : string) : node := mkNode ScalarNode 0 tag value "" "" "" "" [].
Definition plain : string -> node := scalar "!!str".
Definition quoted (value : string) : node := mkNode ScalarNode 2 "!!str" value "" "" "" "" [].
Definition mapping (l : list (string * node)) : node :=
  mkNode MappingNode 0 "!!map" "" "" "" "" "" (unpairs ((fun p => (plain p.1, p.2)) <$> l)).
Definition sequence (style : Z) (l : list node) : node := mkNode SequenceNode style "!!seq" "" "" "" "" "" l.
Definition document (n : node) : node := mkNode DocumentNode 0 "" "" "" "" "" "" [n].

Definition defaultUserConfig : node :=
  mapping [
    ("version", scalar "!!int" "2");
    ("disable_auto_migrate", scalar "!!bool" "false");
    ("sync", mapping [
      ("enabled", scalar "!!bool" "false");
      ("interval", plain "5m");
      ("gc_interval", plain "1h");
      ("rclone_engine", plain "embedded");
      ("endpoints", sequence 32 []);
      ("callbacks", sequence 32 [])]);
    ("daemon", mapping [
      ("compact_interval", plain "5m");
      ("config_watch_interval", plain "30s")]);
    ("suggest", mapping [
      ("enabled", scalar "!!bool" "true");
      ("menu", scalar "!!bool" "false");
      ("menu_max", scalar "!!int" "8");
      ("completions", scalar "!!bool" "false");
      ("icons", mapping [("typed", quoted "›"); ("history", quoted "*"); ("completion", quoted "+")]);
      ("accept", sequence 0 [plain "Right"])]);
    ("pty_proxy", mapping [
      ("enabled", scalar "!!bool" "false");
      ("height", scalar "!!int" "100")]);
    ("ui", mapping [
      ("colors", mapping [
        ("accent", quoted "#F5C2E7"); ("title", quoted "#CBA6F7"); ("muted", quoted "#585B70");
        ("rule", quoted "#313244"); ("select", quoted "#313244"); ("badge", quoted "#89B4FA");
        ("duration", quoted "#A6E3A1"); ("failed", quoted "#F38BA8"); ("time", quoted "#7F849C");
        ("text", quoted "#CDD6F4");
        ("syntax", mapping [
          ("command", quoted "#89B4FA"); ("keyword", quoted "#CBA6F7"); ("flag", quoted "#FAB387");
          ("string", quoted "#A6E3A1"); ("comment", quoted "#6C7086"); ("operator", quoted "#F38BA8");
          ("variable", quoted "#89DCEB"); ("path", quoted "#94E2D5"); ("number", quoted "#F9E2AF");
          ("argument", quoted "#CDD6F4")])]);
      ("icons", mapping [
        ("cursor", quoted "❯"); ("suggestion_typed", quoted "›"); ("suggestion_history", quoted "*");
        ("suggestion_completion", quoted "+"); ("separator", quoted "·"); ("move_up_down", quoted "↑↓")])])]%string.

Definition defaultConfigNode : node := document defaultUserConfig.

Record localFile := mkLocalFile { lo_DeviceID : string; lo_DeviceName : string }.

(** What [rejectLegacyConfig] looks for; of the nodes, those that are set
    ([Kind != 0]). *)
Record legacyProbe := mkLegacyProbe { lp_Transport : string; lp_Nodes : list node }.
Definition nodePresent (n : node) : bool := negb (String.eqb (n_Tag n) "!!null").

(** The files of the configuration, by path. Failures of the file system are
    not modelled, except that a rename may be impossible (across devices). *)
Abbreviation Files := (gmap string string).

Section File.
(** [fresh.Encode(c)], [yaml.Unmarshal] into a node, onto a [Config] and into
    the probe, an encoder with an indentation, and the codec of [localFile]. *)
Context (Encode_config : Config -> result node) (Unmarshal : string -> result node).
Context (Decode_config : string -> Config -> result Config) (Decode_probe : string -> option legacyProbe).
Context (Encoder : Z -> node -> result string).
Context (Encode_local : localFile -> result string) (Decode_local : string -> result localFile).

(** The tree that is written. *)
Definition userTree (c : Config) (existing : string) : result node :=
  fresh ← Encode_config c;
  if str_empty (trim_space existing) then
    let tmpl := applyYAML defaultConfigNode fresh true in
    Ok (match sy_Enabled (cf_Sync c) with
        | None => setMappingBool tmpl ["sync"; "enabled"]%string (Sync_IsEnabled (cf_Sync c))
        | Some _ => tmpl
        end)
  else
    Ok (match Unmarshal existing with
        | Ok old =>
            if is_kind DocumentNode old && bool_decide (n_Content old <> [])
            then fillMissing (applyYAML old fresh false) defaultConfigNode
            else fresh
        | Fail _ => fresh
        end).

Definition encodeUserYAML (n : node) (style : yamlIndent) : result string :=
  body ← Encoder (yi_spaces style) n;
  let body := if yi_tabs style then leadingSpacesToTabs body (yi_spaces style) else body in
  Ok (prependSchemaHeader body).

Definition marshalUserConfig (c : Config) (existing : string) : result string :=
  let style := detectYAMLIndent existing in
  toEncode ← userTree c existing;
  encodeUserYAML (stripSchemaComments toEncode) style.

Section Disk.
Context (env : Env) (can_rename : bool).

Definition set_version (v : Z) (c : Config) : Config :=
  mkConfig v (cf_DeviceID c) (cf_DeviceName c) (cf_DatabasePath c) (cf_Sync c) (cf_Daemon c) (cf_Suggest c)
    (cf_PtyProxy c) (cf_UI c) (cf_DisableAutoMigrate c).
Definition set_device (id name : string) (c : Config) : Config :=
  mkConfig (cf_Version c) id name (cf_DatabasePath c) (cf_Sync c) (cf_Daemon c) (cf_Suggest c) (cf_PtyProxy c)
    (cf_UI c) (cf_DisableAutoMigrate c).
Definition set_database (p : string) (c : Config) : Config :=
  mkConfig (cf_Version c) (cf_DeviceID c) (cf_DeviceName c) p (cf_Sync c) (cf_Daemon c) (cf_Suggest c)
    (cf_PtyProxy c) (cf_UI c) (cf_DisableAutoMigrate c).

(** A temporary beside the file, renamed over it. *)
Definition writeAtomic (path data : string) : M Files unit :=
  _ ← modify (<[(path +:+ ".tmp")%string := data]>);
  modify (fun fs => <[path := data]> (delete (path +:+ ".tmp")%string fs)).

Definition Save (c : Config) : M Files unit :=
  _ ← of_result (validate c);
  let c := set_version Config_CurrentVersion c in
  existing ← gets (fun fs => default EmptyString (fs !! ConfigPath env));
  data ← of_result (marshalUserConfig c existing);
  _ ← writeAtomic (ConfigPath env) data;
  local ← of_result (Encode_local (mkLocalFile (cf_DeviceID c) (cf_DeviceName c)));
  writeAtomic (LocalPath env) local.

Definition rcloneConfHasContent (fs : Files) (path : string) : bool :=
  match fs !! path with Some d => negb (str_empty d) | None => false end.

Definition LeftoverPortableRcloneConfig (fs : Files) : option string :=
  let src := legacyRcloneConfigPath env in
  if String.eqb src (RcloneConfigPath env) then None
  else if rcloneConfHasContent fs src then Some src else None.

Definition MigrateRcloneConfig : M Files unit := fun fs =>
  let dst := RcloneConfigPath env in
  let src := legacyRcloneConfigPath env in
  if String.eqb src dst then (fs, Ok tt)
  else if rcloneConfHasContent fs dst then (fs, Ok tt)
  else match fs !! src with
       | None => (fs, Ok tt)
       | Some data =>
           if can_rename then (<[dst := data]> (delete src fs), Ok tt)
           else (delete src (<[dst := data]> fs), Ok tt)
       end.

Definition rejectLegacyConfig (data : string) : result unit :=
  match Decode_probe data with
  | None => Ok tt
  | Some p =>
      if negb (str_empty (lp_Transport p)) || existsb nodePresent (lp_Nodes p)
      then Fail (EMsg "config format is no longer supported; run remnix setup") else Ok tt
  end.

Definition loadLocal (cfg : Config) (fs : Files) : result Config :=
  match fs !! LocalPath env with
  | None => Ok cfg
  | Some data => loc ← Decode_local data; Ok (set_device (lo_DeviceID loc) (lo_DeviceName loc) cfg)
  end.

Definition Load : M Files Config :=
  file ← gets (fun fs => fs !! ConfigPath env);
  cfg ← match file with
        | None => mret (Default env)
        | Some data =>
            _ ← of_result (rejectLegacyConfig data);
            cfg ← of_result (Decode_config data (Default env));
            _ ← of_result (validate cfg);
            mret cfg
        end;
  let cfg := if cf_Version cfg <? Config_CurrentVersion then set_version Config_CurrentVersion cfg else cfg in
  let cfg := set_database (DatabasePath env) cfg in
  _ ← ignore MigrateRcloneConfig;
  fs ← get;
  of_result (loadLocal cfg fs).
End Disk.
End File.
