(* ===== verification/ConfigWriteSpec.v ===== *)
(** What writing the configuration guarantees: the document that is written
    has the values of the configuration, the comments of the old file and
    defaults for what neither says. The credentials of rclone are moved once
    and never lost. *)

From S2P Require Import Prelude Text Config ConfigWrite.

(** * The value of a node

    Without comments, styles and the order of keys. *)
Inductive val :=
| VScalar (tag value : string)
| VSeq (l : list val)
| VMap (m : gmap string val)
| VOther.

Fixpoint val_of (n : node) : val :=
  match n with
  | mkNode kind _ tag value _ _ _ _ content =>
      let kids := List.map (fun c => (n_Value c, val_of c)) content in
      match kind with
      | ScalarNode => VScalar tag value
      | SequenceNode => VSeq kids.*2
      | MappingNode => VMap (list_to_map ((fun p => (p.1.1, p.2.2)) <$> pairs kids))
      | DocumentNode => match kids with [k] => k.2 | _ => VOther end
      | AliasNode => VOther
      end
  end.

Definition entries (ps : list (node * node)) : list (string * val) := (fun p => (n_Value p.1, val_of p.2)) <$> ps.

(** What lies at a path of keys. *)
Fixpoint vget (p : list string) (v : val) {struct p} : option val :=
  match p with
  | [] => Some v
  | k :: p => match v with VMap m => m !! k ≫= vget p | _ => None end
  end.
Definition leaf (w : val) : Prop := forall m, w <> VMap m.

(** [r] has the leaves of [v], and otherwise leaves of [t]. *)
Definition filled (v t r : val) : Prop :=
  (forall p w, vget p v = Some w -> leaf w -> vget p r = Some w) /\
  (forall p w, vget p r = Some w -> leaf w -> vget p v = Some w \/ vget p t = Some w).

(** A node below a document, as the library makes it from a struct or from a
    file it accepts: the keys of a mapping are distinct, and so are the
    identifiers in a list. *)
Definition keys (content : list node) : list string := (fun p => n_Value p.1) <$> pairs content.
Definition ids (content : list node) : list string :=
  List.filter (fun s => negb (str_empty s)) ((fun n => mappingString n "id") <$> content).
Inductive wf : node -> Prop :=
| wf_node n :
    n_Kind n <> DocumentNode -> (n_Kind n = MappingNode -> NoDup (keys (n_Content n))) ->
    (n_Kind n = SequenceNode -> NoDup (ids (n_Content n))) -> Forall wf (n_Content n) -> wf n.

Lemma node_nested_ind (P : node -> Prop) : (forall n, Forall P (n_Content n) -> P n) -> forall n, P n.
Proof.
  intros H. fix IH 1. intros n. apply H. destruct n as [? ? ? ? ? ? ? ? content]. simpl.
  induction content as [|c content IHc]; constructor; [apply IH|exact IHc].
Qed.

(** ** Pairs *)

Lemma list_pair_ind {A} (P : list A -> Prop) :
  P [] -> (forall a, P [a]) -> (forall a b l, P l -> P (a :: b :: l)) -> forall l, P l.
Proof.
  intros H0 H1 H2 l. enough (P l /\ forall a, P (a :: l)) as [? _] by done.
  induction l as [|b l [IH1 IH2]]; split; auto.
Qed.

Lemma pairs_unpairs {A} (l : list (A * A)) : pairs (unpairs l) = l.
Proof.
  unfold unpairs. induction l as [|[k v] l IH]; [done|]. rewrite fmap_cons. simpl. by rewrite IH.
Qed.

Lemma pairs_map {A B} (f : A -> B) (l : list A) :
  pairs (List.map f l) = (fun p => (f p.1, f p.2)) <$> pairs l.
Proof. induction l as [| |a b l IH] using list_pair_ind; [done..|]. simpl. by rewrite IH. Qed.

Lemma elem_of_pairs {A} (l : list A) p : p ∈ pairs l -> p.1 ∈ l /\ p.2 ∈ l.
Proof.
  induction l as [| |a b l IH] using list_pair_ind; [by intros ?%elem_of_nil..|].
  simpl. intros [->|Hp]%elem_of_cons; simpl; [split; set_solver|]. destruct (IH Hp). split; set_solver.
Qed.

(** ** Values by kind *)

Lemma val_of_mapping n : n_Kind n = MappingNode -> val_of n = VMap (list_to_map (entries (pairs (n_Content n)))).
Proof.
  destruct n as [kind st tg vl an hc lc fc content]. simpl. intros ->. unfold entries. f_equal. f_equal.
  rewrite pairs_map, <- list_fmap_compose. done.
Qed.
Lemma val_of_sequence n : n_Kind n = SequenceNode -> val_of n = VSeq (val_of <$> n_Content n).
Proof.
  destruct n as [kind st tg vl an hc lc fc content]. simpl. intros ->. f_equal.
  change (List.map (fun c => (n_Value c, val_of c)) content) with ((fun c => (n_Value c, val_of c)) <$> content).
  by rewrite <- list_fmap_compose.
Qed.
Lemma val_of_copy dst src : val_of (copyValueKeepComments dst src) = val_of src.
Proof. unfold copyValueKeepComments. by destruct src. Qed.
Lemma val_of_document n c : n_Kind n = DocumentNode -> n_Content n = [c] -> val_of n = val_of c.
Proof. destruct n as [kind st tg vl an hc lc fc content]. simpl. intros -> ->. done. Qed.

Lemma unwrapDoc_wf n : wf n -> unwrapDoc n = n.
Proof. intros [? Hk _ _ _]. unfold unwrapDoc. by destruct (n_Kind n0). Qed.

(** ** Lookups *)

Lemma entries_lookup ps k : (list_to_map (entries ps) : gmap string val) !! k = val_of <$> first_of k ps.
Proof.
  unfold first_of. induction ps as [|[kn v] ps IH]; [done|]. unfold entries in *. rewrite fmap_cons. simpl.
  destruct (String.eqb_spec (n_Value kn) k) as [->|Hn]; [by rewrite lookup_insert_eq|].
  by rewrite lookup_insert_ne.
Qed.

Lemma last_of_first k (ps : list (node * node)) :
  NoDup ((fun p => n_Value p.1) <$> ps) -> last_of n_Value k ps = first_of k ps.
Proof.
  unfold last_of, first_of.
  assert (forall acc, NoDup ((fun p => n_Value p.1) <$> ps) ->
    foldl (fun acc p => if String.eqb (n_Value p.1) k then Some p.2 else acc) acc ps =
    match List.find (fun p => String.eqb (n_Value p.1) k) ps with Some p => Some p.2 | None => acc end) as H.
  { induction ps as [|[kn v] ps IH]; intros acc; [done|]. rewrite fmap_cons, NoDup_cons. intros [Hn Hnd]. simpl.
    destruct (String.eqb_spec (n_Value kn) k) as [<-|Hk]; rewrite IH by done; [|done].
    destruct (List.find _ ps) as [p|] eqn:E; [|done]. apply List.find_some in E as [Hin Hp%String.eqb_eq].
    exfalso. apply Hn. simpl. rewrite <- Hp. apply (list_elem_of_fmap_2 (fun p => n_Value p.1)).
    by apply list_elem_of_In. }
  intros Hnd. rewrite H by done. by destruct (List.find _ ps).
Qed.

(** * Updating *)

(** The update of a child gives it the value it is updated with. *)
Definition faithful (k : kid) : Prop := forall sn, wf sn -> val_of (k.2 sn) = val_of sn.

Definition first_kid (k : string) (ps : list (kid * kid)) : option kid :=
  snd <$> List.find (fun p => String.eqb (n_Value p.1.1) k) ps.

Lemma kept_lookup k old ps keep :
  first_of k (kept_pairs old ps keep) =
  match first_kid k old, last_of n_Value k ps with
  | Some kd, Some sv => Some (kd.2 sv)
  | Some kd, None => if keep then Some kd.1 else None
  | None, _ => None
  end.
Proof.
  unfold first_of, first_kid, kept_pairs, omap. induction old as [|[kn v] old IH]; [done|]. simpl.
  destruct (String.eqb_spec (n_Value kn.1) k) as [<-|Hk].
  - simpl. destruct (last_of n_Value (n_Value kn.1) ps) as [sv|] eqn:E; simpl; [by rewrite String.eqb_refl|].
    destruct keep; simpl; [by rewrite String.eqb_refl|]. rewrite IH. by case_match.
  - rewrite <- IH. destruct (last_of n_Value (n_Value kn.1) ps); simpl; [|destruct keep; simpl];
      by rewrite ?(proj2 (String.eqb_neq _ _) Hk).
Qed.

Lemma added_lookup k old ps l :
  first_of k (added_pairs old ps l) =
  if used_key old ps k then None
  else if existsb (fun p => String.eqb (n_Value p.1) k) l then last_of n_Value k ps else None.
Proof.
  unfold first_of, added_pairs, omap. induction l as [|[kn v] l IH]; simpl; [by destruct (used_key _ _ _)|].
  destruct (String.eqb_spec (n_Value kn) k) as [<-|Hk]; simpl.
  - destruct (used_key old ps (n_Value kn)); [done|].
    destruct (last_of n_Value (n_Value kn) ps); simpl; [by rewrite String.eqb_refl|].
    rewrite IH. by destruct (existsb _ l).
  - rewrite <- IH. destruct (used_key old ps (n_Value kn)); [done|].
    destruct (last_of n_Value (n_Value kn) ps); simpl; [|done]. by rewrite (proj2 (String.eqb_neq _ _) Hk).
Qed.

Lemma first_of_app k l1 l2 :
  first_of k (l1 ++ l2) = match first_of k l1 with Some v => Some v | None => first_of k l2 end.
Proof.
  unfold first_of. induction l1 as [|[kn v] l1 IH]; [done|]. simpl. by destruct (String.eqb (n_Value kn) k).
Qed.

Lemma first_of_none k ps : first_of k ps = None <-> existsb (fun p => String.eqb (n_Value p.1) k) ps = false.
Proof.
  unfold first_of. induction ps as [|[kn v] ps IH]; simpl; [done|]. by destruct (String.eqb (n_Value kn) k).
Qed.
Lemma first_kid_none k ps : first_kid k ps = None <-> existsb (fun p => String.eqb (n_Value p.1.1) k) ps = false.
Proof.
  unfold first_kid. induction ps as [|[kn v] ps IH]; simpl; [done|]. by destruct (String.eqb (n_Value kn.1) k).
Qed.

(** A mapping after the update, key by key. *)
Lemma applyMapping_lookup old src keep k :
  NoDup (keys (n_Content src)) ->
  first_of k (pairs (applyMapping old src keep)) =
  match first_of k (pairs (n_Content src)), first_kid k (pairs old) with
  | Some sv, Some kd => Some (kd.2 sv)
  | Some sv, None => Some sv
  | None, Some kd => if keep then Some kd.1 else None
  | None, None => None
  end.
Proof.
  intros Hnd. unfold applyMapping. rewrite pairs_unpairs, first_of_app, kept_lookup, added_lookup.
  unfold used_key. set (ps := pairs (n_Content src)) in *.
  rewrite (last_of_first k ps Hnd). destruct (first_of k ps) as [sv|] eqn:Es.
  - assert (existsb (fun p => String.eqb (n_Value p.1) k) ps = true) as ->.
    { destruct (existsb _ ps) eqn:E; [done|]. apply first_of_none in E. congruence. }
    destruct (first_kid k (pairs old)) eqn:Ek; [done|]. apply first_kid_none in Ek. by rewrite Ek.
  - apply first_of_none in Es. rewrite Es. simpl. rewrite andb_false_r.
    destruct (first_kid k (pairs old)); [by destruct keep|done].
Qed.

(** ** Lists *)

Lemma matchSeqItem_lt old used sn i : matchSeqItem old used sn = Some i -> is_Some (old !! i).
Proof.
  unfold matchSeqItem. set (free := List.filter _ _). intros H.
  assert (exists x, x ∈ free /\ x.1 = i) as (x & Hx & <-).
  { destruct (is_kind ScalarNode sn).
    - apply fmap_Some in H as (x & E & ->). apply List.find_some in E as [Hin _].
      exists x. split; [by apply list_elem_of_In|done].
    - destruct free as [|x l]; [done|]. injection H as <-. exists x. split; [left|done]. }
  apply list_elem_of_In, filter_In in Hx as [Hx _]. apply list_elem_of_In, elem_of_lookup_imap in Hx as (j & [y u] & -> & Hy).
  apply lookup_zip_Some in Hy as [Hy _]. simpl. eauto.
Qed.

Lemma applyPlainSeq_val old src :
  Forall faithful old -> Forall wf (n_Content src) ->
  val_of <$> applyPlainSeq old src = val_of <$> n_Content src.
Proof.
  intros Hold Hwf. unfold applyPlainSeq. generalize (replicate (length old) false). intros used.
  assert (forall l used next, Forall wf l ->
    val_of <$> (foldl (seq_step old) (used, next) l).2 = (val_of <$> next) ++ (val_of <$> l)) as H.
  { clear used src Hwf. induction l as [|sn l IH]; intros used next Hl; simpl; [by rewrite app_nil_r|].
    apply Forall_cons in Hl as [Hsn Hl]. destruct (matchSeqItem old used sn) as [i|] eqn:E.
    - destruct (matchSeqItem_lt _ _ _ _ E) as [kd Hk]. rewrite Hk, IH by done. rewrite fmap_app, <- app_assoc.
      simpl. f_equal. f_equal. rewrite Forall_forall in Hold. eapply Hold; [by eapply list_elem_of_lookup_2|done].
    - rewrite IH by done. by rewrite fmap_app, <- app_assoc. }
  by rewrite H.
Qed.

Lemma index_by_id_Some old id i :
  index_by_id old id = Some i -> exists kd, old !! i = Some kd /\ kid_id kd = id.
Proof.
  unfold index_by_id.
  assert (forall l acc, (forall i x, (i, x) ∈ l -> old !! i = Some x) ->
    (forall j, acc = Some j -> exists kd, old !! j = Some kd /\ kid_id kd = id) ->
    forall j, foldl (fun acc x => if String.eqb (kid_id x.2) id then Some x.1 else acc) acc l = Some j ->
      exists kd, old !! j = Some kd /\ kid_id kd = id) as H.
  { induction l as [|[n x] l IH]; intros acc Hl Hacc j; simpl; [apply Hacc|].
    apply IH; [intros; apply Hl; by right|]. simpl.
    destruct (String.eqb_spec (kid_id x) id) as [E|_]; [|done]. intros j' [= <-].
    exists x. split; [apply Hl; left|done]. }
  apply H; [|done]. intros j x (n & y & [= -> ->] & Hy)%elem_of_lookup_imap. done.
Qed.

(** The places of an identified list and what they stand for. *)
Definition place_ok (old : list kid) (cur : gmap nat node) (x : nat + node) (sn : node) : Prop :=
  match x with
  | inl i => exists n kd, cur !! i = Some n /\ val_of n = val_of sn /\ old !! i = Some kd /\
               kid_id kd = mappingString sn "id" /\ kid_id kd <> EmptyString
  | inr n => val_of n = val_of sn
  end.

Lemma ids_snoc l sn :
  ids (l ++ [sn]) = ids l ++ (if str_empty (mappingString sn "id") then [] else [mappingString sn "id"]).
Proof. unfold ids. rewrite fmap_app. simpl. rewrite filter_snoc. by destruct (str_empty _). Qed.

(** An item without a place of its own takes the next anonymous one. *)
Lemma anonymous_places old l sn st :
  Forall faithful old -> wf sn -> Forall2 (place_ok old (is_current st)) (is_next st) l ->
  let st' := match anonymous old !! is_ai st with
             | Some k => mkIdState (is_current st) (is_next st ++ [inr (k.2 sn)]) (S (is_ai st))
             | None => mkIdState (is_current st) (is_next st ++ [inr sn]) (is_ai st)
             end in
  Forall2 (place_ok old (is_current st')) (is_next st') (l ++ [sn]).
Proof.
  intros Hold Hsn Hst. rewrite Forall_forall in Hold.
  destruct (anonymous old !! is_ai st) as [kd|] eqn:Ea; simpl; (apply Forall2_app; [done|]);
    (constructor; [|constructor]); simpl; [|done].
  apply list_elem_of_lookup_2 in Ea. apply list_elem_of_In, filter_In in Ea as [Ea _].
  apply Hold; [by apply list_elem_of_In|done].
Qed.

Lemma id_step_places old l sn st :
  Forall faithful old -> wf sn -> NoDup (ids (l ++ [sn])) ->
  Forall2 (place_ok old (is_current st)) (is_next st) l ->
  Forall2 (place_ok old (is_current (id_step old st sn))) (is_next (id_step old st sn)) (l ++ [sn]).
Proof.
  intros Hold Hsn Hnd Hst. unfold id_step.
  destruct (str_empty (mappingString sn "id")) eqn:Hid; [by apply anonymous_places|].
  destruct (index_by_id old (mappingString sn "id")) as [i|] eqn:Ei; [|by apply anonymous_places].
  destruct (index_by_id_Some _ _ _ Ei) as (kd & Hk & Hkid). rewrite Hk. simpl.
  assert (mappingString sn "id" <> EmptyString) as Hne by (intros E; by rewrite E in Hid).
  rewrite ids_snoc, Hid in Hnd. apply NoDup_app in Hnd as (_ & Hdis & _). apply Forall2_app.
  - apply Forall2_same_length_lookup_2; [by apply Forall2_length in Hst|].
    intros j x y Hx Hy. pose proof (Forall2_lookup_lr _ _ _ _ _ _ Hst Hx Hy) as Hxy. destruct x as [i'|n]; [|done].
    destruct Hxy as (n & kd' & Hn & Hv & Hk' & Hid' & Hne'). exists n, kd'. split_and!; [|done..].
    rewrite lookup_insert_ne; [done|]. intros ->. rewrite Hk in Hk'. injection Hk' as <-.
    apply (Hdis (mappingString sn "id")); [|left].
    unfold ids. apply list_elem_of_In, filter_In. split; [|by rewrite Hid]. apply list_elem_of_In.
    rewrite <- Hkid, Hid'. apply (list_elem_of_fmap_2 (fun n => mappingString n "id")). by eapply list_elem_of_lookup_2.
  - constructor; [|constructor]. exists (kd.2 sn), kd. rewrite lookup_insert_eq. split_and!; try done; [|by rewrite Hkid].
    rewrite Forall_forall in Hold. apply Hold; [by eapply list_elem_of_lookup_2|done].
Qed.

Lemma applyIdentifiedSeq_val old src :
  Forall faithful old -> Forall wf (n_Content src) -> NoDup (ids (n_Content src)) ->
  val_of <$> applyIdentifiedSeq old src = val_of <$> n_Content src.
Proof.
  intros Hold Hwf Hnd. unfold applyIdentifiedSeq.
  assert (Forall2 (place_ok old (is_current (foldl (id_step old) (mkIdState ∅ [] 0) (n_Content src))))
    (is_next (foldl (id_step old) (mkIdState ∅ [] 0) (n_Content src))) (n_Content src)) as H.
  { revert Hwf Hnd. generalize (n_Content src). intros l.
    induction l as [|sn l IH] using rev_ind; intros Hwf Hnd; [constructor|].
    apply Forall_app in Hwf as [Hl Hsn%Forall_inv]. rewrite foldl_snoc. apply id_step_places; [done..|].
    apply IH; [done|]. rewrite ids_snoc in Hnd. by apply NoDup_app in Hnd as [? _]. }
  set (st := foldl _ _ _) in *. clearbody st. clear Hwf Hnd. induction H as [|x y next l Hxy _ IH]; [done|].
  simpl. destruct x as [i|n]; simpl.
  - destruct Hxy as (n & kd & -> & Hv & _). simpl. f_equal; [done|apply IH].
  - f_equal; [exact Hxy|apply IH].
Qed.

Lemma applySequence_val dst old src :
  Forall faithful old -> wf src -> n_Kind src = SequenceNode ->
  val_of <$> applySequence dst old src = val_of <$> n_Content src.
Proof.
  intros Hold [n _ _ Hids Hwf] Hk. unfold applySequence.
  destruct (_ || _); [apply applyIdentifiedSeq_val; auto|by apply applyPlainSeq_val].
Qed.

(** ** The update as a whole *)

Definition kids_of (keep : bool) (n : node) : list kid :=
  List.map (fun c => (c, fun sn => applyYAML c sn keep)) (n_Content n).

Lemma applyYAML_eq dst src keep :
  wf src -> n_Kind dst <> DocumentNode ->
  applyYAML dst src keep =
  match n_Kind dst, n_Kind src with
  | MappingNode, MappingNode => set_Content (applyMapping (kids_of keep dst) src keep) dst
  | SequenceNode, SequenceNode => set_Content (applySequence dst (kids_of keep dst) src) dst
  | _, _ => copyValueKeepComments dst src
  end.
Proof.
  intros Hsrc Hd. destruct dst as [kind st tg vl an hc lc fc content]. cbn [applyYAML].
  rewrite (unwrapDoc_wf _ Hsrc). by destruct kind.
Qed.

Lemma kids_faithful dst keep :
  Forall (fun c => forall src, wf src -> val_of (applyYAML c src keep) = val_of src) (n_Content dst) ->
  Forall faithful (kids_of keep dst).
Proof.
  intros H. unfold kids_of. rewrite Forall_forall in H. apply Forall_forall. intros kd (c & <- & Hc)%list_elem_of_In%in_map_iff.
  intros sn Hsn. simpl. apply H; [by apply list_elem_of_In|done].
Qed.

Lemma first_kid_elem k ps kd : first_kid k ps = Some kd -> exists kn, (kn, kd) ∈ ps /\ n_Value kn.1 = k.
Proof.
  unfold first_kid. intros ([kn v] & E & ->)%fmap_Some. apply List.find_some in E as [Hin Hk%String.eqb_eq].
  exists kn. split; [by apply list_elem_of_In|done].
Qed.
Lemma first_of_elem k ps v : first_of k ps = Some v -> exists kn, (kn, v) ∈ ps /\ n_Value kn = k.
Proof.
  unfold first_of. intros ([kn v'] & E & ->)%fmap_Some. apply List.find_some in E as [Hin Hk%String.eqb_eq].
  exists kn. split; [by apply list_elem_of_In|done].
Qed.
Lemma first_of_wf k n v : wf n -> first_of k (pairs (n_Content n)) = Some v -> wf v.
Proof.
  intros [m _ _ _ Hc] (kn & Hin & _)%first_of_elem. rewrite Forall_forall in Hc. apply Hc.
  by apply elem_of_pairs in Hin as [_ ?].
Qed.
Lemma first_kid_of k keep n kd :
  first_kid k (pairs (kids_of keep n)) = Some kd -> kd ∈ kids_of keep n.
Proof. intros (kn & Hin & _)%first_kid_elem. by apply elem_of_pairs in Hin as [_ ?]. Qed.

(** The value of the updated document is that of the configuration. *)
Lemma applyYAML_val dst : wf dst -> forall src, wf src -> val_of (applyYAML dst src false) = val_of src.
Proof.
  induction dst as [dst IH] using node_nested_ind. intros Hdst src Hsrc.
  assert (Forall faithful (kids_of false dst)) as Hkids.
  { apply kids_faithful. inversion Hdst as [n _ _ _ Hc]; subst. rewrite Forall_forall in IH, Hc |- *. auto. }
  rewrite applyYAML_eq by (done || by inversion Hdst).
  destruct (n_Kind dst) eqn:Ek, (n_Kind src) eqn:Es; try apply val_of_copy.
  - rewrite !val_of_sequence by done. simpl. f_equal. by apply applySequence_val.
  - rewrite !val_of_mapping by done. simpl. f_equal. apply map_eq. intros k. rewrite !entries_lookup.
    rewrite applyMapping_lookup by (inversion Hsrc; auto).
    destruct (first_of k (pairs (n_Content src))) as [sv|] eqn:Ef; [|by destruct (first_kid _ _)].
    destruct (first_kid k (pairs (kids_of false dst))) as [kd|] eqn:Ekd; [|done]. simpl. f_equal.
    rewrite Forall_forall in Hkids. apply Hkids; [by eapply first_kid_of|by eapply first_of_wf].
Qed.

(** * Filling *)

Lemma filled_refl v t : filled v t v.
Proof. split; auto. Qed.

(** Key by key: what both have is filled, the rest is taken from either. *)
Lemma filled_map (m t r : gmap string val) :
  (forall k, match m !! k, t !! k with
             | Some v, Some tv => exists x, r !! k = Some x /\ filled v tv x
             | Some v, None => r !! k = Some v
             | None, o => r !! k = o
             end) ->
  filled (VMap m) (VMap t) (VMap r).
Proof.
  intros H. split; intros [|k p] w; simpl.
  - intros [= <-] Hl. by destruct (Hl m).
  - specialize (H k). destruct (m !! k) as [v|]; [|done]. simpl. intros Hv Hl.
    destruct (t !! k) as [tv|]; [|by rewrite H]. destruct H as (x & -> & [H1 _]). simpl. auto.
  - intros [= <-] Hl. by destruct (Hl r).
  - specialize (H k). destruct (m !! k) as [v|], (t !! k) as [tv|]; simpl.
    + destruct H as (x & -> & [_ H2]). simpl. auto.
    + rewrite H. auto.
    + rewrite H. auto.
    + by rewrite H.
Qed.

Definition fill_kids (n : node) : list kid := List.map (fun c => (c, fillMissing c)) (n_Content n).

Lemma fillMissing_eq dst tmpl :
  wf tmpl -> n_Kind dst <> DocumentNode ->
  fillMissing dst tmpl =
  match n_Kind dst, n_Kind tmpl with
  | MappingNode, MappingNode =>
      let ps := pairs (n_Content tmpl) in
      set_Content (unpairs (fill_pairs ps (pairs (fill_kids dst)) ++
        List.filter (fun p => negb (existsb (fun q => String.eqb (n_Value q.1) (n_Value p.1)) (pairs (n_Content dst)))) ps)) dst
  | _, _ => dst
  end.
Proof.
  intros Ht Hd. destruct dst as [kind st tg vl an hc lc fc content]. cbn [fillMissing].
  rewrite (unwrapDoc_wf _ Ht). by destruct kind.
Qed.

(** The value of a key of the filled mapping. *)
Definition fill_value (ps : list (node * node)) (k : string) (kd : kid) : node :=
  match first_of k ps with
  | Some tv => if is_kind MappingNode kd.1 && is_kind MappingNode tv then kd.2 tv else kd.1
  | None => kd.1
  end.

Lemma fill_pairs_lookup k ps l :
  NoDup ((fun p => n_Value p.1.1) <$> l) ->
  first_of k (fill_pairs ps l) = fill_value ps k <$> first_kid k l.
Proof.
  unfold first_of, first_kid. induction l as [|[kn v] l IH]; [done|]. rewrite fmap_cons, NoDup_cons.
  intros [Hn Hnd]. simpl. destruct (String.eqb_spec (n_Value kn.1) k) as [<-|Hk]; [|by apply IH]. simpl.
  assert (existsb (fun p => String.eqb (n_Value p.1.1) (n_Value kn.1)) l = false) as ->.
  { apply not_true_iff_false. intros (p & Hp & E%String.eqb_eq)%existsb_exists. apply Hn. simpl. rewrite <- E.
    apply (list_elem_of_fmap_2 (fun p : kid * kid => n_Value p.1.1)). by apply list_elem_of_In. }
  unfold fill_value, first_of. f_equal.
  destruct (snd <$> List.find (fun p => String.eqb (n_Value p.1) (n_Value kn.1)) ps); [|done].
  simpl. by rewrite andb_true_r.
Qed.

Lemma filter_key_lookup k (keep : string -> bool) ps :
  first_of k (List.filter (fun p => keep (n_Value p.1)) ps) = if keep k then first_of k ps else None.
Proof.
  unfold first_of. induction ps as [|[kn v] ps IH]; simpl; [by destruct (keep k)|].
  destruct (keep (n_Value kn)) eqn:E; simpl; destruct (String.eqb_spec (n_Value kn) k) as [<-|Hk]; rewrite ?E in *; done.
Qed.

Lemma kid_pairs {A} (g : node -> A) (content : list node) :
  pairs (List.map (fun c => (c, g c)) content) = (fun p => ((p.1, g p.1), (p.2, g p.2))) <$> pairs content.
Proof. exact (pairs_map (fun c => (c, g c)) content). Qed.

Lemma first_kid_map k (g : node -> node -> node) (ps : list (node * node)) :
  first_kid k ((fun p => ((p.1, g p.1), (p.2, g p.2))) <$> ps) = (fun v => (v, g v)) <$> first_of k ps.
Proof.
  unfold first_kid, first_of. induction ps as [|[kn v] ps IH]; [done|]. rewrite fmap_cons. simpl.
  by destruct (String.eqb (n_Value kn) k).
Qed.

(** What filling needs of a node: distinct keys in its mappings. *)
Inductive fillable : node -> Prop :=
| fillable_node n :
    n_Kind n <> DocumentNode ->
    (n_Kind n = MappingNode -> NoDup (keys (n_Content n)) /\ Forall (fun p => fillable p.2) (pairs (n_Content n))) ->
    fillable n.

Lemma wf_fillable n : wf n -> fillable n.
Proof.
  induction n as [n IH] using node_nested_ind. intros Hwf. inversion Hwf as [? Hk Hn _ Hc]; subst.
  constructor; [done|]. intros Hm. split; [auto|].
  rewrite Forall_forall in IH, Hc. apply Forall_forall. intros p Hp. apply elem_of_pairs in Hp as [_ Hp]. auto.
Qed.

Lemma fillMissing_filled dst : fillable dst -> forall tmpl, wf tmpl -> filled (val_of dst) (val_of tmpl) (val_of (fillMissing dst tmpl)).
Proof.
  induction dst as [dst IH] using node_nested_ind. intros Hdst tmpl Htmpl.
  rewrite fillMissing_eq by (done || by inversion Hdst).
  destruct (n_Kind dst) eqn:Ek, (n_Kind tmpl) eqn:Et; try apply filled_refl.
  rewrite !val_of_mapping by done. simpl. rewrite pairs_unpairs. apply filled_map. intros k.
  rewrite !entries_lookup, first_of_app.
  rewrite (filter_key_lookup k (fun k => negb (existsb (fun q => String.eqb (n_Value q.1) k) (pairs (n_Content dst))))).
  unfold fill_kids. rewrite kid_pairs, fill_pairs_lookup, first_kid_map.
  2:{ rewrite <- list_fmap_compose. inversion Hdst as [? _ Hn]; subst. by apply Hn. }
  destruct (first_of k (pairs (n_Content dst))) as [v|] eqn:Ev; simpl.
  - unfold fill_value. destruct (first_of k (pairs (n_Content tmpl))) as [tv|] eqn:Etv; simpl; [|done].
    destruct (is_kind MappingNode v && is_kind MappingNode tv); [|eexists; split; [done|apply filled_refl]].
    eexists. split; [done|]. apply first_of_elem in Ev as (kn & Hin & _).
    inversion Hdst as [? _ Hc]; subst. destruct (Hc Ek) as [_ Hc']. rewrite Forall_forall in IH. rewrite Forall_forall in Hc'.
    apply IH; [by apply elem_of_pairs in Hin as [_ ?]|by apply (Hc' (kn, v))|by eapply first_of_wf].
  - apply first_of_none in Ev. by rewrite Ev.
Qed.

(** An updated node can be filled. *)
Lemma NoDup_omap_key {A B C} (f : A -> C) (h : B -> C) (g : A -> option B) l :
  (forall x y, g x = Some y -> h y = f x) -> NoDup (f <$> l) -> NoDup (h <$> omap g l).
Proof.
  intros Hg. induction l as [|a l IH]; [by constructor|]. rewrite fmap_cons, NoDup_cons. intros [Hn Hnd].
  unfold omap in *. simpl. destruct (g a) as [b|] eqn:E; [|auto]. rewrite fmap_cons, NoDup_cons. split; [|auto].
  intros (y & Hy & Hin)%list_elem_of_fmap. apply Hn. rewrite <- (Hg _ _ E), Hy.
  apply list_elem_of_omap in Hin as (x & Hx & Ex). rewrite (Hg _ _ Ex). by apply list_elem_of_fmap_2.
Qed.

Lemma applyMapping_keys old src keep :
  NoDup ((fun p => n_Value p.1.1) <$> pairs old) -> NoDup (keys (n_Content src)) ->
  NoDup (keys (applyMapping old src keep)).
Proof.
  intros Hold Hsrc. unfold keys, applyMapping. rewrite pairs_unpairs, fmap_app.
  set (ps := pairs (n_Content src)) in *. apply NoDup_app. split_and!.
  - apply (NoDup_omap_key (fun p => n_Value p.1.1)); [|done]. intros x y.
    destruct (last_of _ _ ps); [by intros [= <-]|]. destruct keep; [by intros [= <-]|done].
  - intros k (p & -> & Hp)%list_elem_of_fmap (q & Hq & Hin)%list_elem_of_fmap.
    apply list_elem_of_omap in Hp as (x & Hx & Ex). apply list_elem_of_omap in Hin as (y & _ & Ey).
    assert (n_Value p.1 = n_Value x.1.1) as Hpx.
    { destruct (last_of _ _ ps); [by injection Ex as <-|]. destruct keep; [by injection Ex as <-|done]. }
    destruct (used_key (pairs old) ps (n_Value y.1)) eqn:Eu; [done|].
    destruct (last_of n_Value (n_Value y.1) ps) eqn:El; [|done]. injection Ey as <-. simpl in Hq.
    unfold used_key in Eu. rewrite El in Eu. rewrite bool_decide_true, andb_true_r in Eu by by eexists.
    apply not_true_iff_false in Eu. apply Eu. apply existsb_exists. exists x. split; [by apply list_elem_of_In|].
    apply String.eqb_eq. congruence.
  - apply (NoDup_omap_key (fun p => n_Value p.1)); [|done]. intros x y.
    destruct (used_key _ _ _); [done|]. destruct (last_of _ _ ps); by intros [= <-].
Qed.

Lemma last_of_elem k (ps : list (node * node)) v : last_of n_Value k ps = Some v -> exists kn, (kn, v) ∈ ps.
Proof.
  unfold last_of. induction ps as [|[kn x] ps IH] using rev_ind; [done|]. rewrite foldl_snoc. simpl.
  destruct (String.eqb (n_Value kn) k).
  - intros [= <-]. exists kn. set_solver.
  - intros (kn' & ?)%IH. exists kn'. set_solver.
Qed.

Lemma applyYAML_fillable dst : wf dst -> forall src, wf src -> fillable (applyYAML dst src false).
Proof.
  induction dst as [dst IH] using node_nested_ind. intros Hdst src Hsrc.
  assert (fillable (copyValueKeepComments dst src)) as Hcopy.
  { apply wf_fillable in Hsrc. inversion Hsrc as [? H1 H2]; subst. by constructor. }
  rewrite applyYAML_eq by (done || by inversion Hdst).
  destruct (n_Kind dst) eqn:Ek, (n_Kind src) eqn:Es; try done.
  { constructor; simpl; by rewrite Ek. }
  inversion Hdst as [? _ Hkd _ Hcd]; inversion Hsrc as [? _ Hks _ Hcs]; subst. rewrite Forall_forall in IH, Hcd, Hcs.
  constructor; [simpl; by rewrite Ek|]. intros _. simpl. split.
  - apply applyMapping_keys; [|auto]. unfold kids_of. rewrite kid_pairs, <- list_fmap_compose. by apply Hkd.
  - unfold applyMapping. rewrite pairs_unpairs. apply Forall_forall. intros p [Hp|Hp]%elem_of_app.
    all: apply list_elem_of_omap in Hp as (x & Hx & Ex).
    + destruct (last_of _ _ _) as [sv|] eqn:El; [|done]. injection Ex as <-. simpl.
      unfold kids_of in Hx. rewrite kid_pairs in Hx. apply list_elem_of_fmap in Hx as (y & -> & Hy). simpl.
      apply elem_of_pairs in Hy as [_ Hy]. apply last_of_elem in El as (kn & El). apply elem_of_pairs in El as [_ El]. auto.
    + destruct (used_key _ _ _); [done|]. destruct (last_of _ _ _) as [sv|] eqn:El; [|done]. injection Ex as <-. simpl.
      apply last_of_elem in El as (kn & El). apply elem_of_pairs in El as [_ El]. by apply wf_fillable, Hcs.
Qed.

(** ** The first write: the defaults updated *)

(** The lists of the template hold scalars only. *)
Inductive flat : node -> Prop :=
| flat_node n :
    (n_Kind n = SequenceNode -> Forall (fun c => n_Kind c = ScalarNode) (n_Content n)) ->
    Forall flat (n_Content n) -> flat n.

Lemma applyYAML_scalar c src keep : n_Kind c = ScalarNode -> wf src -> val_of (applyYAML c src keep) = val_of src.
Proof. intros Hc Hs. rewrite applyYAML_eq by (done || by rewrite Hc). rewrite Hc. apply val_of_copy. Qed.

Lemma applyYAML_filled dst :
  wf dst -> flat dst -> forall src, wf src -> filled (val_of src) (val_of dst) (val_of (applyYAML dst src true)).
Proof.
  induction dst as [dst IH] using node_nested_ind. intros Hdst Hflat src Hsrc.
  rewrite applyYAML_eq by (done || by inversion Hdst).
  destruct (n_Kind dst) eqn:Ek, (n_Kind src) eqn:Es; try (rewrite val_of_copy; apply filled_refl).
  - rewrite (val_of_sequence (set_Content _ _)) by done. simpl. rewrite applySequence_val; [| |done..].
    + rewrite <- val_of_sequence by done. apply filled_refl.
    + apply kids_faithful. inversion Hflat as [? Hs _]; subst. eapply Forall_impl; [by apply Hs|].
      intros c Hc s Hs'. by apply applyYAML_scalar.
  - rewrite !val_of_mapping by done. simpl. apply filled_map. intros k. rewrite !entries_lookup.
    rewrite applyMapping_lookup by (inversion Hsrc; auto). unfold kids_of. rewrite kid_pairs.
    rewrite (first_kid_map k (fun c sn => applyYAML c sn true)).
    destruct (first_of k (pairs (n_Content src))) as [sv|] eqn:Esv;
      destruct (first_of k (pairs (n_Content dst))) as [v|] eqn:Ev; simpl; try done.
    eexists. split; [done|]. apply first_of_elem in Ev as (kn & Hin & _). apply elem_of_pairs in Hin as [_ Hin].
    inversion Hdst as [? _ _ _ Hc]; inversion Hflat as [? _ Hf]; subst. rewrite Forall_forall in IH, Hc, Hf.
    apply IH; [done|by apply Hc|by apply Hf|by eapply first_of_wf].
Qed.

(** ** [setMappingBool] and the comments *)

Lemma update_first_lookup k key g content :
  first_of k (pairs (update_first key g content)) =
  if String.eqb k key then g <$> first_of k (pairs content) else first_of k (pairs content).
Proof.
  unfold first_of. induction content as [| |kn v l IH] using list_pair_ind; simpl; [by destruct (String.eqb k key)..|].
  destruct (String.eqb_spec (n_Value kn) key) as [E|Hn]; simpl; rewrite ?E.
  - destruct (String.eqb_spec key k) as [->|Hk]; simpl; [by rewrite String.eqb_refl|].
    by rewrite (proj2 (String.eqb_neq k key)) by congruence.
  - destruct (String.eqb_spec (n_Value kn) k) as [E|Hk]; [|done].
    by rewrite (proj2 (String.eqb_neq k key)) by congruence.
Qed.

Definition bool_val (v : bool) : val := VScalar "!!bool" (if v then "true" else "false").

Lemma vget_prefix p q v w : p `prefix_of` q -> vget q v = Some w -> is_Some (vget p v).
Proof.
  intros [r ->]. revert v. induction p as [|k p IH]; intros v; simpl; [by eexists|].
  destruct v as [| |m|]; try done. destruct (m !! k); [|done]. apply IH.
Qed.

(** Setting a value changes nothing but what lies at its path. *)
Lemma set_bool_vget path v n : path <> [] ->
  (forall q w, leaf w -> vget q (val_of (set_bool path v n)) = Some w ->
     (q = path /\ w = bool_val v) \/ vget q (val_of n) = Some w) /\
  (forall q w, leaf w -> ~ path `prefix_of` q -> vget q (val_of n) = Some w ->
     vget q (val_of (set_bool path v n)) = Some w).
Proof.
  revert n. induction path as [|key path IH]; [done|]. intros n _. cbn [set_bool].
  destruct (is_kind MappingNode n) eqn:Hk; [|split; auto]. apply bool_decide_eq_true in Hk.
  set (g := fun x => match path with [] => bool_node x v | _ :: _ => set_bool path v x end).
  rewrite (val_of_mapping n Hk), (val_of_mapping (set_Content _ n)) by done. simpl.
  assert (forall x, (forall q w, leaf w -> vget q (val_of (g x)) = Some w ->
       (q = path /\ w = bool_val v) \/ vget q (val_of x) = Some w) /\
     (forall q w, leaf w -> ~ path `prefix_of` q -> vget q (val_of x) = Some w -> vget q (val_of (g x)) = Some w)) as Hg.
  { intros x. unfold g. destruct path as [|key' path]; [|by apply IH]. split.
    - intros [|k q] w _; simpl; [intros [= <-]; by left|done].
    - intros q w _ Hn _. by destruct Hn; apply prefix_nil. }
  split; intros [|k q] w Hl; simpl.
  - intros [= <-]. by destruct (Hl _ eq_refl).
  - rewrite !entries_lookup, update_first_lookup. destruct (String.eqb_spec k key) as [->|Hn]; [|by right].
    destruct (first_of key (pairs (n_Content n))) as [x|]; [|done]. simpl. intros Hq.
    destruct (proj1 (Hg x) q w Hl Hq) as [[-> ->]|?]; auto.
  - intros _ [= <-]. by destruct (Hl _ eq_refl).
  - rewrite !entries_lookup, update_first_lookup. intros Hpre. destruct (String.eqb_spec k key) as [->|Hn]; [|done].
    destruct (first_of key (pairs (n_Content n))) as [x|]; [|done]. simpl. apply (proj2 (Hg x)); [done|].
    intros ?. apply Hpre. by apply prefix_cons.
Qed.

Lemma val_of_strip n : val_of (stripSchemaComments n) = val_of n.
Proof.
  induction n as [[kind st tg vl an hc lc fc content] IH] using node_nested_ind. simpl in IH |- *.
  rewrite List.map_map. assert (List.map (fun x => (n_Value (stripSchemaComments x), val_of (stripSchemaComments x))) content =
    List.map (fun c => (n_Value c, val_of c)) content) as ->; [|done].
  apply List.map_ext_in. intros c Hc. rewrite Forall_forall in IH. rewrite IH by by apply list_elem_of_In.
  by destruct c.
Qed.

(** ** Well-formed nodes, decided *)

Fixpoint wf_check (n : node) : bool :=
  match n with
  | mkNode kind _ _ _ _ _ _ _ content =>
      match kind with
      | DocumentNode => false
      | MappingNode => bool_decide (NoDup (keys content))
      | SequenceNode => bool_decide (NoDup (ids content))
      | _ => true
      end && List.forallb wf_check content
  end.
Lemma wf_check_sound n : wf_check n = true -> wf n.
Proof.
  induction n as [[kind st tg vl an hc lc fc content] IH] using node_nested_ind. simpl in *.
  intros [Hk Hc]%andb_true_iff. constructor; simpl.
  - by intros ->.
  - intros ->. by apply bool_decide_eq_true in Hk.
  - intros ->. by apply bool_decide_eq_true in Hk.
  - rewrite List.forallb_forall in Hc. rewrite Forall_forall in IH. apply Forall_forall.
    intros x Hx. apply IH; [done|]. by apply Hc, list_elem_of_In.
Qed.

Fixpoint flat_check (n : node) : bool :=
  match n with
  | mkNode kind _ _ _ _ _ _ _ content =>
      (negb (bool_decide (kind = SequenceNode)) || List.forallb (is_kind ScalarNode) content) &&
      List.forallb flat_check content
  end.
Lemma flat_check_sound n : flat_check n = true -> flat n.
Proof.
  induction n as [[kind st tg vl an hc lc fc content] IH] using node_nested_ind. simpl in *.
  intros [Hk Hc]%andb_true_iff. rewrite List.forallb_forall in Hc. rewrite Forall_forall in IH. constructor; simpl.
  - intros ->. simpl in Hk. rewrite List.forallb_forall in Hk. apply Forall_forall. intros x Hx.
    apply list_elem_of_In, Hk in Hx. by apply bool_decide_eq_true in Hx.
  - apply Forall_forall. intros x Hx. apply IH; [done|]. by apply Hc, list_elem_of_In.
Qed.

Lemma defaults_wf : wf defaultUserConfig.
Proof. apply wf_check_sound. vm_compute. reflexivity. Qed.
Lemma defaults_flat : flat defaultUserConfig.
Proof. apply flat_check_sound. vm_compute. reflexivity. Qed.

(** * Comments

    Those of the key and of the value at a path. The library attaches a
    comment above or below an entry to its key and one on the line to its
    value. *)
Definition Comments : Type := (string * string * string)%type.
Definition comments (n : node) : Comments := (n_HeadComment n, n_LineComment n, n_FootComment n).
Definition find_pair (k : string) (ps : list (node * node)) : option (node * node) :=
  List.find (fun p => String.eqb (n_Value p.1) k) ps.
Fixpoint noted (p : list string) (kn v : node) : option (Comments * Comments) :=
  match p with
  | [] => Some (comments kn, comments v)
  | k :: p => if is_kind MappingNode v
              then find_pair k (pairs (n_Content v)) ≫= fun e => noted p e.1 e.2 else None
  end.

Lemma find_pair_app k l1 l2 :
  find_pair k (l1 ++ l2) = match find_pair k l1 with Some e => Some e | None => find_pair k l2 end.
Proof. unfold find_pair. induction l1 as [|[kn v] l1 IH]; [done|]. simpl. by destruct (String.eqb (n_Value kn) k). Qed.

Lemma kept_pair k (g : node -> node -> node) old ps keep kn v sv :
  find_pair k old = Some (kn, v) -> last_of n_Value k ps = Some sv ->
  find_pair k (kept_pairs ((fun p => ((p.1, g p.1), (p.2, g p.2))) <$> old) ps keep) = Some (kn, g v sv).
Proof.
  intros Hf Hl. unfold find_pair, kept_pairs in *. induction old as [|[kn' v'] old IH]; [done|]. unfold omap. simpl in *.
  destruct (String.eqb_spec (n_Value kn') k) as [Hk|Hk].
  - injection Hf as -> ->. rewrite Hk, Hl. simpl. by rewrite Hk, String.eqb_refl.
  - destruct (last_of n_Value (n_Value kn') ps); simpl; [|destruct keep; simpl];
      rewrite ?(proj2 (String.eqb_neq _ _) Hk); by apply IH.
Qed.

Lemma fill_pair k (g : node -> node -> node) ps l kn v :
  find_pair k l = Some (kn, v) ->
  exists v', find_pair k (fill_pairs ps ((fun p => ((p.1, g p.1), (p.2, g p.2))) <$> l)) = Some (kn, v') /\
    (v' = v \/ exists tv, first_of k ps = Some tv /\ v' = g v tv).
Proof.
  unfold find_pair. induction l as [|[kn' v'] l IH]; [done|]. rewrite fmap_cons. simpl.
  destruct (String.eqb_spec (n_Value kn') k) as [<-|Hk]; [|exact IH]. intros [= <- <-]. eexists. split; [done|].
  destruct (first_of (n_Value kn') ps) as [tv|]; [|by left]. case_match; [right; by exists tv|by left].
Qed.

Lemma find_pair_elem k ps kn v : find_pair k ps = Some (kn, v) -> (kn, v) ∈ ps.
Proof. intros [Hin _]%List.find_some. by apply list_elem_of_In. Qed.

Lemma applyYAML_comments dst src keep :
  wf src -> n_Kind dst <> DocumentNode -> comments (applyYAML dst src keep) = comments dst.
Proof. intros Hs Hd. rewrite applyYAML_eq by done. by destruct (n_Kind dst), (n_Kind src). Qed.

(** Updating a document keeps the comments of every key that stays. *)
Lemma applyYAML_noted p dst kn src c :
  wf dst -> wf src -> noted p kn dst = Some c -> is_Some (vget p (val_of src)) ->
  noted p kn (applyYAML dst src false) = Some c.
Proof.
  revert dst kn src c. induction p as [|k p IH]; intros dst kn src c Hd Hs; simpl.
  { intros [= <-] _. rewrite applyYAML_comments; [done..|by inversion Hd]. }
  unfold is_kind at 1. case_bool_decide as Hk; [|done]. intros ([kn' v] & Hf & Hn)%bind_Some [w Hw].
  assert (n_Kind src = MappingNode) as Hsk.
  { destruct src as [kind st tg vl an hc lc fc content]. simpl in *. destruct kind; try done.
    inversion Hs; by subst. }
  rewrite (val_of_mapping _ Hsk), entries_lookup in Hw. apply bind_Some in Hw as (sw & (sv & Hsv & ->)%fmap_Some & Hw).
  rewrite applyYAML_eq by (done || by inversion Hd). rewrite Hk, Hsk. unfold is_kind. simpl. rewrite Hk. simpl.
  unfold applyMapping, kids_of. rewrite pairs_unpairs, kid_pairs, find_pair_app.
  rewrite (kept_pair k (fun c sn => applyYAML c sn false) _ _ _ kn' v sv Hf); [|rewrite last_of_first; [done|]; inversion Hs; auto].
  simpl. apply IH; [|by eapply first_of_wf|done|by eexists].
  apply find_pair_elem, elem_of_pairs in Hf as [_ Hv]. inversion Hd as [? _ _ _ Hc]; subst.
  rewrite Forall_forall in Hc. by apply Hc.
Qed.

(** So does filling in the defaults. *)
Lemma fillMissing_noted p dst kn tmpl c :
  fillable dst -> wf tmpl -> noted p kn dst = Some c -> noted p kn (fillMissing dst tmpl) = Some c.
Proof.
  revert dst kn tmpl c. induction p as [|k p IH]; intros dst kn tmpl c Hd Ht; simpl.
  { rewrite fillMissing_eq by (done || by inversion Hd). by destruct (n_Kind dst), (n_Kind tmpl). }
  unfold is_kind at 1. case_bool_decide as Hk; [|done]. intros ([kn' v] & Hf & Hn)%bind_Some.
  rewrite fillMissing_eq by (done || by inversion Hd). rewrite Hk.
  destruct (n_Kind tmpl) eqn:Etk; try (unfold is_kind; rewrite Hk; simpl; by rewrite Hf).
  unfold is_kind. simpl. rewrite Hk. simpl. unfold fill_kids. rewrite pairs_unpairs, kid_pairs, find_pair_app.
  destruct (fill_pair k fillMissing (pairs (n_Content tmpl)) _ _ _ Hf) as (v' & -> & Hv'). simpl.
  destruct Hv' as [->|(tv & Htv & ->)]; [done|]. apply IH; [|by eapply first_of_wf|done].
  inversion Hd as [? _ Hc]; subst. destruct (Hc Hk) as [_ Hc']. rewrite Forall_forall in Hc'.
  apply find_pair_elem in Hf. by apply (Hc' (kn', v)).
Qed.

(** And the schema comment is the only one dropped. *)
Definition strip_comments (c : Comments) : Comments :=
  (stripSchemaCommentText c.1.1, stripSchemaCommentText c.1.2, stripSchemaCommentText c.2).
Lemma strip_noted p kn v c :
  noted p kn v = Some c ->
  noted p (stripSchemaComments kn) (stripSchemaComments v) = Some (strip_comments c.1, strip_comments c.2).
Proof.
  revert kn v. induction p as [|k p IH]; intros kn v; simpl; [intros [= <-]; by destruct kn, v|].
  destruct v as [kind st tg vl an hc lc fc content]. unfold is_kind. simpl.
  case_bool_decide; [|done]. intros ([kn' v] & Hf & Hn)%bind_Some. rewrite pairs_map.
  assert (find_pair k ((fun p => (stripSchemaComments p.1, stripSchemaComments p.2)) <$> pairs content) =
    Some (stripSchemaComments kn', stripSchemaComments v)) as ->; [|by apply IH].
  unfold find_pair in *. induction (pairs content) as [|[k1 v1] ps IHp]; [done|]. rewrite fmap_cons. simpl in *.
  assert (n_Value (stripSchemaComments k1) = n_Value k1) as -> by by destruct k1.
  destruct (String.eqb (n_Value k1) k); [by injection Hf as -> ->|by apply IHp].
Qed.

(** * The written document *)

Section Written.
Context (Encode_config : Config -> result node) (Unmarshal : string -> result node).

Definition defaults : val := val_of defaultUserConfig.
Definition sync_enabled : list string := ["sync"; "enabled"]%string.

Lemma applyYAML_document d src keep : wf src ->
  forall n, n_Kind n = DocumentNode -> n_Content n = [d] -> val_of (applyYAML n src keep) = val_of (applyYAML d src keep) /\
  n_Kind (applyYAML n src keep) = DocumentNode /\ n_Content (applyYAML n src keep) = [applyYAML d src keep].
Proof.
  intros Hs [kind st tg vl an hc lc fc content]. simpl. intros -> ->. rewrite (unwrapDoc_wf _ Hs). done.
Qed.

(** The leaves of the written document: those of the configuration, defaults
    for what it does not say, and on the first write the effective value of
    [sync.enabled]. *)
Definition written (c : Config) (first : bool) (fresh out : val) : Prop :=
  (forall p w, vget p fresh = Some w -> leaf w -> vget p out = Some w) /\
  (forall p w, vget p out = Some w -> leaf w ->
     vget p fresh = Some w \/ vget p defaults = Some w \/
     (first = true /\ sy_Enabled (cf_Sync c) = None /\ p = sync_enabled /\
      w = bool_val (Sync_IsEnabled (cf_Sync c)))).

Lemma first_write c fresh :
  wf fresh -> (sy_Enabled (cf_Sync c) = None -> vget sync_enabled (val_of fresh) = None) ->
  written c true (val_of fresh)
    (val_of (match sy_Enabled (cf_Sync c) with
             | None => setMappingBool (applyYAML defaultConfigNode fresh true) sync_enabled (Sync_IsEnabled (cf_Sync c))
             | Some _ => applyYAML defaultConfigNode fresh true
             end)).
Proof.
  intros Hf Hnone. destruct (applyYAML_document defaultUserConfig fresh true Hf defaultConfigNode eq_refl eq_refl) as (Hv & Hk & Hc).
  destruct (applyYAML_filled _ defaults_wf defaults_flat fresh Hf) as [H1 H2].
  destruct (sy_Enabled (cf_Sync c)) eqn:E.
  { rewrite Hv. split; [done|]. intros p w Hp Hl. destruct (H2 p w Hp Hl); auto. }
  unfold setMappingBool. rewrite Hk, Hc. rewrite (val_of_document (set_Content _ _) _ Hk eq_refl).
  destruct (set_bool_vget sync_enabled (Sync_IsEnabled (cf_Sync c)) (applyYAML defaultUserConfig fresh true) ltac:(done))
    as [S1 S2]. split.
  - intros p w Hp Hl. apply S2; [done| |auto]. intros Hpre. destruct (vget_prefix _ _ _ _ Hpre Hp) as [? Hx].
    by rewrite Hnone in Hx.
  - intros p w Hp Hl. destruct (S1 p w Hl Hp) as [[-> ->]|Hp']; [by right; right|]. destruct (H2 p w Hp' Hl); auto.
Qed.

Lemma fillMissing_document d tmpl n :
  wf tmpl -> n_Kind n = DocumentNode -> n_Content n = [d] ->
  val_of (fillMissing n (document tmpl)) = val_of (fillMissing d tmpl).
Proof. intros Ht. destruct n as [kind st tg vl an hc lc fc content]. simpl. by intros -> ->. Qed.

Lemma update_write c fresh old d :
  wf fresh -> wf d -> n_Kind old = DocumentNode -> n_Content old = [d] ->
  written c false (val_of fresh) (val_of (fillMissing (applyYAML old fresh false) defaultConfigNode)).
Proof.
  intros Hf Hd Hk Hc. destruct (applyYAML_document d fresh false Hf old Hk Hc) as (_ & Hk' & Hc').
  unfold defaultConfigNode. rewrite (fillMissing_document _ _ _ defaults_wf Hk' Hc').
  destruct (fillMissing_filled _ (applyYAML_fillable d Hd fresh Hf) _ defaults_wf) as [H1 H2].
  rewrite applyYAML_val in H1, H2 by done. split; [exact H1|].
  intros p w Hp Hl. destruct (H2 p w Hp Hl); auto.
Qed.

(** The comments of a document that stay when it is updated. *)
Lemma update_comments fresh old d :
  wf fresh -> wf d -> n_Kind old = DocumentNode -> n_Content old = [d] ->
  exists d', n_Content (stripSchemaComments (fillMissing (applyYAML old fresh false) defaultConfigNode)) = [d'] /\
    forall p c, noted p d d = Some c -> is_Some (vget p (val_of fresh)) ->
      noted p d' d' = Some (strip_comments c.1, strip_comments c.2).
Proof.
  intros Hf Hd Hk Hc. destruct (applyYAML_document d fresh false Hf old Hk Hc) as (_ & Hk' & Hc').
  exists (stripSchemaComments (fillMissing (applyYAML d fresh false) defaultUserConfig)). split.
  { destruct (applyYAML old fresh false) as [kind st tg vl an hc lc fc content]. simpl in *. by rewrite Hk', Hc'. }
  intros p c Hn Hp. apply (strip_noted p (fillMissing (applyYAML d fresh false) defaultUserConfig)).
  apply (applyYAML_noted p d d fresh c Hd Hf) in Hn; [|done].
  apply (fillMissing_noted p _ d defaultUserConfig c (applyYAML_fillable d Hd fresh Hf) defaults_wf) in Hn.
  destruct p as [|k p]; [|done]. rewrite <- Hn. simpl. do 2 f_equal.
  assert (comments (fillMissing (applyYAML d fresh false) defaultUserConfig) = comments (applyYAML d fresh false)) as ->.
  { rewrite fillMissing_eq; [|apply defaults_wf|by destruct (applyYAML_fillable d Hd fresh Hf)].
    by destruct (n_Kind (applyYAML d fresh false)), (n_Kind defaultUserConfig). }
  apply applyYAML_comments; [done|by inversion Hd].
Qed.

(** C33: Saving writes the configuration and nothing else into the user's file: whatever the old
    file said, every value of the configuration is at its key in the written document, in an
    unordered, commented and hand-edited one too; every other value is the default of its key,
    except that the first write states whether synchronization is in effect. The comments of the old
    document stay with every key the configuration has, the schema comment apart. *)
Theorem written_configuration c existing fresh :
  Encode_config c = Ok fresh -> wf fresh ->
  (sy_Enabled (cf_Sync c) = None -> vget sync_enabled (val_of fresh) = None) ->
  (str_empty (trim_space existing) = false ->
   exists old d, Unmarshal existing = Ok old /\ n_Kind old = DocumentNode /\ n_Content old = [d] /\ wf d) ->
  exists tree, userTree Encode_config Unmarshal c existing = Ok tree /\
    written c (str_empty (trim_space existing)) (val_of fresh) (val_of (stripSchemaComments tree)) /\
    forall old d, str_empty (trim_space existing) = false -> Unmarshal existing = Ok old -> n_Content old = [d] ->
      exists d', n_Content (stripSchemaComments tree) = [d'] /\
        forall p c, noted p d d = Some c -> is_Some (vget p (val_of fresh)) ->
          noted p d' d' = Some (strip_comments c.1, strip_comments c.2).
Proof.
  intros Henc Hf Hnone Hold. unfold userTree. rewrite Henc. simpl.
  destruct (str_empty (trim_space existing)).
  - eexists. split; [done|]. rewrite val_of_strip. split; [by apply first_write|done].
  - destruct (Hold eq_refl) as (old & d & -> & Hk & Hc & Hd). eexists. split; [done|]. rewrite val_of_strip.
    unfold is_kind. rewrite Hk, Hc. simpl. split; [by eapply update_write|].
    intros ? ? _ [= <-] [= <-]%(eq_trans (eq_sym Hc)). by apply update_comments.
Qed.
End Written.

(** * The credentials of rclone

    Moved out of the portable directory: never lost, never overwritten, and
    moved once. *)
Theorem rclone_config_moved env can_rename fs :
  let src := legacyRcloneConfigPath env in
  let dst := RcloneConfigPath env in
  let fs' := (MigrateRcloneConfig env can_rename fs).1 in
  (MigrateRcloneConfig env can_rename fs).2 = Ok tt /\
  (forall p, p <> src -> p <> dst -> fs' !! p = fs !! p) /\
  (rcloneConfHasContent fs dst = true -> fs' = fs) /\
  (src <> dst -> rcloneConfHasContent fs dst = false -> forall data, fs !! src = Some data ->
     fs' !! dst = Some data /\ fs' !! src = None) /\
  LeftoverPortableRcloneConfig env fs' = (if rcloneConfHasContent fs dst then LeftoverPortableRcloneConfig env fs else None) /\
  (MigrateRcloneConfig env can_rename fs').1 = fs'.
Proof.
  cbv zeta. unfold MigrateRcloneConfig, LeftoverPortableRcloneConfig, rcloneConfHasContent.
  set (src := legacyRcloneConfigPath env). set (dst := RcloneConfigPath env).
  destruct (String.eqb_spec src dst) as [E|Hne].
  { split_and!; try done. destruct (match fs !! dst with Some d => negb (str_empty d) | None => false end); done. }
  destruct (match fs !! dst with Some d => negb (str_empty d) | None => false end) eqn:Hdst.
  { simpl. rewrite ?Hdst. by split_and!. }
  destruct (fs !! src) as [data|] eqn:Hsrc; simpl; [|rewrite ?Hdst, ?Hsrc; by split_and!].
  assert ((if can_rename then <[dst := data]> (delete src fs) else delete src (<[dst := data]> fs)) =
    <[dst := data]> (delete src fs)) as Heq.
  { destruct can_rename; [done|]. by rewrite delete_insert_ne. }
  replace (if can_rename then (<[dst := data]> (delete src fs), Ok tt) else (delete src (<[dst := data]> fs), Ok tt))
    with (<[dst := data]> (delete src fs), Ok tt : result unit) by (by rewrite <- Heq; destruct can_rename).
  assert (<[dst := data]> (delete src fs) !! src = None) as Hs by (rewrite lookup_insert_ne by done; apply lookup_delete_eq).
  simpl. rewrite lookup_insert_eq, Hs. split_and!; try done.
  - intros p Hp1 Hp2. by rewrite lookup_insert_ne, lookup_delete_ne.
  - by destruct (negb (str_empty data)).
Qed.
