(* ===== verification/Picker.v ===== *)
(** [internal/tui/picker]: the folder browser of the configuration wizard, as a
    state machine over key presses and listings that arrive late ([model.go]),
    with its checks on names and protected paths ([safety.go]), the completion
    of a typed path ([autocomplete.go]) and the classification of the chosen
    folder ([dest.go]). The text fields are a parameter; drawing is not
    modelled. *)

From S2P Require Import Prelude Text Utf8 Config Keys Transport Repository.
From Stdlib Require Import Ascii.

(** ** [fs.go] *)

Record Entry := mkEntry { en_Name : string; en_Path : string; en_IsDir : bool; en_IsSymlink : bool; en_Inaccessible : bool; en_DisplaySuffix : string }.
Record Capabilities := mkCapabilities { cap_Mkdir : bool; cap_Rename : bool; cap_Remove : bool; cap_Expensive : bool }.

Class BrowserFS (W : Type) := {
  fs_Current : W -> string;
  fs_SetCurrent : string -> W -> W;
  fs_List : string -> W -> result (list Entry);
  fs_Mkdir : string -> M W unit;
  fs_Rename : string -> string -> M W unit;
  fs_Remove : string -> bool -> M W unit;
  fs_Join : list string -> string;
  fs_Parent : string -> string;
  fs_Stat : string -> W -> result Entry;
  fs_IsEmpty : string -> W -> result bool;
  fs_CountChildren : string -> Z -> W -> Z * bool;
  fs_Capabilities : W -> Capabilities;
}.
#[global] Hint Mode BrowserFS ! : typeclass_instances.

(** ** [safety.go], on a system with slashes *)

Definition ValidateDirName (name : string) : result unit :=
  if str_empty name then Fail (EMsg "name is empty")
  else if str_has NUL name then Fail (EMsg "name contains NUL")
  else if str_has "/" name || str_has "\" name then Fail (EMsg "name must not contain a path separator")
  else if String.eqb name "." || String.eqb name ".." then Fail (EMsg "invalid name")
  else if negb (ValidString name) then Fail (EMsg "name is not valid UTF-8")
  else Ok tt.

Definition IsFSRoot (path : string) : bool := String.eqb (path_clean path) "/".
Definition hiddenName (name : string) : bool := has_prefix "." name && negb (String.eqb name ".") && negb (String.eqb name "..").

(** ** [dest.go] *)

Inductive DestKind := DestEmpty | DestUnrelated | DestValidRepo | DestPartialRepo | DestUnsupported | DestRemnixSubdirExists.
#[global] Instance DestKind_eq_dec : EqDecision DestKind.
Proof. solve_decision. Defined.
Inductive DestChoice :=
  ChoiceUse | ChoiceCreateSubfolder | ChoiceSelectAnother | ChoiceProceedAnyway | ChoiceJoin | ChoiceChooseSubfolderName | ChoiceInspect | ChoiceCancel.
#[global] Instance DestChoice_eq_dec : EqDecision DestChoice.
Proof. solve_decision. Defined.
Record DestReport := mkDestReport { dr_Kind : DestKind; dr_Path : string; dr_Probe : Report; dr_Subdir : string; dr_HasSubdir : bool }.
Definition noReport : DestReport := mkDestReport DestEmpty "" (mkReport Empty "") "" false.

Definition ChoicesFor (kind : DestKind) : list DestChoice :=
  match kind with
  | DestEmpty => [ChoiceUse; ChoiceSelectAnother; ChoiceCancel]
  | DestUnrelated => [ChoiceCreateSubfolder; ChoiceSelectAnother; ChoiceProceedAnyway; ChoiceCancel]
  | DestRemnixSubdirExists => [ChoiceUse; ChoiceSelectAnother; ChoiceChooseSubfolderName; ChoiceCancel]
  | DestValidRepo => [ChoiceJoin; ChoiceSelectAnother; ChoiceCancel]
  | DestPartialRepo | DestUnsupported => [ChoiceInspect; ChoiceSelectAnother; ChoiceCancel]
  end.

(** ** [model.go]: the state *)

Inductive mode :=
  modeBrowse | modeFilter | modeMkdir | modeRename | modeDeleteEmpty | modeDeleteRecursive | modeDest | modeHelp | modePath.
#[global] Instance mode_eq_dec : EqDecision mode.
Proof. solve_decision. Defined.

Record Result := mkResult { rs_Path : string; rs_Canceled : bool; rs_Join : bool; rs_Choice : DestChoice }.
Record Options := mkOptions { op_Title : string; op_Start : string; op_ConfirmDest : bool; op_CreateMode : bool }.

Record Model {TI : Type} := mkModel {
  m_opts : Options; m_path : TI; m_prompt : TI; m_entries : list Entry; m_visible : list Entry; m_cursor : Z;
  m_showHidden : bool; m_filter : string; m_mode : mode; m_status : string; m_errMsg : string; m_width : Z; m_height : Z;
  m_selected : string; m_quitting : bool; m_canceled : bool; m_join : bool; m_choice : DestChoice; m_dest : DestReport;
  m_destChoices : list DestChoice; m_destCursor : Z; m_pendingDel : string;
}.
Arguments Model : clear implicits.
Arguments mkModel {TI}.

(** What the model asks of the program that runs it. *)
Inductive Cmd := NoCmd | Quit | ListCmd (path : string) | FocusCmd.
(** The writes to the file system. *)
Inductive FsOp := OpMkdir (path : string) | OpRename (old new : string) | OpRemove (path : string) (recursive : bool).
#[global] Instance FsOp_eq_dec : EqDecision FsOp.
Proof. solve_decision. Defined.

(** ** Assignments to the fields *)

Section Setters.
Context {TI : Type}.
Definition set_path (u : TI) (m : Model TI) : Model TI :=
  mkModel (m_opts m) u (m_prompt m) (m_entries m) (m_visible m) (m_cursor m) (m_showHidden m) (m_filter m) (m_mode m) (m_status m) (m_errMsg m)
    (m_width m) (m_height m) (m_selected m) (m_quitting m) (m_canceled m) (m_join m) (m_choice m) (m_dest m) (m_destChoices m) (m_destCursor m)
    (m_pendingDel m).
Definition set_prompt (u : TI) (m : Model TI) : Model TI :=
  mkModel (m_opts m) (m_path m) u (m_entries m) (m_visible m) (m_cursor m) (m_showHidden m) (m_filter m) (m_mode m) (m_status m) (m_errMsg m)
    (m_width m) (m_height m) (m_selected m) (m_quitting m) (m_canceled m) (m_join m) (m_choice m) (m_dest m) (m_destChoices m) (m_destCursor m)
    (m_pendingDel m).
Definition set_entries (u : list Entry) (m : Model TI) : Model TI :=
  mkModel (m_opts m) (m_path m) (m_prompt m) u (m_visible m) (m_cursor m) (m_showHidden m) (m_filter m) (m_mode m) (m_status m) (m_errMsg m)
    (m_width m) (m_height m) (m_selected m) (m_quitting m) (m_canceled m) (m_join m) (m_choice m) (m_dest m) (m_destChoices m) (m_destCursor m)
    (m_pendingDel m).
Definition set_visible (u : list Entry) (m : Model TI) : Model TI :=
  mkModel (m_opts m) (m_path m) (m_prompt m) (m_entries m) u (m_cursor m) (m_showHidden m) (m_filter m) (m_mode m) (m_status m) (m_errMsg m)
    (m_width m) (m_height m) (m_selected m) (m_quitting m) (m_canceled m) (m_join m) (m_choice m) (m_dest m) (m_destChoices m) (m_destCursor m)
    (m_pendingDel m).
Definition set_cursor (u : Z) (m : Model TI) : Model TI :=
  mkModel (m_opts m) (m_path m) (m_prompt m) (m_entries m) (m_visible m) u (m_showHidden m) (m_filter m) (m_mode m) (m_status m) (m_errMsg m)
    (m_width m) (m_height m) (m_selected m) (m_quitting m) (m_canceled m) (m_join m) (m_choice m) (m_dest m) (m_destChoices m) (m_destCursor m)
    (m_pendingDel m).
Definition set_showHidden (u : bool) (m : Model TI) : Model TI :=
  mkModel (m_opts m) (m_path m) (m_prompt m) (m_entries m) (m_visible m) (m_cursor m) u (m_filter m) (m_mode m) (m_status m) (m_errMsg m)
    (m_width m) (m_height m) (m_selected m) (m_quitting m) (m_canceled m) (m_join m) (m_choice m) (m_dest m) (m_destChoices m) (m_destCursor m)
    (m_pendingDel m).
Definition set_filter (u : string) (m : Model TI) : Model TI :=
  mkModel (m_opts m) (m_path m) (m_prompt m) (m_entries m) (m_visible m) (m_cursor m) (m_showHidden m) u (m_mode m) (m_status m) (m_errMsg m)
    (m_width m) (m_height m) (m_selected m) (m_quitting m) (m_canceled m) (m_join m) (m_choice m) (m_dest m) (m_destChoices m) (m_destCursor m)
    (m_pendingDel m).
Definition set_mode (u : mode) (m : Model TI) : Model TI :=
  mkModel (m_opts m) (m_path m) (m_prompt m) (m_entries m) (m_visible m) (m_cursor m) (m_showHidden m) (m_filter m) u (m_status m) (m_errMsg m)
    (m_width m) (m_height m) (m_selected m) (m_quitting m) (m_canceled m) (m_join m) (m_choice m) (m_dest m) (m_destChoices m) (m_destCursor m)
    (m_pendingDel m).
Definition set_status (u : string) (m : Model TI) : Model TI :=
  mkModel (m_opts m) (m_path m) (m_prompt m) (m_entries m) (m_visible m) (m_cursor m) (m_showHidden m) (m_filter m) (m_mode m) u (m_errMsg m)
    (m_width m) (m_height m) (m_selected m) (m_quitting m) (m_canceled m) (m_join m) (m_choice m) (m_dest m) (m_destChoices m) (m_destCursor m)
    (m_pendingDel m).
Definition set_errMsg (u : string) (m : Model TI) : Model TI :=
  mkModel (m_opts m) (m_path m) (m_prompt m) (m_entries m) (m_visible m) (m_cursor m) (m_showHidden m) (m_filter m) (m_mode m) (m_status m) u
    (m_width m) (m_height m) (m_selected m) (m_quitting m) (m_canceled m) (m_join m) (m_choice m) (m_dest m) (m_destChoices m) (m_destCursor m)
    (m_pendingDel m).
Definition set_selected (u : string) (m : Model TI) : Model TI :=
  mkModel (m_opts m) (m_path m) (m_prompt m) (m_entries m) (m_visible m) (m_cursor m) (m_showHidden m) (m_filter m) (m_mode m) (m_status m)
    (m_errMsg m) (m_width m) (m_height m) u (m_quitting m) (m_canceled m) (m_join m) (m_choice m) (m_dest m) (m_destChoices m) (m_destCursor m)
    (m_pendingDel m).
Definition set_choice (u : DestChoice) (m : Model TI) : Model TI :=
  mkModel (m_opts m) (m_path m) (m_prompt m) (m_entries m) (m_visible m) (m_cursor m) (m_showHidden m) (m_filter m) (m_mode m) (m_status m)
    (m_errMsg m) (m_width m) (m_height m) (m_selected m) (m_quitting m) (m_canceled m) (m_join m) u (m_dest m) (m_destChoices m) (m_destCursor m)
    (m_pendingDel m).
Definition set_destCursor (u : Z) (m : Model TI) : Model TI :=
  mkModel (m_opts m) (m_path m) (m_prompt m) (m_entries m) (m_visible m) (m_cursor m) (m_showHidden m) (m_filter m) (m_mode m) (m_status m)
    (m_errMsg m) (m_width m) (m_height m) (m_selected m) (m_quitting m) (m_canceled m) (m_join m) (m_choice m) (m_dest m) (m_destChoices m) u
    (m_pendingDel m).
Definition set_pendingDel (u : string) (m : Model TI) : Model TI :=
  mkModel (m_opts m) (m_path m) (m_prompt m) (m_entries m) (m_visible m) (m_cursor m) (m_showHidden m) (m_filter m) (m_mode m) (m_status m)
    (m_errMsg m) (m_width m) (m_height m) (m_selected m) (m_quitting m) (m_canceled m) (m_join m) (m_choice m) (m_dest m) (m_destChoices m)
    (m_destCursor m) u.
Definition set_size (v0 : Z) (v1 : Z) (m : Model TI) : Model TI :=
  mkModel (m_opts m) (m_path m) (m_prompt m) (m_entries m) (m_visible m) (m_cursor m) (m_showHidden m) (m_filter m) (m_mode m) (m_status m)
    (m_errMsg m) v0 v1 (m_selected m) (m_quitting m) (m_canceled m) (m_join m) (m_choice m) (m_dest m) (m_destChoices m) (m_destCursor m)
    (m_pendingDel m).
Definition set_ended (v0 : bool) (v1 : bool) (m : Model TI) : Model TI :=
  mkModel (m_opts m) (m_path m) (m_prompt m) (m_entries m) (m_visible m) (m_cursor m) (m_showHidden m) (m_filter m) (m_mode m) (m_status m)
    (m_errMsg m) (m_width m) (m_height m) (m_selected m) v0 v1 (m_join m) (m_choice m) (m_dest m) (m_destChoices m) (m_destCursor m)
    (m_pendingDel m).
Definition set_join (u : bool) (m : Model TI) : Model TI :=
  mkModel (m_opts m) (m_path m) (m_prompt m) (m_entries m) (m_visible m) (m_cursor m) (m_showHidden m) (m_filter m) (m_mode m) (m_status m)
    (m_errMsg m) (m_width m) (m_height m) (m_selected m) (m_quitting m) (m_canceled m) u (m_choice m) (m_dest m) (m_destChoices m) (m_destCursor
    m) (m_pendingDel m).
Definition set_destination (v0 : DestReport) (v1 : list DestChoice) (v2 : Z) (m : Model TI) : Model TI :=
  mkModel (m_opts m) (m_path m) (m_prompt m) (m_entries m) (m_visible m) (m_cursor m) (m_showHidden m) (m_filter m) (m_mode m) (m_status m)
    (m_errMsg m) (m_width m) (m_height m) (m_selected m) (m_quitting m) (m_canceled m) (m_join m) (m_choice m) v0 v1 v2 (m_pendingDel m).
End Setters.

(** ** The operations *)

Section Picker.
Context {W TI Key : Type} `{BrowserFS W} `{TextInput TI Key}.
(** [strings.ToLower], the verb [%q] and the text of an error *)
Context (ToLower Quote : string -> string) (Error_text : error -> string).
(** The environment, [filepath.Abs], [filepath.EvalSymlinks]; [repository.Probe]
    over [directory.New(path)], and whether [os.Stat] finds a directory. *)
Context (env : Env) (os_Abs : string -> result string) (EvalSymlinks : W -> string -> result string).
Context (probe_at : W -> string -> result Report) (stat_IsDir : W -> string -> bool).

Definition ProtectedPaths : list string :=
  match env_UserHomeDir env with Ok home => if str_empty home then [] else [path_clean home] | Fail _ => [] end ++
  [path_clean (ConfigDir env); path_clean (DataDir env)].
Definition absolute (path : string) : string := match os_Abs path with Ok p => p | Fail _ => path_clean path end.
Definition IsProtected (path : string) : bool :=
  IsFSRoot (absolute path) || existsb (String.eqb (absolute path)) ProtectedPaths.
Definition CanDelete (w : W) (path : string) : result unit :=
  let cleaned := absolute path in
  let refuse p := Fail (EMsg ("refusing to delete protected path " +:+ p)) in
  let rest := if IsProtected cleaned then refuse cleaned else Ok tt in
  match EvalSymlinks w (path_dir cleaned) with
  | Ok canon =>
      let joined := path_join [canon; path_base cleaned] in
      if IsProtected joined || IsFSRoot joined then refuse joined else rest
  | Fail _ => rest
  end.

Definition ClassifyDest (w : W) (path : string) : result DestReport :=
  let abs := match os_Abs path with Ok p => p | Fail _ => path end in
  rep ← probe_at w abs;
  let report kind := Ok (mkDestReport kind abs rep "" false) in
  match rp_Result rep with
  | Empty => report DestEmpty
  | Valid => report DestValidRepo
  | Partial => report DestPartialRepo
  | UnsupportedVersion => report DestUnsupported
  | Unrelated =>
      let sub := path_join [abs; "remnix"%string] in
      if negb (stat_IsDir w sub) then report DestUnrelated
      else
        match probe_at w sub with
        | Ok subRep => if bool_decide (rp_Result subRep = Valid) then Ok (mkDestReport DestRemnixSubdirExists abs subRep sub true)
                       else Ok (mkDestReport DestUnrelated abs rep sub true)
        | Fail _ => Ok (mkDestReport DestUnrelated abs rep sub true)
        end
  end.

(** ** [autocomplete.go] *)

Definition ExpandPath (s : string) : string := Expand env (trim_space s).

Fixpoint common_len (a b : string) : nat :=
  match a, b with
  | String c a, String d b => if Ascii.eqb c d then Datatypes.S (common_len a b) else O
  | _, _ => O
  end.
(** [None] is the panic of [p[:i]] when lowering made [p] longer. *)
Fixpoint common_prefix (p : string) (names : list string) : option string :=
  match names with
  | [] => Some p
  | n :: names =>
      let i := common_len (ToLower p) (ToLower n) in
      if (String.length p <? i)%nat then None
      else let p := str_take i p in
           if str_empty p then Some EmptyString else common_prefix p names
  end.
Definition longestCommonPrefix (names : list string) : option string :=
  match names with [] => Some EmptyString | n :: names => common_prefix n names end.

(** The outer [None] is that panic. *)
Definition Complete (w : W) (typed : string) (showHidden : bool) : option (result (string * list string)) :=
  let typed := trim_space typed in
  let expanded := ExpandPath typed in
  let '(dir, prefix) := if has_suffix "/" typed then (expanded, EmptyString)
                        else (fs_Parent (W := W) expanded, ToLower (path_base expanded)) in
  let dir := if str_empty dir then match env_UserHomeDir env with Ok home => home | Fail _ => EmptyString end else dir in
  match fs_List dir w with
  | Fail e => Some (Fail e)
  | Ok entries =>
      let keep e := en_IsDir e && negb (negb showHidden && hiddenName (en_Name e)) &&
                    (str_empty prefix || has_prefix prefix (ToLower (en_Name e))) in
      let matches := en_Name <$> List.filter keep entries in
      match matches with
      | [one] => Some (Ok (fs_Join (W := W) [dir; one] +:+ "/", matches))%string
      | _ :: _ =>
          if str_empty prefix then Some (Ok (typed, matches))
          else common ← longestCommonPrefix matches;
               Some (Ok (if (String.length prefix <? String.length common)%nat then fs_Join (W := W) [dir; common] else typed, matches))
      | [] => Some (Ok (typed, matches))
      end
  end.

(** ** [model.go]: listings *)

(** The model, the file system it browses, and the writes made so far. *)
Record St := mkSt { st_m : Model TI; st_fs : W; st_ops : list FsOp }.
Definition on (f : Model TI -> Model TI) (s : St) : St := mkSt (f (st_m s)) (st_fs s) (st_ops s).
Definition enter (path : string) (s : St) : St := mkSt (st_m s) (fs_SetCurrent path (st_fs s)) (st_ops s).
Definition fs_write (op : FsOp) : M W unit :=
  match op with OpMkdir p => fs_Mkdir p | OpRename a b => fs_Rename a b | OpRemove p r => fs_Remove p r end.
Definition write (op : FsOp) (s : St) : St * result unit :=
  let '(w, r) := fs_write op (st_fs s) in (mkSt (st_m s) w (st_ops s ++ [op]), r).

Definition Selected (m : Model TI) : Result := mkResult (m_selected m) (m_canceled m) (m_join m) (m_choice m).

Definition listed (m : Model TI) (e : Entry) : bool :=
  let q := ToLower (m_filter m) in
  negb (negb (m_showHidden m) && hiddenName (en_Name e)) && (str_empty q || contains q (ToLower (en_Name e))).
Definition applyFilter (w : W) (m : Model TI) : Model TI :=
  let cur := fs_Current w in
  let parent := fs_Parent (W := W) cur in
  let up := if String.eqb parent cur then [] else [mkEntry ".." parent true false false "/"] in
  let visible := up ++ List.filter (listed m) (m_entries m) in
  let n := Z.of_nat (length visible) in
  let cursor := if n <=? m_cursor m then n - 1 else m_cursor m in
  set_cursor (if cursor <? 0 then 0 else cursor) (set_visible visible m).
Definition refilter (s : St) : St := on (applyFilter (st_fs s)) s.

Definition cannot_open (e : error) : string := ("Cannot open directory: " +:+ Error_text e)%string.
Definition reloadSync (s : St) : St :=
  let cur := fs_Current (st_fs s) in
  match fs_List cur (st_fs s) with
  | Fail e => on (fun m => set_visible [] (set_entries [] (set_errMsg (cannot_open e) m))) s
  | Ok entries =>
      on (fun m => let m := applyFilter (st_fs s) (set_entries entries (set_errMsg "" m)) in set_path (ti_SetValue cur (m_path m)) m) s
  end.
Definition reload (s : St) : St * Cmd :=
  if cap_Expensive (fs_Capabilities (st_fs s)) then
    (on (fun m => set_visible [] (set_entries [] (set_status "Listing..." m))) s, ListCmd (fs_Current (st_fs s)))
  else (reloadSync s, NoCmd).

Definition New (opts : Options) (w : W) : St :=
  let opts := mkOptions (if str_empty (op_Title opts) then "Select folder" else op_Title opts) (op_Start opts) (op_ConfirmDest opts) (op_CreateMode opts) in
  let start := ExpandPath (if str_empty (op_Start opts) then fs_Current w else op_Start opts) in
  let w := fs_SetCurrent start w in
  let m := mkModel opts (ti_Focus (ti_SetValue start ti_New)) ti_New [] [] 0 false "" modeBrowse "" "" 80 24 "" false false false ChoiceUse noReport [] 0 "" in
  let s := mkSt m w [] in
  if cap_Expensive (fs_Capabilities w) then on (set_status "Listing...") s else reloadSync s.
Definition Init (s : St) : Cmd := if cap_Expensive (fs_Capabilities (st_fs s)) then ListCmd (fs_Current (st_fs s)) else FocusCmd.

(** ** [model.go]: keys *)

Definition status (text : string) (s : St) : St * Cmd := (on (set_status text) s, NoCmd).
Definition highlighted (m : Model TI) : option Entry := if m_cursor m <? 0 then None else m_visible m !! Z.to_nat (m_cursor m).

Definition beginPrompt (md : mode) (title value : string) (s : St) : St * Cmd :=
  (on (fun m => let m := set_status title (set_mode md m) in set_prompt (ti_Focus (ti_SetValue value (m_prompt m))) m) s, FocusCmd).

Definition createDir (name : string) (s : St) : St * Cmd :=
  let s := on (set_mode modeBrowse) s in
  match ValidateDirName name with
  | Fail e => status (Error_text e) s
  | Ok _ =>
      let p := fs_Join (W := W) [fs_Current (st_fs s); name] in
      match write (OpMkdir p) s with
      | (s, Fail e) => status (Error_text e) s
      | (s, Ok _) =>
          reload (on (fun m => set_status ("created " +:+ name +:+ " (now inside it; Space selects this folder)")
                                 (set_cursor 0 (set_path (ti_SetValue p (m_path m)) m))) (enter p s))
      end
  end.

Fixpoint index_named (name : string) (i : Z) (es : list Entry) : option Z :=
  match es with
  | [] => None
  | e :: es => if String.eqb (en_Name e) name then Some i else index_named name (i + 1) es
  end.
Definition focusNamed (name : string) (m : Model TI) : Model TI :=
  match index_named name 0 (m_visible m) with Some i => set_cursor i m | None => m end.

Definition beginRename (s : St) : St * Cmd :=
  match highlighted (st_m s) with
  | None => (s, NoCmd)
  | Some e =>
      if String.eqb (en_Name e) ".." then (s, NoCmd)
      else if IsProtected (en_Path e) || IsFSRoot (en_Path e) then status "cannot rename a protected path" s
      else beginPrompt modeRename "Rename:" (en_Name e) s
  end.
Definition renameSelected (name : string) (s : St) : St * Cmd :=
  let s := on (set_mode modeBrowse) s in
  match highlighted (st_m s) with
  | None => (s, NoCmd)
  | Some e =>
      match ValidateDirName name with
      | Fail err => status (Error_text err) s
      | Ok _ =>
          match write (OpRename (en_Path e) (fs_Join (W := W) [fs_Current (st_fs s); name])) s with
          | (s, Fail err) => status (Error_text err) s
          | (s, Ok _) => let '(s, cmd) := reload s in (on (focusNamed name) s, cmd)
          end
      end
  end.

Definition beginDelete (s : St) : St * Cmd :=
  match highlighted (st_m s) with
  | None => (s, NoCmd)
  | Some e =>
      if String.eqb (en_Name e) ".." then (s, NoCmd)
      else match CanDelete (st_fs s) (en_Path e) with
           | Fail err => status (Error_text err) s
           | Ok _ =>
               let s := on (set_pendingDel (en_Path e)) s in
               match fs_IsEmpty (en_Path e) (st_fs s) with
               | Fail err => status (Error_text err) s
               | Ok true => (on (fun m => set_status ("Delete " +:+ Quote (en_Name e) +:+ "?") (set_mode modeDeleteEmpty m)) s, NoCmd)
               | Ok false =>
                   let '(n, exact) := fs_CountChildren (en_Path e) 5000 (st_fs s) in
                   let extra := if exact then (sprint_d n +:+ " entries")%string else "contents (count truncated)"%string in
                   beginPrompt modeDeleteRecursive
                     (Quote (en_Name e) +:+ " is not empty (" +:+ extra +:+ "). Type the folder name to confirm recursive delete:") "" s
               end
           end
  end.
Definition doDelete (recursive : bool) (s : St) : St * Cmd :=
  let s := on (set_mode modeBrowse) s in
  let p := m_pendingDel (st_m s) in
  match CanDelete (st_fs s) p with
  | Fail err => status (Error_text err) s
  | Ok _ =>
      match write (OpRemove p recursive) s with
      | (s, Fail err) => status (Error_text err) s
      | (s, Ok _) => reload (on (set_status ("deleted " +:+ path_base p)) s)
      end
  end.
Definition handleDeleteEmpty (key : string) (s : St) : St * Cmd :=
  if String.eqb key "esc" || String.eqb key "n" then (on (fun m => set_status "" (set_mode modeBrowse m)) s, NoCmd)
  else if String.eqb key "enter" || String.eqb key "y" then doDelete false s
  else (s, NoCmd).

Definition go_to (path : string) (s : St) : St * Cmd := reload (on (set_cursor 0) (enter path s)).
Definition goParent (s : St) : St * Cmd := go_to (fs_Parent (W := W) (fs_Current (st_fs s))) s.
Definition openOrJump (s : St) : St * Cmd :=
  let typed := trim_space (ti_Value (m_path (st_m s))) in
  let target := ExpandPath typed in
  if negb (str_empty typed) && negb (String.eqb target (fs_Current (st_fs s))) then
    match fs_Stat target (st_fs s) with
    | Fail e => status (cannot_open e) s
    | Ok e => if negb (en_IsDir e) then status "not a directory" s else go_to target s
    end
  else
    match highlighted (st_m s) with
    | None => (s, NoCmd)
    | Some e =>
        if negb (en_IsDir e) then (s, NoCmd)
        else if en_Inaccessible e then status "Cannot open directory: permission denied" s
        else go_to (en_Path e) s
    end.

Definition finishSelect (path : string) (s : St) : St * Cmd :=
  if negb (op_ConfirmDest (m_opts (st_m s))) then
    (on (fun m => set_ended true (m_canceled m) (set_choice ChoiceUse (set_selected path m))) s, Quit)
  else
    match ClassifyDest (st_fs s) path with
    | Fail e => status (Error_text e) s
    | Ok rep => (on (fun m => set_mode modeDest (set_destination rep (ChoicesFor (dr_Kind rep)) 0 m)) s, NoCmd)
    end.
Definition selectCurrent (s : St) : St * Cmd := finishSelect (fs_Current (st_fs s)) s.
Definition selectHighlighted (s : St) : St * Cmd :=
  match highlighted (st_m s) with
  | None => selectCurrent s
  | Some e =>
      if String.eqb (en_Name e) ".." then selectCurrent s
      else if negb (en_IsDir e) then (s, NoCmd)
      else finishSelect (en_Path e) s
  end.

(** [m.destChoices[m.destCursor]]; [None] is the panic of an index out of range. *)
Definition handleDest (key : string) (s : St) : option (St * Cmd) :=
  let m := st_m s in
  let leave f := Some (on (fun m => set_ended true (m_canceled m) (f m)) s, Quit) in
  if String.eqb key "esc" then Some (on (set_mode modeBrowse) s, NoCmd)
  else if String.eqb key "up" || String.eqb key "ctrl+p" then
    Some (if 0 <? m_destCursor m then on (set_destCursor (m_destCursor m - 1)) s else s, NoCmd)
  else if String.eqb key "down" || String.eqb key "ctrl+n" then
    Some (if m_destCursor m + 1 <? Z.of_nat (length (m_destChoices m)) then on (set_destCursor (m_destCursor m + 1)) s else s, NoCmd)
  else if String.eqb key "enter" then
    ch ← (if m_destCursor m <? 0 then None else m_destChoices m !! Z.to_nat (m_destCursor m));
    match ch with
    | ChoiceCancel => Some (on (set_ended true true) s, Quit)
    | ChoiceSelectAnother => Some (on (set_mode modeBrowse) s, NoCmd)
    | ChoiceJoin => leave (fun m => set_choice ch (set_join true (set_selected (dr_Path (m_dest m)) m)))
    | ChoiceCreateSubfolder =>
        let p := fs_Join (W := W) [dr_Path (m_dest m); "remnix"%string] in
        Some (on (fun m => set_ended true (m_canceled m) (set_choice ch (set_selected p m))) (write (OpMkdir p) s).1, Quit)
    | ChoiceUse =>
        leave (fun m => set_choice ch (set_selected
                 (if bool_decide (dr_Kind (m_dest m) = DestRemnixSubdirExists) then dr_Subdir (m_dest m) else dr_Path (m_dest m)) m))
    | ChoiceProceedAnyway => leave (fun m => set_choice ch (set_selected (dr_Path (m_dest m)) m))
    | ChoiceInspect | ChoiceChooseSubfolderName =>
        Some (on (fun m => set_choice ch (set_mode modeBrowse (set_status (rp_Message (dr_Probe (m_dest m))) m))) s, NoCmd)
    end
  else Some (s, NoCmd).

Definition completePath (s : St) : option (St * Cmd) :=
  r ← Complete (st_fs s) (ti_Value (m_path (st_m s))) (m_showHidden (st_m s));
  match r with
  | Fail e => Some (status (Error_text e) s)
  | Ok (done, matches) =>
      let s := on (fun m => set_path (ti_SetValue done (m_path m)) m) s in
      match matches with
      | [] => Some (s, NoCmd)
      | [_] =>
          match fs_Stat (trim_right slash (ExpandPath done)) (st_fs s) with
          | Ok e => if en_IsDir e then Some (reload (enter (en_Path e) s)) else Some (s, NoCmd)
          | Fail _ => Some (s, NoCmd)
          end
      | _ => Some (status (join_with "  " matches) s)
      end
  end.

Definition handlePrompt (k : Key) (s : St) : St * Cmd :=
  let key := key_String (TI := TI) k in
  let m := st_m s in
  if String.eqb key "esc" then (on (fun m => set_status "" (set_mode modeBrowse m)) s, NoCmd)
  else if String.eqb key "enter" then
    let val := trim_space (ti_Value (m_prompt m)) in
    match m_mode m with
    | modeFilter => (refilter (on (fun m => set_mode modeBrowse (set_filter val m)) s), NoCmd)
    | modePath => openOrJump (on (fun m => set_mode modeBrowse (set_path (ti_SetValue val (m_path m)) m)) s)
    | modeMkdir => createDir val s
    | modeRename => renameSelected val s
    | modeDeleteRecursive =>
        if String.eqb val (path_base (m_pendingDel m)) then doDelete true s
        else (on (fun m => set_mode modeBrowse (set_status "name did not match; delete cancelled" m)) s, NoCmd)
    | _ => (s, NoCmd)
    end
  else (on (fun m => set_prompt (ti_Update k (m_prompt m)) m) s, FocusCmd).

Definition browseKey (k : Key) (s : St) : option (St * Cmd) :=
  let key := key_String (TI := TI) k in
  let is_key := String.eqb key in
  let m := st_m s in
  if is_key "esc" then Some (on (set_ended true true) s, Quit)
  else if is_key "?" then Some (on (set_mode modeHelp) s, NoCmd)
  else if is_key "up" || is_key "ctrl+p" then Some (if 0 <? m_cursor m then on (set_cursor (m_cursor m - 1)) s else s, NoCmd)
  else if is_key "down" || is_key "ctrl+n" then
    Some (if m_cursor m + 1 <? Z.of_nat (length (m_visible m)) then on (set_cursor (m_cursor m + 1)) s else s, NoCmd)
  else if is_key "enter" then Some (openOrJump s)
  else if is_key " " || is_key "space" then Some (selectHighlighted s)
  else if is_key "ctrl+enter" then Some (selectCurrent s)
  else if is_key "tab" then completePath s
  else if is_key "ctrl+l" then Some (beginPrompt modePath "Path:" (fs_Current (st_fs s)) s)
  else if is_key "n" then Some (beginPrompt modeMkdir "New folder name:" "" s)
  else if is_key "r" then Some (beginRename s)
  else if is_key "d" then Some (beginDelete s)
  else if is_key "h" then Some (goParent s)
  else if is_key "." then Some (refilter (on (fun m => set_showHidden (negb (m_showHidden m)) m) s), NoCmd)
  else if is_key "/" then Some (beginPrompt modeFilter "Filter:" (m_filter m) s)
  else Some (on (fun m => set_path (ti_Update k (m_path m)) m) s, FocusCmd).

Definition handleKey (k : Key) (s : St) : option (St * Cmd) :=
  let key := key_String (TI := TI) k in
  if String.eqb key "ctrl+c" then Some (on (set_ended true true) s, Quit)
  else match m_mode (st_m s) with
       | modeHelp => Some (on (set_mode modeBrowse) s, NoCmd)
       | modeMkdir | modeRename | modeDeleteRecursive | modeFilter | modePath => Some (handlePrompt k s)
       | modeDeleteEmpty => Some (handleDeleteEmpty key s)
       | modeDest => handleDest key s
       | modeBrowse => browseKey k s
       end.

Inductive Msg := WindowSizeMsg (width height : Z) | ListedMsg (path : string) (r : result (list Entry)) | KeyReleaseMsg | KeyPressMsg (k : Key).

Definition Update (msg : Msg) (s : St) : option (St * Cmd) :=
  match msg with
  | WindowSizeMsg w h => Some (on (set_size (1 `max` w) (1 `max` h)) s, NoCmd)
  | ListedMsg path r =>
      if negb (String.eqb path (fs_Current (st_fs s))) then Some (s, NoCmd)
      else match r with
           | Fail e =>
               Some (on (fun m => set_status "type a path (Ctrl+L) or create a folder with n"
                                    (set_visible [] (set_entries [] (set_errMsg (cannot_open e) m)))) s, NoCmd)
           | Ok entries =>
               Some (on (fun m =>
                 let m := applyFilter (st_fs s) (set_entries entries (set_status "" (set_errMsg "" m))) in
                 set_path (ti_SetValue path (m_path m)) m) s, NoCmd)
           end
  | KeyReleaseMsg => Some (s, NoCmd)
  | KeyPressMsg k => handleKey k s
  end.
End Picker.
