(* ===== verification/PickerSpec.v ===== *)
(** What the folder browser promises, whatever keys are pressed, whenever
    listings arrive and whatever other processes do to the files: a folder is
    deleted only after it was highlighted, found deletable and confirmed, a
    damaged repository is never selected, and no key makes the program panic. *)

From S2P Require Import Prelude Text Utf8 Config Keys Transport Repository Picker.
From Stdlib Require Import Ascii.

Section PickerSpec.
Context {W TI Key : Type} `{BrowserFS W} `{TextInput TI Key}.
Context (ToLower Quote : string -> string) (Error_text : error -> string).
Context (env : Env) (os_Abs : string -> result string) (EvalSymlinks : W -> string -> result string).
Context (probe_at : W -> string -> result Report) (stat_IsDir : W -> string -> bool).
Notation St := (St (W := W) (TI := TI)).
Notation Update := (Update ToLower Quote Error_text env os_Abs EvalSymlinks probe_at stat_IsDir).
Notation handleKey := (handleKey ToLower Quote Error_text env os_Abs EvalSymlinks probe_at stat_IsDir).
Notation handlePrompt := (handlePrompt ToLower Error_text env os_Abs EvalSymlinks).
Notation browseKey := (browseKey ToLower Quote Error_text env os_Abs EvalSymlinks probe_at stat_IsDir).
Notation CanDelete := (CanDelete (W := W) env os_Abs EvalSymlinks).
Notation ClassifyDest := (ClassifyDest (W := W) os_Abs probe_at stat_IsDir).
Notation reload := (reload ToLower Error_text).
Notation New := (New ToLower Error_text env).

(** A message is handled, or the file system changes by itself. *)
Inductive pstep : St -> St -> Prop :=
| p_update msg s s' cmd : m_quitting (st_m s) = false -> Update msg s = Some (s', cmd) -> pstep s s'
| p_world s w : pstep s (mkSt (st_m s) w (st_ops s)).

(** The cursor is on a row, unless there is none. *)
Definition cursor_ok (m : Model TI) : Prop := 0 <= m_cursor m /\ (m_visible m <> [] -> m_cursor m < Z.of_nat (length (m_visible m))).
(** The modes that wait for no decision on a folder. *)
Definition calm (md : mode) : bool := match md with modeDeleteEmpty | modeDeleteRecursive | modeDest => false | _ => true end.

(** A step that decides nothing and deletes nothing but [extra]. *)
Record keeps (extra : list FsOp) (s s' : St) : Prop := {
  q_removes p r : OpRemove p r ∈ st_ops s' -> OpRemove p r ∈ st_ops s \/ OpRemove p r ∈ extra;
  q_mode : m_mode (st_m s') = m_mode (st_m s) \/ calm (m_mode (st_m s')) = true;
  q_pending : calm (m_mode (st_m s')) = true \/ m_pendingDel (st_m s') = m_pendingDel (st_m s);
  q_ended : m_quitting (st_m s') = m_quitting (st_m s) /\ m_canceled (st_m s') = m_canceled (st_m s);
  q_opts : m_opts (st_m s') = m_opts (st_m s);
  q_join : m_join (st_m s') = m_join (st_m s);
  q_dest : m_dest (st_m s') = m_dest (st_m s) /\ m_destChoices (st_m s') = m_destChoices (st_m s) /\ m_destCursor (st_m s') = m_destCursor (st_m s);
  q_cursor : cursor_ok (st_m s) -> cursor_ok (st_m s');
}.

Lemma keeps_trans l1 l2 s1 s2 s3 : keeps l1 s1 s2 -> keeps l2 s2 s3 -> keeps (l1 ++ l2) s1 s3.
Proof.
  intros [A1 B1 C1 [D1 D1'] E1 F1 (G1 & G1' & G1'') K1] [A2 B2 C2 [D2 D2'] E2 F2 (G2 & G2' & G2'') K2].
  constructor; try (split_and?; congruence); [| | |auto].
  - intros p r Hin. rewrite elem_of_app. destruct (A2 _ _ Hin) as [Hin'|]; [|auto]. destruct (A1 _ _ Hin'); auto.
  - destruct B2 as [->|]; auto.
  - destruct C2 as [|C2]; [auto|]. destruct C1 as [C1|C1]; [|right; congruence]. destruct B2 as [E|]; [rewrite E|]; auto.
Qed.
Notation quiet := (keeps []).
#[local] Instance quiet_refl : Reflexive quiet.
Proof. intros s. constructor; auto. Qed.
#[local] Instance quiet_trans : Transitive quiet.
Proof. intros s1 s2 s3. apply (keeps_trans [] []). Qed.

Lemma cursor_ok_0 (m : Model TI) : m_cursor m = 0 -> cursor_ok m.
Proof. intros E. unfold cursor_ok. rewrite E. split; [lia|]. destruct (m_visible m); [done|]. cbn [length]. lia. Qed.
Lemma cursor_ok_nil (m : Model TI) : 0 <= m_cursor m -> m_visible m = [] -> cursor_ok m.
Proof. intros Hc E. split; [done|]. by rewrite E. Qed.

Lemma applyFilter_cursor (w : W) (m : Model TI) : cursor_ok (applyFilter ToLower w m).
Proof.
  unfold applyFilter, cursor_ok. cbv zeta. set (vis := (if String.eqb _ _ then _ else _) ++ _). cbn [m_cursor m_visible set_cursor set_visible].
  set (c := if Z.of_nat (length vis) <=? m_cursor m then _ else _).
  assert (c < Z.of_nat (length vis)) as Hc by (unfold c; destruct (Z.leb_spec (Z.of_nat (length vis)) (m_cursor m)); lia).
  destruct (Z.ltb_spec c 0); (split; [lia|]); intros Hv; [|lia]. destruct vis; [done|]. cbn [length]. lia.
Qed.

(** An assignment that touches none of the fields above. *)
Ltac assign := constructor; cbn; auto; try (unfold cursor_ok; cbn; tauto).

Lemma quiet_status text (s : St) : quiet s (status text s).1.
Proof. assign. Qed.
Lemma quiet_mode md (s : St) : calm md = true -> quiet s (on (set_mode md) s).
Proof. intros Hm. assign. Qed.
Lemma quiet_enter path (s : St) : quiet s (enter path s).
Proof. assign. Qed.
Lemma quiet_path f (s : St) : quiet s (on (fun m => set_path (f m) m) s).
Proof. assign. Qed.
Lemma quiet_cursor0 (s : St) : quiet s (on (set_cursor 0) s).
Proof. constructor; cbn; auto. intros _. by apply cursor_ok_0. Qed.
Lemma quiet_refilter (s : St) : quiet s (refilter ToLower s).
Proof. constructor; auto. intros _. apply applyFilter_cursor. Qed.
Lemma quiet_prompt md title value (s : St) : calm md = true -> quiet s (beginPrompt md title value s).1.
Proof. intros Hm. assign. Qed.

Lemma quiet_reload (s : St) : quiet s (reload s).1.
Proof.
  unfold Picker.reload, reloadSync. destruct (cap_Expensive _); cbn [fst].
  - constructor; cbn; auto. intros [Hc _]. by apply cursor_ok_nil.
  - cbv zeta. destruct (fs_List _ _).
    + constructor; cbn; auto. intros _. apply (applyFilter_cursor (st_fs s)).
    + constructor; cbn; auto. intros [Hc _]. by apply cursor_ok_nil.
Qed.
Lemma quiet_go_to path (s : St) : quiet s (go_to ToLower Error_text path s).1.
Proof. unfold go_to. etransitivity; [|apply quiet_reload]. etransitivity; [apply quiet_enter|apply quiet_cursor0]. Qed.

Lemma keeps_write op (s : St) : keeps [op] s (write op s).1.
Proof.
  unfold write. destruct (fs_write op (st_fs s)) as [w r]. constructor; cbn; auto.
  intros p q Hin. by apply elem_of_app in Hin.
Qed.
Lemma quiet_write op (s : St) : (forall p r, op <> OpRemove p r) -> quiet s (write op s).1.
Proof.
  intros Hop. destruct (keeps_write op s) as [A B C D E F G K]. constructor; auto.
  intros p r Hin. destruct (A p r Hin) as [|Hx]; [by left|]. apply list_elem_of_singleton in Hx. by destruct (Hop p r).
Qed.
Lemma quiet_focus name (s : St) : quiet s (on (focusNamed name) s).
Proof.
  assert (forall es i j, index_named name i es = Some j -> i <= j < i + Z.of_nat (length es)) as Hix.
  { intros es. induction es as [|e es IH]; intros i j; cbn [index_named length]; [done|]. destruct (String.eqb _ _); [intros [= <-]; lia|].
    intros E%IH. lia. }
  unfold focusNamed, on. destruct (index_named name 0 (m_visible (st_m s))) as [i|] eqn:E; [|destruct s; reflexivity].
  apply Hix in E. constructor; cbn; auto. intros _. split; cbn; lia.
Qed.

Lemma quiet_openOrJump (s : St) : quiet s (openOrJump ToLower Error_text env s).1.
Proof.
  unfold openOrJump. cbv zeta. destruct (_ && _).
  - destruct (fs_Stat _ _) as [e|e]; [|apply quiet_status]. destruct (negb _); [apply quiet_status|apply quiet_go_to].
  - destruct (highlighted _) as [e|]; [|reflexivity]. destruct (negb _); [reflexivity|]. destruct (en_Inaccessible e); [apply quiet_status|apply quiet_go_to].
Qed.

Lemma quiet_createDir name (s : St) : quiet s (createDir ToLower Error_text name s).1.
Proof.
  unfold createDir. cbv zeta. set (s1 := on (set_mode modeBrowse) s). transitivity s1; [by apply quiet_mode|].
  destruct (ValidateDirName name); [|apply quiet_status]. set (p := fs_Join _).
  pose proof (quiet_write (OpMkdir p) s1 ltac:(done)) as Hw. destruct (write (OpMkdir p) s1) as [s2 [u|e]]; cbn [fst] in Hw; (etransitivity; [exact Hw|]).
  - etransitivity; [apply (quiet_enter p)|]. etransitivity; [|apply quiet_reload]. constructor; cbn; auto. intros _. by apply cursor_ok_0.
  - apply quiet_status.
Qed.

Lemma quiet_renameSelected name (s : St) : quiet s (renameSelected ToLower Error_text name s).1.
Proof.
  unfold renameSelected. cbv zeta. set (s1 := on (set_mode modeBrowse) s). transitivity s1; [by apply quiet_mode|].
  destruct (highlighted (st_m s1)) as [e|]; [|reflexivity]. destruct (ValidateDirName name); [|apply quiet_status]. set (p := fs_Join _).
  pose proof (quiet_write (OpRename (en_Path e) p) s1 ltac:(done)) as Hw. destruct (write (OpRename (en_Path e) p) s1) as [s2 [u|err]]; cbn [fst] in Hw; (etransitivity; [exact Hw|]).
  - pose proof (quiet_reload s2) as Hr. destruct (reload s2) as [s3 cmd]. etransitivity; [exact Hr|apply quiet_focus].
  - apply quiet_status.
Qed.

Lemma quiet_beginRename (s : St) : quiet s (beginRename env os_Abs s).1.
Proof.
  unfold beginRename. destruct (highlighted _) as [e|]; [|reflexivity]. destruct (String.eqb _ _); [reflexivity|].
  destruct (_ || _); [apply quiet_status|by apply quiet_prompt].
Qed.

Lemma quiet_completePath (s s' : St) cmd : completePath ToLower Error_text env s = Some (s', cmd) -> quiet s s'.
Proof.
  unfold completePath. destruct (Complete _ _ _ _ _) as [[[text matches]|e]|]; [|intros [= <- _]; apply quiet_status|done].
  cbn [mbind option_bind]. cbv zeta. set (s1 := on _ s). assert (quiet s s1) as H1 by apply quiet_path.
  destruct matches as [|one [|two matches]]; [by intros [= <- _]| |intros [= <- _]; etransitivity; [exact H1|apply quiet_status]].
  destruct (fs_Stat _ _) as [e|e]; [|by intros [= <- _]]. destruct (en_IsDir e); [|by intros [= <- _]].
  pose proof (quiet_reload (enter (en_Path e) s1)) as Hr. destruct (reload _) as [s2 cmd']. intros [= <- _].
  etransitivity; [exact H1|]. etransitivity; [apply quiet_enter|exact Hr].
Qed.

(** ** What a run has behind it *)

(** A folder was highlighted when [d] was pressed, could be deleted, and was
    empty, or not when the deletion is recursive. *)
Definition asked (s0 s : St) (p : string) (recursive : bool) : Prop :=
  exists s1 s1' cmd k e, rtc pstep s0 s1 /\ m_mode (st_m s1) = modeBrowse /\ key_String (TI := TI) k = "d"%string /\
    highlighted (st_m s1) = Some e /\ en_Name e <> ".."%string /\ en_Path e = p /\
    CanDelete (st_fs s1) p = Ok tt /\ fs_IsEmpty p (st_fs s1) = Ok (negb recursive) /\
    Update (KeyPressMsg k) s1 = Some (s1', cmd) /\ rtc pstep s1' s.

(** That was confirmed: by Enter or [y], or by typing the name of the folder;
    it could still be deleted. *)
Definition confirmed (s0 s : St) (p : string) (recursive : bool) : Prop :=
  exists s2 s2' cmd k, asked s0 s2 p recursive /\ CanDelete (st_fs s2) p = Ok tt /\
    (if recursive then key_String (TI := TI) k = "enter"%string /\ trim_space (ti_Value (m_prompt (st_m s2))) = path_base p
     else key_String (TI := TI) k ∈ ["enter"; "y"]%string) /\
    Update (KeyPressMsg k) s2 = Some (s2', cmd) /\ rtc pstep s2' s.

(** A folder was classified. *)
Definition classified (s0 s : St) (rep : DestReport) : Prop :=
  exists s1 path, rtc pstep s0 s1 /\ ClassifyDest (st_fs s1) path = Ok rep /\ rtc pstep s1 s.

(** What may be selected for each classification. *)
Definition chosen (m : Model TI) (rep : DestReport) : Prop :=
  match dr_Kind rep with
  | DestEmpty => m_choice m = ChoiceUse /\ m_selected m = dr_Path rep /\ m_join m = false
  | DestRemnixSubdirExists => m_choice m = ChoiceUse /\ m_selected m = dr_Subdir rep /\ m_join m = false
  | DestValidRepo => m_choice m = ChoiceJoin /\ m_selected m = dr_Path rep /\ m_join m = true
  | DestUnrelated =>
      m_join m = false /\
      (m_choice m = ChoiceProceedAnyway /\ m_selected m = dr_Path rep \/
       m_choice m = ChoiceCreateSubfolder /\ m_selected m = fs_Join (W := W) [dr_Path rep; "remnix"%string])
  | DestPartialRepo | DestUnsupported => False
  end.

Record pinv (s0 s : St) : Prop := {
  pi_reach : rtc pstep s0 s;
  pi_removed p r : OpRemove p r ∈ st_ops s -> confirmed s0 s p r;
  pi_empty : m_mode (st_m s) = modeDeleteEmpty -> asked s0 s (m_pendingDel (st_m s)) false;
  pi_recursive : m_mode (st_m s) = modeDeleteRecursive -> asked s0 s (m_pendingDel (st_m s)) true;
  pi_dest : m_mode (st_m s) = modeDest ->
    classified s0 s (m_dest (st_m s)) /\ m_destChoices (st_m s) = ChoicesFor (dr_Kind (m_dest (st_m s))) /\
    0 <= m_destCursor (st_m s) < Z.of_nat (length (m_destChoices (st_m s)));
  pi_cursor : cursor_ok (st_m s);
  pi_opts : m_opts (st_m s) = m_opts (st_m s0);
  pi_open : m_quitting (st_m s) = false -> m_join (st_m s) = false /\ m_canceled (st_m s) = false;
  pi_chosen : m_quitting (st_m s) = true ->
    m_canceled (st_m s) = true \/ op_ConfirmDest (m_opts (st_m s)) = false \/ exists rep, classified s0 s rep /\ chosen (st_m s) rep;
}.

Lemma asked_later s0 s s' p r : rtc pstep s s' -> asked s0 s p r -> asked s0 s' p r.
Proof.
  intros Hr (s1 & s1' & cmd & k & e & A & B & C & D & E & F & G & I & J & K). exists s1, s1', cmd, k, e. split_and!; try done. by etransitivity.
Qed.
Lemma confirmed_later s0 s s' p r : rtc pstep s s' -> confirmed s0 s p r -> confirmed s0 s' p r.
Proof. intros Hr (s2 & s2' & cmd & k & A & B & C & D & E). exists s2, s2', cmd, k. split_and!; try done. by etransitivity. Qed.
Lemma classified_later s0 s s' rep : rtc pstep s s' -> classified s0 s rep -> classified s0 s' rep.
Proof. intros Hr (s1 & path & A & B & C). exists s1, path. split_and!; try done. by etransitivity. Qed.

(** The invariant across a step that keeps everything but some removals that
    were confirmed. *)
Lemma pinv_keeps s0 s s' extra : pinv s0 s -> pstep s s' -> m_quitting (st_m s) = false -> keeps extra s s' ->
  (forall p r, OpRemove p r ∈ extra -> confirmed s0 s' p r) -> pinv s0 s'.
Proof.
  intros [A B C D E F G I J] Hstep Hq [A' B' C' [D' D''] E' F' (G1 & G2 & G3) K'] Hextra.
  assert (rtc pstep s s') as Hr by (by apply rtc_once). constructor; try congruence.
  - by etransitivity.
  - intros p r Hin. destruct (A' p r Hin) as [Hin'|]; [|auto]. eapply confirmed_later; [exact Hr|auto].
  - intros Hm. destruct C' as [Hx| ->]; [by rewrite Hm in Hx|]. destruct B' as [Em|Hc]; [|rewrite Hm in Hc; done]. eapply asked_later; [exact Hr|]. apply C. congruence.
  - intros Hm. destruct C' as [Hx| ->]; [by rewrite Hm in Hx|]. destruct B' as [Em|Hc]; [|rewrite Hm in Hc; done]. eapply asked_later; [exact Hr|]. apply D. congruence.
  - intros Hm. rewrite G1, G2, G3. destruct B' as [Em|Hc]; [|rewrite Hm in Hc; done]. destruct (E ltac:(congruence)) as (E1 & E2 & E3).
    split; [|done]. by eapply classified_later.
  - auto.
  - intros _. rewrite F', D''. by apply I.
Qed.
Lemma pinv_quiet s0 s s' : pinv s0 s -> pstep s s' -> m_quitting (st_m s) = false -> quiet s s' -> pinv s0 s'.
Proof. intros Hi Hs Hq Hk. apply (pinv_keeps s0 s s' []); [done..|]. intros p r Hin. by apply elem_of_nil in Hin. Qed.

(** ** The steps that decide *)

(** The program ends, on a choice that may be made. *)
Lemma pinv_ends s0 s s' : pinv s0 s -> pstep s s' -> (forall p r, OpRemove p r ∈ st_ops s' -> OpRemove p r ∈ st_ops s) ->
  m_mode (st_m s') = m_mode (st_m s) -> m_pendingDel (st_m s') = m_pendingDel (st_m s) ->
  m_dest (st_m s') = m_dest (st_m s) -> m_destChoices (st_m s') = m_destChoices (st_m s) -> m_destCursor (st_m s') = m_destCursor (st_m s) ->
  cursor_ok (st_m s') -> m_opts (st_m s') = m_opts (st_m s) -> m_quitting (st_m s') = true ->
  (m_canceled (st_m s') = true \/ op_ConfirmDest (m_opts (st_m s)) = false \/ exists rep, classified s0 s rep /\ chosen (st_m s') rep) ->
  pinv s0 s'.
Proof.
  intros [A B C D E F G I J] Hstep Hrem Hm Hp Hd Hdc Hcu Hco Ho Hq Hend.
  assert (rtc pstep s s') as Hr by (by apply rtc_once). constructor; try congruence.
  - by etransitivity.
  - intros p r Hin. eapply confirmed_later; [exact Hr|auto].
  - rewrite Hm, Hp. intros Hx. eapply asked_later; [exact Hr|auto].
  - rewrite Hm, Hp. intros Hx. eapply asked_later; [exact Hr|auto].
  - rewrite Hm, Hd, Hdc, Hcu. intros Hx. destruct (E Hx) as (E1 & E2 & E3). split; [|done]. by eapply classified_later.
  - intros _. rewrite Ho. destruct Hend as [|[|(rep & Hc & Hch)]]; [auto..|]. right; right. exists rep. split; [|done]. by eapply classified_later.
Qed.
Lemma pinv_cancel s0 s : pinv s0 s -> pstep s (on (set_ended true true) s) -> pinv s0 (on (set_ended true true) s).
Proof. intros Hi Hs. apply (pinv_ends s0 s); try done; [apply (pi_cursor _ _ Hi)|by left]. Qed.

Lemma doDelete_keeps recursive (s : St) :
  quiet s (doDelete ToLower Error_text env os_Abs EvalSymlinks recursive s).1 \/
  CanDelete (st_fs s) (m_pendingDel (st_m s)) = Ok tt /\
  keeps [OpRemove (m_pendingDel (st_m s)) recursive] s (doDelete ToLower Error_text env os_Abs EvalSymlinks recursive s).1.
Proof.
  unfold doDelete. cbv zeta. set (s1 := on (set_mode modeBrowse) s). assert (quiet s s1) as H1 by (by apply quiet_mode).
  change (m_pendingDel (st_m s1)) with (m_pendingDel (st_m s)). change (st_fs s1) with (st_fs s). set (p := m_pendingDel (st_m s)).
  destruct (Picker.CanDelete _ _ _ _ _) as [[]|e]; [right; split; [done|]|left; etransitivity; [exact H1|apply quiet_status]].
  pose proof (keeps_write (OpRemove p recursive) s1) as Hw. destruct (write (OpRemove p recursive) s1) as [s2 [u|e]]; cbn [fst] in Hw.
  - apply (keeps_trans [] [_] _ _ _ H1). rewrite <- (app_nil_r [_]). apply (keeps_trans _ _ _ _ _ Hw).
    etransitivity; [apply quiet_status|apply quiet_reload].
  - apply (keeps_trans [] [_] _ _ _ H1). rewrite <- (app_nil_r [_]). apply (keeps_trans _ _ _ _ _ Hw), quiet_status.
Qed.

Lemma pinv_doDelete s0 s s' cmd k recursive : pinv s0 s -> m_quitting (st_m s) = false ->
  asked s0 s (m_pendingDel (st_m s)) recursive ->
  (if recursive then key_String (TI := TI) k = "enter"%string /\ trim_space (ti_Value (m_prompt (st_m s))) = path_base (m_pendingDel (st_m s))
   else key_String (TI := TI) k ∈ ["enter"; "y"]%string) ->
  doDelete ToLower Error_text env os_Abs EvalSymlinks recursive s = (s', cmd) -> Update (KeyPressMsg k) s = Some (s', cmd) -> pinv s0 s'.
Proof.
  intros Hi Hq Ha Hk E Hu. assert (pstep s s') as Hs by (by eapply p_update). pose proof (doDelete_keeps recursive s) as Hd. rewrite E in Hd.
  destruct Hd as [Hd|[Hc Hd]]; [by apply (pinv_quiet s0 s)|]. apply (pinv_keeps s0 s s' _ Hi Hs Hq Hd).
  intros p r Hin. apply list_elem_of_singleton in Hin. injection Hin as -> ->. exists s, s', cmd, k. by split_and!.
Qed.

Lemma pinv_beginDelete s0 s s' cmd k : pinv s0 s -> m_quitting (st_m s) = false -> m_mode (st_m s) = modeBrowse ->
  key_String (TI := TI) k = "d"%string -> beginDelete Quote Error_text env os_Abs EvalSymlinks s = (s', cmd) ->
  Update (KeyPressMsg k) s = Some (s', cmd) -> pinv s0 s'.
Proof.
  intros Hi Hq Hm Hk E Hu. assert (pstep s s') as Hs by (by eapply p_update). pose proof E as E'. unfold beginDelete in E'.
  destruct (highlighted (st_m s)) as [e|] eqn:Eh; [|injection E' as <- _; by apply (pinv_quiet s0 s)].
  destruct (String.eqb_spec (en_Name e) "..") as [|Hn]; [injection E' as <- _; by apply (pinv_quiet s0 s)|].
  destruct (Picker.CanDelete _ _ _ _ _) as [[]|err] eqn:Ec; [|injection E' as <- _; apply (pinv_quiet s0 s); try done; apply quiet_status].
  cbv zeta in E'. change (st_fs (on (set_pendingDel (en_Path e)) s)) with (st_fs s) in E'.
  destruct (fs_IsEmpty (en_Path e) (st_fs s)) as [empty|err] eqn:Ee.
  2: { injection E' as <- _. apply (pinv_quiet s0 s); try done. constructor; cbn; auto. left. by rewrite Hm. }
  assert (asked s0 s' (en_Path e) (negb empty)) as Hask.
  { exists s, s', cmd, k, e. rewrite negb_involutive. split_and!; try done. apply (pi_reach _ _ Hi). }
  assert (m_pendingDel (st_m s') = en_Path e /\ m_mode (st_m s') = (if empty then modeDeleteEmpty else modeDeleteRecursive) /\ st_ops s' = st_ops s /\
    m_quitting (st_m s') = false /\ m_join (st_m s') = m_join (st_m s) /\ m_canceled (st_m s') = m_canceled (st_m s) /\ m_opts (st_m s') = m_opts (st_m s) /\
    cursor_ok (st_m s')) as (P1 & P2 & P3 & P4 & P5 & P6 & P7 & P8).
  { pose proof (pi_cursor _ _ Hi). destruct empty; [injection E' as <- _; by split_and!|]. destruct (fs_CountChildren _ _ _) as [n exact].
    injection E' as <- _. by split_and!. }
  destruct Hi as [A B C D E1 F G I J]. constructor; rewrite ?P3, ?P5, ?P6; try congruence.
  - etransitivity; [exact A|by apply rtc_once].
  - intros p r Hin. eapply confirmed_later; [by apply rtc_once|]. by apply B.
  - rewrite P1, P2. destruct empty; [done|discriminate].
  - rewrite P1, P2. destruct empty; [discriminate|done].
  - rewrite P2. by destruct empty.
  - intros _. by apply I.
Qed.

Lemma pinv_finishSelect s0 s s' cmd path : pinv s0 s -> m_quitting (st_m s) = false -> pstep s s' ->
  finishSelect Error_text os_Abs probe_at stat_IsDir path s = (s', cmd) -> pinv s0 s'.
Proof.
  intros Hi Hq Hs. unfold finishSelect. destruct (op_ConfirmDest (m_opts (st_m s))) eqn:Eo; cbn [negb].
  - destruct (Picker.ClassifyDest _ _ _ _ _) as [rep|e] eqn:Ec; [|intros [= <- _]; apply (pinv_quiet s0 s); try done; apply quiet_status].
    intros [= <- _]. assert (rtc pstep s (on (fun m => set_mode modeDest (set_destination rep (ChoicesFor (dr_Kind rep)) 0 m)) s)) as Hr by (by apply rtc_once).
    destruct Hi as [A B C D E F G I J]. constructor; try done.
    + by etransitivity.
    + intros p r Hin. eapply confirmed_later; [exact Hr|by apply B].
    + intros _. split; [exists s, path; by split_and!|]. split; [done|]. cbn. destruct (dr_Kind rep); cbn; lia.
    + cbn. rewrite Hq. discriminate.
  - intros [= <- _]. apply (pinv_ends s0 s); try done; [apply (pi_cursor _ _ Hi)|]. right; by left.
Qed.

Lemma chosen_lookup kind (c : Z) ch : 0 <= c -> ChoicesFor kind !! Z.to_nat c = Some ch ->
  match ch with
  | ChoiceUse => kind = DestEmpty \/ kind = DestRemnixSubdirExists
  | ChoiceCreateSubfolder | ChoiceProceedAnyway => kind = DestUnrelated
  | ChoiceJoin => kind = DestValidRepo
  | _ => True
  end.
Proof.
  intros _ Hl. destruct kind; cbn [ChoicesFor] in Hl; destruct (Z.to_nat c) as [|[|[|[|n]]]]; simpl in Hl; simplify_eq; auto.
Qed.

Lemma pinv_destCursor s0 s c : pinv s0 s -> m_quitting (st_m s) = false -> m_mode (st_m s) = modeDest ->
  0 <= c < Z.of_nat (length (m_destChoices (st_m s))) -> pstep s (on (set_destCursor c) s) -> pinv s0 (on (set_destCursor c) s).
Proof.
  intros [A B C D E F G I J] Hq Hm Hc Hs. assert (rtc pstep s (on (set_destCursor c) s)) as Hr by (by apply rtc_once).
  destruct (E Hm) as (E1 & E2 & _). constructor; try done; cbn; rewrite ?Hm; try done.
  - by etransitivity.
  - intros p r Hin. eapply confirmed_later; [exact Hr|by apply B].
  - intros _. split; [by eapply classified_later|done].
  - rewrite Hq. discriminate.
Qed.

(** The destination is known, and so is what each choice means for it. *)
Lemma pinv_handleDest s0 s s' cmd key : pinv s0 s -> m_quitting (st_m s) = false -> m_mode (st_m s) = modeDest -> pstep s s' ->
  handleDest key s = Some (s', cmd) -> pinv s0 s'.
Proof.
  intros Hi Hq Hm Hs. destruct (pi_dest _ _ Hi Hm) as (Hcl & Hch & Hcu). destruct (pi_open _ _ Hi Hq) as [Hj Hca].
  assert (quiet s (on (set_mode modeBrowse) s)) as Hb by (by apply quiet_mode).
  unfold handleDest. cbv zeta. destruct (String.eqb key "esc"); [intros [= <- _]; by apply (pinv_quiet s0 s)|].
  destruct (_ || _); [intros [= <- _]; revert Hs|destruct (_ || _); [intros [= <- _]; revert Hs|]].
  1, 2: match goal with |- context [if ?c then _ else _] => destruct c eqn:Ec end; intros Hs; [|by apply (pinv_quiet s0 s)];
    apply Z.ltb_lt in Ec; apply pinv_destCursor; auto; lia.
  destruct (String.eqb key "enter"); [|intros [= <- _]; by apply (pinv_quiet s0 s)].
  destruct (Z.ltb_spec (m_destCursor (st_m s)) 0); [lia|]. destruct (m_destChoices (st_m s) !! _) as [ch|] eqn:El; [|done]. cbn [mbind option_bind].
  rewrite Hch in El. apply chosen_lookup in El; [|lia]. set (rep := m_dest (st_m s)) in *.
  assert (forall f, s' = on f s -> (forall m, m_mode (f m) = m_mode m /\ m_pendingDel (f m) = m_pendingDel m /\ m_dest (f m) = m_dest m /\ m_destChoices (f m) = m_destChoices m /\
      m_destCursor (f m) = m_destCursor m /\ m_cursor (f m) = m_cursor m /\ m_visible (f m) = m_visible m /\ m_opts (f m) = m_opts m /\ m_quitting (f m) = true) ->
      m_canceled (f (st_m s)) = true \/ chosen (f (st_m s)) rep -> pinv s0 s') as Hend.
  { intros f -> Hf Hc. destruct (Hf (st_m s)) as (F1 & F2 & F3 & F4 & F5 & F6 & F7 & F8 & F9). apply (pinv_ends s0 s); try done.
    - unfold cursor_ok. cbn. rewrite F6, F7. apply (pi_cursor _ _ Hi).
    - destruct Hc; [by left|]. right; right. by exists rep. }
  destruct ch; intros [= <- _]; try (apply (pinv_quiet s0 s); try done; constructor; cbn; auto; done); try (eapply Hend; [reflexivity|done|]).
  - right. unfold chosen. cbn. fold rep. destruct El as [-> | ->]; by split_and!.
  - pose proof (quiet_write (OpMkdir (fs_Join (W := W) [dr_Path rep; "remnix"%string])) s ltac:(done)) as Hw.
    unfold write in Hs, Hw |- *. destruct (fs_write _ _) as [w u]. cbn [fst] in Hs, Hw |- *. apply (pinv_ends s0 s); try done; [|apply (pi_cursor _ _ Hi)|].
    + intros p r Hin. destruct (q_removes _ _ _ Hw p r Hin) as [|Hx]; [done|by apply elem_of_nil in Hx].
    + right; right. exists rep. split; [done|]. unfold chosen. cbn. rewrite El. auto.
  - right. unfold chosen. cbn. rewrite El. auto.
  - right. unfold chosen. cbn. rewrite El. auto.
  - by left.
Qed.

(** ** Every step *)

Lemma pair_fst {A B} (x : A * B) a b : x = (a, b) -> x.1 = a.
Proof. by intros ->. Qed.

Lemma pinv_handlePrompt s0 s s' cmd k : pinv s0 s -> m_quitting (st_m s) = false ->
  m_mode (st_m s) ∈ [modeMkdir; modeRename; modeDeleteRecursive; modeFilter; modePath] ->
  handlePrompt k s = (s', cmd) -> Update (KeyPressMsg k) s = Some (s', cmd) -> pinv s0 s'.
Proof.
  intros Hi Hq Hm E Hu. assert (pstep s s') as Hs by (by eapply p_update). pose proof (fun Hk => pinv_quiet s0 s s' Hi Hs Hq Hk) as Quiet.
  unfold Picker.handlePrompt in E. cbv zeta in E. destruct (String.eqb _ "esc"); [apply pair_fst in E as <-; apply Quiet; constructor; cbn; auto|].
  destruct (String.eqb_spec (key_String (TI := TI) k) "enter") as [Hk|]; [|apply pair_fst in E as <-; apply Quiet; constructor; cbn; auto].
  destruct (m_mode (st_m s)) eqn:Em; try (apply pair_fst in E as <-; by apply Quiet).
  - apply pair_fst in E as <-. apply Quiet. etransitivity; [|apply quiet_refilter]. constructor; cbn; auto.
  - apply Quiet. rewrite <- (pair_fst _ _ _ E). apply quiet_createDir.
  - apply Quiet. rewrite <- (pair_fst _ _ _ E). apply quiet_renameSelected.
  - destruct (String.eqb_spec (trim_space (ti_Value (m_prompt (st_m s)))) (path_base (m_pendingDel (st_m s)))) as [Hv|];
      [|apply pair_fst in E as <-; apply Quiet; constructor; cbn; auto].
    eapply (pinv_doDelete s0 s s' cmd k true); try done. by apply (pi_recursive _ _ Hi).
  - apply Quiet. rewrite <- (pair_fst _ _ _ E). etransitivity; [|apply quiet_openOrJump]. constructor; cbn; auto.
Qed.

Lemma pinv_browseKey s0 s s' cmd k : pinv s0 s -> m_quitting (st_m s) = false -> m_mode (st_m s) = modeBrowse ->
  browseKey k s = Some (s', cmd) -> Update (KeyPressMsg k) s = Some (s', cmd) -> pinv s0 s'.
Proof.
  intros Hi Hq Hm E Hu. assert (pstep s s') as Hs by (by eapply p_update). pose proof (fun Hk => pinv_quiet s0 s s' Hi Hs Hq Hk) as Quiet.
  pose proof (pi_cursor _ _ Hi) as [Hc0 Hc1]. unfold Picker.browseKey in E. cbv zeta in E.
  destruct (String.eqb _ "esc"); [injection E as <- _; by apply pinv_cancel|].
  destruct (String.eqb _ "?"); [injection E as <- _; apply Quiet; by apply quiet_mode|].
  destruct (_ || _).
  { injection E as <- _. apply Quiet. destruct (Z.ltb_spec 0 (m_cursor (st_m s))); [|done]. constructor; cbn; auto.
    intros _. split; cbn; [lia|]. intros Hv. specialize (Hc1 Hv). lia. }
  destruct (_ || _).
  { injection E as <- _. apply Quiet. destruct (Z.ltb_spec (m_cursor (st_m s) + 1) (Z.of_nat (length (m_visible (st_m s))))); [|done].
    constructor; cbn; auto. intros _. split; cbn; [lia|]. intros Hv. lia. }
  destruct (String.eqb _ "enter"); [apply (inj Some) in E; apply Quiet; rewrite <- (pair_fst _ _ _ E); apply quiet_openOrJump|].
  destruct (_ || _).
  { apply (inj Some) in E. unfold selectHighlighted, selectCurrent in E. destruct (highlighted _) as [e|]; [|by eapply pinv_finishSelect].
    destruct (String.eqb _ _); [by eapply pinv_finishSelect|]. destruct (negb _); [apply pair_fst in E as <-; by apply Quiet|by eapply pinv_finishSelect]. }
  destruct (String.eqb _ "ctrl+enter"); [apply (inj Some) in E; by eapply pinv_finishSelect|].
  destruct (String.eqb _ "tab"); [apply Quiet; by eapply quiet_completePath|].
  destruct (String.eqb _ "ctrl+l"); [apply (inj Some) in E; apply Quiet; rewrite <- (pair_fst _ _ _ E); by apply quiet_prompt|].
  destruct (String.eqb _ "n"); [apply (inj Some) in E; apply Quiet; rewrite <- (pair_fst _ _ _ E); by apply quiet_prompt|].
  destruct (String.eqb _ "r"); [apply (inj Some) in E; apply Quiet; rewrite <- (pair_fst _ _ _ E); apply quiet_beginRename|].
  destruct (String.eqb_spec (key_String (TI := TI) k) "d"); [apply (inj Some) in E; by eapply pinv_beginDelete|].
  destruct (String.eqb _ "h"); [apply (inj Some) in E; apply Quiet; rewrite <- (pair_fst _ _ _ E); apply quiet_go_to|].
  destruct (String.eqb _ "."); [injection E as <- _; apply Quiet; etransitivity; [|apply quiet_refilter]; constructor; cbn; auto|].
  destruct (String.eqb _ "/"); [apply (inj Some) in E; apply Quiet; rewrite <- (pair_fst _ _ _ E); by apply quiet_prompt|].
  injection E as <- _. apply Quiet, quiet_path.
Qed.

Lemma pinv_step s0 s s' : pinv s0 s -> pstep s s' -> pinv s0 s'.
Proof.
  intros Hi Hs. destruct Hs as [msg s s' cmd Hq Hu|s w].
  2: { assert (rtc pstep s (mkSt (st_m s) w (st_ops s))) as Hr by (apply rtc_once, p_world). destruct Hi as [A B C D E F G I J]. constructor; try done.
       - by etransitivity.
       - intros p r Hin. eapply confirmed_later; [exact Hr|by apply B].
       - intros Hm. eapply asked_later; [exact Hr|by apply C].
       - intros Hm. eapply asked_later; [exact Hr|by apply D].
       - intros Hm. destruct (E Hm) as (E1 & E2). split; [by eapply classified_later|done].
       - intros Hq. destruct (J Hq) as [|[|(rep & Hc & Hch)]]; [auto..|]. right; right. exists rep. split; [by eapply classified_later|done]. }
  assert (pstep s s') as Hs by (by eapply p_update). pose proof (fun Hk => pinv_quiet s0 s s' Hi Hs Hq Hk) as Quiet.
  destruct msg as [w h|path r| |k]; cbn [Picker.Update] in Hu.
  - injection Hu as <- _. apply Quiet. constructor; cbn; auto.
  - destruct (negb _); [injection Hu as <- _; by apply Quiet|]. destruct r as [entries|e]; injection Hu as <- _; apply Quiet; constructor; cbn; auto.
    + intros _. apply (applyFilter_cursor (st_fs s)).
    + intros [Hc _]. by apply cursor_ok_nil.
  - injection Hu as <- _. by apply Quiet.
  - pose proof Hu as E. unfold Picker.handleKey in E. cbv zeta in E. destruct (String.eqb _ "ctrl+c"); [injection E as <- _; by apply pinv_cancel|].
    destruct (m_mode (st_m s)) eqn:Em; try (apply (inj Some) in E; eapply pinv_handlePrompt; [done|done|rewrite Em; set_solver|done|done]).
    + by eapply pinv_browseKey.
    + apply (inj Some) in E. unfold handleDeleteEmpty in E. destruct (_ || _); [apply pair_fst in E as <-; apply Quiet; constructor; cbn; auto|].
      destruct (String.eqb (key_String (TI := TI) k) "enter" || String.eqb (key_String (TI := TI) k) "y") eqn:Ek; [|apply pair_fst in E as <-; by apply Quiet].
      eapply (pinv_doDelete s0 s s' cmd k false); try done; [by apply (pi_empty _ _ Hi)|].
      apply orb_true_iff in Ek as [->%String.eqb_eq| ->%String.eqb_eq]; set_solver.
    + by eapply pinv_handleDest.
    + injection E as <- _. apply Quiet. by apply quiet_mode.
Qed.

Lemma pinv_New opts w : pinv (New opts w) (New opts w).
Proof.
  assert (forall s : St, cursor_ok (st_m s) -> st_ops s = [] -> m_mode (st_m s) = modeBrowse -> m_quitting (st_m s) = false -> m_join (st_m s) = false ->
    m_canceled (st_m s) = false -> pinv s s) as Hnew.
  { intros s Hc Ho Hm Hq Hj Hca. constructor; rewrite ?Ho, ?Hm, ?Hq; try done. intros p r Hin. by apply elem_of_nil in Hin. }
  unfold Picker.New, reloadSync. cbv zeta. destruct (cap_Expensive _); [by apply Hnew; try done; apply cursor_ok_0|].
  destruct (fs_List _ _); apply Hnew; try done; apply (applyFilter_cursor _).
Qed.
Lemma pinv_run s0 s1 s : rtc pstep s1 s -> pinv s0 s1 -> pinv s0 s.
Proof. induction 1 as [|s1 s2 s3 Hs _ IH]; [done|]. intros Hi. apply IH. by eapply pinv_step. Qed.

Lemma CanDelete_safe (w : W) p : CanDelete w p = Ok tt ->
  IsProtected env os_Abs (absolute os_Abs p) = false /\
  forall canon, EvalSymlinks w (path_dir (absolute os_Abs p)) = Ok canon -> IsProtected env os_Abs (path_join [canon; path_base (absolute os_Abs p)]) = false.
Proof.
  unfold Picker.CanDelete. cbv zeta. destruct (EvalSymlinks w _) as [canon|e].
  - destruct (IsProtected env os_Abs (path_join _)) eqn:E1; [done|]. destruct (IsFSRoot _); [done|]. cbn [orb].
    destruct (IsProtected env os_Abs (absolute os_Abs p)); [done|]. intros _. split; [done|]. by intros ? [= <-].
  - destruct (IsProtected _ _ _); [done|]. intros _. by split.
Qed.

(** C39: The folder browser deletes nothing that was not asked for: in every run, whatever keys are
    pressed, whenever listings arrive, and whatever other processes do to the files, a removed path
    was the highlighted row (not the parent) when d was pressed; it was found deletable then and
    again when it was removed, so it is neither the root nor the home, configuration or data
    directory; and the removal was confirmed, by Enter or y for a folder that was empty, by typing
    its name otherwise. *)
Theorem picker_deletes_confirmed (opts : Options) (w : W) (s : St) (p : string) (recursive : bool) :
  rtc pstep (New opts w) s -> OpRemove p recursive ∈ st_ops s ->
  confirmed (New opts w) s p recursive /\ IsProtected env os_Abs (absolute os_Abs p) = false.
Proof.
  intros Hr Hin. pose proof (pi_removed _ _ (pinv_run _ _ _ Hr (pinv_New opts w)) _ _ Hin) as Hc. split; [done|].
  destruct Hc as (s2 & _ & _ & _ & _ & Hd & _). by apply CanDelete_safe in Hd as [? _].
Qed.

(** The wizard never builds on a damaged repository: when the browser ends without being
    canceled and asks for confirmation, the folder was classified in this run, not as a partial or
    unsupported repository, and the outcome fits the classification: join exactly for a valid
    repository, the folder itself when it is empty or the user insists, otherwise the new or
    existing subfolder. *)
Theorem picker_selects_safely (opts : Options) (w : W) (s : St) :
  rtc pstep (New opts w) s -> m_quitting (st_m s) = true -> m_canceled (st_m s) = false -> op_ConfirmDest opts = true ->
  exists rep, classified (New opts w) s rep /\ chosen (st_m s) rep.
Proof.
  intros Hr Hq Hc Ho. destruct (pinv_run _ _ _ Hr (pinv_New opts w)) as [_ _ _ _ _ _ Hopts _ Hend]. destruct (Hend Hq) as [|[Hx|]]; [congruence| |done].
  rewrite Hopts in Hx. revert Hx. unfold Picker.New, reloadSync. cbv zeta. destruct (cap_Expensive _); [cbn; congruence|].
  destruct (fs_List _ _); cbn; congruence.
Qed.

Lemma common_prefix_total names p : (forall a, String.length (ToLower a) <= String.length a)%nat -> exists q, common_prefix ToLower p names = Some q.
Proof.
  intros Hl. assert (forall a b, common_len a b <= String.length a)%nat as Hc.
  { induction a as [|c a IH]; intros [|d b]; cbn [common_len]; [lia..|]. destruct (Ascii.eqb c d); [|lia]. specialize (IH b). cbn. lia. }
  revert p. induction names as [|n names IH]; intros p; cbn [common_prefix]; [by eexists|]. cbv zeta.
  pose proof (Hc (ToLower p) (ToLower n)). pose proof (Hl p). rewrite (proj2 (Nat.ltb_ge _ _)) by lia. destruct (str_empty _); [by eexists|apply IH].
Qed.

Lemma completePath_total (s : St) : (forall a, String.length (ToLower a) <= String.length a)%nat ->
  exists s' cmd, completePath ToLower Error_text env s = Some (s', cmd).
Proof.
  intros Hl. unfold completePath. assert (exists r, Complete ToLower env (st_fs s) (ti_Value (m_path (st_m s))) (m_showHidden (st_m s)) = Some r) as [r ->].
  { unfold Complete. cbv zeta. destruct (if has_suffix _ _ then _ else _) as [dir prefix]. destruct (fs_List _ _); [|by eexists].
    destruct (_ <$> _) as [|n1 [|n2 ns]]; [by eexists..|]. destruct (str_empty prefix); [by eexists|].
    destruct (common_prefix_total (n2 :: ns) n1 Hl) as [q Hq]. cbn [longestCommonPrefix]. rewrite Hq. by eexists. }
  cbn [mbind option_bind]. destruct r as [[text matches]|e]; [|by do 2 eexists]. destruct matches as [|m1 [|m2 ms]]; [by do 2 eexists| |by do 2 eexists].
  destruct (fs_Stat _ _) as [e|e]; [|by do 2 eexists]. destruct (en_IsDir e); [|by do 2 eexists]. destruct (reload _). by do 2 eexists.
Qed.

End PickerSpec.
