(* ===== verification/LocalFS.v ===== *)
(** [internal/tui/picker/local.go] and [fs.go]: the folder browser over the
    local files, with symbolic links. The file system is a finite map from
    paths (lists of names) to nodes; a path is resolved component by component
    as the kernel does it, through links, of which it follows at most 40.
    Permissions are not modelled. *)

From S2P Require Import Prelude Text Config Keys Transport Repository Picker.
From Stdlib Require Import Ascii.

Abbreviation path := (list string).
Inductive lnode := LDir | LFile | LLink (target : string).
(** The nodes, the working directory of the process, and the field [cwd]. *)
Record LFS := mkLFS { l_nodes : gmap path lnode; l_wd : path; l_cwd : string }.

Definition ENOTDIR : error := EMsg "not a directory".
Definition EEXIST : error := EMsg "file exists".
Definition ENOTEMPTY : error := EMsg "directory not empty".
Definition ELOOP : error := EMsg "too many levels of symbolic links".
Definition EBUSY : error := EMsg "device or resource busy".
Definition EINVAL : error := EMsg "invalid argument".

(** ** [os] *)

(** The walk from the directory [dir] along [rest]; a link in last position is
    followed only on request. *)
Fixpoint walk (links : nat) (n : gmap path lnode) (follow : bool) : path -> path -> result path :=
  fix go (dir rest : path) : result path :=
    match rest with
    | [] => Ok dir
    | c :: rest =>
        if str_empty c || String.eqb c "." then go dir rest
        else if String.eqb c ".." then go (removelast dir) rest
        else
          match n !! (dir ++ [c]) with
          | None => Fail ENotExist
          | Some LDir => go (dir ++ [c]) rest
          | Some LFile => match rest with [] => Ok (dir ++ [c]) | _ => Fail ENOTDIR end
          | Some (LLink t) =>
              if (length rest =? 0)%nat && negb follow then Ok (dir ++ [c])
              else match links with
                   | O => Fail ELOOP
                   | Datatypes.S links => walk links n follow (if has_prefix "/" t then [] else dir) (split_on slash t ++ rest)
                   end
          end
    end.
Definition maxLinks : nat := 40.
Definition resolve_path (follow : bool) (s : string) (f : LFS) : result path :=
  walk maxLinks (l_nodes f) follow (if has_prefix "/" s then [] else l_wd f) (split_on slash s).

(** The root is a directory that is not in the map. *)
Definition node_at (n : gmap path lnode) (p : path) : option lnode := match p with [] => Some LDir | _ => n !! p end.
Definition os_node (follow : bool) (s : string) (f : LFS) : result (path * lnode) :=
  p ← resolve_path follow s f;
  match node_at (l_nodes f) p with Some x => Ok (p, x) | None => Fail ENotExist end.
Definition os_Lstat (s : string) (f : LFS) : result lnode := snd <$> os_node false s f.
Definition os_Stat (s : string) (f : LFS) : result lnode := snd <$> os_node true s f.

Definition child_of (p k : path) : option string :=
  match last k with Some c => if bool_decide (k = p ++ [c]) then Some c else None | None => None end.
Definition child_names (n : gmap path lnode) (p : path) : list string :=
  sort_slice str_lt (omap (fun k => child_of p k) ((map_to_list n).*1)).
(** The names in a directory, sorted. *)
Definition os_ReadDir (s : string) (f : LFS) : result (list string) :=
  x ← os_node true s f;
  match x.2 with LDir => Ok (child_names (l_nodes f) x.1) | _ => Fail ENOTDIR end.

Definition set_lnodes (n : gmap path lnode) (f : LFS) : LFS := mkLFS n (l_wd f) (l_cwd f).
Definition os_Remove (s : string) : M LFS unit := fun f =>
  match os_node false s f with
  | Fail e => (f, Fail e)
  | Ok ([], _) => (f, Fail EBUSY)
  | Ok (p, LDir) =>
      match child_names (l_nodes f) p with
      | [] => (set_lnodes (delete p (l_nodes f)) f, Ok tt)
      | _ => (f, Fail ENOTEMPTY)
      end
  | Ok (p, _) => (set_lnodes (delete p (l_nodes f)) f, Ok tt)
  end.

(** The directory a new name goes into, links resolved, and the name. *)
Definition new_place (s : string) (f : LFS) : result path :=
  let parts := List.filter (fun c => negb (str_empty c || String.eqb c ".")) (split_on slash s) in
  match last parts with
  | None => Fail EEXIST
  | Some c =>
      if String.eqb c ".." then Fail EEXIST
      else dir ← walk maxLinks (l_nodes f) true (if has_prefix "/" s then [] else l_wd f) (removelast parts);
           match node_at (l_nodes f) dir with Some LDir => Ok (dir ++ [c]) | Some _ => Fail ENOTDIR | None => Fail ENotExist end
  end.
Definition os_Mkdir (s : string) : M LFS unit := fun f =>
  match new_place s f with
  | Fail e => (f, Fail e)
  | Ok p => match l_nodes f !! p with
            | Some _ => (f, Fail EEXIST)
            | None => (set_lnodes (<[p := LDir]> (l_nodes f)) f, Ok tt)
            end
  end.
(** [os.Rename] to a name that is not taken: the whole tree moves. *)
Definition moved (old new k : path) : path := if decide (old `prefix_of` k) then new ++ drop (length old) k else k.
Definition os_Rename (old new : string) : M LFS unit := fun f =>
  match os_node false old f, new_place new f with
  | Fail e, _ => (f, Fail e)
  | _, Fail e => (f, Fail e)
  | Ok ([], _), _ => (f, Fail EBUSY)
  | Ok (p, _), Ok q =>
      if decide (p `prefix_of` q) then (f, Fail EINVAL)
      else (set_lnodes (kmap (moved p q) (l_nodes f)) f, Ok tt)
  end.

(** ** [fs.go] and [local.go] *)

Definition is_link (x : lnode) : bool := match x with LLink _ => true | _ => false end.
Definition is_dir (x : lnode) : bool := match x with LDir => true | _ => false end.

Definition fileModeEntry (f : LFS) (p name : string) (info : result lnode) : Entry :=
  match info with
  | Fail _ => mkEntry name p false false true ""
  | Ok x =>
      let symlink := is_link x in
      let dir := if symlink then match os_Stat p f with Ok t => is_dir t | Fail _ => false end else is_dir x in
      mkEntry name p dir symlink false (if dir then if symlink then "@/" else "/" else if symlink then "@" else "")
  end.

Definition local_SetCurrent (p : string) (f : LFS) : LFS := mkLFS (l_nodes f) (l_wd f) (path_clean p).
Definition local_Parent (p : string) : string := path_dir (path_clean p).
Definition local_Stat (p : string) (f : LFS) : result Entry :=
  x ← os_Lstat p f; Ok (fileModeEntry f p (path_base p) (Ok x)).
Definition local_List (p : string) (f : LFS) : result (list Entry) :=
  names ← os_ReadDir p f;
  let entry name := let q := path_join [p; name] in (os_Lstat q f, fileModeEntry f q name (os_Lstat q f)) in
  Ok (snd <$> List.filter (fun x => negb (is_Ok x.1 && negb (en_IsDir x.2))) (entry <$> names)).
Definition local_Rename (old new : string) : M LFS unit := fun f =>
  match os_Lstat new f with
  | Ok _ => (f, Fail (EMsg ("already exists: " +:+ path_base new)))
  | Fail _ => os_Rename old new f
  end.

(** The loop over the names, with the call for a directory. *)
Fixpoint remove_each (dir : string -> M LFS unit) (p : string) (names : list string) : M LFS unit :=
  match names with
  | [] => os_Remove p
  | name :: names => fun f =>
      let q := path_join [p; name] in
      match os_Lstat q f with
      | Fail e => (f, Fail e)
      | Ok x =>
          match (if is_dir x then dir q else os_Remove q) f with
          | (f, Fail e) => (f, Fail e)
          | (f, Ok _) => remove_each dir p names f
          end
      end
  end.
(** The fuel is one unit for each level of the tree. *)
Fixpoint removeDirNoFollow (fuel : nat) (p : string) : M LFS unit :=
  match fuel with
  | O => fail (EMsg "stack overflow")
  | Datatypes.S fuel => fun f =>
      match os_ReadDir p f with
      | Fail e => (f, Fail e)
      | Ok names => remove_each (removeDirNoFollow fuel) p names f
      end
  end.
Definition local_Remove (p : string) (recursive : bool) : M LFS unit := fun f =>
  match os_Lstat p f with
  | Fail e => (f, Fail e)
  | Ok x => if is_dir x && recursive then removeDirNoFollow (Datatypes.S (size (l_nodes f))) p f else os_Remove p f
  end.

Definition local_IsEmpty (p : string) (f : LFS) : result bool :=
  match os_ReadDir p f with
  | Fail e => if is_NotExist e then Ok true else Fail e
  | Ok names => Ok (length names =? 0)%nat
  end.
(** [filepath.WalkDir] stops at the limit without an error. *)
Definition local_CountChildren (p : string) (limit : Z) (f : LFS) : Z * bool :=
  match os_node false p f with
  | Fail _ => (0, 0 <? limit)
  | Ok (q, LDir) =>
      let n := Z.of_nat (length (List.filter (fun k => bool_decide (q `prefix_of` k) && negb (bool_decide (k = q))) (map_to_list (l_nodes f)).*1)) in
      (if 0 <? n then n `min` (1 `max` limit) else n, true)
  | Ok _ => (0, true)
  end.

#[global] Instance LocalFS : BrowserFS LFS := {|
  fs_Current := l_cwd; fs_SetCurrent := local_SetCurrent; fs_List := local_List; fs_Mkdir := os_Mkdir; fs_Rename := local_Rename;
  fs_Remove := local_Remove; fs_Join := path_join; fs_Parent := local_Parent; fs_Stat := local_Stat; fs_IsEmpty := local_IsEmpty;
  fs_CountChildren := local_CountChildren; fs_Capabilities := fun _ => mkCapabilities true true true false;
|}.

(** ** Paths *)

Record file_name (c : string) : Prop := {
  fn_nonempty : c <> EmptyString; fn_slash : split_on slash c = [c]; fn_dot : c <> "."%string; fn_dots : c <> ".."%string;
}.
(** Every node is in a directory. *)
Record lwf (n : gmap path lnode) : Prop := {
  lw_root : n !! [] = None;
  lw_parent p c : is_Some (n !! (p ++ [c])) -> node_at n p = Some LDir;
  lw_names p : is_Some (n !! p) -> Forall file_name p;
}.
Definition abs (p : path) : string := ("/" +:+ join_with "/" p)%string.

Lemma join_snoc p c : p <> [] -> join_with "/" (p ++ [c]) = (join_with "/" p +:+ "/" +:+ c)%string.
Proof.
  induction p as [|d p IH]; [done|]. intros _. destruct p as [|e p]; [done|]. cbn [app join_with] in *. rewrite IH by done. by rewrite !str_app_assoc.
Qed.
Lemma split_join p : p <> [] -> Forall file_name p -> split_on slash (join_with "/" p) = p.
Proof.
  induction p as [|c p IH]; [done|]. intros _ [Hc Hp]%Forall_cons. destruct p as [|d p]; [by apply fn_slash|].
  change (join_with "/" (c :: d :: p)) with (c +:+ String slash (join_with "/" (d :: p)))%string.
  by rewrite split_on_app, (fn_slash _ Hc), (IH ltac:(done) Hp).
Qed.
Lemma split_abs p : p <> [] -> Forall file_name p -> split_on slash (abs p) = EmptyString :: p.
Proof. intros Hp Hf. change (abs p) with ("" +:+ String slash (join_with "/" p))%string. by rewrite split_on_app, split_join. Qed.
Lemma clean_names p stack : Forall file_name p -> clean_parts true stack p = reverse stack ++ p.
Proof.
  revert stack. induction p as [|c p IH]; intros stack Hf; cbn [clean_parts]; [by rewrite app_nil_r|]. apply Forall_cons in Hf as [[Hc _ Hd Hdd] Hp].
  assert (str_empty c = false) as -> by (by destruct c). rewrite (proj2 (String.eqb_neq _ _) Hd), (proj2 (String.eqb_neq _ _) Hdd). cbn [orb].
  rewrite IH by done. by rewrite reverse_cons, <- app_assoc.
Qed.
Lemma join_abs p c : p <> [] -> Forall file_name (p ++ [c]) -> path_join [abs p; c] = abs (p ++ [c]).
Proof.
  intros Hp Hf. pose proof Hf as [_ Hc]%Forall_app. apply Forall_cons in Hc as [Hc _]. unfold path_join.
  assert (filter (fun e => negb (str_empty e)) [abs p; c] = [abs p; c]) as -> by (cbn; destruct c; [by destruct Hc|done]).
  cbn [join_with]. assert (abs p +:+ "/" +:+ c = abs (p ++ [c]))%string as -> by (unfold abs; rewrite join_snoc by done; by rewrite !str_app_assoc).
  unfold path_clean. cbn [str_empty abs]. change (has_prefix "/" (abs (p ++ [c]))) with true. cbn iota.
  rewrite split_abs by (done || by destruct p). cbn [clean_parts str_empty orb]. by rewrite clean_names.
Qed.

(** A node is found under its own path, through directories only. *)
Lemma lwf_prefix n p c r : lwf n -> r <> [] -> is_Some (n !! (p ++ c :: r)) -> n !! (p ++ [c]) = Some LDir.
Proof.
  intros Hw. induction r as [|d r IH] using rev_ind; [done|]. intros _ Hs.
  rewrite app_comm_cons, app_assoc in Hs. apply (lw_parent _ Hw) in Hs. destruct r as [|e r]; [cbn in Hs; by destruct p|].
  apply IH; [done|]. unfold node_at in Hs. destruct (p ++ c :: e :: r) eqn:E; [by destruct p|]. by rewrite Hs.
Qed.
Lemma walk_ok links n follow dir rest x : lwf n -> rest <> [] -> n !! (dir ++ rest) = Some x -> (follow = false \/ is_link x = false) ->
  walk links n follow dir rest = Ok (dir ++ rest).
Proof.
  intros Hw. revert dir. induction rest as [|c rest IH]; [done|]. intros dir _ Hx Hl.
  assert (file_name c) as [Hc _ Hd Hdd].
  { pose proof (lw_names _ Hw (dir ++ c :: rest) ltac:(by rewrite Hx)) as Hf. apply Forall_app in Hf as [_ Hf]. by apply Forall_cons in Hf as [? _]. }
  assert (forall n' l, walk l n' follow dir (c :: rest) = match n' !! (dir ++ [c]) with
      | None => Fail ENotExist | Some LDir => walk l n' follow (dir ++ [c]) rest
      | Some LFile => match rest with [] => Ok (dir ++ [c]) | _ => Fail ENOTDIR end
      | Some (LLink t) => if (length rest =? 0)%nat && negb follow then Ok (dir ++ [c])
          else match l with O => Fail ELOOP | Datatypes.S l => walk l n' follow (if has_prefix "/" t then [] else dir) (split_on slash t ++ rest) end end) as ->.
  { intros n' [|l]; cbn; (assert (str_empty c = false) as -> by (by destruct c)); by rewrite (proj2 (String.eqb_neq _ _) Hd), (proj2 (String.eqb_neq _ _) Hdd). }
  destruct rest as [|d rest].
  - rewrite Hx. destruct x as [| |t]; [by destruct links|done|]. destruct Hl as [-> | ?]; [|done]. done.
  - rewrite (lwf_prefix n dir c (d :: rest) Hw) by (done || by rewrite Hx). rewrite IH; [by rewrite <- app_assoc|done|by rewrite <- app_assoc|done].
Qed.
Lemma os_node_ok follow f q x : lwf (l_nodes f) -> l_nodes f !! q = Some x -> (follow = false \/ is_link x = false) ->
  os_node follow (abs q) f = Ok (q, x).
Proof.
  intros Hw Hx Hl. destruct q as [|c q]; [by rewrite (lw_root _ Hw) in Hx|]. unfold os_node, resolve_path.
  change (has_prefix "/" (abs (c :: q))) with true. cbn iota. rewrite split_abs by (done || by apply (lw_names _ Hw); rewrite Hx).
  assert (forall l, walk l (l_nodes f) follow [] (EmptyString :: c :: q) = walk l (l_nodes f) follow [] (c :: q)) as -> by (by intros []).
  rewrite (walk_ok _ _ _ [] (c :: q) x) by done. cbn [app mbind result_bind node_at]. by rewrite Hx.
Qed.

(** ** Removing a tree *)

Definition without (q : path) (n : gmap path lnode) : gmap path lnode := filter (fun x => ~ q `prefix_of` x.1) n.
Definition below (q : path) (n : gmap path lnode) : gmap path lnode := filter (fun x => q `prefix_of` x.1) n.

Lemma without_lookup q n k : without q n !! k = if decide (q `prefix_of` k) then None else n !! k.
Proof.
  unfold without. case_decide as Hd.
  - apply map_lookup_filter_None. right. intros x _ Hn. by apply Hn.
  - destruct (n !! k) as [x|] eqn:E; [by apply map_lookup_filter_Some|apply map_lookup_filter_None; by left].
Qed.
Lemma without_below q c n : without q (without (q ++ [c]) n) = without q n.
Proof.
  apply map_eq. intros k. rewrite !without_lookup. case_decide as Hd; [done|]. rewrite decide_False; [done|]. intros [r ->]. apply Hd.
  rewrite <- app_assoc. by apply prefix_app_r.
Qed.

Lemma elem_child_names n p c : c ∈ child_names n p <-> is_Some (n !! (p ++ [c])).
Proof.
  unfold child_names. rewrite elem_of_sort_slice, list_elem_of_omap. split.
  - intros (k & ([k' x] & -> & Hk)%list_elem_of_fmap & Hc). apply elem_of_map_to_list in Hk. unfold child_of in Hc. simpl in Hc.
    destruct (last k') as [d|]; [|done]. case_bool_decide as Ek; [|done]. injection Hc as <-. rewrite <- Ek. by exists x.
  - intros [x Hx]. exists (p ++ [c]). split; [apply list_elem_of_fmap; exists (p ++ [c], x); split; [done|by apply elem_of_map_to_list]|].
    unfold child_of. rewrite last_snoc. by rewrite bool_decide_eq_true_2.
Qed.
Lemma child_names_NoDup n p : NoDup (child_names n p).
Proof.
  unfold child_names. rewrite sort_slice_perm. pose proof (NoDup_fst_map_to_list n) as Hn. induction ((map_to_list n).*1) as [|k ks IH]; [constructor|].
  apply NoDup_cons in Hn as [Hk Hn]. cbn [omap list_omap]. destruct (child_of p k) as [c|] eqn:E; [|by apply IH]. constructor; [|by apply IH].
  rewrite list_elem_of_omap. intros (k' & Hin & E'). apply Hk. unfold child_of in E, E'. destruct (last k) as [d|]; [|done]. destruct (last k') as [d'|]; [|done].
  case_bool_decide as E1; [|done]. case_bool_decide as E2; [|done]. assert (d = d') as <- by congruence. congruence.
Qed.

Lemma lwf_no_child n q k : lwf n -> (forall c, n !! (q ++ [c]) = None) -> is_Some (n !! (q ++ k)) -> k = [].
Proof.
  intros Hw Hc Hs. destruct k as [|c k]; [done|]. destruct k as [|d k]; [rewrite Hc in Hs; by destruct Hs|].
  specialize (Hc c). by rewrite (lwf_prefix n q c (d :: k) Hw ltac:(done) Hs) in Hc.
Qed.
Lemma without_leaf n q : lwf n -> (forall c, n !! (q ++ [c]) = None) -> without q n = delete q n.
Proof.
  intros Hw Hc. apply map_eq. intros k. rewrite without_lookup, lookup_delete. case_decide as Hd.
  - destruct Hd as [r ->]. case_decide as He; [done|]. destruct (n !! (q ++ r)) eqn:E; [|done].
    rewrite (lwf_no_child n q r Hw Hc ltac:(by rewrite E)) in He. by rewrite app_nil_r in He.
  - by rewrite decide_False by (intros ->; by apply Hd).
Qed.
Lemma lwf_without n q : lwf n -> lwf (without q n).
Proof.
  intros Hw. constructor.
  - rewrite without_lookup. case_decide; [done|apply (lw_root _ Hw)].
  - intros p c Hs. rewrite without_lookup in Hs. case_decide as Hd; [by destruct Hs|]. apply (lw_parent _ Hw) in Hs. destruct p as [|d p]; [done|]. cbn [node_at] in *.
    rewrite without_lookup, decide_False; [done|]. intros Hp. apply Hd. by apply prefix_app_r.
  - intros p Hs. rewrite without_lookup in Hs. case_decide; [by destruct Hs|by apply (lw_names _ Hw)].
Qed.

Lemma os_Remove_leaf f q x : lwf (l_nodes f) -> l_nodes f !! q = Some x -> (forall c, l_nodes f !! (q ++ [c]) = None) ->
  os_Remove (abs q) f = (set_lnodes (without q (l_nodes f)) f, Ok tt).
Proof.
  intros Hw Hx Hc. unfold os_Remove. rewrite (os_node_ok false f q x) by (done || by left). rewrite (without_leaf _ _ Hw Hc).
  destruct q as [|d q]; [by rewrite (lw_root _ Hw) in Hx|]. destruct x; [|done..].
  destruct (child_names (l_nodes f) (d :: q)) as [|c cs] eqn:E; [done|].
  assert (is_Some (l_nodes f !! ((d :: q) ++ [c]))) as [y Hy] by (apply elem_child_names; rewrite E; by left). by rewrite Hc in Hy.
Qed.

Lemma below_smaller n q c x : n !! q = Some x -> (size (below (q ++ [c]) n) < size (below q n))%nat.
Proof.
  intros Hx. apply map_subset_size. apply map_subset_alt. split.
  - apply map_subseteq_spec. intros k y [Hy Hp]%map_lookup_filter_Some. apply map_lookup_filter_Some. split; [done|]. simpl in *. by eapply prefix_app_l.
  - exists q. split.
    + apply map_lookup_filter_None. right. intros y _ [r Hr]. simpl in Hr. apply (f_equal length) in Hr. rewrite !length_app in Hr. simpl in Hr. lia.
    + exists x. by apply map_lookup_filter_Some.
Qed.

Lemma remove_each_ok (dir : string -> M LFS unit) (bound : nat) q names f :
  (forall f' r, lwf (l_nodes f') -> l_nodes f' !! r = Some LDir -> (size (below r (l_nodes f')) <= bound)%nat ->
     dir (abs r) f' = (set_lnodes (without r (l_nodes f')) f', Ok tt)) ->
  lwf (l_nodes f) -> l_nodes f !! q = Some LDir -> (size (below q (l_nodes f)) <= Datatypes.S bound)%nat -> NoDup names ->
  (forall c, c ∈ names <-> is_Some (l_nodes f !! (q ++ [c]))) ->
  remove_each dir (abs q) names f = (set_lnodes (without q (l_nodes f)) f, Ok tt).
Proof.
  intros Hdir. revert f. induction names as [|c names IH]; intros f Hw Hq Hb Hnd Hin; cbn [remove_each].
  { apply (os_Remove_leaf f q LDir Hw Hq). intros c. destruct (l_nodes f !! (q ++ [c])) eqn:E; [|done].
    exfalso. apply (not_elem_of_nil c), Hin. by rewrite E. }
  apply NoDup_cons in Hnd as [Hc Hnd]. destruct (proj1 (Hin c) ltac:(by left)) as [x Hx].
  assert (q <> []) as Hne by (intros ->; by rewrite (lw_root _ Hw) in Hq).
  cbv zeta. rewrite join_abs by (done || by apply (lw_names _ Hw); rewrite Hx). unfold os_Lstat. rewrite (os_node_ok false f (q ++ [c]) x) by (done || by left).
  cbn [fmap result_fmap snd].
  assert ((if is_dir x then dir (abs (q ++ [c])) else os_Remove (abs (q ++ [c]))) f = (set_lnodes (without (q ++ [c]) (l_nodes f)) f, Ok tt)) as ->.
  { destruct (is_dir x) eqn:Ed.
    - destruct x; try done. apply Hdir; [done|done|]. pose proof (below_smaller (l_nodes f) q c LDir Hq). lia.
    - apply (os_Remove_leaf f (q ++ [c]) x Hw Hx). intros d. destruct (l_nodes f !! ((q ++ [c]) ++ [d])) eqn:E; [|done].
      pose proof (lw_parent _ Hw (q ++ [c]) d ltac:(by rewrite E)) as Hp. unfold node_at in Hp. destruct (q ++ [c]) eqn:Eq; [by destruct q|].
      rewrite Hx in Hp. injection Hp as ->. done. }
  set (f' := set_lnodes _ f). rewrite (IH f').
  - unfold f'. cbn [l_nodes set_lnodes]. unfold set_lnodes. cbn. by rewrite without_below.
  - by apply lwf_without.
  - cbn [l_nodes f' set_lnodes]. rewrite without_lookup, decide_False; [done|]. intros [r Hr]. apply (f_equal length) in Hr. rewrite !length_app in Hr. simpl in Hr. lia.
  - etrans; [|exact Hb]. apply map_subseteq_size. cbn [l_nodes f' set_lnodes]. apply map_filter_subseteq_mono, map_filter_subseteq.
  - done.
  - intros d. cbn [l_nodes f' set_lnodes]. rewrite without_lookup. specialize (Hin d). rewrite elem_of_cons in Hin. case_decide as Hd.
    + assert (d = c) as -> by (destruct Hd as [r Hr]; rewrite <- app_assoc in Hr; apply app_inv_head in Hr; by injection Hr). split; [done|]. by intros [? ?].
    + rewrite <- Hin. split; [auto|]. intros [-> | ?]; [|done]. by destruct Hd.
Qed.

Lemma removeDirNoFollow_run fuel f q : lwf (l_nodes f) -> l_nodes f !! q = Some LDir -> (size (below q (l_nodes f)) <= fuel)%nat ->
  removeDirNoFollow fuel (abs q) f = (set_lnodes (without q (l_nodes f)) f, Ok tt).
Proof.
  revert f q. induction fuel as [|fuel IH]; intros f q Hw Hq Hb.
  { assert (below q (l_nodes f) !! q = Some LDir) as Hin by (by apply map_lookup_filter_Some). apply Nat.le_0_r, map_size_empty_iff in Hb.
    rewrite Hb in Hin. by rewrite lookup_empty in Hin. }
  cbn [removeDirNoFollow]. unfold os_ReadDir. rewrite (os_node_ok true f q LDir) by (done || by right). cbn [mbind result_bind fst snd].
  apply (remove_each_ok _ fuel); [exact IH|done..|apply child_names_NoDup|intros c; apply elem_child_names].
Qed.

(** Deleting a folder recursively ends and removes that folder and what is in it, completely,
    and nothing else: every path at or below it is gone afterwards and every other path is as it
    was; a symbolic link in the folder is removed and not followed. *)
Theorem removeDirNoFollow_exact (f : LFS) (q : path) :
  lwf (l_nodes f) -> l_nodes f !! q = Some LDir ->
  exists f', fs_Remove (abs q) true f = (f', Ok tt) /\ lwf (l_nodes f') /\
    forall k, l_nodes f' !! k = if decide (q `prefix_of` k) then None else l_nodes f !! k.
Proof.
  intros Hw Hq. exists (set_lnodes (without q (l_nodes f)) f). split; [|split; [by apply lwf_without|intros k; apply without_lookup]].
  cbn [fs_Remove LocalFS]. unfold local_Remove, os_Lstat. rewrite (os_node_ok false f q LDir) by (done || by left). cbn [fmap result_fmap snd is_dir andb].
  apply removeDirNoFollow_run; [done..|]. etrans; [apply map_subseteq_size, map_filter_subseteq|lia].
Qed.
