(* ===== verification/RcloneBrowser.v ===== *)
(** [internal/transport/rclone/browser.go]: the folders of an rclone remote as
    a file system of the folder browser. The browser reads through pure
    functions: what a listing changes in rclone's own caches is not kept. *)

From S2P Require Import Prelude Transport Rclone Picker.

Section Browser.
Context {F B : Type} `{!Rclone F B} (ToLower : string -> string) (uuid : B -> string) (now : B -> Time).
Context (fuel : nat) (t : RTransport F).

Record Browser := mkBrowser { br_remote : B; br_cwd : string }.

Definition br_set (b : B) (w : Browser) : Browser := mkBrowser b (br_cwd w).
Definition NewBrowser (b : B) : Browser := mkBrowser b "".
Definition SetCurrent (p : string) (w : Browser) : Browser := mkBrowser (br_remote w) (trim_char slash p).

Definition Parent (p : string) : string :=
  let p := trim_char slash p in
  if str_empty p || String.eqb p "." then EmptyString
  else let d := path_dir p in if String.eqb d "." then EmptyString else d.

Definition browser_Capabilities : Picker.Capabilities :=
  let c := capabilities t in
  Picker.mkCapabilities (tc_Mkdir c) (tc_Rename c) (tc_RecursiveDelete c) (tc_ListingExpensive c).

(** The answer to a read. *)
Definition ask {A} (m : M B A) (w : Browser) : result A := (m (br_remote w)).2.

Definition browser_List (p : string) (w : Browser) : result (list Entry) :=
  dirs ← ask (Rclone.ListDirs ToLower t p) w;
  Ok (List.map (fun d => mkEntry (path_base d) d true false false "/") dirs).

Definition browser_Mkdir (p : string) : M Browser unit := zoom br_remote br_set (Rclone.Mkdir ToLower uuid now t p).

Definition browser_Rename (old new : string) : M Browser unit :=
  if negb (tc_Rename (capabilities t)) then fail (EMsg "rename is not supported (or is expensive) on this backend")
  else fail (EMsg "remote rename is disabled in the config picker").

Definition browser_Remove (p : string) (recursive : bool) : M Browser unit :=
  let base := path_base p in
  if existsb (String.eqb base) ["metadata"; "keys"; "events"; "checkpoints"; "acks"]%string
  then fail (EMsg ("refusing to delete remnix repository path " +:+ base))
  else if negb recursive
  then zoom br_remote br_set
         (e ← call (rc_Rmdir (t_fs t) (trim_char slash p));
          of_result (match e with Some e => Fail (raw e) | None => Ok tt end))
  else zoom br_remote br_set (Rclone.Remove ToLower fuel t p).

Definition browser_Stat (p : string) (w : Browser) : result Entry :=
  dirs ← browser_List (Parent p) w;
  match List.find (fun e => String.eqb (en_Name e) (path_base p)) dirs with
  | Some e => Ok e
  | None => if str_empty p || String.eqb p "." then Ok (mkEntry "" "" true false false "") else Fail ENotExist
  end.

Definition browser_IsEmpty (p : string) (w : Browser) : result bool :=
  objs ← ask (Rclone.ListShallow ToLower t p) w;
  dirs ← ask (Rclone.ListDirs ToLower t p) w;
  Ok ((length objs =? 0)%nat && (length dirs =? 0)%nat).

(** The browser shows the count and does not look at the error. *)
Definition browser_CountChildren (p : string) (limit : Z) (w : Browser) : Z * bool :=
  match ask (Rclone.ListShallow ToLower t p) w, ask (Rclone.ListDirs ToLower t p) w with
  | Ok objs, Ok dirs => let n := Z.of_nat (length objs + length dirs) in (n, n <? limit)
  | _, _ => (0, false)
  end.

#[global] Instance RemoteFS : BrowserFS Browser := {|
  fs_Current := br_cwd; fs_SetCurrent := SetCurrent; fs_List := browser_List; fs_Mkdir := browser_Mkdir;
  fs_Rename := browser_Rename; fs_Remove := browser_Remove; fs_Join := path_join; fs_Parent := Parent;
  fs_Stat := browser_Stat; fs_IsEmpty := browser_IsEmpty; fs_CountChildren := browser_CountChildren;
  fs_Capabilities := fun _ => browser_Capabilities;
|}.

(** The directories of a repository survive whatever the browser is told:
    nothing is asked of the remote. *)
Theorem browser_spares_layout p recursive w :
  path_base p ∈ layout -> exists e, browser_Remove p recursive w = (w, Fail e).
Proof.
  unfold layout, browser_Remove. intros Hp.
  assert (existsb (String.eqb (path_base p)) ["metadata"; "keys"; "events"; "checkpoints"; "acks"]%string = true) as ->.
  { apply existsb_exists. exists (path_base p). split; [|apply String.eqb_refl].
    apply list_elem_of_In. set_solver. }
  by eexists.
Qed.
End Browser.
