(* ===== verification/Keyring.v ===== *)
(** [internal/crypto/keyring/keyring.go]: the unlocked Sync Master Keys in the
    operating system's keyring. A backend is a record of operations on its
    state; [Memory] is the one the program brings along. The lock around the
    process-wide backend is not modelled. *)

From S2P Require Import Prelude Text.
From Stdlib Require Import Ascii.

Record Backend (K : Type) := mkBackend {
  bk_Set : string -> string -> bytes -> M K unit;
  bk_Get : string -> string -> M K bytes;
  bk_Delete : string -> string -> M K unit;
}.
Arguments bk_Set {K}. Arguments bk_Get {K}. Arguments bk_Delete {K}.

Definition service : string := "remnix".
Definition keyring_version : Z := 1.

(** [bundle]; a missing or null [keys] is [None]. *)
Record KeyBundle := mkKeyBundle { kb_Version : Z; kb_Keys : option (gmap string bytes) }.

(** [oskeyring.ErrNotFound] *)
Definition ErrNotFound : error := EMsg "secret not found in keyring".
Definition is_ErrNotFound (e : error) : bool :=
  match e with EMsg m => String.eqb m "secret not found in keyring" | _ => false end.

Definition account (deviceID : string) : string := ("smk-" +:+ deviceID)%string.

Section Keyring.
Context {K : Type} (current : Backend K) `{Codec KeyBundle}.
(** [strings.ToLower(err.Error())] *)
Context (lower_text : error -> string).

Definition isNotFound (e : error) : bool :=
  contains "not found" (lower_text e) || contains "cannot find" (lower_text e).
Definition annotate (e : error) : error :=
  if existsb (fun p => contains p (lower_text e))
       ["could not find"; "secret service"; "no such"; "dbus"; "unsupported"]%string
  then EWrap "OS keyring is unavailable" e else e.
Definition missing (e : error) : bool := errors_Is is_ErrNotFound e || isNotFound e.

(** Runs [m] with its error annotated. *)
Definition annotated {A} (m : M K A) : M K A :=
  r ← try m;
  match r with Ok a => mret a | Fail e => fail (annotate e) end.

Definition Set_ (deviceID : string) (smks : gmap string bytes) : M K unit :=
  if str_empty deviceID then fail (EMsg "keyring: missing device id")
  else annotated (bk_Set current service (account deviceID) (marshal (mkKeyBundle keyring_version (Some smks)))).

(** A nil map and an empty one read alike; both are [∅]. *)
Definition Get (deviceID : string) : M K (gmap string bytes) :=
  if str_empty deviceID then mret ∅
  else
    r ← try (bk_Get current service (account deviceID));
    match r with
    | Fail e => if missing e then mret ∅ else fail (annotate e)
    | Ok s =>
        match (unmarshal s : option KeyBundle) with
        | None => fail (EWrap "keyring: corrupt SMK entry" (EMsg "json"))
        | Some b => mret (default ∅ (kb_Keys b))
        end
    end.

Definition Delete (deviceID : string) : M K unit :=
  if str_empty deviceID then mret tt
  else
    r ← try (bk_Delete current service (account deviceID));
    match r with
    | Ok _ => mret tt
    | Fail e => if missing e then mret tt else fail (annotate e)
    end.

(** [host] is the host name of the probe entry. *)
Definition Available (ok : bytes) (host : string) : M K unit :=
  let probe := account ("probe-" +:+ host) in
  _ ← annotated (bk_Set current service probe ok);
  ignore (bk_Delete current service probe).
End Keyring.

(** ** The in-memory backend *)

Abbreviation MemoryState := (gmap string bytes).
Definition memory_key (service user : string) : string := (service +:+ String NUL user)%string.
Definition Memory : Backend MemoryState := {|
  bk_Set service user password := modify (<[memory_key service user := password]>);
  bk_Get service user := fun m =>
    (m, match m !! memory_key service user with Some s => Ok s | None => Fail ErrNotFound end);
  bk_Delete service user := modify (delete (memory_key service user));
|}.

(** ** What a client relies on *)

(** A backend keeps one secret per user name: what is set is read back until it
    is set again or deleted, other users' secrets are not affected, a failed
    operation changes nothing and a deletion that reports a missing secret
    means there is none. *)
Class KeyringBackend {K : Type} (lower_text : error -> string) (bk : Backend K) := {
  secrets : K -> string -> option bytes;
  bk_set_spec u b k k' r : bk_Set bk service u b k = (k', r) ->
    match r with
    | Ok _ => secrets k' u = Some b /\ forall u', u' <> u -> secrets k' u' = secrets k u'
    | Fail _ => secrets k' = secrets k
    end;
  bk_get_spec u k : (bk_Get bk service u k).1 = k /\
    match secrets k u with
    | Some b => (bk_Get bk service u k).2 = Ok b
    | None => exists e, (bk_Get bk service u k).2 = Fail e /\ errors_Is is_ErrNotFound e = true
    end;
  bk_delete_spec u k k' r : bk_Delete bk service u k = (k', r) ->
    match r with
    | Ok _ => secrets k' u = None /\ forall u', u' <> u -> secrets k' u' = secrets k u'
    | Fail e => secrets k' = secrets k /\ (missing lower_text e = true -> secrets k u = None)
    end;
}.

Lemma memory_key_inj s u u' : memory_key s u = memory_key s u' -> u = u'.
Proof.
  unfold memory_key. induction s as [|c s IH]; simpl; [by intros [= ->]|]. intros E.
  apply IH. by injection E.
Qed.

#[global, refine] Instance Memory_backend lower_text : KeyringBackend lower_text Memory := {
  secrets m u := m !! memory_key service u }.
Proof.
  - intros u b k k' r [= <- <-]. split; [apply lookup_insert_eq|]. intros u' Hne. apply lookup_insert_ne.
    intros E. by apply memory_key_inj in E.
  - intros u k. split; [done|]. simpl. destruct (k !! memory_key service u); [done|]. by eexists.
  - intros u k k' r [= <- <-]. split; [apply lookup_delete_eq|]. intros u' Hne. apply lookup_delete_ne.
    intros E. by apply memory_key_inj in E.
Qed.

Section Store.
Context {K : Type} (lower_text : error -> string) (bk : Backend K) `{!KeyringBackend lower_text bk}.
Context `{!Codec KeyBundle, !CodecLaws KeyBundle}.
Notation reads id k := (Get bk lower_text id k).2.

Lemma keyring_Get_spec id k :
  id <> EmptyString ->
  Get bk lower_text id k =
  (k, match secrets (bk := bk) k (account id) with
      | Some b => match (unmarshal b : option KeyBundle) with
                  | None => Fail (EWrap "keyring: corrupt SMK entry" (EMsg "json"))
                  | Some b => Ok (default ∅ (kb_Keys b))
                  end
      | None => Ok ∅
      end).
Proof.
  intros Hid. unfold Get. destruct id as [|c id]; [done|]. simpl. unfold try, mbind, M_bind.
  destruct (bk_get_spec (account (String c id)) k) as [E1 S1].
  destruct (bk_Get bk _ _ k) as [k1 r1]. simpl in *. subst k1.
  destruct (secrets k _) as [b|].
  - subst r1. by destruct (unmarshal b).
  - destruct S1 as (e1 & -> & H1). unfold missing. by rewrite H1.
Qed.

(** Users of other devices are other users. *)
Lemma Get_other id k k' :
  (forall u, u <> account id -> secrets (bk := bk) k' u = secrets k u) ->
  forall id', id' <> id -> reads id' k' = reads id' k.
Proof.
  intros Hu id' Hne. destruct (decide (id' = EmptyString)) as [->|Hid]; [done|].
  rewrite !keyring_Get_spec by done. rewrite Hu; [done|]. intros [= E]. done.
Qed.

(** What is stored for a device is read back for it until it is deleted, after which nothing is
    read; storing and deleting leave what other devices read as it was, a failed store leaves
    everything as it was, and an empty device identifier never reaches the backend. *)
Theorem keyring_roundtrip (id : string) (smks : gmap string bytes) (k : K) :
  codec_valid (mkKeyBundle keyring_version (Some smks)) ->
  (forall k', Set_ bk lower_text id smks k = (k', Ok tt) -> reads id k' = Ok smks) /\
  (forall k' e, Set_ bk lower_text id smks k = (k', Fail e) -> forall id', reads id' k' = reads id' k) /\
  (forall k', Delete bk lower_text id k = (k', Ok tt) -> reads id k' = Ok ∅) /\
  (forall k' id', k' = (Set_ bk lower_text id smks k).1 \/ k' = (Delete bk lower_text id k).1 ->
     id' <> id -> reads id' k' = reads id' k) /\
  (id = EmptyString -> (Set_ bk lower_text id smks k).1 = k /\ Get bk lower_text id k = (k, Ok ∅) /\
     Delete bk lower_text id k = (k, Ok tt)).
Proof.
  intros Hv. destruct (decide (id = EmptyString)) as [->|Hid].
  { split; [done|]. split; [by intros k' e [= <- _]|]. split; [by intros k' [= <-]|].
    split; [by intros k' id' [->| ->]|done]. }
  assert (exists ks rs, Set_ bk lower_text id smks k = (ks, rs) /\
    match rs with
    | Ok _ => secrets ks (account id) = Some (marshal (mkKeyBundle keyring_version (Some smks))) /\
              forall u', u' <> account id -> secrets ks u' = secrets k u'
    | Fail _ => secrets ks = secrets k
    end) as (ks & rs & Es & Hs).
  { unfold Set_, annotated, try, mbind, M_bind. destruct id as [|c id]; [done|]. simpl.
    destruct (bk_Set bk _ _ _ k) as [ks r] eqn:E. pose proof (bk_set_spec _ _ _ _ _ E) as Hr.
    destruct r as [[]|e]; by eexists _, _. }
  assert (exists kd rd, Delete bk lower_text id k = (kd, rd) /\
    (forall u', u' <> account id -> secrets kd u' = secrets k u') /\
    (rd = Ok tt -> secrets kd (account id) = None)) as (kd & rd & Ed & Hd1 & Hd2).
  { unfold Delete, try, mbind, M_bind. destruct id as [|c id]; [done|]. simpl.
    destruct (bk_Delete bk _ _ k) as [kd r] eqn:E. pose proof (bk_delete_spec _ _ _ _ E) as Hr.
    destruct r as [[]|e]; [destruct Hr; by eexists _, _|]. destruct Hr as [Hr1 Hr2].
    destruct (missing lower_text e); eexists _, _; (split; [reflexivity|]); rewrite Hr1; split; auto; done. }
  rewrite Es, Ed. split_and!.
  - intros k' [= <- ->]. destruct Hs as [Hs _]. rewrite keyring_Get_spec, Hs by done. by rewrite unmarshal_marshal.
  - intros k' e [= <- ->] id'. destruct (decide (id' = EmptyString)) as [->|?]; [done|].
    rewrite !keyring_Get_spec by done. by rewrite Hs.
  - intros k' [= <- ->]. rewrite keyring_Get_spec by done. by rewrite Hd2.
  - intros k' id' [->| ->] Hne; (eapply Get_other; [|exact Hne]); simpl; [|done].
    destruct rs; [apply Hs|]. intros u _. by rewrite Hs.
  - done.
Qed.
End Store.
