(* ===== verification/App.v ===== *)
(** [internal/app] ([sync.go], [gc.go], [lock.go], [open.go]): the operations
    of the program over all configured endpoints. The state is the local
    database, the remotes (the i-th belongs to the i-th configured endpoint),
    the keyring and the lock file. Two endpoints that name the same location
    are not modelled: each has a remote of its own. An engine is built per
    endpoint and call; its database is the shared one, its key cache is what
    the keyring holds, and the keys it hands to [StoreSMKs] go back there. *)

From S2P Require Import Prelude Database History Frontier Event Device Merge Bundle Snapshot Keys.
From S2P Require Import KeyStore Transport Gc Roster Engine Repository Rotate Equalize Text Config.
From S2P Require Keyring.

Record App (S K : Type) := mkApp {
  ap_db : DB;
  ap_remotes : list S;
  ap_keyring : K;
  ap_locked : bool;
}.
Arguments mkApp {S K}. Arguments ap_db {S K}. Arguments ap_remotes {S K}.
Arguments ap_keyring {S K}. Arguments ap_locked {S K}.

(** An endpoint with its position in the configuration, and with its transport
    once it is open. *)
Abbreviation Placed := (nat * Endpoint)%type.
Record openedEndpoint (S : Type) := mkOpened { oe_pos : nat; oe_ep : Endpoint; oe_tr : Transport S }.
Arguments mkOpened {S}. Arguments oe_pos {S}. Arguments oe_ep {S}. Arguments oe_tr {S}.

Section App.
Context {S K : Type} (cfg : Config) (backend : Keyring.Backend K).
Context `{Sha256} `{EventCodecs} `{Aead} `{BundleCodecs} `{Mac} `{Gzip} `{SnapshotCodecs}.
Context `{Codec Manifest} `{Codec AckFile} `{Codec GManifest} `{Codec WrapParams} `{Codec YubiMeta}
  `{Codec RemoteManifest} `{Codec DeviceFile} `{Codec remoteManifest} `{Codec Keyring.KeyBundle}.
(** The host and its environment. *)
Context (host : string) (env : Env) (lower_text : error -> string)
  (OpenHMACDevices : result (list FidoDevice)) (recovery_Decode : string -> result bytes)
  (ParseDuration : string -> option Z) (json_counter : bytes -> option Z).
(** The constructors of the transports. *)
Context (New_directory : string -> Transport S) (New_rsync : string -> string -> Transport S)
  (New_scp : string -> string -> string -> string -> Z -> Transport S)
  (rclone_Init : string -> result unit) (rclone_Open : string -> string -> result (Transport S)).
(** The clock and the nonces an engine draws, by endpoint. *)
Context (now : nat -> Time) (nonce : nat -> bytes).

Notation St := (App S K).

Definition app_sql {A} (m : M DB A) : M St A :=
  zoom ap_db (fun d a => mkApp d (ap_remotes a) (ap_keyring a) (ap_locked a)) m.

(** ** Engines ([newEngine], [LocalEngine]) *)

Definition recovery_secret (secret : bytes) : bytes :=
  match secret with
  | [] => let e := env_Getenv env "REMNIX_RECOVERY_KEY" in
          if str_empty e then []
          else match recovery_Decode e with Ok s => s | Fail _ => [] end
  | _ => secret
  end.

Definition engine_options (endpointID : string) (secret : bytes) (tokens : list Token)
    (fido : option (list FidoDevice)) : Options :=
  mkOptions (cf_DeviceID cfg) (cf_DeviceName cfg) host (recovery_secret secret) tokens fido endpointID.

Definition local_options : Options :=
  mkOptions (cf_DeviceID cfg) (cf_DeviceName cfg) host [] [] None "".

(** [keyring.Set] for every call of [StoreSMKs], the errors dropped. *)
Definition store_keys (calls : list (gmap string bytes)) (k : K) : K :=
  foldl (fun k smks => (Keyring.Set_ backend lower_text (cf_DeviceID cfg) smks k).1) k calls.

Definition engine_cache (a : St) : gmap string bytes :=
  match (Keyring.Get backend lower_text (cf_DeviceID cfg) (ap_keyring a)).2 with
  | Ok smks => smks
  | Fail _ => ∅
  end.

(** A new engine for the endpoint at [i] runs [m]. *)
Definition with_engine {A} (i : nat) (m : M (ES S) A) : M St A := fun a =>
  match ap_remotes a !! i with
  | None => (a, Fail (EMsg "index out of range"))
  | Some s =>
      let '(es, r) := m (mkES (ap_db a) s cs_zero (engine_cache a) []) in
      (mkApp (es_db es) (<[i := es_tr es]> (ap_remotes a)) (store_keys (es_stored es) (ap_keyring a))
         (ap_locked a), r)
  end.

(** A call of the transport of the endpoint at [i]. *)
Definition on_remote (i : nat) {A} (m : M S A) : M St A := fun a =>
  match ap_remotes a !! i with
  | None => (a, Fail (EMsg "index out of range"))
  | Some s => let '(s', r) := m s in
              (mkApp (ap_db a) (<[i := s']> (ap_remotes a)) (ap_keyring a) (ap_locked a), r)
  end.

(** Calls over the remotes at [idx], as a world of their own. *)
Definition focus {A} (idx : list nat) (m : M (list S) A) : M St A := fun a =>
  match mapM (fun i => ap_remotes a !! i) idx with
  | None => (a, Fail (EMsg "index out of range"))
  | Some w =>
      let '(w', r) := m w in
      (mkApp (ap_db a) (foldl (fun l '(i, s) => <[i := s]> l) (ap_remotes a) (zip idx w'))
         (ap_keyring a) (ap_locked a), r)
  end.

(** ** Local changes *)

Definition App_EnqueueHistoryCreated (t : Time) (e : Entry) : M St unit :=
  app_sql (EnqueueHistoryCreated local_options t e).

Definition TombstoneEntries (t : Time) (entries : list Entry) : M St unit :=
  match entries with
  | [] => mret tt
  | _ => for_each entries (fun e => app_sql (EnqueueHistoryTombstoned local_options t e))
  end.

Definition TombstoneCommand (t : Time) (command : string) : M St unit :=
  if str_empty command then mret tt
  else entries ← gets (fun a => ListByCommand command (ap_db a)); TombstoneEntries t entries.

(** ** Opening endpoints *)

Definition OpenTransport (ep : Endpoint) : result (Transport S) :=
  let t := ep_Type ep in
  if str_empty t || String.eqb t TypeDirectory then
    let p := Expand env (ep_Path ep) in
    if str_empty p then Fail (EMsg "directory path is not configured") else Ok (New_directory p)
  else if String.eqb t TypeRsync then
    let work := path_join [DataDir env; "stage-rsync-" +:+ ep_ID ep]%string in
    let spec := Expand env (ep_Remote ep) in
    let spec := if str_empty spec then Expand env (ep_Path ep) else spec in
    if str_empty spec then Fail (EMsg "rsync remote is not configured") else Ok (New_rsync spec work)
  else if String.eqb t TypeSCP then
    let work := path_join [DataDir env; "stage-scp-" +:+ ep_ID ep]%string in
    let h := Expand env (ep_Host ep) in
    if str_empty h then Fail (EMsg "scp host is not configured")
    else Ok (New_scp h (Expand env (ep_User ep)) (Expand env (ep_Path ep)) work (ep_Port ep))
  else if String.eqb t TypeRclone then
    let name := if str_empty (ep_RcloneRemote ep) then ep_ID ep else ep_RcloneRemote ep in
    _ ← rclone_Init (RcloneConfigPath env);
    rclone_Open name (ep_Path ep)
  else Fail (EMsg "unknown type").

(** [EnabledEndpoints] and [Endpoint], with positions. *)
Definition placed : list Placed := imap pair (sy_Endpoints (cf_Sync cfg)).

Definition resolveEndpoints (onlyID : string) : result (list Placed) :=
  if negb (str_empty onlyID) then
    match List.find (fun p => has_id onlyID p.2) placed with
    | None => Fail (EMsg "endpoint not found")
    | Some p => Ok [p]
    end
  else match List.filter (fun p => ep_Enabled p.2) placed with
       | [] => Fail ESyncDisabled
       | eps => Ok eps
       end.

Fixpoint openEndpoints (eps : list Placed) : list (openedEndpoint S) * list error :=
  match eps with
  | [] => ([], [])
  | (i, ep) :: eps =>
      let '(live, errs) := openEndpoints eps in
      match OpenTransport ep with
      | Fail e => (live, EWrap (ep_ID ep) e :: errs)
      | Ok tr => (mkOpened i ep tr :: live, errs)
      end
  end.

Definition equalize_live (live : list (openedEndpoint S)) : M St unit :=
  focus (oe_pos <$> live) (Equalize (fun o => ep_ID (oe_ep o)) oe_tr json_counter live).

(** ** The lock *)

(** [MkdirAll] of the data directory, and [TryLock]'s own error. *)
Context (lock_dir lock_call : result unit).

Definition AcquireLock : M St unit := fun a =>
  match lock_dir, lock_call with
  | Fail e, _ => (a, Fail (EWrap "create lock dir" e))
  | _, Fail e => (a, Fail (EWrap "acquire lock" e))
  | _, _ => if ap_locked a then (a, Fail (EMsg "another remnix process holds the lock"))
            else (mkApp (ap_db a) (ap_remotes a) (ap_keyring a) true, Ok tt)
  end.

Definition Release : M St unit := modify (fun a => mkApp (ap_db a) (ap_remotes a) (ap_keyring a) false).

(** [lock, err := AcquireLock(); if err != nil { ... }; defer lock.Release()] *)
Definition locked {A} (m : M St A) : M St A :=
  _ ← AcquireLock;
  r ← try m;
  _ ← Release;
  of_result r.

(** ** Synchronization *)

Section Run.
Context (secret : bytes) (tokens : list Token) (fido : option (list FidoDevice)).
Definition opts_of (ep : Endpoint) : Options := engine_options (ep_ID ep) secret tokens fido.

Definition sync_endpoint (o : openedEndpoint S) : M St ChangeSet :=
  with_engine (oe_pos o) (
    _ ← Sync (oe_tr o) (opts_of (oe_ep o)) (now (oe_pos o)) OpenHMACDevices (nonce (oe_pos o));
    gets es_changes).

(** The loop over the live endpoints: errors are collected, not returned. *)
Fixpoint sync_live (live : list (openedEndpoint S)) (anyOK : bool) (cs : ChangeSet) (errs : list error)
    : M St (bool * ChangeSet * list error) :=
  match live with
  | [] => mret (anyOK, cs, errs)
  | o :: live =>
      r ← try (sync_endpoint o);
      match r with
      | Fail e => sync_live live anyOK cs (errs ++ [EWrap (ep_ID (oe_ep o)) e])
      | Ok c => sync_live live true (cs_Merge cs c) errs
      end
  end.

Definition join_all (errs : list error) : option error :=
  match errs with
  | [] => None
  | e :: es => Some (foldl EJoin e es)
  end.

(** The three results of the function: [anyOK], the change set, the error. *)
Definition syncUnlocked (onlyID : string) : M St (bool * ChangeSet * option error) :=
  match resolveEndpoints onlyID with
  | Fail e => mret (false, cs_zero, Some e)
  | Ok eps =>
      let '(live, errs) := openEndpoints eps in
      '(anyOK, cs, errs) ← sync_live live false cs_zero errs;
      if anyOK && str_empty onlyID && (1 <? length live)%nat then
        r ← try (equalize_live live);
        mret (anyOK, cs, join_all (errs ++ match r with Fail e => [e] | Ok _ => [] end))
      else mret (anyOK, cs, join_all errs)
  end.

(** [callbacks] is what [runCallbacks] returns. *)
Definition SyncOnly (callbacks : option error) (endpointID : string) : M St unit :=
  locked (
    '(anyOK, _, syncErr) ← syncUnlocked endpointID;
    let err := if (anyOK : bool) then join_all (option_list syncErr ++ option_list callbacks) else syncErr in
    match err with None => mret tt | Some e => fail e end).

Definition App_Sync (callbacks : option error) : M St unit := SyncOnly callbacks "".

Definition SyncEngineWithChanges : M St (ChangeSet * option error) :=
  locked ('(_, cs, err) ← syncUnlocked ""; mret (cs, err)).

(** ** Operations on every endpoint *)

(** [fn] returns what the closure captures and its error; [upd] is the
    assignment to the captured variable. *)
Fixpoint each_live {X B} (upd : X -> B -> X) (fn : openedEndpoint S -> M (ES S) (B * option error))
    (live : list (openedEndpoint S)) (x : X) (errs : list error) : M St (X * list error) :=
  match live with
  | [] => mret (x, errs)
  | o :: live =>
      r ← try (with_engine (oe_pos o) (fn o));
      let '(x, err) := match r with
                       | Ok (b, err) => (upd x b, err)
                       | Fail e => (x, Some e)
                       end in
      each_live upd fn live x
        (errs ++ match err with Some e => [EWrap (ep_ID (oe_ep o)) e] | None => [] end)
  end.

Definition forEachEndpoint {X B} (upd : X -> B -> X)
    (fn : openedEndpoint S -> M (ES S) (B * option error)) (x : X) : M St (X * option error) :=
  match resolveEndpoints "" with
  | Fail e => mret (x, Some e)
  | Ok eps =>
      let '(live, errs) := openEndpoints eps in
      '(x, errs) ← each_live upd fn live x errs;
      mret (x, join_all errs)
  end.

(** A closure that captures nothing. *)
Definition plain (fn : openedEndpoint S -> M (ES S) unit) : M St unit :=
  '(_, err) ← forEachEndpoint (fun u _ => u) (fun o => _ ← fn o; mret (tt, None)) tt;
  match err with None => mret tt | Some e => fail e end.

Definition App_RetireDevice (id : string) : M St unit :=
  locked (plain (fun o => RetireDevice (oe_tr o) (opts_of (oe_ep o)) (now (oe_pos o)) OpenHMACDevices id
                            (now (oe_pos o)))).

Definition App_PruneDevice (id : string) : M St unit :=
  locked (plain (fun o => PruneDevice (oe_tr o) (opts_of (oe_ep o)) (now (oe_pos o)) OpenHMACDevices id)).

Definition App_PublishGeneration (m : GManifest) (smk : bytes) : M St unit :=
  locked (plain (fun o => PublishGeneration (oe_tr o) (opts_of (oe_ep o)) (now (oe_pos o)) m smk)).

(** [recovery.Encode] and the draws of the engine at each endpoint. *)
Context (recovery_Encode : bytes -> result string) (gd : nat -> GenDraw) (rewraps draws : nat -> nat -> Draw).

Definition rotate_endpoint (o : openedEndpoint S) : M (ES S) (string * option error) :=
  let i := oe_pos o in
  RotateGeneration (oe_tr o) (opts_of (oe_ep o)) (now i) OpenHMACDevices recovery_Encode (gd i)
    (rewraps i) (draws i).

Definition keep_encoded (encoded got : string) : string := if str_empty got then encoded else got.

Definition App_RotateGeneration : M St (string * option error) :=
  locked (
    '(encoded, err) ← forEachEndpoint keep_encoded rotate_endpoint EmptyString;
    match err with
    | None => _ ← app_sql ClearRotation; mret (encoded, None)
    | Some e => mret (encoded, Some e)
    end).

(** The search for the first endpoint the generation can be recovered from. *)
Fixpoint recover_first (generationID : string) (live : list (openedEndpoint S)) (errs : list error)
    : M St (option (GManifest * string) * list error) :=
  match live with
  | [] => mret (None, errs)
  | o :: live =>
      r ← try (with_engine (oe_pos o)
                 (RecoverGeneration (oe_tr o) (opts_of (oe_ep o)) (now (oe_pos o)) OpenHMACDevices generationID));
      match r with
      | Fail e => recover_first generationID live (errs ++ [EWrap (ep_ID (oe_ep o)) e])
      | Ok got => mret (Some (got, ep_ID (oe_ep o)), errs)
      end
  end.

Fixpoint publish_others (active : GManifest) (smk : bytes) (recoveredID : string)
    (live : list (openedEndpoint S)) (errs : list error) : M St (list error) :=
  match live with
  | [] => mret errs
  | o :: live =>
      if has_id recoveredID (oe_ep o) then publish_others active smk recoveredID live errs
      else
        r ← try (with_engine (oe_pos o)
                   (PublishGeneration (oe_tr o) (opts_of (oe_ep o)) (now (oe_pos o)) active smk));
        publish_others active smk recoveredID live
          (errs ++ match r with Ok _ => [] | Fail e => [EWrap (ep_ID (oe_ep o)) e] end)
  end.

Definition App_RecoverGeneration (generationID : string) : M St (GManifest * option error) :=
  locked (
    match resolveEndpoints "" with
    | Fail e => fail e
    | Ok eps =>
        let '(live, errs) := openEndpoints eps in
        '(found, errs) ← recover_first generationID live errs;
        match found with
        | Some (active, recoveredID) =>
            if str_empty recoveredID then
              fail (default (EMsg "no endpoints available") (join_all errs))
            else
              smks ← gets engine_cache;
              errs ← publish_others active (default [] (smks !! gm_GenerationID active)) recoveredID live errs;
              mret (active, join_all errs)
        | None => fail (default (EMsg "no endpoints available") (join_all errs))
        end
    end).
End Run.

(** ** Garbage collection and checkpoints ([gc.go]) *)

Definition plan_append (c p : Plan) : Plan :=
  mkPlan (p_Bundles c ++ p_Bundles p) (p_Checkpoints c ++ p_Checkpoints p)
    (p_Generations c ++ p_Generations p) (p_TmpOrphans c ++ p_TmpOrphans p)
    (p_BlockedBy c ++ p_BlockedBy p)
    (if str_empty (p_Checkpoint p) then p_Checkpoint c else p_Checkpoint p)
    (p_Eligible c || p_Eligible p).

(** The closure's body for one endpoint; the plan is captured. *)
Definition collect_endpoint (required : list string) (dryRun : bool) (tr : Transport S) : M (S * Plan) unit :=
  let lift A (m : M S A) : M (S * Plan) A := zoom fst (fun s sp => (s, sp.2)) m in
  WithSession tr lift (
    _ ← (if dryRun then mret tt else lift unit (Dedupe tr));
    plan ← lift Plan (Evaluate tr required "");
    _ ← lift unit (Execute tr plan dryRun);
    modify (fun '(s, combined) => (s, plan_append combined plan))).

(** Runs a call that also updates a captured variable. *)
Definition capture {X A} (i : nat) (x : X) (m : M (S * X) A) : M St (X * result A) := fun a =>
  match ap_remotes a !! i with
  | None => (a, Fail (EMsg "index out of range"))
  | Some s =>
      let '((s', x'), r) := m (s, x) in
      (mkApp (ap_db a) (<[i := s']> (ap_remotes a)) (ap_keyring a) (ap_locked a), Ok (x', r))
  end.

Fixpoint collect_live (required : list string) (dryRun : bool) (live : list (openedEndpoint S))
    (combined : Plan) (errs : list error) : M St (Plan * list error) :=
  match live with
  | [] => mret (combined, errs)
  | o :: live =>
      '(combined, r) ← capture (oe_pos o) combined (collect_endpoint required dryRun (oe_tr o));
      collect_live required dryRun live combined
        (errs ++ match r with Ok _ => [] | Fail e => [EWrap (ep_ID (oe_ep o)) e] end)
  end.

Definition GarbageCollect (dryRun : bool) : M St (Plan * option error) :=
  locked (
    devs ← gets (fun a => Device.List_ (ap_db a));
    let required := RequiredDevices devs in
    match resolveEndpoints "" with
    | Fail e => fail e
    | Ok eps =>
        let '(live, errs) := openEndpoints eps in
        '(combined, errs) ← collect_live required dryRun live plan_zero errs;
        mret (combined, join_all errs)
    end).

Definition endpoint_due (o : openedEndpoint S) : M (S * bool) unit :=
  let lift A (m : M S A) : M (S * bool) A := zoom fst (fun s sp => (s, sp.2)) m in
  WithSession (oe_tr o) lift (
    ok ← lift bool (CheckpointDue (oe_tr o) (now (oe_pos o)) (GCIntervalDuration ParseDuration (cf_Sync cfg)));
    modify (fun '(s, _) => (s, ok))).

Fixpoint any_due (live : list (openedEndpoint S)) (due : bool) (errs : list error)
    : M St (bool * list error) :=
  match live with
  | [] => mret (due, errs)
  | o :: live =>
      '(ok, r) ← capture (oe_pos o) false (endpoint_due o);
      match r with
      | Fail e => any_due live due (errs ++ [EWrap (ep_ID (oe_ep o)) e])
      | Ok _ => any_due live (due || ok) errs
      end
  end.

Fixpoint ack_live (checkpointID : string) (live : list (openedEndpoint S)) (errs : list error)
    : M St (list error) :=
  match live with
  | [] => mret errs
  | o :: live =>
      r ← try (with_engine (oe_pos o)
                 (publishAck (oe_tr o) (engine_options (ep_ID (oe_ep o)) [] [] (Some [])) (now (oe_pos o))
                    checkpointID));
      ack_live checkpointID live
        (errs ++ match r with Ok _ => [] | Fail e => [EWrap (ep_ID (oe_ep o)) e] end)
  end.

Definition fail_joined (errs : list error) : M St unit :=
  match join_all errs with None => mret tt | Some e => fail e end.

(** [id] is the fresh identifier of the checkpoint. *)
Definition write_checkpoint (id : string) (o : openedEndpoint S) : M St (result Manifest) :=
  let opts := engine_options (ep_ID (oe_ep o)) [] [] (Some []) in
  with_engine (oe_pos o) (
    '(smks, active) ← Unlock_ opts OpenHMACDevices;
    try (CreateCheckpoint (oe_tr o) (now (oe_pos o)) id (nonce (oe_pos o))
           (default [] (smks !! gm_GenerationID active)) (gm_GenerationID active))).

Definition is_NotCaughtUp (e : error) : bool := match e with ECheckpointNotCaughtUp => true | _ => false end.

(** [checkpoint] after the lock is taken. *)
Definition checkpoint_locked (force : bool) (id : string) (live : list (openedEndpoint S)) (errs : list error)
    : M St unit :=
  match live with
  | [] => fail_joined errs
  | o :: _ =>
      r ← write_checkpoint id o;
      match r with
      | Fail e =>
          if negb force && errors_Is is_NotCaughtUp e then fail_joined errs else fail e
      | Ok m =>
          errs ← (if (1 <? length live)%nat then
                    r ← try (equalize_live live);
                    mret (errs ++ match r with Ok _ => [] | Fail e => [e] end)
                  else mret errs);
          errs ← ack_live (m_ID m) live errs;
          fail_joined errs
      end
  end.

Definition checkpoint (force : bool) (id : string) : M St unit :=
  match resolveEndpoints "" with
  | Fail e => fail e
  | Ok eps =>
      let '(live, errs) := openEndpoints eps in
      '(due, errs) ← (if force then mret (true, errs) else any_due live false errs);
      if (due : bool) then locked (checkpoint_locked force id live errs) else fail_joined errs
  end.

Definition MaybeCheckpoint (id : string) : M St unit := checkpoint false id.
Definition ForceCheckpoint (id : string) : M St unit := checkpoint true id.
End App.

(** ** Opening ([open.go]) *)

(** [newID] is [device.NewID()], [saved] the outcome of [Config.Save]. *)
Definition EnsureLocalDevice (now : Time) (host : string) (newID : result string) (defaultName : string)
    (saved : Config -> result unit) : M (Config * DB) unit :=
  c0 ← gets fst;
  _ ← (if str_empty (cf_DeviceID c0) then
         id ← of_result newID;
         _ ← modify (fun '(c, d) => (EnsureDevice id defaultName c, d));
         c ← gets fst;
         of_result (saved c)
       else mret tt);
  '(c, d) ← get;
  match Device.Get d (cf_DeviceID c) with
  | Some _ => mret tt
  | None => zoom snd (fun d cd => (cd.1, d))
              (Upsert now (mkDevice (cf_DeviceID c) (cf_DeviceName c) host StatusActive time_zero None))
  end.
