(* ===== verification/AppSafety.v ===== *)
(** What the operations over all endpoints guarantee: a synchronization moves
    the local database along [db_sound] whatever the remotes do and touches
    only the endpoints it was asked to touch, garbage collection removes only
    what was planned, and a rotation that was interrupted is resumed with the
    same generation on every endpoint. *)

From S2P Require Import Prelude Database History Frontier Event Device Merge Bundle Snapshot Keys.
From S2P Require Import KeyStore Transport Gc Roster Engine EngineSafety Repository Rotate Equalize.
From S2P Require Import Text Config App.
From S2P Require Keyring.

(** ** Steps of the application *)

Section Steps.
Context {S K : Type}.
Notation St := (App S K).

(** A step moves the database along [R], leaves the lock alone and changes
    only the remotes at [idx]. *)
Record app_step (R : relation DB) (idx : nat -> Prop) (a a' : St) : Prop := {
  as_db : R (ap_db a) (ap_db a');
  as_locked : ap_locked a' = ap_locked a;
  as_length : length (ap_remotes a') = length (ap_remotes a);
  as_frame : forall j, ~ idx j -> ap_remotes a' !! j = ap_remotes a !! j;
}.
#[global] Instance app_step_preorder R `{!PreOrder R} idx : PreOrder (app_step R idx).
Proof.
  split; [by intros a; split|]. intros a1 a2 a3 [D1 L1 N1 F1] [D2 L2 N2 F2].
  split; [by etrans|congruence..|]. intros j Hj. by rewrite F2, F1.
Qed.

Lemma app_sql_step {A} (R : relation DB) idx (m : M DB A) :
  mono R m -> mono (app_step R idx) (app_sql (S := S) (K := K) m).
Proof. intros Hm. apply mono_zoom. intros a. split; [apply Hm|done..]. Qed.

Lemma gets_step {A} (R : relation DB) `{!PreOrder R} idx (f : St -> A) : mono (app_step R idx) (gets f).
Proof. by intros a; split. Qed.

Section Engine.
Context (cfg : Config) (backend : Keyring.Backend K) `{Codec Keyring.KeyBundle} (lower_text : error -> string).

Lemma with_engine_step {A} (R : relation DB) `{!PreOrder R} (idx : nat -> Prop) i (m : M (ES S) A) :
  mono (fun s s' => R (es_db s) (es_db s')) m -> idx i ->
  mono (app_step R idx) (with_engine cfg backend lower_text i m).
Proof.
  intros Hm Hi a. unfold with_engine. destruct (ap_remotes a !! i) as [s|]; [|done].
  specialize (Hm (mkES (ap_db a) s cs_zero (engine_cache cfg backend lower_text a) [])).
  destruct (m _) as [es r]. split; [exact Hm|done|simpl; by rewrite length_insert|].
  intros j Hj. simpl. apply list_lookup_insert_ne. by intros ->.
Qed.
End Engine.

Lemma capture_step {X A} (R : relation DB) `{!PreOrder R} (idx : nat -> Prop) i (x : X) (m : M (S * X) A) :
  idx i -> mono (app_step R idx) (capture (K := K) i x m).
Proof.
  intros Hi a. unfold capture. destruct (ap_remotes a !! i) as [s|]; [|done].
  destruct (m (s, x)) as [[s' x'] r]. split; [done|done|simpl; by rewrite length_insert|].
  intros j Hj. simpl. apply list_lookup_insert_ne. by intros ->.
Qed.

Lemma scatter_length (l : list S) pairs :
  length (foldl (fun l '(i, s) => <[i := s]> l) l pairs) = length l.
Proof.
  revert l. induction pairs as [|[i s] pairs IH]; intros l; simpl; [done|]. by rewrite IH, length_insert.
Qed.
Lemma scatter_other (l : list S) pairs j :
  j ∉ pairs.*1 -> foldl (fun l '(i, s) => <[i := s]> l) l pairs !! j = l !! j.
Proof.
  revert l. induction pairs as [|[i s] pairs IH]; intros l Hj; simpl; [done|].
  apply not_elem_of_cons in Hj as [Hne Hj]. rewrite IH by done. by apply list_lookup_insert_ne.
Qed.

Lemma focus_step {A} (R : relation DB) `{!PreOrder R} (ps : list nat) (m : M (list S) A) :
  mono (app_step R (fun j => j ∈ ps)) (focus (K := K) ps m).
Proof.
  intros a. unfold focus. destruct (mapM _ ps) as [w|]; [|done].
  destruct (m w) as [w' r]. split; [done|done|simpl; by rewrite scatter_length|].
  intros j Hj. simpl. apply scatter_other. intros Hin. apply Hj.
  apply list_elem_of_fmap in Hin as ([j' s'] & -> & Hin). by apply elem_of_zip_l in Hin.
Qed.

Lemma app_step_weaken (R : relation DB) (idx idx' : nat -> Prop) a a' :
  (forall j, idx j -> idx' j) -> app_step R idx a a' -> app_step R idx' a a'.
Proof. intros Hi [D L N F]. split; [done..|]. intros j Hj. apply F. auto. Qed.

(** The lock: held by another process, an operation does nothing; otherwise it
    is held during the operation and free after it. *)
Lemma locked_run {A} lock_dir lock_call (m : M St A) a :
  (exists e, locked lock_dir lock_call m a = (a, Fail e)) \/
  ap_locked a = false /\ exists a1 r, m (mkApp (ap_db a) (ap_remotes a) (ap_keyring a) true) = (a1, r) /\
    locked lock_dir lock_call m a = (mkApp (ap_db a1) (ap_remotes a1) (ap_keyring a1) false, r).
Proof.
  unfold locked, AcquireLock, mbind, M_bind. destruct lock_dir as [[]|e]; [|left; by eexists].
  destruct lock_call as [[]|e]; [|left; by eexists].
  destruct (ap_locked a) eqn:El; [left; by eexists|right]. split; [done|]. unfold try.
  destruct (m _) as [a1 r]. exists a1, r. by split.
Qed.

Lemma locked_step {A} (R : relation DB) `{!PreOrder R} idx lock_dir lock_call (m : M St A) :
  mono (app_step R idx) m -> mono (app_step R idx) (locked lock_dir lock_call m).
Proof.
  intros Hm a. destruct (locked_run lock_dir lock_call m a) as [[e ->]|(El & a1 & r & E & ->)]; [done|].
  destruct (mono_run _ _ _ _ _ Hm E) as [D L N F]. split; [done|by rewrite El|done|done].
Qed.
End Steps.

(** ** Synchronization *)

Section Sync.
Context {S K : Type} (cfg : Config) (backend : Keyring.Backend K).
Context `{Sha256} `{EventCodecs} `{Aead} `{BundleCodecs} `{Mac} `{Gzip} `{SnapshotCodecs}.
Context `{Codec Manifest} `{Codec AckFile} `{Codec GManifest} `{Codec WrapParams}
  `{Codec RemoteManifest} `{Codec DeviceFile} `{Codec Keyring.KeyBundle}.
Context (host : string) (env : Env) (lower_text : error -> string)
  (OpenHMACDevices : result (list FidoDevice)) (recovery_Decode : string -> result bytes)
  (json_counter : bytes -> option Z).
Context (New_directory : string -> Transport S) (New_rsync : string -> string -> Transport S)
  (New_scp : string -> string -> string -> string -> Z -> Transport S)
  (rclone_Init : string -> result unit) (rclone_Open : string -> string -> result (Transport S)).
Context (now : nat -> Time) (nonce : nat -> bytes).
Context (secret : bytes) (tokens : list Token) (fido : option (list FidoDevice)).
Notation St := (App S K).
Notation open := (OpenTransport env New_directory New_rsync New_scp rclone_Init rclone_Open).
Notation open_all := (openEndpoints env New_directory New_rsync New_scp rclone_Init rclone_Open).

(** The endpoints an operation is asked to work on. *)
Definition selected (onlyID : string) (j : nat) : Prop :=
  exists ep, sy_Endpoints (cf_Sync cfg) !! j = Some ep /\
    if str_empty onlyID then ep_Enabled ep = true else ep_ID ep = onlyID.

Lemma elem_of_placed p : p ∈ placed cfg <-> sy_Endpoints (cf_Sync cfg) !! p.1 = Some p.2.
Proof.
  unfold placed. rewrite list_elem_of_lookup. setoid_rewrite list_lookup_imap.
  destruct p as [i ep]. simpl. split.
  - intros (j & Hj). destruct (sy_Endpoints (cf_Sync cfg) !! j) eqn:E; simplify_eq/=. done.
  - intros Hi. exists i. by rewrite Hi.
Qed.

Lemma resolveEndpoints_selected onlyID eps p :
  resolveEndpoints cfg onlyID = Ok eps -> p ∈ eps -> selected onlyID p.1.
Proof.
  unfold resolveEndpoints, selected. destruct (str_empty onlyID); simpl.
  - destruct (List.filter _ _) as [|q qs] eqn:E; [done|]. intros [= <-] Hp. rewrite <- E in Hp.
    apply list_elem_of_In, filter_In in Hp as [Hp%list_elem_of_In%elem_of_placed He]. eauto.
  - destruct (List.find _ _) as [q|] eqn:E; [|done]. intros [= <-] ->%list_elem_of_singleton.
    apply find_some in E as [Hq%list_elem_of_In%elem_of_placed Hid]. apply has_id_iff in Hid. eauto.
Qed.

Lemma resolve_in_config onlyID eps p :
  resolveEndpoints cfg onlyID = Ok eps -> p ∈ eps -> sy_Endpoints (cf_Sync cfg) !! p.1 = Some p.2.
Proof.
  unfold resolveEndpoints. destruct (str_empty onlyID); simpl.
  - destruct (List.filter _ _) as [|q qs] eqn:E; [done|]. intros [= <-] Hp. rewrite <- E in Hp.
    by apply list_elem_of_In, filter_In in Hp as [Hp%list_elem_of_In%elem_of_placed _].
  - destruct (List.find _ _) as [q|] eqn:E; [|done]. intros [= <-] ->%list_elem_of_singleton.
    by apply find_some in E as [Hq%list_elem_of_In%elem_of_placed _].
Qed.

Lemma resolveEndpoints_nonempty onlyID : resolveEndpoints cfg onlyID <> Ok [].
Proof. unfold resolveEndpoints. destruct (str_empty onlyID); simpl; by case_match. Qed.

Lemma openEndpoints_live eps o :
  o ∈ (open_all eps).1 -> (oe_pos o, oe_ep o) ∈ eps /\ open (oe_ep o) = Ok (oe_tr o).
Proof.
  induction eps as [|[i ep] eps IH]; simpl; [by intros ?%elem_of_nil|].
  destruct (open_all eps) as [live errs]. simpl in IH.
  destruct (open ep) as [tr|e] eqn:E; simpl.
  - intros [->|Ho%IH]%elem_of_cons; [by split; [left|]|]. destruct Ho. split; [by right|done].
  - intros Ho%IH. destruct Ho. split; [by right|done].
Qed.

Lemma openEndpoints_no_errors eps : (open_all eps).2 = [] -> length (open_all eps).1 = length eps.
Proof.
  induction eps as [|[i ep] eps IH]; simpl; [done|]. destruct (open_all eps) as [live errs]. simpl in IH.
  destruct (open ep); [|done]. simpl. intros He. by rewrite IH.
Qed.

Notation sync_live' := (sync_live cfg backend host env lower_text OpenHMACDevices recovery_Decode now nonce
  secret tokens fido).

Lemma sync_endpoint_step (idx : nat -> Prop) (o : openedEndpoint S) :
  idx (oe_pos o) ->
  mono (app_step db_sound idx)
    (sync_endpoint cfg backend host env lower_text OpenHMACDevices recovery_Decode now nonce secret tokens fido o).
Proof.
  intros Hi. apply with_engine_step; [apply _| |done].
  refine (mono_bind es_sound _ _ _ _); [apply Sync_es_sound|]. intros u. exact (mono_gets es_sound _).
Qed.

Lemma sync_live_step (idx : nat -> Prop) (live : list (openedEndpoint S)) anyOK cs errs :
  (forall o, o ∈ live -> idx (oe_pos o)) -> mono (app_step db_sound idx) (sync_live' live anyOK cs errs).
Proof.
  revert anyOK cs errs. induction live as [|o live IH]; intros anyOK cs errs Hl; simpl; [mono_step|].
  mono_step; [mono_step; apply sync_endpoint_step, Hl; left|].
  mono_step; apply IH; intros; apply Hl; by right.
Qed.

(** The loop always returns; without new errors every endpoint counted. *)
Lemma sync_live_run (live : list (openedEndpoint S)) anyOK cs errs a :
  exists a' ok cs' errs', sync_live' live anyOK cs errs a = (a', Ok (ok, cs', errs')) /\
    errs `prefix_of` errs' /\ (errs' = errs -> (live <> [] \/ anyOK = true) -> ok = true) /\
    (anyOK = true -> ok = true).
Proof.
  revert anyOK cs errs a. induction live as [|o live IH]; intros anyOK cs errs a; simpl.
  { eexists _, _, _, _. split; [reflexivity|]. split; [done|]. split; [|done]. by intros _ [?|?]. }
  unfold mbind at 1, M_bind at 1, try. destruct (sync_endpoint _ _ _ _ _ _ _ _ _ _ _ _ o a) as [a1 [c|e]].
  - destruct (IH true (cs_Merge cs c) errs a1) as (a' & ok & cs' & errs' & -> & Hp & He & Hok).
    eexists _, _, _, _. split; [reflexivity|]. split; [done|]. split; [auto|]. intros _. by apply Hok.
  - destruct (IH anyOK cs (errs ++ [EWrap (ep_ID (oe_ep o)) e]) a1) as (a' & ok & cs' & errs' & -> & Hp & He & Hok).
    eexists _, _, _, _. split; [reflexivity|]. destruct Hp as [more ->]. split; [rewrite <- app_assoc; eexists; done|].
    split; [|done]. intros Heq%(f_equal length). rewrite !length_app in Heq. simpl in Heq. lia.
Qed.

Lemma join_all_None errs : join_all errs = None -> errs = [].
Proof. by destruct errs. Qed.

End Sync.

(** ** Garbage collection *)

Section Collect.
Context {S K : Type} (cfg : Config) `{Codec Manifest} `{Codec AckFile} `{BundleCodecs} (env : Env).
Context (New_directory : string -> Transport S) (New_rsync : string -> string -> Transport S)
  (New_scp : string -> string -> string -> string -> Z -> Transport S)
  (rclone_Init : string -> result unit) (rclone_Open : string -> string -> result (Transport S)).
Notation St := (App S K).
Notation open := (OpenTransport env New_directory New_rsync New_scp rclone_Init rclone_Open).
Notation open_all := (openEndpoints env New_directory New_rsync New_scp rclone_Init rclone_Open).

(** What a collection may do to a remote that is an object store with neither
    sessions nor duplicates: objects only go, none on a dry run, and each one
    that goes is, or is below, a key of the plan that was evaluated for the
    required devices. *)
Definition collected (required : list string) (dryRun : bool) (tr : Transport S) (s s' : S) : Prop :=
  forall st : ObjectStore tr, tr_Session tr = None -> tr_Dedupe tr = None -> store_inv s ->
  (forall s1 plan k, Evaluate tr required "" s = (s1, Ok plan) -> k ∈ plan_keys plan -> store_key (tr := tr) k) ->
  store_inv (tr := tr) s' /\ objects s' ⊆ objects s /\ (dryRun = true -> objects s' = objects s) /\
  forall k, is_Some (objects s !! k) -> objects s' !! k = None ->
    exists s1 plan k0, Evaluate tr required "" s = (s1, Ok plan) /\ k0 ∈ plan_keys plan /\
      (k = k0 \/ has_prefix (k0 +:+ "/") k = true).

Lemma collect_endpoint_collected required dryRun tr s combined s' c' r :
  collect_endpoint required dryRun tr (s, combined) = ((s', c'), r) -> collected required dryRun tr s s'.
Proof.
  intros E Hst Hses Hded Hs Hkeys. unfold collect_endpoint, WithSession in E. rewrite Hses in E.
  assert (forall B (f : unit -> M (S * Plan) B), ((if dryRun then mret tt else
      zoom fst (fun s sp => (s, sp.2)) (Dedupe tr)) ≫= f) (s, combined) = f tt (s, combined)) as Hd.
  { intros B f. unfold Dedupe. rewrite Hded. by destruct dryRun. }
  rewrite Hd in E. clear Hd.
  assert (zoom fst (fun s sp => (s, sp.2)) (Evaluate tr required "") (s, combined) =
    (((Evaluate tr required "" s).1, combined), (Evaluate tr required "" s).2)) as Hz.
  { unfold zoom. simpl. by destruct (Evaluate tr required "" s). }
  destruct (Evaluate tr required "" s) as [s1 [plan|e]] eqn:Ee; simpl in Hz.
  2: { rewrite (bind_Fail _ _ _ _ _ Hz) in E. injection E as <- _ _.
       destruct (mono_run _ _ _ _ _ (Evaluate_same required "") Ee Hs) as [Hs1 ->].
       split_and!; [done|done|done|]. intros k [b Hb] Hn. simpl in Hn. congruence. }
  rewrite (bind_Ok _ _ _ _ _ Hz) in E.
  destruct (mono_run _ _ _ _ _ (Evaluate_same required "") Ee Hs) as [Hs1 Ho1].
  destruct (Execute tr plan dryRun s1) as [s2 r2] eqn:Ex.
  assert (s2 = s') as ->.
  { unfold zoom, mbind, M_bind in E. simpl in E. rewrite Ex in E. destruct r2; by injection E as <- _ _. }
  destruct (Execute_plan_removes plan dryRun _ _ _ Hs1 (fun k => Hkeys _ _ k eq_refl) Ex) as ((Hs2 & Hsub & Hgone) & Hdry).
  rewrite Ho1 in *. split_and!; [done|done|done|]. intros k Hk Hn. destruct (Hgone k Hk Hn) as (k0 & Hk0 & Hp).
  exists s1, plan, k0. by split_and!.
Qed.

Notation collect_live' := (collect_live (S := S) (K := K)).

Lemma collect_live_run required dryRun live combined errs a :
  NoDup (oe_pos <$> live) ->
  exists a' r, collect_live' required dryRun live combined errs a = (a', r) /\
    ap_db a' = ap_db a /\ ap_keyring a' = ap_keyring a /\ ap_locked a' = ap_locked a /\
    length (ap_remotes a') = length (ap_remotes a) /\
    (forall j, j ∉ (oe_pos <$> live) -> ap_remotes a' !! j = ap_remotes a !! j) /\
    forall o s s', o ∈ live -> ap_remotes a !! oe_pos o = Some s -> ap_remotes a' !! oe_pos o = Some s' ->
      s' = s \/ collected required dryRun (oe_tr o) s s'.
Proof.
  revert combined errs a. induction live as [|o live IH]; intros combined errs a Hnd; simpl.
  { eexists _, _. split; [reflexivity|]. split_and!; [done..|]. by intros ? ? ? ?%elem_of_nil. }
  apply NoDup_cons in Hnd as [Hnot Hnd]. unfold mbind at 1, M_bind at 1, capture.
  destruct (ap_remotes a !! oe_pos o) as [s|] eqn:Es.
  2: { eexists _, _. split; [reflexivity|]. split_and!; [done..|]. intros o' s s' _ H1' H2'.
       left. congruence. }
  destruct (collect_endpoint required dryRun (oe_tr o) (s, combined)) as [[s1 c1] r1] eqn:Ec.
  set (a1 := mkApp (ap_db a) (<[oe_pos o := s1]> (ap_remotes a)) (ap_keyring a) (ap_locked a)).
  destruct (IH c1 (errs ++ match r1 with Ok _ => [] | Fail e => [EWrap (ep_ID (oe_ep o)) e] end) a1 Hnd)
    as (a' & r & E & D & Kr & L & N & F & C). simpl in *.
  eexists _, _. split; [exact E|]. split_and!; [done..|by rewrite N, length_insert| |].
  - intros j [Hne Hj]%not_elem_of_cons. rewrite F by done. by apply list_lookup_insert_ne.
  - intros o' t t' [->|Ho']%elem_of_cons Ht Ht'.
    + right. rewrite Es in Ht. injection Ht as <-. rewrite F in Ht' by done.
      rewrite list_lookup_insert_eq in Ht' by by eapply lookup_lt_Some. injection Ht' as <-.
      by eapply collect_endpoint_collected.
    + apply (C o' t t' Ho'); [|done]. rewrite list_lookup_insert_ne; [done|]. intros Heq.
      apply Hnot. rewrite Heq. by apply list_elem_of_fmap_2.
Qed.

Lemma openEndpoints_NoDup eps : NoDup eps.*1 -> NoDup (oe_pos <$> (open_all eps).1).
Proof.
  induction eps as [|[i ep] eps IH]; simpl; [done|]. intros [Hnot Hnd]%NoDup_cons.
  pose proof (openEndpoints_live env New_directory New_rsync New_scp rclone_Init rclone_Open eps) as Hl.
  destruct (open_all eps) as [live errs]. simpl in *. destruct (open ep); simpl; [|auto].
  apply NoDup_cons. split; [|auto]. intros (o & -> & Ho)%list_elem_of_fmap. apply Hnot.
  apply list_elem_of_fmap. exists (oe_pos o, oe_ep o). split; [done|]. by apply Hl.
Qed.

Lemma resolveEndpoints_NoDup onlyID eps : resolveEndpoints cfg onlyID = Ok eps -> NoDup eps.*1.
Proof.
  unfold resolveEndpoints. destruct (str_empty onlyID); simpl.
  2: { destruct (List.find _ _) as [p|]; [|done]. intros [= <-]. apply NoDup_singleton. }
  assert (forall n l (p : Placed -> bool), NoDup (List.filter p (imap (fun i x => ((n + i)%nat, x)) l)).*1 /\
    forall i, i ∈ (List.filter p (imap (fun i x => ((n + i)%nat, x)) l)).*1 -> (n <= i)%nat) as Hf.
  { intros n l p. revert n. induction l as [|x l IHl]; intros n; simpl.
    { split; [constructor|]. by intros i ?%elem_of_nil. }
    destruct (IHl (Datatypes.S n)) as [Hnd Hlo].
    assert (imap ((fun i x => ((n + i)%nat, x)) ∘ Datatypes.S) l = imap (fun i x => ((Datatypes.S n + i)%nat, x)) l) as ->.
    { apply imap_ext. intros i y _. simpl. f_equal. lia. }
    destruct (p (_, x)); simpl; [|split; [done|]; intros i Hi%Hlo; lia].
    split.
    - apply NoDup_cons. split; [|done]. intros Hi%Hlo. lia.
    - intros i [->|Hi%Hlo]%elem_of_cons; lia. }
  destruct (Hf 0%nat (sy_Endpoints (cf_Sync cfg)) (fun p => ep_Enabled p.2)) as [Hnd _].
  change (imap (fun i x => ((0 + i)%nat, x)) (sy_Endpoints (cf_Sync cfg))) with (placed cfg) in Hnd.
  destruct (List.filter _ _) as [|q qs]; [done|]. by intros [= <-].
Qed.

End Collect.

(** ** Rotation *)

(** The journal keeps naming the same step from one generation to the next. *)
Definition journal_kept (d d' : DB) : Prop :=
  forall r, db_rotation d = Some r -> exists r', db_rotation d' = Some r' /\
    rr_new_generation_id r' = rr_new_generation_id r /\ rr_old_generation_id r' = rr_old_generation_id r /\
    rr_new_seq r' = rr_new_seq r /\ rr_recovery_bech32 r' = rr_recovery_bech32 r.
#[global] Instance journal_kept_preorder : PreOrder journal_kept.
Proof.
  split; [intros d r Hr; by exists r|]. intros d1 d2 d3 H12 H23 r Hr.
  destruct (H12 r Hr) as (r2 & Hr2 & E1 & E2 & E3 & E4). destruct (H23 r2 Hr2) as (r3 & Hr3 & ? & ? & ? & ?).
  exists r3. split; [done|]. split_and!; congruence.
Qed.

Lemma journal_same_rotation d d' : db_rotation d' = db_rotation d -> journal_kept d d'.
Proof. intros E r Hr. exists r. by rewrite E. Qed.

Section Rotation.
Context {S : Type} (tr : Transport S) (opts : Options) (now : Time).
Context `{Mac} `{Aead} `{Codec GManifest} `{Codec WrapParams} `{Codec YubiMeta}
  `{Codec RemoteManifest} `{Codec DeviceFile} `{Codec remoteManifest}.
Context (OpenHMACDevices : result (list FidoDevice)).

Definition es_journal : relation (ES S) := fun s s' => journal_kept (es_db s) (es_db s').
#[local] Instance es_journal_preorder : PreOrder es_journal.
Proof.
  split; [intros s; unfold es_journal; reflexivity|]. intros s1 s2 s3 H12 H23. unfold es_journal in *. by etrans.
Qed.

Lemma sql_journal {A} (m : M DB A) : mono journal_kept m -> mono es_journal (sql m).
Proof. intros Hm. apply mono_zoom. intros s. apply Hm. Qed.
Lemma net_journal {A} (m : M S A) : mono es_journal (net m).
Proof. apply mono_zoom. intros s. unfold es_journal. simpl. reflexivity. Qed.
Lemma query_journal {A} (f : DB -> A) : mono es_journal (query (S := S) f).
Proof. intros s. unfold es_journal. simpl. reflexivity. Qed.
Lemma StoreSMKs_journal smks : mono es_journal (StoreSMKs (S := S) smks).
Proof. intros s. unfold es_journal. simpl. reflexivity. Qed.
Lemma rememberSMKs_journal smks : mono es_journal (rememberSMKs (S := S) smks).
Proof. intros s. unfold es_journal. simpl. reflexivity. Qed.
Lemma smk_for_journal m smks : mono es_journal (smk_for (S := S) opts m smks).
Proof. intros s. unfold es_journal. simpl. reflexivity. Qed.
Lemma getBytes_journal k : mono es_journal (getBytes tr k).
Proof. apply net_journal. Qed.
#[local] Hint Resolve net_journal query_journal StoreSMKs_journal rememberSMKs_journal smk_for_journal
  getBytes_journal : remnix.

(** The key tables and the trusted rows are not the journal. *)
Lemma modify_journal f : (forall d, db_rotation (f d) = db_rotation d) -> mono journal_kept (modify f).
Proof. intros Hf d. by apply journal_same_rotation, Hf. Qed.
Lemma putSlot_journal n sl : mono journal_kept (putSlot n sl).
Proof.
  intros d. apply journal_same_rotation. unfold putSlot. by repeat case_match.
Qed.
#[local] Hint Resolve putSlot_journal : remnix.
Lemma PutGeneration_journal n m : mono journal_kept (PutGeneration n m).
Proof.
  unfold PutGeneration, putGeneration, upsert_generation. mono_solve; by apply modify_journal.
Qed.
Lemma SetTrusted_journal n kind gen c cp p : mono journal_kept (SetTrusted n kind gen c cp p).
Proof. by apply modify_journal. Qed.
Lemma SetRotationPhase_journal n ph : mono journal_kept (SetRotationPhase n ph).
Proof.
  intros d r Hr. unfold SetRotationPhase. rewrite Hr. simpl. eexists. split; [reflexivity|]. by split_and!.
Qed.
Lemma PromoteRotation_journal n o i : mono journal_kept (PromoteRotation n o i).
Proof.
  unfold PromoteRotation, set_generation_status. mono_solve; [by apply modify_journal..|].
  intros d r Hr. simpl. rewrite Hr. simpl. eexists. split; [reflexivity|]. by split_and!.
Qed.
#[local] Hint Resolve PutGeneration_journal SetTrusted_journal SetRotationPhase_journal PromoteRotation_journal
  sql_journal : remnix.

Lemma unlockAll_journal : mono es_journal (unlockAll opts OpenHMACDevices).
Proof. unfold unlockAll. mono_solve. Qed.
Lemma wrap_error_journal {A} w (m : M (ES S) A) : mono es_journal m -> mono es_journal (wrap_error w m).
Proof. intros Hm. unfold wrap_error. mono_solve. Qed.
Lemma read_objects_journal objs out : mono es_journal (read_objects tr objs out).
Proof. revert out. induction objs as [|o objs IH]; intros out; simpl; mono_solve. Qed.
Lemma listRemoteGenerations_journal : mono es_journal (listRemoteGenerations tr).
Proof. unfold listRemoteGenerations, readPrefix. mono_solve; apply read_objects_journal. Qed.
Lemma loadRemoteManifest_journal : mono es_journal (loadRemoteManifest tr).
Proof. unfold loadRemoteManifest. mono_solve. Qed.
#[local] Hint Resolve unlockAll_journal wrap_error_journal listRemoteGenerations_journal
  loadRemoteManifest_journal : remnix.
Lemma finishRotation_journal old next oldSMK newSMK encoded :
  mono es_journal (finishRotation tr opts now old next oldSMK newSMK encoded).
Proof.
  unfold finishRotation, publishGenerationMaterial, activateRotatedGeneration, publishRemoteRoster,
    reconcileRotatedLocal. mono_solve.
Qed.
Lemma loadJournalPair_journal rot smks gens : mono es_journal (loadJournalPair opts now rot smks gens).
Proof. unfold loadJournalPair. mono_solve. Qed.
#[local] Hint Resolve finishRotation_journal loadJournalPair_journal : remnix.

Context (Encode : bytes -> result string) (gd : GenDraw) (rewraps draws : nat -> Draw).

(** While a rotation is journaled, the branch that would stage another is not
    taken. *)
Lemma rotateGeneration_journal s :
  is_Some (db_rotation (es_db s)) ->
  es_journal s (rotateGeneration tr opts now OpenHMACDevices Encode gd rewraps draws s).1.
Proof.
  intros [rot Hrot]. unfold rotateGeneration.
  destruct (wrap_error rotationNotCommitted (Unlock_ opts OpenHMACDevices) s) as [s1 r1] eqn:E1.
  assert (es_journal s s1) as R1
    by exact (mono_run _ _ _ _ _ (wrap_error_journal _ _ unlockAll_journal) E1).
  destruct r1 as [[smks active]|e]; [|by rewrite (bind_Fail _ _ _ _ _ E1)].
  rewrite (bind_Ok _ _ _ _ _ E1). destruct (R1 rot Hrot) as (rot1 & Hrot1 & _).
  etrans; [exact R1|].
  assert (forall B (f : option RotationRow -> M (ES S) B), (_ ← rememberSMKs smks; query Rotation ≫= f) s1 =
    f (Some rot1) (rememberSMKs smks s1).1) as ->.
  { intros B f. change (f (Rotation (es_db s1)) (rememberSMKs smks s1).1 = f (Some rot1) (rememberSMKs smks s1).1).
    unfold Rotation. by rewrite Hrot1. }
  etrans; [exact (rememberSMKs_journal smks s1)|].
  match goal with |- es_journal _ (?m _).1 => enough (mono es_journal m) as Hm by apply Hm end. mono_solve.
Qed.

Lemma RotateGeneration_journal s :
  is_Some (db_rotation (es_db s)) ->
  es_journal s (RotateGeneration tr opts now OpenHMACDevices Encode gd rewraps draws s).1.
Proof.
  intros Hrot. unfold RotateGeneration, withRemote.
  destruct (tr_Session tr) as [[begin end_]|]; [|by apply rotateGeneration_journal].
  unfold mbind, M_bind, net at 1, zoom at 1. destruct (begin (es_tr s)) as [t [[]|e]]; [|intros r Hr; by exists r].
  unfold try. pose proof (rotateGeneration_journal (set_es_tr t s) Hrot) as R.
  destruct (rotateGeneration _ _ _ _ _ _ _ _ _) as [s1 r]. unfold ignore, net, zoom.
  destruct (end_ (es_tr s1)). exact R.
Qed.
End Rotation.

(** Rotating over all endpoints. *)
Section RotateAll.
Context {S K : Type} (cfg : Config) (backend : Keyring.Backend K).
Context `{Mac} `{Aead} `{Codec GManifest} `{Codec WrapParams} `{Codec YubiMeta}
  `{Codec RemoteManifest} `{Codec DeviceFile} `{Codec remoteManifest} `{Codec Keyring.KeyBundle}.
Context (host : string) (env : Env) (lower_text : error -> string)
  (OpenHMACDevices : result (list FidoDevice)) (recovery_Decode : string -> result bytes).
Context (New_directory : string -> Transport S) (New_rsync : string -> string -> Transport S)
  (New_scp : string -> string -> string -> string -> Z -> Transport S)
  (rclone_Init : string -> result unit) (rclone_Open : string -> string -> result (Transport S)).
Context (now : nat -> Time) (lock_dir lock_call : result unit).
Context (secret : bytes) (tokens : list Token) (fido : option (list FidoDevice)).
Notation St := (App S K).
Notation rotate_endpoint' := (rotate_endpoint cfg host env OpenHMACDevices recovery_Decode now
  secret tokens fido).
Notation each_live' := (each_live cfg backend lower_text).

Lemma with_engine_run {A} i (m m' : M (ES S) A) (a : St) :
  (forall s, es_db s = ap_db a -> m s = m' s) ->
  with_engine cfg backend lower_text i m a = with_engine cfg backend lower_text i m' a.
Proof.
  intros Hm. unfold with_engine. destruct (ap_remotes a !! i) as [s|]; [|done].
  by rewrite (Hm (mkES (ap_db a) s cs_zero (engine_cache cfg backend lower_text a) []) eq_refl).
Qed.

Lemma with_engine_journal {A} i (m : M (ES S) A) (a : St) :
  (forall s, es_db s = ap_db a -> es_journal s (m s).1) ->
  journal_kept (ap_db a) (ap_db (with_engine cfg backend lower_text i m a).1).
Proof.
  intros Hm. unfold with_engine. destruct (ap_remotes a !! i) as [s|]; [|reflexivity].
  specialize (Hm (mkES (ap_db a) s cs_zero (engine_cache cfg backend lower_text a) []) eq_refl).
  destruct (m _) as [es r]. exact Hm.
Qed.

Lemma journal_kept_Some d d' : journal_kept d d' -> is_Some (db_rotation d) -> is_Some (db_rotation d').
Proof. intros Hk [r Hr]. destruct (Hk r Hr) as (r' & -> & _). by eexists. Qed.

Lemma rotate_live_resumes Encode Encode' gd gd' rewraps rewraps' draws draws' live x errs (a : St) :
  is_Some (db_rotation (ap_db a)) ->
  each_live' keep_encoded (rotate_endpoint' Encode gd rewraps draws) live x errs a =
  each_live' keep_encoded (rotate_endpoint' Encode' gd' rewraps' draws') live x errs a /\
  journal_kept (ap_db a)
    (ap_db (each_live' keep_encoded (rotate_endpoint' Encode gd rewraps draws) live x errs a).1).
Proof.
  revert x errs a. induction live as [|o live IH]; intros x errs a Hrot; simpl; [done|].
  assert (with_engine cfg backend lower_text (oe_pos o) (rotate_endpoint' Encode gd rewraps draws o) a =
    with_engine cfg backend lower_text (oe_pos o) (rotate_endpoint' Encode' gd' rewraps' draws' o) a) as Heq.
  { apply with_engine_run. intros s Hs. unfold rotate_endpoint, RotateGeneration, withRemote.
    assert (forall s, es_db s = ap_db a -> rotateGeneration (oe_tr o)
        (opts_of cfg host env recovery_Decode secret tokens fido (oe_ep o)) (now (oe_pos o))
        OpenHMACDevices Encode (gd (oe_pos o)) (rewraps (oe_pos o)) (draws (oe_pos o)) s =
      rotateGeneration (oe_tr o) (opts_of cfg host env recovery_Decode secret tokens fido (oe_ep o))
        (now (oe_pos o)) OpenHMACDevices Encode' (gd' (oe_pos o)) (rewraps' (oe_pos o)) (draws' (oe_pos o)) s) as Hr.
    { intros s' Hs'. apply rotateGeneration_same_draws. by rewrite Hs'. }
    destruct (tr_Session (oe_tr o)) as [[begin end_]|]; [|by apply Hr].
    assert (net begin s = (set_es_tr (begin (es_tr s)).1 s, (begin (es_tr s)).2)) as Hb.
    { unfold net, zoom. by destruct (begin (es_tr s)). }
    destruct (begin (es_tr s)) as [t [[]|e]]; simpl in Hb; [|by rewrite !(bind_Fail _ _ _ _ _ Hb)].
    rewrite !(bind_Ok _ _ _ _ _ Hb). unfold mbind, M_bind, try. by rewrite (Hr (set_es_tr t s) Hs). }
  pose proof (with_engine_journal (oe_pos o) (rotate_endpoint' Encode gd rewraps draws o) a) as Hj.
  assert (journal_kept (ap_db a) (ap_db (with_engine cfg backend lower_text (oe_pos o)
    (rotate_endpoint' Encode gd rewraps draws o) a).1)) as Hk.
  { apply Hj. intros s Hs. apply RotateGeneration_journal. by rewrite Hs. }
  unfold mbind, M_bind, try. rewrite <- Heq.
  destruct (with_engine _ _ _ _ _ a) as [a1 r]. simpl in Hk.
  destruct (match r with Ok (b, err) => (keep_encoded x b, err) | Fail e => (x, Some e) end) as [x1 err].
  destruct (IH x1 (errs ++ match err with Some e => [EWrap (ep_ID (oe_ep o)) e] | None => [] end) a1
    (journal_kept_Some _ _ Hk Hrot)) as [E1 E2].
  split; [exact E1|]. etrans; [exact Hk|exact E2].
Qed.

Notation rotate_all Encode gd rewraps draws :=
  (App_RotateGeneration cfg backend host env lower_text OpenHMACDevices recovery_Decode
    New_directory New_rsync New_scp rclone_Init rclone_Open now lock_dir lock_call secret tokens fido
    Encode gd rewraps draws).

(** C11: While a rotation is journaled, rotating over all endpoints never mints a second generation:
    the outcome, state included, does not depend on the random key, secret, identifiers and nonces a
    new generation would be made of. The journal is dropped only when every endpoint succeeded;
    after an error it still names the same step, so the next run resumes it. *)
Theorem RotateGeneration_resumes_everywhere (Encode Encode' : bytes -> result string)
    (gd gd' : nat -> GenDraw) (rewraps rewraps' draws draws' : nat -> nat -> Draw) (a : St) :
  is_Some (db_rotation (ap_db a)) ->
  rotate_all Encode gd rewraps draws a = rotate_all Encode' gd' rewraps' draws' a /\
  match rotate_all Encode gd rewraps draws a with
  | (a', Ok (_, None)) => db_rotation (ap_db a') = None
  | (a', _) => journal_kept (ap_db a) (ap_db a')
  end.
Proof.
  intros Hrot. unfold App_RotateGeneration, forEachEndpoint.
  assert (forall m m' : M St (string * option error),
    (forall a1, ap_db a1 = ap_db a -> m a1 = m' a1 /\
      match m a1 with
      | (a', Ok (_, None)) => db_rotation (ap_db a') = None
      | (a', _) => journal_kept (ap_db a) (ap_db a')
      end) ->
    locked lock_dir lock_call m a = locked lock_dir lock_call m' a /\
    match locked lock_dir lock_call m a with
    | (a', Ok (_, None)) => db_rotation (ap_db a') = None
    | (a', _) => journal_kept (ap_db a) (ap_db a')
    end) as Hlock.
  { intros m m' Hm. unfold locked, AcquireLock, mbind, M_bind, try.
    destruct lock_dir as [[]|e]; [|done]. destruct lock_call as [[]|e]; [|done].
    destruct (ap_locked a); [done|].
    destruct (Hm (mkApp (ap_db a) (ap_remotes a) (ap_keyring a) true) eq_refl) as [<- H1'].
    destruct (m _) as [a1 r]. split; [done|]. by destruct r as [[enc [e|]]|e]. }
  apply Hlock. intros a1 Hdb. rewrite <- Hdb in Hrot |- *.
  destruct (resolveEndpoints cfg "") as [eps|e]; [|by split; [|intros r ?; exists r]].
  destruct (openEndpoints _ _ _ _ _ _ eps) as [live errs].
  destruct (rotate_live_resumes Encode Encode' gd gd' rewraps rewraps' draws draws' live EmptyString errs a1 Hrot)
    as [E1 E2].
  unfold mbind, M_bind. rewrite <- E1.
  destruct (each_live' _ _ _ _ _ a1) as [a2 [[enc errs2]|e]]; [|done]. simpl in *.
  by destruct (join_all errs2).
Qed.
End RotateAll.

(** ** Deleting a command *)

Section Tombstone.
Context {S K : Type} (cfg : Config) (host : string) (t : Time) `{EventCodecs}.
Notation St := (App S K).
Notation enqueue e := (EnqueueHistoryTombstoned (local_options cfg host) t e).

(** Enqueueing a tombstone changes the history table in one row. *)
Lemma enqueue_tombstone_history e d d' :
  enqueue e d = (d', Ok tt) ->
  db_history d' = alter hr_set_deleted (e_ID e) (db_history d) /\ db_interns d' = db_interns d.
Proof.
  unfold EnqueueHistoryTombstoned. intros E. apply bind_Ok_inv in E as (d0 & seq & E0 & E). injection E0 as <- _.
  apply bind_Ok_inv in E as (d1 & [] & E1 & E). apply bind_Ok_inv in E as (d2 & [] & E2 & E). injection E2 as <-.
  assert (db_history d1 = db_history d /\ db_interns d1 = db_interns d) as [Hh Hi].
  { unfold Append, AppendExec in E1. case_match; [done|]. by injection E1 as <-. }
  unfold enqueue_done in E. apply bind_Ok_inv in E as (d3 & [] & E3 & E). injection E3 as <-.
  apply bind_Ok_inv in E as (d4 & [] & E4 & E).
  assert (db_history d4 = alter hr_set_deleted (e_ID e) (db_history d1) /\ db_interns d4 = db_interns d1) as [Hh4 Hi4].
  { injection E4 as <-. by repeat case_match. }
  injection E as <-. simpl. by rewrite Hh4, Hi4, Hh, Hi.
Qed.

Definition delete_all (ids : list string) (m : gmap string HistoryRow) : gmap string HistoryRow :=
  foldl (fun m id => alter hr_set_deleted id m) m ids.

Lemma delete_all_lookup ids m k :
  delete_all ids m !! k = (if decide (k ∈ ids) then hr_set_deleted <$> m !! k else m !! k).
Proof.
  revert m. induction ids as [|id ids IH]; intros m; [done|]. unfold delete_all in *. simpl. rewrite IH.
  rewrite lookup_alter. destruct (decide (id = k)) as [->|Hne].
  - destruct (decide (k ∈ k :: ids)) as [_|Hn]; [|destruct Hn; by left].
    destruct (decide (k ∈ ids)); [|done]. destruct (m !! k); done.
  - destruct (decide (k ∈ ids)), (decide (k ∈ id :: ids)) as [Hin|Hnot]; try done.
    + destruct Hnot. by right.
    + apply elem_of_cons in Hin as [->|?]; done.
Qed.

Lemma tombstone_entries_history es (a a' : St) :
  for_each es (fun e => app_sql (enqueue e)) a = (a', Ok tt) ->
  db_history (ap_db a') = delete_all (e_ID <$> es) (db_history (ap_db a)) /\
  db_interns (ap_db a') = db_interns (ap_db a).
Proof.
  revert a. induction es as [|e es IH]; intros a E; simpl in E; [by injection E as <-|].
  apply bind_Ok_inv in E as (a1 & [] & E1 & E). unfold app_sql, zoom in E1.
  destruct (enqueue e (ap_db a)) as [d1 r1] eqn:Ed. injection E1 as <- ->.
  destruct (enqueue_tombstone_history _ _ _ Ed) as [Hh Hi]. destruct (IH _ E) as [Hh' Hi']. simpl in *.
  rewrite Hh', Hh, Hi', Hi. done.
Qed.

Lemma ListByCommand_ids cmd d id :
  history_wf (db_history d) ->
  id ∈ (e_ID <$> ListByCommand cmd d) <->
  exists r, db_history d !! id = Some r /\ hr_deleted r = false /\ hr_command r = cmd.
Proof.
  intros Hwf. unfold ListByCommand, scanEntries. rewrite <- list_fmap_compose, list_elem_of_fmap.
  setoid_rewrite sort_slice_perm. setoid_rewrite list_elem_of_In. setoid_rewrite filter_In.
  setoid_rewrite <- list_elem_of_In. setoid_rewrite elem_of_rows. setoid_rewrite andb_true_iff.
  setoid_rewrite negb_true_iff. setoid_rewrite String.eqb_eq. simpl. split.
  - intros (r & -> & (k & Hk) & Hd & Hc). exists r. by rewrite (hw_key _ Hwf _ _ Hk).
  - intros (r & Hr & Hd & Hc). exists r. rewrite (hw_key _ Hwf _ _ Hr). eauto.
Qed.

(** After TombstoneCommand succeeds no live entry with that command is listed any more, and
    every row with another command is as it was. *)
Theorem TombstoneCommand_clears (command : string) (a a' : St) :
  history_wf (db_history (ap_db a)) -> command <> EmptyString ->
  TombstoneCommand cfg host t command a = (a', Ok tt) ->
  ListByCommand command (ap_db a') = [] /\
  forall k r, db_history (ap_db a) !! k = Some r -> hr_command r <> command ->
    db_history (ap_db a') !! k = Some r.
Proof.
  intros Hwf Hne E. unfold TombstoneCommand in E. destruct command as [|c0 c]; [done|]. cbn [str_empty] in E.
  set (cmd := String c0 c) in *. erewrite bind_Ok in E by reflexivity.
  assert (for_each (ListByCommand cmd (ap_db a)) (fun e => app_sql (enqueue e)) a = (a', Ok tt)) as E'.
  { unfold TombstoneEntries in E. by destruct (ListByCommand cmd (ap_db a)). }
  destruct (tombstone_entries_history _ _ _ E') as [Hh _].
  pose proof (fun id => ListByCommand_ids cmd (ap_db a) id Hwf) as Hids.
  split.
  - unfold ListByCommand. rewrite Hh.
    destruct (List.filter _ _) as [|r l] eqn:Ef; [done|]. exfalso.
    assert (In r (List.filter (fun r => negb (hr_deleted r) && String.eqb (hr_command r) cmd)
      (rows (delete_all (e_ID <$> ListByCommand cmd (ap_db a)) (db_history (ap_db a)))))) as Hr by (rewrite Ef; by left).
    apply filter_In in Hr as [(k & Hk)%list_elem_of_In%elem_of_rows [Hd%negb_true_iff Hc%String.eqb_eq]%andb_true_iff].
    rewrite delete_all_lookup in Hk. case_decide as Hin.
    + apply fmap_Some in Hk as (r0 & _ & ->). done.
    + apply Hin, Hids. eauto.
  - intros k r Hr Hc. rewrite Hh, delete_all_lookup. case_decide as Hin; [|done].
    apply Hids in Hin as (r' & Hr' & _ & Hc'). congruence.
Qed.
End Tombstone.
