(* ===== verification/Cache.v ===== *)
(** [internal/history/cache.go]: the in-memory index of the live history the
    daemon answers suggestions from. Strings are interned in a pool, records
    are addressed by index and removed by swapping in the last one, a table of
    indices sorted by command serves prefix searches by bisection, and the
    pool is rebuilt when most of it is garbage. The first part is the code; the
    second states what it implements, a finite map from commands to summaries.
    The lock, the time of a rebuild and the heap sizes are not modelled. *)

From S2P Require Import Prelude Database History Frontier Event Device Merge Utf8.

Record stringPool := mkPool { strs : list string; ids : gmap string Z }.

Record cacheRec := mkRec {
  rc_cmd : Z; rc_cwd : Z; rc_device : Z; rc_session : Z;
  rc_lastStart : Z; rc_lastDurationMs : Z; rc_lastExit : Z; rc_freq : Z;
}.

Record CacheStats := mkStats {
  st_Entries : Z; st_UniqueCommands : Z; st_InternedStrings : Z; st_Bytes : Z; st_Dirty : bool; st_RowsScanned : Z;
}.

Record Cache := mkCache {
  c_pool : stringPool;
  c_recs : list cacheRec;
  c_byCmd : gmap Z nat;
  c_idToCmd : gmap string Z;
  c_sorted : list nat;
  c_dirty : bool;
  c_stats : CacheStats;
}.

(** ** The string pool *)

Definition newStringPool : stringPool := mkPool [] ∅.

Definition pool_intern (s : string) (p : stringPool) : stringPool * Z :=
  match ids p !! s with
  | Some id => (p, id)
  | None =>
      let id := wrap32 (Z.of_nat (length (strs p))) in
      (mkPool (strs p ++ [s]) (<[s := id]> (ids p)), id)
  end.

Definition pool_get (p : stringPool) (id : Z) : string :=
  if (id <? 0) || (Z.of_nat (length (strs p)) <=? id) then EmptyString
  else default EmptyString (strs p !! Z.to_nat id).

Definition stats_zero : CacheStats := mkStats 0 0 0 0 false 0.
Definition NewCache : Cache := mkCache newStringPool [] ∅ ∅ [] false stats_zero.

(** Field updates. *)
Definition set_pool (p : stringPool) (c : Cache) : Cache :=
  mkCache p (c_recs c) (c_byCmd c) (c_idToCmd c) (c_sorted c) (c_dirty c) (c_stats c).
Definition set_recs (rs : list cacheRec) (c : Cache) : Cache :=
  mkCache (c_pool c) rs (c_byCmd c) (c_idToCmd c) (c_sorted c) (c_dirty c) (c_stats c).
Definition set_byCmd (m : gmap Z nat) (c : Cache) : Cache :=
  mkCache (c_pool c) (c_recs c) m (c_idToCmd c) (c_sorted c) (c_dirty c) (c_stats c).
Definition set_idToCmd (m : gmap string Z) (c : Cache) : Cache :=
  mkCache (c_pool c) (c_recs c) (c_byCmd c) m (c_sorted c) (c_dirty c) (c_stats c).
Definition set_sorted (l : list nat) (c : Cache) : Cache :=
  mkCache (c_pool c) (c_recs c) (c_byCmd c) (c_idToCmd c) l (c_dirty c) (c_stats c).
Definition set_dirty (b : bool) (c : Cache) : Cache :=
  mkCache (c_pool c) (c_recs c) (c_byCmd c) (c_idToCmd c) (c_sorted c) b (c_stats c).
Definition set_stats (s : CacheStats) (c : Cache) : Cache :=
  mkCache (c_pool c) (c_recs c) (c_byCmd c) (c_idToCmd c) (c_sorted c) (c_dirty c) s.

(** ** Updates *)

Definition durationMsOf (e : Entry) : Z :=
  match e_DurationMs e with
  | Some d => if d <? 0 then 0 else d
  | None => 0
  end.

Definition completeDurationMs (startMs endMs : Z) : Z :=
  if (startMs <=? 0) || (endMs <? startMs) then 0 else wrap64 (endMs - startMs).

Definition exit_of (e : Entry) : Z := from_option wrap32 (-1) (e_ExitStatus e).

Definition applyCreatedLocked (e : Entry) (c : Cache) : Cache :=
  if e_Deleted e || str_empty (e_Command e) then c
  else
    let '(p, cmdID) := pool_intern (e_Command e) (c_pool c) in
    let idToCmd := <[e_ID e := cmdID]> (c_idToCmd c) in
    let start := UnixMilli (e_StartTS e) in
    match c_byCmd c !! cmdID ≫= fun idx => pair idx <$> c_recs c !! idx with
    | Some (idx, r) =>
        let freq := wrap32 (rc_freq r + 1) in
        if rc_lastStart r <=? start then
          let '(p, cwd) := pool_intern (e_Cwd e) p in
          let '(p, device) := pool_intern (e_DeviceID e) p in
          let '(p, session) := pool_intern (e_SessionID e) p in
          set_pool p (set_idToCmd idToCmd
            (set_recs (<[idx := mkRec (rc_cmd r) cwd device session start (durationMsOf e) (exit_of e) freq]>
                         (c_recs c)) c))
        else
          set_pool p (set_idToCmd idToCmd
            (set_recs (<[idx := mkRec (rc_cmd r) (rc_cwd r) (rc_device r) (rc_session r) (rc_lastStart r)
                                 (rc_lastDurationMs r) (rc_lastExit r) freq]> (c_recs c)) c))
    | None =>
        let byCmd := <[cmdID := length (c_recs c)]> (c_byCmd c) in
        let '(p, cwd) := pool_intern (e_Cwd e) p in
        let '(p, device) := pool_intern (e_DeviceID e) p in
        let '(p, session) := pool_intern (e_SessionID e) p in
        set_pool p (set_idToCmd idToCmd (set_byCmd byCmd
          (set_recs (c_recs c ++ [mkRec cmdID cwd device session start (durationMsOf e) (exit_of e) 1]) c)))
    end.

Definition applyCompletedLocked (id : string) (endMs exit : Z) (c : Cache) : Cache :=
  match c_idToCmd c !! id ≫= fun cmdID => c_byCmd c !! cmdID with
  | None => c
  | Some idx =>
      set_recs (alter (fun r => mkRec (rc_cmd r) (rc_cwd r) (rc_device r) (rc_session r) (rc_lastStart r)
                                  (completeDurationMs (rc_lastStart r) endMs) (wrap32 exit) (rc_freq r))
                  idx (c_recs c)) c
  end.

(** The last record takes the place of the removed one. *)
Definition removeAtLocked (idx : nat) (c : Cache) : Cache :=
  let lst := (length (c_recs c) - 1)%nat in
  match c_recs c !! idx, c_recs c !! lst with
  | Some r, Some l =>
      let '(recs, byCmd) := if (idx =? lst)%nat then (c_recs c, c_byCmd c)
                            else (<[idx := l]> (c_recs c), <[rc_cmd l := idx]> (c_byCmd c)) in
      set_byCmd (delete (rc_cmd r) byCmd) (set_recs (take lst recs) c)
  | _, _ => c
  end.

(** [c.recs[idx].freq--], and the record goes when nothing is left. *)
Definition decrement (idx : nat) (c : Cache) : Cache :=
  match c_recs c !! idx with
  | None => c
  | Some r =>
      let freq := wrap32 (rc_freq r - 1) in
      let c := set_recs (<[idx := mkRec (rc_cmd r) (rc_cwd r) (rc_device r) (rc_session r) (rc_lastStart r)
                                    (rc_lastDurationMs r) (rc_lastExit r) freq]> (c_recs c)) c in
      if freq <=? 0 then removeAtLocked idx c else c
  end.

(** The body of the loop over tombstoned identifiers. *)
Definition tombstone_id (id : string) (c : Cache) : Cache :=
  match c_idToCmd c !! id with
  | None => set_dirty true c
  | Some cmdID =>
      let c := set_idToCmd (delete id (c_idToCmd c)) c in
      match c_byCmd c !! cmdID with
      | None => c
      | Some idx => decrement idx c
      end
  end.

Definition ApplyTombstoneCommandUnlocked (command : string) (c : Cache) : Cache :=
  match ids (c_pool c) !! command with
  | None => c
  | Some cmdID =>
      match c_byCmd c !! cmdID with
      | None => c
      | Some idx =>
          removeAtLocked idx (set_idToCmd (filter (fun '(_, cid) => cid <> cmdID) (c_idToCmd c)) c)
      end
  end.

Definition rec_command (c : Cache) (i : nat) : string :=
  from_option (fun r => pool_get (c_pool c) (rc_cmd r)) EmptyString (c_recs c !! i).

Definition resortLocked (c : Cache) : Cache :=
  set_sorted (sort_slice (fun i j => str_lt (rec_command c i) (rec_command c j)) (seq 0 (length (c_recs c)))) c.

(** ** Compaction *)

Definition rec_strings (r : cacheRec) : list Z := [rc_cmd r; rc_cwd r; rc_device r; rc_session r].

Definition referencedStringCountLocked (c : Cache) : nat :=
  size (list_to_set (C := gset Z) (c_recs c ≫= rec_strings)).

(** [remap]: the new pool and the table of identifiers seen so far. *)
Definition remap (old : stringPool) (id : Z) (st : stringPool * gmap Z Z) : (stringPool * gmap Z Z) * Z :=
  let '(next, oldToNew) := st in
  match oldToNew !! id with
  | Some id' => (st, id')
  | None => let '(next, id') := pool_intern (pool_get old id) next in ((next, <[id := id']> oldToNew), id')
  end.

Definition remap_rec (old : stringPool) (r : cacheRec) (st : stringPool * gmap Z Z)
    : (stringPool * gmap Z Z) * cacheRec :=
  let '(st, cmd) := remap old (rc_cmd r) st in
  let '(st, cwd) := remap old (rc_cwd r) st in
  let '(st, device) := remap old (rc_device r) st in
  let '(st, session) := remap old (rc_session r) st in
  (st, mkRec cmd cwd device session (rc_lastStart r) (rc_lastDurationMs r) (rc_lastExit r) (rc_freq r)).

Fixpoint remap_all {A} (f : A -> stringPool * gmap Z Z -> (stringPool * gmap Z Z) * A) (l : list A)
    (st : stringPool * gmap Z Z) : (stringPool * gmap Z Z) * list A :=
  match l with
  | [] => (st, [])
  | x :: l =>
      let '(st, x) := f x st in
      let '(st, l) := remap_all f l st in
      (st, x :: l)
  end.

Definition remap_id (old : stringPool) (e : string * Z) (st : stringPool * gmap Z Z)
    : (stringPool * gmap Z Z) * (string * Z) :=
  let '(st, id) := remap old e.2 st in (st, (e.1, id)).

Definition index_by_cmd (recs : list cacheRec) : gmap Z nat :=
  foldl (fun m '(i, r) => <[rc_cmd r := i]> m) ∅ (imap pair recs).

Definition compactPoolLocked (c : Cache) : Cache :=
  let '(st, recs) := remap_all (remap_rec (c_pool c)) (c_recs c) (newStringPool, ∅) in
  let '(st, pairs) := remap_all (remap_id (c_pool c)) (map_to_list (c_idToCmd c)) st in
  set_pool st.1 (set_byCmd (index_by_cmd recs) (set_recs recs (set_idToCmd (list_to_map pairs) c))).

Definition maybeCompactLocked (c : Cache) : Cache :=
  let n := length (strs (c_pool c)) in
  if (n =? 0)%nat then c
  else
    let live := referencedStringCountLocked c in
    if (live =? 0)%nat || (live * 2 <? n)%nat then compactPoolLocked c else c.

(** [unsafe.Sizeof(cacheRec{})] is 40: six 32-bit fields and two 64-bit ones,
    aligned to 8. *)
Definition estimateBytesLocked (c : Cache) : Z :=
  foldl Z.add 0 ((fun s => Z.of_nat (String.length s)) <$> strs (c_pool c)) +
  Z.of_nat (length (c_recs c)) * 40 + Z.of_nat (size (c_idToCmd c)) * 48.

Definition refreshStatsLocked (c : Cache) : Cache :=
  set_stats (mkStats (Z.of_nat (size (c_idToCmd c))) (Z.of_nat (length (c_recs c)))
    (Z.of_nat (length (strs (c_pool c)))) (estimateBytesLocked c) (st_Dirty (c_stats c))
    (st_RowsScanned (c_stats c))) c.

(** The tail of every update. *)
Definition settle (c : Cache) : Cache := refreshStatsLocked (maybeCompactLocked (resortLocked c)).

(** ** The operations *)

Definition ApplyCreated (e : Entry) (c : Cache) : Cache := settle (applyCreatedLocked e c).
Definition ApplyCompleted (id : string) (end_ : Time) (exit : Z) (c : Cache) : Cache :=
  applyCompletedLocked id (UnixMilli end_) exit c.
Definition ApplyTombstoned (tombstoned : list string) (c : Cache) : Cache :=
  settle (foldl (fun c id => tombstone_id id c) c tombstoned).
Definition ApplyTombstoneCommand (command : string) (c : Cache) : Cache :=
  match ids (c_pool c) !! command ≫= fun cmdID => c_byCmd c !! cmdID with
  | None => c
  | Some _ => settle (ApplyTombstoneCommandUnlocked command c)
  end.
Definition ApplyBatch (cs : ChangeSet) (c : Cache) : Cache :=
  let c := foldl (fun c e => applyCreatedLocked e c) c (cs_Created cs) in
  let c := foldl (fun c done => applyCompletedLocked (cc_ID done) (cc_End done) (cc_Exit done) c) c
             (cs_Completed cs) in
  let c := foldl (fun c id => tombstone_id id c) c (cs_Tombstoned cs) in
  let c := foldl (fun c cmd => ApplyTombstoneCommandUnlocked cmd c) c (cs_Commands cs) in
  settle c.
Definition MarkDirty (c : Cache) : Cache := set_dirty true c.
Definition Compact (c : Cache) : Cache := refreshStatsLocked (compactPoolLocked c).

Definition Stats (c : Cache) : CacheStats :=
  mkStats (Z.of_nat (size (c_idToCmd c))) (Z.of_nat (length (c_recs c)))
    (Z.of_nat (length (strs (c_pool c)))) (estimateBytesLocked c) (c_dirty c) (st_RowsScanned (c_stats c)).

(** The new contents replace the old ones once all rows are read. *)
Definition Rebuild (live : list Entry) (c : Cache) : Cache :=
  let next := resortLocked (foldl (fun c e => applyCreatedLocked e c) NewCache live) in
  set_stats (mkStats (Z.of_nat (size (c_idToCmd next))) (Z.of_nat (length (c_recs next)))
    (Z.of_nat (length (strs (c_pool next)))) (estimateBytesLocked next) false
    (Z.of_nat (length live))) (set_dirty false next).

(** ** Queries *)

Definition entryFromLocked (c : Cache) (r : cacheRec) : Entry :=
  mkEntry "" (pool_get (c_pool c) (rc_cmd r)) (time_UnixMilli (rc_lastStart r)) None
    (if 0 <? rc_lastDurationMs r then Some (rc_lastDurationMs r) else None)
    (if 0 <=? rc_lastExit r then Some (rc_lastExit r) else None)
    (pool_get (c_pool c) (rc_cwd r)) (pool_get (c_pool c) (rc_session r)) ""
    (pool_get (c_pool c) (rc_device r)) "" false "" None time_zero.

(** [sort.Search]: bisection for the first index at which [f] holds. *)
Fixpoint search_from (f : nat -> bool) (fuel i j : nat) : nat :=
  match fuel with
  | O => i
  | Datatypes.S fuel =>
      if (i <? j)%nat then
        let h := Nat.div2 (i + j) in
        if f h then search_from f fuel i h else search_from f fuel (Datatypes.S h) j
      else i
  end.
Definition sort_Search (n : nat) (f : nat -> bool) : nat := search_from f n 0 n.

(** The loop of [prefixEntriesLocked]; [n] entries may still be added. *)
Fixpoint take_prefixed (c : Cache) (prefix : string) (is_ : list nat) (n : nat) : list Entry :=
  match is_ with
  | [] => []
  | i :: is_ =>
      match c_recs c !! i with
      | None => []
      | Some r =>
          let cmd := pool_get (c_pool c) (rc_cmd r) in
          if negb (has_prefix prefix cmd) then []
          else if String.eqb cmd prefix then take_prefixed c prefix is_ n
          else match n with
               | O => []
               | Datatypes.S O => [entryFromLocked c r]
               | Datatypes.S n => entryFromLocked c r :: take_prefixed c prefix is_ n
               end
      end
  end.

Definition prefixEntriesLocked (c : Cache) (prefix : string) : list Entry :=
  let at_or_after i := negb (str_lt (from_option (rec_command c) EmptyString (c_sorted c !! i)) prefix) in
  take_prefixed c prefix (drop (sort_Search (length (c_sorted c)) at_or_after) (c_sorted c)) 64.

Definition Cache_Suggest (prefix : string) (c : Cache) : list Entry :=
  if str_empty prefix || c_dirty c then [] else prefixEntriesLocked c prefix.

Definition AllUnique (c : Cache) : list Entry :=
  if c_dirty c then [] else entryFromLocked c <$> c_recs c.
