(* ===== verification/CacheSpec.v ===== *)
(** What the history cache implements: a finite map from live commands to
    summaries of their use. Every operation of [Cache] keeps the invariant of
    the pool and the indices and acts on the map as its abstract counterpart;
    sorting and compaction are invisible. The prefix search by bisection finds
    what a scan of the sorted commands finds. *)

From S2P Require Import Prelude Database History Frontier Event Device Merge Utf8 Cache.

(** ** The string pool *)

Definition valid (p : stringPool) (id : Z) : Prop := 0 <= id < Z.of_nat (length (strs p)).

Record pool_ok (p : stringPool) : Prop := {
  po_ids : forall s i, ids p !! s = Some i <-> valid p i /\ strs p !! Z.to_nat i = Some s;
  po_size : Z.of_nat (length (strs p)) <= 2^31;
}.

Lemma pool_get_valid p i : valid p i -> strs p !! Z.to_nat i = Some (pool_get p i).
Proof.
  intros [H1 H2]. unfold pool_get. rewrite (proj2 (Z.ltb_ge _ _) H1), (proj2 (Z.leb_gt _ _) H2). simpl.
  destruct (strs p !! Z.to_nat i) eqn:E; [done|]. apply lookup_ge_None in E. lia.
Qed.
Lemma pool_ids_get p i : pool_ok p -> valid p i -> ids p !! pool_get p i = Some i.
Proof. intros Hp Hv. apply (po_ids p Hp). split; [done|by apply pool_get_valid]. Qed.
Lemma pool_get_ids p s i : pool_ok p -> ids p !! s = Some i -> valid p i /\ pool_get p i = s.
Proof.
  intros Hp [Hv Hs]%(po_ids p Hp). split; [done|]. rewrite (pool_get_valid _ _ Hv) in Hs. by injection Hs.
Qed.
Lemma pool_get_inj p i j : pool_ok p -> valid p i -> valid p j -> pool_get p i = pool_get p j -> i = j.
Proof.
  intros Hp Hi Hj E. pose proof (pool_ids_get p i Hp Hi) as H1. rewrite E, (pool_ids_get p j Hp Hj) in H1.
  by injection H1.
Qed.

(** A pool only grows at the end. *)
Definition pool_le (p p' : stringPool) : Prop := strs p `prefix_of` strs p'.
#[global] Instance pool_le_preorder : PreOrder pool_le.
Proof. split; [by intros p; exists []; rewrite app_nil_r|]. intros p1 p2 p3. unfold pool_le. by etrans. Qed.
Lemma valid_le p p' i : pool_le p p' -> valid p i -> valid p' i.
Proof. intros [l El] [H1 H2]. unfold valid. rewrite El, length_app. lia. Qed.
Lemma pool_get_le p p' i : pool_le p p' -> valid p i -> pool_get p' i = pool_get p i.
Proof.
  intros Hle Hv. pose proof (pool_get_valid p' i (valid_le _ _ _ Hle Hv)) as H1.
  destruct Hle as [l El]. rewrite El, lookup_app_l in H1 by (destruct Hv; lia).
  rewrite (pool_get_valid _ _ Hv) in H1. by injection H1.
Qed.

Lemma pool_intern_spec s p :
  pool_ok p -> Z.of_nat (length (strs p)) < 2^31 ->
  let '(p', i) := pool_intern s p in
  pool_ok p' /\ pool_le p p' /\ valid p' i /\ pool_get p' i = s /\
  (length (strs p') <= Datatypes.S (length (strs p)))%nat.
Proof.
  intros Hp Hroom. unfold pool_intern. destruct (ids p !! s) as [i|] eqn:E.
  { destruct (pool_get_ids _ _ _ Hp E). split_and!; [done|reflexivity|done|done|lia]. }
  rewrite wrap32_small by lia. set (n := length (strs p)) in *.
  assert (pool_ok (mkPool (strs p ++ [s]) (<[s := Z.of_nat n]> (ids p)))) as Hp'.
  { split; [|simpl; rewrite length_app; simpl; lia]. intros s' i. simpl. unfold valid. simpl.
    rewrite length_app. simpl. fold n. rewrite lookup_insert. case_decide as Hs.
    - subst s'. split.
      + intros [= <-]. split; [lia|]. rewrite Nat2Z.id. unfold n. by rewrite lookup_app_r, Nat.sub_diag by lia.
      + intros [Hv Hi]. destruct (decide (i = Z.of_nat n)) as [->|Hne]; [done|].
        rewrite lookup_app_l in Hi by (unfold n in *; lia).
        assert (ids p !! s = Some i) as Hx by (apply (po_ids p Hp); unfold valid; fold n; split; [lia|done]). congruence.
    - rewrite (po_ids p Hp). unfold valid. fold n. split.
      + intros [Hv Hi]. split; [lia|]. by apply lookup_app_l_Some.
      + intros [Hv Hi]. destruct (decide (i = Z.of_nat n)) as [->|Hne].
        { rewrite Nat2Z.id in Hi. unfold n in Hi. rewrite lookup_app_r, Nat.sub_diag in Hi by lia.
          injection Hi as <-. done. }
        split; [lia|]. by rewrite lookup_app_l in Hi by (unfold n in *; lia). }
  assert (valid (mkPool (strs p ++ [s]) (<[s := Z.of_nat n]> (ids p))) (Z.of_nat n)) as Hv.
  { unfold valid. simpl. rewrite length_app. simpl. fold n. lia. }
  split; [done|]. split; [by exists [s]|]. split; [done|]. split.
  - apply (pool_get_ids _ s _ Hp'). simpl. by rewrite lookup_insert_eq.
  - simpl. rewrite length_app. simpl. fold n. lia.
Qed.

(** ** The invariant and the view *)

Record cache_inv (c : Cache) : Prop := {
  ci_pool : pool_ok (c_pool c);
  ci_recs : forall i r, c_recs c !! i = Some r ->
    Forall (valid (c_pool c)) (rec_strings r) /\ c_byCmd c !! rc_cmd r = Some i;
  ci_byCmd : forall k i, c_byCmd c !! k = Some i -> exists r, c_recs c !! i = Some r /\ rc_cmd r = k;
  ci_ids : forall id k, c_idToCmd c !! id = Some k -> valid (c_pool c) k;
}.

Record Summary := mkSummary {
  sm_cwd : string; sm_device : string; sm_session : string;
  sm_lastStart : Z; sm_lastDurationMs : Z; sm_lastExit : Z; sm_freq : Z;
}.
Record View := mkView { v_cmds : gmap string Summary; v_ids : gmap string string; v_dirty : bool }.

Definition summary_of (p : stringPool) (r : cacheRec) : Summary :=
  mkSummary (pool_get p (rc_cwd r)) (pool_get p (rc_device r)) (pool_get p (rc_session r))
    (rc_lastStart r) (rc_lastDurationMs r) (rc_lastExit r) (rc_freq r).

Definition cmds_of (p : stringPool) (recs : list cacheRec) : gmap string Summary :=
  list_to_map ((fun r => (pool_get p (rc_cmd r), summary_of p r)) <$> recs).

Definition view (c : Cache) : View :=
  mkView (cmds_of (c_pool c) (c_recs c)) (pool_get (c_pool c) <$> c_idToCmd c) (c_dirty c).

Lemma rec_cmd_valid c i r : cache_inv c -> c_recs c !! i = Some r -> valid (c_pool c) (rc_cmd r).
Proof. intros Hc Hr. destruct (ci_recs c Hc i r Hr) as [Hf _]. by apply Forall_cons in Hf as [? _]. Qed.

Lemma recs_cmd_inj c i j r r' :
  cache_inv c -> c_recs c !! i = Some r -> c_recs c !! j = Some r' -> rc_cmd r = rc_cmd r' -> i = j.
Proof.
  intros Hc Hi Hj E. destruct (ci_recs c Hc i r Hi) as [_ H1]. destruct (ci_recs c Hc j r' Hj) as [_ H2].
  rewrite E in H1. congruence.
Qed.

Lemma cmds_NoDup c : cache_inv c -> NoDup ((fun r => pool_get (c_pool c) (rc_cmd r)) <$> c_recs c).
Proof.
  intros Hc. apply NoDup_alt. intros i j s. rewrite !list_lookup_fmap.
  intros (r & Hr & ->)%fmap_Some (r' & Hr' & E)%fmap_Some.
  apply (recs_cmd_inj c i j r r' Hc Hr Hr'). apply (pool_get_inj (c_pool c)); [apply Hc|..|done];
    by eapply rec_cmd_valid.
Qed.

(** A command is found through the pool and the index. *)
Definition find_rec (c : Cache) (s : string) : option cacheRec :=
  ids (c_pool c) !! s ≫= fun k => c_byCmd c !! k ≫= fun i => c_recs c !! i.

Lemma find_rec_Some c s r :
  cache_inv c -> find_rec c s = Some r <-> exists i, c_recs c !! i = Some r /\ pool_get (c_pool c) (rc_cmd r) = s.
Proof.
  intros Hc. unfold find_rec. split.
  - intros (k & Hk & (i & Hi & Hr)%bind_Some)%bind_Some. exists i. split; [done|].
    destruct (ci_byCmd c Hc k i Hi) as (r' & Hr' & <-). simplify_eq.
    by destruct (pool_get_ids _ _ _ (ci_pool c Hc) Hk).
  - intros (i & Hr & <-). rewrite (pool_ids_get _ _ (ci_pool c Hc)) by by eapply rec_cmd_valid. simpl.
    destruct (ci_recs c Hc i r Hr) as [_ ->]. simpl. done.
Qed.

Lemma view_lookup c s : cache_inv c -> v_cmds (view c) !! s = summary_of (c_pool c) <$> find_rec c s.
Proof.
  intros Hc. simpl. unfold cmds_of. pose proof (cmds_NoDup c Hc) as Hnd.
  assert (NoDup ((fun r => (pool_get (c_pool c) (rc_cmd r), summary_of (c_pool c) r)) <$> c_recs c).*1) as Hnd'
    by by rewrite <- list_fmap_compose.
  destruct (find_rec c s) as [r|] eqn:E; simpl.
  - apply (find_rec_Some c s r Hc) in E as (i & Hr & <-). apply elem_of_list_to_map; [done|].
    apply list_elem_of_fmap. exists r. split; [done|]. by eapply list_elem_of_lookup_2.
  - apply not_elem_of_list_to_map. rewrite <- list_fmap_compose. intros (r & -> & Hr)%list_elem_of_fmap.
    apply list_elem_of_lookup in Hr as [i Hi]. simpl in E.
    assert (find_rec c (pool_get (c_pool c) (rc_cmd r)) = Some r) as E2 by (apply find_rec_Some; eauto).
    by rewrite E2 in E.
Qed.

Lemma NewCache_inv : cache_inv NewCache.
Proof.
  split; [split| | |]; simpl; try done; try lia.
  intros s i. rewrite lookup_empty. split; [done|]. intros [_ Hx]. done.
Qed.

(** ** Building blocks *)

Lemma view_eq c m i b :
  cache_inv c -> (forall s, summary_of (c_pool c) <$> find_rec c s = m !! s) ->
  pool_get (c_pool c) <$> c_idToCmd c = i -> c_dirty c = b -> view c = mkView m i b.
Proof.
  intros Hc Hm <- <-. unfold view. f_equal. apply map_eq. intros s. rewrite <- Hm. by apply view_lookup.
Qed.

(** Interning more strings. *)
Lemma summary_of_le p p' r :
  pool_le p p' -> Forall (valid p) (rec_strings r) -> summary_of p' r = summary_of p r.
Proof.
  intros Hle Hf. apply Forall_cons in Hf as [_ Hf]. apply Forall_cons in Hf as [H1 Hf].
  apply Forall_cons in Hf as [H2 Hf]. apply Forall_cons in Hf as [H3 _].
  unfold summary_of. by rewrite !(pool_get_le p p').
Qed.

Lemma set_pool_spec p' c :
  cache_inv c -> pool_ok p' -> pool_le (c_pool c) p' ->
  cache_inv (set_pool p' c) /\ view (set_pool p' c) = view c.
Proof.
  intros Hc Hp' Hle.
  assert (cache_inv (set_pool p' c)) as Hc'.
  { split; simpl; [done| |apply Hc|].
    - intros i r Hr. destruct (ci_recs c Hc i r Hr) as [Hf Hb]. split; [|done].
      eapply Forall_impl; [exact Hf|]. intros k Hk. by eapply valid_le.
    - intros id k Hk. eapply valid_le; [done|]. by eapply ci_ids. }
  split; [done|]. unfold view. simpl. f_equal.
  - unfold cmds_of. f_equal. apply list_fmap_ext. intros i r Hr. simpl.
    rewrite (pool_get_le _ _ _ Hle (rec_cmd_valid c i r Hc Hr)).
    by rewrite (summary_of_le _ _ _ Hle (proj1 (ci_recs c Hc i r Hr))).
  - apply map_fmap_ext. intros id k Hk. apply pool_get_le; [done|]. by eapply ci_ids.
Qed.

(** Replacing the record at an index, for the same command. *)
Lemma set_rec_spec idx r r' c :
  cache_inv c -> c_recs c !! idx = Some r -> rc_cmd r' = rc_cmd r ->
  Forall (valid (c_pool c)) (rec_strings r') ->
  let c' := set_recs (<[idx := r']> (c_recs c)) c in
  cache_inv c' /\
  view c' = mkView (<[pool_get (c_pool c) (rc_cmd r) := summary_of (c_pool c) r']> (v_cmds (view c)))
              (v_ids (view c)) (v_dirty (view c)).
Proof.
  intros Hc Hr Hcmd Hf c'. pose proof (lookup_lt_Some _ _ _ Hr) as Hlt.
  assert (cache_inv c') as Hc'.
  { split; simpl; [apply Hc| | |apply Hc].
    - intros i ri. rewrite list_lookup_insert. case_decide as Hi.
      + destruct Hi as [-> _]. intros [= <-]. split; [done|]. rewrite Hcmd. apply (ci_recs c Hc _ _ Hr).
      + intros Hri. by apply (ci_recs c Hc).
    - intros k i Hk. destruct (ci_byCmd c Hc k i Hk) as (ri & Hri & <-).
      rewrite list_lookup_insert. case_decide as Hi; [|eauto]. destruct Hi as [-> _]. exists r'.
      split; [done|]. congruence. }
  split; [done|]. apply view_eq; [done| |done|done]. intros s. rewrite lookup_insert. case_decide as Hs.
  - subst s. assert (find_rec c' (pool_get (c_pool c) (rc_cmd r)) = Some r') as ->; [|done].
    apply find_rec_Some; [done|]. exists idx. simpl. rewrite list_lookup_insert_eq by done. by rewrite Hcmd.
  - rewrite view_lookup by done. f_equal. apply option_eq. intros r0. rewrite !find_rec_Some by done. simpl.
    split; intros (i & Hi & Hs0); exists i; (split; [|done]).
    + rewrite list_lookup_insert_ne in Hi; [done|]. intros ->. rewrite list_lookup_insert_eq in Hi by done.
      injection Hi as ->. apply Hs. by rewrite <- Hcmd.
    + rewrite list_lookup_insert_ne; [done|]. intros ->. apply Hs. congruence.
Qed.

(** A record for a command that has none yet. *)
Lemma add_rec_spec r c :
  cache_inv c -> c_byCmd c !! rc_cmd r = None -> Forall (valid (c_pool c)) (rec_strings r) ->
  let c' := set_byCmd (<[rc_cmd r := length (c_recs c)]> (c_byCmd c)) (set_recs (c_recs c ++ [r]) c) in
  cache_inv c' /\
  view c' = mkView (<[pool_get (c_pool c) (rc_cmd r) := summary_of (c_pool c) r]> (v_cmds (view c)))
              (v_ids (view c)) (v_dirty (view c)).
Proof.
  intros Hc Hno Hf c'.
  assert (valid (c_pool c) (rc_cmd r)) as Hv by by apply Forall_cons in Hf as [? _].
  assert (cache_inv c') as Hc'.
  { split; simpl; [apply Hc| | |apply Hc].
    - intros i ri. rewrite lookup_app_Some. intros [Hri|[Hge Hri]].
      + destruct (ci_recs c Hc i ri Hri) as [? Hb]. split; [done|].
        rewrite lookup_insert_ne; [done|]. intros E. rewrite E in Hno. congruence.
      + destruct (i - length (c_recs c))%nat as [|n] eqn:En; [|done]. injection Hri as <-. split; [done|].
        rewrite lookup_insert_eq. f_equal. lia.
    - intros k i. rewrite lookup_insert. case_decide as Hk.
      + intros [= <-]. exists r. split; [|done]. by rewrite lookup_app_r, Nat.sub_diag by lia.
      + intros Hki. destruct (ci_byCmd c Hc k i Hki) as (ri & Hri & <-). exists ri. split; [|done].
        by apply lookup_app_l_Some. }
  split; [done|]. apply view_eq; [done| |done|done]. intros s. rewrite lookup_insert. case_decide as Hs.
  - subst s. assert (find_rec c' (pool_get (c_pool c) (rc_cmd r)) = Some r) as ->; [|done].
    apply find_rec_Some; [done|]. exists (length (c_recs c)). simpl. by rewrite lookup_app_r, Nat.sub_diag by lia.
  - rewrite view_lookup by done. f_equal. apply option_eq. intros r0. rewrite !find_rec_Some by done. simpl.
    split; intros (i & Hi & Hs0); exists i; (split; [|done]).
    + apply lookup_app_Some in Hi as [?|[_ Hi]]; [done|]. destruct (i - length (c_recs c))%nat; [|done].
      injection Hi as ->. done.
    + by apply lookup_app_l_Some.
Qed.

(** Which records are left after a removal. *)
Lemma remove_lookup idx c r :
  cache_inv c -> c_recs c !! idx = Some r ->
  exists recs byCmd, removeAtLocked idx c = set_byCmd byCmd (set_recs recs c) /\
    (forall i ri, recs !! i = Some ri -> rc_cmd ri <> rc_cmd r /\ byCmd !! rc_cmd ri = Some i /\
       exists j, c_recs c !! j = Some ri) /\
    (forall k i, byCmd !! k = Some i -> exists ri, recs !! i = Some ri /\ rc_cmd ri = k) /\
    (forall j rj, c_recs c !! j = Some rj -> rc_cmd rj <> rc_cmd r -> exists i, recs !! i = Some rj).
Proof.
  intros Hc Hr. unfold removeAtLocked. rewrite Hr. set (n := (length (c_recs c) - 1)%nat).
  pose proof (lookup_lt_Some _ _ _ Hr) as Hlt.
  destruct (c_recs c !! n) as [l|] eqn:Hl; [|apply lookup_ge_None in Hl; unfold n in *; lia].
  destruct (Nat.eqb_spec idx n) as [->|Hne]; (eexists _, _; split; [reflexivity|]).
  - split; [|split].
    + intros i ri [Hi Hin]%lookup_take_Some. assert (rc_cmd ri <> rc_cmd r) as Hd.
      { intros E. pose proof (recs_cmd_inj c i n ri r Hc Hi Hr E). lia. }
      split; [done|]. rewrite lookup_delete_ne by congruence. split; [by apply (ci_recs c Hc)|eauto].
    + intros k i [Hne Hk]%lookup_delete_Some. destruct (ci_byCmd c Hc k i Hk) as (ri & Hri & <-).
      exists ri. split; [|done]. apply lookup_take_Some. split; [done|].
      pose proof (lookup_lt_Some _ _ _ Hri). destruct (decide (i = n)) as [->|]; [congruence|unfold n in *; lia].
    + intros j rj Hj Hd. exists j. apply lookup_take_Some. split; [done|]. pose proof (lookup_lt_Some _ _ _ Hj).
      destruct (decide (j = n)) as [->|]; [congruence|unfold n in *; lia].
  - assert (rc_cmd l <> rc_cmd r) as Hlr by (intros E; pose proof (recs_cmd_inj c n idx l r Hc Hl Hr E); lia).
    split; [|split].
    + intros i ri [Hi Hin]%lookup_take_Some. rewrite list_lookup_insert in Hi. case_decide as Hi'.
      * destruct Hi' as [<- _]. injection Hi as <-. split; [done|].
        rewrite lookup_delete_ne, lookup_insert_eq by congruence. split; [done|eauto].
      * assert (i <> idx) as Hii by (intros ->; apply Hi'; split; [done|lia]).
        assert (rc_cmd ri <> rc_cmd r) as Hd by (intros E; pose proof (recs_cmd_inj c i idx ri r Hc Hi Hr E); lia).
        assert (rc_cmd ri <> rc_cmd l) as Hd' by (intros E; pose proof (recs_cmd_inj c i n ri l Hc Hi Hl E); lia).
        split; [done|]. rewrite lookup_delete_ne, lookup_insert_ne by congruence.
        split; [by apply (ci_recs c Hc)|eauto].
    + intros k i [Hne' Hk]%lookup_delete_Some. rewrite lookup_insert in Hk. case_decide as Hkl.
      * subst k. injection Hk as <-. exists l. split; [|done]. apply lookup_take_Some.
        rewrite list_lookup_insert_eq by lia. split; [done|unfold n in *; lia].
      * destruct (ci_byCmd c Hc k i Hk) as (ri & Hri & <-). exists ri. split; [|done].
        pose proof (lookup_lt_Some _ _ _ Hri). apply lookup_take_Some.
        rewrite list_lookup_insert_ne by congruence. split; [done|].
        destruct (decide (i = n)) as [->|]; [congruence|unfold n in *; lia].
    + intros j rj Hj Hd. destruct (decide (j = n)) as [->|Hjn].
      * rewrite Hl in Hj. injection Hj as <-. exists idx. apply lookup_take_Some.
        rewrite list_lookup_insert_eq by lia. split; [done|unfold n in *; lia].
      * exists j. pose proof (lookup_lt_Some _ _ _ Hj). apply lookup_take_Some.
        rewrite list_lookup_insert_ne by congruence. split; [done|unfold n in *; lia].
Qed.

Lemma remove_spec idx r c :
  cache_inv c -> c_recs c !! idx = Some r ->
  cache_inv (removeAtLocked idx c) /\
  view (removeAtLocked idx c) =
    mkView (delete (pool_get (c_pool c) (rc_cmd r)) (v_cmds (view c))) (v_ids (view c)) (v_dirty (view c)).
Proof.
  intros Hc Hr. destruct (remove_lookup idx c r Hc Hr) as (recs & byCmd & -> & Hrecs & Hby & Hkept).
  assert (cache_inv (set_byCmd byCmd (set_recs recs c))) as Hc'.
  { split; simpl; [apply Hc| |apply Hby|apply Hc]. intros i ri Hri.
    destruct (Hrecs i ri Hri) as (_ & Hb & j & Hj). split; [|done]. by apply (ci_recs c Hc j). }
  split; [done|]. apply view_eq; [done| |done|done]. intros s. rewrite lookup_delete. case_decide as Hs.
  - subst s. destruct (find_rec _ _) as [r0|] eqn:E; [|done]. exfalso.
    apply find_rec_Some in E as (i & Hi & Hs); [|done]. simpl in Hi, Hs. destruct (Hrecs i r0 Hi) as (Hd & _ & j & Hj).
    apply Hd. eapply pool_get_inj; [apply Hc|..|done]; by eapply rec_cmd_valid.
  - rewrite view_lookup by done. f_equal. apply option_eq. intros r0. rewrite !find_rec_Some by done. simpl.
    split; intros (i & Hi & Hs0).
    + destruct (Hrecs i r0 Hi) as (_ & _ & j & Hj). eauto.
    + destruct (Hkept i r0 Hi) as (j & Hj); [|eauto]. intros E. apply Hs. by rewrite <- E.
Qed.

Lemma set_ids_spec m c :
  cache_inv c -> (forall id k, m !! id = Some k -> valid (c_pool c) k) ->
  cache_inv (set_idToCmd m c) /\
  view (set_idToCmd m c) = mkView (v_cmds (view c)) (pool_get (c_pool c) <$> m) (v_dirty (view c)).
Proof. intros Hc Hm. split; [|done]. split; [apply Hc..|done]. Qed.

(** ** The abstract operations *)

Definition v_created (e : Entry) (v : View) : View :=
  if e_Deleted e || str_empty (e_Command e) then v
  else
    let start := UnixMilli (e_StartTS e) in
    let fresh freq := mkSummary (e_Cwd e) (e_DeviceID e) (e_SessionID e) start (durationMsOf e) (exit_of e) freq in
    let sm := match v_cmds v !! e_Command e with
              | None => fresh 1
              | Some sm =>
                  let freq := wrap32 (sm_freq sm + 1) in
                  if sm_lastStart sm <=? start then fresh freq
                  else mkSummary (sm_cwd sm) (sm_device sm) (sm_session sm) (sm_lastStart sm)
                         (sm_lastDurationMs sm) (sm_lastExit sm) freq
              end in
    mkView (<[e_Command e := sm]> (v_cmds v)) (<[e_ID e := e_Command e]> (v_ids v)) (v_dirty v).

Definition v_completed (id : string) (endMs exit : Z) (v : View) : View :=
  match v_ids v !! id with
  | None => v
  | Some cmd =>
      mkView (alter (fun sm => mkSummary (sm_cwd sm) (sm_device sm) (sm_session sm) (sm_lastStart sm)
                       (completeDurationMs (sm_lastStart sm) endMs) (wrap32 exit) (sm_freq sm))
                cmd (v_cmds v)) (v_ids v) (v_dirty v)
  end.

Definition v_tombstone_id (id : string) (v : View) : View :=
  match v_ids v !! id with
  | None => mkView (v_cmds v) (v_ids v) true
  | Some cmd =>
      mkView (match v_cmds v !! cmd with
              | None => v_cmds v
              | Some sm =>
                  let freq := wrap32 (sm_freq sm - 1) in
                  if freq <=? 0 then delete cmd (v_cmds v)
                  else <[cmd := mkSummary (sm_cwd sm) (sm_device sm) (sm_session sm) (sm_lastStart sm)
                                  (sm_lastDurationMs sm) (sm_lastExit sm) freq]> (v_cmds v)
              end) (delete id (v_ids v)) (v_dirty v)
  end.

Definition v_tombstone_command (cmd : string) (v : View) : View :=
  match v_cmds v !! cmd with
  | None => v
  | Some _ => mkView (delete cmd (v_cmds v)) (filter (fun '(_, c) => c <> cmd) (v_ids v)) (v_dirty v)
  end.

(** Room for [n] more strings. *)
Definition room (n : nat) (c : Cache) : Prop := Z.of_nat (length (strs (c_pool c)) + n) <= 2^31.

(** The step from a concrete operation to the abstract one. *)
Definition simulates (c : Cache) (v : View) : Prop := cache_inv c /\ view c = v.

Lemma intern3_spec a b d p :
  pool_ok p -> Z.of_nat (length (strs p) + 3) <= 2^31 ->
  let '(p1, i) := pool_intern a p in
  let '(p2, j) := pool_intern b p1 in
  let '(p3, k) := pool_intern d p2 in
  pool_ok p3 /\ pool_le p p3 /\ valid p3 i /\ valid p3 j /\ valid p3 k /\
  pool_get p3 i = a /\ pool_get p3 j = b /\ pool_get p3 k = d /\
  (length (strs p3) <= length (strs p) + 3)%nat.
Proof.
  intros Hp Hroom. pose proof (pool_intern_spec a p Hp ltac:(lia)) as H1.
  destruct (pool_intern a p) as [p1 i]. destruct H1 as (Hp1 & Hle1 & Hv1 & Hg1 & Hn1).
  pose proof (pool_intern_spec b p1 Hp1 ltac:(lia)) as H2.
  destruct (pool_intern b p1) as [p2 j]. destruct H2 as (Hp2 & Hle2 & Hv2 & Hg2 & Hn2).
  pose proof (pool_intern_spec d p2 Hp2 ltac:(lia)) as H3.
  destruct (pool_intern d p2) as [p3 k]. destruct H3 as (Hp3 & Hle3 & Hv3 & Hg3 & Hn3).
  assert (pool_le p1 p3) as Hle13 by by etrans.
  split; [done|]. split; [by do 2 (etrans; [eassumption|])|].
  split; [by apply (valid_le p1 p3)|]. split; [by apply (valid_le p2 p3)|]. split; [done|].
  split; [by rewrite (pool_get_le p1 p3)|]. split; [by rewrite (pool_get_le p2 p3)|]. split; [done|lia].
Qed.

Lemma rec_valid p r :
  valid p (rc_cmd r) -> valid p (rc_cwd r) -> valid p (rc_device r) -> valid p (rc_session r) ->
  Forall (valid p) (rec_strings r).
Proof. intros. repeat (apply Forall_cons_2; [done|]). apply Forall_nil_2. Qed.

Lemma created_spec e c :
  cache_inv c -> room 4 c ->
  simulates (applyCreatedLocked e c) (v_created e (view c)) /\
  (length (strs (c_pool (applyCreatedLocked e c))) <= length (strs (c_pool c)) + 4)%nat.
Proof.
  intros Hc Hroom. unfold room in Hroom. unfold applyCreatedLocked, v_created.
  destruct (e_Deleted e || str_empty (e_Command e)); [split; [done|lia]|].
  pose proof (pool_intern_spec (e_Command e) (c_pool c) (ci_pool c Hc) ltac:(lia)) as H1.
  destruct (pool_intern (e_Command e) (c_pool c)) as [p1 k]. destruct H1 as (Hp1 & Hle1 & Hvk & Hgk & Hn1).
  pose proof (intern3_spec (e_Cwd e) (e_DeviceID e) (e_SessionID e) p1 Hp1 ltac:(lia)) as H2.
  destruct (pool_intern (e_Cwd e) p1) as [p2 cwd]. destruct (pool_intern (e_DeviceID e) p2) as [p3 dev].
  destruct (pool_intern (e_SessionID e) p3) as [p4 ses].
  destruct H2 as (Hp4 & Hle4 & Hv1 & Hv2 & Hv3 & Hg1 & Hg2 & Hg3 & Hn4).
  assert (pool_le (c_pool c) p4) as Hle by by etrans.
  pose proof (valid_le _ _ _ Hle4 Hvk) as Hvk4.
  pose proof (pool_get_le _ _ _ Hle4 Hvk) as Hgk4. rewrite Hgk in Hgk4.
  (** the identifier's entry, in either pool *)
  assert (forall p, pool_ok p -> pool_le (c_pool c) p -> valid p k -> pool_get p k = e_Command e ->
    simulates (set_idToCmd (<[e_ID e := k]> (c_idToCmd c)) (set_pool p c))
      (mkView (v_cmds (view c)) (<[e_ID e := e_Command e]> (v_ids (view c))) (v_dirty (view c)))) as Hids.
  { intros p Hp Hlep Hv Hg. destruct (set_pool_spec p c Hc Hp Hlep) as [Hc1 Hview].
    destruct (set_ids_spec (<[e_ID e := k]> (c_idToCmd c)) _ Hc1) as [Hc2 Hview2].
    { intros id k'. rewrite lookup_insert. case_decide; [by intros [= <-]|]. apply (ci_ids _ Hc1). }
    split; [done|]. rewrite Hview2, Hview. f_equal. rewrite fmap_insert. simpl. rewrite Hg. f_equal.
    exact (f_equal v_ids Hview). }
  rewrite (view_lookup c _ Hc).
  assert (forall p, pool_ok p -> pool_le (c_pool c) p -> pool_get p k = e_Command e -> valid p k ->
    forall i r, c_byCmd c !! k = Some i -> c_recs c !! i = Some r ->
      find_rec c (e_Command e) = Some r /\ pool_get p (rc_cmd r) = e_Command e) as Hfind.
  { intros p Hp Hlep Hg Hv i r Hi Hr. destruct (ci_byCmd c Hc k i Hi) as (r' & Hr' & Hk). simplify_eq.
    assert (pool_get (c_pool c) (rc_cmd r) = e_Command e) as Hcmd.
    { rewrite <- Hg. symmetry. apply pool_get_le; [done|]. by eapply rec_cmd_valid. }
    split; [|done]. apply find_rec_Some; [done|]. eauto. }
  destruct (c_byCmd c !! k) as [i|] eqn:Ei; simpl.
  2: { assert (find_rec c (e_Command e) = None) as ->.
       { destruct (find_rec c (e_Command e)) as [r|] eqn:Er; [|done]. exfalso.
         apply find_rec_Some in Er as (i & Hi & Hs); [|done]. destruct (ci_recs c Hc i r Hi) as [_ Hb].
         assert (rc_cmd r = k) as Hrk; [|congruence]. eapply (pool_get_inj p1); [done| |done|].
         - eapply valid_le; [done|]. by eapply rec_cmd_valid.
         - rewrite Hgk, (pool_get_le (c_pool c) p1); [done|done|]. by eapply rec_cmd_valid. }
       simpl. destruct (Hids p4 Hp4 Hle Hvk4 Hgk4) as [Hc1 Hview1].
       destruct (add_rec_spec (mkRec k cwd dev ses (UnixMilli (e_StartTS e)) (durationMsOf e) (exit_of e) 1) _ Hc1)
         as [Hc2 Hview2]; [done|by apply rec_valid|].
       split; [|simpl; lia]. split; [exact Hc2|]. etrans; [exact Hview2|]. rewrite Hview1. simpl. rewrite Hgk4.
       unfold summary_of. simpl. by rewrite Hg1, Hg2, Hg3. }
  destruct (ci_byCmd c Hc k i Ei) as (r & Hr & Hk). rewrite Hr. simpl.
  destruct (Hfind p1 Hp1 Hle1 Hgk Hvk i r eq_refl Hr) as [Hf _]. rewrite Hf. simpl.
  pose proof (proj1 (ci_recs c Hc i r Hr)) as Hrv.
  destruct (rc_lastStart r <=? UnixMilli (e_StartTS e)).
  - destruct (Hids p4 Hp4 Hle Hvk4 Hgk4) as [Hc1 Hview1].
    destruct (set_rec_spec i r (mkRec (rc_cmd r) cwd dev ses (UnixMilli (e_StartTS e)) (durationMsOf e) (exit_of e)
      (wrap32 (rc_freq r + 1))) _ Hc1 Hr eq_refl) as [Hc2 Hview2].
    { apply Forall_cons in Hrv as [Hrv _]. apply rec_valid; [simpl; by eapply valid_le|done..]. }
    split; [|simpl; lia]. split; [exact Hc2|]. etrans; [exact Hview2|]. rewrite Hview1. simpl.
    rewrite Hk, Hgk4. unfold summary_of. simpl. by rewrite Hg1, Hg2, Hg3.
  - destruct (Hids p1 Hp1 Hle1 Hvk Hgk) as [Hc1 Hview1].
    destruct (set_rec_spec i r (mkRec (rc_cmd r) (rc_cwd r) (rc_device r) (rc_session r) (rc_lastStart r)
      (rc_lastDurationMs r) (rc_lastExit r) (wrap32 (rc_freq r + 1))) _ Hc1 Hr eq_refl) as [Hc2 Hview2].
    { eapply Forall_impl; [exact Hrv|]. intros x Hx. by eapply valid_le. }
    split; [|simpl; lia]. split; [exact Hc2|]. etrans; [exact Hview2|]. rewrite Hview1. simpl.
    rewrite Hk, Hgk. pose proof (summary_of_le _ _ _ Hle1 Hrv) as Hsum. unfold summary_of in Hsum |- *. simpl in *.
    by injection Hsum as -> -> ->.
Qed.

(** The identifier table names a command that, if recorded, is at its index. *)
Lemma by_id c id k :
  cache_inv c -> c_idToCmd c !! id = Some k ->
  v_ids (view c) !! id = Some (pool_get (c_pool c) k) /\
  v_cmds (view c) !! pool_get (c_pool c) k =
    summary_of (c_pool c) <$> (c_byCmd c !! k ≫= fun i => c_recs c !! i).
Proof.
  intros Hc Hk. split; [simpl; by rewrite lookup_fmap, Hk|].
  rewrite view_lookup by done. unfold find_rec. rewrite pool_ids_get; [done|apply Hc|]. by eapply ci_ids.
Qed.

Lemma alter_id_None {A} (f : A -> A) (m : gmap string A) k : m !! k = None -> alter f k m = m.
Proof. intros Hk. apply map_eq. intros j. rewrite lookup_alter. case_decide; [subst; by rewrite Hk|done]. Qed.

Lemma completed_spec id endMs exit c :
  cache_inv c -> simulates (applyCompletedLocked id endMs exit c) (v_completed id endMs exit (view c)).
Proof.
  intros Hc. unfold applyCompletedLocked, v_completed. destruct (c_idToCmd c !! id) as [k|] eqn:Ek; simpl.
  2: { rewrite lookup_fmap, Ek. done. }
  destruct (by_id c id k Hc Ek) as [Hid Hcmd]. simpl in Hid. rewrite Hid.
  destruct (c_byCmd c !! k) as [i|] eqn:Ei; simpl in Hcmd |- *.
  2: { split; [done|]. unfold view. simpl. f_equal. symmetry. apply alter_id_None. exact Hcmd. }
  destruct (ci_byCmd c Hc k i Ei) as (r & Hr & Hk). rewrite Hr in Hcmd. simpl in Hcmd.
  set (r' := mkRec (rc_cmd r) (rc_cwd r) (rc_device r) (rc_session r) (rc_lastStart r)
    (completeDurationMs (rc_lastStart r) endMs) (wrap32 exit) (rc_freq r)).
  destruct (set_rec_spec i r r' c Hc Hr eq_refl) as [Hc' Hview]; [apply (ci_recs c Hc i r Hr)|].
  match goal with |- simulates (set_recs (alter ?f _ _) _) _ =>
    replace (alter f i (c_recs c)) with (<[i := r']> (c_recs c)) end.
  2: { apply list_eq. intros j. pose proof (lookup_lt_Some _ _ _ Hr). destruct (decide (i = j)) as [<-|Hne].
       - by rewrite list_lookup_alter_eq, list_lookup_insert_eq, Hr by done.
       - by rewrite list_lookup_alter_ne, list_lookup_insert_ne by done. }
  split; [done|]. rewrite Hview. f_equal. rewrite Hk. apply map_eq. intros s.
  destruct (decide (pool_get (c_pool c) k = s)) as [<-|Hne].
  - rewrite lookup_insert_eq, lookup_alter_eq. simpl in Hcmd |- *. by rewrite Hcmd.
  - by rewrite lookup_insert_ne, lookup_alter_ne by done.
Qed.

Lemma tombstone_id_spec id c :
  cache_inv c -> simulates (tombstone_id id c) (v_tombstone_id id (view c)).
Proof.
  intros Hc. unfold tombstone_id, v_tombstone_id. destruct (c_idToCmd c !! id) as [k|] eqn:Ek.
  2: { simpl. rewrite lookup_fmap, Ek. split; [by destruct Hc; split|done]. }
  destruct (by_id c id k Hc Ek) as [-> ->].
  destruct (set_ids_spec (delete id (c_idToCmd c)) c Hc) as [Hc1 Hview1].
  { intros id' k' [_ Hk']%lookup_delete_Some. by eapply ci_ids. }
  rewrite fmap_delete in Hview1.
  cbn [c_byCmd set_idToCmd]. destruct (c_byCmd c !! k) as [i|] eqn:Ei; simpl; [|done].
  destruct (ci_byCmd c Hc k i Ei) as (r & Hr & Hk). rewrite Hr. simpl. unfold decrement. simpl. rewrite Hr.
  set (r' := mkRec (rc_cmd r) (rc_cwd r) (rc_device r) (rc_session r) (rc_lastStart r)
    (rc_lastDurationMs r) (rc_lastExit r) (wrap32 (rc_freq r - 1))).
  destruct (set_rec_spec i r r' _ Hc1 Hr eq_refl) as [Hc2 Hview2]; [apply (ci_recs c Hc i r Hr)|].
  destruct (wrap32 (rc_freq r - 1) <=? 0).
  - destruct (remove_spec i r' _ Hc2) as [Hc3 Hview3].
    { simpl. apply list_lookup_insert_eq. by eapply lookup_lt_Some. }
    split; [exact Hc3|]. etrans; [exact Hview3|]. rewrite Hview2, Hview1. simpl. rewrite Hk. f_equal.
    by rewrite delete_insert_eq.
  - split; [exact Hc2|]. etrans; [exact Hview2|]. rewrite Hview1. simpl. by rewrite Hk.
Qed.

Lemma tombstone_command_spec cmd c :
  cache_inv c -> simulates (ApplyTombstoneCommandUnlocked cmd c) (v_tombstone_command cmd (view c)).
Proof.
  intros Hc. unfold ApplyTombstoneCommandUnlocked, v_tombstone_command. rewrite (view_lookup c cmd Hc).
  unfold find_rec. destruct (ids (c_pool c) !! cmd) as [k|] eqn:Ek; simpl; [|done].
  destruct (pool_get_ids _ _ _ (ci_pool c Hc) Ek) as [Hv Hg].
  destruct (c_byCmd c !! k) as [i|] eqn:Ei; simpl; [|done].
  destruct (ci_byCmd c Hc k i Ei) as (r & Hr & Hk). rewrite Hr. simpl.
  destruct (set_ids_spec (filter (fun '(_, cid) => cid <> k) (c_idToCmd c)) c Hc) as [Hc1 Hview1].
  { intros id k' [Hk' _]%map_lookup_filter_Some. by eapply ci_ids. }
  destruct (remove_spec i r _ Hc1 Hr) as [Hc2 Hview2]. split; [done|]. rewrite Hview2, Hview1. simpl.
  rewrite Hk, Hg. f_equal. apply map_eq. intros id. rewrite lookup_fmap, !map_lookup_filter, lookup_fmap.
  destruct (c_idToCmd c !! id) as [k'|] eqn:Ek'; simpl; [|done].
  pose proof (ci_ids c Hc _ _ Ek') as Hv'. destruct (decide (k' = k)) as [->|Hne].
  - by rewrite !option_guard_False by (rewrite ?Hg; tauto).
  - rewrite !option_guard_True; [done| |done]. intros E. apply Hne.
    eapply pool_get_inj; [apply Hc|done|done|]. by rewrite E, Hg.
Qed.

(** ** Compaction *)

Lemma pool_NoDup p : pool_ok p -> NoDup (strs p).
Proof.
  intros Hp. apply NoDup_alt. intros i j s Hi Hj.
  pose proof (lookup_lt_Some _ _ _ Hi). pose proof (lookup_lt_Some _ _ _ Hj).
  assert (ids p !! s = Some (Z.of_nat i)) as E1
    by (apply (po_ids p Hp); unfold valid; rewrite Nat2Z.id; split; [lia|done]).
  assert (ids p !! s = Some (Z.of_nat j)) as E2
    by (apply (po_ids p Hp); unfold valid; rewrite Nat2Z.id; split; [lia|done]).
  rewrite E1 in E2. injection E2. lia.
Qed.

Section Compact.
Context (old : stringPool) (Hold : pool_ok old).

(** [k'] in the new pool stands for [k] in the old one. *)
Definition moved (p : stringPool) (k k' : Z) : Prop := valid p k' /\ pool_get p k' = pool_get old k.

Record remap_ok (st : stringPool * gmap Z Z) : Prop := {
  rm_pool : pool_ok st.1;
  rm_seen : forall k k', st.2 !! k = Some k' -> moved st.1 k k';
  rm_strs : forall s, s ∈ strs st.1 -> s ∈ strs old;
}.

Lemma moved_le p p' k k' : pool_le p p' -> moved p k k' -> moved p' k k'.
Proof. intros Hle [Hv Hg]. split; [by eapply valid_le|]. by rewrite (pool_get_le p p'). Qed.

Lemma pool_intern_old s p :
  pool_ok p -> (forall s, s ∈ strs p -> s ∈ strs old) -> s ∈ strs old ->
  let '(p', i) := pool_intern s p in
  pool_ok p' /\ pool_le p p' /\ valid p' i /\ pool_get p' i = s /\ (forall s, s ∈ strs p' -> s ∈ strs old).
Proof.
  intros Hp Hsub Hs. destruct (ids p !! s) as [i|] eqn:Ei.
  { unfold pool_intern. rewrite Ei. destruct (pool_get_ids _ _ _ Hp Ei). by split_and!; [|reflexivity|..]. }
  assert (Z.of_nat (length (strs p)) < 2^31) as Hlt.
  { assert (s ∉ strs p) as Hno.
    { intros (i & Hi)%list_elem_of_lookup. pose proof (lookup_lt_Some _ _ _ Hi).
      assert (ids p !! s = Some (Z.of_nat i)) as E2; [|congruence].
      apply (po_ids p Hp). unfold valid. rewrite Nat2Z.id. split; [lia|done]. }
    assert (length (s :: strs p) <= length (strs old))%nat as Hlen.
    { apply submseteq_length, NoDup_submseteq; [constructor; [done|by apply pool_NoDup]|].
      intros x [->|Hx]%elem_of_cons; auto. }
    pose proof (po_size old Hold). simpl in Hlen. lia. }
  pose proof (pool_intern_spec s p Hp Hlt) as Hspec. unfold pool_intern in *. rewrite Ei in *.
  destruct Hspec as (H1 & H2 & H3 & H4 & _). split_and!; [done..|].
  intros x. simpl. rewrite elem_of_app, list_elem_of_singleton. intros [?| ->]; auto.
Qed.

Lemma remap_spec k st :
  remap_ok st -> valid old k ->
  let '(st', k') := remap old k st in remap_ok st' /\ pool_le st.1 st'.1 /\ moved st'.1 k k'.
Proof.
  destruct st as [next seen]. intros [Hp Hseen Hsub] Hv. unfold remap. simpl in *.
  destruct (seen !! k) as [k'|] eqn:Ek; [split_and!; [done|reflexivity|by apply Hseen]|].
  assert (pool_get old k ∈ strs old) as Hin.
  { eapply list_elem_of_lookup_2. by apply pool_get_valid. }
  pose proof (pool_intern_old (pool_get old k) next Hp Hsub Hin) as Hs.
  destruct (pool_intern _ next) as [next' k']. destruct Hs as (Hp' & Hle & Hv' & Hg & Hsub').
  split; [|done]. split; simpl; [done| |done]. intros j j'. rewrite lookup_insert. case_decide as Hj.
  - intros [= <-]. by subst j.
  - intros Hjj. eapply moved_le; [exact Hle|]. by apply Hseen.
Qed.

(** A remapping step on elements of any kind. *)
Definition remaps {A} (ok : A -> Prop) (rel : stringPool -> A -> A -> Prop)
    (f : A -> stringPool * gmap Z Z -> (stringPool * gmap Z Z) * A) : Prop :=
  forall x st, remap_ok st -> ok x ->
  let '(st', x') := f x st in remap_ok st' /\ pool_le st.1 st'.1 /\ rel st'.1 x x'.

Lemma remap_all_spec {A} ok (rel : stringPool -> A -> A -> Prop) f l st :
  remaps ok rel f -> (forall p p' x x', pool_le p p' -> rel p x x' -> rel p' x x') ->
  remap_ok st -> Forall ok l ->
  let '(st', l') := remap_all f l st in remap_ok st' /\ pool_le st.1 st'.1 /\ Forall2 (rel st'.1) l l'.
Proof.
  intros Hf Hmono. revert st. induction l as [|x l IH]; intros st Hst Hl; simpl; [by split_and!; [|reflexivity|]|].
  apply Forall_cons in Hl as [Hx Hl]. pose proof (Hf x st Hst Hx) as H1. destruct (f x st) as [st1 x'].
  destruct H1 as (Hst1 & Hle1 & Hrel). pose proof (IH st1 Hst1 Hl) as H2. destruct (remap_all f l st1) as [st2 l'].
  destruct H2 as (Hst2 & Hle2 & Hall). split; [done|]. split; [by etrans|]. constructor; [|done]. by eapply Hmono.
Qed.

Definition rec_moved (p : stringPool) (r r' : cacheRec) : Prop :=
  moved p (rc_cmd r) (rc_cmd r') /\ moved p (rc_cwd r) (rc_cwd r') /\ moved p (rc_device r) (rc_device r') /\
  moved p (rc_session r) (rc_session r') /\ rc_lastStart r' = rc_lastStart r /\
  rc_lastDurationMs r' = rc_lastDurationMs r /\ rc_lastExit r' = rc_lastExit r /\ rc_freq r' = rc_freq r.

Lemma remap_rec_spec : remaps (fun r => Forall (valid old) (rec_strings r)) rec_moved (remap_rec old).
Proof.
  intros r st Hst Hr. unfold rec_strings in Hr. rewrite !Forall_cons in Hr. destruct Hr as (H1 & H2 & H3 & H4 & _).
  unfold remap_rec.
  pose proof (remap_spec _ _ Hst H1) as S1. destruct (remap old (rc_cmd r) st) as [st1 k1]. destruct S1 as (O1 & L1 & M1).
  pose proof (remap_spec _ _ O1 H2) as S2. destruct (remap old (rc_cwd r) st1) as [st2 k2]. destruct S2 as (O2 & L2 & M2).
  pose proof (remap_spec _ _ O2 H3) as S3. destruct (remap old (rc_device r) st2) as [st3 k3]. destruct S3 as (O3 & L3 & M3).
  pose proof (remap_spec _ _ O3 H4) as S4. destruct (remap old (rc_session r) st3) as [st4 k4]. destruct S4 as (O4 & L4 & M4).
  assert (pool_le st2.1 st4.1) as L24 by by etrans. assert (pool_le st1.1 st4.1) as L14 by by etrans.
  split; [done|]. split; [by etrans|]. unfold rec_moved. simpl.
  split_and!; [by eapply moved_le; [|exact M1]|by eapply moved_le; [|exact M2]|by eapply moved_le; [|exact M3]|done..].
Qed.
Lemma rec_moved_le p p' r r' : pool_le p p' -> rec_moved p r r' -> rec_moved p' r r'.
Proof.
  intros Hle (H1 & H2 & H3 & H4 & H5). pose proof (moved_le p p') as Hm.
  split; [by apply Hm|]. split; [by apply Hm|]. split; [by apply Hm|]. split; [by apply Hm|exact H5].
Qed.

Definition id_moved (p : stringPool) (e e' : string * Z) : Prop := e'.1 = e.1 /\ moved p e.2 e'.2.
Lemma remap_id_spec : remaps (fun e => valid old e.2) id_moved (remap_id old).
Proof.
  intros [id k] st Hst Hv. unfold remap_id. simpl in *. pose proof (remap_spec k st Hst Hv) as S1.
  destruct (remap old k st) as [st' k']. by destruct S1 as (? & ? & ?).
Qed.
Lemma id_moved_le p p' e e' : pool_le p p' -> id_moved p e e' -> id_moved p' e e'.
Proof. intros Hle [H1 H2]. split; [done|]. by eapply moved_le. Qed.

Lemma remap_ok_empty : remap_ok (newStringPool, ∅).
Proof.
  split; simpl; [apply (ci_pool _ NewCache_inv)|done|]. by intros s ?%elem_of_nil.
Qed.
End Compact.

Lemma index_fold (m : gmap Z nat) l k i :
  NoDup ((fun x : nat * cacheRec => rc_cmd x.2) <$> l) ->
  foldl (fun m '(i, r) => <[rc_cmd r := i]> m) m l !! k = Some i <->
  (exists r, (i, r) ∈ l /\ rc_cmd r = k) \/ k ∉ ((fun x : nat * cacheRec => rc_cmd x.2) <$> l) /\ m !! k = Some i.
Proof.
  revert m. induction l as [|[j r] l IH]; intros m; simpl.
  { intros _. split; [intros Hm; right; split; [apply not_elem_of_nil|done]|].
    intros [(r & ?%elem_of_nil & _)|[_ ?]]; done. }
  intros [Hnot Hnd]%NoDup_cons. rewrite (IH _ Hnd). setoid_rewrite elem_of_cons.
  rewrite lookup_insert. case_decide as Hk.
  - subst k. split.
    + intros [(r' & Hr' & <-)|[_ [= <-]]]; left; eauto.
    + intros [(r' & [[= -> ->]|Hr'] & E)|[Hn _]]; [by right|left; eauto|destruct Hn; by left].
  - split.
    + intros [(r' & Hr' & <-)|[Hn ?]]; [left; eauto|right; split; [|done]]. by intros [?|?].
    + intros [(r' & [[= -> ->]|Hr'] & <-)|[Hn ?]]; [done|left; eauto|right; split; [|done]].
      intros Hin. apply Hn. by right.
Qed.

Lemma index_by_cmd_spec recs k i :
  NoDup (rc_cmd <$> recs) ->
  index_by_cmd recs !! k = Some i <-> exists r, recs !! i = Some r /\ rc_cmd r = k.
Proof.
  intros Hnd. unfold index_by_cmd. rewrite index_fold.
  - rewrite lookup_empty. setoid_rewrite list_elem_of_lookup. setoid_rewrite list_lookup_imap. split.
    + intros [(r & (j & Hj) & <-)|[_ ?]]; [|done]. destruct (recs !! j) as [r'|] eqn:E; [|done].
      injection Hj as <- <-. eauto.
    + intros (r & Hr & <-). left. exists r. split; [|done]. exists i. by rewrite Hr.
  - assert ((fun x : nat * cacheRec => rc_cmd x.2) <$> imap pair recs = rc_cmd <$> recs) as ->; [|done].
    apply list_eq. intros j. rewrite !list_lookup_fmap, list_lookup_imap. by destruct (recs !! j).
Qed.

Lemma compact_spec c :
  cache_inv c -> simulates (compactPoolLocked c) (view c) /\
  length (c_recs (compactPoolLocked c)) = length (c_recs c) /\
  (forall i, rec_command (compactPoolLocked c) i = rec_command c i) /\
  c_sorted (compactPoolLocked c) = c_sorted c.
Proof.
  intros Hc. unfold compactPoolLocked. pose proof (ci_pool c Hc) as Hp.
  assert (Forall (fun r => Forall (valid (c_pool c)) (rec_strings r)) (c_recs c)) as Hrecs.
  { apply Forall_forall. intros r Hr. apply list_elem_of_lookup in Hr as [i Hi].
    by apply (ci_recs c Hc i). }
  pose proof (remap_all_spec (c_pool c) _ (rec_moved (c_pool c)) _ (c_recs c) _ (remap_rec_spec (c_pool c) Hp)
    (rec_moved_le (c_pool c)) (remap_ok_empty (c_pool c)) Hrecs) as S1.
  destruct (remap_all _ (c_recs c) _) as [st1 recs]. destruct S1 as (O1 & L1 & F1).
  assert (Forall (fun e : string * Z => valid (c_pool c) e.2) (map_to_list (c_idToCmd c))) as Hids.
  { apply Forall_forall. intros [id k] Hk%elem_of_map_to_list. by eapply ci_ids. }
  pose proof (remap_all_spec (c_pool c) _ (id_moved (c_pool c)) _ _ st1 (remap_id_spec (c_pool c) Hp)
    (id_moved_le (c_pool c)) O1 Hids) as S2.
  destruct (remap_all _ (map_to_list _) st1) as [st2 pairs]. destruct S2 as (O2 & L2 & F2).
  assert (Forall2 (rec_moved (c_pool c) st2.1) (c_recs c) recs) as F1'.
  { eapply Forall2_impl; [exact F1|]. intros r r' Hr. by eapply rec_moved_le. }
  assert (forall i r', recs !! i = Some r' -> exists r, c_recs c !! i = Some r /\ rec_moved (c_pool c) st2.1 r r') as Hback.
  { intros i r' Hr'. by apply (Forall2_lookup_r _ _ _ i r' F1'). }
  assert (NoDup (rc_cmd <$> recs)) as Hnd.
  { apply NoDup_alt. intros i j k. rewrite !list_lookup_fmap. intros (r & Hr & ->)%fmap_Some (r' & Hr' & E)%fmap_Some.
    destruct (Hback i r Hr) as (q & Hq & [[Hv Hg] _]). destruct (Hback j r' Hr') as (q' & Hq' & [[Hv' Hg'] _]).
    apply (recs_cmd_inj c i j q q' Hc Hq Hq'). eapply pool_get_inj; [exact Hp|by eapply rec_cmd_valid..|].
    by rewrite <- Hg, <- Hg', E. }
  assert (cache_inv (set_pool st2.1 (set_byCmd (index_by_cmd recs) (set_recs recs (set_idToCmd (list_to_map pairs) c))))) as Hc'.
  { split; simpl; [apply O2| | |].
    - intros i r' Hr'. destruct (Hback i r' Hr') as (r & Hr & [[? _] [[? _] [[? _] [[? _] _]]]]).
      split; [by apply rec_valid|]. apply index_by_cmd_spec; [done|]. eauto.
    - intros k i. by apply index_by_cmd_spec.
    - intros id k Hk%elem_of_list_to_map_2. apply list_elem_of_lookup in Hk as [j Hj].
      destruct (Forall2_lookup_r _ _ _ _ _ F2 Hj) as (e & _ & [_ [Hv _]]). exact Hv. }
  assert (length recs = length (c_recs c)) as Hlen by (symmetry; by eapply Forall2_length).
  split; [|split; [done|split; [|done]]].
  2: { intros i. unfold rec_command. simpl. destruct (recs !! i) as [r'|] eqn:Hr'.
       - destruct (Hback i r' Hr') as (r & -> & [[_ Hg] _]). exact Hg.
       - assert (c_recs c !! i = None) as ->; [|done]. apply lookup_ge_None. apply lookup_ge_None in Hr'. by rewrite <- Hlen. }
  split; [exact Hc'|]. unfold view. simpl. f_equal.
  - unfold cmds_of. f_equal. apply list_eq. intros i. rewrite !list_lookup_fmap.
    destruct (recs !! i) as [r'|] eqn:Hr'.
    + destruct (Hback i r' Hr') as (r & -> & (M1 & M2 & M3 & M4 & E1 & E2 & E3 & E4)). simpl. f_equal. f_equal.
      * apply M1.
      * unfold summary_of. rewrite E1, E2, E3, E4. f_equal; [apply M2|apply M3|apply M4].
    + assert (c_recs c !! i = None) as ->; [|done]. apply lookup_ge_None. apply lookup_ge_None in Hr'. by rewrite <- Hlen.
  - rewrite <- list_to_map_fmap.
    assert (prod_map id (pool_get st2.1) <$> pairs = prod_map id (pool_get (c_pool c)) <$> map_to_list (c_idToCmd c)) as ->.
    { clear -F2. induction F2 as [|[id k] [id' k'] l l' [E1 [_ E2]] F IH]; simpl in *; [done|].
      f_equal; [|exact IH]. unfold prod_map. simpl. by rewrite E1, E2. }
    by rewrite list_to_map_fmap, list_to_map_to_list.
Qed.

(** ** Bisection *)

Lemma search_from_spec f fuel i j :
  (j - i <= fuel)%nat -> (i <= j)%nat -> (forall a b, (a <= b < j)%nat -> f a = true -> f b = true) ->
  let k := search_from f fuel i j in
  (i <= k <= j)%nat /\ (forall a, (i <= a < k)%nat -> f a = false) /\ (forall a, (k <= a < j)%nat -> f a = true).
Proof.
  revert i j. induction fuel as [|fuel IH]; intros i j Hf Hij Hmono; simpl.
  { split_and!; [lia..| |]; intros a Ha; lia. }
  destruct (Nat.ltb_spec i j) as [Hlt|Hge]; [|split_and!; [lia..| |]; intros a Ha; lia].
  set (h := Nat.div2 (i + j)).
  assert (i <= h < j)%nat as Hh.
  { unfold h. rewrite Nat.div2_div. split; [apply Nat.div_le_lower_bound; lia|apply Nat.div_lt_upper_bound; lia]. }
  destruct (f h) eqn:Eh.
  - destruct (IH i h ltac:(lia) ltac:(lia)) as (H1 & H2 & H3); [intros a b Hab; apply Hmono; lia|].
    split_and!; [lia|lia|done|]. intros a Ha. destruct (decide (a < h)%nat); [apply H3; lia|].
    apply (Hmono h a); [lia|done].
  - destruct (IH (Datatypes.S h) j ltac:(lia) ltac:(lia)) as (H1 & H2 & H3); [done|].
    split_and!; [lia|lia| |done]. intros a Ha. destruct (decide (a <= h)%nat) as [Hle|]; [|apply H2; lia].
    destruct (f a) eqn:Ea; [|done]. rewrite (Hmono a h) in Eh; [done|lia|done].
Qed.

(** ** Strings with a prefix are an interval *)

Lemma ascii_compare_refl a : Ascii.compare a a = Eq.
Proof. apply N.compare_refl. Qed.

Lemma str_lt_cons a s b t :
  str_lt (String a s) (String b t) = match Ascii.compare a b with Eq => str_lt s t | Lt => true | Gt => false end.
Proof. unfold str_lt, String.ltb. simpl. by destruct (Ascii.compare a b). Qed.

Lemma has_prefix_ge p s : has_prefix p s = true -> str_lt s p = false.
Proof.
  revert s. induction p as [|c p IH]; intros [|d s]; simpl; [done..|].
  intros [->%Ascii.eqb_eq H]%andb_true_iff. rewrite str_lt_cons, ascii_compare_refl. auto.
Qed.

Lemma prefix_interval p s t :
  str_lt s p = false -> str_lt s t = true -> has_prefix p t = true -> has_prefix p s = true.
Proof.
  revert s t. induction p as [|c p IH]; intros [|d s] [|e t]; simpl; try done.
  rewrite !str_lt_cons. intros H1 H2 [<-%Ascii.eqb_eq H3]%andb_true_iff.
  destruct (Ascii.compare d c) eqn:E; [|done|done].
  apply Ascii.compare_eq_iff in E as ->. rewrite Ascii.eqb_refl. simpl. eauto.
Qed.

(** ** The prefix search *)

Definition v_sorted (v : View) : list (string * Summary) :=
  sort_slice (fun a b => str_lt a.1 b.1) (map_to_list (v_cmds v)).

(** What the search is to find: the first 64 commands, in order, that extend
    the prefix. *)
Definition v_suggest (prefix : string) (v : View) : list (string * Summary) :=
  take 64 (List.filter (fun x => has_prefix prefix x.1 && negb (String.eqb x.1 prefix)) (v_sorted v)).

Definition entry_of (x : string * Summary) : Entry :=
  let '(cmd, sm) := x in
  mkEntry "" cmd (time_UnixMilli (sm_lastStart sm)) None
    (if 0 <? sm_lastDurationMs sm then Some (sm_lastDurationMs sm) else None)
    (if 0 <=? sm_lastExit sm then Some (sm_lastExit sm) else None)
    (sm_cwd sm) (sm_session sm) "" (sm_device sm) "" false "" None time_zero.

Definition sorted_ok (c : Cache) : Prop :=
  c_sorted c = sort_slice (fun i j => str_lt (rec_command c i) (rec_command c j)) (seq 0 (length (c_recs c))).

(** The pair a record stands for. *)
Definition at_index (c : Cache) (i : nat) : string * Summary :=
  from_option (fun r => (pool_get (c_pool c) (rc_cmd r), summary_of (c_pool c) r))
    (EmptyString, mkSummary "" "" "" 0 0 0 0) (c_recs c !! i).

Lemma at_index_fst c i : (at_index c i).1 = rec_command c i.
Proof. unfold at_index, rec_command. by destruct (c_recs c !! i). Qed.

Lemma at_index_seq c :
  at_index c <$> seq 0 (length (c_recs c)) =
  (fun r => (pool_get (c_pool c) (rc_cmd r), summary_of (c_pool c) r)) <$> c_recs c.
Proof.
  apply list_eq. intros i. rewrite !list_lookup_fmap. destruct (c_recs c !! i) as [r|] eqn:E; simpl.
  - rewrite lookup_seq_lt by by eapply lookup_lt_Some. simpl. unfold at_index. by rewrite E.
  - rewrite lookup_seq_ge by by apply lookup_ge_None. done.
Qed.

Definition key_lt (a b : string * Summary) : bool := str_lt a.1 b.1.
Lemma key_weak_order l : weak_order_on key_lt l.
Proof.
  unfold key_lt. split; [intros x y _ _; apply str_lt_asym|].
  intros x y z _ _ _ H1 H2. destruct (str_lt z.1 x.1) eqn:E; [|done].
  destruct (str_lt y.1 z.1) eqn:E2; [by rewrite (str_lt_trans _ _ _ E2 E) in H1|].
  by rewrite (str_lt_total _ _ H2 E2), H1 in E.
Qed.

Lemma sorted_view c : cache_inv c -> sorted_ok c -> at_index c <$> c_sorted c = v_sorted (view c).
Proof.
  intros Hc ->. unfold v_sorted. fold key_lt.
  rewrite <- (sort_slice_fmap _ key_lt (at_index c)) by (intros; unfold key_lt; by rewrite !at_index_fst).
  rewrite at_index_seq. symmetry.
  assert (NoDup ((fun r => (pool_get (c_pool c) (rc_cmd r), summary_of (c_pool c) r)) <$> c_recs c).*1) as Hnd.
  { rewrite <- list_fmap_compose. by apply cmds_NoDup. }
  apply sort_slice_canonical; [apply key_weak_order| |by apply map_to_list_to_map].
  intros [k x] [k' y]. rewrite !elem_of_map_to_list. unfold key_lt. simpl. intros Hx Hy H1 H2.
  pose proof (str_lt_total _ _ H1 H2) as ->. f_equal. congruence.
Qed.

(** The loop, on the pairs. *)
Fixpoint scan (prefix : string) (l : list (string * Summary)) (n : nat) : list (string * Summary) :=
  match l with
  | [] => []
  | x :: l =>
      if negb (has_prefix prefix x.1) then []
      else if String.eqb x.1 prefix then scan prefix l n
      else match n with
           | O => []
           | Datatypes.S O => [x]
           | Datatypes.S n => x :: scan prefix l n
           end
  end.

Lemma take_prefixed_scan c prefix l n :
  Forall (fun i => is_Some (c_recs c !! i)) l ->
  take_prefixed c prefix l n = entry_of <$> scan prefix (at_index c <$> l) n.
Proof.
  revert n. induction l as [|i l IH]; intros n Hl; [done|]. apply Forall_cons in Hl as [[r Hr] Hl].
  assert (at_index c i = (pool_get (c_pool c) (rc_cmd r), summary_of (c_pool c) r)) as Hat
    by (unfold at_index; by rewrite Hr).
  rewrite fmap_cons. cbn [take_prefixed scan]. rewrite Hr, Hat. cbn [fst].
  destruct (has_prefix prefix _); [|done]. cbn [negb]. destruct (String.eqb _ prefix); [auto|].
  destruct n as [|[|n]]; [done|done|]. rewrite fmap_cons. f_equal. auto.
Qed.

Notation extends prefix := (fun x : string * Summary => has_prefix prefix x.1 && negb (String.eqb x.1 prefix)).

Lemma filter_none {A} (p : A -> bool) l : (forall x, x ∈ l -> p x = false) -> List.filter p l = [].
Proof.
  induction l as [|x l IH]; intros Hl; simpl; [done|]. rewrite (Hl x ltac:(left)). apply IH.
  intros y Hy. apply Hl. by right.
Qed.

Lemma scan_filter prefix l n :
  StronglySorted (fun x y => str_lt x.1 y.1 = true) l -> Forall (fun x => str_lt x.1 prefix = false) l ->
  scan prefix l (Datatypes.S n) = take (Datatypes.S n) (List.filter (extends prefix) l).
Proof.
  revert n. induction l as [|x l IH]; intros n Hs Hge; [done|]. inversion Hs as [|? ? Hs' Hx]; subst.
  apply Forall_cons in Hge as [Hgx Hge]. cbn [scan List.filter].
  destruct (has_prefix prefix x.1) eqn:Ep; cbn [negb andb].
  - destruct (String.eqb x.1 prefix); cbn [negb]; [auto|]. destruct n as [|n]; [done|]. simpl take. f_equal. auto.
  - rewrite filter_none; [done|]. intros y Hy. rewrite Forall_forall in Hx, Hge.
    destruct (has_prefix prefix y.1) eqn:Ey; [|done].
    by rewrite (prefix_interval prefix x.1 y.1 Hgx (Hx y Hy) Ey) in Ep.
Qed.

Lemma v_sorted_strict v : StronglySorted (fun x y => str_lt x.1 y.1 = true) (v_sorted v).
Proof.
  pose proof (sort_slice_sorted key_lt (map_to_list (v_cmds v)) (key_weak_order _)) as Hs.
  assert (NoDup (v_sorted v).*1) as Hnd.
  { unfold v_sorted. rewrite sort_slice_perm. apply NoDup_fst_map_to_list. }
  unfold v_sorted in *. fold key_lt in *. induction Hs as [|x l Hs IH Hx]; [constructor|].
  apply NoDup_cons in Hnd as [Hnot Hnd]. constructor; [auto|]. rewrite Forall_forall in Hx |- *. intros y Hy.
  destruct (str_lt x.1 y.1) eqn:E; [done|]. exfalso. apply Hnot.
  rewrite (str_lt_total _ _ E (Hx y Hy)). by apply list_elem_of_fmap_2.
Qed.

Lemma sorted_indices c : cache_inv c -> sorted_ok c -> Forall (fun i => is_Some (c_recs c !! i)) (c_sorted c).
Proof.
  intros Hc ->. rewrite sort_slice_perm. apply Forall_forall. intros i Hi%elem_of_seq. apply lookup_lt_is_Some. lia.
Qed.

Lemma sorted_lookup {A} (R : A -> A -> Prop) l a b x y :
  StronglySorted R l -> l !! a = Some x -> l !! b = Some y -> (a < b)%nat -> R x y.
Proof.
  intros Hs. revert a b. induction Hs as [|z l Hs IH Hz]; intros a b Ha Hb Hab; [done|].
  destruct b as [|b]; [lia|]. simpl in Hb. destruct a as [|a].
  - simplify_eq/=. rewrite Forall_forall in Hz. by apply Hz, (list_elem_of_lookup_2 _ b).
  - apply (IH a b); [done..|lia].
Qed.

(** The prefix search by bisection over the sorted index returns exactly what filtering all
    commands would: the first 64 commands, in byte order, that extend the prefix, each with the
    summary kept for it. *)
Lemma prefixEntries_reference (prefix : string) (c : Cache) :
  cache_inv c -> sorted_ok c ->
  prefixEntriesLocked c prefix = entry_of <$> v_suggest prefix (view c).
Proof.
  intros Hc Hs. unfold prefixEntriesLocked, sort_Search. set (L := v_sorted (view c)).
  pose proof (sorted_view c Hc Hs) as HL. fold L in HL. pose proof (sorted_indices c Hc Hs) as Hidx.
  pose proof (v_sorted_strict (view c)) as Hss. fold L in Hss.
  set (f i := negb (str_lt (from_option (rec_command c) EmptyString (c_sorted c !! i)) prefix)).
  assert (forall i x, L !! i = Some x -> f i = negb (str_lt x.1 prefix)) as Hf.
  { intros i x Hx. unfold f. rewrite <- HL, list_lookup_fmap in Hx. apply fmap_Some in Hx as (j & -> & ->).
    simpl. by rewrite at_index_fst. }
  assert (length (c_sorted c) = length L) as Hlen by (rewrite <- HL; by rewrite length_fmap).
  destruct (search_from_spec f (length (c_sorted c)) 0 (length (c_sorted c))) as (Hk & Hlo & Hhi); [lia|lia| |].
  { intros a b Hab Ha. destruct (lookup_lt_is_Some_2 L a ltac:(lia)) as [x Hx].
    destruct (lookup_lt_is_Some_2 L b ltac:(lia)) as [y Hy]. rewrite (Hf _ _ Hx) in Ha. rewrite (Hf _ _ Hy).
    apply negb_true_iff in Ha. apply negb_true_iff. destruct (decide (a = b)) as [->|Hne]; [congruence|].
    pose proof (sorted_lookup _ _ a b x y Hss Hx Hy ltac:(lia)) as Hxy. simpl in Hxy.
    destruct (str_lt y.1 prefix) eqn:E; [|done]. by rewrite (str_lt_trans _ _ _ Hxy E) in Ha. }
  set (k := search_from f _ 0 _) in *.
  rewrite take_prefixed_scan by by apply Forall_drop. rewrite fmap_drop, HL. unfold v_suggest. fold L.
  f_equal. rewrite <- (take_drop k L) at 2. rewrite List.filter_app.
  rewrite (filter_none _ (take k L)), app_nil_l.
  - apply scan_filter.
    + apply (sorting.StronglySorted_app_1_r _ (take k L)). by rewrite take_drop.
    + apply Forall_forall. intros x (i & Hi)%list_elem_of_lookup. rewrite lookup_drop in Hi.
      pose proof (lookup_lt_Some _ _ _ Hi) as Hlt. specialize (Hhi (k + i)%nat ltac:(lia)).
      rewrite (Hf _ _ Hi) in Hhi. by apply negb_true_iff in Hhi.
  - intros x (i & [Hi Hik]%lookup_take_Some)%list_elem_of_lookup. specialize (Hlo i ltac:(lia)).
    rewrite (Hf _ _ Hi) in Hlo. apply negb_false_iff in Hlo.
    destruct (has_prefix prefix x.1) eqn:E; [|done]. by rewrite (has_prefix_ge _ _ E) in Hlo.
Qed.

(** ** The operations against the view *)

Inductive cache_op :=
  | OpCreated (e : Entry)
  | OpCompleted (id : string) (end_ : Time) (exit : Z)
  | OpTombstoned (tombstoned : list string)
  | OpTombstoneCommand (command : string)
  | OpBatch (cs : ChangeSet)
  | OpRebuild (live : list Entry)
  | OpCompact
  | OpMarkDirty.

Definition cache_run (o : cache_op) (c : Cache) : Cache :=
  match o with
  | OpCreated e => ApplyCreated e c
  | OpCompleted id end_ exit => ApplyCompleted id end_ exit c
  | OpTombstoned l => ApplyTombstoned l c
  | OpTombstoneCommand cmd => ApplyTombstoneCommand cmd c
  | OpBatch cs => ApplyBatch cs c
  | OpRebuild live => Rebuild live c
  | OpCompact => Compact c
  | OpMarkDirty => MarkDirty c
  end.

Definition v_empty : View := mkView ∅ ∅ false.
Definition v_create_all (l : list Entry) (v : View) : View := foldl (fun v e => v_created e v) v l.
Definition v_tombstone_all (l : list string) (v : View) : View := foldl (fun v id => v_tombstone_id id v) v l.

Definition v_batch (cs : ChangeSet) (v : View) : View :=
  let v := v_create_all (cs_Created cs) v in
  let v := foldl (fun v d => v_completed (cc_ID d) (cc_End d) (cc_Exit d) v) v (cs_Completed cs) in
  let v := v_tombstone_all (cs_Tombstoned cs) v in
  foldl (fun v cmd => v_tombstone_command cmd v) v (cs_Commands cs).

(** What each operation means for the map. *)
Definition v_run (o : cache_op) (v : View) : View :=
  match o with
  | OpCreated e => v_created e v
  | OpCompleted id end_ exit => v_completed id (UnixMilli end_) exit v
  | OpTombstoned l => v_tombstone_all l v
  | OpTombstoneCommand cmd => v_tombstone_command cmd v
  | OpBatch cs => v_batch cs v
  | OpRebuild live => v_create_all live v_empty
  | OpCompact => v
  | OpMarkDirty => mkView (v_cmds v) (v_ids v) true
  end.

(** The pool's identifiers are 32 bits wide: an operation needs room for the
    strings it may intern. *)
Definition op_room (o : cache_op) (c : Cache) : Prop :=
  match o with
  | OpCreated _ => room 4 c
  | OpBatch cs => room (4 * length (cs_Created cs)) c
  | OpRebuild live => room (4 * length live) NewCache
  | _ => True
  end.

Lemma created_all_spec l c :
  cache_inv c -> room (4 * length l) c ->
  simulates (foldl (fun c e => applyCreatedLocked e c) c l) (v_create_all l (view c)).
Proof.
  revert c. induction l as [|e l IH]; intros c Hc Hroom; [done|]. simpl in Hroom |- *.
  unfold room in Hroom. destruct (created_spec e c Hc) as [[Hc' Hv'] Hlen]; [unfold room; lia|].
  unfold v_create_all. simpl. rewrite <- Hv'. apply IH; [done|]. unfold room. lia.
Qed.

(** A loop of steps that need no room. *)
Lemma foldl_spec {A} (f : A -> Cache -> Cache) (g : A -> View -> View) l c :
  (forall x c, cache_inv c -> simulates (f x c) (g x (view c))) -> cache_inv c ->
  simulates (foldl (fun c x => f x c) c l) (foldl (fun v x => g x v) (view c) l).
Proof.
  intros Hf. revert c. induction l as [|x l IH]; intros c Hc; [done|]. simpl.
  destruct (Hf x c Hc) as [Hc' Hv']. rewrite <- Hv'. by apply IH.
Qed.

Lemma resort_ok c : sorted_ok (resortLocked c).
Proof. reflexivity. Qed.

Lemma sorted_ok_same c c' :
  length (c_recs c') = length (c_recs c) -> (forall i, rec_command c' i = rec_command c i) ->
  c_sorted c' = c_sorted c -> sorted_ok c -> sorted_ok c'.
Proof.
  unfold sorted_ok. intros -> Hcmd -> ->. symmetry.
  rewrite <- (list_fmap_id (seq 0 (length (c_recs c)))) at 1.
  rewrite (sort_slice_fmap (fun i j => str_lt (rec_command c i) (rec_command c j))); [by rewrite list_fmap_id|].
  intros a b. unfold id. by rewrite !Hcmd.
Qed.

(** The tail of an update changes neither the invariant nor the map. *)
Lemma settle_spec c v : simulates c v -> simulates (settle c) v /\ sorted_ok (settle c).
Proof.
  intros [Hc Hv]. unfold settle.
  assert (cache_inv (resortLocked c)) as Hr by (destruct Hc; by split).
  assert (simulates (maybeCompactLocked (resortLocked c)) v /\ sorted_ok (maybeCompactLocked (resortLocked c)))
    as [[Hm Hmv] Hs].
  { unfold maybeCompactLocked. destruct (_ =? 0)%nat; [by split; [split|]|].
    destruct (_ || _); [|by split; [split|]].
    destruct (compact_spec _ Hr) as ((Hi & Hview) & Hlen & Hcmd & Hsorted).
    split; [split; [done|]|by eapply sorted_ok_same]. by rewrite Hview. }
  split; [split; [by destruct Hm; split|exact Hmv]|exact Hs].
Qed.

Lemma completed_sorted id endMs exit c : sorted_ok c -> sorted_ok (applyCompletedLocked id endMs exit c).
Proof.
  unfold applyCompletedLocked. destruct (_ ≫= _) as [idx|]; [|done].
  apply sorted_ok_same; [simpl; by rewrite length_alter| |done].
  intros i. unfold rec_command. simpl. destruct (decide (idx = i)) as [->|Hne].
  - rewrite list_lookup_alter_eq. by destruct (c_recs c !! i).
  - by rewrite list_lookup_alter_ne.
Qed.

Lemma batch_spec cs c :
  cache_inv c -> room (4 * length (cs_Created cs)) c ->
  simulates (ApplyBatch cs c) (v_batch cs (view c)) /\ sorted_ok (ApplyBatch cs c).
Proof.
  intros Hc Hroom. unfold ApplyBatch, v_batch. apply settle_spec.
  destruct (created_all_spec (cs_Created cs) c Hc Hroom) as [H1 <-].
  destruct (foldl_spec (fun d => applyCompletedLocked (cc_ID d) (cc_End d) (cc_Exit d))
    (fun d => v_completed (cc_ID d) (cc_End d) (cc_Exit d)) (cs_Completed cs) _
    (fun d => completed_spec (cc_ID d) (cc_End d) (cc_Exit d)) H1) as [H2 <-].
  destruct (foldl_spec _ _ (cs_Tombstoned cs) _ tombstone_id_spec H2) as [H3 E3].
  unfold v_tombstone_all. rewrite <- E3.
  exact (foldl_spec _ _ (cs_Commands cs) _ tombstone_command_spec H3).
Qed.

Lemma rebuild_spec live c :
  room (4 * length live) NewCache ->
  simulates (Rebuild live c) (v_create_all live v_empty) /\ sorted_ok (Rebuild live c).
Proof.
  intros Hroom. destruct (created_all_spec live NewCache NewCache_inv Hroom) as [Hc Hv].
  unfold Rebuild. set (n := foldl _ NewCache live) in *. split; [|done].
  split; [by destruct Hc; split|]. change v_empty with (view NewCache). rewrite <- Hv. unfold view. simpl. f_equal.
  clear. assert (forall d, c_dirty d = false -> c_dirty (foldl (fun c e => applyCreatedLocked e c) d live) = false) as H.
  { induction live as [|e l IH]; intros d Hd; [done|]. simpl. apply IH. unfold applyCreatedLocked.
    repeat case_match; done. }
  subst n. symmetry. by apply H.
Qed.

Lemma tombstone_command_none cmd c :
  ids (c_pool c) !! cmd ≫= (fun cmdID => c_byCmd c !! cmdID) = None -> ApplyTombstoneCommandUnlocked cmd c = c.
Proof. unfold ApplyTombstoneCommandUnlocked. by destruct (ids _ !! cmd) as [k|]; simpl; [intros ->|]. Qed.

Lemma ApplyTombstoneCommand_spec cmd c :
  cache_inv c -> sorted_ok c ->
  simulates (ApplyTombstoneCommand cmd c) (v_tombstone_command cmd (view c)) /\ sorted_ok (ApplyTombstoneCommand cmd c).
Proof.
  intros Hc Hs. pose proof (tombstone_command_spec cmd c Hc) as Hspec. unfold ApplyTombstoneCommand.
  destruct (_ ≫= _) eqn:E; [by apply settle_spec|]. by rewrite (tombstone_command_none _ _ E) in Hspec.
Qed.

Lemma ApplyTombstoned_spec l c :
  cache_inv c ->
  simulates (ApplyTombstoned l c) (v_tombstone_all l (view c)) /\ sorted_ok (ApplyTombstoned l c).
Proof. intros Hc. apply settle_spec. exact (foldl_spec _ _ l c tombstone_id_spec Hc). Qed.

(** C12: The cache implements a finite map from commands to summaries and one from entry identifiers
    to commands: every operation keeps the invariant of pool, records and indices and the order of
    the sorted index, and acts on the maps as its abstract counterpart, whatever interning,
    swapping, sorting and compaction it does. *)
Theorem cache_refines (o : cache_op) (c : Cache) :
  cache_inv c -> sorted_ok c -> op_room o c ->
  cache_inv (cache_run o c) /\ sorted_ok (cache_run o c) /\ view (cache_run o c) = v_run o (view c).
Proof.
  intros Hc Hs Hroom.
  enough (simulates (cache_run o c) (v_run o (view c)) /\ sorted_ok (cache_run o c)) by (unfold simulates in *; tauto).
  destruct o as [e|id end_ exit|l|cmd|cs|live| |]; simpl in *.
  - apply settle_spec. by apply created_spec.
  - split; [by apply completed_spec|by apply completed_sorted].
  - by apply ApplyTombstoned_spec.
  - by apply ApplyTombstoneCommand_spec.
  - by apply batch_spec.
  - by apply rebuild_spec.
  - destruct (compact_spec c Hc) as ([Hi Hv] & Hlen & Hcmd & Hsorted). unfold Compact.
    split; [split; [by destruct Hi; split|exact Hv]|]. by apply (sorted_ok_same c).
  - split; [split; [by destruct Hc; split|done]|done].
Qed.
