(* ===== verification/Service.v ===== *)
(** [internal/history/service.go], [skip.go], [ignore.go]: the daemon's history
    service. It writes commands to the history table, logs them for the other
    devices through the functions it is given, and keeps the cache of [Cache]
    in step with the table. The state is the database, the cache, the last seen
    [PRAGMA data_version] and the loaded ignore rules. SQLite's errors and
    cancelled contexts are not modelled. *)

From S2P Require Import Prelude Database History Frontier Event Device Merge Text Config Cache.
From Stdlib Require Import Ascii.

(** ** [skip.go] *)

(** [strings.ToUpper] as far as ASCII results go: the letters, and the two
    runes outside ASCII whose upper case is an ASCII letter, U+0131 (bytes C4
    B1) and U+017F (bytes C5 BF). Every other rune maps outside ASCII and is
    kept here, which changes no search for an ASCII text. *)
Fixpoint ToUpper_ascii (s : string) : string :=
  match s with
  | EmptyString => EmptyString
  | String c s' =>
      match s' with
      | String d s'' =>
          if (code c =? 196)%N && (code d =? 177)%N then String "I" (ToUpper_ascii s'')
          else if (code c =? 197)%N && (code d =? 191)%N then String "S" (ToUpper_ascii s'')
          else String (upper_char c) (ToUpper_ascii s')
      | EmptyString => String (upper_char c) EmptyString
      end
  end.

(** [strings.Contains] *)
Fixpoint str_contains (p s : string) : bool :=
  has_prefix p s || match s with EmptyString => false | String _ s => str_contains p s end.

Definition secret_markers : list string :=
  ["REMNIX_RECOVERY_KEY="; "RCLONE_CONFIG_PASS="; "AWS_SECRET_ACCESS_KEY="; "AZURE_STORAGE_KEY="]%string.

Definition skipSecrets (command : string) : bool :=
  let u := ToUpper_ascii command in existsb (fun p => str_contains p u) secret_markers.

(** ** [ignore.go] *)

Record fileStamp := mkStamp { fs_path : string; fs_mtime : option Time }.
Record ignoreRules (Re : Type) := mkRules { ir_exact : gset string; ir_res : list Re }.
Arguments mkRules {Re}. Arguments ir_exact {Re}. Arguments ir_res {Re}.

(** [ok] is the presence of the modification time. *)
Record ignoreCache (Re : Type) := mkIgnore { ig_txt : fileStamp; ig_re : fileStamp; ig_rules : ignoreRules Re }.
Arguments mkIgnore {Re}. Arguments ig_txt {Re}. Arguments ig_re {Re}. Arguments ig_rules {Re}.

#[global] Instance fileStamp_eq_dec : EqDecision fileStamp.
Proof. solve_decision. Defined.

(** The files of the host: modification time and contents. *)
Record Files := mkFiles { f_Stat : string -> option Time; f_ReadFile : string -> option string }.

Definition stampFile (fl : Files) (path : string) : fileStamp := mkStamp path (f_Stat fl path).

Definition readIgnoreLines (fl : Files) (path : string) : list string :=
  match f_ReadFile fl path with
  | None => []
  | Some data => List.filter (fun l => negb (str_empty l)) (trim_space <$> split_on nl data)
  end.

Section Ignore.
Context {Re : Type} (regexp_Compile : string -> option Re) (MatchString : Re -> string -> bool).
Context (env : Env) (fl : Files).

Definition rules_match (r : ignoreRules Re) (command : string) : bool :=
  bool_decide (command ∈ ir_exact r) || existsb (fun re => MatchString re command) (ir_res r).

Definition loadIgnore (txt re : fileStamp) : ignoreRules Re :=
  mkRules (if fs_mtime txt then list_to_set (readIgnoreLines fl (fs_path txt)) else ∅)
    (if fs_mtime re then omap regexp_Compile (readIgnoreLines fl (fs_path re)) else []).

Definition rulesFor (c : ignoreCache Re) : ignoreCache Re * ignoreRules Re :=
  let txt := stampFile fl (IgnoreCommandsPath env) in
  let re := stampFile fl (IgnoreCommandsRegexPath env) in
  if bool_decide (ig_txt c = txt) && bool_decide (ig_re c = re) then (c, ig_rules c)
  else let rules := loadIgnore txt re in (mkIgnore txt re rules, rules).

Definition ignore_match (command : string) (c : ignoreCache Re) : ignoreCache Re * bool :=
  let '(c, rules) := rulesFor c in (c, rules_match rules command).

Definition ShouldSkip (command : string) (c : ignoreCache Re) : ignoreCache Re * bool :=
  if skipSecrets command then (c, true) else ignore_match command c.
End Ignore.

(** ** [service.go] *)

Record Service (Re : Type) := mkService {
  sv_db : DB; sv_cache : Cache; sv_dataVersion : Z; sv_ignore : ignoreCache Re;
}.
Arguments mkService {Re}. Arguments sv_db {Re}. Arguments sv_cache {Re}.
Arguments sv_dataVersion {Re}. Arguments sv_ignore {Re}.

Section Service.
Context {Re : Type} (regexp_Compile : string -> option Re) (MatchString : Re -> string -> bool).
Context `{Sha256} (env : Env) (fl : Files) (deviceID host wd : string).
Context (enqueueCreated enqueueTombstone : option (Entry -> M DB unit)).
(** What the clock, [uuid.NewV7] (per draw) and [PRAGMA data_version] answer during the call. *)
Context (now : Time) (NewV7 : nat -> result string) (pragmaDataVersion : result Z).

Notation SV := (Service Re).

Definition sv_sql {A} (m : M DB A) : M SV A :=
  zoom sv_db (fun d s => mkService d (sv_cache s) (sv_dataVersion s) (sv_ignore s)) m.
Definition on_cache (f : Cache -> Cache) : M SV unit :=
  modify (fun s => mkService (sv_db s) (f (sv_cache s)) (sv_dataVersion s) (sv_ignore s)).
Definition set_version (v : Z) : M SV unit :=
  modify (fun s => mkService (sv_db s) (sv_cache s) v (sv_ignore s)).
Definition skip (command : string) : M SV bool := fun s =>
  let '(ig, b) := ShouldSkip regexp_Compile MatchString env fl command (sv_ignore s) in
  (mkService (sv_db s) (sv_cache s) (sv_dataVersion s) ig, Ok b).

Definition rebuildLocked : M SV unit :=
  d ← gets sv_db;
  _ ← on_cache (Rebuild (ScanLive d));
  set_version (match pragmaDataVersion with Ok v => v | Fail _ => 0 end).

Definition Service_Rebuild : M SV unit := rebuildLocked.
Definition CompactCache : M SV unit := on_cache Compact.

Definition EnsureFresh : M SV unit :=
  dirty ← gets (fun s => c_dirty (sv_cache s));
  if (dirty : bool) then Service_Rebuild
  else
    cur ← of_result pragmaDataVersion;
    seen ← gets sv_dataVersion;
    if negb (seen =? 0) && negb (cur =? seen) then (_ ← on_cache MarkDirty; Service_Rebuild)
    else mret tt.

Definition SuggestCandidates (prefix : string) : M SV (list Entry) :=
  if str_empty prefix then mret []
  else (_ ← EnsureFresh; gets (fun s => Cache_Suggest prefix (sv_cache s))).

Definition SearchCandidates : M SV (list Entry) :=
  _ ← EnsureFresh; gets (fun s => AllUnique (sv_cache s)).

Definition noteVersion : M SV unit := v ← of_result pragmaDataVersion; set_version v.

(** The update does not panic in the model, so [recover] has nothing to do. *)
Definition afterCommit (update : Cache -> Cache) : M SV unit :=
  _ ← on_cache update;
  dirty ← gets (fun s => c_dirty (sv_cache s));
  if (dirty : bool) then rebuildLocked else noteVersion.

Definition enqueue (f : option (Entry -> M DB unit)) (e : Entry) : M SV unit :=
  match f with None => mret tt | Some f => sv_sql (f e) end.

Definition started_entry (id command cwd session shell : string) : Entry :=
  mkEntry id command now None None None cwd session host deviceID shell false "" None time_zero.

(** The identifier returned on the error path of [afterCommit] is not kept. *)
Definition StartCommand (command cwd session shell : string) : M SV string :=
  id ← of_result (NewV7 0);
  sk ← skip command;
  if (sk : bool) then mret id
  else
    let cwd := if str_empty cwd then wd else cwd in
    let e := started_entry id command cwd session shell in
    _ ← sv_sql (Insert now e);
    _ ← enqueue enqueueCreated e;
    _ ← afterCommit (ApplyCreated e);
    mret id.

Definition CompleteCommand (id : string) (exit : Z) : M SV unit :=
  if str_empty id then mret tt
  else (_ ← sv_sql (Complete id now exit); afterCommit (ApplyCompleted id now exit)).

Definition tombstone_row (e : Entry) : M SV unit :=
  match enqueueTombstone with
  | Some f => sv_sql (f e)
  | None => sv_sql (Tombstone (e_ID e))
  end.

(** The distinct non-empty commands, in the order the map yields them. *)
Definition entry_commands (entries : list Entry) : list string :=
  elements (list_to_set (C := gset string)
    (List.filter (fun c => negb (str_empty c)) (e_Command <$> entries))).

Definition Service_TombstoneEntries (entries : list Entry) : M SV unit :=
  match entries with
  | [] => mret tt
  | _ =>
      _ ← for_each entries tombstone_row;
      afterCommit (fun c => foldl (fun c cmd => ApplyTombstoneCommand cmd c)
                              (ApplyTombstoned (e_ID <$> entries) c) (entry_commands entries))
  end.

Definition Service_TombstoneCommand (command : string) : M SV unit :=
  if str_empty command then mret tt
  else (entries ← gets (fun s => ListByCommand command (sv_db s)); Service_TombstoneEntries entries).

Definition with_ID (id : string) (e : Entry) : Entry :=
  mkEntry id (e_Command e) (e_StartTS e) (e_EndTS e) (e_DurationMs e) (e_ExitStatus e) (e_Cwd e)
    (e_SessionID e) (e_Hostname e) (e_DeviceID e) (e_Shell e) (e_Deleted e) (e_OriginDeviceID e)
    (e_OriginSeq e) (e_CreatedAt e).
Definition with_device (dev : string) (e : Entry) : Entry :=
  mkEntry (e_ID e) (e_Command e) (e_StartTS e) (e_EndTS e) (e_DurationMs e) (e_ExitStatus e) (e_Cwd e)
    (e_SessionID e) (e_Hostname e) dev (e_Shell e) (e_Deleted e) (e_OriginDeviceID e)
    (e_OriginSeq e) (e_CreatedAt e).

(** One round of the loop of [Import]; [n] is its position. *)
Definition import_entry (n : nat) (e : Entry) : M SV (option Entry) :=
  sk ← skip (e_Command e);
  if (sk : bool) then mret None
  else
    id ← (if str_empty (e_ID e) then of_result (NewV7 n) else mret (e_ID e));
    let e := with_ID id e in
    let e := if str_empty (e_DeviceID e) then with_device deviceID e else e in
    ok ← sv_sql (Insert now e);
    if negb ok then mret None
    else (_ ← enqueue enqueueCreated e; mret (Some e)).

(** The count returned with an error is not kept. *)
Definition Import (entries : list Entry) : M SV Z :=
  created ← collect (fun '(n, e) => import_entry n e) (imap pair entries);
  _ ← afterCommit (ApplyBatch (mkChangeSet created [] [] []));
  mret (Z.of_nat (length created)).

Definition ApplyRemoteChanges (cs : ChangeSet) : M SV unit :=
  if Empty cs then noteVersion else afterCommit (ApplyBatch cs).
End Service.
