(* ===== verification/ServiceSpec.v ===== *)
(** The cache of the history service stays in step with the history table: an
    abstract account of what the cache must hold (the live rows by identifier,
    the live commands with their number of rows), the writes of [Service] that
    keep it, and the queries answered from it. What the service needs of the
    event log is the class [HistoryQueue], which the engine implements. *)

From S2P Require Import Prelude Database History Frontier Event Device Merge Text Config Engine App AppSafety.
From S2P Require Import Utf8 Cache CacheSpec Service.

(** ** What the cache must hold *)

Definition live_row (kr : string * HistoryRow) : Prop :=
  hr_deleted kr.2 = false /\ hr_command kr.2 <> EmptyString.
#[global] Instance live_row_dec kr : Decision (live_row kr).
Proof. unfold live_row. apply _. Defined.

Definition live_ids (d : DB) : gmap string string := hr_command <$> filter live_row (db_history d).

Definition count_of (cmd : string) (m : gmap string string) : nat := size (filter (fun kc => kc.2 = cmd) m).

Definition tally (n : nat) : option Z := if (n =? 0)%nat then None else Some (Z.of_nat n).

(** Every command is counted as often as it has identifiers. *)
Definition tallied (v : View) : Prop :=
  forall cmd, sm_freq <$> v_cmds v !! cmd = tally (count_of cmd (v_ids v)).

Record coherent (d : DB) (c : Cache) : Prop := {
  co_inv : cache_inv c;
  co_sorted : sorted_ok c;
  co_clean : c_dirty c = false;
  co_tallied : tallied (view c);
  co_ids : v_ids (view c) = live_ids d;
}.

(** The command a row contributes. *)
Definition live_command (r : HistoryRow) : option string :=
  if hr_deleted r || str_empty (hr_command r) then None else Some (hr_command r).

Lemma live_ids_lookup d k : live_ids d !! k = db_history d !! k ≫= live_command.
Proof.
  unfold live_ids. rewrite lookup_fmap, map_lookup_filter. destruct (db_history d !! k) as [r|]; simpl; [|done].
  unfold live_command. destruct (hr_deleted r) eqn:Ed; simpl; [by rewrite option_guard_False by (intros [? ?]; simpl in *; congruence)|].
  destruct (hr_command r) as [|c cmd] eqn:Ec; simpl; [by rewrite option_guard_False by (intros [? ?]; simpl in *; congruence)|].
  rewrite option_guard_True by (split; simpl; congruence). simpl. by rewrite Ec.
Qed.

Lemma live_command_Some r c :
  live_command r = Some c <-> hr_deleted r = false /\ hr_command r = c /\ c <> EmptyString.
Proof. unfold live_command. destruct (hr_deleted r), (hr_command r) eqn:E; simpl; naive_solver. Qed.

Lemma count_of_insert cmd m id c :
  m !! id = None -> count_of cmd (<[id := c]> m) = ((if decide (c = cmd) then 1 else 0) + count_of cmd m)%nat.
Proof.
  intros Hid. unfold count_of. case_decide as Hc.
  - rewrite map_filter_insert_True by done. rewrite map_size_insert_None; [done|].
    by rewrite map_lookup_filter, Hid.
  - rewrite map_filter_insert_False by done. rewrite delete_id by done. done.
Qed.

Lemma count_of_delete cmd m id c :
  m !! id = Some c -> count_of cmd m = ((if decide (c = cmd) then 1 else 0) + count_of cmd (delete id m))%nat.
Proof.
  intros Hid. rewrite <- (insert_delete_id m id c Hid) at 1. apply count_of_insert. apply lookup_delete_eq.
Qed.

Lemma count_of_le cmd m : (count_of cmd m <= size m)%nat.
Proof. unfold count_of. apply map_subseteq_size, map_filter_subseteq. Qed.

Lemma count_of_pos cmd m id : m !! id = Some cmd -> (0 < count_of cmd m)%nat.
Proof. intros Hid. rewrite (count_of_delete cmd m id cmd Hid), decide_True by done. lia. Qed.

Lemma tally_inj n m : tally n = tally m -> n = m.
Proof. unfold tally. destruct n, m; simpl; try done. intros [= ?]. lia. Qed.

(** ** The abstract operations keep the tallies *)

Definition ids_created (e : Entry) (m : gmap string string) : gmap string string :=
  if e_Deleted e || str_empty (e_Command e) then m else <[e_ID e := e_Command e]> m.

Definition few (m : gmap string string) : Prop := Z.of_nat (size m) < 2^31.

Lemma v_created_ids e v : v_ids (v_created e v) = ids_created e (v_ids v).
Proof. unfold v_created, ids_created. by destruct (_ || _). Qed.
Lemma v_created_dirty e v : v_dirty (v_created e v) = v_dirty v.
Proof. unfold v_created. by destruct (_ || _). Qed.

Lemma tallied_created e v :
  v_ids v !! e_ID e = None -> few (ids_created e (v_ids v)) -> tallied v -> tallied (v_created e v).
Proof.
  intros Hid Hfew Hv cmd. unfold v_created, ids_created in *. destruct (_ || _); [apply Hv|]. simpl.
  rewrite count_of_insert by done. unfold few in Hfew. rewrite map_size_insert_None in Hfew by done.
  pose proof (count_of_le (e_Command e) (v_ids v)) as Hle.
  specialize (Hv cmd). case_decide as Hc.
  - subst cmd. rewrite lookup_insert_eq. destruct (v_cmds v !! e_Command e) as [sm|]; simpl in *.
    + assert (sm_freq sm = Z.of_nat (count_of (e_Command e) (v_ids v))) as Hf.
      { unfold tally in Hv. destruct (_ =? 0)%nat; [done|by injection Hv]. }
      rewrite Hf, wrap32_small by lia. unfold tally. simpl. case_match; simpl; f_equal; lia.
    + rewrite <- (tally_inj 0 _ Hv). done.
  - by rewrite lookup_insert_ne.
Qed.

Lemma tallied_completed id endMs exit v : tallied v -> tallied (v_completed id endMs exit v).
Proof.
  intros Hv cmd. unfold v_completed. destruct (v_ids v !! id) as [c|]; [|apply Hv]. simpl. rewrite <- Hv.
  destruct (decide (c = cmd)) as [->|Hne]; [|by rewrite lookup_alter_ne].
  rewrite lookup_alter_eq. by destruct (v_cmds v !! cmd).
Qed.

Lemma tallied_tombstone_id id v : few (v_ids v) -> tallied v -> tallied (v_tombstone_id id v).
Proof.
  intros Hfew Hv cmd. unfold v_tombstone_id. destruct (v_ids v !! id) as [c|] eqn:Hid; [|apply Hv]. simpl.
  pose proof (Hv c) as Hvc. pose proof (count_of_pos _ _ _ Hid) as Hpos. pose proof (count_of_le c (v_ids v)) as Hle.
  unfold tally in Hvc. rewrite (proj2 (Nat.eqb_neq _ _)) in Hvc by lia.
  destruct (v_cmds v !! c) as [sm|] eqn:Hsm; [|done]. simpl in Hvc. injection Hvc as Hf.
  pose proof (count_of_delete c _ _ _ Hid) as Hdel. rewrite decide_True in Hdel by done.
  unfold few in Hfew. rewrite Hf, wrap32_small by lia.
  destruct (decide (c = cmd)) as [->|Hne].
  - destruct (_ <=? 0) eqn:E.
    + rewrite lookup_delete_eq. apply Z.leb_le in E. unfold tally. by rewrite (proj2 (Nat.eqb_eq _ _)) by lia.
    + rewrite lookup_insert_eq. apply Z.leb_gt in E. simpl. unfold tally.
      rewrite (proj2 (Nat.eqb_neq _ _)) by lia. f_equal. lia.
  - assert (count_of cmd (delete id (v_ids v)) = count_of cmd (v_ids v)) as ->.
    { rewrite (count_of_delete cmd _ _ _ Hid), decide_False by done. done. }
    rewrite <- Hv. destruct (_ <=? 0); [by rewrite lookup_delete_ne|by rewrite lookup_insert_ne].
Qed.

Lemma count_of_others cmd cmd' m :
  count_of cmd' (filter (fun '(_, c) => c <> cmd) m) = if decide (cmd = cmd') then O else count_of cmd' m.
Proof.
  unfold count_of. case_decide as Hc.
  - subst cmd'. apply map_size_empty_iff, map_empty. intros i. apply map_lookup_filter_None. right.
    intros x [_ Hx]%map_lookup_filter_Some. done.
  - f_equal. apply map_eq. intros i. apply option_eq. intros x. rewrite !map_lookup_filter_Some. naive_solver.
Qed.

Lemma tallied_tombstone_command cmd v : tallied v -> tallied (v_tombstone_command cmd v).
Proof.
  intros Hv cmd'. unfold v_tombstone_command. destruct (v_cmds v !! cmd) eqn:E; [|apply Hv]. simpl.
  rewrite count_of_others. case_decide as Hc; [by subst; rewrite lookup_delete_eq|].
  rewrite lookup_delete_ne by done. apply Hv.
Qed.

(** The commands named by no identifier are not there to be dropped. *)
Lemma tombstone_command_ids cmd v :
  tallied v -> v_ids (v_tombstone_command cmd v) = filter (fun kc => kc.2 <> cmd) (v_ids v) /\
  v_dirty (v_tombstone_command cmd v) = v_dirty v.
Proof.
  intros Hv. unfold v_tombstone_command. destruct (v_cmds v !! cmd) eqn:E; simpl; (split; [|done]).
  - apply map_filter_ext. by intros i x _.
  - symmetry. apply map_filter_id. intros i x Hx Heq. simpl in Heq. subst x.
    pose proof (count_of_pos _ _ _ Hx). specialize (Hv cmd). rewrite E in Hv. simpl in Hv.
    apply (tally_inj 0) in Hv. lia.
Qed.

(** ** Loading rows *)

Definition ids_all (l : list Entry) (m : gmap string string) : gmap string string :=
  foldl (fun m e => ids_created e m) m l.

Fixpoint fresh_chain (l : list Entry) (m : gmap string string) : Prop :=
  match l with
  | [] => True
  | e :: l => m !! e_ID e = None /\ fresh_chain l (ids_created e m)
  end.

Lemma create_all_ids l v : v_ids (v_create_all l v) = ids_all l (v_ids v) /\ v_dirty (v_create_all l v) = v_dirty v.
Proof.
  revert v. induction l as [|e l IH]; intros v; [done|]. unfold v_create_all, ids_all in *. simpl.
  rewrite <- v_created_ids, <- (v_created_dirty e v). apply IH.
Qed.

Lemma ids_created_size e m : m !! e_ID e = None -> (size m <= size (ids_created e m))%nat.
Proof. intros He. unfold ids_created. destruct (_ || _); [done|]. rewrite map_size_insert_None by done. lia. Qed.

Lemma ids_all_size l m : fresh_chain l m -> (size m <= size (ids_all l m))%nat.
Proof.
  revert m. induction l as [|e l IH]; intros m; [done|]. intros [He Hl]. unfold ids_all in *. simpl.
  etrans; [by apply (ids_created_size e)|by apply IH].
Qed.

Lemma create_all_tallied l v :
  fresh_chain l (v_ids v) -> few (ids_all l (v_ids v)) -> tallied v -> tallied (v_create_all l v).
Proof.
  revert v. induction l as [|e l IH]; intros v; [done|]. intros [He Hl] Hfew Hv. unfold v_create_all, ids_all in *.
  simpl in *. pose proof (ids_all_size l _ Hl) as Hsize. unfold ids_all in Hsize.
  apply IH; rewrite ?v_created_ids; [done|done|]. apply tallied_created; [done| |done]. unfold few in *. lia.
Qed.

Lemma NoDup_fresh l m :
  NoDup (e_ID <$> l) -> (forall e, e ∈ l -> m !! e_ID e = None) -> fresh_chain l m.
Proof.
  revert m. induction l as [|e l IH]; intros m; [done|]. rewrite fmap_cons, NoDup_cons. intros [Hnot Hnd] Hm. simpl.
  split; [apply Hm; left|]. apply IH; [done|]. intros e' He'. unfold ids_created.
  destruct (_ || _); [apply Hm; by right|]. rewrite lookup_insert_ne; [apply Hm; by right|].
  intros E. apply Hnot. rewrite E. by apply list_elem_of_fmap_2.
Qed.

Lemma ids_all_lookup l m k c :
  NoDup (e_ID <$> l) -> (forall e, e ∈ l -> m !! e_ID e = None) ->
  ids_all l m !! k = Some c <-> m !! k = Some c \/
    exists e, e ∈ l /\ e_ID e = k /\ e_Command e = c /\ e_Deleted e = false /\ c <> EmptyString.
Proof.
  revert m. induction l as [|e l IH]; intros m.
  { intros _ _. split; [by left|]. intros [?|(e & He & _)]; [done|]. by apply not_elem_of_nil in He. }
  rewrite fmap_cons, NoDup_cons. intros [Hnot Hnd] Hm. unfold ids_all in *. simpl.
  assert (forall e', e' ∈ l -> e_ID e <> e_ID e') as Hne.
  { intros e' He' E. apply Hnot. rewrite E. by apply list_elem_of_fmap_2. }
  rewrite IH; [|done|].
  2: { intros e' He'. unfold ids_created. destruct (_ || _); [apply Hm; by right|].
       rewrite lookup_insert_ne by by apply Hne. apply Hm. by right. }
  pose proof (Hm e ltac:(left)) as Hme. unfold ids_created. setoid_rewrite elem_of_cons.
  destruct (e_Deleted e) eqn:Ed; simpl.
  { split; [intros [?|(e' & ? & ?)]; eauto|]. intros [?|(e' & [->|?] & ?)]; [eauto|destruct_and!; congruence|eauto]. }
  destruct (e_Command e) as [|a s] eqn:Ec; simpl.
  { split; [intros [?|(e' & ? & ?)]; eauto|]. intros [?|(e' & [->|?] & ?)]; [eauto|destruct_and!; congruence|eauto]. }
  rewrite lookup_insert_Some. split.
  - intros [[[<- <-]|[? ?]]|(e' & ? & ?)]; [right; exists e; rewrite Ec; naive_solver|by left|right; exists e'; naive_solver].
  - intros [Hk|(e' & [->|He'] & <- & <- & Hd & Hc)].
    + left. right. split; [congruence|done].
    + left. left. by rewrite Ec.
    + right. exists e'. naive_solver.
Qed.

Lemma ScanLive_elem d e :
  e ∈ ScanLive d <-> exists k r, db_history d !! k = Some r /\ hr_deleted r = false /\ e = scanEntry (db_interns d) r.
Proof.
  unfold ScanLive, scanEntries. rewrite list_elem_of_fmap. setoid_rewrite sort_slice_perm.
  setoid_rewrite list_elem_of_In. setoid_rewrite filter_In. setoid_rewrite <- list_elem_of_In.
  setoid_rewrite elem_of_rows. setoid_rewrite negb_true_iff. naive_solver.
Qed.

Lemma filtered_NoDup d (p : HistoryRow -> bool) :
  history_wf (db_history d) -> NoDup (hr_id <$> List.filter p (rows (db_history d))).
Proof.
  intros Hwf. assert (NoDup (hr_id <$> rows (db_history d))) as Hnd.
  { unfold rows. rewrite <- list_fmap_compose. eapply NoDup_fmap_2_strong; [|apply NoDup_map_to_list].
    intros [k r] [k' r'] Hk%elem_of_map_to_list Hk'%elem_of_map_to_list E. simpl in E.
    pose proof (hw_key _ Hwf _ _ Hk) as E1. pose proof (hw_key _ Hwf _ _ Hk') as E2.
    assert (k = k') as -> by congruence. f_equal. congruence. }
  revert Hnd. generalize (rows (db_history d)). intros l. induction l as [|r l IH]; [done|].
  rewrite fmap_cons, NoDup_cons. intros [Hr Hnd]. simpl. destruct (p r); [|auto].
  rewrite fmap_cons, NoDup_cons. split; [|auto]. intros (r' & E & Hin)%list_elem_of_fmap. apply Hr.
  apply list_elem_of_fmap. exists r'. split; [done|]. apply list_elem_of_In, filter_In in Hin as [Hin _].
  by apply list_elem_of_In.
Qed.

Lemma ListByCommand_NoDup cmd d : history_wf (db_history d) -> NoDup (e_ID <$> ListByCommand cmd d).
Proof.
  intros Hwf. unfold ListByCommand, scanEntries. rewrite <- list_fmap_compose, sort_slice_perm.
  exact (filtered_NoDup d _ Hwf).
Qed.

Lemma ScanLive_NoDup d : history_wf (db_history d) -> NoDup (e_ID <$> ScanLive d).
Proof.
  intros Hwf. unfold ScanLive, scanEntries. rewrite <- list_fmap_compose, sort_slice_perm.
  exact (filtered_NoDup d _ Hwf).
Qed.

Lemma ScanLive_ids d : history_wf (db_history d) -> ids_all (ScanLive d) ∅ = live_ids d.
Proof.
  intros Hwf. apply map_eq. intros k. apply option_eq. intros c.
  rewrite ids_all_lookup by (try apply ScanLive_NoDup; done). rewrite lookup_empty, live_ids_lookup, bind_Some.
  setoid_rewrite ScanLive_elem. split.
  - intros [?|(e & (k' & r & Hr & Hd & ->) & <- & <- & _ & Hc)]; [done|]. simpl in *.
    rewrite (hw_key _ Hwf _ _ Hr). exists r. split; [done|]. by apply live_command_Some.
  - intros (r & Hr & (Hd & <- & Hc)%live_command_Some). right.
    eexists. split; [by exists k, r|]. simpl. by rewrite (hw_key _ Hwf _ _ Hr).
Qed.

(** Reading the table anew. *)
Lemma Rebuild_coherent d c :
  history_wf (db_history d) -> few (live_ids d) -> room (4 * length (ScanLive d)) NewCache ->
  coherent d (Rebuild (ScanLive d) c).
Proof.
  intros Hwf Hfew Hroom. destruct (rebuild_spec (ScanLive d) c Hroom) as [[Hi Hv] Hs].
  destruct (create_all_ids (ScanLive d) v_empty) as [Hids Hd]. simpl in Hids. rewrite ScanLive_ids in Hids by done.
  split; [done|done|done| |by rewrite Hv]. rewrite Hv. apply create_all_tallied; simpl.
  - apply NoDup_fresh; [by apply ScanLive_NoDup|done].
  - by rewrite ScanLive_ids.
  - intros cmd. done.
Qed.

(** ** The event log *)

(** What the service needs of the functions that log its changes: logging a
    command leaves the live rows alone, logging a deletion marks one row. *)
Class HistoryQueue (enqueueCreated enqueueTombstone : option (Entry -> M DB unit)) : Prop := {
  hq_created : forall f e d, enqueueCreated = Some f -> live_ids (f e d).1 = live_ids d;
  hq_tombstone : forall f e d d', enqueueTombstone = Some f -> f e d = (d', Ok tt) ->
    db_history d' = alter hr_set_deleted (e_ID e) (db_history d);
}.

(** Without a log the service writes the table itself. *)
#[global] Instance no_queue : HistoryQueue None None.
Proof. by split. Qed.

Lemma live_ids_ext d d' : db_history d' = db_history d -> live_ids d' = live_ids d.
Proof. unfold live_ids. by intros ->. Qed.

Lemma live_ids_alter d d' id f :
  db_history d' = alter f id (db_history d) -> (forall r, hr_deleted (f r) = hr_deleted r /\ hr_command (f r) = hr_command r) ->
  live_ids d' = live_ids d.
Proof.
  intros E Hf. apply map_eq. intros k. rewrite !live_ids_lookup, E.
  destruct (decide (id = k)) as [->|Hne]; [|by rewrite lookup_alter_ne].
  rewrite lookup_alter_eq. destruct (db_history d !! k) as [r|]; simpl; [|done].
  unfold live_command. by destruct (Hf r) as [-> ->].
Qed.

(** The daemon's log is the engine's. *)
#[global] Instance engine_queue `{Sha256} `{EventCodecs} cfg host t :
  HistoryQueue (Some (EnqueueHistoryCreated (local_options cfg host) t))
    (Some (EnqueueHistoryTombstoned (local_options cfg host) t)).
Proof.
  split.
  - intros f e d [= <-]. revert d.
    change (mono (fun d d' => live_ids d' = live_ids d) (EnqueueHistoryCreated (local_options cfg host) t e)).
    assert (PreOrder (fun d d' => live_ids d' = live_ids d)) by (split; [by intros ?|intros ? ? ? ? ?; congruence]).
    unfold EnqueueHistoryCreated. apply mono_bind; [apply _|apply mono_gets; apply _|]. intros seq.
    apply mono_bind; [apply _| |intros _; apply mono_bind; [apply _| |]].
    + intros d0. apply live_ids_ext. unfold Append, AppendExec. by case_match.
    + intros d0. unfold set_origin. destruct (db_history d0 !! e_ID e) as [r|] eqn:Er; [|done].
      case_match; [done|]. apply (live_ids_alter _ _ (e_ID e) (hr_set_origin (o_DeviceID (local_options cfg host)) seq));
        [|by intros r']. simpl. apply map_eq. intros k. destruct (decide (e_ID e = k)) as [<-|Hne].
      * by rewrite lookup_insert_eq, lookup_alter_eq, Er.
      * by rewrite lookup_insert_ne, lookup_alter_ne.
    + intros _. unfold enqueue_done. apply mono_bind; [apply _|by intros d0|]. intros _.
      apply mono_bind; [apply _| |by intros _ d0]. intros d0. apply live_ids_ext. simpl. by repeat case_match.
  - intros f e d d' [= <-] E. by apply enqueue_tombstone_history in E as [-> _].
Qed.

(** ** The writes keep the cache in step *)

Section ServiceSpec.
Context {Re : Type} (regexp_Compile : string -> option Re) (MatchString : Re -> string -> bool).
Context `{Sha256} (env : Env) (fl : Files) (deviceID host wd : string).
Context (enqueueCreated enqueueTombstone : option (Entry -> M DB unit)) `{!HistoryQueue enqueueCreated enqueueTombstone}.
Context (now : Time) (NewV7 : nat -> result string) (pragma : result Z).
Notation SV := (Service Re).
Notation in_step s := (coherent (sv_db s) (sv_cache s)).

Lemma afterCommit_spec u (s s' : SV) r :
  afterCommit pragma u s = (s', r) -> coherent (sv_db s) (u (sv_cache s)) -> in_step s' /\ sv_db s' = sv_db s.
Proof.
  intros E Hc. unfold afterCommit in E. erewrite bind_Ok in E by reflexivity. erewrite bind_Ok in E by reflexivity.
  simpl in E. rewrite (co_clean _ _ Hc) in E. unfold noteVersion in E. destruct pragma; injection E as <- <-; done.
Qed.

Lemma sv_sql_run {A} (m : M DB A) (s : SV) :
  sv_sql m s = (mkService (m (sv_db s)).1 (sv_cache s) (sv_dataVersion s) (sv_ignore s), (m (sv_db s)).2).
Proof. unfold sv_sql, zoom. by destruct (m (sv_db s)). Qed.

Lemma enqueue_spec e (s s' : SV) r :
  enqueue enqueueCreated e s = (s', r) -> sv_cache s' = sv_cache s /\ live_ids (sv_db s') = live_ids (sv_db s).
Proof.
  unfold enqueue. destruct enqueueCreated as [f|] eqn:Ef; [|by intros [= <- <-]].
  rewrite sv_sql_run. intros [= <- <-]. simpl. split; [done|]. by apply hq_created.
Qed.

Lemma skip_spec cmd (s s' : SV) r :
  skip regexp_Compile MatchString env fl cmd s = (s', r) -> sv_db s' = sv_db s /\ sv_cache s' = sv_cache s.
Proof. unfold skip. destruct (ShouldSkip _ _ _ _ _ _) as [ig b]. by intros [= <- <-]. Qed.

(** A row that was inserted is new. *)
Lemma Insert_live e d d' :
  Insert now e d = (d', Ok true) ->
  db_history d !! e_ID e = None /\ live_ids d' = ids_created e (live_ids d).
Proof.
  unfold Insert, InsertExec. destruct (intern_entry (with_created now e) (db_interns d)) as [i r] eqn:Ei.
  assert (hr_id r = e_ID e /\ hr_command r = e_Command e /\ hr_deleted r = e_Deleted e) as (Hid & Hcmd & Hdel).
  { unfold intern_entry in Ei. repeat case_match. injection Ei as _ <-. unfold with_created. simpl. by case_match. }
  destruct (history_conflict _ r) eqn:Hconf; [done|]. intros [= <-].
  unfold history_conflict in Hconf. apply orb_false_iff in Hconf as [[Hconf _]%orb_false_iff _].
  apply bool_decide_eq_false, eq_None_not_Some in Hconf. simpl in Hconf. rewrite Hid in Hconf. split; [done|].
  apply map_eq. intros k. rewrite live_ids_lookup. simpl. unfold ids_created. rewrite Hid.
  destruct (decide (e_ID e = k)) as [<-|Hne].
  - rewrite lookup_insert_eq. simpl. unfold live_command. rewrite Hcmd, Hdel.
    destruct (_ || _); [by rewrite live_ids_lookup, Hconf|by rewrite lookup_insert_eq].
  - rewrite lookup_insert_ne by done. rewrite <- live_ids_lookup. destruct (_ || _); [done|]. by rewrite lookup_insert_ne.
Qed.

Lemma live_ids_None d k : db_history d !! k = None -> live_ids d !! k = None.
Proof. intros Hk. by rewrite live_ids_lookup, Hk. Qed.

Lemma created_coherent e d d' c :
  coherent d c -> room 4 c -> live_ids d !! e_ID e = None -> live_ids d' = ids_created e (live_ids d) ->
  few (live_ids d') -> coherent d' (ApplyCreated e c).
Proof.
  intros [Hi Hs Hcl Ht Hids] Hroom Hfresh Hd' Hfew.
  destruct (settle_spec _ _ (proj1 (created_spec e c Hi Hroom))) as [[Hi' Hv'] Hs'].
  split; [done|done| | |].
  - change (v_dirty (view (ApplyCreated e c)) = false). unfold ApplyCreated. by rewrite Hv', v_created_dirty.
  - unfold ApplyCreated. rewrite Hv'. apply tallied_created; rewrite ?Hids; [done|by rewrite <- Hd'|done].
  - unfold ApplyCreated. by rewrite Hv', v_created_ids, Hids.
Qed.

Lemma completed_coherent id exit d d' c :
  coherent d c -> live_ids d' = live_ids d -> coherent d' (ApplyCompleted id now exit c).
Proof.
  intros [Hi Hs Hcl Ht Hids] Hd'. destruct (completed_spec id (UnixMilli now) exit c Hi) as [Hi' Hv'].
  unfold ApplyCompleted. split; [done|by apply completed_sorted| | |].
  - change (v_dirty (view (applyCompletedLocked id (UnixMilli now) exit c)) = false). rewrite Hv'.
    unfold v_completed. by case_match.
  - rewrite Hv'. by apply tallied_completed.
  - rewrite Hv', Hd', <- Hids. unfold v_completed. by case_match.
Qed.

(** Deleting identifiers one by one. *)
Lemma tombstone_all_spec l v :
  few (v_ids v) -> tallied v ->
  tallied (v_tombstone_all l v) /\
  forall k, v_ids (v_tombstone_all l v) !! k = if decide (k ∈ l) then None else v_ids v !! k.
Proof.
  revert v. induction l as [|id l IH]; intros v Hfew Ht; [done|]. unfold v_tombstone_all in *. simpl.
  assert (v_ids (v_tombstone_id id v) = delete id (v_ids v)) as Ei.
  { unfold v_tombstone_id. destruct (v_ids v !! id) eqn:E; [done|]. simpl. by rewrite delete_id. }
  destruct (IH (v_tombstone_id id v)) as (Ht' & Hk'); [|by apply tallied_tombstone_id|].
  - rewrite Ei. unfold few in *. rewrite map_size_delete. destruct (v_ids v !! id); unfold Datatypes.id; lia.
  - split; [done|]. intros k. rewrite Hk', Ei.
    destruct (decide (k ∈ l)), (decide (k ∈ id :: l)) as [Hin|Hout]; try done.
    + by destruct Hout; right.
    + apply elem_of_cons in Hin as [->|?]; [by rewrite lookup_delete_eq|done].
    + rewrite lookup_delete_ne; [done|]. intros ->. apply Hout. left.
Qed.

(** Known identifiers leave the view clean. *)
Lemma tombstone_all_clean l v :
  NoDup l -> (forall id, id ∈ l -> is_Some (v_ids v !! id)) -> v_dirty (v_tombstone_all l v) = v_dirty v.
Proof.
  revert v. induction l as [|id l IH]; intros v Hnd Hl; [done|].
  apply NoDup_cons in Hnd as [Hnot Hnd]. unfold v_tombstone_all in *. simpl.
  destruct (Hl id ltac:(left)) as [c Hid]. rewrite IH; [unfold v_tombstone_id; by rewrite Hid|done|].
  intros id' Hid'. unfold v_tombstone_id. rewrite Hid. simpl. rewrite lookup_delete_ne by (intros ->; done).
  apply Hl. by right.
Qed.

Lemma tombstone_rows_history es (s s' : SV) :
  for_each es (tombstone_row enqueueTombstone) s = (s', Ok tt) ->
  db_history (sv_db s') = delete_all (e_ID <$> es) (db_history (sv_db s)) /\ sv_cache s' = sv_cache s.
Proof.
  revert s. induction es as [|e es IH]; intros s E; simpl in E; [by injection E as <-|].
  apply bind_Ok_inv in E as (s1 & [] & E1 & E). destruct (IH _ E) as [Hh Hc]. rewrite Hh, Hc. unfold delete_all. simpl.
  unfold tombstone_row in E1. destruct enqueueTombstone as [f|] eqn:Ef; rewrite sv_sql_run in E1.
  - injection E1 as <- Er. simpl. destruct (f e (sv_db s)) as [d1 r1] eqn:Ed. simpl in Er. subst r1. simpl.
    by rewrite (hq_tombstone f e _ _ eq_refl Ed).
  - by injection E1 as <-.
Qed.

(** The row of every listed entry is live, and all live rows of the command are listed. *)
Lemma listed_live cmd d k :
  history_wf (db_history d) -> cmd <> EmptyString ->
  k ∈ (e_ID <$> ListByCommand cmd d) <-> live_ids d !! k = Some cmd.
Proof.
  intros Hwf Hcmd. rewrite ListByCommand_ids by done. rewrite live_ids_lookup, bind_Some.
  setoid_rewrite live_command_Some. naive_solver.
Qed.

Lemma ListByCommand_command cmd d e : e ∈ ListByCommand cmd d -> e_Command e = cmd.
Proof.
  unfold ListByCommand, scanEntries. intros (r & -> & Hr)%list_elem_of_fmap. rewrite sort_slice_perm in Hr.
  apply list_elem_of_In, filter_In in Hr as [_ [_ Hc%String.eqb_eq]%andb_true_iff]. done.
Qed.

Lemma entry_commands_one cmd es :
  cmd <> EmptyString -> es <> [] -> (forall e, e ∈ es -> e_Command e = cmd) -> entry_commands es = [cmd].
Proof.
  intros Hcmd Hne Hes. unfold entry_commands.
  assert (list_to_set (C := gset string) (List.filter (fun c => negb (str_empty c)) (e_Command <$> es)) = {[cmd]}) as ->;
    [|apply elements_singleton].
  apply set_eq. intros x. rewrite elem_of_list_to_set, elem_of_singleton, list_elem_of_In, filter_In, <- list_elem_of_In.
  rewrite list_elem_of_fmap. split.
  - intros [(e & -> & He) _]. auto.
  - intros ->. split; [|by destruct cmd]. destruct es as [|e es]; [done|]. exists e. split; [|left].
    symmetry. apply Hes. left.
Qed.

Lemma live_ids_size d : (size (live_ids d) <= size (db_history d))%nat.
Proof. unfold live_ids. rewrite map_size_fmap. apply map_subseteq_size, map_filter_subseteq. Qed.

Lemma tombstoned_coherent cmd d d' c :
  coherent d c -> history_wf (db_history d) -> few (live_ids d) -> cmd <> EmptyString ->
  db_history d' = delete_all (e_ID <$> ListByCommand cmd d) (db_history d) ->
  coherent d' (ApplyTombstoneCommand cmd (ApplyTombstoned (e_ID <$> ListByCommand cmd d) c)).
Proof.
  intros [Hi Hs Hcl Ht Hids] Hwf Hfew Hcmd Hd'. set (l := e_ID <$> ListByCommand cmd d) in *.
  destruct (ApplyTombstoned_spec l c Hi) as [[Hi1 Hv1] Hs1].
  destruct (tombstone_all_spec l (view c)) as (Ht1 & Hk1); [by rewrite Hids|done|].
  assert (v_dirty (v_tombstone_all l (view c)) = v_dirty (view c)) as Hd1.
  { apply tombstone_all_clean; [by apply ListByCommand_NoDup|]. intros id Hin. rewrite Hids. exists cmd.
    by apply (listed_live cmd d). }
  destruct (ApplyTombstoneCommand_spec cmd _ Hi1 Hs1) as [[Hi2 Hv2] Hs2]. rewrite Hv1 in Hv2.
  destruct (tombstone_command_ids cmd _ Ht1) as [Hids2 Hd2].
  split; [done|done| | |].
  - change (v_dirty (view (ApplyTombstoneCommand cmd (ApplyTombstoned l c))) = false). rewrite Hv2, Hd2, Hd1. exact Hcl.
  - rewrite Hv2. by apply tallied_tombstone_command.
  - rewrite Hv2, Hids2. apply map_eq. intros k. rewrite map_lookup_filter, Hk1, Hids.
    rewrite (live_ids_lookup d'), Hd', delete_all_lookup. case_decide as Hin.
    + destruct (db_history d !! k); done.
    + rewrite <- live_ids_lookup. destruct (live_ids d !! k) as [x|] eqn:Hx; simpl; [|done].
      rewrite option_guard_True; [done|]. simpl. intros ->. apply Hin. by apply listed_live.
Qed.

Lemma batch_coherent created d d' c :
  coherent d c -> room (4 * length created) c -> fresh_chain created (live_ids d) ->
  live_ids d' = ids_all created (live_ids d) -> few (live_ids d') ->
  coherent d' (ApplyBatch (mkChangeSet created [] [] []) c).
Proof.
  intros [Hi Hs Hcl Ht Hids] Hroom Hfresh Hd' Hfew.
  destruct (batch_spec (mkChangeSet created [] [] []) c Hi Hroom) as [[Hi' Hv'] Hs']. unfold v_batch in Hv'. simpl in Hv'.
  destruct (create_all_ids created (view c)) as [Eids Ed].
  split; [done|done| | |].
  - change (v_dirty (view (ApplyBatch (mkChangeSet created [] [] []) c)) = false). rewrite Hv'. unfold v_tombstone_all.
    simpl. by rewrite Ed.
  - rewrite Hv'. change (tallied (v_create_all created (view c))). apply create_all_tallied; rewrite ?Hids; [done|by rewrite <- Hd'|done].
  - rewrite Hv', Hd', <- Hids. exact Eids.
Qed.

Lemma ids_all_grows l m : (size (ids_all l m) <= size m + length l)%nat.
Proof.
  revert m. induction l as [|e l IH]; intros m; unfold ids_all in *; simpl; [lia|]. etrans; [apply IH|].
  unfold ids_created. destruct (_ || _); [lia|]. pose proof (map_size_insert (e_ID e) (e_Command e) m) as E.
  destruct (m !! e_ID e); unfold id in E; simpl in *; lia.
Qed.

Notation import_entry := (import_entry regexp_Compile MatchString env fl deviceID enqueueCreated now NewV7).

Lemma import_entry_spec n e (s s' : SV) out :
  import_entry n e s = (s', Ok out) ->
  sv_cache s' = sv_cache s /\
  match out with
  | None => live_ids (sv_db s') = live_ids (sv_db s)
  | Some e' => live_ids (sv_db s) !! e_ID e' = None /\ live_ids (sv_db s') = ids_created e' (live_ids (sv_db s))
  end.
Proof.
  unfold import_entry. intros E. apply bind_Ok_inv in E as (s1 & sk & E1 & E).
  destruct (skip_spec _ _ _ _ E1) as [Hdb Hca]. rewrite <- Hdb, <- Hca. clear Hdb Hca E1.
  destruct sk; [by injection E as <- <-|]. apply bind_Ok_inv in E as (s2 & id & E2 & E).
  assert (s2 = s1) as -> by (destruct (str_empty (e_ID e)); by inversion E2).
  clear E2. set (e1 := if str_empty _ then _ else _) in E. apply bind_Ok_inv in E as (s3 & ok & E3 & E).
  rewrite sv_sql_run in E3. injection E3 as <- Eok. destruct (Insert now e1 (sv_db s1)) as [d1 r1] eqn:Ei. simpl in *.
  subst r1. destruct ok; simpl in E.
  - apply bind_Ok_inv in E as (s4 & [] & E4 & E). injection E as <- <-.
    destruct (enqueue_spec _ _ _ _ E4) as [Hc Hl]. simpl in *. rewrite Hc, Hl. split; [done|].
    destruct (Insert_live _ _ _ Ei) as [Hnone Hlive]. split; [by apply live_ids_None|done].
  - injection E as <- <-. simpl. split; [done|]. apply live_ids_ext. unfold Insert, InsertExec in Ei.
    destruct (intern_entry _ _) as [i r]. case_match; [|done]. by injection Ei as <-.
Qed.

Lemma import_loop_spec l (s s' : SV) created :
  collect (fun '(n, e) => import_entry n e) l s = (s', Ok created) ->
  sv_cache s' = sv_cache s /\ fresh_chain created (live_ids (sv_db s)) /\
  live_ids (sv_db s') = ids_all created (live_ids (sv_db s)) /\ (length created <= length l)%nat.
Proof.
  revert s created. induction l as [|[n e] l IH]; intros s created E; simpl in E; [by injection E as <- <-|].
  apply bind_Ok_inv in E as (s1 & out & E1 & E). apply bind_Ok_inv in E as (s2 & rest & E2 & E). injection E as <- <-.
  destruct (import_entry_spec _ _ _ _ _ E1) as [Hc Hout]. destruct (IH _ _ E2) as (Hc' & Hf & Hl & Hlen).
  rewrite Hc', Hc. destruct out as [e'|].
  - destruct Hout as [Hnone Hlive]. rewrite Hlive in Hf, Hl. split_and!; [done|split; done|done|simpl; lia].
  - rewrite Hout in Hf, Hl. split_and!; [done|done|done|simpl; lia].
Qed.

(** A commit after which the cache may be dirty: it is then rebuilt. *)
Lemma afterCommit_rebuilds u (s s' : SV) r :
  afterCommit pragma u s = (s', r) -> history_wf (db_history (sv_db s)) -> few (live_ids (sv_db s)) ->
  room (4 * length (ScanLive (sv_db s))) NewCache ->
  (c_dirty (u (sv_cache s)) = false -> coherent (sv_db s) (u (sv_cache s))) -> in_step s'.
Proof.
  intros E Hwf Hfew Hroom Hc. destruct (c_dirty (u (sv_cache s))) eqn:Ed.
  - unfold afterCommit in E. erewrite bind_Ok in E by reflexivity. erewrite bind_Ok in E by reflexivity.
    simpl in E. rewrite Ed in E. injection E as <- _. by apply Rebuild_coherent.
  - by destruct (afterCommit_spec _ _ _ _ E (Hc eq_refl)).
Qed.

Lemma delete_all_wf ids h : history_wf h -> history_wf (delete_all ids h).
Proof.
  apply rewrites_wf. intros k. rewrite delete_all_lookup. destruct (h !! k) as [r|] eqn:E; simpl.
  - case_decide; exists r; split; [done|apply hr_set_deleted_refines|done|apply row_refines_refl].
  - by case_decide.
Qed.

Lemma delete_all_live ids d d' k :
  db_history d' = delete_all ids (db_history d) -> live_ids d' !! k = if decide (k ∈ ids) then None else live_ids d !! k.
Proof.
  intros E. rewrite (live_ids_lookup d'), E, delete_all_lookup. case_decide; [by destruct (db_history d !! k)|].
  by rewrite live_ids_lookup.
Qed.

(** Deleting rows of which only the identifiers are known. *)
Lemma tombstone_ids_in_step ids (s s' : SV) :
  in_step s -> history_wf (db_history (sv_db s)) -> few (live_ids (sv_db s)) ->
  (forall d, db_history d = delete_all ids (db_history (sv_db s)) -> room (4 * length (ScanLive d)) NewCache) ->
  Service_TombstoneEntries enqueueTombstone pragma ((fun id => with_ID id entry_zero) <$> ids) s = (s', Ok tt) -> in_step s'.
Proof.
  intros Hs Hwf Hfew Hroom E. set (es := (fun id => with_ID id entry_zero) <$> ids) in *.
  assert (e_ID <$> es = ids) as Hids by (unfold es; rewrite <- list_fmap_compose; apply list_fmap_id).
  assert (entry_commands es = []) as Hcmds.
  { unfold entry_commands. assert (List.filter (fun c => negb (str_empty c)) (e_Command <$> es) = []) as ->; [|apply elements_empty].
    unfold es. clear. by induction ids. }
  assert (es = [] \/ (_ ← for_each es (tombstone_row enqueueTombstone);
    afterCommit pragma (fun c => foldl (fun c cmd => ApplyTombstoneCommand cmd c) (ApplyTombstoned (e_ID <$> es) c) (entry_commands es)))
    s = (s', Ok tt)) as [He|E'].
  { unfold Service_TombstoneEntries in E. destruct es; auto. }
  { rewrite He in E. by injection E as <-. }
  apply bind_Ok_inv in E' as (s1 & [] & E1 & E2). destruct (tombstone_rows_history _ _ _ E1) as [Hh Hc].
  rewrite Hids in *. rewrite Hcmds in E2. destruct Hs as [Hi Hso Hcl Ht Hv].
  assert (forall k, live_ids (sv_db s1) !! k = if decide (k ∈ ids) then None else live_ids (sv_db s) !! k) as Hlive
    by (intros k; by apply delete_all_live).
  assert (few (live_ids (sv_db s1))) as Hfew1.
  { unfold few in *. apply Z.le_lt_trans with (Z.of_nat (size (live_ids (sv_db s)))); [|done]. apply Nat2Z.inj_le, map_subseteq_size.
    apply map_subseteq_spec. intros k x. rewrite Hlive. by case_decide. }
  eapply (afterCommit_rebuilds _ _ _ _ E2); [rewrite Hh; by apply delete_all_wf|done|by apply Hroom|].
  rewrite Hc. simpl. intros Hclean. destruct (ApplyTombstoned_spec ids (sv_cache s) Hi) as [[Hi1 Hv1] Hs1].
  destruct (tombstone_all_spec ids (view (sv_cache s))) as [Ht1 Hk1]; [by rewrite Hv|done|].
  split; [done|done|done|by rewrite Hv1|]. rewrite Hv1. apply map_eq. intros k. by rewrite Hk1, Hlive, Hv.
Qed.

(** *** The statements *)

Inductive service_write :=
  | WStart (command cwd session shell : string)
  | WComplete (id : string) (exit : Z)
  | WTombstone (command : string)
  | WImport (entries : list Entry).

Definition write_run (w : service_write) : M SV unit :=
  match w with
  | WStart command cwd session shell =>
      _ ← StartCommand regexp_Compile MatchString env fl deviceID host wd enqueueCreated now NewV7 pragma
            command cwd session shell; mret tt
  | WComplete id exit => CompleteCommand now pragma id exit
  | WTombstone command => Service_TombstoneCommand enqueueTombstone pragma command
  | WImport entries =>
      _ ← Import regexp_Compile MatchString env fl deviceID enqueueCreated now NewV7 pragma entries; mret tt
  end.

(** How many rows a write may add. *)
Definition write_size (w : service_write) : nat :=
  match w with WStart _ _ _ _ => 1 | WImport entries => length entries | _ => O end.

(** The row of a started command is not one [INSERT OR IGNORE] drops as a
    duplicate (same command, directory, device and millisecond). *)
Definition write_inserts (w : service_write) (s : SV) : Prop :=
  match w with
  | WStart command cwd session shell =>
      forall id, NewV7 0 = Ok id ->
        (Insert now (started_entry deviceID host now id command (if str_empty cwd then wd else cwd) session shell)
           (sv_db s)).2 = Ok true
  | _ => True
  end.

Lemma start_in_step command cwd session shell (s s' : SV) id :
  in_step s -> few (ids_all [started_entry deviceID host now id command (if str_empty cwd then wd else cwd) session shell]
                      (live_ids (sv_db s))) -> room 4 (sv_cache s) -> write_inserts (WStart command cwd session shell) s ->
  StartCommand regexp_Compile MatchString env fl deviceID host wd enqueueCreated now NewV7 pragma
    command cwd session shell s = (s', Ok id) -> in_step s'.
Proof.
  intros Hs Hfew Hroom Hins E. unfold StartCommand in E. apply bind_Ok_inv in E as (s0 & id0 & E0 & E).
  injection E0 as <- Eid. apply bind_Ok_inv in E as (s1 & sk & E1 & E). destruct (skip_spec _ _ _ _ E1) as [Hdb Hca].
  rewrite <- Hdb, <- Hca in Hs. destruct sk; [by injection E as <- <-|]. apply bind_Ok_inv in E as (s2 & b & E2 & E).
  rewrite sv_sql_run in E2. apply bind_Ok_inv in E as (s3 & [] & E3 & E). apply bind_Ok_inv in E as (s4 & [] & E4 & E).
  injection E as <- <-. set (e := started_entry _ _ _ _ _ _ _ _) in *.
  injection E2 as <- Eb. specialize (Hins id0 Eid). fold e in Hins. rewrite Hdb in Eb, E3.
  destruct (Insert now e (sv_db s)) as [d2 r2] eqn:Ei. simpl in *. subst r2. injection Eb as <-.
  destruct (Insert_live _ _ _ Ei) as [Hnone Hlive]. destruct (enqueue_spec _ _ _ _ E3) as [Hc3 Hl3]. simpl in *.
  destruct (afterCommit_spec _ _ _ _ E4) as [Hin _]; [|done]. rewrite Hc3. rewrite Hdb in Hs.
  apply (created_coherent e (sv_db s) (sv_db s3)); [done|by rewrite Hca|by apply live_ids_None|by rewrite Hl3|].
  by rewrite Hl3, Hlive.
Qed.

Lemma complete_in_step id exit (s s' : SV) :
  in_step s -> CompleteCommand now pragma id exit s = (s', Ok tt) -> in_step s'.
Proof.
  intros Hs E. unfold CompleteCommand in E. destruct (str_empty id); [by injection E as <-|].
  apply bind_Ok_inv in E as (s1 & [] & E1 & E). rewrite sv_sql_run in E1. injection E1 as <-.
  destruct (afterCommit_spec _ _ _ _ E) as [Hin _]; [|done]. simpl. apply (completed_coherent id exit (sv_db s)); [done|].
  eapply live_ids_alter; [done|]. done.
Qed.

Lemma tombstone_in_step command (s s' : SV) :
  in_step s -> history_wf (db_history (sv_db s)) -> few (live_ids (sv_db s)) ->
  Service_TombstoneCommand enqueueTombstone pragma command s = (s', Ok tt) -> in_step s'.
Proof.
  intros Hs Hwf Hfew E. unfold Service_TombstoneCommand in E. destruct (decide (command = EmptyString)) as [->|Hne];
    [by injection E as <-|]. replace (str_empty command) with false in E by by destruct command.
  erewrite bind_Ok in E by reflexivity. unfold Service_TombstoneEntries in E.
  destruct (ListByCommand command (sv_db s)) as [|e es] eqn:El; [by injection E as <-|]. rewrite <- El in E.
  apply bind_Ok_inv in E as (s1 & [] & E1 & E). destruct (tombstone_rows_history _ _ _ E1) as [Hh Hc].
  destruct (afterCommit_spec _ _ _ _ E) as [Hin _]; [|done]. rewrite Hc.
  rewrite (entry_commands_one command); [|done|by rewrite El|intros e' He'; by eapply ListByCommand_command].
  by apply (tombstoned_coherent command (sv_db s)).
Qed.

Lemma import_in_step entries (s s' : SV) n :
  in_step s -> Z.of_nat (size (live_ids (sv_db s)) + length entries) < 2^31 ->
  room (4 * length entries) (sv_cache s) ->
  Import regexp_Compile MatchString env fl deviceID enqueueCreated now NewV7 pragma entries s = (s', Ok n) -> in_step s'.
Proof.
  intros Hs Hfew Hroom E. unfold Import in E. apply bind_Ok_inv in E as (s1 & created & E1 & E).
  apply bind_Ok_inv in E as (s2 & [] & E2 & E). injection E as <- _.
  destruct (import_loop_spec _ _ _ _ E1) as (Hc & Hf & Hl & Hlen). rewrite length_imap in Hlen.
  destruct (afterCommit_spec _ _ _ _ E2) as [Hin _]; [|done]. rewrite Hc. unfold room in Hroom.
  apply (batch_coherent created (sv_db s)); [done|unfold room; lia|done|done|]. unfold few.
  pose proof (ids_all_grows created (live_ids (sv_db s))). rewrite Hl. lia.
Qed.


(** ** The queries *)

(** The commands of the live rows, once each. *)
Definition live_commands (d : DB) : gset string := map_img (live_ids d).

Lemma tallied_dom v : tallied v -> forall cmd, is_Some (v_cmds v !! cmd) <-> cmd ∈ (map_img (v_ids v) : gset string).
Proof.
  intros Hv cmd. rewrite elem_of_map_img. specialize (Hv cmd). split.
  - intros [sm Hsm]. rewrite Hsm in Hv. simpl in Hv. unfold tally in Hv.
    destruct (count_of cmd (v_ids v)) as [|n] eqn:En; [done|]. unfold count_of in En.
    destruct (map_choose (filter (fun kc : string * string => kc.2 = cmd) (v_ids v))) as (k & x & Hk).
    { intros E. rewrite E, map_size_empty in En. done. }
    apply map_lookup_filter_Some in Hk as [Hk Hx]. simpl in Hx. subst x. eauto.
  - intros [k Hk]. pose proof (count_of_pos _ _ _ Hk) as Hpos. unfold tally in Hv.
    rewrite (proj2 (Nat.eqb_neq _ _)) in Hv by lia. destruct (v_cmds v !! cmd); [eauto|done].
Qed.

Lemma coherent_commands d c : coherent d c -> (map_to_list (v_cmds (view c))).*1 ≡ₚ elements (live_commands d).
Proof.
  intros [Hi Hs Hcl Ht Hids]. apply NoDup_Permutation; [apply NoDup_fst_map_to_list|apply NoDup_elements|].
  intros cmd. rewrite elem_of_elements. unfold live_commands. rewrite <- Hids, <- (tallied_dom _ Ht).
  rewrite list_elem_of_fmap. split.
  - intros ([k sm] & -> & Hk%elem_of_map_to_list). by exists sm.
  - intros [sm Hk]. exists (cmd, sm). split; [done|]. by apply elem_of_map_to_list.
Qed.

Lemma str_weak_order l : weak_order_on str_lt l.
Proof.
  split; [intros x y _ _; apply str_lt_asym|]. intros x y z _ _ _ H1 H2. destruct (str_lt z x) eqn:E; [|done].
  destruct (str_lt y z) eqn:E2; [by rewrite (str_lt_trans _ _ _ E2 E) in H1|].
  by rewrite (str_lt_total _ _ H2 E2), H1 in E.
Qed.

Lemma coherent_sorted d c :
  coherent d c -> (v_sorted (view c)).*1 = sort_slice str_lt (elements (live_commands d)).
Proof.
  intros Hc. unfold v_sorted. rewrite <- (sort_slice_fmap _ str_lt fst) by done.
  apply sort_slice_canonical; [apply str_weak_order| |by apply coherent_commands].
  intros x y _ _ H1 H2. exact (str_lt_total _ _ H1 H2).
Qed.

Lemma filter_fmap_fst {A B} (p : A -> bool) (l : list (A * B)) :
  (List.filter (fun x => p x.1) l).*1 = List.filter p l.*1.
Proof. induction l as [|x l IH]; [done|]. simpl. destruct (p x.1); simpl; [f_equal|]; exact IH. Qed.

(** The reference: filter all live commands in byte order. *)
Definition suggestions (prefix : string) (d : DB) : list string :=
  take 64 (List.filter (fun cmd => has_prefix prefix cmd && negb (String.eqb cmd prefix))
    (sort_slice str_lt (elements (live_commands d)))).

Lemma Suggest_coherent prefix d c :
  coherent d c -> prefix <> EmptyString -> e_Command <$> Cache_Suggest prefix c = suggestions prefix d.
Proof.
  intros Hc Hp. unfold Cache_Suggest. rewrite (co_clean _ _ Hc). replace (str_empty prefix) with false by by destruct prefix.
  simpl. rewrite (prefixEntries_reference prefix c (co_inv _ _ Hc) (co_sorted _ _ Hc)).
  rewrite <- list_fmap_compose. unfold suggestions, v_suggest. rewrite <- (coherent_sorted d c Hc), <- filter_fmap_fst.
  rewrite <- fmap_take. apply list_fmap_ext. by intros i [cmd sm] _.
Qed.

Lemma AllUnique_coherent d c : coherent d c -> e_Command <$> AllUnique c ≡ₚ elements (live_commands d).
Proof.
  intros Hc. rewrite <- (coherent_commands d c Hc). unfold AllUnique. rewrite (co_clean _ _ Hc).
  rewrite <- list_fmap_compose. simpl. unfold cmds_of. rewrite map_to_list_to_map.
  - by rewrite <- list_fmap_compose.
  - rewrite <- list_fmap_compose. apply cmds_NoDup. apply Hc.
Qed.

(** The cache is in step, or the service can tell that it is not. *)
Definition fresh_or_known (v : Z) (s : SV) : Prop :=
  in_step s \/ c_dirty (sv_cache s) = true \/ (sv_dataVersion s <> 0 /\ v <> sv_dataVersion s).

Lemma EnsureFresh_spec v (s : SV) :
  history_wf (db_history (sv_db s)) -> few (live_ids (sv_db s)) -> room (4 * length (ScanLive (sv_db s))) NewCache ->
  fresh_or_known v s ->
  exists s', EnsureFresh (Ok v) s = (s', Ok tt) /\ in_step s' /\ sv_db s' = sv_db s.
Proof.
  intros Hwf Hfew Hroom Hs. unfold EnsureFresh. erewrite bind_Ok by reflexivity.
  destruct (c_dirty (sv_cache s)) eqn:Ed.
  { eexists. split; [reflexivity|]. split; [by apply Rebuild_coherent|done]. }
  erewrite bind_Ok by reflexivity. erewrite bind_Ok by reflexivity.
  destruct (negb _ && _) eqn:E.
  { eexists. split; [reflexivity|]. split; [by apply Rebuild_coherent|done]. }
  exists s. split; [done|]. split; [|done]. destruct Hs as [?|[?|[H1 H2]]]; [done|congruence|].
  apply andb_false_iff in E as [E%negb_false_iff%Z.eqb_eq|E%negb_false_iff%Z.eqb_eq]; congruence.
Qed.

(** A query of the history service is answered from the live rows: after a rebuild when the cache
    is marked dirty or another process has changed the database, and at once otherwise, the
    suggestions for a prefix are the first 64 live commands in byte order that extend it, and the
    search candidates are all live commands, once each. *)
Theorem queries_answer_live (prefix : string) (v : Z) (s : SV) :
  prefix <> EmptyString -> history_wf (db_history (sv_db s)) -> few (live_ids (sv_db s)) ->
  room (4 * length (ScanLive (sv_db s))) NewCache -> fresh_or_known v s ->
  exists s' es all, SuggestCandidates (Ok v) prefix s = (s', Ok es) /\
    SearchCandidates (Ok v) s = (s', Ok all) /\ sv_db s' = sv_db s /\
    e_Command <$> es = suggestions prefix (sv_db s) /\ e_Command <$> all ≡ₚ elements (live_commands (sv_db s)).
Proof.
  intros Hp Hwf Hfew Hroom Hs. destruct (EnsureFresh_spec v s Hwf Hfew Hroom Hs) as (s' & E & Hin & Hdb).
  unfold SuggestCandidates, SearchCandidates. replace (str_empty prefix) with false by by destruct prefix.
  exists s', (Cache_Suggest prefix (sv_cache s')), (AllUnique (sv_cache s')).
  rewrite !(bind_Ok _ _ _ _ _ E), <- Hdb. split_and!; [done..|by apply Suggest_coherent|by apply AllUnique_coherent].
Qed.
End ServiceSpec.
