(* ===== verification/Search.v ===== *)
(** [internal/search/rank.go]: the ranking of history entries for a query. A
    term matches a command as a subsequence; the score is the class of the
    worst match (prefix, substring, scattered) less the spans of the matches,
    plus what the context adds (recency, frequency, directory, device,
    session). [strings.ToLower] is a parameter: every statement holds for any
    case folding. *)

From S2P Require Import Prelude Database Text Utf8 Service.

Record ScoreParts := mkParts {
  sp_Match : Z; sp_Recency : Z; sp_Frequency : Z; sp_Cwd : Z; sp_Device : Z; sp_Session : Z;
}.
Record Result := mkResult { r_Entry : Entry; r_Score : Z; r_Parts : ScoreParts }.
Record SContext := mkContext {
  x_Now : Time; x_Cwd : string; x_DeviceID : string; x_SessionID : string; x_Freq : option (gmap string Z);
}.

Definition classFuzzy : Z := 1.
Definition classSubstring : Z := 2.
Definition classPrefix : Z := 3.
Definition classWeight : Z := 1000000.
Definition recencyWeight : Z := 200.
Definition freqWeight : Z := 80.
Definition cwdWeight : Z := 400.
Definition deviceWeight : Z := 80.
Definition sessionWeight : Z := 120.

Definition Frequency (entries : list Entry) : gmap string Z :=
  foldl (fun m e => <[e_Command e := default 0 (m !! e_Command e) + 1]> m) ∅ entries.

(** [t.Sub(u)] saturates at the largest and the smallest duration. *)
Definition time_Sub (t u : Time) : Z := Z.max (-2^63) (Z.min (2^63 - 1) (t - u)).

(** [int(age.Hours() / 24)] is the number of whole days: the division in
    floating point is exact enough below 31 days, and beyond them the score is
    zero either way. *)
Definition whole_days (age : Z) : Z := age / 86400000000000.

Definition contextParts (e : Entry) (ctx : SContext) : ScoreParts :=
  let age := time_Sub (x_Now ctx) (e_StartTS e) in
  let age := if age <? 0 then 0 else age in
  let rec := 30 - whole_days age in
  let rec := if rec <? 0 then 0 else rec in
  let freq := match x_Freq ctx with
              | None => 0
              | Some m => let n := default 0 (m !! e_Command e) in (if 20 <? n then 20 else n) * freqWeight
              end in
  mkParts 0 (rec * recencyWeight) freq
    (if negb (str_empty (x_Cwd ctx)) && String.eqb (e_Cwd e) (x_Cwd ctx) then cwdWeight else 0)
    (if negb (str_empty (x_DeviceID ctx)) && String.eqb (e_DeviceID e) (x_DeviceID ctx) then deviceWeight else 0)
    (if negb (str_empty (x_SessionID ctx)) && String.eqb (e_SessionID e) (x_SessionID ctx) then sessionWeight else 0).

(** [sort.SliceStable]; the insertion sort of the prelude is stable. *)
Definition result_before (a b : Result) : bool :=
  if r_Score a =? r_Score b then e_StartTS (r_Entry b) <? e_StartTS (r_Entry a) else r_Score b <? r_Score a.
Definition sortResults (out : list Result) : list Result := sort_slice result_before out.

(** ** Spans *)

(** The inner loop: [q] is what is left of the query, [i] the distance from the
    start of the match, [end_] that of the last rune matched. *)
Fixpoint match_rest (q c : list Z) (i end_ : nat) : option nat :=
  match q, c with
  | [], _ => Some end_
  | _, [] => None
  | a :: q', x :: c' =>
      if x =? a then match_rest q' c' (Datatypes.S i) i else match_rest q c' (Datatypes.S i) end_
  end.

(** The outer loop, over the suffixes of the candidate. *)
Fixpoint span_from (a : Z) (q : list Z) (c : list Z) (best : option nat) : option nat :=
  match c with
  | [] => best
  | x :: c' =>
      if negb (x =? a) then span_from a q c' best
      else match match_rest q c' 1 0 with
           | None => best
           | Some end_ =>
               let span := Datatypes.S end_ in
               let best := match best with Some b => if (span <? b)%nat then span else b | None => span end in
               if (best =? Datatypes.S (length q))%nat then Some best else span_from a q c' (Some best)
           end
  end.

Definition minSpan (q c : list Z) : Z * bool :=
  match q with
  | [] => (0, true)
  | a :: q => match span_from a q c None with Some n => (Z.of_nat n, true) | None => (0, false) end
  end.

Definition matchClass (term candidate : string) : Z :=
  if has_prefix term candidate then classPrefix
  else if str_contains term candidate then classSubstring
  else classFuzzy.

Section Rank.
Context (ToLower : string -> string).

(** The loop over the terms: the sum of the spans and the lowest class. *)
Fixpoint score_terms (cl : string) (cr : list Z) (terms : list string) (bestClass spanSum : Z) : option (Z * Z) :=
  match terms with
  | [] => Some (bestClass, spanSum)
  | term :: terms =>
      let '(span, ok) := minSpan (runes term) cr in
      if negb ok then None
      else let c := matchClass term cl in
           score_terms cl cr terms (if c <? bestClass then c else bestClass) (spanSum + span)
  end.

Definition fuzzyScore (query candidate : string) : option Z :=
  let terms := fields (ToLower query) in
  match terms with
  | [] => Some 0
  | _ =>
      let cl := ToLower candidate in
      (fun '(bestClass, spanSum) => bestClass * classWeight - spanSum)
        <$> score_terms cl (runes cl) terms classPrefix 0
  end.

Definition context_score (p : ScoreParts) : Z :=
  sp_Recency p + sp_Frequency p + sp_Cwd p + sp_Device p + sp_Session p.

Definition with_match (m : Z) (p : ScoreParts) : ScoreParts :=
  mkParts m (sp_Recency p) (sp_Frequency p) (sp_Cwd p) (sp_Device p) (sp_Session p).

(** The defaults [RankWith] fills in; [now] is the clock. *)
Definition fill_context (now : Time) (entries : list Entry) (ctx : SContext) : SContext :=
  mkContext (if time_IsZero (x_Now ctx) then now else x_Now ctx) (x_Cwd ctx) (x_DeviceID ctx) (x_SessionID ctx)
    (Some (match x_Freq ctx with Some m => m | None => Frequency entries end)).

Definition context_result (ctx : SContext) (e : Entry) : Result :=
  let p := contextParts e ctx in mkResult e (context_score p) p.

Definition fuzzy_result (q : string) (ctx : SContext) (e : Entry) : option Result :=
  match fuzzyScore q (e_Command e) with
  | None => None
  | Some m => let p := with_match m (contextParts e ctx) in Some (mkResult e (m + context_score p) p)
  end.

Definition exact_result (ql : string) (e : Entry) : option Result :=
  if str_contains ql (ToLower (e_Command e)) then Some (mkResult e 1 (mkParts 1 0 0 0 0 0)) else None.

Definition RankWith (now : Time) (query : string) (entries : list Entry) (exact : bool) (ctx : SContext) : list Result :=
  let ctx := fill_context now entries ctx in
  let q := trim_space query in
  if str_empty q then sortResults (context_result ctx <$> entries)
  else if exact then omap (exact_result (ToLower q)) entries
  else sortResults (omap (fuzzy_result q ctx) entries).

Definition empty_context : SContext := mkContext time_zero "" "" "" None.
Definition Rank (now : Time) (query : string) (entries : list Entry) (exact : bool) : list Result :=
  RankWith now query entries exact empty_context.

(** The loop of [Suggestions]: [n] more may be added. *)
Fixpoint take_unseen (prefix : string) (ranked : list Result) (seen : gset string) (n : nat) : list string :=
  match ranked with
  | [] => []
  | r :: ranked =>
      let cmd := e_Command (r_Entry r) in
      if String.eqb cmd prefix || bool_decide (cmd ∈ seen) then take_unseen prefix ranked seen n
      else match n with
           | O | Datatypes.S O => [cmd]
           | Datatypes.S n => cmd :: take_unseen prefix ranked ({[cmd]} ∪ seen) n
           end
  end.

Definition Suggestions (now : Time) (prefix : string) (entries : list Entry) (ctx : SContext) (limit : Z) : list string :=
  let limit := if limit <=? 0 then 8 else limit in
  take_unseen prefix (RankWith now prefix entries false ctx) ∅ (Z.to_nat limit).

Definition BestSuggestion (now : Time) (prefix : string) (entries : list Entry) (ctx : SContext) : string :=
  default EmptyString (head (Suggestions now prefix entries ctx 1)).
End Rank.

(** ** The span is the shortest window *)

(** [w] is a contiguous part of [c]. *)
Definition window (w c : list Z) : Prop := exists l r, c = l ++ w ++ r.

(** Greedy matching finds the shortest prefix that holds the query. *)
Lemma match_rest_prefix q c i e n :
  q <> [] -> match_rest q c i e = Some n ->
  exists k, n = (i + k)%nat /\ (k < length c)%nat /\ q `sublist_of` take (Datatypes.S k) c /\
    forall m, q `sublist_of` take m c -> (Datatypes.S k <= m)%nat.
Proof.
  revert q i e. induction c as [|x c IH]; intros q i e Hq E; [by destruct q|].
  destruct q as [|a q]; [done|]. cbn [match_rest] in E. destruct (Z.eqb_spec x a) as [->|Hne].
  - destruct q as [|b q].
    + assert (n = i) as -> by (destruct c; by injection E). exists O. split; [lia|]. split; [simpl; lia|].
      split; [by apply sublist_skip, sublist_nil_l|]. intros [|m] Hm; [by apply sublist_nil_r in Hm|lia].
    + destruct (IH (b :: q) _ _ ltac:(done) E) as (k & -> & Hk & Hsub & Hmin). exists (Datatypes.S k).
      split; [lia|]. split; [simpl; lia|]. split; [by apply sublist_skip|].
      intros [|m] Hm; [by apply sublist_nil_r in Hm|]. simpl in Hm.
      apply le_n_S, Hmin. apply sublist_cons_r in Hm as [Hm|(l & [= <-] & Hm)]; [|done].
      etrans; [|exact Hm]. by apply sublist_cons.
  - destruct (IH (a :: q) _ _ ltac:(done) E) as (k & -> & Hk & Hsub & Hmin). exists (Datatypes.S k).
    split; [lia|]. split; [simpl; lia|]. split; [by apply sublist_cons|].
    intros [|m] Hm; [by apply sublist_nil_r in Hm|]. simpl in Hm. apply le_n_S, Hmin.
    by apply sublist_cons_r in Hm as [Hm|(l & [= <- <-] & Hm)].
Qed.

Lemma match_rest_None q c i e : match_rest q c i e = None -> ~ q `sublist_of` c.
Proof.
  revert q i e. induction c as [|x c IH]; intros q i e E Hs; destruct q as [|a q]; try done.
  { by apply sublist_nil_r in Hs. }
  cbn [match_rest] in E. destruct (Z.eqb_spec x a) as [->|Hne].
  - apply (IH _ _ _ E). apply sublist_cons_r in Hs as [Hs|(l & [= <-] & Hs)]; [|done].
    etrans; [|exact Hs]. by apply sublist_cons.
  - apply (IH _ _ _ E). by apply sublist_cons_r in Hs as [Hs|(l & [= <- <-] & Hs)].
Qed.

(** What the outer loop has established: [b] is the least length of a prefix
    of a suffix from here on, or what was found before. *)
Definition shortest (q c : list Z) (n : nat) : Prop :=
  (exists w, window w c /\ q `sublist_of` w /\ length w = n) /\
  forall w, window w c -> q `sublist_of` w -> (n <= length w)%nat.

Lemma window_cons w x c : window w (x :: c) <-> (exists m, w = take m (x :: c)) \/ window w c.
Proof.
  split.
  - intros ([|y l] & r & E); simpl in E.
    + left. exists (length w). by rewrite E, take_app_length.
    + right. injection E as -> ->. by exists l, r.
  - intros [[m ->]|(l & r & ->)]; [exists [], (drop m (x :: c)); by rewrite take_drop|by exists (x :: l), r].
Qed.

(** The windows that begin at the head of the candidate. *)
Lemma head_window (a : Z) q x c m :
  a :: q `sublist_of` take m (x :: c) -> x <> a -> a :: q `sublist_of` take (m - 1) c.
Proof.
  destruct m as [|m]; [by intros ?%sublist_nil_r|]. simpl. rewrite Nat.sub_0_r.
  intros [?|(l & [= <- <-] & ?)]%sublist_cons_r Hne; done.
Qed.

Lemma take_window {A} m (c : list A) : (length (take m c) <= m)%nat.
Proof. rewrite length_take. lia. Qed.

Lemma window_take m c : window (take m c) c.
Proof. exists [], (drop m c). by rewrite take_drop. Qed.

(** A window at the head that does not start with the first rune can be
    shortened from the left. *)
Lemma best_skip (a : Z) q x c (P : nat -> Prop) :
  x <> a ->
  (forall w, window w c -> a :: q `sublist_of` w -> P (length w)) ->
  (forall n m, P n -> (n <= m)%nat -> P m) ->
  forall w, window w (x :: c) -> a :: q `sublist_of` w -> P (length w).
Proof.
  intros Hne Hall Hup w [[m ->]|Hw]%window_cons Hs; [|auto].
  pose proof (head_window _ _ _ _ _ Hs Hne) as Hs'. eapply Hup; [apply Hall; [apply window_take|exact Hs']|].
  rewrite !length_take. simpl. lia.
Qed.


(** No window is shorter than the query. *)
Lemma window_length (q w : list Z) : q `sublist_of` w -> (length q <= length w)%nat.
Proof. apply sublist_length. Qed.

Lemma window_sublist (q w c : list Z) : window w c -> q `sublist_of` w -> q `sublist_of` c.
Proof. intros (l & r & ->) Hq. etrans; [exact Hq|]. etrans; [apply sublist_inserts_r|apply sublist_inserts_l]; done. Qed.

Lemma window_tail w x c : window w c -> window w (x :: c).
Proof. intros (l & r & ->). by exists (x :: l), r. Qed.

(** The match that starts at the head. *)
Lemma match_rest_head a q c n :
  match_rest q c 1 0 = Some n ->
  (exists w, window w (a :: c) /\ a :: q `sublist_of` w /\ length w = Datatypes.S n) /\
  forall m, a :: q `sublist_of` take m (a :: c) -> (Datatypes.S n <= m)%nat.
Proof.
  intros E. destruct q as [|b q].
  - assert (n = O) as -> by (destruct c; by injection E). split.
    + exists [a]. split; [by exists [], c|done].
    + intros [|m] Hm; [by apply sublist_nil_r in Hm|lia].
  - destruct (match_rest_prefix (b :: q) c 1 0 n) as (k & -> & Hk & Hsub & Hmin); [done|done|]. split.
    + exists (take (Datatypes.S (Datatypes.S k)) (a :: c)). split; [apply window_take|].
      split; [by apply sublist_skip|]. rewrite length_take. cbn [length]. lia.
    + intros [|m] Hm; [by apply sublist_nil_r in Hm|]. simpl in Hm. apply le_n_S. apply Hmin.
      apply sublist_cons_r in Hm as [Hm|(l & [= <-] & Hm)]; [|done]. etrans; [|exact Hm]. by apply sublist_cons.
Qed.

Lemma match_rest_head_None a q c : match_rest q c 1 0 = None -> ~ a :: q `sublist_of` a :: c.
Proof.
  intros E Hs. apply (match_rest_None _ _ _ _ E).
  apply sublist_cons_r in Hs as [Hs|(l & [= <-] & Hs)]; [|done]. etrans; [|exact Hs]. by apply sublist_cons.
Qed.

Lemma span_from_spec a q c best n :
  span_from a q c best = Some n -> (forall b, best = Some b -> (Datatypes.S (length q) < b)%nat) ->
  (forall b, best = Some b -> (n <= b)%nat) /\
  (best = Some n \/ exists w, window w c /\ a :: q `sublist_of` w /\ length w = n) /\
  (forall w, window w c -> a :: q `sublist_of` w -> (n <= length w)%nat).
Proof.
  revert best. induction c as [|x c IH]; intros best E Hbest.
  { simpl in E. subst best. split; [by intros b [= <-]|]. split; [by left|]. intros w (l & r & Hw) Hs.
    destruct l, w; try done. by apply sublist_nil_r in Hs. }
  cbn [span_from] in E. destruct (Z.eqb_spec x a) as [->|Hne]; cbn [negb] in E.
  2: { destruct (IH _ E Hbest) as (H1 & H2 & H3). split; [done|]. split.
       - destruct H2 as [?|(w & Hw & Hs & Hl)]; [by left|]. right. exists w. split; [by apply window_tail|done].
       - eapply (best_skip a q x c (fun k => (n <= k)%nat)); [done|done|intros; lia]. }
  destruct (match_rest q c 1 0) as [end_|] eqn:Em.
  2: { subst best. split; [by intros b [= <-]|]. split; [by left|]. intros w Hw Hs. exfalso.
       apply (match_rest_head_None a q c Em). by eapply window_sublist. }
  destruct (match_rest_head a q c end_ Em) as [(w0 & Hw0 & Hs0 & Hl0) Hmin].
  set (best' := match best with Some b => if (Datatypes.S end_ <? b)%nat then Datatypes.S end_ else b | None => Datatypes.S end_ end) in E.
  assert ((best' <= Datatypes.S end_)%nat /\ (forall b, best = Some b -> (best' <= b)%nat) /\
    (best = Some best' \/ best' = Datatypes.S end_)) as (Hb1 & Hb2 & Hb3).
  { unfold best'. destruct best as [b|]; [|naive_solver].
    destruct (Nat.ltb_spec (Datatypes.S end_) b); (split; [lia|]; split; [intros ? [= <-]; lia|auto]). }
  assert (forall w, window w (a :: c) -> a :: q `sublist_of` w -> (Datatypes.S (length q) <= length w)%nat) as Hlow
    by (intros w _ Hs; exact (window_length _ _ Hs)).
  destruct (Nat.eqb_spec best' (Datatypes.S (length q))) as [Heq|Hneq].
  { injection E as <-. split; [done|]. split; [destruct Hb3 as [?| ->]; [by left|right; eauto]|].
    intros w Hw Hs. rewrite Heq. auto. }
  destruct (IH _ E) as (H1 & H2 & H3).
  { intros b [= <-]. pose proof (Hlow _ Hw0 Hs0). destruct Hb3 as [Hb|Hb]; [specialize (Hbest _ Hb)|]; lia. }
  specialize (H1 best' eq_refl). split; [intros b Hb; specialize (Hb2 b Hb); lia|]. split.
  - destruct H2 as [[= <-]|(w & Hw & Hs & Hl)]; [destruct Hb3 as [?| ->]; [by left|right; eauto]|].
    right. exists w. split; [by apply window_tail|done].
  - intros w [[m ->]|Hw]%window_cons Hs; [|auto]. rewrite length_take. pose proof (Hmin m Hs) as Hm.
    destruct (Nat.le_gt_cases m (length (a :: c))) as [Hle|Hgt]; [rewrite Nat.min_l by done; lia|].
    rewrite Nat.min_r by lia. rewrite take_ge in Hs by lia. specialize (Hmin (length (a :: c))).
    rewrite take_ge in Hmin by lia. specialize (Hmin Hs). lia.
Qed.

Lemma span_from_None a q c best :
  span_from a q c best = None -> best = None /\ ~ a :: q `sublist_of` c.
Proof.
  revert best. induction c as [|x c IH]; intros best E.
  { split; [done|]. by intros ?%sublist_nil_r. }
  cbn [span_from] in E. destruct (Z.eqb_spec x a) as [->|Hne]; cbn [negb] in E.
  - destruct (match_rest q c 1 0) as [end_|] eqn:Em; [|by split; [|apply match_rest_head_None]].
    destruct (_ =? _)%nat; [done|]. by destruct (IH _ E).
  - destruct (IH _ E) as [-> Hn]. split; [done|]. intros [?|(l & [= <- <-] & ?)]%sublist_cons_r; done.
Qed.

(** minSpan finds a term in a candidate exactly when the term's runes occur in it in order, and
    then returns the length of the shortest contiguous part of the candidate in which they do,
    though the loop matches greedily, stops at the first start without a match and leaves early. *)
Theorem minSpan_shortest (q c : list Z) :
  match minSpan q c with
  | (n, true) => q `sublist_of` c /\ (exists w, window w c /\ q `sublist_of` w /\ Z.of_nat (length w) = n) /\
                 forall w, window w c -> q `sublist_of` w -> n <= Z.of_nat (length w)
  | (_, false) => ~ q `sublist_of` c
  end.
Proof.
  unfold minSpan. destruct q as [|a q].
  - split; [apply sublist_nil_l|]. split; [exists []; split; [by exists [], c|done]|]. intros; lia.
  - destruct (span_from a q c None) as [n|] eqn:E; [|by apply span_from_None in E as [_ ?]].
    destruct (span_from_spec _ _ _ _ _ E) as (_ & [?|(w & Hw & Hs & Hl)] & Hmin); [done|done|].
    split; [by eapply window_sublist|]. split; [exists w; split_and!; [done|done|lia]|].
    intros w' Hw' Hs'. specialize (Hmin w' Hw' Hs'). lia.
Qed.

(** ** Scores *)

Lemma minSpan_le q c n : minSpan q c = (n, true) -> 0 <= n <= Z.of_nat (length c).
Proof.
  unfold minSpan. destruct q as [|a q]; [intros [= <-]; lia|].
  destruct (span_from a q c None) as [k|] eqn:E; [|done]. intros [= <-].
  destruct (span_from_spec _ _ _ _ _ E) as (_ & [?|(w & Hw & Hs & Hl)] & Hmin); [done|done|].
  pose proof (window_sublist _ _ _ Hw Hs) as Hc.
  assert (window c c) as Hcc by (exists [], []; by rewrite app_nil_r). specialize (Hmin c Hcc Hc). lia.
Qed.

Section Scores.
Context (ToLower : string -> string).

(** The class of the worst term. *)
Definition worst_class (cl : string) (terms : list string) (c : Z) : Z :=
  foldl (fun c term => Z.min (matchClass term cl) c) c terms.

Definition query_class (query candidate : string) : Z :=
  worst_class (ToLower candidate) (fields (ToLower query)) classPrefix.

Lemma score_terms_spec cl cr terms b sum b' sum' :
  score_terms cl cr terms b sum = Some (b', sum') ->
  b' = worst_class cl terms b /\ sum <= sum' <= sum + Z.of_nat (length terms) * Z.of_nat (length cr).
Proof.
  revert b sum. induction terms as [|t terms IH]; intros b sum E; simpl in E; [injection E as <- <-; simpl; lia|].
  destruct (minSpan (runes t) cr) as [span ok] eqn:Es. destruct ok; [|done]. simpl in E.
  destruct (IH _ _ E) as [-> Hsum]. pose proof (minSpan_le _ _ _ Es). split; [|simpl length; lia].
  unfold worst_class. simpl. f_equal. destruct (Z.ltb_spec (matchClass t cl) b); lia.
Qed.

Lemma score_terms_some cl cr terms b sum :
  is_Some (score_terms cl cr terms b sum) <-> Forall (fun t => (minSpan (runes t) cr).2 = true) terms.
Proof.
  revert b sum. induction terms as [|t terms IH]; intros b sum; simpl; [split; eauto|].
  rewrite Forall_cons. destruct (minSpan (runes t) cr) as [span ok]. destruct ok; simpl.
  - rewrite IH. naive_solver.
  - split; [by intros [? ?]|by intros [? ?]].
Qed.

(** What the context can add. *)
Definition context_max : Z := 30 * recencyWeight + 20 * freqWeight + cwdWeight + deviceWeight + sessionWeight.

Lemma contextParts_bounds e ctx :
  (forall m k n, x_Freq ctx = Some m -> m !! k = Some n -> 0 <= n) ->
  0 <= context_score (contextParts e ctx) <= context_max.
Proof.
  intros Hf. unfold context_score, contextParts, context_max, recencyWeight, freqWeight, cwdWeight, deviceWeight, sessionWeight.
  cbn [sp_Recency sp_Frequency sp_Cwd sp_Device sp_Session].
  set (age := if time_Sub (x_Now ctx) (e_StartTS e) <? 0 then 0 else time_Sub (x_Now ctx) (e_StartTS e)).
  assert (0 <= whole_days age).
  { apply Z.div_pos; [|done]. unfold age. destruct (Z.ltb_spec (time_Sub (x_Now ctx) (e_StartTS e)) 0); lia. }
  assert (forall m, x_Freq ctx = Some m -> 0 <= default 0 (m !! e_Command e)) as Hn.
  { intros m Hm. destruct (m !! e_Command e) as [n|] eqn:En; simpl; [by eapply Hf|lia]. }
  destruct (x_Freq ctx) as [m|]; [specialize (Hn m eq_refl)|clear Hn];
    repeat match goal with |- context [if ?b <? ?c then _ else _] => destruct (Z.ltb_spec b c) end;
    repeat match goal with |- context [if ?b then _ else _] => destruct b end; lia.
Qed.

Lemma fuzzy_result_inv q ctx e r :
  fuzzy_result ToLower q ctx e = Some r ->
  exists m, fuzzyScore ToLower q (e_Command e) = Some m /\ r_Entry r = e /\
    r_Score r = m + context_score (contextParts e ctx).
Proof. unfold fuzzy_result. destruct (fuzzyScore _ _ _) as [m|]; [|done]. intros [= <-]. by exists m. Qed.

Lemma fuzzyScore_bounds q cmd m :
  fields (ToLower q) <> [] -> fuzzyScore ToLower q cmd = Some m ->
  query_class q cmd * classWeight - Z.of_nat (length (fields (ToLower q))) * Z.of_nat (length (runes (ToLower cmd))) <= m
    <= query_class q cmd * classWeight.
Proof.
  intros Hne E. unfold fuzzyScore in E. destruct (fields (ToLower q)) as [|t ts] eqn:Ef; [done|].
  unfold query_class. rewrite Ef. apply fmap_Some in E as ([b sum] & Hs & ->).
  destruct (score_terms_spec _ _ _ _ _ _ _ Hs) as [-> Hsum]. lia.
Qed.

(** The class of the match decides the order: an entry whose worst term matches in a higher class
    (prefix over substring over scattered) scores above any entry of a lower class, whatever
    recency, frequency, directory, device and session add, as long as the spans of its terms
    stay below the weight of a class less what the context can add (991800 runes). *)
Theorem class_outranks (q : string) (ctx : SContext) (e1 e2 : Entry) (r1 r2 : Result) :
  (forall m k n, x_Freq ctx = Some m -> m !! k = Some n -> 0 <= n) -> fields (ToLower q) <> [] ->
  fuzzy_result ToLower q ctx e1 = Some r1 -> fuzzy_result ToLower q ctx e2 = Some r2 ->
  query_class q (e_Command e2) < query_class q (e_Command e1) ->
  Z.of_nat (length (fields (ToLower q))) * Z.of_nat (length (runes (ToLower (e_Command e1)))) < classWeight - context_max ->
  r_Score r2 < r_Score r1.
Proof.
  intros Hf Hq H1 H2 Hc Hlen. apply fuzzy_result_inv in H1 as (m1 & E1 & _ & ->). apply fuzzy_result_inv in H2 as (m2 & E2 & _ & ->).
  pose proof (fuzzyScore_bounds _ _ _ Hq E1). pose proof (fuzzyScore_bounds _ _ _ Hq E2).
  pose proof (contextParts_bounds e1 ctx Hf). pose proof (contextParts_bounds e2 ctx Hf).
  unfold classWeight in *. lia.
Qed.

(** ** Suggestions *)

Lemma result_weak_order l : weak_order_on result_before l.
Proof.
  unfold result_before. split.
  - intros x y _ _. destruct (Z.eqb_spec (r_Score x) (r_Score y)) as [E|E];
      destruct (Z.eqb_spec (r_Score y) (r_Score x)); try lia; intros Hlt%Z.ltb_lt; apply Z.ltb_ge; lia.
  - intros x y z _ _ _. destruct (Z.eqb_spec (r_Score y) (r_Score x)), (Z.eqb_spec (r_Score z) (r_Score y)),
      (Z.eqb_spec (r_Score z) (r_Score x)); try lia; intros H1%Z.ltb_ge H2%Z.ltb_ge; apply Z.ltb_ge; lia.
Qed.

Lemma take_unseen_spec prefix l seen n :
  (0 < n)%nat ->
  NoDup (take_unseen prefix l seen n) /\ (length (take_unseen prefix l seen n) <= n)%nat /\
  forall cmd, cmd ∈ take_unseen prefix l seen n ->
    cmd <> prefix /\ cmd ∉ seen /\ exists r, r ∈ l /\ e_Command (r_Entry r) = cmd.
Proof.
  revert seen n. induction l as [|r l IH]; intros seen n Hn.
  { simpl. split; [constructor|]. split; [lia|]. by intros cmd ?%not_elem_of_nil. }
  cbn [take_unseen]. set (cmd := e_Command (r_Entry r)).
  destruct (String.eqb_spec cmd prefix) as [Heq|Hne]; simpl.
  { destruct (IH seen n Hn) as (H1 & H2 & H3). split_and!; [done|done|]. intros c Hc.
    destruct (H3 c Hc) as (? & ? & r' & ? & ?). split_and!; [done|done|]. exists r'. split; [by right|done]. }
  case_bool_decide as Hseen.
  { destruct (IH seen n Hn) as (H1 & H2 & H3). split_and!; [done|done|]. intros c Hc.
    destruct (H3 c Hc) as (? & ? & r' & ? & ?). split_and!; [done|done|]. exists r'. split; [by right|done]. }
  destruct n as [|[|n]]; [lia| |].
  { split; [apply NoDup_singleton|]. split; [done|]. intros c ->%list_elem_of_singleton.
    split_and!; [done|done|]. exists r. split; [left|done]. }
  destruct (IH ({[cmd]} ∪ seen) (Datatypes.S n) ltac:(lia)) as (H1 & H2 & H3). split_and!.
  - apply NoDup_cons. split; [|done]. intros Hin. destruct (H3 cmd Hin) as (_ & Hnot & _). set_solver.
  - simpl. lia.
  - intros c [->|Hc]%elem_of_cons; [split_and!; [done|done|]; exists r; split; [left|done]|].
    destruct (H3 c Hc) as (? & ? & r' & ? & ?). split_and!; [done|set_solver|]. exists r'. split; [by right|done].
Qed.

Lemma take_unseen_head prefix l n r :
  StronglySorted (fun x y => result_before y x = false) l -> r ∈ l -> e_Command (r_Entry r) <> prefix ->
  exists r0, head (take_unseen prefix l ∅ n) = Some (e_Command (r_Entry r0)) /\ r0 ∈ l /\ result_before r r0 = false /\
    e_Command (r_Entry r0) <> prefix.
Proof.
  intros Hs. induction Hs as [|x l Hs IH Hx]; intros Hr Hne; [by apply not_elem_of_nil in Hr|].
  cbn [take_unseen]. destruct (String.eqb_spec (e_Command (r_Entry x)) prefix) as [Heq|Hnx]; simpl.
  - apply elem_of_cons in Hr as [->|Hr]; [done|]. destruct (IH Hr Hne) as (r0 & ? & ? & ? & ?).
    exists r0. split_and!; [done|by right|done|done].
  - assert (result_before r x = false).
    { apply elem_of_cons in Hr as [->|Hr]; [|rewrite Forall_forall in Hx; auto].
      unfold result_before. rewrite Z.eqb_refl. apply Z.ltb_irrefl. }
    exists x. split_and!; [by destruct n as [|[|n]]|left|done|done].
Qed.

(** Every suggestion is the command of a candidate. *)
Lemma RankWith_from now query entries exact ctx r :
  r ∈ RankWith ToLower now query entries exact ctx -> r_Entry r ∈ entries.
Proof.
  unfold RankWith, sortResults. destruct (str_empty _).
  { rewrite elem_of_sort_slice. by intros (e & -> & He)%list_elem_of_fmap. }
  destruct exact; [|rewrite elem_of_sort_slice]; intros (e & He & Hr)%list_elem_of_omap.
  - unfold exact_result in Hr. case_match; by simplify_eq.
  - by destruct (fuzzy_result_inv _ _ _ _ Hr) as (m & _ & -> & _).
Qed.

Lemma Suggestions_from now prefix entries ctx limit cmd :
  cmd ∈ Suggestions ToLower now prefix entries ctx limit -> cmd ∈ e_Command <$> entries.
Proof.
  unfold Suggestions. intros Hc. destruct (take_unseen_spec prefix (RankWith ToLower now prefix entries false ctx) ∅
    (Z.to_nat (if limit <=? 0 then 8 else limit))) as (_ & _ & H3); [destruct (Z.leb_spec limit 0); lia|].
  destruct (H3 cmd Hc) as (_ & _ & r & Hr%RankWith_from & <-). by apply list_elem_of_fmap_2.
Qed.

(** The suggestions for a prefix are at most [limit] (8 by default) distinct commands of
    matching entries, none equal to the prefix itself, and the best suggestion belongs to a matching
    entry that no other one outscores. *)
Theorem Suggestions_ranked (now : Time) (prefix : string) (entries : list Entry) (ctx : SContext) (limit : Z) :
  trim_space prefix <> EmptyString ->
  let q := trim_space prefix in
  let ctx' := fill_context now entries ctx in
  let out := Suggestions ToLower now prefix entries ctx limit in
  NoDup out /\ Z.of_nat (length out) <= (if limit <=? 0 then 8 else limit) /\
  (forall cmd, cmd ∈ out -> cmd <> prefix /\
     exists e, e ∈ entries /\ e_Command e = cmd /\ is_Some (fuzzyScore ToLower q cmd)) /\
  (forall e r, e ∈ entries -> fuzzy_result ToLower q ctx' e = Some r -> e_Command e <> prefix ->
     exists e0 r0, e0 ∈ entries /\ fuzzy_result ToLower q ctx' e0 = Some r0 /\ r_Score r <= r_Score r0 /\
       BestSuggestion ToLower now prefix entries ctx = e_Command e0).
Proof.
  intros Hp q ctx' out. unfold out, Suggestions.
  assert (RankWith ToLower now prefix entries false ctx = sortResults (omap (fuzzy_result ToLower q ctx') entries)) as Er.
  { unfold RankWith. fold q ctx'. unfold q in *. by destruct (trim_space prefix). }
  set (l := omap (fuzzy_result ToLower q ctx') entries) in *. rewrite Er.
  set (lim := if limit <=? 0 then 8 else limit). assert (0 < lim) by (unfold lim; destruct (Z.leb_spec limit 0); lia).
  destruct (take_unseen_spec prefix (sortResults l) ∅ (Z.to_nat lim) ltac:(lia)) as (H1 & H2 & H3).
  assert (forall r, r ∈ sortResults l <-> exists e, e ∈ entries /\ fuzzy_result ToLower q ctx' e = Some r) as Hl.
  { intros r. unfold sortResults. rewrite elem_of_sort_slice. unfold l. rewrite list_elem_of_omap. naive_solver. }
  split; [done|]. split; [lia|]. split.
  - intros cmd Hc. destruct (H3 cmd Hc) as (Hne & _ & r & Hr & <-). split; [done|].
    apply Hl in Hr as (e & He & Hr). pose proof (fuzzy_result_inv _ _ _ _ Hr) as (m & Hm & -> & _). eauto.
  - intros e r He Hr Hne. pose proof (fuzzy_result_inv _ _ _ _ Hr) as (m & Hm & Hre & _).
    destruct (take_unseen_head prefix (sortResults l) 1 r) as (r0 & Hh & Hr0 & Hb & _).
    { apply sort_slice_sorted, result_weak_order. }
    { apply Hl. eauto. } { by rewrite Hre. }
    apply Hl in Hr0 as (e0 & He0 & Hr0). pose proof (fuzzy_result_inv _ _ _ _ Hr0) as (m0 & _ & Hre0 & _).
    exists e0, r0. split_and!; [done|done| |].
    + unfold result_before in Hb. destruct (Z.eqb_spec (r_Score r) (r_Score r0)); [lia|]. apply Z.ltb_ge in Hb. lia.
    + unfold BestSuggestion, Suggestions. rewrite Er. simpl. change (Z.to_nat 1) with 1%nat in *. rewrite Hh. simpl. by rewrite Hre0.
Qed.
End Scores.
