(* ===== verification/Redact.v ===== *)
(** [internal/redact/redact.go] and [internal/app/callbacks.go]: masking of
    secrets in logs, status output and callback errors. The two regular
    expressions are deterministic and are written out as scanners over bytes:
    their literals are ASCII, so a match starts and ends at rune boundaries.
    Case folding follows [(?i)] of RE2, where [s] and [k] also match U+017F
    and U+212A. *)

From S2P Require Import Prelude Text Config Service.
From Stdlib Require Import Ascii.

(** ** Literals and classes *)

(** The ways [(?i)] matches a character of a literal. *)
Definition fold_forms (c : ascii) : list string :=
  let l := lower_char c in
  [String l EmptyString; String (upper_char l) EmptyString] ++
  (if Ascii.eqb l "s" then [chr 197 +:+ chr 191] else if Ascii.eqb l "k" then [chr 226 +:+ chr 132 +:+ chr 170] else [])%string.

(** The rest of the input behind one of the forms. *)
Fixpoint match_form (forms : list string) (s : string) : option string :=
  match forms with
  | [] => None
  | f :: forms => if has_prefix f s then Some (str_drop (String.length f) s) else match_form forms s
  end.

(** A literal under [(?i)]: what it matched and what follows. *)
Fixpoint match_fold (lit s : string) : option string :=
  match lit with
  | EmptyString => Some s
  | String c lit => match_form (fold_forms c) s ≫= match_fold lit
  end.

(** [\s] of RE2. *)
Definition re_space (c : ascii) : bool := existsb (N.eqb (code c)) [9; 10; 12; 13; 32]%N.

(** ** The patterns *)

Definition secret_labels : list string :=
  ["password"; "pass"; "token"; "refresh_token"; "access_token"; "client_secret"; "secret_access_key"; "sas_url";
   "connection_string"; "service_account_credentials"; "cookie"; "bearer_token"; "REMNIX_RECOVERY_KEY";
   "RCLONE_CONFIG_PASS"; "AWS_SECRET_ACCESS_KEY"]%string.

(** [\s*[=:]\s*(\S+)]: what follows the match. *)
Definition match_value (s : string) : option string :=
  match skip_while re_space s with
  | String c s =>
      if Ascii.eqb c "=" || Ascii.eqb c ":" then
        let v := skip_while re_space s in
        if str_empty v then None else Some (skip_while (fun c => negb (re_space c)) v)
      else None
  | EmptyString => None
  end.

(** The first alternative for which the whole pattern matches at the front of
    [s]: the text of the label and what follows the match. *)
Fixpoint match_kv (labels : list string) (s : string) : option (string * string) :=
  match labels with
  | [] => None
  | l :: labels =>
      match match_fold l s with
      | Some after =>
          match match_value after with
          | Some rest => Some (str_take (String.length s - String.length after) s, rest)
          | None => match_kv labels s
          end
      | None => match_kv labels s
      end
  end.

(** [remnix1[0-9a-z]+] *)
Definition bech_char (c : ascii) : bool := is_digit c || is_lower c.
Definition match_bech (s : string) : option (string * string) :=
  if has_prefix "remnix1" s then
    let v := str_drop 7 s in
    match v with
    | String c _ => if bech_char c then Some ("remnix1"%string, skip_while bech_char v) else None
    | EmptyString => None
    end
  else None.

Definition kv_ReplaceAll (s : string) : string :=
  replace_matches (match_kv secret_labels) "=***" (String.length s) s.
Definition bech_ReplaceAll (s : string) : string := replace_matches match_bech "***" (String.length s) s.

Definition redact_String (s : string) : string := bech_ReplaceAll (kv_ReplaceAll s).

(** ** Keys of log attributes *)

Definition secretNames : list string :=
  ["password"; "pass"; "token"; "refresh_token"; "access_token"; "client_secret"; "secret_access_key"; "sas_url";
   "connection_string"; "service_account_credentials"; "cookie"; "bearer_token"]%string.

(** [strings.ToLower] as far as ASCII results go: the letters, and the two
    runes outside ASCII whose lower case is an ASCII letter, U+0130 (bytes C4
    B0) and U+212A (bytes E2 84 AA). *)
Fixpoint ToLower_ascii (s : string) : string :=
  match s with
  | EmptyString => EmptyString
  | String c s' =>
      match s' with
      | String d s'' =>
          if (code c =? 196)%N && (code d =? 176)%N then String "i" (ToLower_ascii s'')
          else match s'' with
               | String e s''' =>
                   if (code c =? 226)%N && (code d =? 132)%N && (code e =? 170)%N then String "k" (ToLower_ascii s''')
                   else String (lower_char c) (ToLower_ascii s')
               | EmptyString => String (lower_char c) (ToLower_ascii s')
               end
      | EmptyString => String (lower_char c) EmptyString
      end
  end.

Definition IsSecretKey (name : string) : bool :=
  let n := replace_all (ToLower_ascii (trim_space name)) "-" "_" in
  existsb (fun k => String.eqb n k || has_suffix ("_" +:+ k) n || has_prefix (k +:+ "_") n)%string secretNames ||
  String.eqb n "key" || has_suffix "_key" n.

(** The kinds of [slog.Value] the code tells apart. *)
Inductive slogValue := KindString (s : string) | KindError (text : string) | KindOther.

Definition ReplaceAttr (key : string) (v : slogValue) : slogValue :=
  match v with
  | KindString s => if IsSecretKey key then KindString "***" else KindString (redact_String s)
  | KindError text => KindString (redact_String text)
  | KindOther => KindOther
  end.

(** ** [callbacks.go] *)

(** [\x1b\[[0-9;]*m] *)
Definition match_ansi (s : string) : option (string * string) :=
  match s with
  | String c (String d v) =>
      if (code c =? 27)%N && Ascii.eqb d "[" then
        match skip_while (fun c => is_digit c || Ascii.eqb c ";") v with
        | String e rest => if Ascii.eqb e "m" then Some (EmptyString, rest) else None
        | EmptyString => None
        end
      else None
  | _ => None
  end.
Definition strip_ansi (s : string) : string := replace_matches match_ansi "" (String.length s) s.

(** The last [n] of a list. *)
Definition last_n {A} (n : nat) (l : list A) : list A := drop (length l - n) l.

Definition error_line (ln : string) : bool :=
  let u := ToUpper_ascii ln in str_contains "ERROR" u || str_contains "FAILED" u || str_contains "ABORT" u.

Definition callbackOutputTail (s : string) : string :=
  let s := trim_space (strip_ansi s) in
  if str_empty s then EmptyString
  else
    let lines := split_on nl s in
    let pick := List.filter error_line (trim_space <$> lines) in
    let pick := match pick with
                | [] => List.filter (fun t => negb (str_empty t)) (trim_space <$> last_n 3 lines)
                | _ => last_n 3 pick
                end in
    let out := redact_String (join_with "; " pick) in
    if (400 <? String.length out)%nat then (str_take 400 out +:+ "...")%string else out.

Section Callbacks.
(** Running [sh -c]: the combined output, and the error if there is one. *)
Context (env : Env) (sh : string -> string * option error).

(** The tail stands behind the error in the text; both are kept. *)
Definition callback_error (i : nat) (raw : string) : option error :=
  let raw := trim_space raw in
  if str_empty raw then None
  else
    let '(out, err) := sh (Expand env raw) in
    (fun e => let tail := callbackOutputTail out in
              EWrap ("callback " +:+ pretty (Z.of_nat i + 1)%Z +:+
                (if str_empty tail then "" else ": " +:+ tail))%string e) <$> err.

(** [errors.Join]: nil when there is nothing to join. *)
Fixpoint join_errors (errs : list error) : result unit :=
  match errs with
  | [] => Ok tt
  | e :: errs => match join_errors errs with Ok _ => Fail e | Fail e' => Fail (EJoin e e') end
  end.

Definition runCallbacks (cmds : list string) : result unit :=
  join_errors (omap (fun '(i, raw) => callback_error i raw) (imap pair cmds)).
End Callbacks.

(** ** What a match needs *)

(** Spaces and the two separators. *)
Definition delim (c : ascii) : bool := re_space c || Ascii.eqb c "=" || Ascii.eqb c ":".
Definition is_sep (c : ascii) : bool := Ascii.eqb c "=" || Ascii.eqb c ":".
Definition no_delim (s : string) : bool := str_all (fun c => negb (delim c)) s.
Definition no_sep (s : string) : bool := str_all (fun c => negb (is_sep c)) s.
Definition no_space (s : string) : bool := str_all (fun c => negb (re_space c)) s.
Definition all_space (s : string) : bool := str_all re_space s.

(** A literal none of whose forms holds a delimiter. *)
Definition plain_literal (lit : string) : bool := str_all (fun c => forallb no_delim (fold_forms c)) lit.
Lemma labels_plain : forallb plain_literal secret_labels = true.
Proof. vm_compute. reflexivity. Qed.

Lemma is_sep_delim c : is_sep c = true -> delim c = true.
Proof. unfold is_sep, delim. destruct (re_space c); simpl; [done|]. done. Qed.
Lemma space_delim c : re_space c = true -> delim c = true.
Proof. unfold delim. by intros ->. Qed.
Lemma sep_not_space c : is_sep c = true -> re_space c = false.
Proof. unfold is_sep. intros [->%Ascii.eqb_eq| ->%Ascii.eqb_eq]%orb_true_iff; reflexivity. Qed.

(** A text without delimiters is found before a delimiter or not at all. *)
Lemma has_prefix_before f y d z :
  no_delim f = true -> delim d = true -> has_prefix f (y +:+ String d z) = has_prefix f y.
Proof.
  intros Hf Hd. revert y. induction f as [|c f IH]; intros y; [done|]. simpl in Hf. apply andb_true_iff in Hf as [Hc Hf].
  destruct y as [|x y]; simpl.
  - destruct (Ascii.eqb_spec c d) as [->|?]; [by rewrite Hd in Hc|done].
  - by rewrite (IH Hf).
Qed.

Lemma str_drop_before f y z :
  has_prefix f y = true -> str_drop (String.length f) (y +:+ z) = (str_drop (String.length f) y +:+ z)%string.
Proof.
  revert y. induction f as [|c f IH]; intros y; [done|]. destruct y as [|x y]; [done|]. simpl.
  intros [_ H]%andb_true_iff. by apply IH.
Qed.

Lemma match_form_before forms y d z :
  forallb no_delim forms = true -> delim d = true ->
  match_form forms (y +:+ String d z) = (fun y' => y' +:+ String d z)%string <$> match_form forms y.
Proof.
  intros Hf Hd. induction forms as [|f forms IH]; [done|]. simpl in Hf. apply andb_true_iff in Hf as [H1 H2]. simpl.
  rewrite has_prefix_before by done. destruct (has_prefix f y) eqn:E; [|auto]. simpl. by rewrite str_drop_before.
Qed.

Lemma match_fold_before lit y d z :
  plain_literal lit = true -> delim d = true ->
  match_fold lit (y +:+ String d z) = (fun y' => y' +:+ String d z)%string <$> match_fold lit y.
Proof.
  intros Hl Hd. revert y. induction lit as [|c lit IH]; intros y; [done|]. simpl in Hl.
  apply andb_true_iff in Hl as [H1 H2]. cbn [match_fold]. rewrite match_form_before by done.
  destruct (match_form (fold_forms c) y) as [y'|]; simpl; [by apply IH|done].
Qed.

Lemma str_all_drop p n s : str_all p s = true -> str_all p (str_drop n s) = true.
Proof.
  revert s. induction n as [|n IH]; intros s; [by destruct s|]. destruct s as [|c s]; [done|]. simpl.
  intros [_ H]%andb_true_iff. auto.
Qed.
Lemma match_form_all p forms s s' : match_form forms s = Some s' -> str_all p s = true -> str_all p s' = true.
Proof.
  induction forms as [|f forms IH]; simpl; [done|]. destruct (has_prefix f s); [|auto].
  intros [= <-]. apply str_all_drop.
Qed.
Lemma match_fold_all p lit s s' : match_fold lit s = Some s' -> str_all p s = true -> str_all p s' = true.
Proof.
  revert s. induction lit as [|c lit IH]; intros s; cbn [match_fold]; [by intros [= <-]|].
  intros (s1 & H1 & H2)%bind_Some Hs. eapply IH; [exact H2|]. exact (match_form_all p _ _ _ H1 Hs).
Qed.

Lemma no_delim_no_sep s : no_delim s = true -> no_sep s = true.
Proof.
  unfold no_delim, no_sep. induction s as [|c s IH]; simpl; [done|]. intros [Hc Hs]%andb_true_iff.
  rewrite (IH Hs), andb_true_r. unfold delim in Hc. unfold is_sep. by destruct (re_space c), (Ascii.eqb c "="), (Ascii.eqb c ":").
Qed.

(** A label that was matched holds no separator. *)
Lemma match_fold_label lit s : plain_literal lit = true -> match_fold lit s = Some EmptyString -> no_sep s = true.
Proof.
  revert s. induction lit as [|c lit IH]; intros s Hl; cbn [match_fold]; [by intros [= ->]|].
  cbn [plain_literal str_all] in Hl. apply andb_true_iff in Hl as [H1 H2]. intros (s1 & Hf & Hr)%bind_Some. specialize (IH s1 H2 Hr).
  revert Hf. generalize (fold_forms c) H1. intros forms. induction forms as [|f forms IHf]; simpl; [done|].
  intros [Hd Hds]%andb_true_iff. destruct (has_prefix f s) eqn:E; [|auto]. intros [= <-].
  rewrite (has_prefix_split _ _ E). unfold no_sep. rewrite str_all_app.
  by apply andb_true_iff; split; [apply no_delim_no_sep|].
Qed.

(** ** Progress of the scanners *)

Lemma skip_while_length p s : (String.length (skip_while p s) <= String.length s)%nat.
Proof. induction s as [|c s IH]; simpl; [lia|]. destruct (p c); simpl; lia. Qed.
Lemma match_form_length forms s s' : match_form forms s = Some s' -> (String.length s' <= String.length s)%nat.
Proof.
  induction forms as [|f forms IH]; simpl; [done|]. destruct (has_prefix f s); [|auto].
  intros [= <-]. rewrite str_drop_len. lia.
Qed.
Lemma match_fold_length lit s s' : match_fold lit s = Some s' -> (String.length s' <= String.length s)%nat.
Proof.
  revert s. induction lit as [|c lit IH]; intros s; cbn [match_fold]; [by intros [= <-]|].
  intros (s1 & H1 & H2)%bind_Some. apply match_form_length in H1. apply IH in H2. lia.
Qed.
Lemma match_value_length s r : match_value s = Some r -> (String.length r < String.length s)%nat.
Proof.
  unfold match_value. pose proof (skip_while_length re_space s) as H1. destruct (skip_while re_space s) as [|c s1]; [done|].
  destruct (_ || _); [|done]. destruct (str_empty _); [done|]. intros [= <-].
  pose proof (skip_while_length (fun c => negb (re_space c)) (skip_while re_space s1)).
  pose proof (skip_while_length re_space s1). simpl in *. lia.
Qed.

(** A pattern that consumes something wherever it matches. *)
Definition progresses (m : string -> option (string * string)) : Prop :=
  forall s k r, m s = Some (k, r) -> (String.length r < String.length s)%nat.

Lemma kv_progresses labels : progresses (match_kv labels).
Proof.
  intros s k r. induction labels as [|l labels IH]; simpl; [done|].
  destruct (match_fold l s) as [after|] eqn:E1; [|done]. destruct (match_value after) as [rest|] eqn:E2; [|done].
  intros [= _ <-]. apply match_fold_length in E1. apply match_value_length in E2. lia.
Qed.

Lemma bech_progresses : progresses match_bech.
Proof.
  intros s k r. unfold match_bech. destruct (has_prefix "remnix1" s) eqn:E; [|done].
  pose proof (str_drop_len 7 s) as H7. destruct (str_drop 7 s) as [|c v] eqn:Ev; [done|].
  destruct (bech_char c) eqn:Ec; [|done]. intros [= _ <-]. simpl. rewrite Ec.
  pose proof (skip_while_length bech_char v). simpl in H7. lia.
Qed.

(** The length of the input is fuel enough. *)
Lemma replace_fuel m mask n n' s :
  progresses m -> (String.length s <= n)%nat -> (String.length s <= n')%nat ->
  replace_matches m mask n s = replace_matches m mask n' s.
Proof.
  intros Hm. revert n' s. induction n as [|n IH]; intros n' s H1 H2.
  { destruct s as [|c s]; [|simpl in H1; lia]. by destruct n'. }
  destruct s as [|c s]; [by destruct n'|]. destruct n' as [|n']; [simpl in H2; lia|]. cbn [replace_matches].
  destruct (m (String c s)) as [[k r]|] eqn:E.
  - apply Hm in E. simpl in *. do 2 f_equal. apply IH; lia.
  - simpl in *. f_equal. apply IH; lia.
Qed.

(** ** A secret leaves no trace *)

Lemma skip_while_app p a b :
  skip_while p (a +:+ b) = if str_all p a then skip_while p b else (skip_while p a +:+ b)%string.
Proof. induction a as [|c a IH]; simpl; [done|]. by destruct (p c). Qed.

Section Hide.
Context (ws ws' post : string) (sep : ascii).
Hypothesis (Hsep : is_sep sep = true) (Hws : all_space ws = true) (Hws' : all_space ws' = true).
(** The secret ends where the text ends or a space follows. *)
Hypothesis (Hpost : post = EmptyString \/ exists c p, post = String c p /\ re_space c = true).

Definition secret_ok (s : string) : Prop := s <> EmptyString /\ no_space s = true.
Let tail (secret : string) : string := String sep (ws' +:+ secret +:+ post).

Lemma skip_secret secret :
  secret_ok secret -> skip_while (fun c => negb (re_space c)) (secret +:+ post) = post /\
  skip_while re_space (secret +:+ post) = (secret +:+ post)%string.
Proof.
  intros [Hne Hs]. rewrite skip_while_app. unfold no_space in Hs. rewrite Hs. split.
  - destruct Hpost as [->|(c & p & -> & Hc)]; [done|]. simpl. by rewrite Hc.
  - destruct secret as [|c s]; [done|]. simpl in *. apply andb_true_iff in Hs as [Hc _]. by destruct (re_space c).
Qed.

(** The value pattern behind [x]. *)
Lemma match_value_tail x secret :
  no_sep x = true -> secret_ok secret -> match_value (x +:+ tail secret) = if all_space x then Some post else None.
Proof.
  intros Hx Hok. destruct (skip_secret secret Hok) as [Hskip Hstay]. unfold match_value.
  rewrite skip_while_app. unfold all_space in *. destruct (str_all re_space x) eqn:Ex.
  - unfold tail. simpl. rewrite (sep_not_space sep Hsep). unfold is_sep in Hsep. rewrite Hsep.
    rewrite skip_while_app, Hws', Hstay, Hskip. by destruct secret; [destruct Hok|].
  - assert (exists c r, skip_while re_space x = String c r /\ is_sep c = false) as (c & r & -> & Hc).
    { revert Hx Ex. clear. induction x as [|c x IH]; simpl; [done|]. intros [Hc Hx]%andb_true_iff.
      destruct (re_space c) eqn:E; [auto|]. intros _. exists c, x. split; [done|]. by destruct (is_sep c). }
    simpl. unfold is_sep in Hc. by rewrite Hc.
Qed.

(** The label the scanner finds at the front of [y], if the value follows. *)
Fixpoint label_at (labels : list string) (y : string) : option string :=
  match labels with
  | [] => None
  | l :: labels =>
      match match_fold l y with
      | Some x => if all_space x then Some (str_take (String.length y - String.length x) y) else label_at labels y
      | None => label_at labels y
      end
  end.

Lemma match_kv_tail labels y secret :
  forallb plain_literal labels = true -> no_sep y = true -> secret_ok secret ->
  match_kv labels (y +:+ tail secret) = (fun k => (k, post)) <$> label_at labels y.
Proof.
  intros Hl Hy Hok. induction labels as [|l labels IH]; [done|]. simpl in Hl. apply andb_true_iff in Hl as [H1 H2].
  cbn [match_kv label_at]. unfold tail at 1. rewrite (match_fold_before l y sep _ H1 (is_sep_delim _ Hsep)).
  fold (tail secret). destruct (match_fold l y) as [x|] eqn:Ex; cbn [fmap option_fmap option_map]; [|auto].
  rewrite match_value_tail; [|by eapply match_fold_all|done]. destruct (all_space x); [|auto]. simpl. f_equal. f_equal.
  pose proof (match_fold_length _ _ _ Ex). rewrite !str_length_app, str_take_app_le by lia. f_equal. lia.
Qed.

Definition is_label (l : string) : Prop := exists lit, lit ∈ secret_labels /\ match_fold lit l = Some EmptyString.

Lemma plain_label lit : lit ∈ secret_labels -> plain_literal lit = true.
Proof. intros Hl. pose proof labels_plain as H. rewrite forallb_forall in H. apply H. by apply list_elem_of_In. Qed.

Lemma label_found l : is_label l -> is_Some (label_at secret_labels (l +:+ ws)).
Proof.
  intros (lit & Hin & Hm).
  assert (match_fold lit (l +:+ ws) = Some ws) as Hlit.
  { unfold all_space in Hws. destruct ws as [|c w]; [by rewrite str_app_nil_r|]. simpl in Hws. apply andb_true_iff in Hws as [Hc _].
    rewrite (match_fold_before lit l c w (plain_label _ Hin) (space_delim _ Hc)), Hm. done. }
  revert Hin. generalize secret_labels. intros labels. induction labels as [|l' labels IH]; [by intros ?%not_elem_of_nil|].
  intros [<-|Hin]%elem_of_cons; cbn [label_at]; [rewrite Hlit, Hws; eauto|].
  destruct (match_fold l' _) as [x|]; [destruct (all_space x); eauto|auto].
Qed.

Lemma sep_not_in_space s : all_space s = true -> no_sep s = true.
Proof.
  unfold all_space, no_sep. induction s as [|c s IH]; simpl; [done|]. intros [Hc Hs]%andb_true_iff. rewrite (IH Hs), andb_true_r.
  destruct (is_sep c) eqn:E; [|done]. by rewrite (sep_not_space c E) in Hc.
Qed.

Lemma label_no_sep l : is_label l -> no_sep (l +:+ ws) = true.
Proof.
  intros (lit & Hin & Hm). unfold no_sep. rewrite str_all_app. apply andb_true_iff. split.
  - exact (match_fold_label lit l (plain_label _ Hin) Hm).
  - by apply sep_not_in_space.
Qed.

#[local] Opaque secret_labels.

(** The scan up to and over the secret. *)
Lemma kv_hides pre l s1 s2 n :
  no_sep pre = true -> is_label l -> secret_ok s1 -> secret_ok s2 ->
  (String.length (pre +:+ (l +:+ ws) +:+ tail s1) <= n)%nat -> (String.length (pre +:+ (l +:+ ws) +:+ tail s2) <= n)%nat ->
  replace_matches (match_kv secret_labels) "=***" n (pre +:+ (l +:+ ws) +:+ tail s1) =
  replace_matches (match_kv secret_labels) "=***" n (pre +:+ (l +:+ ws) +:+ tail s2).
Proof.
  intros Hpre Hl H1 H2. pose proof (label_no_sep l Hl) as Hlw. revert pre Hpre.
  induction n as [|n IH]; intros pre Hpre Hn1 Hn2.
  { rewrite !str_length_app in Hn1. simpl in Hn1. lia. }
  assert (forall s, secret_ok s -> exists c r, (pre +:+ (l +:+ ws) +:+ tail s)%string = String c r) as Hne.
  { intros s _. destruct (pre +:+ (l +:+ ws) +:+ tail s)%string eqn:E; [|eauto]. exfalso.
    apply (f_equal String.length) in E. rewrite !str_length_app in E. simpl in E. lia. }
  destruct (Hne s1 H1) as (c1 & r1 & E1). destruct (Hne s2 H2) as (c2 & r2 & E2).
  rewrite E1, E2. cbn [replace_matches]. rewrite <- E1, <- E2, <- !str_app_assoc.
  assert (no_sep ((pre +:+ l) +:+ ws) = true) as Hy.
  { rewrite str_app_assoc. unfold no_sep in *. rewrite str_all_app, Hpre. exact Hlw. }
  rewrite !(match_kv_tail _ _ _ labels_plain Hy) by done.
  destruct (label_at secret_labels ((pre +:+ l) +:+ ws)) as [k|] eqn:Ek; cbn [fmap option_fmap option_map]; [done|].
  destruct pre as [|c pre].
  { change (("" +:+ l) +:+ ws)%string with (l +:+ ws)%string in Ek. destruct (label_found l Hl). congruence. }
  change (String c (pre +:+ (l +:+ ws) +:+ tail s1) = String c1 r1) in E1.
  change (String c (pre +:+ (l +:+ ws) +:+ tail s2) = String c2 r2) in E2.
  injection E1 as <- <-. injection E2 as <- <-. f_equal. simpl in Hpre. apply andb_true_iff in Hpre as [_ Hpre].
  apply IH; [done|simpl in Hn1; lia|simpl in Hn2; lia].
Qed.
End Hide.

(** C35: Redaction keeps no trace of a secret's value: in a text with a label of the list (in any
    case), a separator and a value, two values give the same output, whatever stands behind them;
    nothing before the label may hold a separator of its own. *)
Theorem redact_hides (pre label ws ws' post s1 s2 : string) (sep : ascii) :
  no_sep pre = true -> is_label label -> is_sep sep = true -> all_space ws = true -> all_space ws' = true ->
  (post = EmptyString \/ exists c p, post = String c p /\ re_space c = true) ->
  secret_ok s1 -> secret_ok s2 ->
  redact_String (pre +:+ label +:+ ws +:+ String sep (ws' +:+ s1 +:+ post)) =
  redact_String (pre +:+ label +:+ ws +:+ String sep (ws' +:+ s2 +:+ post)).
Proof.
  intros Hpre Hl Hsep Hws Hws' Hpost H1 H2. unfold redact_String. f_equal. unfold kv_ReplaceAll.
  rewrite <- !(str_app_assoc label ws). set (t s := (pre +:+ (label +:+ ws) +:+ String sep (ws' +:+ s +:+ post))%string).
  fold (t s1) (t s2). set (n := (String.length (t s1) + String.length (t s2))%nat).
  rewrite (replace_fuel _ _ (String.length (t s1)) n), (replace_fuel _ _ (String.length (t s2)) n);
    try apply kv_progresses; try (unfold n; lia).
  apply kv_hides; [done..|unfold n, t; lia|unfold n, t; lia].
Qed.

(** Attribute values under secret keys do not get through, errors do not get through unmasked. *)
Lemma ReplaceAttr_secret key v v' :
  IsSecretKey key = true -> ReplaceAttr key (KindString v) = ReplaceAttr key (KindString v').
Proof. intros Hk. simpl. by rewrite Hk. Qed.

(** The tail of a callback's output is bounded. *)
Lemma callbackOutputTail_length s : (String.length (callbackOutputTail s) <= 403)%nat.
Proof.
  unfold callbackOutputTail. destruct (str_empty _); [simpl; lia|].
  match goal with |- context [if (400 <? String.length ?o)%nat then _ else _] => generalize o end. intros o.
  destruct (Nat.ltb_spec 400 (String.length o)); [|lia]. rewrite str_length_app.
  pose proof (str_take_len 400 o). change (String.length "...") with 3%nat. lia.
Qed.
