(* ===== verification/Terminal.v ===== *)
(** [internal/terminal] ([keyboard.go], [query.go], [resize.go]): the filters on
    the two byte streams of a session. Each keeps an unfinished escape sequence
    until the next chunk. They share one shape, [scan]: at the front of the
    buffer a filter takes a number of bytes and emits something, or waits for
    more. A decision is settled when more input would not change it. *)

From S2P Require Import Prelude Text Utf8.
From Stdlib Require Import Ascii.

Definition ESC : ascii := "027"%char.
Definition esc_ (s : string) : string := String ESC s.

(** ** The shape of a filter *)

Inductive decision (O : Type) :=
  | Take (n : nat) (out : O) (settled : bool)
  | Wait.
Arguments Take {O}. Arguments Wait {O}.

(** The loop over the buffer: what was emitted and what is kept. *)
Fixpoint scan {O} (step : string -> decision O) (fuel : nat) (s : string) : list O * string :=
  match fuel, s with
  | O, _ => ([], s)
  | _, EmptyString => ([], s)
  | Datatypes.S fuel, _ =>
      match step s with
      | Wait => ([], s)
      | Take n out _ => let '(outs, rest) := scan step fuel (str_drop n s) in (out :: outs, rest)
      end
  end.

(** Each round takes at least a byte, so the length is fuel enough. *)
Definition run_scan {O} (step : string -> decision O) (s : string) : list O * string :=
  scan step (String.length s) s.

(** Feeding a chunk: the kept bytes and the chunk are scanned. *)
Definition feed {O} (step : string -> decision O) (hold p : string) : list O * string :=
  run_scan step (hold +:+ p).

(** All decisions of a scan were settled. *)
Fixpoint settled {O} (step : string -> decision O) (fuel : nat) (s : string) : bool :=
  match fuel, s with
  | O, _ => true
  | _, EmptyString => true
  | Datatypes.S fuel, _ =>
      match step s with
      | Wait => true
      | Take n _ b => b && settled step fuel (str_drop n s)
      end
  end.

(** ** Control sequences *)

Definition csiFinal (c : ascii) : bool := in_range 64 126 c.

(** The loop behind [ESC [], from index [j]: the index of the final byte, or
    of a control byte that cancels the sequence ([false]). *)
Fixpoint csi_end (s : string) (j : nat) : option (nat * bool) :=
  match s with
  | EmptyString => None
  | String c s =>
      if csiFinal c then Some (j, true)
      else if (code c <? 32)%N then Some (j, false)
      else csi_end s (Datatypes.S j)
  end.

Definition str_last (s : string) : ascii := default NUL (str_at (String.length s - 1) s).
(** [s[i:j]] *)
Definition str_slice (i j : nat) (s : string) : string := str_take (j - i) (str_drop i s).

(** ** [kittyKeyDecoder]: user input *)

Definition kittyHoldMax : nat := 256.

Definition kittyKeyToLegacy (key mods : Z) : string :=
  let bits := (if mods <? 1 then 1 else mods) - 1 in
  let ctrl := negb (Z.land bits 4 =? 0) in
  let alt := negb (Z.land bits 2 =? 0) in
  let shift := negb (Z.land bits 1 =? 0) in
  let b :=
    if key =? 27 then Some (String ESC EmptyString)
    else if key =? 13 then Some (chr 13)
    else if key =? 9 then Some (chr 9)
    else if key =? 127 then Some (chr 127)
    else if (32 <=? key) && (key <? 127) then
      let ch := key in
      let ch := if shift && between 97 122 ch then ch - 32 else ch in
      let ch := if ctrl then
                  if between 97 122 ch then ch - 96
                  else if between 65 90 ch then ch - 64
                  else if (ch =? 32) || (ch =? 64) then 0 else ch
                else ch in
      Some (String (byte_chr ch) EmptyString)
    else if (127 <? key) && (key <? 1114112) then Some (EncodeRune key)
    else None in
  match b with
  | None => EmptyString
  | Some b => if alt && negb (has_prefix (String ESC EmptyString) b) then esc_ b else b
  end.

(** The code points of the third field. *)
Definition kitty_text (field : string) : string :=
  foldl (fun b cp => match Atoi cp with
                     | Some r => if r <=? 0 then b else (b +:+ EncodeRune (wrap32 r))%string
                     | None => b
                     end) EmptyString (split_on ":" field).

(** [None] is the result [false]. *)
Definition decodeKittyKey (seq : string) : option string :=
  let n := String.length seq in
  if (n <? 4)%nat || negb (has_prefix (esc_ "[") seq) || negb (Ascii.eqb (str_last seq) "u") then None
  else
    let body := str_slice 2 (n - 1) seq in
    match body with
    | EmptyString => None
    | String c _ =>
        if existsb (Ascii.eqb c) ["?"; ">"; "<"; "="]%char then Some EmptyString
        else if negb (is_digit c) then None
        else
          let fields := split_on ";" body in
          match Atoi (default EmptyString (head (split_on ":" (default EmptyString (fields !! 0%nat))))) with
          | None => None
          | Some key =>
              if key <? 0 then None
              else
                let f1 := default EmptyString (fields !! 1%nat) in
                let mp := split_on ":" f1 in
                let mods := default 1 (Atoi (default EmptyString (mp !! 0%nat))) in
                let event := default 1 (Atoi (default EmptyString (mp !! 1%nat))) in
                if event =? 3 then Some EmptyString
                else
                  let text := kitty_text (default EmptyString (fields !! 2%nat)) in
                  if str_empty text then Some (kittyKeyToLegacy key mods) else Some text
          end
    end.

(** A complete sequence: focus reports are dropped. *)
Definition kitty_sequence (seq : string) : string :=
  if Ascii.eqb (str_last seq) "I" || Ascii.eqb (str_last seq) "O" then EmptyString
  else default seq (decodeKittyKey seq).

Definition kitty_step (s : string) : decision string :=
  match s with
  | EmptyString => Wait
  | String c s1 =>
      if negb (Ascii.eqb c ESC) then Take 1 (String c EmptyString) true
      else match s1 with
           | EmptyString => Take 1 (String ESC EmptyString) false
           | String d s2 =>
               if negb (Ascii.eqb d "[") then Take 2 (String c (String d EmptyString)) true
               else match csi_end s2 2 with
                    | Some (j, false) => Take j (str_take j s) true
                    | Some (j, true) => Take (Datatypes.S j) (kitty_sequence (str_take (Datatypes.S j) s)) true
                    | None => if (kittyHoldMax <? String.length s)%nat then Take (String.length s) s false else Wait
                    end
           end
  end.

Fixpoint str_concat (l : list string) : string :=
  match l with [] => EmptyString | s :: l => (s +:+ str_concat l)%string end.

(** [kittyKeyDecoder.feed]: the new hold and the output. *)
Definition kittyKeyDecoder_feed (hold p : string) : string * string :=
  let '(outs, rest) := feed kitty_step hold p in (rest, str_concat outs).

(** ** [keyboardModeStripper]: session output *)

Definition kittySetEnables (body : string) : bool :=
  match body with
  | String "=" rest =>
      if str_empty rest then true
      else let rest := match cut ";" rest with Some (a, _) => a | None => rest end in
           match Atoi rest with None => true | Some n => negb (n =? 0) end
  | _ => true
  end.

Definition modifyOtherKeysEnables (body : string) : bool :=
  match str_drop 2 body with
  | EmptyString => false
  | String c rest =>
      if negb (Ascii.eqb c ";") then true
      else match rest with EmptyString => false | String d _ => negb (Ascii.eqb d "0") end
  end.

Definition keyboardModeCSI (seq : string) : bool :=
  let n := String.length seq in
  if (n <? 4)%nat || negb (has_prefix (esc_ "[") seq) then false
  else
    let fin := str_last seq in
    let body := str_slice 2 (n - 1) seq in
    if Ascii.eqb fin "u" && negb (str_empty body) then
      match body with
      | String "?" _ => true
      | String ">" _ => true
      | String "<" _ => false
      | String "=" _ => kittySetEnables body
      | _ => false
      end
    else if Ascii.eqb fin "m" && has_prefix ">4" body &&
            match str_drop 2 body with EmptyString => true | String c _ => Ascii.eqb c ";" end
    then modifyOtherKeysEnables body
    else false.

Definition focusOff_sequence : string := esc_ "[?1004l".

(** The rewritten sequence ([None] to drop it) and whether reporting is to be
    turned off. *)
Definition rewriteFocusTracking (seq : string) : option string * bool :=
  let n := String.length seq in
  let fin := str_last seq in
  if (n <? 5)%nat || negb (has_prefix (esc_ "[?") seq) || negb (Ascii.eqb fin "h" || Ascii.eqb fin "l")
  then (Some seq, false)
  else
    let parts := split_on ";" (str_slice 3 (n - 1) seq) in
    let kept := List.filter (fun p => negb (String.eqb p "1004") && negb (str_empty p)) parts in
    let rebuilt := (esc_ "[?" +:+ join_with ";" kept +:+ String fin EmptyString)%string in
    if negb (existsb (String.eqb "1004") parts) then (Some seq, false)
    else if Ascii.eqb fin "l" then
      match kept with [] => (Some seq, false) | _ => (Some rebuilt, false) end
    else match kept with [] => (None, true) | _ => (Some rebuilt, true) end.

Definition strip_sequence (seq : string) : string :=
  if keyboardModeCSI seq then EmptyString
  else
    let '(rewritten, focusOff) := rewriteFocusTracking seq in
    (default EmptyString rewritten +:+ if focusOff then focusOff_sequence else EmptyString)%string.

Definition strip_step (s : string) : decision string :=
  match s with
  | EmptyString => Wait
  | String c s1 =>
      if negb (Ascii.eqb c ESC) then Take 1 (String c EmptyString) true
      else match s1 with
           | EmptyString => Wait
           | String d s2 =>
               if negb (Ascii.eqb d "[") then Take 2 (String c (String d EmptyString)) true
               else match csi_end s2 2 with
                    | Some (j, false) => Take j EmptyString true
                    | Some (j, true) => Take (Datatypes.S j) (strip_sequence (str_take (Datatypes.S j) s)) true
                    | None => if (64 <? String.length s)%nat then Take 1 (String c EmptyString) false else Wait
                    end
           end
  end.

Definition keyboardModeStripper_feed (hold p : string) : string * string :=
  let '(outs, rest) := feed strip_step hold p in (rest, str_concat outs).

(** ** [queryScanner]: probes in the session output *)

(** The first index from [j] at which the string is terminated by BEL or [ESC \]. *)
Fixpoint osc_end (prev : ascii) (s : string) (j : nat) : option nat :=
  match s with
  | EmptyString => None
  | String c s =>
      if (code c =? 7)%N || (Ascii.eqb prev ESC && Ascii.eqb c "\") then Some j else osc_end c s (Datatypes.S j)
  end.

Inductive query := Reply (reply : string) | CPR.

Definition replyCSI (s : string) : query :=
  let fin := str_last s in
  let body := str_slice 2 (String.length s - 1) s in
  if Ascii.eqb fin "n" then
    if String.eqb body "6" then CPR
    else if String.eqb body "5" then Reply (esc_ "[0n") else Reply EmptyString
  else if Ascii.eqb fin "c" then
    if str_empty body || String.eqb body "0" then Reply (esc_ "[?1;2c")
    else if has_prefix ">" body then Reply (esc_ "[>0;1c") else Reply EmptyString
  else if Ascii.eqb fin "u" then
    if String.eqb body "?" then Reply (esc_ "[?0u") else Reply EmptyString
  else Reply EmptyString.

(** The loop of the CSI case has no cancellation. *)
Fixpoint csi_final_at (s : string) (j : nat) : option nat :=
  match s with
  | EmptyString => None
  | String c s => if csiFinal c then Some j else csi_final_at s (Datatypes.S j)
  end.

Definition consumeQuery (s : string) : option (nat * query) :=
  match s with
  | String c (String d s2) =>
      if negb (Ascii.eqb c ESC) then None
      else if Ascii.eqb d "[" then
        (fun i => (Datatypes.S i, replyCSI (str_take (Datatypes.S i) s))) <$> csi_final_at s2 2
      else if Ascii.eqb d "]" || Ascii.eqb d "P" then
        (fun i => (Datatypes.S i, Reply EmptyString)) <$> osc_end d s2 2
      else Some (2%nat, Reply EmptyString)
  | _ => None
  end.

(** Bytes before the next [ESC] are passed over one by one, where the code
    jumps with [bytes.IndexByte]. The output carries the bytes taken. *)
Definition query_step (s : string) : decision (nat * query) :=
  match s with
  | EmptyString => Wait
  | String c _ =>
      if negb (Ascii.eqb c ESC) then Take 1 (1%nat, Reply EmptyString) true
      else match consumeQuery s with
           | Some (n, q) => Take n (n, q) true
           | None => if (128 <? String.length s)%nat then Take 1 (1%nat, Reply EmptyString) false else Wait
           end
  end.

Definition query_replies (l : list (nat * query)) : string :=
  str_concat ((fun '(_, q) => match q with Reply r => r | CPR => EmptyString end) <$> l).

(** Where in the chunk the position requests end; [prefix] bytes were held. *)
Fixpoint cpr_ends (prefix plen pos : nat) (l : list (nat * query)) : list nat :=
  match l with
  | [] => []
  | (n, q) :: l =>
      let end_ := (pos + n)%nat in
      match q with
      | CPR => Nat.min plen (end_ - prefix) :: cpr_ends prefix plen end_ l
      | Reply _ => cpr_ends prefix plen end_ l
      end
  end.

Definition queryScanner_feed (buf p : string) : string * (string * list nat) :=
  let '(l, rest) := feed query_step buf p in
  (rest, (query_replies l, cpr_ends (String.length buf) (String.length p) 0 l)).

Definition cprCell (pos max : Z) : Z :=
  let n := pos + 1 in
  let n := if n <? 1 then 1 else n in
  if (1 <=? max) && (max <? n) then max else n.

Definition formatCPR (rows cols cursorRow cursorCol : Z) : string :=
  let rows := if rows <? 1 then 1 else rows in
  let cols := if cols <? 1 then 1 else cols in
  (esc_ "[" +:+ pretty (cprCell cursorRow rows) +:+ ";" +:+ pretty (cprCell cursorCol cols) +:+ "R")%string.

(** ** Chunks do not matter *)

Class Filter {O} (step : string -> decision O) : Prop := {
  f_empty : step EmptyString = Wait;
  f_progress : forall s n out b, step s = Take n out b -> (1 <= n <= String.length s)%nat;
  f_settled : forall s n out t, step s = Take n out true -> step (s +:+ t) = Take n out true;
}.

Section Chunks.
Context {O : Type} (step : string -> decision O) `{!Filter step}.

(** One round, for any fuel that suffices. *)
Lemma run_scan_step s :
  run_scan step s = match step s with
                    | Wait => ([], s)
                    | Take n out _ => let '(outs, rest) := run_scan step (str_drop n s) in (out :: outs, rest)
                    end.
Proof.
  assert (forall f f' s, (String.length s <= f)%nat -> (String.length s <= f')%nat -> scan step f s = scan step f' s) as Hfuel.
  { clear s. induction f as [|f IH]; intros f' s H1 H2.
    { destruct s; [by destruct f'|simpl in H1; lia]. }
    destruct s as [|c s]; [by destruct f'|]. destruct f' as [|f']; [simpl in H2; lia|]. cbn [scan].
    destruct (step (String c s)) as [n out b|] eqn:E; [|done]. apply f_progress in E. rewrite (IH f'); [done|..];
      rewrite str_drop_len; simpl in *; lia. }
  unfold run_scan at 1. destruct s as [|c s]; [by rewrite f_empty|]. cbn [String.length scan].
  destruct (step (String c s)) as [n out b|] eqn:E; [|done]. apply f_progress in E. unfold run_scan.
  rewrite (Hfuel _ (String.length (str_drop n (String c s)))); [done| |done]. rewrite str_drop_len. simpl in *. lia.
Qed.

Definition settled_scan (s : string) : bool := settled step (String.length s) s.

Lemma settled_step s n out b : step s = Take n out b -> settled_scan s = b && settled_scan (str_drop n s).
Proof.
  intros E. assert (forall f f' s, (String.length s <= f)%nat -> (String.length s <= f')%nat -> settled step f s = settled step f' s) as Hfuel.
  { clear s n out b E. induction f as [|f IH]; intros f' s H1 H2.
    { destruct s; [by destruct f'|simpl in H1; lia]. }
    destruct s as [|c s]; [by destruct f'|]. destruct f' as [|f']; [simpl in H2; lia|]. cbn [settled].
    destruct (step (String c s)) as [n out b|] eqn:E; [|done]. apply f_progress in E. f_equal. apply IH;
      rewrite str_drop_len; simpl in *; lia. }
  unfold settled_scan. destruct s as [|c s]; [by rewrite f_empty in E|]. cbn [String.length settled]. rewrite E.
  apply f_progress in E. f_equal. apply Hfuel; [|done]. rewrite str_drop_len. simpl in *. lia.
Qed.

(** Scanning in two parts. *)
Lemma run_scan_app a b :
  settled_scan a = true ->
  run_scan step (a +:+ b) =
    let '(o1, r1) := run_scan step a in let '(o2, r2) := run_scan step (r1 +:+ b) in (o1 ++ o2, r2).
Proof.
  remember (String.length a) as n eqn:Hn. revert a Hn. induction (Nat.lt_wf_0 n) as [n _ IH]. intros a -> Hset.
  rewrite (run_scan_step a). destruct (step a) as [k out s|] eqn:E.
  - rewrite (settled_step _ _ _ _ E) in Hset. apply andb_true_iff in Hset as [-> Hset].
    rewrite (run_scan_step (a +:+ b)), (f_settled _ _ _ b E). pose proof (f_progress _ _ _ _ E).
    rewrite str_drop_app_le by lia. rewrite (IH (String.length (str_drop k a))); [|rewrite str_drop_len; lia|done|done].
    destruct (run_scan step (str_drop k a)) as [o1 r1]. by destruct (run_scan step (r1 +:+ b)) as [o2 r2].
  - by destruct (run_scan step (a +:+ b)).
Qed.

(** Feeding chunk after chunk, and that every decision on the way is settled. *)
Fixpoint feed_all (hold : string) (chunks : list string) : list O * string :=
  match chunks with
  | [] => ([], hold)
  | p :: chunks => let '(o1, r1) := feed step hold p in let '(o2, r2) := feed_all r1 chunks in (o1 ++ o2, r2)
  end.
Fixpoint settled_all (hold : string) (chunks : list string) : bool :=
  match chunks with
  | [] => true
  | p :: chunks => settled_scan (hold +:+ p) && settled_all (feed step hold p).2 chunks
  end.

Lemma feed_all_chunks hold chunks :
  run_scan step hold = ([], hold) -> settled_all hold chunks = true ->
  feed_all hold chunks = run_scan step (hold +:+ str_concat chunks).
Proof.
  revert hold. induction chunks as [|p chunks IH]; intros hold Hh Hs; simpl.
  { by rewrite str_app_nil_r, Hh. }
  simpl in Hs. apply andb_true_iff in Hs as [H1 H2]. unfold feed in *.
  rewrite <- str_app_assoc, (run_scan_app (hold +:+ p)) by done. destruct (run_scan step (hold +:+ p)) as [o1 r1] eqn:E. simpl in H2.
  rewrite IH; [done| |done]. pose proof (run_scan_app (hold +:+ p) EmptyString H1) as Hr.
  rewrite str_app_nil_r, E, str_app_nil_r in Hr. destruct (run_scan step r1) as [o2 r2]. injection Hr as Ho ->.
  f_equal. apply (app_inv_head o1). by rewrite app_nil_r.
Qed.
End Chunks.

(** *** The three filters *)

Lemma csi_end_bound s j k b : csi_end s j = Some (k, b) -> (j <= k < j + String.length s)%nat.
Proof.
  revert j. induction s as [|c s IH]; intros j; simpl; [done|]. destruct (csiFinal c); [intros [= <- _]; lia|].
  destruct (_ <? _)%N; [intros [= <- _]; lia|]. intros H%IH. lia.
Qed.
Lemma csi_end_app s t j r : csi_end s j = Some r -> csi_end (s +:+ t) j = Some r.
Proof. revert j. induction s as [|c s IH]; intros j; simpl; [done|]. destruct (csiFinal c); [done|]. destruct (_ <? _)%N; auto. Qed.
Lemma csi_final_bound s j k : csi_final_at s j = Some k -> (j <= k < j + String.length s)%nat.
Proof.
  revert j. induction s as [|c s IH]; intros j; simpl; [done|]. destruct (csiFinal c); [intros [= <-]; lia|]. intros H%IH. lia.
Qed.
Lemma csi_final_app s t j r : csi_final_at s j = Some r -> csi_final_at (s +:+ t) j = Some r.
Proof. revert j. induction s as [|c s IH]; intros j; simpl; [done|]. destruct (csiFinal c); auto. Qed.
Lemma osc_end_bound p s j k : osc_end p s j = Some k -> (j <= k < j + String.length s)%nat.
Proof.
  revert p j. induction s as [|c s IH]; intros p j; simpl; [done|]. destruct (_ || _); [intros [= <-]; lia|]. intros H%IH. lia.
Qed.
Lemma osc_end_app p s t j r : osc_end p s j = Some r -> osc_end p (s +:+ t) j = Some r.
Proof. revert p j. induction s as [|c s IH]; intros p j; simpl; [done|]. destruct (_ || _); auto. Qed.

#[global] Instance kitty_filter : Filter kitty_step.
Proof.
  split; [done| |].
  - intros [|c [|d s]] n out b; simpl; [done| |].
    { destruct (negb _); intros [= <- _ _]; lia. }
    destruct (negb (Ascii.eqb c ESC)); [intros [= <- _ _]; lia|]. destruct (negb _); [intros [= <- _ _]; lia|].
    destruct (csi_end s 2) as [[j []]|] eqn:E; [apply csi_end_bound in E; intros [= <- _ _]; lia..|].
    destruct (_ <? _)%nat; [intros [= <- _ _]; simpl; lia|done].
  - intros [|c [|d s]] n out t; cbn [kitty_step]; [done| |].
    { destruct (negb (Ascii.eqb c ESC)) eqn:E; [|done]. intros [= <- <-]. simpl. by rewrite E. }
    change ((String c (String d s)) +:+ t)%string with (String c (String d (s +:+ t))). cbn [kitty_step].
    destruct (negb (Ascii.eqb c ESC)); [done|]. destruct (negb (Ascii.eqb d "[")); [done|].
    destruct (csi_end s 2) as [[j b]|] eqn:E; [|by destruct (_ <? _)%nat]. rewrite (csi_end_app _ t _ _ E).
    apply csi_end_bound in E. change (String c (String d (s +:+ t))) with ((String c (String d s)) +:+ t)%string.
    destruct b; rewrite str_take_app_le by (simpl; lia); done.
Qed.

#[global] Instance strip_filter : Filter strip_step.
Proof.
  split; [done| |].
  - intros [|c [|d s]] n out b; simpl; [done| |].
    { destruct (negb _); [intros [= <- _ _]; lia|done]. }
    destruct (negb (Ascii.eqb c ESC)); [intros [= <- _ _]; lia|]. destruct (negb _); [intros [= <- _ _]; lia|].
    destruct (csi_end s 2) as [[j []]|] eqn:E; [apply csi_end_bound in E; intros [= <- _ _]; lia..|].
    destruct (_ <? _)%nat; [intros [= <- _ _]; lia|done].
  - intros [|c [|d s]] n out t; cbn [strip_step]; [done| |].
    { destruct (negb (Ascii.eqb c ESC)) eqn:E; [|done]. intros [= <- <-]. simpl. by rewrite E. }
    change ((String c (String d s)) +:+ t)%string with (String c (String d (s +:+ t))). cbn [strip_step].
    destruct (negb (Ascii.eqb c ESC)); [done|]. destruct (negb (Ascii.eqb d "[")); [done|].
    destruct (csi_end s 2) as [[j b]|] eqn:E; [|by destruct (_ <? _)%nat]. rewrite (csi_end_app _ t _ _ E).
    apply csi_end_bound in E. change (String c (String d (s +:+ t))) with ((String c (String d s)) +:+ t)%string.
    destruct b; [rewrite str_take_app_le by (simpl; lia)|]; done.
Qed.

Lemma consumeQuery_app s t n q : consumeQuery s = Some (n, q) -> consumeQuery (s +:+ t) = Some (n, q) /\ (1 <= n <= String.length s)%nat.
Proof.
  destruct s as [|c [|d s]]; [done..|]. cbn [consumeQuery].
  change ((String c (String d s)) +:+ t)%string with (String c (String d (s +:+ t))). cbn [consumeQuery].
  destruct (negb (Ascii.eqb c ESC)); [done|]. destruct (Ascii.eqb d "[").
  - destruct (csi_final_at s 2) as [i|] eqn:E; [|done]. cbn [fmap option_fmap option_map]. intros [= <- <-].
    rewrite (csi_final_app _ t _ _ E). apply csi_final_bound in E. cbn [fmap option_fmap option_map].
    change (String c (String d (s +:+ t))) with ((String c (String d s)) +:+ t)%string.
    rewrite str_take_app_le by (simpl; lia). split; [done|simpl; lia].
  - destruct (_ || _).
    + destruct (osc_end d s 2) as [i|] eqn:E; [|done]. cbn [fmap option_fmap option_map]. intros [= <- <-].
      rewrite (osc_end_app _ _ t _ _ E). apply osc_end_bound in E. split; [done|simpl; lia].
    + intros [= <- <-]. split; [done|simpl; lia].
Qed.

#[global] Instance query_filter : Filter query_step.
Proof.
  split; [done| |].
  - intros [|c s] n out b; [done|]. unfold query_step. destruct (negb _); [intros [= <- _ _]; simpl; lia|].
    destruct (consumeQuery (String c s)) as [[k q]|] eqn:E.
    + intros [= <- _ _]. by apply (consumeQuery_app _ EmptyString) in E as [_ ?].
    + destruct (_ <? _)%nat; [intros [= <- _ _]; simpl; lia|done].
  - intros [|c s] n out t; [done|]. unfold query_step at 1. change (String c s +:+ t)%string with (String c (s +:+ t)).
    unfold query_step. destruct (negb _); [done|]. destruct (consumeQuery (String c s)) as [[k q]|] eqn:E.
    + apply (consumeQuery_app _ t) in E as [E _]. change (String c (s +:+ t)) with (String c s +:+ t)%string. by rewrite E.
    + by destruct (_ <? _)%nat.
Qed.

(** C36: How a session's byte streams are cut into chunks does not matter: the key decoder, the mode
    stripper and the query scanner give the same output and keep the same unfinished bytes whether
    the stream arrives in pieces or at once, as long as every decision on the way is settled (no
    sequence outgrows its limit, and no chunk of user input ends in a lone ESC). *)
Theorem chunks_do_not_matter (chunks : list string) :
  (settled_all kitty_step EmptyString chunks = true ->
     feed_all kitty_step EmptyString chunks = feed kitty_step EmptyString (str_concat chunks)) /\
  (settled_all strip_step EmptyString chunks = true ->
     feed_all strip_step EmptyString chunks = feed strip_step EmptyString (str_concat chunks)) /\
  (settled_all query_step EmptyString chunks = true ->
     feed_all query_step EmptyString chunks = feed query_step EmptyString (str_concat chunks)).
Proof.
  split; [|split]; intros Hs.
  - exact (feed_all_chunks kitty_step EmptyString chunks eq_refl Hs).
  - exact (feed_all_chunks strip_step EmptyString chunks eq_refl Hs).
  - exact (feed_all_chunks query_step EmptyString chunks eq_refl Hs).
Qed.
