(* ===== verification/Queues.v ===== *)
(** [internal/terminal] ([pty_input.go], [parse_queue.go], [writefull.go],
    [resize.go]): the two queues between the goroutines of a session, the loop
    that writes to the terminal, and the pending resize. The operations run
    under the queue's lock, so a run is a sequence of them; a blocking
    operation is a step that is enabled when its wait is over. *)

From S2P Require Import Prelude Text.

(** ** [ptyInputQueue]: user input, never dropped *)

Module Input.

Definition maxPTYInputBytes : Z := 2^20.

Record ptyInputQueue := mkQueue {
  q_chunks : list string; q_head : nat; q_bytes : Z; q_budget : Z; q_maxDepth : Z; q_stopped : bool;
}.

Definition newPTYInputQueue (budget : Z) : ptyInputQueue :=
  mkQueue [] 0 0 (if budget <? 1 then maxPTYInputBytes else budget) 0 false.

Definition blen (s : string) : Z := Z.of_nat (String.length s).

Definition push (p : string) (q : ptyInputQueue) : ptyInputQueue * result unit :=
  if str_empty p then (q, Ok tt)
  else if q_stopped q then (q, Fail (EMsg "pty input queue stopped"))
  else if q_budget q <? q_bytes q + blen p then (q, Fail (EMsg "pty input queue saturated"))
  else
    let bytes := q_bytes q + blen p in
    (mkQueue (q_chunks q ++ [p]) (q_head q) bytes (q_budget q)
       (if q_maxDepth q <? bytes then bytes else q_maxDepth q) (q_stopped q), Ok tt).

(** [popWait] goes on when there is a chunk or the queue is stopped. *)
Definition ready (q : ptyInputQueue) : bool := (q_head q <? length (q_chunks q))%nat || q_stopped q.

(** The slot is cleared and the front of the slice is let go from time to time. *)
Definition popWait (q : ptyInputQueue) : ptyInputQueue * option string :=
  match q_chunks q !! q_head q with
  | None => (q, None)
  | Some item =>
      let chunks := <[q_head q := EmptyString]> (q_chunks q) in
      let head := Datatypes.S (q_head q) in
      let bytes := q_bytes q - blen item in
      let bytes := if bytes <? 0 then 0 else bytes in
      let '(chunks, head) := if (32 <? head)%nat && (length chunks <=? head * 2)%nat then (drop head chunks, O)
                             else (chunks, head) in
      (mkQueue chunks head bytes (q_budget q) (q_maxDepth q) (q_stopped q), Some item)
  end.

Definition stop (q : ptyInputQueue) : ptyInputQueue :=
  mkQueue (q_chunks q) (q_head q) (q_bytes q) (q_budget q) (q_maxDepth q) true.

(** *** Runs *)

Inductive event := Pushed (p : string) | Refused (p : string) | Popped (p : string) | Drained | Stopped.

Inductive step : ptyInputQueue -> event -> ptyInputQueue -> Prop :=
  | step_push p q q' : push p q = (q', Ok tt) -> step q (Pushed p) q'
  | step_refuse p q q' e : push p q = (q', Fail e) -> step q (Refused p) q'
  | step_pop p q q' : ready q = true -> popWait q = (q', Some p) -> step q (Popped p) q'
  | step_drained q q' : ready q = true -> popWait q = (q', None) -> step q Drained q'
  | step_stop q : step q Stopped (stop q).

Inductive run (q0 : ptyInputQueue) : list event -> ptyInputQueue -> Prop :=
  | run_nil : run q0 [] q0
  | run_snoc evs ev q q' : run q0 evs q -> step q ev q' -> run q0 (evs ++ [ev]) q'.

Definition pushed (evs : list event) : string :=
  foldr (fun ev s => match ev with Pushed p => p +:+ s | _ => s end)%string EmptyString evs.
Definition popped (evs : list event) : string :=
  foldr (fun ev s => match ev with Popped p => p +:+ s | _ => s end)%string EmptyString evs.

(** *** What the queue holds *)

Fixpoint concat_all (l : list string) : string :=
  match l with [] => EmptyString | s :: l => (s +:+ concat_all l)%string end.
Definition pending (q : ptyInputQueue) : list string := drop (q_head q) (q_chunks q).

Record queue_inv (q : ptyInputQueue) : Prop := {
  qi_bytes : q_bytes q = blen (concat_all (pending q));
  qi_budget : 0 <= q_bytes q <= q_budget q;
  qi_depth : q_bytes q <= q_maxDepth q <= q_budget q;
}.

Lemma concat_all_app l l' : concat_all (l ++ l') = (concat_all l +:+ concat_all l')%string.
Proof. induction l as [|s l IH]; simpl; [done|]. by rewrite IH, str_app_assoc. Qed.
Lemma blen_app a b : blen (a +:+ b) = blen a + blen b.
Proof. unfold blen. rewrite str_length_app. lia. Qed.

Lemma new_inv budget : queue_inv (newPTYInputQueue budget).
Proof. unfold newPTYInputQueue, maxPTYInputBytes. destruct (Z.ltb_spec budget 1); split; simpl; unfold blen; simpl; lia. Qed.

Lemma push_spec p q q' r :
  queue_inv q -> (q_head q <= length (q_chunks q))%nat -> push p q = (q', r) ->
  queue_inv q' /\ (q_head q' <= length (q_chunks q'))%nat /\ q_budget q' = q_budget q /\
  concat_all (pending q') = (concat_all (pending q) +:+ if is_Ok r then p else EmptyString)%string.
Proof.
  intros Hq Hh. unfold push. destruct p as [|c p]; cbn [str_empty].
  { intros [= <- <-]. simpl. by rewrite str_app_nil_r. }
  destruct (q_stopped q); [intros [= <- <-]; simpl; by rewrite str_app_nil_r|].
  destruct (Z.ltb_spec (q_budget q) (q_bytes q + blen (String c p))) as [|Hroom]; [intros [= <- <-]; simpl; by rewrite str_app_nil_r|].
  intros [= Eq <-]. destruct Hq as [Hb Hbud Hd].
  assert (pending q' = pending q ++ [String c p]) as Hp by (rewrite <- Eq; unfold pending; simpl; by rewrite drop_app_le).
  assert (q_bytes q' = q_bytes q + blen (String c p) /\ q_budget q' = q_budget q /\ q_head q' = q_head q /\
    q_chunks q' = q_chunks q ++ [String c p] /\
    q_maxDepth q' = if q_maxDepth q <? q_bytes q + blen (String c p) then q_bytes q + blen (String c p) else q_maxDepth q)
    as (E1 & E2 & E3 & E4 & E5) by (rewrite <- Eq; done).
  clear Eq. assert (0 <= blen (String c p)) by (unfold blen; lia).
  split_and!; [split|..]; rewrite ?Hp, ?concat_all_app, ?E1, ?E2, ?E3, ?E4, ?E5; cbn [is_Ok concat_all].
  - rewrite str_app_nil_r, blen_app. lia.
  - lia.
  - destruct (Z.ltb_spec (q_maxDepth q) (q_bytes q + blen (String c p))); lia.
  - rewrite length_app. lia.
  - done.
  - by rewrite str_app_nil_r.
Qed.

Lemma pop_spec q q' r :
  queue_inv q -> (q_head q <= length (q_chunks q))%nat -> popWait q = (q', r) ->
  queue_inv q' /\ (q_head q' <= length (q_chunks q'))%nat /\ q_budget q' = q_budget q /\
  concat_all (pending q) = (default EmptyString r +:+ concat_all (pending q'))%string.
Proof.
  intros Hq Hh. unfold popWait. destruct (q_chunks q !! q_head q) as [item|] eqn:E; [|by intros [= <- <-]].
  pose proof (lookup_lt_Some _ _ _ E) as Hlt.
  assert (pending q = item :: drop (Datatypes.S (q_head q)) (q_chunks q)) as Hp by (unfold pending; by apply drop_S).
  set (rest := drop (Datatypes.S (q_head q)) (q_chunks q)) in *. destruct Hq as [Hb Hbud Hd].
  assert (drop (Datatypes.S (q_head q)) (<[q_head q := EmptyString]> (q_chunks q)) = rest) as Hrest.
  { unfold rest. by rewrite drop_insert_lt by lia. }
  rewrite Hp in Hb. cbn [concat_all] in Hb. rewrite blen_app in Hb.
  assert (0 <= blen (concat_all rest)) by (unfold blen; lia). assert (0 <= blen item) by (unfold blen; lia).
  assert ((if q_bytes q - blen item <? 0 then 0 else q_bytes q - blen item) = blen (concat_all rest)) as ->
    by (destruct (Z.ltb_spec (q_bytes q - blen item) 0); lia).
  intros E'. assert (exists chunks head, q' = mkQueue chunks head (blen (concat_all rest)) (q_budget q) (q_maxDepth q) (q_stopped q)
    /\ r = Some item /\ drop head chunks = rest /\ (head <= length chunks)%nat) as (chunks & head & -> & -> & Hdrop & Hhead).
  { destruct (_ && _); injection E' as <- <-; [exists (drop (Datatypes.S (q_head q)) (<[q_head q := EmptyString]> (q_chunks q))), O|
      exists (<[q_head q := EmptyString]> (q_chunks q)), (Datatypes.S (q_head q))]; split_and!; try done; [lia|].
    rewrite length_insert. lia. }
  split_and!; [split; unfold pending; simpl; rewrite ?Hdrop; lia|done|done|]. unfold pending at 2. simpl. by rewrite Hp, Hdrop.
Qed.

Lemma pushed_app a b : pushed (a ++ b) = (pushed a +:+ pushed b)%string.
Proof. induction a as [|ev a IH]; simpl; [done|]. destruct ev; rewrite IH; [by rewrite str_app_assoc|done..]. Qed.
Lemma popped_app a b : popped (a ++ b) = (popped a +:+ popped b)%string.
Proof. induction a as [|ev a IH]; simpl; [done|]. destruct ev; rewrite IH; [done|done|by rewrite str_app_assoc|done..]. Qed.

(** C37: The input queue loses and reorders nothing: after any sequence of pushes, refusals, pops
    and a stop, what was accepted is what was handed out followed by what is still held, byte for
    byte; the bytes held are counted exactly and never exceed the budget. *)
Theorem input_queue_lossless (budget : Z) (evs : list event) (q : ptyInputQueue) :
  run (newPTYInputQueue budget) evs q ->
  pushed evs = (popped evs +:+ concat_all (pending q))%string /\
  q_bytes q = blen (concat_all (pending q)) /\ q_maxDepth q <= q_budget q /\
  q_budget q = q_budget (newPTYInputQueue budget).
Proof.
  intros Hrun.
  enough (queue_inv q /\ (q_head q <= length (q_chunks q))%nat /\ q_budget q = q_budget (newPTYInputQueue budget) /\
    pushed evs = (popped evs +:+ concat_all (pending q))%string) as ([] & _ & ? & ?) by (split_and!; [done|done|lia|done]).
  induction Hrun as [|evs ev q q' Hrun (Hi & Hh & Hbud & IH) Hstep]; [split_and!; [apply new_inv|done..]|].
  rewrite pushed_app, popped_app. destruct Hstep as [p q q' E|p q q' e E|p q q' _ E|q q' _ E|q]; cbn [pushed popped foldr].
  - destruct (push_spec _ _ _ _ Hi Hh E) as (? & ? & ? & Hp). split_and!; [done|done|congruence|].
    simpl in Hp. by rewrite IH, Hp, !str_app_nil_r, str_app_assoc.
  - destruct (push_spec _ _ _ _ Hi Hh E) as (? & ? & ? & Hp). split_and!; [done|done|congruence|].
    simpl in Hp. by rewrite IH, Hp, !str_app_nil_r.
  - destruct (pop_spec _ _ _ Hi Hh E) as (? & ? & ? & Hp). split_and!; [done|done|congruence|].
    simpl in Hp. by rewrite IH, Hp, !str_app_nil_r, str_app_assoc.
  - destruct (pop_spec _ _ _ Hi Hh E) as (? & ? & ? & Hp). split_and!; [done|done|congruence|].
    simpl in Hp. by rewrite IH, Hp, !str_app_nil_r.
  - split_and!; [by destruct Hi|done|done|]. by rewrite !str_app_nil_r.
Qed.
End Input.

(** ** [parseQueue]: shadow parsing, droppable *)

Module Parse.
Import Input.

Record parseItem := mkItem { pi_seq : Z; pi_data : string; pi_cpr : bool }.

Record parseQueue := mkParse {
  p_items : list parseItem; p_head : nat; p_queuedBytes : Z; p_enqueuedSeq : Z; p_parsedSeq : Z;
  p_dirty : bool; p_stopped : bool; p_budget : Z; p_maxQueued : Z; p_saturations : Z;
}.

Definition maxParseQueuedBytes : Z := 2^20.
Definition newParseQueue (budget : Z) : parseQueue :=
  mkParse [] 0 0 0 0 false false (if budget <? 1 then maxParseQueuedBytes else budget) 0 0.

(** [uint64] *)
Definition u64 (z : Z) : Z := z `mod` 2^64.

(** The discarded backlog counts as parsed, so that no one waits for it. *)
Definition discard (q : parseQueue) : parseQueue :=
  mkParse [] 0 0 (p_enqueuedSeq q) (p_enqueuedSeq q) true (p_stopped q) (p_budget q) (p_maxQueued q)
    (u64 (p_saturations q + 1)).

Definition append_item (data : string) (cpr : bool) (q : parseQueue) : parseQueue :=
  let seq := u64 (p_enqueuedSeq q + 1) in
  let bytes := p_queuedBytes q + blen data in
  mkParse (p_items q ++ [mkItem seq data cpr]) (p_head q) bytes seq (p_parsedSeq q) (p_dirty q) (p_stopped q)
    (p_budget q) (if p_maxQueued q <? bytes then bytes else p_maxQueued q) (p_saturations q).

Definition enqueue (data : string) (cpr : bool) (q : parseQueue) : parseQueue * (Z * bool) :=
  if str_empty data && negb cpr then (q, (0, false))
  else if p_stopped q then (q, (p_enqueuedSeq q, false))
  else if p_budget q <? p_queuedBytes q + blen data then
    let q := discard q in
    if p_budget q <? blen data then (q, (p_enqueuedSeq q, false))
    else let q := append_item data cpr q in (q, (p_enqueuedSeq q, true))
  else let q := append_item data cpr q in (q, (p_enqueuedSeq q, true)).

Definition parse_ready (q : parseQueue) : bool := (p_head q <? length (p_items q))%nat || p_stopped q.

Definition popLocked (q : parseQueue) : parseQueue * option parseItem :=
  match p_items q !! p_head q with
  | None => (q, None)
  | Some item =>
      let items := <[p_head q := mkItem 0 EmptyString false]> (p_items q) in
      let head := Datatypes.S (p_head q) in
      let bytes := p_queuedBytes q - blen (pi_data item) in
      let bytes := if bytes <? 0 then 0 else bytes in
      let '(items, head) := if (32 <? head)%nat && (length items <=? head * 2)%nat then (drop head items, O)
                            else (items, head) in
      (mkParse items head bytes (p_enqueuedSeq q) (p_parsedSeq q) (p_dirty q) (p_stopped q) (p_budget q)
         (p_maxQueued q) (p_saturations q), Some item)
  end.

Definition markParsed (seq : Z) (q : parseQueue) : parseQueue :=
  mkParse (p_items q) (p_head q) (p_queuedBytes q) (p_enqueuedSeq q)
    (if p_parsedSeq q <? seq then seq else p_parsedSeq q) (p_dirty q) (p_stopped q) (p_budget q)
    (p_maxQueued q) (p_saturations q).

Definition currentSeq (q : parseQueue) : Z := p_enqueuedSeq q.

(** [wait(target)] returns. *)
Definition wait_over (target : Z) (q : parseQueue) : bool := negb (p_parsedSeq q <? target) || p_stopped q.

Definition parse_stop (q : parseQueue) : parseQueue :=
  mkParse [] 0 0 (p_enqueuedSeq q) (p_enqueuedSeq q) (p_dirty q) true (p_budget q) (p_maxQueued q) (p_saturations q).

(** *** Runs with one worker *)

(** The worker holds the item it is parsing. *)
Record world := mkWorld { w_queue : parseQueue; w_current : option parseItem }.

Inductive pstep : world -> world -> Prop :=
  | p_enqueue data cpr q w : p_enqueuedSeq q + 1 < 2^64 ->
      pstep (mkWorld q w) (mkWorld (enqueue data cpr q).1 w)
  | p_pop q q' item : parse_ready q = true -> popLocked q = (q', Some item) ->
      pstep (mkWorld q None) (mkWorld q' (Some item))
  | p_parsed q item : pstep (mkWorld q (Some item)) (mkWorld (markParsed (pi_seq item) q) None)
  | p_halt q w : pstep (mkWorld q w) (mkWorld (parse_stop q) w).

Definition initial (budget : Z) : world := mkWorld (newParseQueue budget) None.

(** *** The invariant *)

Definition queued (q : parseQueue) : list parseItem := drop (p_head q) (p_items q).
Definition sum_bytes (l : list parseItem) : Z := foldr (fun it n => blen (pi_data it) + n) 0 l.

(** The queued items carry the last sequence numbers given out, in order. *)
Definition numbered (q : parseQueue) : Prop :=
  forall i it, queued q !! i = Some it -> pi_seq it = p_enqueuedSeq q - Z.of_nat (length (queued q)) + Z.of_nat i + 1.

(** Whether the item in the worker's hands is still to be counted. *)
Definition open_item (w : world) : Z :=
  match w_current w with
  | Some it => if p_parsedSeq (w_queue w) <? pi_seq it then 1 else 0
  | None => 0
  end.

Record parse_inv (w : world) : Prop := {
  pv_head : (p_head (w_queue w) <= length (p_items (w_queue w)))%nat;
  pv_bytes : p_queuedBytes (w_queue w) = sum_bytes (queued (w_queue w));
  pv_budget : 0 <= p_queuedBytes (w_queue w) <= p_budget (w_queue w);
  pv_seq : 0 <= p_parsedSeq (w_queue w) /\ p_enqueuedSeq (w_queue w) < 2^64;
  pv_numbered : numbered (w_queue w);
  pv_count : p_parsedSeq (w_queue w) + open_item w + Z.of_nat (length (queued (w_queue w))) = p_enqueuedSeq (w_queue w);
  pv_current : forall it, w_current w = Some it ->
    pi_seq it <= p_parsedSeq (w_queue w) + open_item w;
}.

Lemma sum_bytes_app a b : sum_bytes (a ++ b) = sum_bytes a + sum_bytes b.
Proof. induction a as [|x a IH]; simpl; [lia|]. rewrite IH. lia. Qed.
Lemma sum_bytes_nonneg l : 0 <= sum_bytes l.
Proof. induction l as [|x l IH]; simpl; [lia|]. unfold blen. lia. Qed.

Lemma initial_inv budget : parse_inv (initial budget).
Proof.
  split; unfold initial, newParseQueue, queued, numbered; cbn [w_queue p_head p_items p_queuedBytes p_budget p_parsedSeq p_enqueuedSeq w_current]; try done.
  unfold maxParseQueuedBytes. destruct (Z.ltb_spec budget 1); lia.
Qed.

Lemma append_inv data cpr q w :
  parse_inv (mkWorld q w) -> p_queuedBytes q + blen data <= p_budget q -> p_enqueuedSeq q + 1 < 2^64 ->
  parse_inv (mkWorld (append_item data cpr q) w).
Proof.
  intros [Hh Hb Hbud [Hs1 Hs2] Hn Hc Hcur] Hroom Hmax. simpl in *.
  assert (0 <= open_item (mkWorld q w)) by (unfold open_item; simpl; destruct w; [case_match|]; lia).
  assert (u64 (p_enqueuedSeq q + 1) = p_enqueuedSeq q + 1) as Hu by (apply Z.mod_small; lia).
  assert (queued (append_item data cpr q) = queued q ++ [mkItem (p_enqueuedSeq q + 1) data cpr]) as Hq.
  { unfold queued, append_item. simpl. rewrite Hu. by rewrite drop_app_le. }
  assert (0 <= blen data) by (unfold blen; lia).
  split; cbn [w_queue w_current]; rewrite ?Hq, ?sum_bytes_app, ?length_app.
  - simpl. rewrite length_app. lia.
  - simpl. lia.
  - simpl. lia.
  - simpl. rewrite Hu. lia.
  - intros i it. rewrite Hq, length_app. simpl. rewrite Hu. intros Hit.
    apply lookup_app_Some in Hit as [Hit|[Hle Hit]]; [specialize (Hn _ _ Hit); lia|].
    apply list_lookup_singleton_Some in Hit as [Hi <-]. simpl. lia.
  - unfold open_item in *. simpl in *. rewrite Hu. lia.
  - intros it Hit. specialize (Hcur it Hit). exact Hcur.
Qed.

Lemma discard_inv q w : parse_inv (mkWorld q w) -> parse_inv (mkWorld (discard q) w).
Proof.
  intros [Hh Hb Hbud [Hs1 Hs2] Hn Hc Hcur]. simpl in *.
  assert (0 <= open_item (mkWorld q w)) by (unfold open_item; simpl; destruct w; [case_match|]; lia).
  assert (open_item (mkWorld (discard q) w) = 0) as Ho.
  { unfold open_item. simpl. destruct w as [it|]; [|done]. specialize (Hcur it eq_refl).
    destruct (Z.ltb_spec (p_enqueuedSeq q) (pi_seq it)); lia. }
  split; rewrite ?Ho; simpl; try lia; try done.
  intros it ->. specialize (Hcur it eq_refl). lia.
Qed.

Lemma enqueue_inv data cpr q w :
  parse_inv (mkWorld q w) -> p_enqueuedSeq q + 1 < 2^64 -> parse_inv (mkWorld (enqueue data cpr q).1 w).
Proof.
  intros Hi Hmax. unfold enqueue. destruct (_ && _); [done|]. destruct (p_stopped q); [done|].
  destruct (Z.ltb_spec (p_budget q) (p_queuedBytes q + blen data)); [|by apply append_inv].
  destruct (Z.ltb_spec (p_budget (discard q)) (blen data)); [by apply discard_inv|].
  apply append_inv; [by apply discard_inv|simpl in *; lia|done].
Qed.

Lemma pop_inv q q' item : parse_inv (mkWorld q None) -> popLocked q = (q', Some item) -> parse_inv (mkWorld q' (Some item)).
Proof.
  intros [Hh Hb Hbud [Hs1 Hs2] Hn Hc _] E. simpl in *. unfold popLocked in E.
  destruct (p_items q !! p_head q) as [it|] eqn:Ei; [|done]. pose proof (lookup_lt_Some _ _ _ Ei) as Hlt.
  assert (queued q = it :: drop (Datatypes.S (p_head q)) (p_items q)) as Hq by (unfold queued; by apply drop_S).
  set (rest := drop (Datatypes.S (p_head q)) (p_items q)) in *. rewrite Hq in Hb, Hc. cbn [sum_bytes foldr length] in Hb, Hc.
  fold (sum_bytes rest) in Hb. pose proof (sum_bytes_nonneg rest).
  assert (0 <= blen (pi_data it)) by (unfold blen; lia).
  assert (drop (Datatypes.S (p_head q)) (<[p_head q := mkItem 0 EmptyString false]> (p_items q)) = rest) as Hrest
    by (unfold rest; by rewrite drop_insert_lt by lia).
  assert ((if p_queuedBytes q - blen (pi_data it) <? 0 then 0 else p_queuedBytes q - blen (pi_data it)) = sum_bytes rest) as Es
    by (destruct (Z.ltb_spec (p_queuedBytes q - blen (pi_data it)) 0); lia).
  cbv zeta in E. rewrite Es in E.
  assert (exists items head, q' = mkParse items head (sum_bytes rest) (p_enqueuedSeq q) (p_parsedSeq q) (p_dirty q)
    (p_stopped q) (p_budget q) (p_maxQueued q) (p_saturations q) /\ item = it /\ drop head items = rest /\ (head <= length items)%nat)
    as (items & head & -> & -> & Hd & Hhead).
  { destruct (_ && _); injection E as <- <-; [eexists (drop _ _), O|eexists (<[_ := _]> _), (Datatypes.S _)];
      split_and!; try done; [lia|]. rewrite length_insert. lia. }
  assert (pi_seq it = p_enqueuedSeq q - Z.of_nat (length rest)) as Hseq.
  { rewrite (Hn 0%nat it); rewrite Hq; [simpl; lia|done]. }
  unfold open_item in *. simpl in Hc.
  assert (p_parsedSeq q <? pi_seq it = true) as Hopen by (apply Z.ltb_lt; lia).
  split; unfold open_item, numbered, queued; cbn [w_queue w_current p_head p_items p_queuedBytes p_budget p_parsedSeq p_enqueuedSeq]; rewrite ?Hd, ?Hopen; try lia.
  - intros i it' Hit'. specialize (Hn (Datatypes.S i) it'). rewrite Hq in Hn. specialize (Hn Hit'). simpl in Hn. lia.
  - intros it' [= <-]. lia.
Qed.

Lemma parsed_inv q item : parse_inv (mkWorld q (Some item)) -> parse_inv (mkWorld (markParsed (pi_seq item) q) None).
Proof.
  intros [Hh Hb Hbud [Hs1 Hs2] Hn Hc Hcur]. specialize (Hcur item eq_refl). unfold open_item in *. simpl in *.
  destruct (Z.ltb_spec (p_parsedSeq q) (pi_seq item)); split; unfold open_item, numbered, queued in *; simpl in *;
    repeat match goal with |- context [if ?a <? ?b then _ else _] => destruct (Z.ltb_spec a b) end; try lia; try done.
Qed.

Lemma halt_inv q w : parse_inv (mkWorld q w) -> parse_inv (mkWorld (parse_stop q) w).
Proof.
  intros [Hh Hb Hbud [Hs1 Hs2] Hn Hc Hcur]. simpl in *.
  assert (0 <= open_item (mkWorld q w)) by (unfold open_item; simpl; destruct w; [case_match|]; lia).
  assert (open_item (mkWorld (parse_stop q) w) = 0) as Ho.
  { unfold open_item. simpl. destruct w as [it|]; [|done]. specialize (Hcur it eq_refl).
    destruct (Z.ltb_spec (p_enqueuedSeq q) (pi_seq it)); lia. }
  split; rewrite ?Ho; simpl; try lia; try done.
  intros it ->. specialize (Hcur it eq_refl). lia.
Qed.

Lemma reachable_inv budget w : rtc pstep (initial budget) w -> parse_inv w.
Proof.
  revert w. apply (rtc_ind_r parse_inv); [apply initial_inv|]. intros w1 w2 _ Hstep IH.
  destruct Hstep; [by apply enqueue_inv|by eapply pop_inv|by apply parsed_inv|by apply halt_inv].
Qed.

(** The worker empties the queue. *)
Definition drained (w : world) : Prop := queued (w_queue w) = [] /\ w_current w = None.

Lemma worker_drains w :
  parse_inv w -> exists w', rtc pstep w w' /\ drained w' /\ p_enqueuedSeq (w_queue w') = p_enqueuedSeq (w_queue w).
Proof.
  remember (length (queued (w_queue w))) as n eqn:Hn. revert w Hn. induction n as [|n IH]; intros [q cur] Hn Hi; simpl in Hn.
  - destruct cur as [it|].
    + eexists. split; [apply rtc_once, p_parsed|]. split; [|done]. split; [|done]. by apply nil_length_inv.
    + exists (mkWorld q None). split; [done|]. split; [|done]. split; [|done]. by apply nil_length_inv.
  - assert (exists q1, rtc pstep (mkWorld q cur) (mkWorld q1 None) /\ queued q1 = queued q /\ p_enqueuedSeq q1 = p_enqueuedSeq q /\
      parse_inv (mkWorld q1 None)) as (q1 & Hr1 & Hq1 & He1 & Hi1).
    { destruct cur as [it|]; [|by exists q]. eexists. split; [apply rtc_once, p_parsed|]. split_and!; [done|done|by apply parsed_inv]. }
    destruct (queued q1) as [|it rest] eqn:Eq; [by rewrite <- Hq1 in Hn|].
    assert (p_items q1 !! p_head q1 = Some it) as Hit.
    { pose proof (lookup_drop (p_items q1) (p_head q1) 0) as Hl. fold (queued q1) in Hl. rewrite Eq, Nat.add_0_r in Hl. by rewrite <- Hl. }
    assert (exists q2, popLocked q1 = (q2, Some it) /\ p_enqueuedSeq q2 = p_enqueuedSeq q1 /\ queued q2 = rest) as (q2 & Hpop & He2 & Hq2).
    { unfold popLocked. rewrite Hit. unfold queued in Eq. rewrite (drop_S _ _ _ Hit) in Eq. injection Eq as Eq.
      destruct (_ && _); eexists; (split; [reflexivity|]); (split; [done|]); unfold queued; simpl;
        rewrite ?drop_insert_lt by lia; done. }
    assert (pstep (mkWorld q1 None) (mkWorld q2 (Some it))) as Hs.
    { apply p_pop; [|done]. unfold parse_ready. apply orb_true_iff. left. apply Nat.ltb_lt. by eapply lookup_lt_Some. }
    destruct (IH (mkWorld q2 (Some it))) as (w' & Hr' & Hd' & He').
    { simpl. rewrite Hq2. rewrite <- Hq1 in Hn. simpl in Hn. lia. }
    { by eapply pop_inv. }
    exists w'. split; [etrans; [exact Hr1|]; etrans; [by apply rtc_once|done]|]. split; [done|]. simpl in *. congruence.
Qed.

End Parse.

(** ** [writefull.go] *)

Module Write.
Import Input.

Inductive errno := EINTR | EAGAIN | EOther (e : error).

(** What [io.Writer] promises: at most the bytes given are taken, from the
    front; [accepted] is what the peer has received so far. Waiting takes
    nothing. *)
Class Writer {W : Type} (write : string -> W -> W * (nat * option errno)) (wait : W -> W * option error)
    (accepted : W -> string) : Prop := {
  wr_count : forall p w w' n e, write p w = (w', (n, e)) -> (n <= String.length p)%nat;
  wr_takes : forall p w w' n e, write p w = (w', (n, e)) -> accepted w' = (accepted w +:+ str_take n p)%string;
  wr_wait : forall w w' e, wait w = (w', e) -> accepted w' = accepted w;
}.

Section WriteFull.
Context {W : Type} (write : string -> W -> W * (nat * option errno)) (wait : W -> W * option error).

(** [None] when the fuel runs out; [waits] says whether the caller passed a
    [waitEAGAIN]. *)
Fixpoint writeFull (waits : bool) (fuel : nat) (p : string) (w : W) : W * option (result unit) :=
  if str_empty p then (w, Some (Ok tt))
  else
    match fuel with
    | O => (w, None)
    | Datatypes.S fuel =>
        let '(w, (n, err)) := write p w in
        let p := str_drop n p in
        match err with
        | None => if (n =? 0)%nat then (w, Some (Fail (EMsg "short write"))) else writeFull waits fuel p w
        | Some EINTR => writeFull waits fuel p w
        | Some EAGAIN =>
            if waits then
              let '(w, werr) := wait w in
              match werr with Some e => (w, Some (Fail e)) | None => writeFull waits fuel p w end
            else (w, Some (Fail (EMsg "pty: would block")))
        | Some (EOther e) => (w, Some (Fail e))
        end
    end.

Context (accepted : W -> string) `{!Writer write wait accepted}.

(** Part of a write, then the rest. *)
Lemma taken_more (t d r : string) :
  (exists k, r = str_take k d) -> exists k, (t +:+ r = str_take k (t +:+ d))%string.
Proof.
  intros [k ->]. exists (String.length t + k)%nat. induction t as [|c t IH]; [done|]. exact (f_equal (String c) IH).
Qed.

Lemma writeFull_spec waits fuel p w w' r :
  writeFull waits fuel p w = (w', r) ->
  (r = Some (Ok tt) -> accepted w' = (accepted w +:+ p)%string) /\
  exists k, accepted w' = (accepted w +:+ str_take k p)%string.
Proof.
  assert (forall a : string, (a +:+ str_take 0 p)%string = a) as H0 by (intros a; destruct p; apply str_app_nil_r).
  revert p w H0. induction fuel as [|fuel IH]; intros p w H0; cbn [writeFull].
  { destruct p as [|c p]; cbn [str_empty]; intros [= <- <-]; (split; [|exists O; by rewrite H0]); [|done].
    intros _. by rewrite str_app_nil_r. }
  destruct (str_empty p) eqn:Ep.
  { intros [= <- <-]. destruct p; [|done]. split; [intros _; by rewrite str_app_nil_r|]. exists O. by rewrite str_app_nil_r. }
  destruct (write p w) as [w1 [n err]] eqn:Ew. pose proof (wr_takes _ _ _ _ _ Ew) as Ht.
  assert (forall w2, accepted w2 = accepted w1 -> writeFull waits fuel (str_drop n p) w2 = (w', r) ->
    (r = Some (Ok tt) -> accepted w' = (accepted w +:+ p)%string) /\ exists k, accepted w' = (accepted w +:+ str_take k p)%string) as Hgo.
  { intros w2 Hw2 E. destruct (IH _ _ ltac:(intros a; destruct (str_drop n p); apply str_app_nil_r) E) as [H1 [k H2]].
    rewrite Hw2, Ht in H1, H2. split.
    - intros Hr. rewrite (H1 Hr), str_app_assoc, str_take_drop. done.
    - rewrite H2, str_app_assoc. destruct (taken_more (str_take n p) (str_drop n p) (str_take k (str_drop n p))) as [k' ->];
        [by exists k|]. exists k'. by rewrite str_take_drop. }
  assert (forall w2 e, accepted w2 = accepted w1 -> (w2, Some (Fail e)) = (w', r) ->
    (r = Some (Ok tt) -> accepted w' = (accepted w +:+ p)%string) /\ exists k, accepted w' = (accepted w +:+ str_take k p)%string) as Hstop.
  { intros w2 e Hw2 [= <- <-]. split; [done|]. exists n. by rewrite Hw2. }
  destruct err as [[| |e]|]; [by apply Hgo| | |].
  - destruct waits; [|by apply Hstop]. destruct (wait w1) as [w2 [e|]] eqn:Ewait; apply wr_wait in Ewait; eauto.
  - by apply Hstop.
  - destruct (n =? 0)%nat; [by apply Hstop|by apply Hgo].
Qed.

(** Every call takes something or ends the loop. *)
Definition busy : Prop :=
  forall p w w' n e, p <> EmptyString -> write p w = (w', (n, e)) ->
    (0 < n)%nat \/ e = None \/ exists err, e = Some (EOther err).

Lemma writeFull_ends waits p w fuel : busy -> (String.length p <= fuel)%nat -> (writeFull waits fuel p w).2 <> None.
Proof.
  intros Hb. revert p w. induction fuel as [|fuel IH]; intros p w Hf; cbn [writeFull].
  { destruct p; [done|simpl in Hf; lia]. }
  destruct (str_empty p) eqn:Ep; [done|]. destruct (write p w) as [w1 [n err]] eqn:Ew.
  assert (p <> EmptyString) as Hp by (by intros ->). pose proof (Hb _ _ _ _ _ Hp Ew) as Hprog.
  assert (forall w2, (0 < n)%nat -> (writeFull waits fuel (str_drop n p) w2).2 <> None) as Hgo.
  { intros w2 Hn. apply IH. rewrite str_drop_len. destruct p; [done|]. simpl in *. lia. }
  destruct err as [[| |e]|].
  - apply Hgo. destruct Hprog as [?|[?|[? ?]]]; done.
  - destruct waits; [|done]. destruct (wait w1) as [w2 [e|]]; [done|]. apply Hgo. destruct Hprog as [?|[?|[? ?]]]; done.
  - done.
  - destruct (Nat.eqb_spec n 0); [done|]. apply Hgo. lia.
Qed.

(** writeFull hands the peer exactly the bytes it was given, in order, when it succeeds, and a
    prefix of them when it fails, whatever short writes, interruptions and waits happen on the way;
    it returns when every call of the writer takes something or fails for good. *)
Theorem writeFull_exact (waits : bool) (p : string) (w : W) :
  busy ->
  exists w' r, writeFull waits (String.length p) p w = (w', Some r) /\
    (r = Ok tt -> accepted w' = (accepted w +:+ p)%string) /\
    exists k, accepted w' = (accepted w +:+ str_take k p)%string.
Proof.
  intros Hb. pose proof (writeFull_ends waits p w (String.length p) Hb ltac:(lia)) as Hne.
  destruct (writeFull waits (String.length p) p w) as [w' [r|]] eqn:E; [|done]. exists w', r. split; [done|].
  destruct (writeFull_spec _ _ _ _ _ _ E) as [H1 H2]. split; [|done]. intros ->. by apply H1.
Qed.
End WriteFull.

(** *** [shortWriter] *)

Record shortWriter := mkShort { sw_buf : string; sw_limit : nat; sw_fail : option errno; sw_blocked : nat }.

Definition shortWriter_Write (p : string) (w : shortWriter) : shortWriter * (nat * option errno) :=
  match sw_blocked w with
  | Datatypes.S b => (mkShort (sw_buf w) (sw_limit w) (sw_fail w) b, (O, Some EAGAIN))
  | O =>
      match sw_fail w with
      | Some e => (mkShort (sw_buf w) (sw_limit w) None O, (O, Some e))
      | None =>
          if str_empty p then (w, (O, None))
          else
            let n := String.length p in
            let n := if (0 <? sw_limit w)%nat && (sw_limit w <? n)%nat then sw_limit w else n in
            (mkShort (sw_buf w +:+ str_take n p) (sw_limit w) None O, (n, None))
      end
  end.

Definition no_wait (w : shortWriter) : shortWriter * option error := (w, None).

#[global] Instance shortWriter_writer : Writer shortWriter_Write no_wait sw_buf.
Proof.
  split.
  - intros p w w' n e. unfold shortWriter_Write. destruct (sw_blocked w); [|intros [= _ <- _]; lia].
    destruct (sw_fail w); [intros [= _ <- _]; lia|]. destruct (str_empty p); [intros [= _ <- _]; lia|].
    intros [= _ <- _]. destruct (_ && _) eqn:E; [|lia]. apply andb_true_iff in E as [_ E%Nat.ltb_lt]. lia.
  - intros p w w' n e. assert (str_take 0 p = EmptyString) as H0 by by destruct p.
    unfold shortWriter_Write. destruct (sw_blocked w); [|intros [= <- <- _]; by rewrite H0, str_app_nil_r].
    destruct (sw_fail w); [intros [= <- <- _]; by rewrite H0, str_app_nil_r|].
    destruct (str_empty p); [intros [= <- <- _]; by rewrite H0, str_app_nil_r|]. by intros [= <- <- _].
  - by intros w w' e [= <- _].
Qed.
End Write.

(** ** [resize.go] *)

Record terminalSize := mkSize { ts_cols : Z; ts_rows : Z; ts_xpixel : Z; ts_ypixel : Z }.

(** The pending size and whether the signal channel is full. *)
Record sizeCoalescer := mkCoalescer { sz_pending : option terminalSize; sz_sig : bool }.
Definition newSizeCoalescer : sizeCoalescer := mkCoalescer None false.
Definition size_note (cols rows xpixel ypixel : Z) (c : sizeCoalescer) : sizeCoalescer :=
  mkCoalescer (Some (mkSize cols rows xpixel ypixel)) true.
Definition size_take (c : sizeCoalescer) : sizeCoalescer * option terminalSize :=
  (mkCoalescer None (sz_sig c), sz_pending c).
