(* ===== verification/Wire.v ===== *)
(** The byte formats between the processes: length-prefixed frames
    ([internal/protocol/protocol.go], [internal/terminal/protocol.go]), fields
    that end in NUL ([internal/daemon/nul_codec.go], [internal/agent/protocol.go])
    and the header that opens a terminal session. Readers consume a string of
    bytes, writers produce one; I/O errors of the sockets are not modelled,
    the end of the input is. *)

From S2P Require Import Prelude Text Utf8.
From Stdlib Require Import Ascii.

(** ** Reading *)

Definition EEOF : error := EMsg "EOF".
Definition EUnexpectedEOF : error := EMsg "unexpected EOF".
Definition is_EOF (e : error) : bool := match e with EMsg m => String.eqb m "EOF" | _ => false end.

(** [io.ReadFull] of [n] bytes. *)
Definition read_full (n : nat) : M string string := fun s =>
  if (n =? 0)%nat then (s, Ok EmptyString)
  else if (n <=? String.length s)%nat then (str_drop n s, Ok (str_take n s))
  else (EmptyString, Fail (if str_empty s then EEOF else EUnexpectedEOF)).

(** [bufio.Reader.ReadBytes(0)] less the delimiter. *)
Definition read_until (d : ascii) : M string string := fun s =>
  match cut d s with
  | Some (a, rest) => (rest, Ok a)
  | None => (EmptyString, Fail EEOF)
  end.

(** ** Big-endian words *)

Definition PutUint32 (n : Z) : string :=
  String (byte_chr (Z.land (Z.shiftr n 24) 255)) (String (byte_chr (Z.land (Z.shiftr n 16) 255))
    (String (byte_chr (Z.land (Z.shiftr n 8) 255)) (String (byte_chr (Z.land n 255)) EmptyString))).
Definition Uint32 (s : string) : Z :=
  Z.lor (Z.lor (Z.shiftl (byte_at 0 s) 24) (Z.shiftl (byte_at 1 s) 16)) (Z.lor (Z.shiftl (byte_at 2 s) 8) (byte_at 3 s)).

(** ** Frames of the control socket *)

Section Frames.
Context {A : Type} `{Codec A}.

Definition maxFrame : Z := 16 * 2^20.

Definition WriteFrame (v : A) : result string :=
  let body := String.string_of_list_byte (marshal v) in
  let n := Z.of_nat (String.length body) in
  if maxFrame <? n then Fail (EMsg "protocol: frame exceeds the limit") else Ok (PutUint32 n +:+ body)%string.

Definition ReadFrame : M string A :=
  hdr ← read_full 4;
  let n := Uint32 hdr in
  if n =? 0 then fail (EMsg "protocol: empty frame")
  else if maxFrame <? n then fail (EMsg "protocol: frame exceeds the limit")
  else
    body ← read_full (Z.to_nat n);
    match unmarshal (String.list_byte_of_string body) with
    | Some v => mret v
    | None => fail (EMsg "cbor")
    end.
End Frames.

(** ** Frames of the terminal socket *)

Definition FrameData : ascii := "000".
Definition FrameWinch : ascii := "001".
Definition FrameExit : ascii := "002".
Definition FrameRaw : ascii := "003".

(** The length is cut to 32 bits. *)
Definition term_WriteFrame (kind : ascii) (payload : string) : string :=
  String kind (PutUint32 (Z.of_nat (String.length payload)) +:+ payload).

Definition term_ReadFrame : M string (ascii * string) :=
  hdr ← read_full 5;
  let kind := default NUL (str_at 0 hdr) in
  let n := Uint32 (str_drop 1 hdr) in
  if 4 * 2^20 <? n then fail (EMsg "terminal: frame too large")
  else if n =? 0 then mret (kind, EmptyString)
  else body ← read_full (Z.to_nat n); mret (kind, body).

(** ** Fields that end in NUL *)

Definition readField : M string string := read_until NUL.
Definition writeField (s : string) : string := (s +:+ String NUL EmptyString)%string.
Definition write_fields (l : list string) : string := foldr (fun s acc => writeField s +:+ acc)%string EmptyString l.

Definition writeOK (payload : string) : string := write_fields ["ok"%string; payload].
Definition writeErr (msg : string) : string := write_fields ["err"%string; msg].
Definition writeOKList (items : list string) : string :=
  (writeField "ok" +:+ writeField (pretty (Z.of_nat (length items))) +:+ write_fields items)%string.

Definition or_agent_error (msg : string) : string := if str_empty msg then "agent error"%string else msg.

Definition readReply : M string string :=
  st ← readField;
  payload ← readField;
  if String.eqb st "ok" then mret payload else fail (EMsg (or_agent_error payload)).

Fixpoint read_n (n : nat) : M string (list string) :=
  match n with
  | O => mret []
  | Datatypes.S n => s ← readField; l ← read_n n; mret (s :: l)
  end.

(** [fmt.Sscanf(s, "%d", &n)] of a text without leading white space: the sign
    and the digits at the front; [None] when there are no digits or the number
    does not fit. *)
Definition scan_digits (s : string) : option Z :=
  let d := take_while is_digit s in
  match d with EmptyString => None | _ => parse_digits d 0 end.
Definition Sscanf_d (s : string) : option Z :=
  z ← match s with
      | String "-" s => Z.opp <$> scan_digits s
      | String "+" s => scan_digits s
      | _ => scan_digits s
      end;
  if (- 2^63 <=? z) && (z <=? max_int64) then Some z else None.

Definition readReplyList : M string (list string) :=
  st ← readField;
  nRaw ← readField;
  if String.eqb st "ok" then read_n (Z.to_nat (default 0 (Sscanf_d nRaw)))
  else fail (EMsg (or_agent_error nRaw)).

(** ** The header of a session *)

Record CreateRequest := mkCreate {
  cr_Shell : string; cr_Cwd : string; cr_Cols : Z; cr_Rows : Z; cr_Xpixel : Z; cr_Ypixel : Z; cr_Env : list string;
}.
Definition create_zero : CreateRequest := mkCreate "" "" 0 0 0 0 [].

Definition line (s : string) : string := (s +:+ String nl EmptyString)%string.
Definition lines (l : list string) : string := foldr (fun s acc => line s +:+ acc)%string EmptyString l.

Definition WriteCreate (req : CreateRequest) : string :=
  lines (["CREATE"; "shell=" +:+ cr_Shell req; "cwd=" +:+ cr_Cwd req; "cols=" +:+ pretty (cr_Cols req);
          "rows=" +:+ pretty (cr_Rows req); "xpixel=" +:+ pretty (cr_Xpixel req);
          "ypixel=" +:+ pretty (cr_Ypixel req); "env_count=" +:+ pretty (Z.of_nat (length (cr_Env req)))]%string
         ++ cr_Env req ++ [EmptyString]).

(** A line is cut off at a megabyte. At the end of the input what was read
    counts as a line. *)
Definition maxLine : nat := Z.to_nat (2^20).
Definition ReadLine : M string string := fun s =>
  match cut nl s with
  | Some (a, rest) =>
      if (maxLine <? String.length a)%nat then (str_drop (Datatypes.S maxLine) s, Fail (EMsg "terminal: header line too long"))
      else (rest, Ok a)
  | None =>
      if (maxLine <? String.length s)%nat then (str_drop (Datatypes.S maxLine) s, Fail (EMsg "terminal: header line too long"))
      else if str_empty s then (EmptyString, Fail EEOF) else (EmptyString, Ok s)
  end.

Fixpoint read_lines (n : nat) : M string (list string) :=
  match n with
  | O => mret []
  | Datatypes.S n => l ← ReadLine; ls ← read_lines n; mret (l :: ls)
  end.

Definition scan_field (name v : string) : M string Z :=
  match Sscanf_d v with Some n => mret n | None => fail (EWrap ("terminal: " +:+ name)%string (EMsg "expected integer")) end.

Definition set_field (k v : string) (req : CreateRequest) : M string CreateRequest :=
  let '(mkCreate shell cwd cols rows xp yp env) := req in
  if String.eqb k "shell" then mret (mkCreate v cwd cols rows xp yp env)
  else if String.eqb k "cwd" then mret (mkCreate shell v cols rows xp yp env)
  else if String.eqb k "cols" then n ← scan_field k v; mret (mkCreate shell cwd n rows xp yp env)
  else if String.eqb k "rows" then n ← scan_field k v; mret (mkCreate shell cwd cols n xp yp env)
  else if String.eqb k "xpixel" then n ← scan_field k v; mret (mkCreate shell cwd cols rows n yp env)
  else if String.eqb k "ypixel" then n ← scan_field k v; mret (mkCreate shell cwd cols rows xp n env)
  else if String.eqb k "env_count" then
    n ← scan_field k v;
    ls ← read_lines (Z.to_nat n);
    mret (mkCreate shell cwd cols rows xp yp (env ++ ls))
  else mret req.

(** The loop over the lines; each round reads at least a byte. *)
Fixpoint read_header (fuel : nat) (req : CreateRequest) : M string CreateRequest :=
  match fuel with
  | O => fail (EMsg "out of fuel")
  | Datatypes.S fuel =>
      l ← ReadLine;
      if str_empty l then mret req
      else match cut "=" l with
           | None => read_header fuel req
           | Some (k, v) => req ← set_field k v req; read_header fuel req
           end
  end.

Definition ReadCreate : M string CreateRequest := fun s =>
  (l ← ReadLine;
   if String.eqb l "CREATE" then read_header (Datatypes.S (String.length s)) create_zero
   else fail (EMsg "terminal: want CREATE")) s.

(** ** Words *)

Lemma byte_chr_code z : 0 <= z < 256 -> Z.of_N (code (byte_chr z)) = z.
Proof. intros Hz. unfold byte_chr. rewrite N_ascii_embedding by lia. lia. Qed.

Lemma lor_shift a b n : 0 <= n -> 0 <= b < 2^n -> Z.lor (Z.shiftl a n) b = a * 2^n + b.
Proof.
  intros Hn Hb. rewrite <- Z.shiftl_mul_pow2 by done.
  destruct (decide (b = 0)) as [->|Hb0]; [by rewrite Z.lor_0_r, Z.add_0_r|].
  assert (Z.land (Z.shiftl a n) b = 0) as H0.
  { apply Z.bits_inj'. intros i Hi. rewrite Z.land_spec, Z.bits_0. destruct (Z.lt_ge_cases i n).
    - by rewrite Z.shiftl_spec_low by lia.
    - rewrite (Z.bits_above_log2 b i); [by rewrite andb_false_r|lia|]. apply Z.log2_lt_pow2; [lia|].
      eapply Z.lt_le_trans; [apply Hb|]. apply Z.pow_le_mono_r; lia. }
  rewrite <- Z.lxor_lor by done. symmetry. by apply Z.add_nocarry_lxor.
Qed.

Lemma Uint32_PutUint32 n : 0 <= n < 2^32 -> Uint32 (PutUint32 n) = n.
Proof.
  intros Hn. unfold Uint32, PutUint32, byte_at. cbn [str_at].
  assert (forall k, 0 <= Z.land (Z.shiftr n k) 255 < 256) as Hr.
  { intros k. change 255 with (Z.ones 8). rewrite Z.land_ones by done. apply Z.mod_pos_bound. done. }
  pose proof (Hr 0) as Hr0. rewrite Z.shiftr_0_r in Hr0. rewrite !byte_chr_code by auto.
  assert (forall k, 0 <= k -> Z.land (Z.shiftr n k) 255 = n `div` 2^k `mod` 256) as Hb.
  { intros k Hk. change 255 with (Z.ones 8). by rewrite Z.land_ones, Z.shiftr_div_pow2. }
  assert (Z.land n 255 = n `mod` 256) as -> by (change 255 with (Z.ones 8); by rewrite Z.land_ones).
  rewrite !Hb by done. set (b3 := n `div` 2^24 `mod` 256). set (b2 := n `div` 2^16 `mod` 256).
  set (b1 := n `div` 2^8 `mod` 256). set (b0 := n `mod` 256).
  assert (0 <= b3 < 256) by (apply Z.mod_pos_bound; done). assert (0 <= b2 < 256) by (apply Z.mod_pos_bound; done).
  assert (0 <= b1 < 256) by (apply Z.mod_pos_bound; done). assert (0 <= b0 < 256) by (apply Z.mod_pos_bound; done).
  assert (Z.lor (Z.shiftl b3 24) (Z.shiftl b2 16) = (b3 * 256 + b2) * 2^16) as ->.
  { rewrite lor_shift; rewrite ?Z.shiftl_mul_pow2 by done; lia. }
  assert (Z.lor (Z.shiftl b1 8) b0 = b1 * 256 + b0) as -> by (rewrite lor_shift by lia; lia).
  rewrite <- Z.shiftl_mul_pow2 by done. rewrite lor_shift by lia.
  assert (n = (n `div` 2^16) * 2^16 + n `mod` 2^16) as E1 by (pose proof (Z.div_mod n (2^16)); lia).
  assert (n `div` 2^16 = b3 * 256 + b2) as Eh.
  { unfold b3, b2. replace (n `div` 2^24) with (n `div` 2^16 `div` 256) by (rewrite Z.div_div by done; done).
    rewrite (Z.mod_small (n `div` 2^16 `div` 256)); [pose proof (Z.div_mod (n `div` 2^16) 256); lia|].
    split; [apply Z.div_pos; [apply Z.div_pos; lia|done]|]. apply Z.div_lt_upper_bound; [done|].
    apply Z.div_lt_upper_bound; [done|]. lia. }
  assert (n `mod` 2^16 = b1 * 256 + b0) as El.
  { unfold b1, b0. change (2^16) with (256 * 256). change (2^8) with 256. rewrite Z.rem_mul_r by lia. lia. }
  lia.
Qed.

(** ** Round trips *)

Lemma read_full_app n a rest : String.length a = n -> read_full n (a +:+ rest) = (rest, Ok a).
Proof.
  intros <-. unfold read_full. destruct (Nat.eqb_spec (String.length a) 0) as [E|Hn]; [by destruct a|].
  rewrite str_length_app. rewrite (proj2 (Nat.leb_le _ _)) by lia. by rewrite str_drop_app, str_take_app.
Qed.

Lemma PutUint32_length n : String.length (PutUint32 n) = 4%nat.
Proof. done. Qed.

Section FrameTrip.
Context {A : Type} `{Codec A, !CodecLaws A}.

Lemma ReadFrame_WriteFrame (v : A) f rest :
  codec_valid v -> marshal v <> [] -> WriteFrame v = Ok f -> ReadFrame (f +:+ rest) = (rest, Ok v).
Proof.
  intros Hv Hne. unfold WriteFrame. set (body := String.string_of_list_byte (marshal v)).
  destruct (Z.ltb_spec maxFrame (Z.of_nat (String.length body))) as [|Hmax]; [done|]. intros [= <-].
  assert (0 < Z.of_nat (String.length body) < 2^32) as Hlen.
  { unfold maxFrame in Hmax. split; [|lia]. unfold body. destruct (marshal v); [done|]. simpl. lia. }
  unfold ReadFrame. rewrite str_app_assoc. erewrite bind_Ok by by apply read_full_app.
  rewrite Uint32_PutUint32 by lia. rewrite (proj2 (Z.eqb_neq _ _)) by lia. rewrite (proj2 (Z.ltb_ge _ _)) by done.
  erewrite bind_Ok by (apply read_full_app; lia). unfold body. rewrite String.list_byte_of_string_of_list_byte.
  by rewrite (unmarshal_marshal v Hv).
Qed.
End FrameTrip.

Lemma term_frame_trip kind payload rest :
  Z.of_nat (String.length payload) <= 4 * 2^20 ->
  term_ReadFrame (term_WriteFrame kind payload +:+ rest) = (rest, Ok (kind, payload)).
Proof.
  intros Hlen. unfold term_ReadFrame, term_WriteFrame. set (n := Z.of_nat (String.length payload)) in *.
  change (String kind (PutUint32 n +:+ payload) +:+ rest)%string with (String kind ((PutUint32 n +:+ payload) +:+ rest)).
  rewrite str_app_assoc. change (String kind (PutUint32 n +:+ payload +:+ rest)) with (String kind (PutUint32 n) +:+ payload +:+ rest)%string.
  erewrite bind_Ok by by apply read_full_app. cbn [str_at str_drop default]. rewrite Uint32_PutUint32 by lia.
  rewrite (proj2 (Z.ltb_ge _ _)) by done. destruct (Z.eqb_spec n 0) as [E|Hn].
  - destruct payload; [done|]. unfold n in E. simpl in E. lia.
  - erewrite bind_Ok by (apply read_full_app; unfold n; lia). done.
Qed.

(** A frame written to the control or the terminal socket is read back as the same message, and
    the bytes behind it are left for the next read: every value the codec can encode, up to 16 MiB,
    and every terminal payload up to 4 MiB. *)
Theorem frames_roundtrip {A : Type} `{Codec A, !CodecLaws A} (v : A) (f rest : string) (kind : ascii) (payload : string) :
  codec_valid v -> marshal v <> [] -> WriteFrame v = Ok f -> Z.of_nat (String.length payload) <= 4 * 2^20 ->
  ReadFrame (f +:+ rest) = (rest, Ok v) /\
  term_ReadFrame (term_WriteFrame kind payload +:+ rest) = (rest, Ok (kind, payload)).
Proof. intros Hv Hne Hf Hlen. split; [by apply ReadFrame_WriteFrame|by apply term_frame_trip]. Qed.

(** *** Fields *)

Lemma readField_writeField s rest : str_has NUL s = false -> readField (writeField s +:+ rest) = (rest, Ok s).
Proof.
  intros Hs. unfold readField, read_until, writeField. rewrite str_app_assoc.
  change (String NUL "" +:+ rest)%string with (String NUL rest). by rewrite (cut_app NUL s rest Hs).
Qed.

Lemma read_n_write_fields l rest :
  Forall (fun s => str_has NUL s = false) l -> read_n (length l) (write_fields l +:+ rest) = (rest, Ok l).
Proof.
  induction l as [|s l IH]; intros Hl; [done|]. apply Forall_cons in Hl as [Hs Hl]. cbn [length read_n write_fields foldr].
  rewrite str_app_assoc. erewrite bind_Ok by by apply readField_writeField. fold (write_fields l).
  by erewrite bind_Ok by by apply IH.
Qed.

Lemma take_while_all p s : str_all p s = true -> take_while p s = s.
Proof. induction s as [|c s IH]; simpl; [done|]. intros [Hc Hs]%andb_true_iff. rewrite Hc. by rewrite IH. Qed.

Lemma pretty_N_digits (n : N) : str_all is_digit (pretty n) = true.
Proof.
  unfold pretty, pretty_N. destruct (decide (n = 0)%N) as [->|Hn]; [done|].
  assert (forall s, str_all is_digit s = true -> str_all is_digit (pretty_N_go n s) = true) as H; [|by apply H].
  clear Hn. induction (N.lt_wf_0 n) as [n _ IH]. intros s Hs. destruct (decide (0 < n)%N) as [Hn|Hn].
  - rewrite pretty_N_go_step by done. apply IH; [apply N.div_lt; lia|]. simpl. rewrite Hs, andb_true_r.
    pose proof (N.mod_lt n 10 ltac:(lia)) as Hm. revert Hm. generalize (n `mod` 10)%N. intros d Hd.
    assert (d = 0 \/ d = 1 \/ d = 2 \/ d = 3 \/ d = 4 \/ d = 5 \/ d = 6 \/ d = 7 \/ d = 8 \/ d = 9)%N as Hc by lia.
    by repeat destruct Hc as [->|Hc]; [..|subst].
  - assert (n = 0%N) as -> by lia. by rewrite pretty_N_go_0.
Qed.

Lemma scan_digits_pretty (n : N) : scan_digits (pretty n) = Some (Z.of_N n).
Proof.
  unfold scan_digits. rewrite take_while_all by apply pretty_N_digits. rewrite parse_digits_pretty_N.
  by destruct (pretty_N_first n) as (c & s & -> & _).
Qed.

Lemma Sscanf_pretty (z : Z) : int64 z -> Sscanf_d (pretty z) = Some z.
Proof.
  intros Hz. assert ((- 2^63 <=? z) && (z <=? max_int64) = true) as Hb.
  { unfold int64, max_int64 in *. apply andb_true_iff; split; apply Z.leb_le; lia. }
  destruct z as [|p|p]; [done| |].
  - change (pretty (Z.pos p)) with (pretty (N.pos p)). pose proof (scan_digits_pretty (N.pos p)) as H1.
    pose proof (pretty_N_digits (N.pos p)) as H2. destruct (pretty_N_first (N.pos p)) as (c & s & Hc & _).
    rewrite Hc in H1, H2 |- *. simpl in H2. apply andb_true_iff in H2 as [H2 _]. unfold Sscanf_d.
    destruct c as [[] [] [] [] [] [] [] []]; try done; rewrite H1; cbn [mbind option_bind Z.of_N]; by rewrite Hb.
  - change (Sscanf_d (pretty (Z.neg p))) with
      (z ← Z.opp <$> scan_digits (pretty (N.pos p)); if (- 2^63 <=? z) && (z <=? max_int64) then Some z else None).
    rewrite scan_digits_pretty. cbn [mbind option_bind fmap option_fmap option_map].
    change (- Z.of_N (N.pos p)) with (Z.neg p). by rewrite Hb.
Qed.

Lemma digits_no c s : str_all is_digit s = true -> is_digit c = false -> str_has c s = false.
Proof.
  intros Hs Hc. induction s as [|d s IH]; [done|]. simpl in Hs. apply andb_true_iff in Hs as [Hd Hs].
  rewrite str_has_cons, (IH Hs), orb_false_r. destruct (Ascii.eqb_spec c d) as [->|]; [congruence|done].
Qed.

Lemma pretty_no c (z : Z) : is_digit c = false -> Ascii.eqb c "-" = false -> str_has c (pretty z) = false.
Proof.
  intros Hc Hm. destruct z as [|p|p].
  - exact (digits_no c "0" eq_refl Hc).
  - change (pretty (Z.pos p)) with (pretty (N.pos p)). apply digits_no; [apply pretty_N_digits|done].
  - change (pretty (Z.neg p)) with (String "-" (pretty (N.pos p))). rewrite str_has_cons, Hm. simpl.
    apply digits_no; [apply pretty_N_digits|done].
Qed.

(** A reply written in the NUL format is read back: the payload or the list of items of a success,
    the message of an error (or a default one), for texts without NUL bytes. *)
Theorem replies_roundtrip (payload msg rest : string) (items : list string) :
  str_has NUL payload = false -> str_has NUL msg = false -> Forall (fun s => str_has NUL s = false) items ->
  int64 (Z.of_nat (length items)) ->
  readReply (writeOK payload +:+ rest) = (rest, Ok payload) /\
  readReply (writeErr msg +:+ rest) = (rest, Fail (EMsg (or_agent_error msg))) /\
  readReplyList (writeOKList items +:+ rest) = (rest, Ok items).
Proof.
  intros Hp Hm Hi Hn. unfold readReply, writeOK, writeErr, readReplyList, writeOKList, write_fields. cbn [foldr].
  rewrite !str_app_assoc. split_and!.
  - erewrite bind_Ok by by apply readField_writeField. by erewrite bind_Ok by by apply readField_writeField.
  - erewrite bind_Ok by by apply readField_writeField. by erewrite bind_Ok by by apply readField_writeField.
  - erewrite bind_Ok by by apply readField_writeField. erewrite bind_Ok by (apply readField_writeField; by apply pretty_no).
    rewrite Sscanf_pretty by done. rewrite String.eqb_refl.
    change (default 0 (Some (Z.of_nat (length items)))) with (Z.of_nat (length items)). rewrite Nat2Z.id. exact (read_n_write_fields items rest Hi).
Qed.

(** *** The header *)

Definition line_ok (s : string) : Prop := str_has nl s = false /\ (String.length s <= maxLine)%nat.

Lemma ReadLine_line s rest : line_ok s -> ReadLine (line s +:+ rest) = (rest, Ok s).
Proof.
  intros [Hs Hlen]. unfold ReadLine, line. rewrite str_app_assoc. change (String nl "" +:+ rest)%string with (String nl rest).
  rewrite (cut_app nl s rest Hs). by rewrite (proj2 (Nat.ltb_ge _ _)).
Qed.

Lemma read_lines_lines l rest : Forall line_ok l -> read_lines (length l) (lines l +:+ rest) = (rest, Ok l).
Proof.
  induction l as [|s l IH]; intros Hl; [done|]. apply Forall_cons in Hl as [Hs Hl]. cbn [length read_lines lines foldr].
  rewrite str_app_assoc. erewrite bind_Ok by by apply ReadLine_line. fold (lines l). by erewrite bind_Ok by by apply IH.
Qed.

Record create_ok (req : CreateRequest) : Prop := {
  co_shell : line_ok ("shell=" +:+ cr_Shell req);
  co_cwd : line_ok ("cwd=" +:+ cr_Cwd req);
  co_ints : Forall int64 [cr_Cols req; cr_Rows req; cr_Xpixel req; cr_Ypixel req; Z.of_nat (length (cr_Env req))];
  co_env : Forall line_ok (cr_Env req);
}.

(** A line of the header that sets a field. *)
Lemma read_field fuel l k v req req' rest rest' :
  l = (k +:+ String "=" v)%string -> str_has "=" k = false -> line_ok l -> set_field k v req rest = (rest', Ok req') ->
  read_header (Datatypes.S fuel) req (line l +:+ rest) = read_header fuel req' rest'.
Proof.
  intros -> Hk Hl Hset. cbn [read_header]. erewrite bind_Ok by by apply ReadLine_line.
  replace (str_empty (k +:+ String "=" v)) with false by by destruct k. rewrite (cut_app "=" k v Hk).
  by erewrite bind_Ok by exact Hset.
Qed.

Lemma pretty_go_len k n s : (n < 10 ^ N.of_nat k)%N -> (String.length (pretty_N_go n s) <= k + String.length s)%nat.
Proof.
  revert n s. induction k as [|k IH]; intros n s Hn.
  { assert (n = 0%N) as -> by (simpl in Hn; lia). rewrite pretty_N_go_0. lia. }
  destruct (decide (0 < n)%N) as [Hp|Hp].
  - rewrite pretty_N_go_step by done. etrans; [apply IH|simpl; lia]. apply N.div_lt_upper_bound; [lia|].
    rewrite Nat2N.inj_succ, N.pow_succ_r' in Hn. done.
  - assert (n = 0%N) as -> by lia. rewrite pretty_N_go_0. lia.
Qed.

Lemma pretty_len (z : Z) : int64 z -> (String.length (pretty z) <= 21)%nat.
Proof.
  intros Hz. unfold int64, max_int64 in Hz.
  assert (forall p, Z.pos p <= 2^63 -> (String.length (pretty (N.pos p)) <= 20)%nat) as Hp.
  { intros p Hp. unfold pretty, pretty_N. rewrite decide_False by done. etrans; [apply (pretty_go_len 20)|simpl; lia].
    change (10 ^ N.of_nat 20)%N with 100000000000000000000%N. lia. }
  destruct z as [|p|p]; [simpl; lia| |].
  - change (pretty (Z.pos p)) with (pretty (N.pos p)). etrans; [apply Hp; lia|lia].
  - change (pretty (Z.neg p)) with (String "-" (pretty (N.pos p))). simpl. apply le_n_S. apply Hp. lia.
Qed.

Lemma int_line_ok k (z : Z) : int64 z -> str_has nl k = false -> (String.length k <= 20)%nat -> line_ok (k +:+ String "=" (pretty z)).
Proof.
  intros Hz Hk Hlen. split.
  - induction k as [|c k IH].
    + change ("" +:+ String "=" (pretty z))%string with (String "=" (pretty z)). rewrite str_has_cons.
      apply orb_false_iff. split; [done|by apply pretty_no].
    + change (String c k +:+ String "=" (pretty z))%string with (String c (k +:+ String "=" (pretty z))).
      rewrite str_has_cons in Hk |- *. apply orb_false_iff in Hk as [-> Hk]. apply IH; [done|simpl in Hlen; lia].
  - rewrite str_length_app. pose proof (pretty_len z Hz). cbn [String.length]. unfold maxLine. lia.
Qed.

Lemma scan_field_pretty k (z : Z) s : int64 z -> scan_field k (pretty z) s = (s, Ok z).
Proof. intros Hz. unfold scan_field. by rewrite Sscanf_pretty. Qed.

Lemma create_line_ok : line_ok "CREATE".
Proof. split; [done|]. unfold maxLine. simpl String.length. lia. Qed.
Lemma empty_line_ok : line_ok "".
Proof. split; [done|]. simpl. lia. Qed.

#[local] Opaque maxLine.

Lemma lines_app a b : lines (a ++ b) = (lines a +:+ lines b)%string.
Proof. unfold lines. induction a as [|s a IH]; simpl; [done|]. by rewrite IH, str_app_assoc. Qed.

(** The numeric fields. *)
Lemma set_int shell cwd cols rows xp yp env k (z : Z) s :
  int64 z ->
  set_field k (pretty z) (mkCreate shell cwd cols rows xp yp env) s =
    (if String.eqb k "cols" then (s, Ok (mkCreate shell cwd z rows xp yp env))
     else if String.eqb k "rows" then (s, Ok (mkCreate shell cwd cols z xp yp env))
     else if String.eqb k "xpixel" then (s, Ok (mkCreate shell cwd cols rows z yp env))
     else if String.eqb k "ypixel" then (s, Ok (mkCreate shell cwd cols rows xp z env))
     else set_field k (pretty z) (mkCreate shell cwd cols rows xp yp env) s).
Proof.
  intros Hz. unfold set_field.
  destruct (String.eqb_spec k "cols") as [->|]; [cbn [String.eqb Ascii.eqb Bool.eqb]; by erewrite bind_Ok by by apply scan_field_pretty|].
  destruct (String.eqb_spec k "rows") as [->|]; [cbn [String.eqb Ascii.eqb Bool.eqb]; by erewrite bind_Ok by by apply scan_field_pretty|].
  destruct (String.eqb_spec k "xpixel") as [->|]; [cbn [String.eqb Ascii.eqb Bool.eqb]; by erewrite bind_Ok by by apply scan_field_pretty|].
  destruct (String.eqb_spec k "ypixel") as [->|]; [cbn [String.eqb Ascii.eqb Bool.eqb]; by erewrite bind_Ok by by apply scan_field_pretty|].
  done.
Qed.

(** The header that opens a terminal session survives the socket: ReadCreate of what WriteCreate
    wrote gives the same request and stops behind it, for texts without line breaks and lines up to a
    megabyte. *)
Theorem ReadCreate_WriteCreate (req : CreateRequest) (rest : string) :
  create_ok req -> ReadCreate (WriteCreate req +:+ rest) = (rest, Ok req).
Proof.
  intros [Hsh Hcwd Hints Henv]. destruct req as [shell cwd cols rows xp yp envs]. simpl in *.
  apply Forall_cons in Hints as [I1 [I2 [I3 [I4 [I5 _]%Forall_cons]%Forall_cons]%Forall_cons]%Forall_cons].
  unfold ReadCreate. set (s := (WriteCreate _ +:+ rest)%string).
  assert (exists f, Datatypes.S (String.length s) = (8 + f)%nat) as [f ->].
  { exists (String.length s - 7)%nat. unfold s, WriteCreate, lines. cbn [app foldr]. unfold line at 1.
    rewrite !str_length_app. simpl String.length. lia. }
  unfold s, WriteCreate, lines. cbn [app foldr cr_Shell cr_Cwd cr_Cols cr_Rows cr_Xpixel cr_Ypixel cr_Env].
  rewrite !str_app_assoc. erewrite bind_Ok by (apply ReadLine_line, create_line_ok).
  rewrite String.eqb_refl. change (8 + f)%nat with (Datatypes.S (Datatypes.S (Datatypes.S (Datatypes.S (Datatypes.S (Datatypes.S (Datatypes.S (Datatypes.S f)))))))).
  erewrite (read_field _ _ "shell" shell); [|reflexivity|done|exact Hsh|reflexivity].
  erewrite (read_field _ _ "cwd" cwd); [|reflexivity|done|exact Hcwd|reflexivity].
  erewrite (read_field _ _ "cols" (pretty cols)); [|reflexivity|done|apply (int_line_ok "cols"); [done|done|simpl; lia]|rewrite set_int by done; reflexivity].
  erewrite (read_field _ _ "rows" (pretty rows)); [|reflexivity|done|apply (int_line_ok "rows"); [done|done|simpl; lia]|rewrite set_int by done; reflexivity].
  erewrite (read_field _ _ "xpixel" (pretty xp)); [|reflexivity|done|apply (int_line_ok "xpixel"); [done|done|simpl; lia]|rewrite set_int by done; reflexivity].
  erewrite (read_field _ _ "ypixel" (pretty yp)); [|reflexivity|done|apply (int_line_ok "ypixel"); [done|done|simpl; lia]|rewrite set_int by done; reflexivity].
  erewrite (read_field _ _ "env_count" (pretty (Z.of_nat (length envs)))); [|reflexivity|done|apply (int_line_ok "env_count"); [done|done|simpl; lia]|].
  2: { unfold set_field. cbn [String.eqb Ascii.eqb Bool.eqb]. erewrite bind_Ok by by apply scan_field_pretty.
       rewrite Nat2Z.id. fold (lines (envs ++ [EmptyString])). rewrite lines_app, str_app_assoc.
       erewrite bind_Ok by by apply read_lines_lines. reflexivity. }
  cbn [read_header]. erewrite bind_Ok by (apply (ReadLine_line ""), empty_line_ok). done.
Qed.
