(* ===== verification/Overlay.v ===== *)
(** The popups of the shell widgets: where they are placed, how they are drawn
    over the terminal and how what they covered is put back
    ([internal/ptyproxy/place.go], [internal/tui/overlay.go]), and the screen
    capture that travels between the processes
    ([internal/ptyproxy/screen.go]). The terminal is a parameter with the
    documented effect of the few sequences that are written to it. *)

From S2P Require Import Prelude Text Utf8 Wire.
From Stdlib Require Import Ascii.

(** ** [place.go]: placement *)

Record Rect := mkRect { rc_X : Z; rc_Y : Z; rc_W : Z; rc_H : Z }.
Record Placement := mkPlacement { pl_Rect : Rect; pl_Scroll : Z }.
(** [Snapshot] of [screen.go] *)
Record Screen := mkScreen { sc_Rows : Z; sc_Cols : Z; sc_CursorRow : Z; sc_CursorCol : Z; sc_RowANSI : list string }.

Definition Place (cursorRow termRows termCols height : Z) : Placement :=
  let termRows := if termRows <? 1 then 1 else termRows in
  let termCols := if termCols <? 1 then 1 else termCols in
  let height := if height <? 1 then 1 else height in
  let height := if termRows <? height then termRows else height in
  let spaceBelow := termRows - cursorRow in
  let spaceBelow := if spaceBelow <? 0 then 0 else spaceBelow in
  if height <=? spaceBelow then mkPlacement (mkRect 0 cursorRow termCols height) 0
  else if termRows `quot` 2 <=? cursorRow then
    let y := cursorRow - height in
    mkPlacement (mkRect 0 (if y <? 0 then 0 else y) termCols height) 0
  else
    let scroll := height - spaceBelow in
    let scroll := if scroll <? 0 then 0 else scroll in
    let y := cursorRow - scroll in
    mkPlacement (mkRect 0 (if y <? 0 then 0 else y) termCols height) scroll.

(** [rowHasPrintable], with [ansi.Strip] and [unicode.IsSpace] as a predicate. *)
Section Content.
Context (rowHasPrintable : string -> bool).
Fixpoint last_printable (i last : Z) (rows : list string) : Z :=
  match rows with
  | [] => last
  | row :: rows => last_printable (i + 1) (if rowHasPrintable row then i else last) rows
  end.
Definition ContentCursorRow (s : Screen) : Z :=
  let last := last_printable 0 (-1) (sc_RowANSI s) in
  if last <? 0 then sc_CursorRow s else if last <? sc_CursorRow s then last else sc_CursorRow s.
End Content.

(** ** What is written to the terminal *)

Inductive Out := OMove (row col : Z) | OWrite (s : string).
Definition ESC : ascii := "027".
Definition csi (s : string) : string := String ESC (String "[" s).
Definition out_bytes (o : Out) : string :=
  match o with OMove row col => csi (sprint_d row +:+ ";" +:+ sprint_d col +:+ "H") | OWrite s => s end.
Definition reset_ : string := csi "0m".
Definition show_ : string := csi "?25h".
Definition hide_ : string := csi "?25l".

(** [strings.Repeat] *)
Fixpoint str_repeat (s : string) (n : nat) : string := match n with O => EmptyString | Datatypes.S n => (s +:+ str_repeat s n)%string end.
Definition blanks (n : Z) : string := str_repeat " " (Z.to_nat n).

Definition MoveTo (col row : Z) : Out := OMove ((if row <? 0 then 0 else row) + 1) ((if col <? 0 then 0 else col) + 1).
Definition ScrollUp (termRows n : Z) : list Out :=
  if (n <=? 0) || (termRows <? 1) then [] else [MoveTo 0 (termRows - 1); OWrite (str_repeat (String nl EmptyString) (Z.to_nat n))].
(** The rows of a rectangle. *)
Definition rect_rows (y h : Z) : list Z := (fun i => y + Z.of_nat i) <$> seq 0 (Z.to_nat h).
Definition ClearRect (r : Rect) : list Out :=
  if (rc_W r <? 1) || (rc_H r <? 1) then []
  else rect_rows (rc_Y r) (rc_H r) ≫= fun y => [MoveTo (rc_X r) y; OWrite reset_; OWrite (blanks (rc_W r))].
Definition restore_row (s : Screen) (r : Rect) (scroll target : Z) : list Out :=
  [MoveTo (rc_X r) target; OWrite reset_; OWrite (blanks (rc_W r)); MoveTo (rc_X r) target] ++
  let src := target + scroll in
  if (0 <=? src) && (src <? Z.of_nat (length (sc_RowANSI s))) then [OWrite (default EmptyString (sc_RowANSI s !! Z.to_nat src))] else [].
Definition Restore (s : Screen) (r : Rect) (scroll : Z) : list Out :=
  if (rc_W r <? 1) || (rc_H r <? 1) then []
  else (rect_rows (rc_Y r) (rc_H r) ≫= restore_row s r scroll) ++
       (let row := sc_CursorRow s - scroll in [MoveTo (sc_CursorCol s) (if row <? 0 then 0 else row); OWrite show_]).
Definition Prepare (snap : Screen) (place : Placement) : list Out :=
  (if 0 <? pl_Scroll place then ScrollUp (sc_Rows snap) (pl_Scroll place) else []) ++ ClearRect (pl_Rect place) ++ [MoveTo (rc_X (pl_Rect place)) (rc_Y (pl_Rect place))].

(** ** [overlay.go]: geometry *)

Definition SearchListMinRows : Z := 5.
Definition SearchChromeRows : Z := 4.
Definition SearchMinOverlayHeight : Z := SearchChromeRows + SearchListMinRows.

Definition overlayRows (termRows percent : Z) : Z :=
  let termRows := if termRows <? 1 then 1 else termRows in
  if (percent <=? 0) || (100 <=? percent) then termRows
  else
    let h := (termRows * percent + 50) `quot` 100 in
    let minH := if termRows <? SearchMinOverlayHeight then termRows else SearchMinOverlayHeight in
    let h := if h <? minH then minH else h in
    if termRows <? h then termRows else h.
Definition overlayOriginY (cursorRow termRows termCols height : Z) : Z :=
  if termRows <=? height then 0 else rc_Y (pl_Rect (Place cursorRow termRows termCols height)).

(** [composeOverlay] *)
Definition compose_row (y h : Z) (bg lines : list string) (i : Z) : string :=
  if (y <=? i) && (i <? y + h) then default EmptyString (lines !! Z.to_nat (i - y)) else default EmptyString (bg !! Z.to_nat i).
Definition composeOverlay (termRows y h : Z) (bg : list string) (body : string) : string :=
  if termRows <? 1 then body
  else
    let h := if (h <? 1) || (termRows <? h) then termRows else h in
    let y := if y <? 0 then 0 else y in
    let y := if termRows <? y + h then termRows - h else y in
    if (y <=? 0) && (termRows <=? h) then body
    else join_with (String nl EmptyString) (compose_row y h bg (split_on nl body) <$> rect_rows 0 termRows).

Definition fitScreen (bg : list string) (rows : Z) : list string :=
  if rows <? 1 then [] else let src := take (Z.to_nat rows) bg in src ++ replicate (Z.to_nat rows - length src) EmptyString.

(** ** [overlay.go]: drawing *)

Section Draw.
(** [lipgloss.Width] and [ansi.Truncate] *)
Context (Width : string -> Z) (Truncate : string -> Z -> string -> string).

Definition draw_lines (body : string) : list string := split_on nl (replace_all body (String "013" (String nl EmptyString)) (String nl EmptyString)).
Definition fit_line (cols : Z) (line : string) : string := if cols <? Width line then Truncate line cols EmptyString else line.
Definition fixed_row (cols y : Z) (lines : list string) (i : nat) : list Out :=
  let line := fit_line cols (default EmptyString (lines !! i)) in
  [MoveTo 0 (y + Z.of_nat i); OWrite reset_; OWrite line] ++
  if 0 <? cols - Width line then [OWrite (blanks (cols - Width line))] else [].
Definition drawFixed (cols y h : Z) (body : string) : list Out :=
  if h <? 1 then []
  else let cols := if cols <? 1 then 1 else cols in OWrite hide_ :: (seq 0 (Z.to_nat h) ≫= fixed_row cols y (draw_lines body)).
Definition composed_row (cols : Z) (lines : list string) (i : nat) : list Out :=
  [MoveTo 0 (Z.of_nat i); OWrite (reset_ +:+ csi "K"); OWrite (fit_line cols (default EmptyString (lines !! i)))].
Definition drawComposed (cols termRows y h : Z) (bg : list string) (body : string) : list Out :=
  if termRows <? 1 then []
  else let cols := if cols <? 1 then 1 else cols in
       OWrite hide_ :: (seq 0 (Z.to_nat termRows) ≫= composed_row cols (draw_lines (composeOverlay termRows y h bg body))).
End Draw.

(** ** Placement *)

(** The popup lies on the screen, as high as asked for where there is room. The
    screen is only scrolled when the popup fits neither below nor, with the
    cursor in the upper half, above; then the popup covers the rows from the
    cursor's on. *)
Lemma Place_fits cursorRow R C height : 1 <= R -> 1 <= C -> 0 <= cursorRow < R ->
  let p := Place cursorRow R C height in
  let r := pl_Rect p in
  rc_X r = 0 /\ rc_W r = C /\ rc_H r = Z.min R (Z.max 1 height) /\ 0 <= rc_Y r /\ rc_Y r + rc_H r <= R /\ 0 <= pl_Scroll p <= cursorRow /\
  (pl_Scroll p <> 0 -> cursorRow - pl_Scroll p = rc_Y r /\ rc_Y r + rc_H r = R).
Proof.
  intros HR HC Hc. cbn zeta. unfold Place. rewrite (proj2 (Z.ltb_ge R 1)), (proj2 (Z.ltb_ge C 1)) by lia.
  assert (R `quot` 2 = R / 2) as -> by (apply Z.quot_div_nonneg; lia).
  pose proof (Z.div_mod R 2). pose proof (Z.mod_pos_bound R 2).
  assert ((if R <? (if height <? 1 then 1 else height) then R else if height <? 1 then 1 else height) = Z.min R (Z.max 1 height)) as ->.
  { destruct (Z.ltb_spec height 1); [destruct (Z.ltb_spec R 1)|destruct (Z.ltb_spec R height)]; lia. }
  destruct (Z.ltb_spec (R - cursorRow) 0); [lia|]. set (h := Z.min R (Z.max 1 height)). assert (1 <= h <= R) by lia.
  destruct (Z.leb_spec h (R - cursorRow)); [cbn; lia|]. destruct (Z.leb_spec (R / 2) cursorRow); cbn; repeat case_match; lia.
Qed.

(** ** A terminal *)

(** What the sequences above do: rows are what a capture of them reads. *)
Class Terminal (T : Type) := {
  t_run : list Out -> T -> T;
  t_row : Z -> T -> string;
  t_cursor : T -> Z * Z;
}.
#[global] Hint Mode Terminal ! : typeclass_instances.

Class TerminalLaws (T : Type) `{Terminal T} (R C : Z) (Width : string -> Z) (Truncate : string -> Z -> string -> string) : Prop := {
  run_app a b (t : T) : t_run (a ++ b) t = t_run b (t_run a t);
  run_nil (t : T) : t_run [] t = t;
  (** Line feeds in the last row move the rows up. *)
  run_feed n y (t : T) : 0 < n -> 0 <= y < R ->
    t_row y (t_run [MoveTo 0 (R - 1); OWrite (str_repeat (String nl EmptyString) (Z.to_nat n))] t) = if y + n <? R then t_row (y + n) t else EmptyString;
  (** Text that fits the row it starts on touches no other. *)
  run_line y ws y' (t : T) : 0 <= y < R -> Forall (fun s => str_has nl s = false) ws -> foldr Z.add 0 (Width <$> ws) <= C -> y' <> y ->
    t_row y' (t_run (MoveTo 0 y :: (OWrite <$> ws)) t) = t_row y' t;
  (** Blanks over the whole row clear it, and a captured row can be written. *)
  run_clear y (t : T) : 0 <= y < R -> t_row y (t_run [MoveTo 0 y; OWrite reset_; OWrite (blanks C)] t) = EmptyString;
  run_captured y y0 (t t0 : T) : 0 <= y < R -> t_row y t = EmptyString -> t_row y (t_run [MoveTo 0 y; OWrite (t_row y0 t0)] t) = t_row y0 t0;
  captured_fits y (t : T) : str_has nl (t_row y t) = false /\ Width (t_row y t) <= C;
  (** Moving and hiding the cursor. *)
  run_move y col row (t : T) : t_row y (t_run [MoveTo col row] t) = t_row y t;
  run_move_cursor col row (t : T) : 0 <= row < R -> 0 <= col < C -> t_cursor (t_run [MoveTo col row] t) = (row, col);
  run_style y s (t : T) : s = show_ \/ s = hide_ -> t_row y (t_run [OWrite s] t) = t_row y t /\ t_cursor (t_run [OWrite s] t) = t_cursor t;
  (** The width of a text, and cutting it. *)
  width_reset : Width reset_ = 0;
  width_blanks n : 0 <= n -> Width (blanks n) = n;
  truncate_width s n : 0 <= n -> Width (Truncate s n EmptyString) <= n;
  truncate_line s n : str_has nl s = false -> str_has nl (Truncate s n EmptyString) = false;
}.

Section Restored.
Context {T : Type} `{Terminal T} (R C : Z) (Width : string -> Z) (Truncate : string -> Z -> string -> string).
Context `{!TerminalLaws T R C Width Truncate} (HR : 1 <= R) (HC : 1 <= C).

(** Output that leaves a row as it was. *)
Definition spares (y : Z) (o : list Out) : Prop := forall t : T, t_row y (t_run o t) = t_row y t.
Lemma spares_nil y : spares y [].
Proof. intros t. by rewrite run_nil. Qed.
Lemma spares_app y a b : spares y a -> spares y b -> spares y (a ++ b).
Proof. intros Ha Hb t. by rewrite run_app, Hb, Ha. Qed.
Lemma spares_bind {A} y (l : list A) (f : A -> list Out) : (forall a, a ∈ l -> spares y (f a)) -> spares y (l ≫= f).
Proof.
  induction l as [|a l IH]; intros Hf; [apply spares_nil|]. cbn. apply spares_app; [apply Hf; by left|]. apply IH. intros b Hb. apply Hf. by right.
Qed.
Lemma spares_style y s : s = show_ \/ s = hide_ -> spares y [OWrite s].
Proof. intros Hs t. by destruct (run_style y s t Hs). Qed.
Lemma spares_line y y' ws : 0 <= y < R -> Forall (fun s => str_has nl s = false) ws -> foldr Z.add 0 (Width <$> ws) <= C -> y' <> y -> spares y' (MoveTo 0 y :: (OWrite <$> ws)).
Proof. intros Hy Hn Hw Hne t. by apply run_line. Qed.
Hint Resolve spares_nil spares_app spares_style : core.

(** Clearing, drawing and restoring one row of the popup spare the others. *)
Lemma blanks_line n : str_has nl (blanks n) = false.
Proof. unfold blanks. by induction (Z.to_nat n). Qed.
Lemma spares_clear y y' : 0 <= y < R -> y' <> y -> spares y' [MoveTo 0 y; OWrite reset_; OWrite (blanks C)].
Proof.
  intros Hy Hne. apply (spares_line y y' [reset_; blanks C]); [done| | |done].
  - rewrite !Forall_cons, blanks_line. by repeat split.
  - cbn. rewrite width_reset, width_blanks by lia. lia.
Qed.
Lemma split_on_pieces c s : Forall (fun p => str_has c p = false) (split_on c s).
Proof.
  induction s as [|a s IH]; cbn; [by repeat constructor|]. destruct (Ascii.eqb a c) eqn:E; [by constructor|].
  destruct (split_on c s) as [|w ws]; [constructor; [by rewrite str_has_cons, Ascii.eqb_sym, E|done]|]. apply Forall_cons in IH as [Hw Hws]. constructor; [|done]. by rewrite str_has_cons, Ascii.eqb_sym, E.
Qed.
Lemma fit_line_fits line : str_has nl line = false -> str_has nl (fit_line Width Truncate C line) = false /\ Width (fit_line Width Truncate C line) <= C.
Proof. intros Hn. unfold fit_line. destruct (Z.ltb_spec C (Width line)); [|done]. split; [by apply truncate_line|apply truncate_width; lia]. Qed.
Lemma draw_line_plain body i : str_has nl (default EmptyString (draw_lines body !! i)) = false.
Proof.
  unfold draw_lines. destruct (split_on nl _ !! i) as [p|] eqn:E; [|done]. eapply (Forall_lookup_1 _ _ _ _ (split_on_pieces nl _)), E.
Qed.
Lemma spares_fixed y y' body i : 0 <= y + Z.of_nat i < R -> y' <> y + Z.of_nat i -> spares y' (fixed_row Width Truncate C y (draw_lines body) i).
Proof.
  intros Hy Hne. unfold fixed_row. pose proof (draw_line_plain body i) as Hn. set (line := default EmptyString (draw_lines body !! i)) in *.
  destruct (fit_line_fits line Hn) as [Hn' Hw]. destruct (Z.ltb_spec 0 (C - Width (fit_line Width Truncate C line))) as [Hp|Hp].
  - apply (spares_line _ y' [reset_; _; _]); [done| | |done].
    + rewrite !Forall_cons, blanks_line. by repeat split.
    + cbn. rewrite width_reset, width_blanks by lia. lia.
  - apply (spares_line _ y' [reset_; _]); [done| | |done]; [rewrite !Forall_cons; by repeat split|]. cbn. rewrite width_reset. lia.
Qed.
Lemma spares_drawFixed y h y' body : 0 <= y -> y + h <= R -> ~ y <= y' < y + h -> spares y' (drawFixed Width Truncate C y h body).
Proof.
  intros Hy Hh Hne. unfold drawFixed. destruct (Z.ltb_spec h 1); [apply spares_nil|]. rewrite (proj2 (Z.ltb_ge C 1)) by lia.
  apply (spares_app y' [_]); [apply spares_style; by right|]. apply spares_bind. intros i Hi%elem_of_seq. apply spares_fixed; lia.
Qed.

(** ** What was covered comes back *)

Lemma elem_of_rect_rows y h z : z ∈ rect_rows y h <-> y <= z < y + h.
Proof.
  unfold rect_rows. rewrite list_elem_of_fmap. setoid_rewrite elem_of_seq. split; [intros (i & -> & Hi); lia|].
  intros Hz. exists (Z.to_nat (z - y)). lia.
Qed.
Lemma rect_rows_lookup y h z : y <= z < y + h -> rect_rows y h !! Z.to_nat (z - y) = Some z.
Proof. intros Hz. unfold rect_rows. rewrite list_lookup_fmap, lookup_seq_lt by lia. cbn. f_equal. lia. Qed.
Lemma length_rect_rows y h : length (rect_rows y h) = Z.to_nat h.
Proof. unfold rect_rows. by rewrite length_fmap, length_seq. Qed.

(** The capture of a terminal. *)
Definition capture (row col : Z) (t : T) : Screen := mkScreen R C row col ((fun y => t_row y t) <$> rect_rows 0 R).
Lemma capture_row row col t z : 0 <= z < R -> sc_RowANSI (capture row col t) !! Z.to_nat z = Some (t_row z t).
Proof. intros Hz. cbn. rewrite list_lookup_fmap. rewrite <- (Z.sub_0_r z) at 1. by rewrite rect_rows_lookup. Qed.

Section Row.
Context (row col : Z) (t0 : T) (r : Rect) (scroll : Z).
Context (HX : rc_X r = 0) (HW : rc_W r = C).

Definition restored_row (z : Z) : string := if z + scroll <? R then t_row (z + scroll) t0 else EmptyString.
Lemma restore_row_shape z : 0 <= z -> 0 <= scroll ->
  restore_row (capture row col t0) r scroll z =
  [MoveTo 0 z; OWrite reset_; OWrite (blanks C)] ++ (MoveTo 0 z :: (OWrite <$> if z + scroll <? R then [t_row (z + scroll) t0] else [])).
Proof.
  intros Hz Hs. unfold restore_row. rewrite HX, HW. cbn [app]. do 4 f_equal. cbn [sc_RowANSI capture]. rewrite length_fmap, length_rect_rows, Z2Nat.id by lia.
  rewrite (proj2 (Z.leb_le 0 (z + scroll))) by lia. cbn [andb]. destruct (Z.ltb_spec (z + scroll) R) as [Hlt|]; [|done].
  pose proof (capture_row row col t0 (z + scroll)) as E. cbn [sc_RowANSI capture] in E. rewrite E by lia. done.
Qed.
Lemma restore_row_spares y' z : 0 <= z < R -> 0 <= scroll -> y' <> z -> spares y' (restore_row (capture row col t0) r scroll z).
Proof.
  intros Hz Hs Hne. rewrite restore_row_shape by lia. apply spares_app; [by apply spares_clear|]. apply spares_line; [done| | |done].
  - destruct (z + scroll <? R); [|done]. constructor; [apply captured_fits|done].
  - destruct (z + scroll <? R); cbn; [|lia]. destruct (captured_fits (z + scroll) t0). lia.
Qed.
Lemma restore_row_shows z (t : T) : 0 <= z < R -> 0 <= scroll -> t_row z (t_run (restore_row (capture row col t0) r scroll z) t) = restored_row z.
Proof.
  intros Hz Hs. rewrite restore_row_shape, run_app by lia. pose proof (run_clear z t Hz) as Hc. unfold restored_row.
  destruct (z + scroll <? R); cbn [fmap list_fmap]; [by apply run_captured|]. by rewrite run_move.
Qed.
Lemma restore_rows_show zs z (t : T) : 0 <= scroll -> NoDup zs -> Forall (fun z => 0 <= z < R) zs ->
  t_row z (t_run (zs ≫= restore_row (capture row col t0) r scroll) t) = if bool_decide (z ∈ zs) then restored_row z else t_row z t.
Proof.
  intros Hs Hd. revert t. induction Hd as [|a zs Ha Hd IH]; intros t Hf; [cbn; by rewrite run_nil|].
  apply Forall_cons in Hf as [Hb Hf]. rewrite bind_cons, run_app, IH by done. destruct (decide (z ∈ zs)) as [Hin|Hn].
  - rewrite !bool_decide_true by (try done; by right). done.
  - rewrite (bool_decide_false (z ∈ zs)) by done. destruct (decide (z = a)) as [->|Hne].
    + rewrite bool_decide_true by (by left). by apply restore_row_shows.
    + rewrite bool_decide_false by (by rewrite elem_of_cons; naive_solver). by apply restore_row_spares.
Qed.
End Row.

Lemma NoDup_rect_rows y h : NoDup (rect_rows y h).
Proof. unfold rect_rows. apply NoDup_fmap_2; [intros i j; lia|apply NoDup_seq]. Qed.
Lemma spares_ClearRect r y' : rc_X r = 0 -> rc_W r = C -> 0 <= rc_Y r -> rc_Y r + rc_H r <= R -> ~ rc_Y r <= y' < rc_Y r + rc_H r -> spares y' (ClearRect r).
Proof.
  intros HX HW Hy Hh Hne. unfold ClearRect. destruct (_ || _); [apply spares_nil|]. apply spares_bind. intros z Hz%elem_of_rect_rows.
  rewrite HX, HW. apply spares_clear; lia.
Qed.

End Restored.

(** ** [screen.go]: the capture on the wire *)

Definition PutUint16 (n : Z) : string := String (byte_chr (Z.land (Z.shiftr n 8) 255)) (String (byte_chr (Z.land n 255)) EmptyString).
Definition Uint16 (s : string) : Z := Z.lor (Z.shiftl (byte_at 0 s) 8) (byte_at 1 s).
Definition clampU16 (n : Z) : Z := if n <? 0 then 0 else if 65535 <? n then 65535 else n.

Definition EncodeHeader (s : Screen) : string :=
  (PutUint16 (clampU16 (sc_Rows s)) +:+ PutUint16 (clampU16 (sc_Cols s)) +:+ PutUint16 (clampU16 (sc_CursorRow s)) +:+ PutUint16 (clampU16 (sc_CursorCol s)))%string.
Definition EncodeRow (row : string) : string := (PutUint32 (Z.of_nat (String.length row) `mod` 2^32) +:+ row)%string.
Definition encode_rows (rows : list string) : string := foldr (fun row acc => EncodeRow row +:+ acc)%string EmptyString rows.
Definition Encode (s : Screen) : string := (EncodeHeader s +:+ encode_rows (sc_RowANSI s))%string.

Definition header_screen (hdr : string) (rows : list string) : Screen :=
  mkScreen (Uint16 hdr) (Uint16 (str_drop 2 hdr)) (Uint16 (str_drop 4 hdr)) (Uint16 (str_drop 6 hdr)) rows.
Fixpoint decode_rows (fuel : nat) (rest : string) : result (list string) :=
  match fuel with
  | O => Fail (EMsg "snapshot: trailing bytes")
  | Datatypes.S fuel =>
      if (String.length rest <? 4)%nat then if str_empty rest then Ok [] else Fail (EMsg "snapshot: trailing bytes")
      else
        let n := Uint32 (str_take 4 rest) in
        let rest := str_drop 4 rest in
        if (n <? 0) || (Z.of_nat (String.length rest) <? n) then Fail (EMsg "snapshot: truncated row")
        else match decode_rows fuel (str_drop (Z.to_nat n) rest) with
             | Ok rows => Ok (str_take (Z.to_nat n) rest :: rows)
             | Fail e => Fail e
             end
  end.
Definition Decode (data : string) : result Screen :=
  if (String.length data <? 8)%nat then Fail (EMsg "snapshot: short header")
  else match decode_rows (Datatypes.S (String.length data)) (str_drop 8 data) with Ok rows => Ok (header_screen data rows) | Fail e => Fail e end.

Definition DecodeHeader : M string Screen :=
  hdr ← read_full 8;
  mret (header_screen hdr []).
Fixpoint ReadRows (n : nat) : M string (list string) :=
  match n with
  | O => mret []
  | Datatypes.S n =>
      lenBuf ← read_full 4;
      row ← read_full (Z.to_nat (Uint32 lenBuf));
      rows ← ReadRows n;
      mret (row :: rows)
  end.
Definition DecodeFrom : M string Screen :=
  s ← DecodeHeader;
  rows ← ReadRows (Z.to_nat (sc_Rows s));
  mret (mkScreen (sc_Rows s) (sc_Cols s) (sc_CursorRow s) (sc_CursorCol s) rows).

Lemma str_app_cons c s t : (String c s +:+ t = String c (s +:+ t))%string.
Proof. done. Qed.
Lemma Uint16_PutUint16 n rest : 0 <= n < 2^16 -> Uint16 (PutUint16 n +:+ rest) = n.
Proof.
  intros Hn. unfold Uint16, PutUint16, byte_at. rewrite !str_app_cons. cbn [str_at]. change 255 with (Z.ones 8).
  rewrite !Z.land_ones, Z.shiftr_div_pow2 by done. pose proof (Z.mod_pos_bound n (2^8)). pose proof (Z.mod_pos_bound (n / 2^8) (2^8)).
  rewrite !byte_chr_code by lia. rewrite lor_shift by lia. rewrite (Z.mod_small (n / 2^8)); [pose proof (Z.div_mod n (2^8)); lia|].
  split; [apply Z.div_pos; lia|apply Z.div_lt_upper_bound; lia].
Qed.
Lemma clampU16_range n : 0 <= clampU16 n < 2^16.
Proof. unfold clampU16. destruct (Z.ltb_spec n 0); [lia|]. destruct (Z.ltb_spec 65535 n); lia. Qed.
Lemma clampU16_id n : 0 <= n < 2^16 -> clampU16 n = n.
Proof. intros Hn. unfold clampU16. destruct (Z.ltb_spec n 0); [lia|]. destruct (Z.ltb_spec 65535 n); lia. Qed.

Definition small_row (row : string) : Prop := Z.of_nat (String.length row) < 2^32.
Definition clamped (s : Screen) : Screen :=
  mkScreen (clampU16 (sc_Rows s)) (clampU16 (sc_Cols s)) (clampU16 (sc_CursorRow s)) (clampU16 (sc_CursorCol s)) (sc_RowANSI s).
Lemma drop_u16 n rest k : str_drop (2 + k) (PutUint16 n +:+ rest) = str_drop k rest.
Proof. done. Qed.
Lemma drop_none s : str_drop 0 s = s.
Proof. by destruct s. Qed.
Lemma header_screen_encoded s rest rows : header_screen (EncodeHeader s +:+ rest) rows =
  mkScreen (clampU16 (sc_Rows s)) (clampU16 (sc_Cols s)) (clampU16 (sc_CursorRow s)) (clampU16 (sc_CursorCol s)) rows.
Proof.
  unfold header_screen, EncodeHeader. rewrite !str_app_assoc.
  rewrite (drop_u16 _ _ 0), (drop_u16 _ _ 2), (drop_u16 _ _ 0), (drop_u16 _ _ 4), (drop_u16 _ _ 2), (drop_u16 _ _ 0), !drop_none.
  by rewrite !Uint16_PutUint16 by apply clampU16_range.
Qed.
Lemma row_length row : small_row row -> Uint32 (PutUint32 (Z.of_nat (String.length row) `mod` 2^32)) = Z.of_nat (String.length row).
Proof. intros Hr. unfold small_row in Hr. rewrite Z.mod_small by lia. apply Uint32_PutUint32. lia. Qed.
Lemma ReadRows_encoded rows rest : Forall small_row rows -> ReadRows (length rows) (encode_rows rows +:+ rest) = (rest, Ok rows).
Proof.
  induction rows as [|row rows IH]; intros Hf; [done|]. apply Forall_cons in Hf as [Hr Hf]. cbn [length ReadRows encode_rows foldr]. fold (encode_rows rows).
  unfold EncodeRow. rewrite !str_app_assoc. erewrite bind_Ok by (by apply read_full_app). rewrite row_length, Nat2Z.id by done.
  erewrite bind_Ok by (by apply read_full_app). by erewrite bind_Ok by by apply IH.
Qed.
Lemma decode_rows_encoded rows fuel : Forall small_row rows -> (String.length (encode_rows rows) < fuel)%nat -> decode_rows fuel (encode_rows rows) = Ok rows.
Proof.
  revert fuel. induction rows as [|row rows IH]; intros fuel Hf Hl; (destruct fuel as [|fuel]; [lia|]); [done|]. apply Forall_cons in Hf as [Hr Hf].
  cbn [encode_rows foldr] in *. fold (encode_rows rows) in *. unfold EncodeRow in *. rewrite !str_app_assoc in *. rewrite !str_length_app, PutUint32_length in Hl. cbn [decode_rows].
  rewrite str_length_app, PutUint32_length. cbn [Nat.ltb Nat.leb Nat.add]. rewrite (str_take_app (PutUint32 _) _), (str_drop_app (PutUint32 _) _).
  rewrite row_length by done. rewrite Nat2Z.id, str_length_app, str_take_app, str_drop_app.
  destruct (Z.ltb_spec (Z.of_nat (String.length row)) 0); [lia|]. destruct (Z.ltb_spec (Z.of_nat (String.length row + String.length (encode_rows rows))) (Z.of_nat (String.length row))); [lia|].
  cbn [orb]. by rewrite IH by (done || lia).
Qed.

(** A capture survives the wire: decoding what was encoded gives it back, with
    sizes and cursor cut to 16 bits; the reader that stops after the announced
    rows leaves what follows them. *)
Theorem screen_roundtrip (s : Screen) (rest : string) :
  Forall small_row (sc_RowANSI s) ->
  Decode (Encode s) = Ok (clamped s) /\
  (Z.of_nat (length (sc_RowANSI s)) = clampU16 (sc_Rows s) -> DecodeFrom (Encode s +:+ rest) = (rest, Ok (clamped s))).
Proof.
  intros Hf. split.
  - unfold Decode, Encode. rewrite str_length_app. change (String.length (EncodeHeader s)) with 8%nat. cbn [Nat.ltb Nat.leb Nat.add].
    rewrite (str_drop_app (EncodeHeader s)). rewrite decode_rows_encoded by (done || lia). by rewrite header_screen_encoded.
  - intros Hn. unfold DecodeFrom, DecodeHeader, Encode. rewrite str_app_assoc. erewrite bind_Ok.
    2: { erewrite bind_Ok by (by apply read_full_app). pose proof (header_screen_encoded s EmptyString []) as E. rewrite str_app_nil_r in E. by rewrite E. }
    cbn [sc_Rows sc_Cols sc_CursorRow sc_CursorCol]. erewrite bind_Ok by (rewrite <- Hn, Nat2Z.id; by apply ReadRows_encoded). done.
Qed.
