(* ===== verification/Menus.v ===== *)
(** The two popups of the shell widgets as state machines over messages: the
    history search ([internal/tui/tui.go]) and the completion menu with its
    cache ([internal/tui/suggest.go], [suggest_cache.go]), and what they hand to
    the shell ([remote.go]). The text field is a parameter; drawing is modelled
    up to the rows that are shown. *)

From S2P Require Import Prelude Database Text Search Overlay.
From Stdlib Require Import Ascii.

(** ** Messages *)

(** A message is a new window size, one that is ignored (focus, blur, a key that
    is released), a key, a late payload, a tick of the spinner, or one only the
    text field handles, such as a paste. *)
Inductive TMsg (Key Other Payload : Type) :=
| WindowSizeMsg (width height : Z)
| IgnoredMsg
| KeyPressMsg (k : Key)
| SpinMsg
| ItemsMsg (p : Payload)
| OtherMsg (o : Other).
Arguments WindowSizeMsg {_ _ _} _ _.
Arguments IgnoredMsg {_ _ _}.
Arguments KeyPressMsg {_ _ _} _.
Arguments SpinMsg {_ _ _}.
Arguments ItemsMsg {_ _ _} _.
Arguments OtherMsg {_ _ _} _.

Definition key_in (key : string) (l : list string) : bool := bool_decide (key ∈ l).

(** The geometry of a popup, shared by both. *)
Record Geometry := mkGeometry { g_width : Z; g_height : Z; g_overlay : bool; g_overlayY : Z; g_overlayH : Z; g_overlayCursorRow : Z; g_overlayPercent : Z }.
Record OverlayState := mkOverlayState { os_TermCols : Z; os_TermRows : Z; os_RectY : Z; os_RectH : Z; os_CursorRow : Z }.
(** [EnableOverlay]; the fallback height differs. *)
Definition enable_overlay (fallback : Z -> Z) (st : OverlayState) (g : Geometry) : Geometry :=
  let width := if 0 <? os_TermCols st then os_TermCols st else g_width g in
  let height := if 0 <? os_TermRows st then os_TermRows st else g_height g in
  let h := if (os_RectH st <? 1) || (height <? os_RectH st) then fallback height else os_RectH st in
  let y := if (os_RectY st <? 0) || (height <? os_RectY st + h) then overlayOriginY (os_CursorRow st) height width h else os_RectY st in
  mkGeometry width height true y h (os_CursorRow st) (g_overlayPercent g).

(** ** [tui.go]: the history search *)

Module SearchMenu.
Section Search.
Context {W TI Key Other : Type} `{TextInput TI Key}.
Context (ti_Other : Other -> TI -> TI) (ToLower : string -> string) (Error_text : error -> string).
(** The callback that deletes a command, if there is one. *)
Context (delete : option (Entry -> M W unit)).

Record model := mkModel {
  m_input : TI; m_all : list Entry; m_visible : list Entry; m_cursor : Z; m_cwd : string; m_deviceID : string; m_sessionID : string;
  m_cwdOnly : bool; m_selected : string; m_print : bool; m_run : bool; m_quitting : bool; m_geometry : Geometry; m_status : string;
}.
Definition with_visible (visible : list Entry) (cursor : Z) (m : model) : model :=
  mkModel (m_input m) (m_all m) visible cursor (m_cwd m) (m_deviceID m) (m_sessionID m) (m_cwdOnly m) (m_selected m) (m_print m) (m_run m) (m_quitting m) (m_geometry m) (m_status m).
Definition with_geometry (g : Geometry) (m : model) : model :=
  mkModel (m_input m) (m_all m) (m_visible m) (m_cursor m) (m_cwd m) (m_deviceID m) (m_sessionID m) (m_cwdOnly m) (m_selected m) (m_print m) (m_run m) (m_quitting m) g (m_status m).
Definition with_input (ti : TI) (m : model) : model :=
  mkModel ti (m_all m) (m_visible m) (m_cursor m) (m_cwd m) (m_deviceID m) (m_sessionID m) (m_cwdOnly m) (m_selected m) (m_print m) (m_run m) (m_quitting m) (m_geometry m) (m_status m).
Definition with_status (s : string) (m : model) : model :=
  mkModel (m_input m) (m_all m) (m_visible m) (m_cursor m) (m_cwd m) (m_deviceID m) (m_sessionID m) (m_cwdOnly m) (m_selected m) (m_print m) (m_run m) (m_quitting m) (m_geometry m) s.
Definition with_all (l : list Entry) (m : model) : model :=
  mkModel (m_input m) l (m_visible m) (m_cursor m) (m_cwd m) (m_deviceID m) (m_sessionID m) (m_cwdOnly m) (m_selected m) (m_print m) (m_run m) (m_quitting m) (m_geometry m) (m_status m).
Definition with_cwdOnly (b : bool) (m : model) : model :=
  mkModel (m_input m) (m_all m) (m_visible m) (m_cursor m) (m_cwd m) (m_deviceID m) (m_sessionID m) b (m_selected m) (m_print m) (m_run m) (m_quitting m) (m_geometry m) (m_status m).
Definition quit_with (selected : string) (print run : bool) (m : model) : model :=
  mkModel (m_input m) (m_all m) (m_visible m) (m_cursor m) (m_cwd m) (m_deviceID m) (m_sessionID m) (m_cwdOnly m) selected print run true (m_geometry m) (m_status m).

Definition FilterWith (now : Time) (entries : list Entry) (query : string) (ctx : SContext) (cwdOnly : bool) : list Entry :=
  let src := if cwdOnly && negb (str_empty (x_Cwd ctx)) then List.filter (fun e => String.eqb (e_Cwd e) (x_Cwd ctx)) entries else entries in
  r_Entry <$> RankWith ToLower now query src false ctx.

Definition refilter (now : Time) (m : model) : model :=
  let ranked := FilterWith now (m_all m) (ti_Value (m_input m)) (mkContext time_zero (m_cwd m) (m_deviceID m) (m_sessionID m) None) (m_cwdOnly m) in
  with_visible (reverse ranked) (m_cursor m) m.
Definition refresh (now : Time) (m : model) : model :=
  let m := refilter now m in
  let c := Z.of_nat (length (m_visible m)) - 1 in
  with_visible (m_visible m) (if c <? 0 then 0 else c) m.
Definition clampCursor (m : model) : model :=
  let n := Z.of_nat (length (m_visible m)) in
  if n =? 0 then with_visible (m_visible m) 0 m
  else let c := if n <=? m_cursor m then n - 1 else m_cursor m in with_visible (m_visible m) (if c <? 0 then 0 else c) m.
Definition pageDelta (m : model) : Z := 1 `max` (g_height (m_geometry m) `quot` 2).
Definition moveCursor (delta : Z) (m : model) : model :=
  let n := Z.of_nat (length (m_visible m)) in
  with_visible (m_visible m) (if n =? 0 then 0 else (n - 1) `min` (0 `max` (m_cursor m + delta))) m.

Definition New (now : Time) (entries : list Entry) (query cwd deviceID sessionID : string) (overlayPercent : Z) : model :=
  refresh now (mkModel (ti_Focus (ti_SetValue query ti_New)) entries [] 0 cwd deviceID sessionID false "" false false false
                 (mkGeometry 80 24 false 0 0 0 overlayPercent) "").
Definition EnableOverlay (st : OverlayState) (m : model) : model :=
  with_geometry (enable_overlay (fun h => overlayRows h (g_overlayPercent (m_geometry m))) st (m_geometry m)) m.

(** The selected row: [m.visible[m.cursor]] where it is in range. *)
Definition highlighted (m : model) : option Entry :=
  if Z.of_nat (length (m_visible m)) <=? m_cursor m then None else m_visible m !! Z.to_nat (m_cursor m).
Definition deleteSelected (now : Time) (m : model) (w : W) : model * W :=
  match highlighted m with
  | None => (m, w)
  | Some e =>
      let done_ (m : model) := clampCursor (refilter now (with_all (List.filter (fun x => negb (String.eqb (e_Command x) (e_Command e))) (m_all m)) (with_status EmptyString m))) in
      match delete with
      | None => (done_ m, w)
      | Some f => match f e w with
                  | (w, Fail err) => (with_status (Error_text err) m, w)
                  | (w, Ok _) => (done_ m, w)
                  end
      end
  end.
Definition accept (run : bool) (m : model) : model :=
  match highlighted m with
  | Some e => quit_with (e_Command e) true run m
  | None => quit_with (m_selected m) (m_print m) (m_run m) m
  end.

Definition resize (w h : Z) (g : Geometry) : Geometry :=
  let width := 1 `max` w in
  let height := 1 `max` h in
  if g_overlay g then
    let oh := overlayRows height (g_overlayPercent g) in
    mkGeometry width height true (overlayOriginY (g_overlayCursorRow g) height width oh) oh (g_overlayCursorRow g) (g_overlayPercent g)
  else mkGeometry width height false (g_overlayY g) (g_overlayH g) (g_overlayCursorRow g) (g_overlayPercent g).

(** The text field handles a message, and the list follows its value. *)
Definition type_in (now : Time) (ti : TI) (m : model) : model :=
  if negb (String.eqb (ti_Value ti) (ti_Value (m_input m))) then refresh now (with_input ti m) else with_input ti m.

Definition Update (now : Time) (msg : TMsg Key Other Empty_set) (m : model) (w : W) : model * W :=
  match msg with
  | WindowSizeMsg width height => (with_geometry (resize width height (m_geometry m)) m, w)
  | IgnoredMsg => (m, w)
  | KeyPressMsg k =>
      let key := key_String (TI := TI) k in
      if key_in key ["ctrl+c"; "esc"]%string then (quit_with EmptyString false (m_run m) m, w)
      else if String.eqb key "enter" then (accept true m, w)
      else if String.eqb key "ctrl+o" then (accept false m, w)
      else if key_in key ["up"; "ctrl+p"]%string then (with_visible (m_visible m) (if 0 <? m_cursor m then m_cursor m - 1 else m_cursor m) m, w)
      else if key_in key ["down"; "ctrl+n"]%string then
        (with_visible (m_visible m) (if m_cursor m + 1 <? Z.of_nat (length (m_visible m)) then m_cursor m + 1 else m_cursor m) m, w)
      else if String.eqb key "ctrl+d" then (moveCursor (pageDelta m) m, w)
      else if String.eqb key "ctrl+u" then (moveCursor (- pageDelta m) m, w)
      else if String.eqb key "tab" then (refresh now (with_cwdOnly (negb (m_cwdOnly m)) m), w)
      else if String.eqb key "ctrl+x" then deleteSelected now m w
      else (type_in now (ti_Update k (m_input m)) m, w)
  | SpinMsg => (m, w)
  | ItemsMsg p => match p with end
  | OtherMsg o => (type_in now (ti_Other o (m_input m)) m, w)
  end.

(** [listWindow], the rows of the list that are shown. *)
Definition listWindow (listH : Z) (m : model) : Z * Z :=
  let n := Z.of_nat (length (m_visible m)) in
  if n =? 0 then (0, 0)
  else if n <=? listH then (0, n)
  else
    let end_ := m_cursor m + 1 in
    let start := end_ - listH in
    let '(start, end_) := if start <? 0 then (0, listH) else (start, end_) in
    if n <? end_ then (n - listH, n) else (start, end_).

Definition SelectedCommand (m : model) : option string := if negb (m_print m) || str_empty (m_selected m) then None else Some (m_selected m).
Definition RunSelected (m : model) : bool := m_print m && m_run m.
End Search.
End SearchMenu.

(** ** [suggest_cache.go] *)

Record suggestItem := mkItem { it_cmd : string; it_descr : string }.
(** Lists of completions under the prefix they were fetched for. *)
Notation SuggestCache := (gmap string (list suggestItem)).

Fixpoint suggestItemsFrom (items descrs : list string) : list suggestItem :=
  match items with
  | [] => []
  | cmd :: items =>
      let rest := suggestItemsFrom items (tail descrs) in
      if str_empty cmd then rest else mkItem cmd (match descrs with d :: _ => trim_space d | [] => EmptyString end) :: rest
  end.
Definition cache_store (prefix : string) (items : list suggestItem) (c : SuggestCache) : SuggestCache := <[prefix := items]> c.
Definition cache_Has (prefix : string) (c : SuggestCache) : bool :=
  if bool_decide (is_Some (c !! prefix)) then true
  else if has_suffix " " prefix then bool_decide (is_Some (c !! trim_right " " prefix))
  else bool_decide (is_Some (c !! (prefix +:+ " ")%string)).
(** One round of the loop of [best]: the longest key so far, with its list. *)
Definition better_key (typed : string) (b : option (string * list suggestItem)) (kv : string * list suggestItem) : option (string * list suggestItem) :=
  if has_prefix kv.1 typed && (match b with None => true | Some (k, _) => (String.length k <? String.length kv.1)%nat end) then Some kv else b.
Definition cache_best (typed : string) (c : SuggestCache) : option (string * list suggestItem) := foldl (better_key typed) None (map_to_list c).

(** ** [suggest.go] *)

Module SuggestMenu.
Section Suggest.
Context {TI Key Other : Type} `{TextInput TI Key}.
Context (ti_Other : Other -> TI -> TI).

Inductive payload := Items (items : list suggestItem) | Abort | Eof.
(** [waitSuggestItems]: what a receive from the channel yields. *)
Record SuggestItems := mkSuggestItems { si_Items : list string; si_Descrs : list string; si_Abort : bool }.
Definition waitSuggestItems (got : option SuggestItems) : payload :=
  match got with
  | None => Eof
  | Some g => if si_Abort g then Abort else Items (suggestItemsFrom (si_Items g) (si_Descrs g))
  end.

Record suggestModel := mkSuggest {
  s_input : TI; s_items : list suggestItem; s_allItems : list suggestItem; s_cursor : Z; s_geometry : Geometry;
  s_selected : string; s_print : bool; s_run : bool; s_quitting : bool; s_cont : bool; s_loading : bool; s_spinFrame : Z;
  s_cache : SuggestCache; s_loadedPrefix : string; s_detail : bool;
}.
Definition prefix (m : suggestModel) : string := ti_Value (s_input m).
Definition with_list (items : list suggestItem) (cursor : Z) (m : suggestModel) : suggestModel :=
  mkSuggest (s_input m) items (s_allItems m) cursor (s_geometry m) (s_selected m) (s_print m) (s_run m) (s_quitting m) (s_cont m) (s_loading m) (s_spinFrame m) (s_cache m) (s_loadedPrefix m) (s_detail m).
Definition with_field (ti : TI) (m : suggestModel) : suggestModel :=
  mkSuggest ti (s_items m) (s_allItems m) (s_cursor m) (s_geometry m) (s_selected m) (s_print m) (s_run m) (s_quitting m) (s_cont m) (s_loading m) (s_spinFrame m) (s_cache m) (s_loadedPrefix m) (s_detail m).
Definition with_frame (g : Geometry) (m : suggestModel) : suggestModel :=
  mkSuggest (s_input m) (s_items m) (s_allItems m) (s_cursor m) g (s_selected m) (s_print m) (s_run m) (s_quitting m) (s_cont m) (s_loading m) (s_spinFrame m) (s_cache m) (s_loadedPrefix m) (s_detail m).
Definition with_spin (n : Z) (m : suggestModel) : suggestModel :=
  mkSuggest (s_input m) (s_items m) (s_allItems m) (s_cursor m) (s_geometry m) (s_selected m) (s_print m) (s_run m) (s_quitting m) (s_cont m) (s_loading m) n (s_cache m) (s_loadedPrefix m) (s_detail m).
Definition with_detail (b : bool) (m : suggestModel) : suggestModel :=
  mkSuggest (s_input m) (s_items m) (s_allItems m) (s_cursor m) (s_geometry m) (s_selected m) (s_print m) (s_run m) (s_quitting m) (s_cont m) (s_loading m) (s_spinFrame m) (s_cache m) (s_loadedPrefix m) b.
Definition leave (selected : string) (print run cont loading : bool) (m : suggestModel) : suggestModel :=
  mkSuggest (s_input m) (s_items m) (s_allItems m) (s_cursor m) (s_geometry m) selected print run true cont loading (s_spinFrame m) (s_cache m) (s_loadedPrefix m) (s_detail m).
(** A payload replaces the list and is cached. *)
Definition loaded (items : list suggestItem) (m : suggestModel) : suggestModel :=
  let lp := if str_empty (s_loadedPrefix m) then prefix m else s_loadedPrefix m in
  mkSuggest (s_input m) (s_items m) items (s_cursor m) (s_geometry m) (s_selected m) (s_print m) (s_run m) (s_quitting m) (s_cont m) false (s_spinFrame m)
    (cache_store lp items (s_cache m)) lp (s_detail m).

Inductive filterCursor := filterCursorFirst | filterCursorTyped.
(** The rows for a prefix. *)
Definition matching (p : string) (source : list suggestItem) : list suggestItem :=
  List.filter (fun it => has_prefix p (it_cmd it) && negb (String.eqb (it_cmd it) p)) source.
Definition applyFilter (cur : filterCursor) (m : suggestModel) : suggestModel :=
  let source := match cache_best (prefix m) (s_cache m) with Some (_, items) => items | None => s_allItems m end in
  let items := matching (prefix m) source in
  with_list items (match cur with filterCursorTyped => 0 | filterCursorFirst => match items with [] => 0 | _ => 1 end end) m.

Definition newSuggestModel (pre : string) (items descrs : list string) (waiting : bool) (cache : SuggestCache) (overlayPercent : Z) : suggestModel :=
  let all := suggestItemsFrom items descrs in
  let m c := mkSuggest (ti_Focus (ti_SetValue pre ti_New)) [] all 0 (mkGeometry 80 10 false 0 0 0 overlayPercent) "" false false false false waiting 0 c "" false in
  if waiting then m cache else applyFilter filterCursorFirst (m (cache_store pre all cache)).

Definition drillPrefix (cmd : string) : string := if str_empty cmd || has_suffix " " cmd then cmd else (cmd +:+ " ")%string.
Definition fallback_rows (height : Z) : Z := height `min` ((SearchChromeRows + 1) `max` 10).
Definition EnableOverlay (st : OverlayState) (m : suggestModel) : suggestModel := with_frame (enable_overlay fallback_rows st (s_geometry m)) m.

Definition rowCount (m : suggestModel) : Z := if s_loading m then 1 else 1 + Z.of_nat (length (s_items m)).
Definition commandAt (i : Z) (m : suggestModel) : string :=
  if i <=? 0 then prefix m else match s_items m !! Z.to_nat (i - 1) with Some it => it_cmd it | None => prefix m end.
Definition selectedItem (m : suggestModel) : option suggestItem := if s_cursor m <=? 0 then None else s_items m !! Z.to_nat (s_cursor m - 1).

Definition resize (w h : Z) (g : Geometry) : Geometry :=
  let width := 1 `max` w in
  let height := 1 `max` h in
  if negb (g_overlay g) then mkGeometry width height false (g_overlayY g) (g_overlayH g) (g_overlayCursorRow g) (g_overlayPercent g)
  else
    let oh := if (g_overlayH g <? 1) || (height <? g_overlayH g) then fallback_rows height else g_overlayH g in
    let oh := if 0 <? g_overlayPercent g then overlayRows height (g_overlayPercent g) else oh in
    mkGeometry width height true (overlayOriginY (g_overlayCursorRow g) height width oh) oh (g_overlayCursorRow g) (g_overlayPercent g).

(** The row with the command that was selected before. *)
Fixpoint index_of (cmd : string) (i : Z) (items : list suggestItem) : option Z :=
  match items with
  | [] => None
  | it :: items => if String.eqb (it_cmd it) cmd then Some i else index_of cmd (i + 1) items
  end.
Definition receive (items : list suggestItem) (m : suggestModel) : suggestModel :=
  let first := s_loading m in
  let prev := if first then EmptyString else commandAt (s_cursor m) m in
  let m' := loaded items m in
  if first then applyFilter filterCursorFirst m'
  else if s_cursor m =? 0 then applyFilter filterCursorTyped m'
  else let m' := applyFilter filterCursorFirst m' in
       match index_of prev 0 (s_items m') with Some i => with_list (s_items m') (i + 1) m' | None => m' end.

Definition cancel (m : suggestModel) : suggestModel := leave EmptyString false (s_run m) (s_cont m) (s_loading m) m.
(** Ctrl+Space: complete the selected command further. *)
Definition complete (m : suggestModel) : suggestModel :=
  if s_loading m then m
  else
    let sel := commandAt (s_cursor m) m in
    let go_on := leave sel (negb (str_empty sel)) false (negb (str_empty sel)) (s_loading m) m in
    if s_cursor m <=? 0 then if cache_Has (prefix m) (s_cache m) then m else go_on
    else if cache_Has sel (s_cache m) then applyFilter filterCursorFirst (with_field (ti_SetValue (drillPrefix sel) (s_input m)) m)
    else go_on.

Definition handle_key (k : Key) (m : suggestModel) : suggestModel :=
  let key := key_String (TI := TI) k in
  if s_detail m then
    if key_in key ["esc"; "ctrl+d"]%string then with_detail false m
    else if String.eqb key "ctrl+c" then cancel (with_detail false m)
    else m
  else if key_in key ["ctrl+c"; "esc"]%string then cancel m
  else if String.eqb key "enter" then
    let sel := commandAt (s_cursor m) m in leave sel (negb (str_empty sel)) false false (s_loading m) m
  else if key_in key ["ctrl+space"; "ctrl+@"; "ctrl+at"]%string then complete m
  else if String.eqb key "ctrl+d" then
    match selectedItem m with Some it => if str_empty (trim_space (it_descr it)) then m else with_detail true m | None => m end
  else if key_in key ["up"; "ctrl+p"]%string then with_list (s_items m) (if 0 <? s_cursor m then s_cursor m - 1 else s_cursor m) m
  else if key_in key ["down"; "ctrl+n"]%string then with_list (s_items m) (if s_cursor m + 1 <? rowCount m then s_cursor m + 1 else s_cursor m) m
  else
    let m' := with_field (ti_Update k (s_input m)) m in
    if negb (String.eqb (prefix m') (prefix m)) && negb (s_loading m) then
      if (String.length (prefix m') <? String.length (prefix m))%nat then applyFilter filterCursorTyped m' else applyFilter filterCursorFirst m'
    else m'.

Definition Update (msg : TMsg Key Other payload) (m : suggestModel) : suggestModel :=
  match msg with
  | WindowSizeMsg w h => with_frame (resize w h (s_geometry m)) m
  | IgnoredMsg => m
  | SpinMsg => if s_loading m then with_spin ((s_spinFrame m + 1) `rem` 10) m else m
  | ItemsMsg Eof => m
  | ItemsMsg Abort => leave EmptyString false (s_run m) (s_cont m) false m
  | ItemsMsg (Items items) => receive items m
  | KeyPressMsg k => handle_key k m
  | OtherMsg o => with_field (ti_Other o (s_input m)) m
  end.

Definition SelectedCommand (m : suggestModel) : option string := if negb (s_print m) || str_empty (s_selected m) then None else Some (s_selected m).
Definition ContinueSelected (m : suggestModel) : bool := s_print m && s_cont m.

(** The rows of the list that are shown. *)
Definition window (listH : Z) (m : suggestModel) : Z * Z :=
  let n := rowCount m in
  let start :=
    if listH <? n then
      let start := s_cursor m - listH `quot` 2 in
      let start := if start <? 0 then 0 else start in
      if n <? start + listH then n - listH else start
    else 0 in
  let end_ := start + listH in
  (start, if n <? end_ then n else end_).
End Suggest.
End SuggestMenu.

(** ** What the shell gets *)

Definition AcceptPrefix : string := "__remnix_accept__:".
Definition ContinuePrefix : string := "__remnix_continue__:".
(** The part behind the last blank. *)
Fixpoint last_word (cur s : string) : string :=
  match s with
  | EmptyString => cur
  | String c s => if Ascii.eqb c " " || Ascii.eqb c "009" then last_word EmptyString s else last_word (cur +:+ String c EmptyString) s
  end.
Definition ContinueBuffer (s : string) : string :=
  if str_empty s || has_suffix " " s then s
  else if has_prefix "-" (last_word EmptyString s) then s
  else (s +:+ " ")%string.
Definition FormatSelection (cmd : string) (run : bool) : string := if run then (AcceptPrefix +:+ cmd)%string else cmd.

(** [remote.go]: the popup over an attached terminal, and its answer. *)
Definition overlayStateFrom (snap : Screen) (place : Placement) : OverlayState :=
  let h := if rc_H (pl_Rect place) <? 1 then sc_Rows snap else rc_H (pl_Rect place) in
  let y := if rc_Y (pl_Rect place) <? 0 then 0 else rc_Y (pl_Rect place) in
  mkOverlayState (sc_Cols snap) (sc_Rows snap) y h (sc_CursorRow snap).
Definition SuggestOverlayRows (termRows overlayHeight nItems : Z) : Z :=
  let h := if overlayHeight <=? 0 then (SearchChromeRows + 1) `max` ((nItems + 3) `min` 12) else overlayHeight in
  if termRows <? h then termRows else if h <? 1 then 1 else h.
Definition RunSearchOn {TI} (final : SearchMenu.model (TI := TI)) : string * bool :=
  (default EmptyString (SearchMenu.SelectedCommand final), SearchMenu.RunSelected final).
Definition RunSuggestOn {TI} (final : SuggestMenu.suggestModel (TI := TI)) : string * bool :=
  let cmd := default EmptyString (SuggestMenu.SelectedCommand final) in
  if SuggestMenu.ContinueSelected final then ((ContinuePrefix +:+ ContinueBuffer cmd)%string, false) else (cmd, SuggestMenu.s_print final && SuggestMenu.s_run final).

(** [overlay.go] of the tui: the cursor of a capture against the one reported
    by the terminal, and a capture of another terminal. *)
Definition applyOverlayCursor (rowHasPrintable : string -> bool) (snap : Screen) (live : option (Z * Z)) : Screen :=
  let snap := mkScreen (sc_Rows snap) (sc_Cols snap) (ContentCursorRow rowHasPrintable snap) (sc_CursorCol snap) (sc_RowANSI snap) in
  match live with
  | None => snap
  | Some (row, col) =>
      if (row <? 0) || ((1 <=? sc_Rows snap) && (sc_Rows snap <=? row)) then snap
      else if (sc_Rows snap <? 1) || (sc_Rows snap - 1 <=? sc_CursorRow snap) then
        mkScreen (sc_Rows snap) (sc_Cols snap) row (if 0 <=? col then col else sc_CursorCol snap) (sc_RowANSI snap)
      else snap
  end.
Definition overlayGeomMatchesTTY (snap : Screen) (cols rows : Z) : bool :=
  if (cols <? 1) || (rows <? 1) then true else (sc_Cols snap =? cols) && (sc_Rows snap =? rows).
(** The capture to use, and whether its rows are read. *)
Definition applyOverlayGeom (fallback : Screen) (g : result Screen) : Screen * bool :=
  match g with
  | Ok snap => if (2 <=? sc_Rows snap) && (1 <=? sc_Cols snap) && overlayGeomMatchesTTY snap (sc_Cols fallback) (sc_Rows fallback) then (snap, true) else (fallback, false)
  | Fail _ => (fallback, false)
  end.

(** ** [daemon/overlay.go]: the completions a session keeps *)

Definition suggestCacheFor (session : string) (caches : gmap string SuggestCache) : SuggestCache := default ∅ (caches !! session).
(** The popup ended with this cache and this answer: only one that goes on
    keeps the cache. *)
Definition finishSuggestOverlay (session : string) (cache : SuggestCache) (sel : result string) (caches : gmap string SuggestCache) : gmap string SuggestCache :=
  match sel with
  | Ok s => if has_prefix ContinuePrefix s then <[session := cache]> caches else base.delete session caches
  | Fail _ => base.delete session caches
  end.
