(* ===== verification/Inspect.v ===== *)
(** [internal/tui/inspect.go], [inspect_advanced.go], [inspect_charts.go]: the
    history inspector, a state machine over key presses with three views (the
    overview, the search by criteria, the runs of one command), in which
    commands and runs are checked and deleted; and the bars of its charts. The
    queries and deletions are callbacks; text fields, regular expressions and
    the layouts of times are parameters. Drawing is modelled up to the rows and
    the help line that are shown. *)

From S2P Require Import Prelude Database Text Config History Advanced Search Menus.
From Stdlib Require Import Ascii.

Inductive inspectView := inspectOverview | inspectRuns | inspectAdvanced.
#[global] Instance inspectView_eq_dec : EqDecision inspectView.
Proof. solve_decision. Defined.
Inductive inspectPane := paneResults | paneSidebar.
#[global] Instance inspectPane_eq_dec : EqDecision inspectPane.
Proof. solve_decision. Defined.

(** * [inspect_charts.go] *)

Inductive chartGranularity := chartMonth | chartDay | chartYear.
Definition chart_Next (g : chartGranularity) : chartGranularity :=
  match g with chartMonth => chartDay | chartDay => chartYear | chartYear => chartMonth end.

Record chartBar := mkBar { cb_Label : string; cb_Total : Z; cb_Fail : Z }.

Definition entry_fails (e : Entry) : bool := match e_ExitStatus e with Some x => negb (x =? 0) | None => false end.

(** The bars of a key, by their labels. *)
Definition count_run (key : Entry -> string) (counts : gmap string chartBar) (e : Entry) : gmap string chartBar :=
  let k := key e in
  let b := default (mkBar k 0 0) (counts !! k) in
  <[k := mkBar (cb_Label b) (cb_Total b + 1) (cb_Fail b + (if entry_fails e then 1 else 0))]> counts.
Definition bars_of (key : Entry -> string) (runs : list Entry) : list chartBar :=
  (map_to_list (foldl (count_run key) ∅ runs)).*2.

Definition bucketRuns (bucketKey : chartGranularity -> Time -> string) (runs : list Entry) (g : chartGranularity) :
    list chartBar :=
  sort_slice (fun a b => str_lt (cb_Label a) (cb_Label b)) (bars_of (fun e => bucketKey g (e_StartTS e)) runs).

Definition taller (a b : chartBar) : bool :=
  if negb (cb_Total a =? cb_Total b) then cb_Total b <? cb_Total a else str_lt (cb_Label a) (cb_Label b).
Definition topBy (runs : list Entry) (key : Entry -> string) (n : Z) : list chartBar :=
  if n <=? 0 then []
  else take (Z.to_nat n)
         (sort_slice taller (bars_of (fun e => if str_empty (key e) then "(none)"%string else key e) runs)).

Definition lastBars (l : list chartBar) (n : Z) : list chartBar :=
  if (n <=? 0) || (Z.of_nat (length l) <=? n) then l else drop (length l - Z.to_nat n) l.

(** The glyphs of a bar: those of successful runs, those of failed ones and
    blanks. *)
Definition renderGlyphBar (bar : chartBar) (maxN width : Z) : Z * Z * Z :=
  if (width <=? 0) || (maxN <=? 0) || (cb_Total bar <=? 0) then (0, 0, 0 `max` width)
  else
    let n := (cb_Total bar * width + maxN - 1) `quot` maxN in
    let n := if n <? 1 then 1 else n in
    let n := if width <? n then width else n in
    let okN := ((cb_Total bar - cb_Fail bar) * n) `quot` cb_Total bar in
    let failN := n - okN in
    let '(okN, failN) := if (0 <? cb_Fail bar) && (failN <? 1) && (1 <? n) then (n - 1, 1) else (okN, failN) in
    let '(okN, failN) := if cb_Fail bar =? 0 then (n, 0) else (okN, failN) in
    (okN, failN, width - n).

(** * The state *)

Module Inspector.
Section Inspect.
Context {W TI Key Re : Type} `{TextInput TI Key}.
Context (ti_Blur : TI -> TI) (ti_CharLimit : Z -> TI -> TI).
Context (Compile : string -> option Re) (MatchString : Re -> string -> bool).
(** [time.Parse] with a layout, in UTC. *)
Context (ToLower : string -> string) (time_Parse : string -> string -> option Time) (Error_text : error -> string).
Notation AF := (AdvancedFilter (Re := Re)).

Record InspectOptions := mkInspectOptions {
  io_Stats : Stats;
  io_Summaries : list CommandSummary;
  io_Load : option (SummarySort -> string -> W -> result (list CommandSummary * Stats));
  io_AdvancedLoad : option (SummarySort -> AF -> W -> result (list CommandSummary * Stats));
  io_ListRuns : option (string -> W -> result (list Entry));
  io_ListMatchingRuns : option (string -> AF -> W -> result (list Entry));
  io_DeleteCommand : option (string -> M W unit);
  io_DeleteEntry : option (Entry -> M W unit);
  io_DeleteEntries : option (list Entry -> M W unit);
  io_StartAdvanced : bool;
}.
Context (opts : InspectOptions).

Record inspectModel := mkInspect {
  i_input : TI; i_stats : Stats; i_all : list CommandSummary; i_visible : list CommandSummary; i_cursor : Z;
  i_sort : SummarySort; i_view : inspectView; i_returnView : inspectView; i_pane : inspectPane; i_fields : list TI;
  i_fieldIdx : Z; i_fieldErrs : list string; i_selectedCmds : gset string; i_selectedRuns : gset string;
  i_visualMode : bool; i_visualAnchor : Z; i_deletedIDs : gset string; i_confirmN : Z; i_confirmKind : string;
  i_confirmEntries : list Entry; i_chartGran : chartGranularity; i_runs : list Entry; i_runVisible : list Entry;
  i_runCursor : Z; i_runCmd : string; i_runSummary : CommandSummary; i_overviewQuery : string; i_width : Z;
  i_height : Z; i_quitting : bool; i_status : string; i_lastFilter : AF;
}.
#[global] Instance inspectModel_rebuild : Rebuild inspectModel := fun m =>
  mkInspect (i_input m) (i_stats m) (i_all m) (i_visible m) (i_cursor m) (i_sort m) (i_view m) (i_returnView m)
    (i_pane m) (i_fields m) (i_fieldIdx m) (i_fieldErrs m) (i_selectedCmds m) (i_selectedRuns m) (i_visualMode m)
    (i_visualAnchor m) (i_deletedIDs m) (i_confirmN m) (i_confirmKind m) (i_confirmEntries m) (i_chartGran m)
    (i_runs m) (i_runVisible m) (i_runCursor m) (i_runCmd m) (i_runSummary m) (i_overviewQuery m) (i_width m)
    (i_height m) (i_quitting m) (i_status m) (i_lastFilter m).

(** The deletions that were asked of the store. *)
Inductive Deletion := DelCommand (c : string) | DelEntry (e : Entry) | DelEntries (l : list Entry).
Record St := mkSt { st_m : inspectModel; st_w : W; st_ops : list Deletion }.
Notation I := (M St).

(** Go on the model: reading it, assigning to it, calling the store; an index
    out of range panics. *)
Definition model : I inspectModel := gets st_m.
Definition upd (f : inspectModel -> inspectModel) : I unit := modify (fun s => mkSt (f (st_m s)) (st_w s) (st_ops s)).
Definition assign {T} (f : inspectModel -> T) `{!Setter f} (v : T) : I unit := upd (set_field f (fun _ => v)).
Definition update {T} (f : inspectModel -> T) `{!Setter f} (g : T -> T) : I unit := upd (set_field f g).
Definition query {A} (q : W -> result A) : I (result A) := gets (fun s => q (st_w s)).
Definition call (d : Deletion) (f : M W unit) : I (result unit) := fun s =>
  let '(w, r) := f (st_w s) in (mkSt (st_m s) w (st_ops s ++ [d]), Ok r).
Definition index {A} (l : list A) (i : Z) : I A :=
  match (if i <? 0 then None else l !! Z.to_nat i) with
  | Some x => mret x
  | None => fail (EMsg "panic: index out of range")
  end.
Definition len {A} (l : list A) : Z := Z.of_nat (length l).

(** * Lists of commands and of runs *)

(** The summary a command was last stored with. *)
Definition by_command (l : list CommandSummary) (c : string) : option CommandSummary :=
  foldl (fun acc s => if String.eqb (cs_Command s) c then Some s else acc) None l.
Definition summary_entry (s : CommandSummary) : Entry :=
  mkEntry "" (cs_Command s) (cs_LastTS s) None None None "" "" "" "" "" false "" None time_zero.

Definition summary_less (mode : SummarySort) (a b : CommandSummary) : bool :=
  if bool_decide (mode = SortTop) && negb (cs_Runs a =? cs_Runs b) then cs_Runs b <? cs_Runs a
  else if negb (cs_LastTS a =? cs_LastTS b) then cs_LastTS b <? cs_LastTS a
  else str_lt (cs_Command a) (cs_Command b).
Definition sortSummaries (l : list CommandSummary) (mode : SummarySort) : list CommandSummary :=
  sort_slice (summary_less mode) l.

Definition filterSummaries (now : Time) (l : list CommandSummary) (query : string) (mode : SummarySort) :
    list CommandSummary :=
  let src := if bool_decide (mode = SortFailed) then List.filter (fun s => 0 <? cs_Failed s) l else l in
  let src :=
    if blank query then src
    else omap (fun r => by_command src (e_Command (r_Entry r)))
           (RankWith ToLower now query (summary_entry <$> src) false empty_context) in
  sortSummaries src mode.

Fixpoint merge_unseen (seen : gset string) (l : list CommandSummary) : list CommandSummary :=
  match l with
  | [] => []
  | s :: l => if bool_decide (cs_Command s ∈ seen) then merge_unseen seen l
              else s :: merge_unseen ({[cs_Command s]} ∪ seen) l
  end.
Definition mergeSummaries (a b : list CommandSummary) : list CommandSummary := merge_unseen ∅ (a ++ b).

Definition run_matches (q : string) (e : Entry) : bool :=
  existsb (fun s => contains q (ToLower s)) [e_Cwd e; e_Hostname e; e_SessionID e; e_DeviceID e; e_Shell e] ||
  match e_ExitStatus e with Some x => contains q (pretty x) | None => false end.
Definition filterRuns (l : list Entry) (query : string) : list Entry :=
  let q := ToLower (trim_space query) in
  if str_empty q then l else List.filter (run_matches q) l.

Definition rejectDeleted (m : inspectModel) (runs : list Entry) : list Entry :=
  List.filter (fun e => negb (bool_decide (e_ID e ∈ i_deletedIDs m))) runs.

(** * Cursors and selections *)

Definition clamp (n c : Z) : Z := if n =? 0 then 0 else let c := if n <=? c then n - 1 else c in if c <? 0 then 0 else c.
Definition clampCursor (m : inspectModel) : inspectModel := m <| i_cursor := clamp (len (i_visible m)) (i_cursor m) |>.
Definition clampRunCursor (m : inspectModel) : inspectModel :=
  m <| i_runCursor := clamp (len (i_runVisible m)) (i_runCursor m) |>.
Definition snapOverview (m : inspectModel) : inspectModel := m <| i_cursor := 0 |>.
Definition snapRuns (m : inspectModel) : inspectModel := m <| i_runCursor := 0 |>.
Definition clearVisualMode (m : inspectModel) : inspectModel := m <| i_visualMode := false |>.

(** The rows between the anchor and the cursor. *)
Definition syncVisualSelection (m : inspectModel) : inspectModel :=
  let n := len (i_visible m) in
  let lo := 0 `max` (i_visualAnchor m `min` i_cursor m) in
  let hi := (n - 1) `min` (i_visualAnchor m `max` i_cursor m) in
  m <| i_selectedCmds :=
    if n =? 0 then ∅
    else list_to_set (cs_Command <$> take (Z.to_nat (hi - lo + 1)) (drop (Z.to_nat lo) (i_visible m))) |>.
Definition toggleVisualMode (m : inspectModel) : inspectModel :=
  if i_visualMode m then clearVisualMode m
  else if len (i_visible m) =? 0 then m
  else syncVisualSelection (m <| i_visualMode := true |> <| i_visualAnchor := i_cursor m |>).

Definition step_to (n c delta : Z) : Z := if n =? 0 then 0 else (n - 1) `min` (0 `max` (c + delta)).
Definition moveCursor (delta : Z) (m : inspectModel) : inspectModel :=
  if bool_decide (i_view m = inspectRuns) then m <| i_runCursor := step_to (len (i_runVisible m)) (i_runCursor m) delta |>
  else
    let m := m <| i_cursor := step_to (len (i_visible m)) (i_cursor m) delta |> in
    if negb (len (i_visible m) =? 0) && i_visualMode m && bool_decide (i_view m = inspectAdvanced)
    then syncVisualSelection m else m.
Definition pageDelta (m : inspectModel) : Z := 1 `max` (i_height m `quot` 2).

Definition toggled (x : string) (s : gset string) : gset string := if bool_decide (x ∈ s) then s ∖ {[x]} else {[x]} ∪ s.
Definition toggleSelected : I unit :=
  m ← model;
  match i_view m with
  | inspectRuns =>
      if (len (i_runVisible m) =? 0) || (len (i_runVisible m) <=? i_runCursor m) then mret tt
      else e ← index (i_runVisible m) (i_runCursor m); update i_selectedRuns (toggled (e_ID e))
  | inspectAdvanced =>
      if (len (i_visible m) =? 0) || (len (i_visible m) <=? i_cursor m) then mret tt
      else s ← index (i_visible m) (i_cursor m); update i_selectedCmds (toggled (cs_Command s))
  | inspectOverview => mret tt
  end.

Definition all_or_none (shown : list string) (s : gset string) : gset string :=
  if bool_decide (size s = length shown) && negb (len shown =? 0) then ∅ else list_to_set shown ∪ s.
Definition toggleSelectAll (m : inspectModel) : inspectModel :=
  match i_view m with
  | inspectRuns => m <| i_selectedRuns := all_or_none (e_ID <$> i_runVisible m) (i_selectedRuns m) |>
  | inspectAdvanced => m <| i_selectedCmds := all_or_none (cs_Command <$> i_visible m) (i_selectedCmds m) |>
  | inspectOverview => m
  end.

Definition pruneSelectedCmds (m : inspectModel) : inspectModel :=
  m <| i_selectedCmds := list_to_set (cs_Command <$> i_visible m) ∩ i_selectedCmds m |>.
Definition pruneSelectedRuns (m : inspectModel) : inspectModel :=
  m <| i_selectedRuns := list_to_set (e_ID <$> i_runVisible m) ∩ i_selectedRuns m |>.

(** What a deletion is about: the rows that are checked, or the one under the
    cursor when none is. *)
Definition selectedCommands : I (list string) :=
  m ← model;
  if len (i_visible m) =? 0 then mret []
  else if negb (bool_decide (i_selectedCmds m = ∅))
  then mret (List.filter (fun c => bool_decide (c ∈ i_selectedCmds m)) (cs_Command <$> i_visible m))
  else if len (i_visible m) <=? i_cursor m then mret []
  else s ← index (i_visible m) (i_cursor m); mret [cs_Command s].
Definition selectedRunEntries : I (list Entry) :=
  m ← model;
  if len (i_runVisible m) =? 0 then mret []
  else if negb (bool_decide (i_selectedRuns m = ∅))
  then mret (List.filter (fun e => bool_decide (e_ID e ∈ i_selectedRuns m)) (i_runVisible m))
  else if len (i_runVisible m) <=? i_runCursor m then mret []
  else e ← index (i_runVisible m) (i_runCursor m); mret [e].

(** * The criteria *)

Definition advancedFieldCount : nat := 9.
Definition fieldCommand : nat := 0.
Definition fieldCwd : nat := 1.
Definition fieldHost : nat := 2.
Definition fieldShell : nat := 3.
Definition fieldSession : nat := 4.
Definition fieldDevice : nat := 5.
Definition fieldExit : nat := 6.
Definition fieldSince : nat := 7.
Definition fieldUntil : nat := 8.
Definition newAdvancedFields : list TI := replicate advancedFieldCount (ti_Blur (ti_CharLimit 256 ti_New)).

(** [None] is the error. *)
Definition parseExitField (s : string) : option (bool * option Z * option Re) :=
  let s := trim_space s in
  if str_empty s then Some (false, None, None)
  else if bool_decide (ToLower s ∈ ["failed"; "fail"; "!0"]%string) then Some (true, None, None)
  else match Atoi s with
       | Some n => Some (false, Some n, None)
       | None => (fun re => (false, None, Some re)) <$> Compile s
       end.

(** [(?i)^(\d+)([smhdwy])$]: the digits and the length of the unit. Folding
    makes the long s (U+017F) a letter of the class too, but none of the cases
    of the switch. *)
Definition Day : Z := 24 * Hour.
Definition long_s : string := String "197"%char (String "191"%char EmptyString).
Definition unit_of (s : string) : option Z :=
  if String.eqb s long_s then Some 0
  else match s with
       | String c EmptyString =>
           let c := ascii_lower c in
           if Ascii.eqb c "s" then Some Second
           else if Ascii.eqb c "m" then Some Minute
           else if Ascii.eqb c "h" then Some Hour
           else if Ascii.eqb c "d" then Some Day
           else if Ascii.eqb c "w" then Some (7 * Day)
           else if Ascii.eqb c "y" then Some (365 * Day)
           else None
       | _ => None
       end.
Fixpoint digits_of (s : string) : string * string :=
  match s with
  | String c s' => match digit_value c with
                   | Some _ => let '(a, b) := digits_of s' in (String c a, b)
                   | None => (EmptyString, s)
                   end
  | EmptyString => (EmptyString, EmptyString)
  end.
Definition relativeTime (s : string) : option (string * Z) :=
  let '(ds, rest) := digits_of s in
  if str_empty ds then None else (fun u => (ds, u)) <$> unit_of rest.

(** [strconv.Atoi] returns the largest integer with its range error, and
    durations are 64 bits wide. *)
Definition parseInspectTime (s : string) (now : Time) (until : bool) : option Time :=
  let s := trim_space s in
  if str_empty s then None
  else if String.eqb (sql_lower s) "now" then Some now
  else match relativeTime s with
       | Some (ds, u) =>
           let d := wrap64 (default max_int64 (Atoi ds) * u) in
           Some (now + wrap64 (- d))
       | None =>
           match time_Parse "2006-01-02T15:04:05Z07:00" s with
           | Some t => Some t
           | None =>
               match time_Parse "2006-01-02 15:04" s with
               | Some t => Some t
               | None => (fun t => if until then t + (Day - 1000000) else t) <$> time_Parse "2006-01-02" s
               end
           end
       end.

(** The value of a field; there are all nine, or none. *)
Definition field_value (m : inspectModel) (i : nat) : string :=
  from_option (fun ti => trim_space (ti_Value ti)) EmptyString (i_fields m !! i).

(** A field and what it says; [None] when it cannot be read. *)
Definition compile_field (m : inspectModel) (i : nat) : option (option Re) :=
  let s := field_value m i in if str_empty s then Some None else Some <$> Compile s.
Definition exit_field (m : inspectModel) : option (bool * option Z * option Re) := parseExitField (field_value m fieldExit).
Definition time_field (now : Time) (until : bool) (m : inspectModel) (i : nat) : option (option Time) :=
  let s := field_value m i in if str_empty s then Some None else Some <$> parseInspectTime s now until.

Definition error_of {A} (msg : string) (r : option A) : string := match r with Some _ => EmptyString | None => msg end.

Definition filter_zero (sort : SummarySort) : AF :=
  mkAdvanced None "" None None None None None None false None None None sort 5000.

(** The errors of the fields, and the filter when there is none. *)
Definition parseAdvancedFilter (now : Time) (m : inspectModel) : list string * option AF :=
  if len (i_fields m) =? 0 then (i_fieldErrs m, Some (filter_zero (i_sort m)))
  else
    let re i := compile_field m i in
    let errs :=
      (error_of "invalid regex" ∘ re <$> seq 0 6) ++
      [error_of "invalid" (exit_field m); error_of "invalid time" (time_field now false m fieldSince);
       error_of "invalid time" (time_field now true m fieldUntil)] in
    (errs,
     cmd ← re fieldCommand; cwd ← re fieldCwd; host ← re fieldHost; shell ← re fieldShell; session ← re fieldSession;
     device ← re fieldDevice; exit ← exit_field m; since ← time_field now false m fieldSince;
     until ← time_field now true m fieldUntil;
     let needle := match cmd with Some _ => RegexLiteralPrefix (field_value m fieldCommand) | None => EmptyString end in
     let '(failed, exact, exitRE) := exit in
     Some (mkAdvanced cmd needle cwd host shell session device exitRE failed exact since until (i_sort m) 5000)).

(** The filter that is in force: the last one that could be read. *)
Definition compiledFilter (now : Time) : I AF :=
  m ← model;
  let '(errs, parsed) := parseAdvancedFilter now m in
  assign i_fieldErrs errs;;
  match parsed with
  | Some f => assign i_lastFilter f;; mret f
  | None =>
      let f := i_lastFilter m in
      mret (mkAdvanced (af_CommandRE f) (af_CommandNeedle f) (af_CwdRE f) (af_HostRE f) (af_ShellRE f) (af_SessionRE f)
              (af_DeviceRE f) (af_ExitRE f) (af_ExitFailed f) (af_Exit f) (af_Since f) (af_Until f) (i_sort m)
              (if af_Limit f =? 0 then 5000 else af_Limit f))
  end.

(** * Loading *)

Definition list_matching (command : string) (f : AF) (w : W) : result (list Entry) :=
  match io_ListMatchingRuns opts, io_ListRuns opts with
  | Some l, _ => l command f w
  | None, Some l => (fun runs => FilterEntries MatchString runs f) <$> l command w
  | None, None => Ok []
  end.
Definition matchingRuns (command : string) (f : AF) : I (list Entry) :=
  m ← model;
  r ← query (list_matching command f);
  mret (match r with Ok runs => rejectDeleted m runs | Fail _ => [] end).

Definition refilter (now : Time) : I unit :=
  m ← model;
  let q := ti_Value (i_input m) in
  src ← match io_Load opts with
        | Some load =>
            if bool_decide (i_view m = inspectOverview) && negb (blank q) then
              r ← query (load (i_sort m) q);
              mret (match r with Ok (extra, _) => mergeSummaries (i_all m) extra | Fail _ => i_all m end)
            else mret (i_all m)
        | None => mret (i_all m)
        end;
  assign i_visible (filterSummaries now src q (i_sort m));;
  upd clampCursor.

Definition refilterRuns : I unit :=
  m ← model;
  assign i_runVisible (filterRuns (i_runs m) (ti_Value (i_input m)));;
  upd clampRunCursor.

(** The commands with runs that match, summarized from these. *)
Definition matching_summaries (f : AF) (l : list CommandSummary) : I (list CommandSummary) :=
  collect (fun s => runs ← matchingRuns (cs_Command s) f;
                    mret (match runs with [] => None | _ => Some (SummarizeRuns (cs_Command s) runs) end)) l.

Definition refilterAdvanced (now : Time) : I bool :=
  m ← model;
  let '(errs, parsed) := parseAdvancedFilter now m in
  assign i_fieldErrs errs;;
  match parsed with
  | None => mret false
  | Some f =>
      assign i_lastFilter f;;
      let show out :=
        assign i_visible (filterSummaries now out EmptyString (i_sort m));;
        upd clampCursor;; upd pruneSelectedCmds;; mret true in
      match io_AdvancedLoad opts with
      | Some load =>
          r ← query (load (i_sort m) f);
          match r with
          | Fail e => assign i_status (Error_text e);; mret false
          | Ok (all, st) => assign i_all all;; assign i_stats st;; show all
          end
      | None => out ← matching_summaries f (i_all m); show out
      end
  end.

(** The commands loaded again; an error is shown. *)
Definition reload (k : I unit) : I unit :=
  m ← model;
  match io_Load opts with
  | Some load =>
      r ← query (load (i_sort m) EmptyString);
      match r with
      | Fail e => assign i_status (Error_text e)
      | Ok (all, st) => assign i_all all;; assign i_stats st;; k
      end
  | None => k
  end.
Definition reloadBase (now : Time) : I unit := reload (refilter now;; upd clampCursor).

Definition cycleSort (now : Time) : I unit :=
  update i_sort SummarySort_Next;;
  assign i_status EmptyString;;
  m ← model;
  if bool_decide (i_view m = inspectAdvanced) then refilterAdvanced now;; upd snapOverview
  else reload (refilter now;; upd snapOverview).

Definition onQueryChange (now : Time) : I unit :=
  assign i_status EmptyString;;
  m ← model;
  if bool_decide (i_view m = inspectRuns) then refilterRuns;; upd snapRuns
  else refilter now;; upd snapOverview.

Definition loadCurrentRuns (now : Time) (command : string) : I (result (list Entry)) :=
  m ← model;
  if bool_decide (i_view m = inspectAdvanced) || bool_decide (i_returnView m = inspectAdvanced) then
    f ← compiledFilter now; runs ← matchingRuns command f; mret (Ok runs)
  else
    match io_ListRuns opts with
    | None => mret (Ok [])
    | Some l => r ← query (l command); mret (rejectDeleted m <$> r)
    end.

(** * Moving between the views *)

Definition blurAdvancedFields (m : inspectModel) : inspectModel := m <| i_fields := ti_Blur <$> i_fields m |>.
Definition focusSidebarField : I unit :=
  upd blurAdvancedFields;;
  m ← model;
  let i := if (i_fieldIdx m <? 0) || (len (i_fields m) <=? i_fieldIdx m) then 0 else i_fieldIdx m in
  assign i_fieldIdx i;;
  ti ← index (i_fields m) i;
  assign i_fields (<[Z.to_nat i := ti_Focus ti]> (i_fields m)).
Definition setPane (p : inspectPane) : I unit :=
  assign i_pane p;;
  match p with
  | paneSidebar => upd clearVisualMode;; update i_input ti_Blur;; focusSidebarField
  | paneResults => upd blurAdvancedFields
  end.
Definition moveField (delta : Z) : I unit :=
  m ← model;
  if len (i_fields m) =? 0 then mret tt
  else assign i_fieldIdx ((len (i_fields m) - 1) `min` (0 `max` (i_fieldIdx m + delta)));; focusSidebarField.

Definition enterAdvanced (now : Time) : I unit :=
  m ← model;
  (if len (i_fields m) =? 0 then assign i_fields newAdvancedFields else mret tt);;
  m ← model;
  let q := ti_Value (i_input m) in
  cmd ← index (i_fields m) (Z.of_nat fieldCommand);
  (if negb (blank q) && blank (ti_Value cmd)
   then assign i_fields (<[fieldCommand := ti_SetValue (trim_space q) cmd]> (i_fields m)) else mret tt);;
  assign i_overviewQuery q;;
  update i_input (ti_Blur ∘ ti_SetValue EmptyString);;
  assign i_view inspectAdvanced;; assign i_returnView inspectAdvanced;; assign i_pane paneResults;;
  assign i_fieldIdx 0;; assign i_status EmptyString;; assign i_selectedCmds ∅;;
  upd clearVisualMode;;
  assign i_lastFilter (filter_zero (i_sort m));;
  upd blurAdvancedFields;;
  refilterAdvanced now;;
  upd snapOverview.

Definition leaveAdvanced (now : Time) : I unit :=
  assign i_view inspectOverview;; assign i_returnView inspectOverview;; assign i_pane paneResults;;
  assign i_selectedCmds ∅;;
  upd clearVisualMode;;
  m ← model;
  update i_input (ti_Focus ∘ ti_SetValue (i_overviewQuery m));;
  assign i_status EmptyString;;
  reloadBase now;;
  upd snapOverview.

Definition openRuns (now : Time) : I unit :=
  m ← model;
  if (len (i_visible m) =? 0) || (len (i_visible m) <=? i_cursor m) then mret tt
  else
    s ← index (i_visible m) (i_cursor m);
    upd clearVisualMode;;
    assign i_returnView (i_view m);;
    r ← loadCurrentRuns now (cs_Command s);
    match r with
    | Fail e => assign i_status (Error_text e)
    | Ok runs =>
        assign i_runs runs;;
        (if bool_decide (i_view m = inspectAdvanced) then mret tt else assign i_overviewQuery (ti_Value (i_input m)));;
        update i_input (ti_Focus ∘ ti_SetValue EmptyString);;
        assign i_view inspectRuns;;
        assign i_runCmd (cs_Command s);;
        (let sum := SummarizeRuns (cs_Command s) runs in assign i_runSummary (if cs_Runs sum =? 0 then s else sum));;
        assign i_status EmptyString;; assign i_selectedRuns ∅;;
        refilterRuns;;
        upd snapRuns
    end.

Definition backToOverview (now : Time) : I unit :=
  m ← model;
  assign i_runs [];; assign i_runVisible [];; assign i_runCmd EmptyString;; assign i_selectedRuns ∅;;
  assign i_status EmptyString;;
  if bool_decide (i_returnView m = inspectAdvanced) then
    assign i_view inspectAdvanced;;
    update i_input (ti_Blur ∘ ti_SetValue EmptyString);;
    refilterAdvanced now;;
    upd clampCursor
  else
    assign i_view inspectOverview;; assign i_returnView inspectOverview;;
    update i_input (ti_Focus ∘ ti_SetValue (i_overviewQuery m));;
    reloadBase now.

(** * Deleting *)

Definition at_least_0 (z : Z) : Z := if z <? 0 then 0 else z.
Definition deleteSelectedCommand (now : Time) : I unit :=
  m ← model;
  if (len (i_visible m) =? 0) || (len (i_visible m) <=? i_cursor m) then mret tt
  else
    s ← index (i_visible m) (i_cursor m);
    r ← match io_DeleteCommand opts with
        | Some f => call (DelCommand (cs_Command s)) (f (cs_Command s))
        | None => mret (Ok tt)
        end;
    match r with
    | Fail e => assign i_status (Error_text e)
    | Ok _ =>
        assign i_status EmptyString;;
        match io_Load opts with
        | Some _ => reloadBase now
        | None =>
            assign i_all (List.filter (fun x => negb (String.eqb (cs_Command x) (cs_Command s))) (i_all m));;
            update i_stats (fun st => mkStats (at_least_0 (st_Commands st - cs_Runs s)) (st_Deleted st + cs_Runs s)
              (st_Devices st) (st_Sessions st) (at_least_0 (st_Success st - cs_Success s))
              (at_least_0 (st_Failed st - cs_Failed s)));;
            refilter now;;
            upd clampCursor
        end
    end.

Definition dec_pos (z : Z) : Z := if 0 <? z then z - 1 else z.
Definition noteDeletedRun (e : Entry) (m : inspectModel) : inspectModel :=
  let st := i_stats m in
  let ok := match e_ExitStatus e with Some x => (x =? 0) | None => false end in
  m <| i_stats := mkStats (dec_pos (st_Commands st)) (st_Deleted st + 1) (st_Devices st) (st_Sessions st)
         (if ok then dec_pos (st_Success st) else st_Success st)
         (if entry_fails e then dec_pos (st_Failed st) else st_Failed st) |>.

Definition clearConfirm (m : inspectModel) : inspectModel :=
  m <| i_confirmN := 0 |> <| i_confirmEntries := [] |> <| i_confirmKind := EmptyString |>.

(** One by one, up to the first error. *)
Fixpoint delete_each (f : Entry -> M W unit) (entries : list Entry) : I (result unit) :=
  match entries with
  | [] => mret (Ok tt)
  | e :: entries =>
      r ← call (DelEntry e) (f e);
      match r with Ok _ => delete_each f entries | Fail err => mret (Fail err) end
  end.

Definition after_delete (now : Time) (ids : list string) : I unit :=
  m ← model;
  match i_view m with
  | inspectRuns =>
      assign i_runs (rejectDeleted m (i_runs m));;
      (if bool_decide (is_Some (io_Load opts)) || bool_decide (is_Some (io_AdvancedLoad opts)) then
         r ← loadCurrentRuns now (i_runCmd m);
         match r with Fail e => assign i_status (Error_text e) | Ok runs => assign i_runs runs end
       else mret tt);;
      update i_selectedRuns (fun s => s ∖ list_to_set ids);;
      m ← model;
      if len (i_runs m) =? 0 then
        (if bool_decide (is_Some (io_Load opts)) || bool_decide (is_Some (io_AdvancedLoad opts)) then mret tt
         else assign i_all (List.filter (fun x => negb (String.eqb (cs_Command x) (i_runCmd m))) (i_all m)));;
        backToOverview now
      else
        assign i_runSummary (SummarizeRuns (i_runCmd m) (i_runs m));;
        refilterRuns;;
        upd pruneSelectedRuns;;
        upd clampRunCursor
  | inspectAdvanced => assign i_selectedCmds ∅;; refilterAdvanced now;; mret tt
  | inspectOverview => reloadBase now
  end.

Definition deleteEntriesNow (now : Time) (entries : list Entry) : I unit :=
  if len entries =? 0 then mret tt
  else
    r ← match io_DeleteEntries opts, io_DeleteEntry opts with
        | Some f, _ => call (DelEntries entries) (f entries)
        | None, Some f => delete_each f entries
        | None, None => mret (Ok tt)
        end;
    match r with
    | Fail e => assign i_status (Error_text e)
    | Ok _ =>
        update i_deletedIDs (fun ids => list_to_set (e_ID <$> entries) ∪ ids);;
        upd (fun m => foldl (fun m e => noteDeletedRun e m) m entries);;
        assign i_status EmptyString;;
        upd clearConfirm;;
        after_delete now (e_ID <$> entries)
    end.

Definition ask (n : Z) (entries : list Entry) (kind : string) : I unit :=
  assign i_confirmN n;; assign i_confirmEntries entries;; assign i_confirmKind kind.

Definition requestDelete (now : Time) : I unit :=
  m ← model;
  match i_view m with
  | inspectRuns =>
      entries ← selectedRunEntries;
      if len entries =? 0 then mret tt
      else if 1 <? len entries then ask (len entries) entries "runs"
      else deleteEntriesNow now entries
  | inspectAdvanced =>
      cmds ← selectedCommands;
      if len cmds =? 0 then mret tt
      else
        f ← compiledFilter now;
        found ← collect (fun cmd => runs ← matchingRuns cmd f; mret (Some runs)) cmds;
        let entries := concat found in
        if len entries =? 0 then mret tt
        else if 1 <? len cmds then ask (len cmds) entries "commands"
        else deleteEntriesNow now entries
  | inspectOverview => deleteSelectedCommand now
  end.

Definition handleConfirm (now : Time) (key : string) : I unit :=
  if String.eqb key "ctrl+c" then assign i_quitting true
  else if key_in key ["y"; "Y"]%string then
    m ← model;
    upd clearConfirm;;
    deleteEntriesNow now (i_confirmEntries m)
  else if key_in key ["n"; "N"; "esc"]%string then upd clearConfirm
  else mret tt.

(** * Keys *)

(** Whether the key was handled; the others go to the text field. *)
Definition handled (x : I unit) : I bool := x;; mret true.
Definition handleInspectKey (now : Time) (key : string) : I bool :=
  m ← model;
  let in_sidebar := bool_decide (i_view m = inspectAdvanced) && bool_decide (i_pane m = paneSidebar) in
  let in_results := bool_decide (i_view m = inspectAdvanced) && bool_decide (i_pane m = paneResults) in
  let checking (x : I unit) : I bool :=
    if bool_decide (i_view m = inspectOverview) || in_sidebar then mret false
    else if i_visualMode m then mret true else handled x in
  if String.eqb key "ctrl+c" then handled (assign i_quitting true)
  else if String.eqb key "ctrl+f" then
    handled (match i_view m with
             | inspectRuns => mret tt
             | inspectAdvanced => leaveAdvanced now
             | inspectOverview => enterAdvanced now
             end)
  else if String.eqb key "esc" then
    handled (if i_visualMode m then upd clearVisualMode
             else match i_view m with
                  | inspectRuns => backToOverview now
                  | inspectAdvanced => leaveAdvanced now
                  | inspectOverview => assign i_quitting true
                  end)
  else if String.eqb key "enter" then
    handled (if in_sidebar then setPane paneResults
             else if bool_decide (i_view m = inspectRuns) then mret tt else openRuns now)
  else if key_in key ["shift+v"; "V"]%string then
    if in_results then handled (upd toggleVisualMode) else mret false
  else if key_in key ["up"; "ctrl+p"]%string then handled (if in_sidebar then moveField (-1) else upd (moveCursor (-1)))
  else if key_in key ["down"; "ctrl+n"]%string then handled (if in_sidebar then moveField 1 else upd (moveCursor 1))
  else if String.eqb key "k" then if in_results then handled (upd (moveCursor (-1))) else mret false
  else if String.eqb key "j" then if in_results then handled (upd (moveCursor 1)) else mret false
  else if String.eqb key "ctrl+w" then
    if bool_decide (i_view m = inspectAdvanced) then
      handled (match i_pane m with paneSidebar => setPane paneResults | paneResults => setPane paneSidebar end)
    else mret false
  else if String.eqb key "tab" then
    handled (if in_sidebar then moveField 1
             else if bool_decide (i_view m = inspectOverview) || in_results then cycleSort now else mret tt)
  else if String.eqb key "shift+tab" then
    if in_sidebar then handled (moveField (-1)) else mret (bool_decide (i_view m = inspectAdvanced))
  else if key_in key [" "; "space"]%string then checking toggleSelected
  else if String.eqb key "ctrl+a" then checking (upd toggleSelectAll)
  else if String.eqb key "ctrl+d" then handled (upd (moveCursor (pageDelta m)))
  else if String.eqb key "ctrl+u" then handled (upd (moveCursor (- pageDelta m)))
  else if String.eqb key "ctrl+x" then handled (requestDelete now)
  else if String.eqb key "g" then
    if bool_decide (i_view m = inspectRuns) then handled (update i_chartGran chart_Next) else mret false
  else mret false.

Definition updateFocusedInput (now : Time) (k : Key) : I unit :=
  m ← model;
  if bool_decide (i_view m = inspectAdvanced) then
    if bool_decide (i_pane m = paneSidebar) && negb (len (i_fields m) =? 0) then
      ti ← index (i_fields m) (i_fieldIdx m);
      let ti' := ti_Update k ti in
      assign i_fields (<[Z.to_nat (i_fieldIdx m) := ti']> (i_fields m));;
      if negb (String.eqb (ti_Value ti') (ti_Value ti)) then
        assign i_status EmptyString;;
        ok ← refilterAdvanced now;
        upd (if ok : bool then snapOverview else clampCursor)
      else mret tt
    else mret tt
  else
    let ti' := ti_Update k (i_input m) in
    assign i_input ti';;
    if negb (String.eqb (ti_Value ti') (ti_Value (i_input m))) then onQueryChange now else mret tt.

Definition Update (now : Time) (msg : TMsg Key Empty_set Empty_set) : I unit :=
  match msg with
  | WindowSizeMsg width height => assign i_width (1 `max` width);; assign i_height (1 `max` height)
  | KeyPressMsg k =>
      let key := key_String (TI := TI) k in
      m ← model;
      if 0 <? i_confirmN m then handleConfirm now key
      else
        h ← handleInspectKey now key;
        if h : bool then mret tt else updateFocusedInput now k
  | _ => mret tt
  end.

Definition NewInspect (now : Time) (w : W) : St * result unit :=
  (refilter now;;
   upd snapOverview;;
   if io_StartAdvanced opts then enterAdvanced now else mret tt)
  (mkSt (mkInspect (ti_Focus ti_New) (io_Stats opts) (io_Summaries opts) [] 0 SortRecent inspectOverview
           inspectOverview paneResults newAdvancedFields 0 (replicate advancedFieldCount EmptyString) ∅ ∅ false 0 ∅ 0
           EmptyString [] chartMonth [] [] 0 EmptyString (summary_zero EmptyString) EmptyString 80 24 false EmptyString
           (mkAdvanced None "" None None None None None None false None None None SortRecent 0)) w []).

(** * What is shown *)

Inductive HelpLine := HelpStatus (s : string) | HelpConfirm (n : Z) (kind : string) | HelpKeys.
Definition renderInspectHelp (m : inspectModel) : HelpLine :=
  if negb (str_empty (i_status m)) then HelpStatus (i_status m)
  else if 0 <? i_confirmN m then HelpConfirm (i_confirmN m) (i_confirmKind m)
  else HelpKeys.

Definition listWindow (n cursor listH : Z) : Z * Z :=
  if (n =? 0) || (listH <=? 0) then (0, 0)
  else if n <=? listH then (0, n)
  else
    let start := cursor - listH + 1 in
    let start := if start <? 0 then 0 else start in
    let start := if n - listH <? start then n - listH else start in
    (start, start + listH).

Definition successRate (s : CommandSummary) : option Z :=
  let n := cs_Success s + cs_Failed s in
  if n =? 0 then None else Some ((cs_Success s * 100) `quot` n).
End Inspect.
End Inspector.
