(* ===== verification/InspectSpec.v ===== *)
(** What the history inspector guarantees: no key makes it panic, its cursors
    and its checked rows are among those shown, and nothing is deleted but what
    is checked, with an answer to the prompt when that is more than one row. *)

From S2P Require Import Prelude Database Text Config History Advanced Search Menus Inspect.
Import Inspector.

Section InspectSpec.
Context {W TI Key Re : Type} `{!TextInput TI Key}.
Context (ti_Blur : TI -> TI) (ti_CharLimit : Z -> TI -> TI).
Context (Compile : string -> option Re) (MatchString : Re -> string -> bool).
Context (ToLower : string -> string) (time_Parse : string -> string -> option Time) (Error_text : error -> string).
Context (opts : @InspectOptions W Re).
Notation AF := (AdvancedFilter (Re := Re)).
Notation St := (@St W TI Re).
Notation inspectModel := (@inspectModel TI Re).
Notation Update := (Inspector.Update (Key := Key) ti_Blur ti_CharLimit Compile MatchString ToLower time_Parse Error_text opts).
Notation NewInspect := (Inspector.NewInspect (Key := Key) ti_Blur ti_CharLimit Compile MatchString ToLower time_Parse Error_text opts).

(** * The shape of a state *)

Definition in_range {A} (c : Z) (l : list A) : Prop := 0 <= c /\ (l <> [] -> c < len l).

Record shape (m : inspectModel) : Prop := {
  sh_cursor : in_range (i_cursor m) (i_visible m);
  sh_run : in_range (i_runCursor m) (i_runVisible m);
  sh_fields : length (i_fields m) = advancedFieldCount;
  sh_idx : 0 <= i_fieldIdx m < 9;
  sh_checked : i_selectedCmds m ⊆ list_to_set (cs_Command <$> i_visible m);
  sh_home : (i_view m = inspectRuns \/ i_returnView m = i_view m) /\ i_returnView m <> inspectRuns;
  sh_over : i_returnView m = inspectOverview -> i_selectedCmds m = ∅;
}.

(** Nothing is asked, and the store is as it was. *)
Record quiet (w : W) (ops : list Deletion) (s : St) : Prop := {
  q_shape : shape (st_m s);
  q_confirm : i_confirmN (st_m s) = 0;
  q_w : st_w s = w;
  q_ops : st_ops s = ops;
}.

Lemma in_range_0 {A} (l : list A) : in_range 0 l.
Proof. split; [done|]. unfold len. destruct l; [done|]. simpl. lia. Qed.
Lemma clamp_range {A} (c : Z) (l : list A) : in_range (clamp (len l) c) l.
Proof.
  unfold clamp. destruct (Z.eqb_spec (len l) 0) as [E|E]; [split; [done|]; unfold len in E; by destruct l|].
  unfold in_range, len in *. destruct (Z.leb_spec (Z.of_nat (length l)) c); case_match eqn:Hb; apply Z.ltb_lt in Hb || apply Z.ltb_ge in Hb; split; intros; lia.
Qed.
Lemma step_range {A} (c d : Z) (l : list A) : in_range (step_to (len l) c d) l.
Proof.
  unfold step_to. destruct (Z.eqb_spec (len l) 0) as [E|E]; [split; [done|]; unfold len in E; by destruct l|].
  unfold in_range, len in *. split; intros; lia.
Qed.

Lemma wp_index {A} (l : list A) i (Q : A -> St -> Prop) s :
  0 <= i < len l -> (forall x, l !! Z.to_nat i = Some x -> Q x s) -> wp (index l i) Q s.
Proof.
  intros Hi HQ. unfold index, len in *. destruct (Z.ltb_spec i 0); [lia|].
  destruct (lookup_lt_is_Some_2 l (Z.to_nat i)) as [x Hx]; [lia|]. rewrite Hx. by apply HQ.
Qed.
Lemma wp_upd (f : inspectModel -> inspectModel) (Q : unit -> St -> Prop) s :
  Q tt (mkSt (f (st_m s)) (st_w s) (st_ops s)) -> wp (upd f) Q s.
Proof. done. Qed.
Lemma wp_model (Q : inspectModel -> St -> Prop) s : Q (st_m s) s -> wp model Q s.
Proof. done. Qed.
Lemma wp_query {A} (q : W -> result A) (Q : result A -> St -> Prop) s : Q (q (st_w s)) s -> wp (query q) Q s.
Proof. done. Qed.

(** One step of the code. *)
Ltac wp_step :=
  match goal with
  | |- wp (mbind _ _) _ _ => apply wp_bind
  | |- wp (mret _) _ _ => apply wp_ret
  | |- wp model _ _ => apply wp_model
  | |- wp (query _) _ _ => apply wp_query
  | |- wp (upd _) _ _ => apply wp_upd; cbn [st_m st_w st_ops]
  | |- wp (assign _ _) _ _ => apply wp_upd; cbn [st_m st_w st_ops]
  | |- wp (update _ _) _ _ => apply wp_upd; cbn [st_m st_w st_ops]
  end.
Ltac wp_go := repeat wp_step.
(** The call of a function with a specification. *)
Ltac wp_call H := eapply wp_mono; [apply H|intros ? ? ?].

Definition calm (m : inspectModel) : Prop := shape m /\ i_confirmN m = 0.
Lemma quiet_intro m w ops : calm m -> quiet w ops (mkSt m w ops).
Proof. by intros [??]. Qed.
Lemma quiet_calm w ops s : quiet w ops s -> calm (st_m s) /\ st_w s = w /\ st_ops s = ops.
Proof. intros [????]. by unfold calm; split_and!. Qed.

(** A function that keeps quiet. *)
Definition silent {A} (x : M St A) : Prop := forall w ops s, quiet w ops s -> wp x (fun _ => quiet w ops) s.

Lemma silent_upd (f : inspectModel -> inspectModel) : (forall m, calm m -> calm (f m)) -> silent (upd f).
Proof. intros Hf w ops s (Hc & <- & <-)%quiet_calm. apply wp_upd, quiet_intro; auto. Qed.

Lemma silent_bind {A B} (x : M St A) (f : A -> M St B) : silent x -> (forall a, silent (f a)) -> silent (x ≫= f).
Proof. intros Hx Hf w ops s Hs. apply wp_bind. eapply wp_mono; [by apply Hx|]. intros a s' Hs'. by apply Hf. Qed.
Lemma silent_ret {A} (a : A) : silent (mret a).
Proof. by intros w ops s. Qed.

(** ** Updates of the model *)

Ltac shaped := intros [[Hc Hr Hf Hi Hk Hh Ho] Hn]; split; [constructor|]; simpl; auto using in_range_0, clamp_range, step_range.

Lemma calm_clampCursor m : calm m -> calm (clampCursor m).
Proof. shaped. Qed.
Lemma calm_clampRunCursor m : calm m -> calm (clampRunCursor m).
Proof. shaped. Qed.
Lemma calm_snapOverview m : calm m -> calm (snapOverview m).
Proof. shaped. Qed.
Lemma calm_snapRuns m : calm m -> calm (snapRuns m).
Proof. shaped. Qed.
Lemma calm_clearVisualMode m : calm m -> calm (clearVisualMode m).
Proof. shaped. Qed.
Lemma calm_pruneSelectedRuns m : calm m -> calm (pruneSelectedRuns m).
Proof. shaped. Qed.
Lemma calm_blurAdvancedFields m : calm m -> calm (blurAdvancedFields ti_Blur m).
Proof. shaped. by rewrite length_fmap. Qed.

Lemma home_advanced m : shape m -> i_view m = inspectAdvanced -> i_returnView m = inspectAdvanced.
Proof. intros Hs E. destruct (sh_home _ Hs) as [[?|?] _]; congruence. Qed.
Lemma home_overview m : shape m -> i_view m = inspectOverview -> i_returnView m = inspectOverview.
Proof. intros Hs E. destruct (sh_home _ Hs) as [[?|?] _]; congruence. Qed.

(** Checking rows of the list of commands, in the view that allows it. *)
Lemma calm_check m (X : gset string) :
  calm m -> i_view m = inspectAdvanced -> X ⊆ list_to_set (cs_Command <$> i_visible m) -> calm (m <| i_selectedCmds := X |>).
Proof.
  intros [Hs Hn] Hv HX. pose proof (home_advanced _ Hs Hv) as Hr. destruct Hs. split; [constructor|]; simpl; auto. congruence.
Qed.
Lemma calm_syncVisualSelection m : calm m -> i_view m = inspectAdvanced -> calm (syncVisualSelection m).
Proof.
  intros Hm Hv. apply calm_check; [done..|]. case_match; [set_solver|]. intros c. rewrite !elem_of_list_to_set, !list_elem_of_fmap.
  intros (x & -> & Hx%subseteq_take%subseteq_drop). by exists x.
Qed.

Lemma calm_toggleVisualMode m : calm m -> i_view m = inspectAdvanced -> calm (toggleVisualMode m).
Proof.
  intros Hm Hv. unfold toggleVisualMode. destruct (i_visualMode m); [by apply calm_clearVisualMode|].
  case_match; [done|]. apply calm_syncVisualSelection; [|done]. revert Hm. shaped.
Qed.
Lemma calm_moveCursor d m : calm m -> calm (moveCursor d m).
Proof.
  intros Hm. unfold moveCursor. case_bool_decide as Hv; [revert Hm; shaped|]. cbv zeta.
  assert (calm (m <| i_cursor := step_to (len (i_visible m)) (i_cursor m) d |>)) as Hm' by (revert Hm; shaped).
  case_match eqn:E; [|done]. rewrite !andb_true_iff, bool_decide_eq_true in E. apply calm_syncVisualSelection; [done|]. by destruct E.
Qed.
Lemma calm_toggleSelectAll m : calm m -> calm (toggleSelectAll m).
Proof.
  intros Hm. unfold toggleSelectAll. destruct (i_view m) eqn:Hv; [done|revert Hm; shaped|].
  apply calm_check; [done..|]. unfold all_or_none. destruct Hm as [[_ _ _ _ Hk _ _] _].
  case_match; [set_solver|]. by apply union_least.
Qed.
Lemma toggleSelected_silent : silent toggleSelected.
Proof.
  intros w ops s Hs. destruct (quiet_calm _ _ _ Hs) as (Hm & <- & <-). unfold toggleSelected. wp_go.
  destruct (i_view (st_m s)) eqn:Hv; wp_go; [done|..].
  - case_match eqn:E; [by wp_go|]. apply orb_false_iff in E as [E1%Z.eqb_neq E2%Z.leb_gt]. wp_go.
    apply wp_index; [destruct Hm as [[_ [? _] _ _ _ _ _] _]; lia|]. intros e _. wp_go. apply quiet_intro. revert Hm. shaped.
  - case_match eqn:E; [by wp_go|]. apply orb_false_iff in E as [E1%Z.eqb_neq E2%Z.leb_gt]. wp_go.
    apply wp_index; [destruct Hm as [[[? _] _ _ _ _ _ _] _]; lia|]. intros x Hx. wp_go. apply quiet_intro, calm_check; [done..|].
    destruct Hm as [[_ _ _ _ Hk _ _] _]. unfold toggled. apply list_elem_of_lookup_2 in Hx.
    assert (cs_Command x ∈ (list_to_set (cs_Command <$> i_visible (st_m s)) : gset string)) by set_solver.
    case_bool_decide; set_solver.
Qed.

(** ** Queries *)

(** The filter in force, and the runs of a command it selects. *)
Definition filter_in_force (now : Time) (m : inspectModel) : AF :=
  match (parseAdvancedFilter Compile ToLower time_Parse now m).2 with
  | Some f => f
  | None =>
      let f := i_lastFilter m in
      mkAdvanced (af_CommandRE f) (af_CommandNeedle f) (af_CwdRE f) (af_HostRE f) (af_ShellRE f) (af_SessionRE f)
        (af_DeviceRE f) (af_ExitRE f) (af_ExitFailed f) (af_Exit f) (af_Since f) (af_Until f) (i_sort m)
        (if af_Limit f =? 0 then 5000 else af_Limit f)
  end.
Definition matching (m : inspectModel) (w : W) (f : AF) (c : string) : list Entry :=
  match list_matching MatchString opts c f w with Ok runs => rejectDeleted m runs | Fail _ => [] end.

Lemma matchingRuns_run c f (s : St) :
  matchingRuns MatchString opts c f s = (s, Ok (matching (st_m s) (st_w s) f c)).
Proof. done. Qed.

(** Two models that differ in the remembered filter only. *)
Definition but_filter (m m' : inspectModel) : Prop :=
  m <| i_fieldErrs := [] |> <| i_lastFilter := filter_zero SortRecent |> =
  m' <| i_fieldErrs := [] |> <| i_lastFilter := filter_zero SortRecent |>.
Lemma but_filter_field {T} (f : inspectModel -> T) m m' :
  but_filter m m' ->
  (forall m, f (m <| i_fieldErrs := [] |> <| i_lastFilter := filter_zero SortRecent |>) = f m) -> f m' = f m.
Proof. intros Hb Hf. rewrite <- (Hf m'), <- (Hf m). by f_equal. Qed.
Lemma but_filter_calm m m' : but_filter m m' -> calm m -> calm m'.
Proof.
  intros Hb. assert (forall m, calm (m <| i_fieldErrs := [] |> <| i_lastFilter := filter_zero SortRecent |>) <-> calm m) as Hc.
  { intros m0. split; (intros [[Hc Hr Hf Hi Hk Hh Ho] Hn]; split; [by constructor|done]). }
  intros Hm. apply Hc. unfold but_filter in Hb. rewrite <- Hb. by apply Hc.
Qed.
Lemma parsed_same now m m' : but_filter m m' ->
  (parseAdvancedFilter Compile ToLower time_Parse now m').2 = (parseAdvancedFilter Compile ToLower time_Parse now m).2.
Proof.
  intros Hb. apply (but_filter_field (fun m => (parseAdvancedFilter Compile ToLower time_Parse now m).2) _ _ Hb).
  intros m0. unfold parseAdvancedFilter. simpl. by case_match.
Qed.

Lemma compiledFilter_spec now (s : St) :
  wp (compiledFilter Compile ToLower time_Parse now)
    (fun f (s' : St) => f = filter_in_force now (st_m s) /\ but_filter (st_m s) (st_m s') /\
       filter_in_force now (st_m s') = f /\ st_w s' = st_w s /\ st_ops s' = st_ops s) s.
Proof.
  unfold compiledFilter. wp_go. destruct (parseAdvancedFilter _ _ _ now (st_m s)) as [errs parsed] eqn:E. wp_go.
  assert (forall m', but_filter (st_m s) m' -> (parseAdvancedFilter Compile ToLower time_Parse now m').2 = parsed) as Hp.
  { intros m' Hb. rewrite (parsed_same now _ _ Hb). by rewrite E. }
  unfold filter_in_force at 1. rewrite E. destruct parsed as [f|]; simpl; wp_go; split_and!; try done.
  - unfold filter_in_force. by rewrite Hp.
  - unfold filter_in_force. by rewrite Hp.
Qed.

Lemma loadCurrentRuns_spec now c (s : St) :
  wp (loadCurrentRuns Compile MatchString ToLower time_Parse opts now c)
    (fun r (s' : St) => but_filter (st_m s) (st_m s') /\ st_w s' = st_w s /\ st_ops s' = st_ops s) s.
Proof.
  unfold loadCurrentRuns. wp_go. case_match.
  - wp_go. wp_call compiledFilter_spec. destruct H0 as (_ & Hb & _ & Hw & Ho). wp_go.
    unfold wp. rewrite matchingRuns_run. by wp_go.
  - case_match; wp_go; done.
Qed.

(** ** Filtering and loading *)

(** [silent], for the functions of the overview. *)
Definition silent_over {A} (x : M St A) : Prop := forall w ops s,
  quiet w ops s -> i_returnView (st_m s) = inspectOverview -> wp x (fun _ => quiet w ops) s.

Ltac quiet_in Hs Hm := intros ? ? ? Hs; destruct (quiet_calm _ _ _ Hs) as (Hm & <- & <-).
Ltac end_quiet Hm := apply quiet_intro; revert Hm; shaped.
(** Go on with a function that keeps quiet. *)
Ltac wp_silent H := eapply wp_mono; [apply H|intros ? ? ?].

Lemma refilterRuns_silent : silent (refilterRuns ToLower).
Proof. quiet_in Hs Hm. unfold refilterRuns. wp_go. end_quiet Hm. Qed.

(** New rows, with none checked or the checked ones among them. *)
Lemma calm_rows m l X c :
  calm m -> in_range c l -> X ⊆ list_to_set (cs_Command <$> l) -> (i_returnView m = inspectOverview -> X = ∅) ->
  calm (m <| i_visible := l |> <| i_cursor := c |> <| i_selectedCmds := X |>).
Proof. intros [[Hc Hr Hf Hi Hk Hh Ho] Hn]. split; [by constructor|done]. Qed.

Lemma refilter_over now : silent_over (refilter ToLower opts now).
Proof.
  intros w ops s Hs Hv. destruct (quiet_calm _ _ _ Hs) as (Hm & <- & <-). unfold refilter. wp_go.
  assert (forall src, wp (assign i_visible (filterSummaries ToLower now src (ti_Value (i_input (st_m s))) (i_sort (st_m s)));;
    upd clampCursor) (fun _ => quiet (st_w s) (st_ops s)) s) as Hk.
  { intros src. wp_go. apply quiet_intro. destruct Hm as [[Hc Hr Hf Hi Hk Hh Ho] Hn].
    split; [constructor|]; simpl; auto using clamp_range. rewrite (Ho Hv). set_solver. }
  destruct (io_Load opts) as [load|]; [|wp_go; apply Hk].
  case_match; wp_go; apply Hk.
Qed.

Lemma reload_over (k : M St unit) : silent_over k -> silent_over (reload Error_text opts k).
Proof.
  intros Hcont w ops s Hs Hv. pose proof Hs as (Hm & <- & <-)%quiet_calm. unfold reload. wp_go.
  destruct (io_Load opts) as [load|]; [|by apply Hcont]. wp_go. destruct (load _ _ _) as [[all st]|e]; wp_go; [|end_quiet Hm].
  apply Hcont; [|done]. end_quiet Hm.
Qed.
Lemma then_over {A} (x : M St A) (f : inspectModel -> inspectModel) :
  silent_over x -> (forall m, calm m -> calm (f m)) -> silent_over (x;; upd f).
Proof. intros Hx Hf w ops s Hs Hv. wp_go. eapply wp_mono; [by apply Hx|]. intros ? s' Hs'. by apply silent_upd. Qed.
Lemma reloadBase_over now : silent_over (reloadBase ToLower Error_text opts now).
Proof. apply reload_over, then_over; [apply refilter_over|apply calm_clampCursor]. Qed.

Lemma matching_summaries_run f l (s : St) :
  exists out, matching_summaries MatchString opts f l s = (s, Ok out).
Proof.
  eexists. unfold matching_summaries. apply collect_reads. intros x _. by rewrite bind_run, matchingRuns_run.
Qed.

Lemma calm_show m l : calm m -> calm (pruneSelectedCmds (clampCursor (m <| i_visible := l |>))).
Proof.
  intros [[Hc Hr Hf Hi Hk Hh Ho] Hn]. split; [constructor|]; simpl; auto using clamp_range.
  - set_solver.
  - intros Hv. rewrite (Ho Hv). set_solver.
Qed.

Lemma refilterAdvanced_silent now : silent (refilterAdvanced Compile MatchString ToLower time_Parse Error_text opts now).
Proof.
  quiet_in Hs Hm. unfold refilterAdvanced. wp_go. destruct (parseAdvancedFilter _ _ _ now _) as [errs [f|]]; wp_go; [|end_quiet Hm].
  destruct (io_AdvancedLoad opts) as [load|]; wp_go.
  - destruct (load _ _ _) as [[all st]|e]; wp_go; [|end_quiet Hm]. apply quiet_intro, calm_show. revert Hm. shaped.
  - destruct (matching_summaries_run f (i_all (st_m s)) (mkSt (st_m s <| i_fieldErrs := errs |> <| i_lastFilter := f |>) (st_w s) (st_ops s)))
      as [out E]. unfold wp at 1. rewrite E. wp_go. apply quiet_intro, calm_show. revert Hm. shaped.
Qed.

Lemma cycleSort_silent now (s : St) w ops :
  quiet w ops s -> i_view (st_m s) <> inspectRuns ->
  wp (cycleSort Compile MatchString ToLower time_Parse Error_text opts now) (fun _ => quiet w ops) s.
Proof.
  intros Hs Hv. pose proof Hs as (Hm & <- & <-)%quiet_calm. unfold cycleSort. wp_go. case_bool_decide as Hva; wp_go.
  - eapply wp_mono; [apply refilterAdvanced_silent; end_quiet Hm|]. intros ? s' Hs'. by apply (silent_upd snapOverview calm_snapOverview).
  - apply reload_over; [apply then_over; [apply refilter_over|apply calm_snapOverview]|end_quiet Hm|].
    simpl. apply home_overview; [apply Hm|]. simpl in Hva. by destruct (i_view (st_m s)).
Qed.

Lemma onQueryChange_silent now (s : St) w ops :
  quiet w ops s -> i_view (st_m s) <> inspectAdvanced ->
  wp (onQueryChange ToLower opts now) (fun _ => quiet w ops) s.
Proof.
  intros Hs Hv. pose proof Hs as (Hm & <- & <-)%quiet_calm. unfold onQueryChange. wp_go. case_bool_decide as Hvr; wp_go.
  - eapply wp_mono; [apply refilterRuns_silent; end_quiet Hm|]. intros ? s' Hs'. by apply (silent_upd snapRuns calm_snapRuns).
  - eapply wp_mono; [apply refilter_over; [end_quiet Hm|]|].
    + simpl. apply home_overview; [apply Hm|]. simpl in Hvr. by destruct (i_view (st_m s)).
    + intros ? s' Hs'. by apply (silent_upd snapOverview calm_snapOverview).
Qed.

(** ** Changing the view *)

Lemma focusSidebarField_silent : silent (focusSidebarField ti_Blur).
Proof.
  quiet_in Hs Hm. unfold focusSidebarField. wp_go. apply wp_index.
  - simpl. unfold len. rewrite length_fmap. destruct Hm as [[_ _ -> _ _ _ _] _]. unfold advancedFieldCount. case_match eqn:E; [lia|].
    apply orb_false_iff in E as [E1%Z.ltb_ge E2%Z.leb_gt]. lia.
  - intros ti _. wp_go. apply quiet_intro. destruct Hm as [[Hc Hr Hf Hi Hk Hh Ho] Hn].
    split; [constructor|]; simpl; auto.
    + by rewrite length_insert, length_fmap.
    + case_match; lia.
Qed.
Lemma setPane_silent p : silent (setPane ti_Blur p).
Proof.
  quiet_in Hs Hm. unfold setPane. wp_go. destruct p; wp_go.
  - apply quiet_intro, calm_blurAdvancedFields. revert Hm. shaped.
  - apply focusSidebarField_silent. end_quiet Hm.
Qed.
Lemma moveField_silent d : silent (moveField ti_Blur d).
Proof.
  quiet_in Hs Hm. unfold moveField. wp_go. case_match; wp_go; [done|]. apply focusSidebarField_silent. apply quiet_intro.
  destruct Hm as [[Hc Hr Hf Hi Hk Hh Ho] Hn]. split; [constructor|]; simpl; auto.
  unfold len. rewrite Hf. unfold advancedFieldCount. lia.
Qed.

Lemma enterAdvanced_silent now :
  silent (enterAdvanced ti_Blur ti_CharLimit Compile MatchString ToLower time_Parse Error_text opts now).
Proof.
  quiet_in Hs Hm. unfold enterAdvanced. wp_go. destruct Hm as [[Hc Hr Hf Hi Hk Hh Ho] Hn].
  unfold len at 1. rewrite Hf. simpl. wp_go. apply wp_index; [split; [lia|unfold len; by rewrite Hf]|].
  intros ti _. case_match; wp_go; (eapply wp_mono; [apply refilterAdvanced_silent, quiet_intro|
    intros ? s' Hs'; wp_go; by apply (silent_upd snapOverview calm_snapOverview)]).
  all: split; [constructor|]; simpl; auto; try (by rewrite ?length_fmap, ?length_insert); try done; try set_solver; lia.
Qed.
Lemma leaveAdvanced_silent now : silent (leaveAdvanced ToLower Error_text opts now).
Proof.
  quiet_in Hs Hm. unfold leaveAdvanced. wp_go. destruct Hm as [[Hc Hr Hf Hi Hk Hh Ho] Hn].
  eapply wp_mono; [apply reloadBase_over; [apply quiet_intro|done]|].
  - split; [constructor|]; simpl; auto; set_solver.
  - intros ? s' Hs'. by apply (silent_upd snapOverview calm_snapOverview).
Qed.

Lemma row_under_cursor {A} (c : Z) (l : list A) :
  in_range c l -> (len l =? 0) || (len l <=? c) = false -> 0 <= c < len l.
Proof. intros [? _] [_ E%Z.leb_gt]%orb_false_iff. lia. Qed.

Lemma openRuns_silent now (s : St) w ops :
  quiet w ops s -> i_view (st_m s) <> inspectRuns ->
  wp (openRuns Compile MatchString ToLower time_Parse Error_text opts now) (fun _ => quiet w ops) s.
Proof.
  intros Hs Hv. pose proof Hs as (Hm & <- & <-)%quiet_calm. unfold openRuns. wp_go. case_match eqn:E; [by wp_go|]. wp_go.
  apply wp_index; [by apply row_under_cursor; [apply Hm|]|]. intros x Hx. wp_go.
  set (m1 := clearVisualMode (st_m s) <| i_returnView := i_view (st_m s) |>).
  assert (calm m1) as Hm1.
  { destruct Hm as [[Hc Hr Hf Hi Hk Hh Ho] Hn]. split; [constructor|]; simpl; auto. destruct Hh as [[?|Hh] _]; [done|].
    by rewrite <- Hh. }
  eapply wp_mono; [apply loadCurrentRuns_spec|]. intros r s1 (Hb & Hw & Hop). simpl in Hw, Hop. rewrite <- Hw, <- Hop.
  apply (but_filter_calm _ _ Hb) in Hm1.
  destruct r as [runs|e]; wp_go; [|end_quiet Hm1].
  assert (i_returnView (st_m s1) <> inspectRuns) by (destruct Hm1 as [[_ _ _ _ _ [_ ?] _] _]; done).
  case_match; wp_go; (eapply wp_mono; [apply refilterRuns_silent, quiet_intro|
    intros ? s' Hs'; by apply (silent_upd snapRuns calm_snapRuns)]).
  all: destruct Hm1 as [[Hc Hr Hf Hi Hk Hh Ho] Hn]; split; [constructor|]; simpl; auto.
Qed.

Lemma backToOverview_silent now :
  silent (backToOverview ti_Blur Compile MatchString ToLower time_Parse Error_text opts now).
Proof.
  quiet_in Hs Hm. unfold backToOverview. wp_go. destruct Hm as [[Hc Hr Hf Hi Hk Hh Ho] Hn]. case_bool_decide as Hv; wp_go.
  - eapply wp_mono; [apply refilterAdvanced_silent, quiet_intro|intros ? s' Hs'; wp_go; by apply (silent_upd clampCursor calm_clampCursor)].
    split; [constructor|]; simpl; auto; [split; [by destruct Hr|done]|split; [by right|by destruct Hh]].
  - apply reloadBase_over; [apply quiet_intro|done]. simpl in *.
    assert (i_returnView (st_m s) = inspectOverview) as Hov by (destruct (i_returnView (st_m s)); [done|by destruct Hh|done]).
    split; [constructor|]; simpl; auto. split; [by destruct Hr|done].
Qed.

(** ** Deleting *)

(** What was asked of the store to delete these entries. *)
Definition deletes (ds : list Deletion) (entries : list Entry) : Prop :=
  match io_DeleteEntries opts, io_DeleteEntry opts with
  | Some _, _ => ds = [DelEntries entries]
  | None, Some _ => ds <> [] /\ ds `prefix_of` (DelEntry <$> entries)
  | None, None => ds = []
  end.

(** What they do to it. *)
Definition exec (w : W) (d : Deletion) : W :=
  match d with
  | DelCommand c => from_option (fun f => (f c w).1) w (io_DeleteCommand opts)
  | DelEntry e => from_option (fun f => (f e w).1) w (io_DeleteEntry opts)
  | DelEntries l => from_option (fun f => (f l w).1) w (io_DeleteEntries opts)
  end.
(** From [s] to [s'] the deletions [ds] were asked of the store, and nothing
    else was done to it. *)
Definition did (ds : list Deletion) (s s' : St) : Prop :=
  st_ops s' = st_ops s ++ ds /\ st_w s' = foldl exec (st_w s) ds.
Lemma did_nothing s s' : st_ops s' = st_ops s -> st_w s' = st_w s -> did [] s s'.
Proof. intros Ho Hw. split; [by rewrite app_nil_r|done]. Qed.
Lemma did_more d ds s s1 s' : did [d] s s1 -> did ds s1 s' -> did (d :: ds) s s'.
Proof. intros [H1 H2] [H3 H4]. split; [by rewrite H3, H1, <- app_assoc|]. by rewrite H4, H2. Qed.
Lemma did_quiet ds s s1 s' : did ds s s1 -> quiet (st_w s1) (st_ops s1) s' -> did ds s s'.
Proof. intros [H1 H2] (_ & Hw & Ho)%quiet_calm. split; congruence. Qed.

Lemma wp_call d (f : M W unit) (Q : result unit -> St -> Prop) (s : St) :
  (forall r s', st_m s' = st_m s -> (exec (st_w s) d = (f (st_w s)).1 -> did [d] s s') -> Q r s') -> wp (call d f) Q s.
Proof.
  intros HQ. unfold wp, call. destruct (f (st_w s)) as [w r] eqn:E. apply HQ; [done|]. intros Hd. by split.
Qed.

Lemma delete_each_spec (f : Entry -> M W unit) entries (s : St) :
  io_DeleteEntry opts = Some f ->
  wp (delete_each f entries) (fun _ s' => st_m s' = st_m s /\ exists ds, did ds s s' /\
    ds `prefix_of` (DelEntry <$> entries) /\ (entries <> [] -> ds <> [])) s.
Proof.
  intros Hio. revert s. induction entries as [|e entries IH]; intros s; simpl.
  { wp_go. split; [done|]. exists []. by split_and!; [apply did_nothing|..]. }
  wp_go. apply wp_call. intros r s1 Hm1 Hd. assert (did [DelEntry e] s s1) as Hd1 by (apply Hd; simpl; by rewrite Hio).
  destruct r as [[]|err]; wp_go.
  - eapply wp_mono; [apply IH|]. intros _ s' (Hm & ds & Ho & Hp & _). split; [congruence|]. exists (DelEntry e :: ds).
    split_and!; [by eapply did_more|by apply prefix_cons|done].
  - split; [done|]. exists [DelEntry e]. split_and!; [done| |done]. apply prefix_cons, prefix_nil.
Qed.

Lemma noted_calm entries m : calm m -> calm (foldl (fun m e => noteDeletedRun e m) m entries).
Proof. revert m. induction entries as [|e l IH]; intros m Hm; [done|]. simpl. apply IH. revert Hm. shaped. Qed.

Lemma after_delete_silent now ids :
  silent (after_delete ti_Blur Compile MatchString ToLower time_Parse Error_text opts now ids).
Proof.
  quiet_in Hs Hm. unfold after_delete. wp_go. destruct (i_view (st_m s)) eqn:Hv; wp_go.
  - apply reloadBase_over; [done|]. apply home_overview; [apply Hm|done].
  - apply wp_mono with (Q := fun _ => quiet (st_w s) (st_ops s)).
    { case_match; wp_go; [|end_quiet Hm]. eapply wp_mono; [apply loadCurrentRuns_spec|].
      intros r s1 (Hb & Hw & Hop). simpl in Hw, Hop. rewrite <- Hw, <- Hop.
      assert (calm (st_m s1)) as Hm1 by (eapply but_filter_calm; [done|]; revert Hm; shaped).
      destruct r; wp_go; end_quiet Hm1. }
    intros _ s1 Hs1. pose proof Hs1 as (Hm1 & <- & <-)%quiet_calm. wp_go. case_match; wp_go.
    + eapply wp_mono with (Q := fun _ => quiet (st_w s1) (st_ops s1)).
      { case_match; wp_go; end_quiet Hm1. }
      intros ? s2 Hs2. by apply backToOverview_silent.
    + eapply wp_mono; [apply refilterRuns_silent; end_quiet Hm1|]. intros ? s2 Hs2. wp_go.
      pose proof Hs2 as (Hm2 & <- & <-)%quiet_calm. apply quiet_intro, calm_clampRunCursor, calm_pruneSelectedRuns, Hm2.
  - eapply wp_mono; [apply refilterAdvanced_silent, quiet_intro|intros ? s' Hs'; by wp_go].
    destruct Hm as [[Hc Hr Hf Hi Hk Hh Ho] Hn]. split; [constructor|]; simpl; auto. set_solver.
Qed.

Lemma deleteEntriesNow_spec now entries (s : St) :
  calm (st_m s) ->
  wp (deleteEntriesNow ti_Blur Compile MatchString ToLower time_Parse Error_text opts now entries)
    (fun _ s' => calm (st_m s') /\ exists ds, did ds s s' /\ ((entries = [] /\ ds = []) \/ deletes ds entries)) s.
Proof.
  intros Hm. unfold deleteEntriesNow. case_match eqn:Hlen.
  { wp_go. split; [done|]. exists []. split; [by apply did_nothing|left]. by destruct entries. }
  assert (entries <> []) as Hne by (by intros ->).
  wp_go. apply wp_mono with (Q := fun _ s' => st_m s' = st_m s /\ exists ds, did ds s s' /\ deletes ds entries).
  { destruct (io_DeleteEntries opts) as [f|] eqn:Ef; [|destruct (io_DeleteEntry opts) as [f|] eqn:Ee].
    - apply wp_call. intros r s1 Hm1 Hd. split; [done|]. exists [DelEntries entries]. split; [|unfold deletes; by rewrite Ef].
      apply Hd. simpl. by rewrite Ef.
    - eapply wp_mono; [by apply delete_each_spec|]. intros _ s' (Hm' & ds & Hd & Hp & Hds). split; [done|]. exists ds.
      unfold deletes. rewrite Ef, Ee. auto.
    - wp_go. split; [done|]. exists []. unfold deletes. rewrite Ef, Ee. by split; [apply did_nothing|]. }
  intros [[]|e] s1 [Hm1 (ds & Hd & Hds)]; wp_go.
  - eapply wp_mono; [apply after_delete_silent, quiet_intro|].
    + assert (calm (foldl (fun m e => noteDeletedRun e m) (st_m s1 <| i_deletedIDs := list_to_set (e_ID <$> entries) ∪ i_deletedIDs (st_m s1) |>) entries)) as Hc.
      { apply noted_calm. rewrite Hm1. revert Hm. shaped. }
      revert Hc. shaped.
    + intros ? s2 Hs2. split; [by apply quiet_calm in Hs2 as [? _]|]. exists ds. split; [by eapply did_quiet|by right].
  - rewrite Hm1. split; [revert Hm; shaped|]. exists ds. auto.
Qed.

Lemma deleteSelectedCommand_spec now (s : St) :
  calm (st_m s) -> i_view (st_m s) = inspectOverview ->
  wp (deleteSelectedCommand ToLower Error_text opts now)
    (fun _ s' => calm (st_m s') /\ (did [] s s' \/
       exists x, i_visible (st_m s) !! Z.to_nat (i_cursor (st_m s)) = Some x /\ did [DelCommand (cs_Command x)] s s')) s.
Proof.
  intros Hm Hv. unfold deleteSelectedCommand. wp_go. case_match eqn:E.
  { wp_go. split; [done|]. left. by apply did_nothing. }
  wp_go. apply wp_index; [by apply row_under_cursor; [apply Hm|]|]. intros x Hx. wp_go.
  apply wp_mono with (Q := fun _ s' => st_m s' = st_m s /\ exists ds, did ds s s' /\ (ds = [] \/ ds = [DelCommand (cs_Command x)])).
  { destruct (io_DeleteCommand opts) eqn:Ec; [|wp_go; split; [done|]; exists []; by split; [apply did_nothing|left]].
    apply wp_call. intros r s1 Hm1 Hd. split; [done|]. eexists. split; [apply Hd; simpl; by rewrite Ec|by right]. }
  intros r s1 (Hm1 & ds & Hd & Hds).
  assert (forall f, quiet (st_w s1) (st_ops s1) f -> calm (st_m f) /\ (did [] s f \/
    exists x, i_visible (st_m s) !! Z.to_nat (i_cursor (st_m s)) = Some x /\ did [DelCommand (cs_Command x)] s f)) as Hend.
  { intros f Hf. split; [by apply quiet_calm in Hf as [? _]|]. eapply did_quiet in Hf; [|exact Hd].
    destruct Hds as [->| ->]; [by left|right; eauto]. }
  assert (i_returnView (st_m s1) = inspectOverview) as Hov by (rewrite Hm1; apply home_overview; [apply Hm|done]).
  rewrite <- Hm1 in Hm. destruct r as [[]|e]; wp_go; [|apply (Hend (mkSt _ _ _)); end_quiet Hm]. destruct (io_Load opts); wp_go.
  - eapply wp_mono; [apply reloadBase_over; [end_quiet Hm|done]|]. auto.
  - eapply wp_mono; [apply refilter_over; [end_quiet Hm|done]|].
    intros ? s2 Hs2. eapply wp_mono; [apply (silent_upd clampCursor calm_clampCursor), Hs2|]. auto.
Qed.

(** * The rows a deletion is about *)

Definition checked_runs (m : inspectModel) : list Entry :=
  if bool_decide (i_selectedRuns m = ∅) then option_list (i_runVisible m !! Z.to_nat (i_runCursor m))
  else List.filter (fun e => bool_decide (e_ID e ∈ i_selectedRuns m)) (i_runVisible m).
Definition checked_commands (m : inspectModel) : list string :=
  if bool_decide (i_selectedCmds m = ∅) then cs_Command <$> option_list (i_visible m !! Z.to_nat (i_cursor m))
  else List.filter (fun c => bool_decide (c ∈ i_selectedCmds m)) (cs_Command <$> i_visible m).

Lemma len_0 {A} (l : list A) : (len l =? 0) = bool_decide (l = []).
Proof. by destruct l. Qed.

Lemma selectedRunEntries_spec (s : St) :
  shape (st_m s) -> wp selectedRunEntries (fun l s' => s' = s /\ l = checked_runs (st_m s)) s.
Proof.
  intros Hm. unfold selectedRunEntries, checked_runs. wp_go. rewrite len_0. case_bool_decide as E.
  { wp_go. split; [done|]. rewrite E. by case_bool_decide. }
  destruct (sh_run _ Hm) as [H0 H1]. specialize (H1 E). case_bool_decide; cbn [negb]; [|by wp_go].
  destruct (Z.leb_spec (len (i_runVisible (st_m s))) (i_runCursor (st_m s))); [lia|]. wp_go. apply wp_index; [lia|].
  intros e ->. by wp_go.
Qed.
Lemma selectedCommands_spec (s : St) :
  shape (st_m s) -> wp selectedCommands (fun l s' => s' = s /\ l = checked_commands (st_m s)) s.
Proof.
  intros Hm. unfold selectedCommands, checked_commands. wp_go. rewrite len_0. case_bool_decide as E.
  { wp_go. split; [done|]. rewrite E. by case_bool_decide. }
  destruct (sh_cursor _ Hm) as [H0 H1]. specialize (H1 E). case_bool_decide; cbn [negb]; [|by wp_go].
  destruct (Z.leb_spec (len (i_visible (st_m s))) (i_cursor (st_m s))); [lia|]. wp_go. apply wp_index; [lia|].
  intros e ->. by wp_go.
Qed.

(** The prompt is about what is checked now. *)
Definition asked (m : inspectModel) : Prop :=
  1 < i_confirmN m /\ i_confirmEntries m <> [] /\
  match i_view m with
  | inspectRuns => i_confirmEntries m = checked_runs m /\ i_confirmN m = len (checked_runs m)
  | inspectAdvanced =>
      i_confirmN m = len (checked_commands m) /\
      exists now w, i_confirmEntries m = concat (matching m w (filter_in_force now m) <$> checked_commands m)
  | inspectOverview => False
  end.
Definition inv (s : St) : Prop := shape (st_m s) /\ (i_confirmN (st_m s) = 0 \/ asked (st_m s)).

(** The deletions a key may cause. *)
Definition authorised (m : inspectModel) (w : W) (now : Time) (key : string) (ds : list Deletion) : Prop :=
  (i_confirmN m = 0 /\ key = "ctrl+x"%string /\
   match i_view m with
   | inspectOverview => exists x, i_visible m !! Z.to_nat (i_cursor m) = Some x /\ ds = [DelCommand (cs_Command x)]
   | inspectRuns => exists e, checked_runs m = [e] /\ deletes ds [e]
   | inspectAdvanced => exists c, checked_commands m = [c] /\ deletes ds (matching m w (filter_in_force now m) c)
   end) \/
  (asked m /\ key ∈ ["y"; "Y"]%string /\ deletes ds (i_confirmEntries m)).

Definition answered (s : St) (now : Time) (key : string) (s' : St) : Prop :=
  inv s' /\ exists ds, did ds s s' /\ (ds = [] \/ authorised (st_m s) (st_w s) now key ds).

Lemma quiet_answered s now key s' : quiet (st_w s) (st_ops s) s' -> answered s now key s'.
Proof.
  intros Hq. pose proof Hq as ([Hs Hn] & Hw & Ho)%quiet_calm. split; [by split; [|left]|]. exists [].
  by split; [apply did_nothing|left].
Qed.

(** What is checked does not depend on the remembered filter. *)
Lemma asked_same m m' n kind entries :
  but_filter m m' ->
  checked_commands m' = checked_commands m /\ i_view m' = i_view m /\ i_deletedIDs m' = i_deletedIDs m /\
  checked_commands (m' <| i_confirmN := n |> <| i_confirmEntries := entries |> <| i_confirmKind := kind |>) = checked_commands m.
Proof.
  intros Hb. split_and!.
  - by apply (but_filter_field checked_commands _ _ Hb).
  - by apply (but_filter_field i_view _ _ Hb).
  - by apply (but_filter_field i_deletedIDs _ _ Hb).
  - by apply (but_filter_field checked_commands _ _ Hb).
Qed.
Lemma omap_total {A B} (g : A -> B) (l : list A) : omap (fun x => Some (g x)) l = g <$> l.
Proof. unfold omap. induction l as [|x l IH]; [done|]. rewrite fmap_cons. simpl. by f_equal. Qed.

Lemma matching_same m m' w f c : i_deletedIDs m' = i_deletedIDs m -> matching m' w f c = matching m w f c.
Proof. intros Hd. unfold matching, rejectDeleted. by rewrite Hd. Qed.

Lemma calm_inv s : calm (st_m s) -> inv s.
Proof. intros [? ?]. by split; [|left]. Qed.

Lemma shape_ask m n entries kind :
  shape m -> shape (m <| i_confirmN := n |> <| i_confirmEntries := entries |> <| i_confirmKind := kind |>).
Proof. intros [Hc Hr Hf Hi Hk Hh Ho]. by constructor. Qed.

Lemma answered_nothing s now key s' : inv s' -> did [] s s' -> answered s now key s'.
Proof. intros Hi Ho. split; [done|]. exists []. by split; [|left]. Qed.

Lemma request_runs now (s : St) :
  calm (st_m s) -> i_view (st_m s) = inspectRuns ->
  wp (entries ← selectedRunEntries;
      if len entries =? 0 then mret tt
      else if 1 <? len entries then ask (len entries) entries "runs"
      else deleteEntriesNow ti_Blur Compile MatchString ToLower time_Parse Error_text opts now entries)
    (fun _ => answered s now "ctrl+x") s.
Proof.
  intros Hm Hv. wp_go. eapply wp_mono; [apply selectedRunEntries_spec, Hm|]. intros l ? [-> ->].
  case_match eqn:E0; [wp_go; by apply answered_nothing; [apply calm_inv|apply did_nothing]|].
  destruct (Z.ltb_spec 1 (len (checked_runs (st_m s)))) as [H1|H1].
  { unfold ask. wp_go. apply answered_nothing; [|by apply did_nothing]. split; [apply shape_ask, Hm|]. right. split; [done|]. simpl. rewrite Hv. split; [|done].
    intros E. by rewrite E in E0. }
  eapply wp_mono; [by apply deleteEntriesNow_spec|]. intros ? s' (Hm' & ds & Ho & Hds). split; [by apply calm_inv|].
  exists ds. split; [done|]. destruct Hds as [[_ ?]|Hds]; [by left|]. right. left. split_and!; [apply Hm|done|]. rewrite Hv.
  revert E0 H1 Hds. unfold len. destruct (checked_runs (st_m s)) as [|e [|e2 l]]; [done| |simpl; lia]. eauto.
Qed.

Lemma request_advanced now (s : St) :
  calm (st_m s) -> i_view (st_m s) = inspectAdvanced ->
  wp (cmds ← selectedCommands;
      if len cmds =? 0 then mret tt
      else
        f ← compiledFilter Compile ToLower time_Parse now;
        found ← collect (fun cmd => runs ← matchingRuns MatchString opts cmd f; mret (Some runs)) cmds;
        let entries := concat found in
        if len entries =? 0 then mret tt
        else if 1 <? len cmds then ask (len cmds) entries "commands"
        else deleteEntriesNow ti_Blur Compile MatchString ToLower time_Parse Error_text opts now entries)
    (fun _ => answered s now "ctrl+x") s.
Proof.
  intros Hm Hv. wp_go. eapply wp_mono; [apply selectedCommands_spec, Hm|]. intros cmds ? [-> ->].
  case_match eqn:E0; [wp_go; by apply answered_nothing; [apply calm_inv|apply did_nothing]|].
  wp_go. eapply wp_mono; [apply compiledFilter_spec|]. intros f s1 (Hf & Hb & Hf1 & Hw & Hop). wp_go.
  unfold wp at 1. rewrite (collect_reads _ (fun c => Some (matching (st_m s1) (st_w s1) f c))) by done.
  set (found := omap _ _). assert (found = matching (st_m s1) (st_w s1) f <$> checked_commands (st_m s)) as Hfound.
  { apply omap_total. }
  pose proof (but_filter_calm _ _ Hb Hm) as Hm1.
  case_match; [wp_go; by apply answered_nothing; [apply calm_inv|apply did_nothing]|].
  destruct (Z.ltb_spec 1 (len (checked_commands (st_m s)))) as [H1|H1].
  { unfold ask. wp_go. apply answered_nothing; [|by apply did_nothing]. split; [apply shape_ask, Hm1|]. right. cbn [st_m].
    destruct (asked_same _ _ (len (checked_commands (st_m s))) "commands" (concat found) Hb) as (Hc & Hv1 & Hd & Hc').
    revert Hc'. set (m2 := set_field i_confirmKind _ _). intros Hc'.
    assert (i_view m2 = inspectAdvanced) as Hv2 by (by rewrite <- Hv, <- Hv1).
    unfold asked. rewrite Hv2, Hc'. split_and!; [done| |done|]; [change (i_confirmEntries m2) with (concat found); intros E; by rewrite E in *|].
    exists now, (st_w s1). change (i_confirmEntries m2) with (concat found).
    rewrite Hfound. f_equal. apply list_fmap_ext. intros _ c _. change (filter_in_force now m2) with (filter_in_force now (st_m s1)).
    by rewrite Hf1. }
  eapply wp_mono; [by apply deleteEntriesNow_spec|]. intros ? s' (Hm' & ds & Ho & Hds). split; [by apply calm_inv|].
  exists ds. split; [destruct Ho as [Ho1 Ho2]; split; [by rewrite Ho1, Hop|by rewrite Ho2, Hw]|]. destruct Hds as [[_ ?]|Hds]; [by left|]. right. left. split_and!; [apply Hm|done|]. rewrite Hv.
  revert E0 H1 Hds. rewrite Hfound. unfold len. destruct (checked_commands (st_m s)) as [|c [|c2 l]]; [done| |simpl; lia].
  intros _ _ Hds. exists c. split; [done|]. simpl in Hds. rewrite app_nil_r, Hw, Hf in Hds.
  by rewrite (matching_same (st_m s)) in Hds by by apply (but_filter_field i_deletedIDs _ _ Hb).
Qed.

Lemma requestDelete_spec now (s : St) :
  calm (st_m s) ->
  wp (requestDelete ti_Blur Compile MatchString ToLower time_Parse Error_text opts now) (fun _ => answered s now "ctrl+x") s.
Proof.
  intros Hm. unfold requestDelete. wp_step. wp_step. destruct (i_view (st_m s)) eqn:Hv.
  - eapply wp_mono; [by apply deleteSelectedCommand_spec|]. intros ? s' [Hm' Ho]. destruct Ho as [Ho|(x & Hx & Ho)].
    { by apply answered_nothing; [apply calm_inv|]. }
    split; [by apply calm_inv|]. eexists. split; [done|]. right. left. split_and!; [apply Hm|done|]. rewrite Hv. eauto.
  - by apply request_runs.
  - by apply request_advanced.
Qed.
(** * Keys *)

Lemma handled_silent (x : M St unit) w ops (s : St) :
  wp x (fun _ => quiet w ops) s -> wp (handled x) (fun _ => quiet w ops) s.
Proof. intros Hx. unfold handled. apply wp_bind. eapply wp_mono; [exact Hx|]. intros ? ? ?. by apply wp_ret. Qed.

Lemma quit_silent : silent (assign i_quitting true).
Proof. quiet_in Hs Hm. wp_go. end_quiet Hm. Qed.
Lemma chart_silent : silent (update i_chartGran chart_Next).
Proof. quiet_in Hs Hm. wp_go. end_quiet Hm. Qed.

Create HintDb inspect.
#[local] Hint Resolve quit_silent chart_silent toggleSelected_silent enterAdvanced_silent leaveAdvanced_silent
  backToOverview_silent setPane_silent moveField_silent : inspect.
#[local] Hint Resolve silent_upd calm_clearVisualMode calm_moveCursor calm_toggleSelectAll : inspect.

(** Every key but the one that deletes. *)
Lemma handleInspectKey_silent now key :
  key <> "ctrl+x"%string ->
  silent (handleInspectKey ti_Blur ti_CharLimit Compile MatchString ToLower time_Parse Error_text opts now key).
Proof.
  intros Hx w ops s Hs. unfold handleInspectKey. wp_step. wp_step. cbv zeta.
  assert (forall x : M St unit, silent x -> wp (handled x) (fun _ => quiet w ops) s) as Hsil.
  { intros x Hx'. by apply handled_silent, Hx'. }
  assert (wp (mret true) (fun _ => quiet w ops) s /\ wp (mret false) (fun _ => quiet w ops) s) as [Ht Hf] by by split; apply wp_ret.
  repeat match goal with
  | |- wp (if String.eqb key "ctrl+x" then _ else _) _ _ => rewrite (proj2 (String.eqb_neq _ _) Hx)
  | |- wp (if key_in _ _ then _ else _) _ _ => destruct (key_in _ _)
  | |- wp (if String.eqb _ _ then _ else _) _ _ => destruct (String.eqb _ _)
  end.
  all: repeat match goal with
  | |- wp (if ?b then _ else _) _ _ => destruct b eqn:?
  | |- wp (handled (if ?b then _ else _)) _ _ => destruct b eqn:?
  | |- wp (handled (match ?v with _ => _ end)) _ _ => destruct v eqn:?
  end.
  all: try assumption; try (apply Hsil; solve [auto with inspect | apply silent_ret]).
  all: rewrite ?orb_true_iff, ?orb_false_iff, ?andb_true_iff, ?andb_false_iff, ?bool_decide_eq_true, ?bool_decide_eq_false in *.
  - apply handled_silent, openRuns_silent; [done|]. naive_solver.
  - apply handled_silent. pose proof Hs as (Hm & <- & <-)%quiet_calm. wp_go. apply quiet_intro, calm_toggleVisualMode; [done|naive_solver].
  - apply handled_silent, cycleSort_silent; [done|]. destruct Heqb as [|]; naive_solver congruence.
Qed.
Lemma updateFocusedInput_silent now k :
  silent (updateFocusedInput (Key := Key) Compile MatchString ToLower time_Parse Error_text opts now k).
Proof.
  quiet_in Hs Hm. unfold updateFocusedInput. wp_go. case_bool_decide as Hv.
  - case_match eqn:E; [|by wp_go]. wp_go. apply wp_index.
    { destruct Hm as [[_ _ Hf Hi _ _ _] _]. unfold len. rewrite Hf. exact Hi. }
    intros ti _. wp_go.
    assert (calm (st_m s <| i_fields := <[Z.to_nat (i_fieldIdx (st_m s)) := ti_Update k ti]> (i_fields (st_m s)) |>)) as Hm1.
    { revert Hm. shaped. by rewrite length_insert. }
    case_match; wp_go; [|by apply quiet_intro]. eapply wp_mono; [apply refilterAdvanced_silent; end_quiet Hm1|].
    intros ok s1 Hs1. apply (silent_upd _); [|done]. intros m Hc. destruct ok; [by apply calm_snapOverview|by apply calm_clampCursor].
  - wp_go. assert (calm (st_m s <| i_input := ti_Update k (i_input (st_m s)) |>)) as Hm1 by (revert Hm; shaped).
    case_match; wp_go; [|by apply quiet_intro]. apply onQueryChange_silent; [by apply quiet_intro|done].
Qed.

Lemma cleared_calm m : shape m -> calm (clearConfirm m).
Proof. intros [Hc Hr Hf Hi Hk Hh Ho]. by split; [constructor|]. Qed.

(** A prompt stays as it is when the model changes in fields it does not
    depend on. *)
Lemma asked_resize m x y : asked m -> asked (m <| i_width := x |> <| i_height := y |>).
Proof. intros (H1 & H2 & H3). do 2 (split; [done|]). simpl. by destruct (i_view m). Qed.
Lemma asked_quit m : asked m -> asked (m <| i_quitting := true |>).
Proof. intros (H1 & H2 & H3). do 2 (split; [done|]). simpl. by destruct (i_view m). Qed.

Lemma handleConfirm_spec now key (s : St) :
  shape (st_m s) -> asked (st_m s) ->
  wp (handleConfirm ti_Blur Compile MatchString ToLower time_Parse Error_text opts now key) (fun _ => answered s now key) s.
Proof.
  intros Hm Ha. unfold handleConfirm. case_match.
  { wp_go. apply answered_nothing; [|by apply did_nothing]. split; [|right; by apply asked_quit]. destruct Hm. by constructor. }
  case_match eqn:Ey.
  { wp_go. eapply wp_mono; [by apply deleteEntriesNow_spec, cleared_calm|]. intros ? s' (Hm' & ds & Ho & Hds).
    split; [by apply calm_inv|]. exists ds. split; [done|]. destruct Hds as [[_ ?]|Hds]; [by left|]. right. right.
    split_and!; [done|by apply bool_decide_eq_true in Ey|done]. }
  case_match; wp_go; (apply answered_nothing; [|by apply did_nothing]); [by apply calm_inv, cleared_calm|by split; [|right]].
Qed.

Lemma delete_key now (Q : bool -> St -> Prop) (s : St) :
  wp (handled (requestDelete ti_Blur Compile MatchString ToLower time_Parse Error_text opts now)) Q s ->
  wp (handleInspectKey ti_Blur ti_CharLimit Compile MatchString ToLower time_Parse Error_text opts now "ctrl+x") Q s.
Proof. done. Qed.

Definition key_of (msg : TMsg Key Empty_set Empty_set) : string :=
  match msg with KeyPressMsg k => key_String (TI := TI) k | _ => EmptyString end.

Lemma Update_spec now msg (s : St) : inv s -> wp (Update now msg) (fun _ => answered s now (key_of msg)) s.
Proof.
  intros [Hm Ha]. unfold Inspector.Update. destruct msg as [x y| |k| |[]|[]].
  - wp_go. apply answered_nothing; [|by apply did_nothing]. split; [destruct Hm; by constructor|].
    destruct Ha as [Ha|Ha]; [by left|right; by apply asked_resize].
  - wp_go. by apply answered_nothing; [|apply did_nothing].
  - wp_go. destruct (Z.ltb_spec 0 (i_confirmN (st_m s))) as [Hn|Hn].
    { destruct Ha as [Ha|Ha]; [lia|]. by apply handleConfirm_spec. }
    assert (calm (st_m s)) as Hc by (split; [done|]; destruct Ha as [|[? _]]; [done|lia]).
    assert (quiet (st_w s) (st_ops s) s) as Hq by (destruct s; by apply quiet_intro).
    destruct (String.eqb_spec (key_String (TI := TI) k) "ctrl+x") as [Ek|Ek].
    + simpl. rewrite Ek. wp_go. apply delete_key. unfold handled. wp_go. eapply wp_mono; [by apply requestDelete_spec|].
      intros ? s' Hs'. by wp_go.
    + wp_go. eapply wp_mono; [by apply handleInspectKey_silent|]. intros [] s' Hs'; [wp_go; by apply quiet_answered|].
      eapply wp_mono; [by apply updateFocusedInput_silent|]. intros ? s2 Hs2. by apply quiet_answered.
  - wp_go. by apply answered_nothing; [|apply did_nothing].
Qed.

(** y at the prompt deletes what it is about. *)
Lemma confirm_deletes now msg (s : St) :
  inv s -> asked (st_m s) -> key_of msg ∈ ["y"; "Y"]%string ->
  wp (Update now msg) (fun _ s' => exists ds, did ds s s' /\ deletes ds (i_confirmEntries (st_m s))) s.
Proof.
  intros [Hm _] (H1 & Hne & _) Hk. destruct msg as [x y| |k| |[]|[]]; simpl in Hk; try (by rewrite !elem_of_cons, elem_of_nil in Hk; naive_solver).
  unfold Inspector.Update. wp_go. destruct (Z.ltb_spec 0 (i_confirmN (st_m s))); [|lia]. unfold handleConfirm.
  destruct (String.eqb_spec (key_String (TI := TI) k) "ctrl+c") as [E|_]; [by rewrite E in Hk; set_solver|].
  unfold key_in. rewrite bool_decide_true by done. wp_go.
  eapply wp_mono; [by apply deleteEntriesNow_spec, cleared_calm|]. intros ? s' (_ & ds & Hd & Hds). exists ds.
  destruct Hds as [[? _]|Hds]; [done|]. by split.
Qed.

(** * Runs *)

(** A message, or a change of the store by another process. *)
Inductive istep : relation St :=
| is_msg now msg s s' : Update now msg s = (s', Ok tt) -> istep s s'
| is_store w s : istep s (mkSt (st_m s) w (st_ops s)).

Lemma inv_step s s' : istep s s' -> inv s -> inv s'.
Proof.
  intros [now msg s0 s1 E|w s0] Hi; [|done]. pose proof (Update_spec now msg s0 Hi) as Hw. unfold wp in Hw. rewrite E in Hw.
  by destruct Hw.
Qed.

Lemma NewInspect_spec now w : (NewInspect now w).2 = Ok tt /\ inv (NewInspect now w).1.
Proof.
  unfold Inspector.NewInspect. set (s0 := mkSt _ w []).
  assert (calm (st_m s0)) as Hm.
  { split; [constructor|]; simpl; auto using in_range_0; lia || done. }
  assert (quiet w [] s0) as Hq by by apply quiet_intro.
  assert (wp (refilter ToLower opts now;; upd snapOverview;;
      if io_StartAdvanced opts then enterAdvanced ti_Blur ti_CharLimit Compile MatchString ToLower time_Parse Error_text opts now else mret tt)
    (fun _ => quiet w []) s0) as Hw.
  { wp_go. eapply wp_mono; [by apply refilter_over|]. intros ? s1 Hs1.
    apply wp_bind. eapply wp_mono; [apply (silent_upd snapOverview calm_snapOverview), Hs1|]. intros ? s2 Hs2.
    case_match; [by apply enterAdvanced_silent|by wp_go]. }
  apply wp_run in Hw as ([] & s' & -> & Hs'). split; [done|]. apply calm_inv. by apply quiet_calm in Hs' as [? _].
Qed.

Lemma inv_run now w s : rtc istep (NewInspect now w).1 s -> inv s.
Proof.
  intros Hr. pose proof (proj2 (NewInspect_spec now w)) as Hi. induction Hr as [|x y z Hxy _ IH]; [done|].
  by apply IH, (inv_step _ _ Hxy).
Qed.

(** C34: The history inspector deletes nothing but what is checked: in every run, whatever keys are
    pressed and whatever other processes do to the history, every message is answered without a
    panic, and one deletes something only when it is ctrl+x about one row or y at the prompt. What
    goes is then the command under the cursor of the overview; the only checked run; the runs of the
    only checked command that match the criteria in force; or, after the prompt, what is still
    checked on the screen, two rows or more, and that does go. The store changes by these deletions
    only. What counts as checked is the row under the cursor when no row is. *)
Theorem inspector_deletes_checked (now0 : Time) (w0 : W) (s : St) (now : Time) (msg : TMsg Key Empty_set Empty_set) :
  rtc istep (NewInspect now0 w0).1 s ->
  exists s' ds, Update now msg s = (s', Ok tt) /\ did ds s s' /\
    (ds = [] \/ authorised (st_m s) (st_w s) now (key_of msg) ds) /\
    (asked (st_m s) -> key_of msg ∈ ["y"; "Y"]%string -> deletes ds (i_confirmEntries (st_m s))).
Proof.
  intros Hi%inv_run. destruct (proj1 (wp_run _ _ _) (Update_spec now msg s Hi)) as ([] & s' & E & _ & ds & Ho & Hds).
  exists s', ds. split_and!; [done..|]. intros Ha Hk. pose proof (confirm_deletes now msg s Hi Ha Hk) as Hc. unfold wp in Hc.
  rewrite E in Hc. destruct Hc as (ds' & [Ho' _] & Hds'). destruct Ho as [Ho _]. rewrite Ho in Ho'. by apply app_inv_head in Ho' as ->.
Qed.

(** The cursors are on rows that are shown, and the commands that are checked are shown. *)
Theorem inspector_rows (now0 : Time) (w0 : W) (s : St) :
  rtc istep (NewInspect now0 w0).1 s ->
  let m := st_m s in
  (i_visible m <> [] -> is_Some (i_visible m !! Z.to_nat (i_cursor m))) /\
  (i_runVisible m <> [] -> is_Some (i_runVisible m !! Z.to_nat (i_runCursor m))) /\
  is_Some (i_fields m !! Z.to_nat (i_fieldIdx m)) /\
  (forall c, c ∈ i_selectedCmds m -> c ∈ cs_Command <$> i_visible m).
Proof.
  intros [[Hc Hr Hf Hi Hk _ _] _]%inv_run. cbv zeta.
  assert (forall A (l : list A) c, in_range c l -> l <> [] -> is_Some (l !! Z.to_nat c)) as Hrow.
  { intros A l c [H0 H1] Hl. specialize (H1 Hl). apply lookup_lt_is_Some_2. unfold len in H1. lia. }
  split_and!; [by apply Hrow..| |].
  - apply lookup_lt_is_Some_2. rewrite Hf. unfold advancedFieldCount. lia.
  - intros c Hin. apply Hk in Hin. by apply elem_of_list_to_set in Hin.
Qed.

(** * The rows *)

(** A descending number first, another order behind it. *)
Definition descending {A} (f : A -> Z) (rest : A -> A -> bool) (a b : A) : bool :=
  if negb (f a =? f b) then f b <? f a else rest a b.
Lemma descending_weak_order {A} (f : A -> Z) (rest : A -> A -> bool) l :
  weak_order_on rest l -> weak_order_on (descending f rest) l.
Proof.
  intros [Ha Ht]. unfold descending. split.
  - intros x y Hx Hy. rewrite (Z.eqb_sym (f y)). destruct (Z.eqb_spec (f x) (f y)); simpl; [by apply Ha|].
    rewrite Z.ltb_lt, Z.ltb_ge. lia.
  - intros x y z Hx Hy Hz. destruct (Z.eqb_spec (f y) (f x)), (Z.eqb_spec (f z) (f y)), (Z.eqb_spec (f z) (f x)); simpl;
      rewrite ?Z.ltb_ge; try lia; [by apply (Ht x y z)|..]; intros; lia.
Qed.
Lemma by_name_weak_order {A} (g : A -> string) l : weak_order_on (fun a b => str_lt (g a) (g b)) l.
Proof.
  split; [intros x y _ _; apply str_lt_asym|]. intros x y z _ _ _ Hyx Hzy. destruct (str_lt (g z) (g x)) eqn:E; [|done].
  destruct (str_lt (g x) (g y)) eqn:Exy; [by rewrite (str_lt_trans _ _ _ E Exy) in Hzy|].
  rewrite (str_lt_total _ _ Exy Hyx) in E. congruence.
Qed.
Lemma summary_weak_order mode l : weak_order_on (summary_less mode) l.
Proof.
  pose proof (descending_weak_order cs_LastTS _ l (by_name_weak_order cs_Command l)) as H1.
  destruct mode; [exact H1| |exact H1]. exact (descending_weak_order cs_Runs _ l H1).
Qed.

Definition failing (mode : SummarySort) (s : CommandSummary) : bool := negb (bool_decide (mode = SortFailed)) || (0 <? cs_Failed s).

Lemma by_command_unique l x : NoDup (cs_Command <$> l) -> x ∈ l -> by_command l (cs_Command x) = Some x.
Proof.
  unfold by_command. revert l. refine (rev_ind _ _ _); [by intros _ ?%elem_of_nil|]. intros y l IH Hnd Hin.
  rewrite foldl_snoc. rewrite fmap_app in Hnd. apply NoDup_app in Hnd as (Hnd & Hdis & _).
  apply elem_of_app in Hin as [Hin| ->%list_elem_of_singleton]; [|by rewrite String.eqb_refl].
  destruct (String.eqb_spec (cs_Command y) (cs_Command x)) as [E|]; [|by apply IH].
  destruct (Hdis (cs_Command x)); [by apply list_elem_of_fmap_2|]. rewrite <- E. by left.
Qed.
Lemma by_command_from l c x : by_command l c = Some x -> x ∈ l /\ cs_Command x = c.
Proof.
  unfold by_command. revert l. refine (rev_ind _ _ _); [done|]. intros y l IH. rewrite foldl_snoc.
  destruct (String.eqb_spec (cs_Command y) c) as [E|]; [intros [= <-]; set_solver|]. intros Hx. apply IH in Hx. set_solver.
Qed.

Definition query_matches (q : string) (s : CommandSummary) : bool :=
  blank q || bool_decide (is_Some (fuzzyScore ToLower (trim_space q) (cs_Command s))).

Lemma ranked_perm now q src :
  blank q = false ->
  (e_Command ∘ r_Entry <$> RankWith ToLower now q (summary_entry <$> src) false empty_context) ≡ₚ
  cs_Command <$> List.filter (query_matches q) src.
Proof.
  intros Hq. unfold RankWith. unfold blank in Hq. rewrite Hq. unfold sortResults. rewrite sort_slice_perm.
  set (ctx := fill_context _ _ _). unfold query_matches, blank. rewrite Hq. clearbody ctx. apply reflexive_eq.
  induction src as [|x src IH]; [done|]. rewrite fmap_cons. unfold omap in *. simpl. unfold fuzzy_result at 1.
  destruct (fuzzyScore ToLower (trim_space q) (e_Command (summary_entry x))) as [m|] eqn:E; simpl in E; rewrite E.
  - rewrite fmap_cons. rewrite bool_decide_true by by eexists. simpl. by rewrite IH.
  - rewrite bool_decide_false by by intros [? ?]. simpl. by rewrite IH.
Qed.

(** The rows shown are exactly the loaded commands that match what is typed (and have failed, in
    that order of the list), each once, in the order that was chosen. *)
Theorem rows_match now l q mode :
  NoDup (cs_Command <$> l) ->
  let rows := filterSummaries ToLower now l q mode in
  (forall x, x ∈ rows <-> x ∈ l /\ failing mode x = true /\ query_matches q x = true) /\
  NoDup (cs_Command <$> rows) /\ sorted_by (summary_less mode) rows.
Proof.
  intros Hnd. cbv zeta. unfold filterSummaries, sortSummaries.
  set (src := if bool_decide (mode = SortFailed) then List.filter (fun s => 0 <? cs_Failed s) l else l).
  assert (forall x, x ∈ src <-> x ∈ l /\ failing mode x = true) as Hsrc.
  { intros x. unfold src, failing. case_bool_decide; simpl; [|naive_solver]. by rewrite list_elem_of_In, filter_In, <- list_elem_of_In. }
  assert (NoDup (cs_Command <$> src)) as Hnds by (unfold src; case_bool_decide; [by apply NoDup_fmap_filter|done]).
  set (out := if blank q then src else omap _ _).
  assert (out ≡ₚ List.filter (query_matches q) src) as Hout.
  { unfold out. destruct (blank q) eqn:Hq.
    - apply reflexive_eq. symmetry. apply List.forallb_filter_id. apply List.forallb_forall. intros x _. unfold query_matches. by rewrite Hq.
    - trans (omap (by_command src) (cs_Command <$> List.filter (query_matches q) src)).
      + rewrite <- (ranked_perm now q src Hq). apply reflexive_eq.
        induction (RankWith _ _ _ _ _ _) as [|r rs IH]; [done|]. rewrite fmap_cons. unfold omap in *. simpl. by rewrite IH.
      + apply reflexive_eq. assert (forall x, x ∈ List.filter (query_matches q) src -> x ∈ src) as Hsub.
        { intros x. rewrite !list_elem_of_In, filter_In. by intros [? _]. }
        induction (List.filter (query_matches q) src) as [|x xs IH]; [done|]. rewrite fmap_cons. unfold omap in *. simpl.
        rewrite by_command_unique by (done || apply Hsub; by left). f_equal. apply IH. intros y Hy. apply Hsub. by right. }
  split_and!.
  - intros x. rewrite elem_of_sort_slice, Hout, list_elem_of_In, filter_In, <- list_elem_of_In, Hsrc. naive_solver.
  - rewrite sort_slice_perm, Hout. by apply NoDup_fmap_filter.
  - apply sort_slice_sorted, summary_weak_order.
Qed.

(** * The charts *)

(** A bar counts the runs with its label. *)
Definition bar_of (key : Entry -> string) (runs : list Entry) (k : string) : option chartBar :=
  let mine := List.filter (fun e => String.eqb (key e) k) runs in
  if bool_decide (mine = []) then None
  else Some (mkBar k (Z.of_nat (length mine)) (Z.of_nat (length (List.filter entry_fails mine)))).

Lemma bars_counted key runs k : foldl (count_run key) ∅ runs !! k = bar_of key runs k.
Proof.
  revert runs. refine (rev_ind _ _ _); [exact (lookup_empty k)|]. intros e runs IH. rewrite foldl_snoc. unfold bar_of in *.
  rewrite filter_snoc. unfold count_run at 1. destruct (String.eqb_spec (key e) k) as [<-|Hne].
  - rewrite lookup_insert_eq, IH. set (mine := List.filter _ runs). rewrite (bool_decide_false (mine ++ _ = [])) by (by intros [_ ?]%app_eq_nil).
    rewrite length_app, filter_snoc. f_equal. clearbody mine. clear IH. case_bool_decide as E; simpl.
    + rewrite E. simpl. by destruct (entry_fails e).
    + destruct (entry_fails e); rewrite ?length_app, ?app_nil_r; simpl; f_equal; lia.
  - by rewrite lookup_insert_ne, IH, app_nil_r.
Qed.

(** The bars of a chart count every run once, under its label; the longest ones come first. *)
Theorem charts_count key runs n :
  (forall b, b ∈ bars_of key runs <-> bar_of key runs (cb_Label b) = Some b) /\
  sorted_by taller (topBy runs key n) /\ (0 <= n -> Z.of_nat (length (topBy runs key n)) <= n).
Proof.
  split_and!.
  - intros b. unfold bars_of. rewrite list_elem_of_fmap. split.
    + intros ([k b'] & -> & Hk). apply elem_of_map_to_list in Hk. rewrite bars_counted in Hk. simpl.
      assert (cb_Label b' = k) as -> by (unfold bar_of in Hk; case_bool_decide; [done|by injection Hk as <-]). done.
    + intros Hb. exists (cb_Label b, b). split; [done|]. apply elem_of_map_to_list. by rewrite bars_counted.
  - unfold topBy. case_match; [by constructor|]. unfold sorted_by.
    assert (forall k l, StronglySorted (fun x y => taller y x = false) l -> StronglySorted (fun x y => taller y x = false) (take k l)) as Htake.
    { induction k as [|k IH]; intros l Hl; [by constructor|]. destruct Hl as [|x l Hl Hx]; [by constructor|]. simpl. constructor; [by apply IH|].
      rewrite Forall_forall in Hx |- *. intros y Hy. by apply Hx, (subseteq_take _ _ _ Hy). }
    apply Htake. apply sort_slice_sorted. exact (descending_weak_order cb_Total _ _ (by_name_weak_order cb_Label _)).
  - intros Hn. unfold topBy. case_match; [done|]. rewrite length_take. lia.
Qed.

(** A bar fills its width exactly, shows something for every run, and a failure among them. *)
Theorem glyph_bar_fits bar maxN width :
  0 <= cb_Fail bar <= cb_Total bar -> 0 <= width ->
  let '(okN, failN, blanks) := renderGlyphBar bar maxN width in
  0 <= okN /\ 0 <= failN /\ 0 <= blanks /\ okN + failN + blanks = width /\
  (0 < width -> 0 < maxN -> 0 < cb_Total bar -> 0 < okN + failN) /\
  (cb_Fail bar = 0 -> failN = 0) /\ (0 < cb_Fail bar -> 1 < okN + failN -> 0 < failN).
Proof.
  intros Hf Hw. unfold renderGlyphBar. destruct (Z.leb_spec width 0), (Z.leb_spec maxN 0), (Z.leb_spec (cb_Total bar) 0);
    simpl; try (split_and!; lia).
  set (n0 := (cb_Total bar * width + maxN - 1) `quot` maxN). set (n1 := if n0 <? 1 then 1 else n0).
  set (n := if width <? n1 then width else n1).
  assert (1 <= n <= width) as Hn by (unfold n, n1; repeat case_match; rewrite ?Z.ltb_lt, ?Z.ltb_ge in *; lia).
  set (ok := ((cb_Total bar - cb_Fail bar) * n) `quot` cb_Total bar).
  assert (0 <= ok <= n) as Hok.
  { unfold ok. rewrite Z.quot_div_nonneg by nia. split; [apply Z.div_pos; nia|]. apply Z.div_le_upper_bound; nia. }
  clearbody ok n. destruct (Z.ltb_spec 0 (cb_Fail bar)), (Z.ltb_spec (n - ok) 1), (Z.ltb_spec 1 n), (Z.eqb_spec (cb_Fail bar) 0);
    simpl; split_and!; lia.
Qed.
End InspectSpec.
