(* ===== verification/InspectApp.v ===== *)
(** [runInspect] of [cmd/remnix/run_local.go]: the inspector over the local
    database. Deletions go through the daemon, a parameter here, and to the
    database itself when the daemon does not answer. *)

From S2P Require Import Prelude Database Text Config History Event Advanced App AppSafety Menus Inspect InspectSpec.
Import Inspector.

Section InspectApp.
Context {S K TI Key Re : Type} `{!TextInput TI Key} `{!EventCodecs}.
Context (cfg : Config) (host : string).
Context (MatchString : Re -> string -> bool) (Re_String : Re -> string).
Context (HistoryDelete : string -> M (App S K) unit) (client_TombstoneEntries : list Entry -> M (App S K) unit).
Notation AF := (AdvancedFilter (Re := Re)).

Definition or_local {W} (remote local : M W unit) : M W unit :=
  r ← try remote;
  match r with Ok _ => mret tt | Fail _ => local end.

Definition load (sort : SummarySort) (query : string) (a : App S K) : result (list CommandSummary * Stats) :=
  Ok (CommandSummaries query sort 5000 (ap_db a), Store_Stats (ap_db a)).
Definition advanced_load (sort : SummarySort) (f : AF) (a : App S K) : result (list CommandSummary * Stats) :=
  let f := mkAdvanced (af_CommandRE f) (af_CommandNeedle f) (af_CwdRE f) (af_HostRE f) (af_ShellRE f) (af_SessionRE f)
             (af_DeviceRE f) (af_ExitRE f) (af_ExitFailed f) (af_Exit f) (af_Since f) (af_Until f) sort
             (if af_Limit f =? 0 then 5000 else af_Limit f) in
  Ok (CommandSummariesAdvanced MatchString Re_String f (ap_db a), Store_Stats (ap_db a)).

Definition runInspect (t : Time) (advanced : bool) (a : App S K) : @InspectOptions (App S K) Re :=
  mkInspectOptions (Store_Stats (ap_db a)) (CommandSummaries EmptyString SortRecent 5000 (ap_db a))
    (Some load) (Some advanced_load)
    (Some (fun command a => Ok (ListByCommand command (ap_db a))))
    (Some (fun command f a => Ok (ListByCommandMatching MatchString command f (ap_db a))))
    (Some (fun command => or_local (HistoryDelete command) (TombstoneCommand cfg host t command)))
    (Some (fun e => or_local (client_TombstoneEntries [e]) (TombstoneEntries cfg host t [e])))
    (Some (fun entries => or_local (client_TombstoneEntries entries) (TombstoneEntries cfg host t entries)))
    advanced.

(** ** Deleting, down to the rows of the database *)

Context (ti_Blur : TI -> TI) (ti_CharLimit : Z -> TI -> TI) (Compile : string -> option Re).
Context (ToLower : string -> string) (time_Parse : string -> string -> option Time) (Error_text : error -> string).
Context (t : Time) (advanced : bool) (a0 : App S K).
Notation opts := (runInspect t advanced a0).
Notation Update := (Inspector.Update (Key := Key) ti_Blur ti_CharLimit Compile MatchString ToLower time_Parse Error_text opts).
Notation NewInspect := (Inspector.NewInspect (Key := Key) ti_Blur ti_CharLimit Compile MatchString ToLower time_Parse Error_text opts).
Notation istep := (istep (Key := Key) ti_Blur ti_CharLimit Compile MatchString ToLower time_Parse Error_text opts).
Notation asked := (asked Compile MatchString ToLower time_Parse opts).

(** The daemon is down: y at the prompt marks the rows it is about as deleted, and no other row of
    the history changes. *)
Theorem inspector_tombstones now0 s now (msg : TMsg Key Empty_set Empty_set) :
  (forall l a, exists e, client_TombstoneEntries l a = (a, Fail e)) ->
  rtc istep (NewInspect now0 a0).1 s -> asked (st_m s) -> key_of (TI := TI) msg ∈ ["y"; "Y"]%string ->
  (TombstoneEntries cfg host t (i_confirmEntries (st_m s)) (st_w s)).2 = Ok tt ->
  exists s', Update now msg s = (s', Ok tt) /\
    forall k, db_history (ap_db (st_w s')) !! k =
      if decide (k ∈ e_ID <$> i_confirmEntries (st_m s)) then hr_set_deleted <$> db_history (ap_db (st_w s)) !! k
      else db_history (ap_db (st_w s)) !! k.
Proof.
  intros Hdown Hr Ha Hk Hok. pose proof (inv_run _ _ _ _ _ _ _ _ _ _ _ Hr) as Hi.
  destruct (proj1 (wp_run _ _ _) (confirm_deletes ti_Blur ti_CharLimit Compile MatchString ToLower time_Parse Error_text opts now msg s Hi Ha Hk)) as ([] & s' & E & ds & [_ Hw] & Hd).
  exists s'. split; [done|]. unfold deletes in Hd. simpl in Hd. subst ds. simpl in Hw. rewrite Hw.
  set (es := i_confirmEntries (st_m s)) in *. unfold or_local, try. rewrite bind_run.
  destruct (Hdown es (st_w s)) as [e ->]. destruct (TombstoneEntries cfg host t es (st_w s)) as [a' r] eqn:Et. simpl in Hok |- *. subst r.
  assert (for_each es (fun e => app_sql (Engine.EnqueueHistoryTombstoned (local_options cfg host) t e)) (st_w s) = (a', Ok tt)) as Ef.
  { unfold TombstoneEntries in Et. by destruct es. }
  destruct (tombstone_entries_history _ _ _ _ _ _ Ef) as [-> _]. intros k. apply delete_all_lookup.
Qed.
End InspectApp.
