(* ===== verification/MenusSpec.v ===== *)
(** What the popups of the shell widgets guarantee: the history search shows the
    ranking of what is left, selects and deletes what is highlighted; the
    completion menu shows exactly the completions of what is typed, although it
    fetches them for another text and keeps them. *)

From S2P Require Import Prelude Database Text Search Overlay Menus.
From Stdlib Require Import Ascii.

(** ** Geometry *)

(** The popup lies on the screen, as long as the cursor it is placed by does. *)
Definition on_screen (g : Geometry) : Prop := 0 <= g_overlayY g /\ 1 <= g_overlayH g /\ g_overlayY g + g_overlayH g <= g_height g.
Lemma overlayRows_bounds termRows percent : 1 <= termRows -> 1 <= overlayRows termRows percent <= termRows.
Proof.
  intros Hr. unfold overlayRows, SearchMinOverlayHeight, SearchChromeRows, SearchListMinRows. rewrite (proj2 (Z.ltb_ge termRows 1)) by done. destruct (_ || _); [lia|].
  set (h := (termRows * percent + 50) `quot` 100). destruct (Z.ltb_spec termRows (4 + 5)); [destruct (Z.ltb_spec h termRows)|destruct (Z.ltb_spec h (4 + 5))]; case_match; lia.
Qed.
Lemma overlayOriginY_fits row rows cols h : 1 <= cols -> 0 <= row < rows -> 1 <= h <= rows -> 0 <= overlayOriginY row rows cols h /\ overlayOriginY row rows cols h + h <= rows.
Proof.
  intros Hc Hr Hh. unfold overlayOriginY. destruct (Z.leb_spec rows h); [lia|]. destruct (Place_fits row rows cols h) as (_ & _ & Eh & Hy & Hyh & _); [lia..|].
  rewrite Eh in Hyh. lia.
Qed.
Lemma enable_overlay_fits fallback st g : 1 <= g_width g -> 1 <= g_height g ->
  (forall h, 1 <= h -> 1 <= fallback h <= h) -> 0 <= os_CursorRow st < (if 0 <? os_TermRows st then os_TermRows st else g_height g) ->
  on_screen (enable_overlay fallback st g).
Proof.
  intros Hw Hh Hf Hr. unfold enable_overlay, on_screen. cbn. set (height := if 0 <? os_TermRows st then os_TermRows st else g_height g) in *.
  assert (1 <= height) as H1 by (unfold height; destruct (Z.ltb_spec 0 (os_TermRows st)); lia).
  assert (1 <= (if 0 <? os_TermCols st then os_TermCols st else g_width g)) as H2 by (destruct (Z.ltb_spec 0 (os_TermCols st)); lia).
  set (h := if (os_RectH st <? 1) || (height <? os_RectH st) then fallback height else os_RectH st).
  assert (1 <= h <= height) as H3.
  { unfold h. destruct (Z.ltb_spec (os_RectH st) 1); [by apply Hf|]. destruct (Z.ltb_spec height (os_RectH st)); [by apply Hf|cbn; lia]. }
  destruct (Z.ltb_spec (os_RectY st) 0); [pose proof (overlayOriginY_fits _ _ _ _ H2 Hr H3); cbn; lia|].
  destruct (Z.ltb_spec height (os_RectY st + h)); [pose proof (overlayOriginY_fits _ _ _ _ H2 Hr H3); cbn; lia|cbn; lia].
Qed.
Lemma search_resize_fits w h g : g_overlay g = true -> 0 <= g_overlayCursorRow g < 1 `max` h -> on_screen (SearchMenu.resize w h g).
Proof.
  intros Ho Hr. unfold SearchMenu.resize, on_screen. rewrite Ho. cbn [g_overlayY g_overlayH g_height]. pose proof (overlayRows_bounds (1 `max` h) (g_overlayPercent g) ltac:(lia)).
  destruct (overlayOriginY_fits (g_overlayCursorRow g) (1 `max` h) (1 `max` w) (overlayRows (1 `max` h) (g_overlayPercent g))); lia.
Qed.

(** ** The history search *)

Module SearchSpec.
Import SearchMenu.
Section Search.
Context {W TI Key Other : Type} `{TextInput TI Key}.
Context (ti_Other : Other -> TI -> TI) (ToLower : string -> string) (Error_text : error -> string).
Context (delete : option (Entry -> M W unit)).
Notation model := (model (TI := TI)).
Notation Upd := (Update (W := W) ti_Other ToLower Error_text delete).

(** One message, while the popup is open. *)
Inductive step : model * W -> model * W -> Prop :=
| step_Update now msg m w m' w' : m_quitting m = false -> Upd now msg m w = (m', w') -> step (m, w) (m', w').

(** The list for the model's query and scope, at some time. *)
Definition ranking (now : Time) (m : model) : list Entry :=
  reverse (FilterWith ToLower now (m_all m) (ti_Value (m_input m)) (mkContext time_zero (m_cwd m) (m_deviceID m) (m_sessionID m) None) (m_cwdOnly m)).
Definition cursor_ok (m : model) : Prop := 0 <= m_cursor m /\ (m_visible m = [] -> m_cursor m = 0) /\ (m_visible m <> [] -> m_cursor m < Z.of_nat (length (m_visible m))).

Record menu_inv (entries : list Entry) (m : model) : Prop := {
  mi_ranked : exists now, m_visible m = ranking now m;
  mi_left : m_all m `sublist_of` entries;
  mi_cursor : cursor_ok m;
  mi_print : m_print m = true -> m_quitting m = true /\ exists e, highlighted m = Some e /\ m_selected m = e_Command e;
}.

Lemma refresh_inv now entries m : m_all m `sublist_of` entries -> m_print m = false -> menu_inv entries (refresh ToLower now m).
Proof.
  intros Hs Hp. constructor; cbn; [by exists now|done| |by rewrite Hp].
  unfold cursor_ok. cbn. set (l := reverse _). destruct l as [|e l]; [by split_and!|]. cbn [length].
  destruct (Z.ltb_spec (Z.of_nat (Datatypes.S (length l)) - 1) 0); split_and!; try done; lia.
Qed.
(** A new cursor that stays in range, a new size, a new status. *)
Lemma cursor_inv entries m c : m_print m = false -> (m_visible m = [] -> c = 0) -> (m_visible m <> [] -> 0 <= c < Z.of_nat (length (m_visible m))) ->
  menu_inv entries m -> menu_inv entries (with_visible (m_visible m) c m).
Proof.
  intros Hp H0 Hn [[now Hr] Hl Hc _]. constructor; cbn; [by exists now|done| |by rewrite Hp]. unfold cursor_ok. cbn.
  destruct (m_visible m) as [|e l]; [rewrite H0 by done; by split_and!|]. specialize (Hn ltac:(done)). split_and!; [lia|done|lia].
Qed.
Lemma same_inv entries m m' : m_print m' = false ->
  m_input m' = m_input m -> m_all m' = m_all m -> m_visible m' = m_visible m -> m_cursor m' = m_cursor m -> m_cwd m' = m_cwd m ->
  m_deviceID m' = m_deviceID m -> m_sessionID m' = m_sessionID m -> m_cwdOnly m' = m_cwdOnly m -> menu_inv entries m -> menu_inv entries m'.
Proof.
  intros Hp E1 E2 E3 E4 E5 E6 E7 E8 [[now Hr] Hl Hc _]. constructor; [| | |by rewrite Hp].
  - exists now. unfold ranking in *. by rewrite E1, E2, E3, E5, E6, E7, E8.
  - by rewrite E2.
  - unfold cursor_ok. by rewrite E3, E4.
Qed.
Lemma highlighted_iff (m : model) e : highlighted m = Some e -> e ∈ m_visible m.
Proof. unfold highlighted. destruct (_ <=? _); [done|]. apply list_elem_of_lookup_2. Qed.

Lemma accept_inv run entries m : m_print m = false -> menu_inv entries m -> menu_inv entries (accept run m).
Proof.
  intros Hp [Hr Hl Hc _]. unfold accept. destruct (highlighted m) as [e|] eqn:E; constructor; cbn; try done; [|by rewrite Hp].
  intros _. split; [done|]. by exists e.
Qed.
Lemma clampCursor_ok (m : model) : exists c, clampCursor m = with_visible (m_visible m) c m /\ cursor_ok (with_visible (m_visible m) c m).
Proof.
  unfold clampCursor, cursor_ok. cbn [m_visible m_cursor with_visible]. destruct (m_visible m) as [|e l]; cbn [length].
  - exists 0. by split_and!.
  - rewrite (proj2 (Z.eqb_neq _ _)) by lia. eexists. split; [reflexivity|].
    destruct (Z.leb_spec (Z.of_nat (Datatypes.S (length l))) (m_cursor m)); repeat case_match; split_and!; try done; lia.
Qed.
Lemma clamp_inv now entries m : m_print m = false -> m_all m `sublist_of` entries -> menu_inv entries (clampCursor (refilter ToLower now m)).
Proof.
  intros Hp Hs. destruct (clampCursor_ok (refilter ToLower now m)) as (c & -> & Hc). constructor; cbn; [by exists now|done|done|by rewrite Hp].
Qed.
Lemma type_in_inv now ti entries m : m_print m = false -> menu_inv entries m -> menu_inv entries (type_in ToLower now ti m).
Proof.
  intros Hp Hi. unfold type_in. destruct (String.eqb_spec (ti_Value ti) (ti_Value (m_input m))) as [E|E]; cbn [negb].
  - destruct Hi as [[now' Hr] Hl Hc _]. constructor; cbn; [|done|done|by rewrite Hp]. exists now'. unfold ranking in *. cbn. by rewrite E.
  - apply refresh_inv; [apply (mi_left _ _ Hi)|done].
Qed.

Lemma deleteSelected_inv now entries m w : m_print m = false -> menu_inv entries m -> menu_inv entries (deleteSelected ToLower Error_text delete now m w).1.
Proof.
  intros Hp Hi. unfold deleteSelected. destruct (highlighted m) as [e|]; [|done].
  assert (forall l, menu_inv entries (clampCursor (refilter ToLower now (with_all (List.filter l (m_all m)) (with_status EmptyString m))))) as Hd.
  { intros l. apply clamp_inv; [done|]. cbn. etrans; [apply sublist_filter_bool|apply (mi_left _ _ Hi)]. }
  destruct delete as [f|]; [|apply Hd]. destruct (f e w) as [w' [u|err]]; [apply Hd|]. by apply (same_inv entries m).
Qed.

Lemma Update_inv now msg entries m w m' w' : m_quitting m = false -> Upd now msg m w = (m', w') -> menu_inv entries m -> menu_inv entries m'.
Proof.
  intros Hq E Hi. assert (m_print m = false) as Hp by (destruct (m_print m) eqn:Ep; [|done]; destruct (mi_print _ _ Hi Ep); congruence).
  assert (m' = (Upd now msg m w).1) as -> by (by rewrite E). clear E. pose proof (mi_cursor _ _ Hi) as (Hc0 & Hc1 & Hc2).
  destruct msg as [wd ht| |k| |[]|o]; cbn [Update fst]; [by apply (same_inv entries m)|done| |done|by apply type_in_inv].
  destruct (key_in _ _); [cbn [fst]; by apply (same_inv entries m)|].
  destruct (String.eqb _ _); [by apply accept_inv|]. destruct (String.eqb _ _); [by apply accept_inv|].
  destruct (key_in _ _).
  { apply cursor_inv; [done| | |done]; destruct (Z.ltb_spec 0 (m_cursor m)); naive_solver lia. }
  destruct (key_in _ _).
  { apply cursor_inv; [done| | |done]; intros E; destruct (Z.ltb_spec (m_cursor m + 1) (Z.of_nat (length (m_visible m)))); rewrite ?E in *; cbn in *; naive_solver lia. }
  assert (forall d, menu_inv entries (moveCursor d m)) as Hm.
  { intros d. apply cursor_inv; [done| | |done]; intros E; [by rewrite E|]. destruct (m_visible m); [done|]. rewrite (proj2 (Z.eqb_neq _ _)) by (cbn; lia). cbn [length]. lia. }
  destruct (String.eqb _ _); [apply Hm|]. destruct (String.eqb _ _); [apply Hm|].
  destruct (String.eqb _ _); [apply refresh_inv; [apply (mi_left _ _ Hi)|done]|].
  destruct (String.eqb _ _); [by apply deleteSelected_inv|by apply type_in_inv].
Qed.

Lemma ranking_from now m e : e ∈ ranking now m -> e ∈ m_all m.
Proof.
  unfold ranking, FilterWith. rewrite elem_of_reverse. intros (r & -> & Hr%RankWith_from)%list_elem_of_fmap.
  destruct (_ && _); [|done]. by eapply elem_of_sublist, sublist_filter_bool.
Qed.
Lemma listWindow_shows listH (m : model) : 1 <= listH -> cursor_ok m -> m_visible m <> [] ->
  let '(a, b) := listWindow listH m in
  0 <= a <= m_cursor m /\ m_cursor m < b <= Z.of_nat (length (m_visible m)) /\ b - a = listH `min` Z.of_nat (length (m_visible m)).
Proof.
  intros Hl (Hc0 & _ & Hc) Hn. specialize (Hc Hn). unfold listWindow. set (n := Z.of_nat (length (m_visible m))) in *.
  destruct (Z.eqb_spec n 0); [lia|]. destruct (Z.leb_spec n listH); [lia|]. destruct (Z.ltb_spec (m_cursor m + 1 - listH) 0); [destruct (Z.ltb_spec n listH)|destruct (Z.ltb_spec n (m_cursor m + 1))]; lia.
Qed.
(** What a message can do to the world: only Ctrl+X on a highlighted entry. *)
Lemma Update_world now msg m w m' w' : Upd now msg m w = (m', w') ->
  w' = w \/ exists k f e, msg = KeyPressMsg k /\ key_String (TI := TI) k = "ctrl+x"%string /\ delete = Some f /\ highlighted m = Some e /\ w' = (f e w).1 /\
    match (f e w).2 with
    | Ok _ => m_all m' = List.filter (fun x => negb (String.eqb (e_Command x) (e_Command e))) (m_all m)
    | Fail err => m' = with_status (Error_text err) m
    end.
Proof.
  destruct msg as [wd ht| |k| |[]|o]; cbn [Update]; try (intros [= <- <-]; by left).
  repeat (match goal with |- (if ?b then _ else _) = _ -> _ => destruct b eqn:? end; [first [intros [= <- <-]; by left|idtac]|]); [|intros [= <- <-]; by left].
  match goal with E : String.eqb _ "ctrl+x" = true |- _ => apply String.eqb_eq in E; rename E into Ek end. unfold deleteSelected.
  destruct (highlighted m) as [e|] eqn:Eh; [|intros [= <- <-]; by left]. destruct delete as [f|]; [|intros [= <- <-]; by left].
  intros E. right. exists k, f, e. destruct (f e w) as [w1 [u|err]]; injection E as <- <-; split_and!; try done.
  unfold clampCursor. by destruct (_ =? 0).
Qed.

(** C27: The search popup shows, selects and deletes what it should, in every run of messages: the
    list is always the ranking of the entries left, for the text and the scope; the highlighted row
    exists and is drawn; an answer is the command of the highlighted entry; the history is touched
    only by Ctrl+X, for the highlighted entry, after which no entry with its command is left on
    success and only the status line changes on failure. *)
Theorem search_popup_correct (now : Time) (entries : list Entry) (query cwd deviceID sessionID : string) (percent : Z) (w w' : W) (m : model) :
  rtc step (New ToLower now entries query cwd deviceID sessionID percent, w) (m, w') ->
  (exists now', m_visible m = ranking now' m) /\ m_all m `sublist_of` entries /\
  (m_visible m <> [] -> forall listH, 1 <= listH -> let '(a, b) := listWindow listH m in 0 <= a <= m_cursor m /\ m_cursor m < b <= Z.of_nat (length (m_visible m))) /\
  (forall c, SelectedCommand m = Some c -> exists e, highlighted m = Some e /\ e ∈ entries /\ c = e_Command e) /\
  (forall now' msg m2 w2, Upd now' msg m w' = (m2, w2) ->
     w2 = w' \/ exists k f e, msg = KeyPressMsg k /\ key_String (TI := TI) k = "ctrl+x"%string /\ delete = Some f /\ highlighted m = Some e /\ w2 = (f e w').1 /\
       match (f e w').2 with
       | Ok _ => m_quitting m = false -> forall x, x ∈ m_all m2 \/ x ∈ m_visible m2 -> x ∈ m_all m /\ e_Command x <> e_Command e
       | Fail err => m2 = with_status (Error_text err) m
       end).
Proof.
  intros Hrun. assert (menu_inv entries m) as Hi.
  { change m with (m, w').1. revert Hrun. generalize (m, w'). apply (rtc_ind_r (fun s => menu_inv entries s.1)); [by apply refresh_inv|].
    intros s1 s2 _ [now' msg m1 w1 m2 w2 Hq E] IH. by eapply Update_inv. }
  pose proof Hi as [Hr Hl Hc Hp]. split_and!; [done|done| | |].
  - intros Hn listH Hh. pose proof (listWindow_shows listH m Hh Hc Hn) as Hw. destruct (listWindow listH m) as [a b]. tauto.
  - unfold SelectedCommand. intros c. destruct (m_print m) eqn:Ep; [|done]. destruct (Hp eq_refl) as (_ & e & He & Hs). destruct (str_empty _); intros [= <-].
    exists e. split_and!; [done| |done]. destruct Hr as [now' Hr]. eapply elem_of_sublist, Hl. eapply ranking_from. rewrite <- Hr. by apply highlighted_iff.
  - intros now' msg m2 w2 E. destruct (Update_world _ _ _ _ _ _ E) as [->|(k & f & e & -> & Hk & Hf & He & -> & Hd)]; [by left|]. right. exists k, f, e.
    split_and!; [done|done|done|done|done|]. destruct (f e w') as [w3 [u|err]]; [|done]. cbn [fst snd] in *. intros Hq x Hx.
    assert (x ∈ m_all m2) as Hx2.
    { destruct Hx as [Hx|Hx]; [done|]. destruct (mi_ranked _ _ (Update_inv _ _ _ _ _ _ _ Hq E Hi)) as [now2 Hr2]. rewrite Hr2 in Hx. by eapply ranking_from. }
    rewrite Hd in Hx2. apply list_elem_of_In, filter_In in Hx2 as [Hx2%list_elem_of_In Hne%negb_true_iff%String.eqb_neq]. done.
Qed.
End Search.
End SearchSpec.

(** ** The completion menu *)

Module SuggestSpec.
Import SuggestMenu.

(** Two prefixes of a text are comparable. *)
Lemma has_prefix_refl s : has_prefix s s = true.
Proof. induction s as [|c s IH]; [done|]. cbn. by rewrite Ascii.eqb_refl. Qed.
Lemma has_prefix_trans a b c : has_prefix a b = true -> has_prefix b c = true -> has_prefix a c = true.
Proof.
  revert b c. induction a as [|x a IH]; intros b c; [done|]. destruct b as [|y b]; [done|]. destruct c as [|z c]; cbn; [done|].
  destruct (Ascii.eqb_spec x y) as [->|]; [|done]. destruct (Ascii.eqb_spec y z) as [->|]; [|done]. apply IH.
Qed.
Lemma has_prefix_comparable a b c : has_prefix a c = true -> has_prefix b c = true -> has_prefix a b = true \/ has_prefix b a = true.
Proof.
  revert b c. induction a as [|x a IH]; intros b c; [by left|]. destruct b as [|y b]; [by right|]. destruct c as [|z c]; cbn; [done|].
  destruct (Ascii.eqb_spec x z) as [->|]; [|done]. destruct (Ascii.eqb_spec y z) as [->|]; [|done]. rewrite Ascii.eqb_refl. apply IH.
Qed.

(** The list of the longest cached prefix. *)
Definition longest (typed : string) (l : list (string * list suggestItem)) (b : option (string * list suggestItem)) : Prop :=
  match b with
  | Some (k, v) => (k, v) ∈ l /\ has_prefix k typed = true /\ (forall k' v', (k', v') ∈ l -> has_prefix k' typed = true -> (String.length k' <= String.length k)%nat)
  | None => forall k v, (k, v) ∈ l -> has_prefix k typed = false
  end.
Lemma longest_add typed l k0 v0 (kv : string * list suggestItem) : longest typed l (Some (k0, v0)) ->
  (has_prefix kv.1 typed = true -> (String.length kv.1 <= String.length k0)%nat) -> longest typed (l ++ [kv]) (Some (k0, v0)).
Proof.
  destruct kv as [k v]. cbn. intros (H1 & H2 & H3) Hk. split_and!; [apply elem_of_app; by left|done|].
  intros k' v' [Hin|[= -> ->]%list_elem_of_singleton]%elem_of_app Hp; [by eapply H3|by apply Hk].
Qed.
Lemma better_key_longest typed l b kv : longest typed l b -> longest typed (l ++ [kv]) (better_key typed b kv).
Proof.
  destruct kv as [k v]. unfold better_key. cbn [fst]. destruct (has_prefix k typed) eqn:Ek; cbn [andb].
  - assert ((k, v) ∈ l ++ [(k, v)]) as Hin by (apply elem_of_app; right; by left). destruct b as [[k0 v0]|].
    + intros Hb. destruct (Nat.ltb_spec (String.length k0) (String.length k)) as [Hl|Hl]; [|by apply longest_add]. destruct Hb as (H1 & H2 & H3).
      split_and!; [done|done|]. intros k' v' [Hin'|[= -> ->]%list_elem_of_singleton]%elem_of_app Hk; [|done]. specialize (H3 _ _ Hin' Hk). lia.
    + intros H1. split_and!; [done|done|]. intros k' v' [Hin'|[= -> ->]%list_elem_of_singleton]%elem_of_app Hk; [|done]. by rewrite (H1 _ _ Hin') in Hk.
  - destruct b as [[k0 v0]|]; intros Hb; [apply longest_add; [done|cbn; by rewrite Ek]|].
    intros k' v' [Hin|[= -> ->]%list_elem_of_singleton]%elem_of_app; [by eapply Hb|done].
Qed.
Lemma cache_best_longest typed (c : SuggestCache) : longest typed (map_to_list c) (cache_best typed c).
Proof.
  unfold cache_best. induction (map_to_list c) as [|kv l IH] using rev_ind; [intros k v []%not_elem_of_nil|].
  rewrite foldl_app. cbn [foldl]. by apply better_key_longest.
Qed.

Section Suggest.
Context {TI Key Other : Type} `{TextInput TI Key}.
Context (ti_Other : Other -> TI -> TI).
Notation suggestModel := (suggestModel (TI := TI)).
Notation Upd := (Update (TI := TI) (Key := Key) ti_Other).
(** The completions of a text; those of a longer one are the ones that extend
    it. *)
Context (comp : string -> list string).
Context (Hcomp : forall p q, has_prefix q p = true -> comp p = List.filter (has_prefix p) (comp q)).

Notation cmds l := (it_cmd <$> l).
(** A list that holds all completions of a text. *)
Definition covers (k : string) (l : list suggestItem) : Prop := List.filter (has_prefix k) (cmds l) = comp k.
Lemma covers_longer k p l : covers k l -> has_prefix k p = true -> List.filter (has_prefix p) (cmds l) = comp p.
Proof.
  intros Hk Hp. rewrite (Hcomp p k Hp), <- Hk, filter_both. apply filter_ext. intros c.
  destruct (has_prefix p c) eqn:E; [|by rewrite andb_false_r]. by rewrite (has_prefix_trans k p c).
Qed.
Lemma matching_cmds p l : cmds (matching p l) = List.filter (fun c => negb (String.eqb c p)) (List.filter (has_prefix p) (cmds l)).
Proof. unfold matching. rewrite filter_both. by rewrite filter_fmap. Qed.
Lemma comp_extends p c : c ∈ comp p -> has_prefix p c = true.
Proof. rewrite (Hcomp p p) by apply has_prefix_refl. by intros [_ ?]%list_elem_of_In%filter_In. Qed.
(** What is known of the completions of one text, as completions of another. *)
Lemma comp_other p0 p c : c ∈ comp p0 -> has_prefix p c = true -> c ∈ comp p.
Proof.
  intros Hc Hp. destruct (has_prefix_comparable p0 p c) as [H0|H0]; [by apply comp_extends|done| |].
  - rewrite (Hcomp p p0 H0). apply list_elem_of_In, filter_In. split; [by apply list_elem_of_In|done].
  - rewrite (Hcomp p0 p H0) in Hc. by apply list_elem_of_In, filter_In in Hc as [Hc%list_elem_of_In _].
Qed.

(** The list the rows are taken from. *)
Definition source (m : suggestModel) : list suggestItem := match cache_best (prefix m) (s_cache m) with Some (_, l) => l | None => s_allItems m end.

(** What arrives while the menu is open: payloads are the completions of the
    text the menu was opened for, and while they are first awaited that text is
    only extended; what only the text field handles leaves the text alone. *)
Definition fair (p0 : string) (m : suggestModel) (msg : TMsg Key Other payload) : Prop :=
  match msg with
  | ItemsMsg (Items l) => cmds l = comp p0 /\ (s_loadedPrefix m = EmptyString -> has_prefix p0 (prefix m) = true)
  | OtherMsg o => ti_Value (ti_Other o (s_input m)) = prefix m
  | _ => True
  end.
Inductive menu_step (p0 : string) : suggestModel -> suggestModel -> Prop :=
| menu_Update msg m : s_quitting m = false -> fair p0 m msg -> menu_step p0 m (Upd msg m).

(** The completions are there, and the menu was not canceled. *)
Definition showing (m : suggestModel) : Prop := s_loading m = false /\ (s_quitting m = false \/ s_print m = true).
Record suggest_inv (p0 : string) (m : suggestModel) : Prop := {
  si_cache : forall k l, s_cache m !! k = Some l -> covers k l;
  si_all : showing m -> cmds (s_allItems m) = comp p0;
  si_loaded : s_loadedPrefix m = EmptyString \/ has_prefix p0 (s_loadedPrefix m) = true;
  si_items : showing m -> s_items m = matching (prefix m) (source m);
  si_cursor : 0 <= s_cursor m < rowCount m;
  si_print : s_print m = true -> s_quitting m = true /\ (s_selected m = prefix m \/ s_loading m = false /\ s_selected m ∈ cmds (s_items m));
}.

Lemma applyFilter_inv p0 cur m : (forall k l, s_cache m !! k = Some l -> covers k l) -> cmds (s_allItems m) = comp p0 ->
  s_loadedPrefix m = EmptyString \/ has_prefix p0 (s_loadedPrefix m) = true -> s_loading m = false -> s_print m = false -> suggest_inv p0 (applyFilter cur m).
Proof.
  intros H1 H2 H3 H4 H5. unfold applyFilter. constructor; cbn; [done|done|done|done| |by rewrite H5].
  unfold rowCount. cbn. rewrite H4. fold (source m). destruct cur; [|lia]. destruct (matching _ _); cbn; lia.
Qed.
(** Steps that leave the lists, the text and the cursor alone. *)
Lemma kept_inv p0 m m' : s_cache m' = s_cache m -> s_allItems m' = s_allItems m -> s_loadedPrefix m' = s_loadedPrefix m -> s_items m' = s_items m ->
  s_loading m' = s_loading m -> prefix m' = prefix m -> s_cursor m' = s_cursor m ->
  (showing m' -> showing m) ->
  (s_print m' = true -> s_quitting m' = true /\ (s_selected m' = prefix m \/ s_loading m = false /\ s_selected m' ∈ cmds (s_items m))) ->
  suggest_inv p0 m -> suggest_inv p0 m'.
Proof.
  intros E1 E2 E3 E4 E5 E6 E7 Hsh Hp [H1 H2 H3 H4 H5 H6]. unfold source in *. constructor; unfold rowCount, source; rewrite ?E1, ?E2, ?E3, ?E4, ?E5, ?E6, ?E7; auto.
Qed.
Lemma moved_inv p0 c m : s_print m = false -> 0 <= c < rowCount m -> suggest_inv p0 m -> suggest_inv p0 (with_list (s_items m) c m).
Proof. intros Hp Hc [H1 H2 H3 H4 H5 H6]. constructor; cbn; [done|done|done|done|done|by rewrite Hp]. Qed.
Lemma commandAt_shown p0 m : suggest_inv p0 m -> commandAt (s_cursor m) m = prefix m \/ s_loading m = false /\ commandAt (s_cursor m) m ∈ cmds (s_items m).
Proof.
  intros [_ _ _ _ H5 _]. unfold commandAt. destruct (Z.leb_spec (s_cursor m) 0); [by left|]. unfold rowCount in H5. destruct (s_loading m); [lia|].
  destruct (s_items m !! _) as [it|] eqn:E; [|by left]. right. split; [done|]. apply list_elem_of_fmap. exists it. split; [done|]. by eapply list_elem_of_lookup_2.
Qed.
Lemma loaded_ok p0 l m : fair p0 m (ItemsMsg (Items l)) -> suggest_inv p0 m ->
  (forall k v, s_cache (loaded l m) !! k = Some v -> covers k v) /\ (s_loadedPrefix (loaded l m) = EmptyString \/ has_prefix p0 (s_loadedPrefix (loaded l m)) = true).
Proof.
  intros [Hl Hp] [H1 _ H3 _ _ _]. cbn. set (lp := if str_empty (s_loadedPrefix m) then prefix m else s_loadedPrefix m).
  assert (has_prefix p0 lp = true) as Hlp by (unfold lp; destruct (s_loadedPrefix m); cbn in *; [by apply Hp|by destruct H3]). split; [|by right].
  unfold cache_store. intros k v [[<- <-]|[_ Hk]]%lookup_insert_Some; [|by apply H1]. unfold covers. rewrite Hl. symmetry. by apply Hcomp.
Qed.
Lemma index_of_bounds cmd i items j : index_of cmd i items = Some j -> i <= j < i + Z.of_nat (length items).
Proof.
  revert i. induction items as [|it items IH]; intros i; cbn [index_of length]; [done|]. destruct (String.eqb _ _); [intros [= <-]; lia|]. intros ?%IH. lia.
Qed.
Lemma receive_inv p0 l m : s_print m = false -> fair p0 m (ItemsMsg (Items l)) -> suggest_inv p0 m -> suggest_inv p0 (receive l m).
Proof.
  intros Hp Hf Hi. destruct (loaded_ok p0 l m Hf Hi) as [H1 H3]. destruct Hf as [Hl _].
  assert (forall cur, suggest_inv p0 (applyFilter cur (loaded l m))) as Ha by (intros cur; by apply applyFilter_inv).
  unfold receive. destruct (s_loading m); [apply Ha|]. destruct (_ =? 0); [apply Ha|].
  set (m1 := applyFilter filterCursorFirst (loaded l m)). assert (suggest_inv p0 m1) as H2 by apply Ha. destruct (index_of _ _ _) as [j|] eqn:E; [|done].
  apply moved_inv; [done| |done]. apply index_of_bounds in E. unfold rowCount. change (s_loading m1) with false. cbn [andb]. lia.
Qed.

Lemma refiltered_inv p0 ti cur m : s_quitting m = false -> s_print m = false -> s_loading m = false -> suggest_inv p0 m -> suggest_inv p0 (applyFilter cur (with_field ti m)).
Proof. intros Hq Hp Hl [H1 H2 H3 _ _ _]. apply applyFilter_inv; [done|apply H2; split; [done|by left]|done|done|done]. Qed.
Lemma chosen_inv p0 cont m : s_quitting m = false -> suggest_inv p0 m ->
  suggest_inv p0 (leave (commandAt (s_cursor m) m) (negb (str_empty (commandAt (s_cursor m) m))) false cont (s_loading m) m).
Proof.
  intros Hq Hi. apply (kept_inv p0 m); try done; cbn; [intros [Hl _]; split; [done|by left]|]. intros _. split; [done|]. exact (commandAt_shown p0 m Hi).
Qed.
Lemma complete_inv p0 m : s_quitting m = false -> s_print m = false -> suggest_inv p0 m -> suggest_inv p0 (complete m).
Proof.
  intros Hq Hp Hi. unfold complete. destruct (s_loading m) eqn:El; [done|]. pose proof (fun c => chosen_inv p0 c m Hq Hi) as Hg. rewrite El in Hg.
  destruct (_ <=? 0); [by destruct (cache_Has _ _)|]. destruct (cache_Has _ _); [|done]. by apply refiltered_inv.
Qed.
(** A model that differs only in what is drawn, and one that is canceled. *)
Lemma drawn_inv p0 m m' : s_cache m' = s_cache m -> s_allItems m' = s_allItems m -> s_loadedPrefix m' = s_loadedPrefix m -> s_items m' = s_items m ->
  s_loading m' = s_loading m -> prefix m' = prefix m -> s_cursor m' = s_cursor m -> s_print m = false -> s_print m' = false -> s_quitting m' = s_quitting m ->
  suggest_inv p0 m -> suggest_inv p0 m'.
Proof.
  intros E1 E2 E3 E4 E5 E6 E7 E8 E9 E10. apply kept_inv; try done; [|by rewrite E9]. unfold showing. by rewrite E5, E8, E9, E10.
Qed.
Lemma canceled_inv p0 m m' : s_cache m' = s_cache m -> s_loadedPrefix m' = s_loadedPrefix m -> s_print m' = false -> s_quitting m' = true -> 0 <= s_cursor m' < rowCount m' ->
  suggest_inv p0 m -> suggest_inv p0 m'.
Proof.
  intros E1 E2 E3 E4 Hc [H1 H2 H3 H4 H5 H6]. constructor; rewrite ?E1, ?E2; try done; [..|by rewrite E3]; intros [_ [?|?]]; congruence.
Qed.
Lemma handle_key_inv p0 k m : s_quitting m = false -> s_print m = false -> suggest_inv p0 m -> suggest_inv p0 (handle_key k m).
Proof.
  intros Hq Hp Hi. unfold handle_key. pose proof (si_cursor _ _ Hi) as Hc.
  assert (forall b, suggest_inv p0 (with_detail b m)) as Hd by (intros b; by apply (drawn_inv p0 m)).
  assert (forall m', suggest_inv p0 m' -> suggest_inv p0 (cancel m')) as Hx by (intros m' Hm; apply (canceled_inv p0 m'); try done; apply (si_cursor _ _ Hm)).
  destruct (s_detail m). { destruct (key_in _ _); [done|]. destruct (String.eqb _ _); [by apply Hx|done]. }
  destruct (key_in _ _); [by apply Hx|]. destruct (String.eqb _ _); [by apply chosen_inv|].
  destruct (key_in _ _); [by apply complete_inv|].
  destruct (String.eqb _ _). { destruct (selectedItem m) as [it|]; [|done]. by destruct (str_empty _). }
  destruct (key_in _ _). { apply moved_inv; [done| |done]. destruct (Z.ltb_spec 0 (s_cursor m)); lia. }
  destruct (key_in _ _). { apply moved_inv; [done| |done]. destruct (Z.ltb_spec (s_cursor m + 1) (rowCount m)); lia. }
  destruct (s_loading m) eqn:El.
  - rewrite andb_false_r. destruct Hi as [H1 H2 H3 H4 H5 H6]. constructor; cbn; try done; [..|by rewrite Hp]; intros [Hl _]; cbn in Hl; congruence.
  - rewrite andb_true_r. destruct (String.eqb_spec (prefix (with_field (ti_Update k (s_input m)) m)) (prefix m)) as [E|E]; cbn [negb].
    + by apply (drawn_inv p0 m).
    + destruct (_ <? _)%nat; by apply refiltered_inv.
Qed.
Lemma Upd_inv p0 msg m : s_quitting m = false -> fair p0 m msg -> suggest_inv p0 m -> suggest_inv p0 (Upd msg m).
Proof.
  intros Hq Hf Hi. assert (s_print m = false) as Hp by (destruct (s_print m) eqn:Ep; [|done]; destruct (si_print _ _ Hi Ep); congruence).
  destruct msg as [wd ht| |k| |[l| |]|o]; cbn [Update].
  - by apply (drawn_inv p0 m).
  - done.
  - by apply handle_key_inv.
  - destruct (s_loading m) eqn:El; [|done]. by apply (drawn_inv p0 m).
  - by apply receive_inv.
  - apply (canceled_inv p0 m); try done. pose proof (si_cursor _ _ Hi) as Hc. unfold rowCount in *. cbn. destruct (s_loading m); lia.
  - done.
  - by apply (drawn_inv p0 m).
Qed.

Lemma window_shows listH (m : suggestModel) : 1 <= listH -> 0 <= s_cursor m < rowCount m ->
  let '(a, b) := window listH m in 0 <= a <= s_cursor m /\ s_cursor m < b <= rowCount m /\ b - a = listH `min` rowCount m.
Proof.
  intros Hl Hc. unfold window. assert (listH `quot` 2 = listH / 2) as -> by (apply Z.quot_div_nonneg; lia).
  pose proof (Z.div_mod listH 2). pose proof (Z.mod_pos_bound listH 2). set (n := rowCount m) in *. set (start := s_cursor m - listH / 2).
  destruct (Z.ltb_spec listH n); [|destruct (Z.ltb_spec n (0 + listH)); lia].
  destruct (Z.ltb_spec start 0); [destruct (Z.ltb_spec n (0 + listH)); destruct (Z.ltb_spec n (0 + listH))|destruct (Z.ltb_spec n (start + listH))]; repeat case_match; lia.
Qed.

Lemma opened_inv pre items descrs waiting c percent :
  (forall k l, c !! k = Some l -> covers k l) -> (waiting = false -> cmds (suggestItemsFrom items descrs) = comp pre) ->
  suggest_inv pre (newSuggestModel (TI := TI) pre items descrs waiting c percent).
Proof.
  intros Hc Hi. unfold newSuggestModel. destruct waiting.
  - constructor; cbn; [done|by intros [??]|by left|by intros [??]|unfold rowCount; cbn; lia|done].
  - specialize (Hi eq_refl). apply applyFilter_inv; cbn; [|done|by left|done|done].
    unfold cache_store. intros k l [[<- <-]|[_ Hk]]%lookup_insert_Some; [|by apply Hc]. unfold covers. rewrite Hi. symmetry. apply Hcomp, has_prefix_refl.
Qed.
Lemma suggest_inv_run pre items descrs waiting c percent m :
  (forall k l, c !! k = Some l -> covers k l) -> (waiting = false -> cmds (suggestItemsFrom items descrs) = comp pre) ->
  rtc (menu_step pre) (newSuggestModel pre items descrs waiting c percent) m -> suggest_inv pre m.
Proof.
  intros Hc Hi. revert m. apply (rtc_ind_r (suggest_inv pre)); [by apply opened_inv|]. intros m1 m2 _ [msg m0 Hq Hf]. by apply Upd_inv.
Qed.

(** What a session keeps for its next menu is again a cache of completions. *)
Theorem session_cache_coherent (caches : gmap string SuggestCache) (session pre : string) (percent : Z) (m : suggestModel) (sel : result string) :
  let coherent (cs : gmap string SuggestCache) := forall s, forall k l, suggestCacheFor s cs !! k = Some l -> covers k l in
  coherent caches -> rtc (menu_step pre) (newSuggestModel pre [] [] true (suggestCacheFor session caches) percent) m ->
  coherent (finishSuggestOverlay session (s_cache m) sel caches).
Proof.
  intros coherent Hc Hrun s k l. pose proof (suggest_inv_run pre [] [] true _ percent m (Hc session) ltac:(done) Hrun) as Hm.
  unfold finishSuggestOverlay, suggestCacheFor. destruct (decide (s = session)) as [->|Hne].
  - destruct sel as [x|e]; [destruct (has_prefix _ _)|]; rewrite ?lookup_insert_eq, ?lookup_delete_eq; cbn; [apply (si_cache _ _ Hm)|by rewrite lookup_empty..].
  - destruct sel as [x|e]; [destruct (has_prefix _ _)|]; rewrite ?lookup_insert_ne, ?lookup_delete_ne by done; apply Hc.
Qed.

End Suggest.
End SuggestSpec.
