(* ===== verification/Daemon.v ===== *)
(** [internal/daemon] ([scheduler.go], [rpc_server.go], [rpc_nul.go],
    [status.go], [server.go]): the daemon that owns the history service. It
    serves requests over the control socket, in frames or in the NUL format,
    and synchronizes on a timer. The application it runs is an interface, the
    record [AppOps]; [WitnessesApp] implements it with the operations of [App].
    The state holds the application's, the service's cache and what the server
    and the scheduler keep; sessions, the interactive overlays and the memory
    statistics are parameters. Clocks and durations are not kept in [Status]. *)

From S2P Require Import Prelude Database History Frontier Event Device Merge Bundle Snapshot Transport Gc.
From S2P Require Import Text Utf8 Config Cache Service Search Redact Wire.

(** ** The application *)

(** What the daemon calls, over the application's state [A]. *)
Record AppOps (A : Type) := mkOps {
  ao_db : A -> DB;
  ao_set_db : DB -> A -> A;
  ao_keys : A -> result (gmap string bytes);
  ao_sync : M A (ChangeSet * option error);
  ao_force : M A unit;
  ao_maybe : M A unit;
  ao_gc : M A (Plan * option error);
  ao_lock : M A unit;
  ao_release : M A unit;
  ao_callbacks : result unit;
}.
Arguments ao_db {A}. Arguments ao_set_db {A}. Arguments ao_keys {A}. Arguments ao_sync {A}. Arguments ao_force {A}.
Arguments ao_maybe {A}. Arguments ao_gc {A}. Arguments ao_lock {A}. Arguments ao_release {A}. Arguments ao_callbacks {A}.

(** ** [status.go] *)

Record Status := mkStatus {
  st_OK : bool; st_Error : string; st_Class : string; st_Hint : string; st_GCDeleted : Z; st_GCEligible : bool;
}.
Definition status_zero : Status := mkStatus false "" "" "" 0 false.

(** What reaches the status file. *)
Definition status_written (st : Status) : Status :=
  mkStatus (st_OK st) (redact_String (st_Error st)) (st_Class st) (redact_String (st_Hint st)) (st_GCDeleted st)
    (st_GCEligible st).

(** ** The server's state *)

Record Server (A Re : Type) := mkServer {
  sr_app : A;
  sr_cache : Cache;
  sr_dataVersion : Z;
  sr_ignore : ignoreCache Re;
  sr_lastSync : Status;
  sr_file : option Status;
  sr_running : bool;
  sr_authFails : Z;
  sr_interval : Z;
}.
Arguments mkServer {A Re}. Arguments sr_app {A Re}. Arguments sr_cache {A Re}. Arguments sr_dataVersion {A Re}.
Arguments sr_ignore {A Re}. Arguments sr_lastSync {A Re}. Arguments sr_file {A Re}. Arguments sr_running {A Re}.
Arguments sr_authFails {A Re}. Arguments sr_interval {A Re}.

(** The requests and responses of [protocol.go]. *)
Record Request := mkRequest { rq_Version : Z; rq_ID : Z; rq_Op : string; rq_SessionID : string; rq_Payload : bytes }.
Record Response := mkResponse { rs_ID : Z; rs_Status : string; rs_Error : string; rs_Payload : bytes }.

Definition protocol_Version : Z := 1.
Definition EncodeErr (id : Z) (msg : string) : Response := mkResponse id "err" msg [].
Definition EncodeOK (id : Z) (payload : bytes) : Response := mkResponse id "ok" "" payload.

(** A request's payload: decoded, or the zero value when it is empty or
    malformed (the code ignores the error). *)
Class Payload (T : Type) := { pl_zero : T; pl_decode : bytes -> option T; pl_encode : T -> bytes }.
Definition UnmarshalPayload {T} `{Payload T} (b : bytes) : T :=
  match b with [] => pl_zero | _ => default pl_zero (pl_decode b) end.

Record SuggestReq := mkSuggestReq { sq_Prefix : string; sq_Cwd : string }.
Record SuggestListReq := mkSuggestListReq { sl_Prefix : string; sl_Cwd : string; sl_Limit : Z }.
Record HistoryStartReq := mkStartReq { hs_Command : string; hs_Cwd : string; hs_Session : string; hs_Shell : string }.
Record HistoryEndReq := mkEndReq { he_ID : string; he_Exit : Z }.
Record HistorySearchReq := mkSearchReq {
  hq_Query : string; hq_Cwd : string; hq_DeviceID : string; hq_SessionID : string; hq_Host : string; hq_Shell : string;
  hq_Limit : Z; hq_Exact : bool; hq_Unique : bool;
}.
Record SearchHit := mkHit {
  sh_ID : string; sh_Command : string; sh_Cwd : string; sh_DeviceID : string; sh_SessionID : string;
  sh_Hostname : string; sh_Shell : string; sh_StartTS : Z; sh_DurationMs : option Z; sh_Exit : option Z;
}.
Record HistoryDeleteReq := mkDeleteReq { hd_Command : string }.
Record HistoryTombstoneReq := mkTombstoneReq { ht_IDs : list string }.
Record SyncNowReq := mkSyncReq { sn_Checkpoint : bool }.

Section Daemon.
Context {A Re : Type} (ops : AppOps A) (cfg : Config).
Context (regexp_Compile : string -> option Re) (MatchString : Re -> string -> bool) `{Sha256} (env : Env) (fl : Files).
Context (host wd : string) (enqueueCreated enqueueTombstone : option (Entry -> M DB unit)).
Context (now : Time) (NewV7 : nat -> result string) (pragma : result Z).
(** [strings.ToLower], [strconv.Quote] and [error.Error]. *)
Context (ToLower Quote : string -> string) (Error_text : error -> string).
(** [ctx.Err() != nil] by the time an error is looked at. *)
Context (cancelled : bool).

Notation SR := (Server A Re).

Definition on_service {X} (m : M (Service Re) X) : M SR X :=
  zoom (fun s => mkService (ao_db ops (sr_app s)) (sr_cache s) (sr_dataVersion s) (sr_ignore s))
    (fun v s => mkServer (ao_set_db ops (sv_db v) (sr_app s)) (sv_cache v) (sv_dataVersion v) (sv_ignore v)
                  (sr_lastSync s) (sr_file s) (sr_running s) (sr_authFails s) (sr_interval s)) m.
Definition on_app {X} (m : M A X) : M SR X :=
  zoom sr_app (fun a s => mkServer a (sr_cache s) (sr_dataVersion s) (sr_ignore s) (sr_lastSync s) (sr_file s)
                            (sr_running s) (sr_authFails s) (sr_interval s)) m.
Definition writeStatus (st : Status) : M SR unit :=
  modify (fun s => mkServer (sr_app s) (sr_cache s) (sr_dataVersion s) (sr_ignore s) (sr_lastSync s)
                     (Some (status_written st)) (sr_running s) (sr_authFails s) (sr_interval s)).
Definition setLastSync (st : Status) : M SR unit :=
  modify (fun s => mkServer (sr_app s) (sr_cache s) (sr_dataVersion s) (sr_ignore s) st (sr_file s) (sr_running s)
                     (sr_authFails s) (sr_interval s)).
Definition set_running (b : bool) : M SR unit :=
  modify (fun s => mkServer (sr_app s) (sr_cache s) (sr_dataVersion s) (sr_ignore s) (sr_lastSync s) (sr_file s) b
                     (sr_authFails s) (sr_interval s)).
Definition set_authFails (n : Z) : M SR unit :=
  modify (fun s => mkServer (sr_app s) (sr_cache s) (sr_dataVersion s) (sr_ignore s) (sr_lastSync s) (sr_file s)
                     (sr_running s) n (sr_interval s)).

(** ** [scheduler.go] *)

Definition HealthAuthRequired : string := "auth_required".
Definition HealthOffline : string := "offline".

Definition is_AuthRequired (e : error) : bool := match e with EAuthRequired => true | _ => false end.
Definition is_Offline (e : error) : bool := match e with EOffline => true | _ => false end.
Definition is_SyncDisabled (e : error) : bool := match e with ESyncDisabled => true | _ => false end.

(** The class and the hint. *)
Definition classifyErr (err : error) : string * string :=
  if errors_Is is_AuthRequired err then
    let expired := List.find (fun r => String.eqb (ep_Provider r) "icloud-drive" && str_contains (ep_ID r) (Error_text err))
                     (EnabledEndpoints (cf_Sync cfg)) in
    (HealthAuthRequired,
     match expired with
     | Some r => "iCloud authentication expired; run: remnix remote reconnect " +:+ ep_ID r
     | None => "run: remnix remote reconnect <name>"
     end)%string
  else if errors_Is is_Offline err then (HealthOffline, EmptyString)
  else if errors_Is is_SyncDisabled err then ("disabled"%string, EmptyString)
  else (EmptyString, EmptyString).

Definition failStatus (err : error) (class hint : string) : Status :=
  mkStatus false (redact_String (Error_text err)) class hint 0 false.
Definition with_gc (plan : Plan) (st : Status) : Status :=
  mkStatus (st_OK st) (st_Error st) (st_Class st) (st_Hint st) (Z.of_nat (DeletedCount plan)) (p_Eligible plan).

Definition report (st : Status) : M SR unit := _ ← writeStatus st; setLastSync st.

(** [MarkDirty] and [Rebuild] *)
Definition rebuild_cache : M SR unit :=
  on_service (_ ← on_cache MarkDirty; ignore (Service_Rebuild pragma)).

Definition runSyncCycle (forceCheckpoint : bool) : M SR string :=
  if negb (Sync_IsEnabled (cf_Sync cfg)) then
    _ ← report (mkStatus true "" "disabled" "" 0 false);
    mret "disabled"%string
  else
    keys ← gets (fun s => ao_keys ops (sr_app s));
    match keys with
    | Fail e => _ ← writeStatus (failStatus e "" ""); mret EmptyString
    | Ok smks =>
        if bool_decide (smks = ∅) then
          _ ← report (mkStatus false "keyring empty; run remnix unlock (recovery key or FIDO touch once)" "" "" 0 false);
          mret EmptyString
        else
          _ ← (if forceCheckpoint then rebuild_cache else mret tt);
          synced ← try (on_app (ao_sync ops));
          let '(cs, err) := match synced with Ok (cs, err) => (cs, err) | Fail e => (cs_zero, Some e) end in
          match err with
          | Some e =>
              if cancelled then mret EmptyString
              else
                let '(class, hint) := classifyErr e in
                _ ← report (failStatus e class hint);
                mret class
          | None =>
              _ ← (if Empty cs then mret tt
                   else (r ← try (on_service (ApplyRemoteChanges pragma cs));
                         match r with Ok _ => mret tt | Fail _ => rebuild_cache end));
              forced ← (if forceCheckpoint then try (on_app (ao_force ops))
                        else (_ ← try (on_app (ao_maybe ops)); mret (Ok tt)));
              match forced with
              | Fail e =>
                  if cancelled then mret EmptyString
                  else (_ ← report (failStatus (EWrap "checkpoint" e) "" ""); mret "error"%string)
              | Ok _ =>
                  collected ← try (on_app (ao_gc ops));
                  let '(plan, err) := match collected with Ok (p, err) => (p, err) | Fail e => (plan_zero, Some e) end in
                  match err with
                  | Some e =>
                      if cancelled then mret EmptyString
                      else (_ ← report (failStatus (EWrap "gc" e) "" ""); mret EmptyString)
                  | None =>
                      _ ← (if (0 <? DeletedCount plan)%nat then rebuild_cache else mret tt);
                      l ← try (on_app (ao_lock ops));
                      match l with
                      | Fail e => _ ← report (with_gc plan (failStatus e "" "")); mret EmptyString
                      | Ok _ =>
                          _ ← ignore (on_app (ao_release ops));
                          match ao_callbacks ops with
                          | Fail e => _ ← report (with_gc plan (failStatus e "" "")); mret EmptyString
                          | Ok _ => _ ← report (with_gc plan (mkStatus true "" "" "" 0 false)); mret EmptyString
                          end
                      end
                  end
              end
          end
    end.

Definition runExclusive (forceCheckpoint : bool) : M SR string :=
  running ← gets sr_running;
  if (running : bool) then mret "busy"%string
  else
    _ ← set_running true;
    class ← runSyncCycle forceCheckpoint;
    _ ← set_running false;
    mret class.

(** One tick of [Run]: the delay until the next. [wrap64] is the width of a
    duration. *)
Definition tick : M SR Z :=
  class ← runExclusive false;
  interval ← gets sr_interval;
  if String.eqb class "busy" then mret interval
  else if String.eqb class HealthAuthRequired then
    fails ← gets sr_authFails;
    let n := if 5 <? fails + 1 then 5 else fails + 1 in
    _ ← set_authFails n;
    mret (wrap64 (interval * Z.shiftl 1 n))
  else (_ ← set_authFails 0; mret interval).

Definition SetInterval (d : Z) : M SR unit :=
  modify (fun s => mkServer (sr_app s) (sr_cache s) (sr_dataVersion s) (sr_ignore s) (sr_lastSync s) (sr_file s)
                     (sr_running s) (sr_authFails s) (if d <=? 0 then 300 * 10^9 else d)).

(** ** [rpc_server.go] *)

Context `{Payload SuggestReq} `{Payload SuggestListReq} `{Payload HistoryStartReq} `{Payload HistoryEndReq}
  `{Payload HistorySearchReq} `{Payload HistoryDeleteReq} `{Payload HistoryTombstoneReq} `{Payload SyncNowReq}
  `{Payload string} `{Payload (list string)} `{Payload (list SearchHit)} `{Payload Status}.
(** What the server says about itself, the sessions, and the configuration file. *)
Context (version_payload stats_payload : bytes) (screen_Snapshot : string -> result bytes) (config_Load : result Z).

Definition ops_listed : list string :=
  ["ping"; "version"; "capabilities"; "history.start"; "history.end"; "suggest"; "suggest-list"; "history.search";
   "history.delete"; "history.tombstone-entries"; "history.import"; "history.stats"; "sync.now"; "daemon.stats";
   "daemon.status"; "config.reload"; "cache.compact"; "screen.snapshot"]%string.

Definition search_context (cwd session : string) : SContext :=
  mkContext time_zero cwd (cf_DeviceID cfg) session None.

Definition SuggestCandidates' (prefix : string) : M SR (list Entry) := on_service (SuggestCandidates pragma prefix).
Definition bestSuggestion (prefix cwd : string) (cands : list Entry) : string :=
  BestSuggestion ToLower now prefix cands (search_context cwd "").
Definition suggestList (prefix cwd : string) (cands : list Entry) (limit : Z) : list string :=
  Suggestions ToLower now prefix cands (search_context cwd "") limit.

Definition hit_of (e : Entry) : SearchHit :=
  mkHit (e_ID e) (e_Command e) (e_Cwd e) (e_DeviceID e) (e_SessionID e) (e_Hostname e) (e_Shell e)
    (UnixMilli (e_StartTS e)) (e_DurationMs e) (e_ExitStatus e).

Definition search_hits (r : HistorySearchReq) (cands : list Entry) : list SearchHit :=
  let ranked := RankWith ToLower now (hq_Query r) cands (hq_Exact r) (search_context (hq_Cwd r) (hq_SessionID r)) in
  let n := Z.of_nat (length ranked) in
  let limit := if (hq_Limit r <=? 0) || (n <? hq_Limit r) then n else hq_Limit r in
  hit_of ∘ r_Entry <$> take (Z.to_nat limit) ranked.

Definition entry_with_id (id : string) : Entry := with_ID id entry_zero.

Definition StartCommand' := StartCommand regexp_Compile MatchString env fl (cf_DeviceID cfg) host wd enqueueCreated now NewV7 pragma.

(** A result as a response. *)
Definition respond {X} (id : Z) (encode : X -> bytes) (m : M SR X) : M SR Response :=
  r ← try m;
  mret (match r with Ok x => EncodeOK id (encode x) | Fail e => EncodeErr id (Error_text e) end).

Definition sync_now (id : Z) (checkpoint : bool) : M SR Response :=
  class ← runExclusive checkpoint;
  st ← gets sr_lastSync;
  mret (if String.eqb class "busy" then EncodeErr id "sync already running"
        else if String.eqb class "error" then
          EncodeErr id (if str_empty (st_Error st) then "sync failed"%string else st_Error st)
        else if negb (String.eqb class "disabled") && negb (st_OK st) && negb (str_empty (st_Error st))
        then EncodeErr id (st_Error st)
        else EncodeOK id (pl_encode class)).

Definition nothing {X} (x : X) : bytes := [].

Definition dispatch (req : Request) : M SR Response :=
  let id := rq_ID req in
  let op := rq_Op req in
  if negb (rq_Version req =? 0) && negb (rq_Version req =? protocol_Version)
  then mret (EncodeErr id "unsupported protocol version")
  else if String.eqb op "ping" then mret (EncodeOK id [])
  else if String.eqb op "version" then mret (EncodeOK id version_payload)
  else if String.eqb op "capabilities" then mret (EncodeOK id (pl_encode ops_listed))
  else if String.eqb op "suggest" then
    let r : SuggestReq := UnmarshalPayload (rq_Payload req) in
    respond id pl_encode (cands ← SuggestCandidates' (sq_Prefix r); mret (bestSuggestion (sq_Prefix r) (sq_Cwd r) cands))
  else if String.eqb op "suggest-list" then
    let r : SuggestListReq := UnmarshalPayload (rq_Payload req) in
    let limit := if sl_Limit r <=? 0 then MenuLimit (cf_Suggest cfg) else sl_Limit r in
    respond id pl_encode (cands ← SuggestCandidates' (sl_Prefix r); mret (suggestList (sl_Prefix r) (sl_Cwd r) cands limit))
  else if String.eqb op "history.start" then
    let r : HistoryStartReq := UnmarshalPayload (rq_Payload req) in
    respond id pl_encode (on_service (StartCommand' (hs_Command r) (hs_Cwd r) (hs_Session r) (hs_Shell r)))
  else if String.eqb op "history.end" then
    let r : HistoryEndReq := UnmarshalPayload (rq_Payload req) in
    respond id nothing (on_service (CompleteCommand now pragma (he_ID r) (he_Exit r)))
  else if String.eqb op "history.search" then
    let r : HistorySearchReq := UnmarshalPayload (rq_Payload req) in
    respond id pl_encode (cands ← on_service (SearchCandidates pragma); mret (search_hits r cands))
  else if String.eqb op "history.delete" then
    let r : HistoryDeleteReq := UnmarshalPayload (rq_Payload req) in
    respond id nothing (on_service (Service_TombstoneCommand enqueueTombstone pragma (hd_Command r)))
  else if String.eqb op "history.tombstone-entries" then
    let r : HistoryTombstoneReq := UnmarshalPayload (rq_Payload req) in
    respond id nothing (on_service (Service_TombstoneEntries enqueueTombstone pragma (entry_with_id <$> ht_IDs r)))
  else if String.eqb op "sync.now" then
    let r : SyncNowReq := UnmarshalPayload (rq_Payload req) in sync_now id (sn_Checkpoint r)
  else if String.eqb op "daemon.stats" then mret (EncodeOK id stats_payload)
  else if String.eqb op "daemon.status" then st ← gets sr_lastSync; mret (EncodeOK id (pl_encode st))
  else if String.eqb op "config.reload" then
    respond id nothing (d ← of_result config_Load; SetInterval d)
  else if String.eqb op "cache.compact" then _ ← on_service CompactCache; mret (EncodeOK id stats_payload)
  else if String.eqb op "screen.snapshot" then
    respond id (fun b : bytes => b) (of_result (screen_Snapshot (rq_SessionID req)))
  else mret (EncodeErr id ("unknown op " +:+ op)%string).

(** ** [rpc_nul.go] *)

(** The socket: what is still to be read and what was written. *)
Record Conn := mkConn { cn_in : string; cn_out : string; cn_server : SR }.

Definition from_conn {X} (m : M string X) : M Conn X :=
  zoom cn_in (fun i c => mkConn i (cn_out c) (cn_server c)) m.
Definition on_server {X} (m : M SR X) : M Conn X :=
  zoom cn_server (fun s c => mkConn (cn_in c) (cn_out c) s) m.
Definition emit (s : string) : M Conn unit :=
  modify (fun c => mkConn (cn_in c) (cn_out c +:+ s) (cn_server c)).

(** The overlays: they take over the terminal. The one for completions also
    reads its items from the connection. *)
Context (interactive : string -> list string -> M SR string)
  (complete_interactive : list string -> M string (list string * list string * bool) -> M Conn string).

Definition reply {X} (write : X -> string) (m : M Conn X) : M Conn unit :=
  r ← try m;
  emit (match r with Ok x => write x | Fail e => writeErr (Error_text e) end).

Fixpoint read_pairs (n : nat) : M string (list string * list string) :=
  match n with
  | O => mret ([], [])
  | Datatypes.S n =>
      item ← readField;
      descr ← readField;
      '(items, descrs) ← read_pairs n;
      mret (if str_empty item then (items, descrs) else (item :: items, descr :: descrs))
  end.

Definition readSuggestCompleteItems : M string (list string * list string * bool) :=
  nRaw ← readField;
  let n := parse_int nRaw in
  if n <? 0 then mret ([], [], true)
  else '(items, descrs) ← read_pairs (Z.to_nat (Z.min 512 n)); mret (items, descrs, false).

Definition serveNULOne : M Conn unit :=
  op ← from_conn readField;
  if String.eqb op "ping" then emit (writeOK "")
  else if String.eqb op "suggest" then
    prefix ← from_conn readField;
    cwd ← from_conn readField;
    reply writeOK (on_server (cands ← SuggestCandidates' prefix; mret (bestSuggestion prefix cwd cands)))
  else if String.eqb op "suggest-list" then
    prefix ← from_conn readField;
    cwd ← from_conn readField;
    reply writeOKList (on_server (cands ← SuggestCandidates' prefix;
                                  mret (suggestList prefix cwd cands (MenuLimit (cf_Suggest cfg)))))
  else if String.eqb op "start" then
    command ← from_conn readField;
    cwd ← from_conn readField;
    session ← from_conn readField;
    shell ← from_conn readField;
    reply writeOK (on_server (on_service (StartCommand' command cwd session shell)))
  else if String.eqb op "end" then
    id ← from_conn readField;
    exitRaw ← from_conn readField;
    reply (fun _ => writeOK "") (on_server (on_service (CompleteCommand now pragma id (parse_int exitRaw))))
  else if String.eqb op "search-interactive" || String.eqb op "suggest-interactive" then
    query ← from_conn readField;
    cwd ← from_conn readField;
    sessionID ← from_conn readField;
    reply writeOK (on_server (interactive op [query; cwd; sessionID]))
  else if String.eqb op "suggest-complete-interactive" then
    prefix ← from_conn readField;
    cwd ← from_conn readField;
    sessionID ← from_conn readField;
    path ← from_conn readField;
    reply writeOK (complete_interactive [prefix; cwd; sessionID; path] readSuggestCompleteItems)
  else emit (writeErr ("unknown op " +:+ Quote op)%string).

(** The loop ends at the end of the input; each round reads at least a byte. *)
Fixpoint serve_loop (fuel : nat) : M Conn unit :=
  match fuel with
  | O => mret tt
  | Datatypes.S fuel =>
      r ← try serveNULOne;
      match r with
      | Ok _ => serve_loop fuel
      | Fail e => if is_EOF e then mret tt else fail e
      end
  end.
Definition serveNUL : M Conn unit := fun c => serve_loop (Datatypes.S (String.length (cn_in c))) c.

(** [handleControl]: a frame starts with a zero byte, as long as its length
    has 24 bits. *)
Context `{Codec Request} `{Codec Response}.

Definition serve_frame : M Conn unit :=
  req ← from_conn ReadFrame;
  resp ← on_server (dispatch req);
  f ← of_result (WriteFrame resp);
  emit f.

Fixpoint frame_loop (fuel : nat) : M Conn unit :=
  match fuel with
  | O => mret tt
  | Datatypes.S fuel =>
      r ← try serve_frame;
      match r with
      | Ok _ => frame_loop fuel
      | Fail e => if is_EOF e then mret tt else fail e
      end
  end.

Definition handleControl : M Conn unit := fun c =>
  match cn_in c with
  | EmptyString => (c, Fail EEOF)
  | String b _ => if Ascii.eqb b NUL then frame_loop (Datatypes.S (String.length (cn_in c))) c else serveNUL c
  end.
End Daemon.
