(* ===== verification/DaemonSpec.v ===== *)
(** What the daemon guarantees: every request it answers leaves the cache in
    step with the table, a client of the NUL format gets the answer the
    service computes from the live rows, and the pause between two rounds of
    synchronization is bounded. The application is known by the laws of its
    interface only. *)

From S2P Require Import Prelude Database History Frontier Event Device Merge Bundle Snapshot Transport Gc.
From S2P Require Import Text Utf8 Config Engine App AppSafety Cache CacheSpec Service ServiceSpec Search Redact Wire Daemon.

(** The database is a part of the application's state. *)
Class AppLaws {A : Type} (ops : AppOps A) : Prop := {
  ao_get_set : forall d a, ao_db ops (ao_set_db ops d a) = d;
}.

Section Spec.
Context {A Re : Type} (ops : AppOps A) `{!AppLaws ops} (cfg : Config).
Context (regexp_Compile : string -> option Re) (MatchString : Re -> string -> bool) `{Sha256} (env : Env) (fl : Files).
Context (host wd : string) (enqueueCreated enqueueTombstone : option (Entry -> M DB unit)).
Context `{!HistoryQueue enqueueCreated enqueueTombstone}.
Context (now : Time) (NewV7 : nat -> result string) (pragma : result Z).
Context (ToLower Quote : string -> string) (Error_text : error -> string) (cancelled : bool).
Context `{Payload SuggestReq} `{Payload SuggestListReq} `{Payload HistoryStartReq} `{Payload HistoryEndReq}
  `{Payload HistorySearchReq} `{Payload HistoryDeleteReq} `{Payload HistoryTombstoneReq} `{Payload SyncNowReq}
  `{Payload string} `{Payload (list string)} `{Payload (list SearchHit)} `{Payload Status}.
Context (version_payload stats_payload : bytes) (screen_Snapshot : string -> result bytes) (config_Load : result Z).
Context (interactive : string -> list string -> M (Server A Re) string)
  (complete_interactive : list string -> M string (list string * list string * bool) -> M (@Conn A Re) string).

Notation SR := (Server A Re).
Notation db_of s := (ao_db ops (sr_app s)).
Notation service_of s := (mkService (db_of s) (sr_cache s) (sr_dataVersion s) (sr_ignore s)).
Notation dispatch' := (dispatch ops cfg regexp_Compile MatchString env fl host wd enqueueCreated enqueueTombstone now NewV7
  pragma ToLower Error_text cancelled version_payload stats_payload screen_Snapshot config_Load).
Notation serveNULOne' := (serveNULOne ops cfg regexp_Compile MatchString env fl host wd enqueueCreated now NewV7 pragma
  ToLower Quote Error_text interactive complete_interactive).

(** The cache is in step with the table. *)
Definition server_ok (s : SR) : Prop := coherent (db_of s) (sr_cache s).

(** Room for what one request can add, and for a rebuild. *)
Definition roomy (s : SR) : Prop :=
  history_wf (db_history (db_of s)) /\ Z.of_nat (4 * size (db_history (db_of s)) + 4) < 2^31 /\ room 4 (sr_cache s).

Lemma ScanLive_length d : (length (ScanLive d) <= size (db_history d))%nat.
Proof.
  unfold ScanLive, scanEntries. rewrite length_fmap, sort_slice_perm. etransitivity; [apply filter_length_le|].
  unfold rows. by rewrite length_fmap, length_map_to_list.
Qed.

Lemma delete_all_size ids h : size (delete_all ids h) = size h.
Proof.
  revert h. induction ids as [|id ids IH]; intros h; [done|]. unfold delete_all in *. simpl. rewrite IH.
  rewrite <- !size_dom. by rewrite dom_alter_L.
Qed.

Lemma rebuild_room n d : Z.of_nat (4 * n + 4) < 2^31 -> (size (db_history d) <= n)%nat -> room (4 * length (ScanLive d)) NewCache.
Proof. intros Hn Hd. unfold room. pose proof (ScanLive_length d). simpl. lia. Qed.

(** The row of a command to be started is not a duplicate. *)
Definition start_inserts (req : Request) (s : SR) : Prop :=
  rq_Op req = "history.start"%string ->
  let r : HistoryStartReq := UnmarshalPayload (rq_Payload req) in
  write_inserts (cf_DeviceID cfg) host wd now NewV7 (WStart (hs_Command r) (hs_Cwd r) (hs_Session r) (hs_Shell r)) (service_of s).

Lemma on_service_run {X} (m : M (Service Re) X) (s : SR) :
  exists v, (m (service_of s)).1 = v /\
    on_service ops m s = (mkServer (ao_set_db ops (sv_db v) (sr_app s)) (sv_cache v) (sv_dataVersion v) (sv_ignore v)
      (sr_lastSync s) (sr_file s) (sr_running s) (sr_authFails s) (sr_interval s), (m (service_of s)).2).
Proof. exists (m (service_of s)).1. split; [done|]. unfold on_service, zoom. by destruct (m (service_of s)). Qed.

(** A response that is ok comes from a call that succeeded. *)
Lemma respond_ok {X} id (encode : X -> bytes) (m : M SR X) s s' resp :
  respond Error_text id encode m s = (s', Ok resp) -> rs_Status resp = "ok"%string ->
  exists x, m s = (s', Ok x) /\ resp = EncodeOK id (encode x).
Proof.
  unfold respond, try, mbind, M_bind. destruct (m s) as [s1 [x|e]]; intros [= <- <-] Hok; [by exists x|done].
Qed.

Lemma service_ok {X} (m : M (Service Re) X) (s s' : SR) x :
  on_service ops m s = (s', Ok x) ->
  (forall v', m (service_of s) = (v', Ok x) -> coherent (sv_db v') (sv_cache v')) -> server_ok s'.
Proof.
  intros E Hm. destruct (on_service_run m s) as (v & Hv & Er). rewrite Er in E. injection E as <- E.
  unfold server_ok. simpl. rewrite ao_get_set. apply Hm. rewrite <- Hv, <- E. by destruct (m (service_of s)).
Qed.

Lemma query_ok {X} (m : M (Service Re) X) (s s' : SR) es :
  server_ok s -> roomy s ->
  (forall v v' es', m v = (v', Ok es') -> exists v1, EnsureFresh pragma v = (v1, Ok tt) /\ v' = v1) ->
  on_service ops m s = (s', Ok es) -> server_ok s'.
Proof.
  intros Hs (Hwf & Hsize & _) Hm E. eapply service_ok; [exact E|]. intros v' Ev.
  destruct (Hm _ _ _ Ev) as (v1 & Ef & ->). destruct pragma as [v|e] eqn:Ep.
  - destruct (EnsureFresh_spec v (service_of s)) as (v2 & E2 & Hin & _); [done| |by eapply rebuild_room|by left|].
    { unfold few. pose proof (live_ids_size (db_of s)). simpl. lia. }
    rewrite E2 in Ef. by injection Ef as <-.
  - unfold EnsureFresh in Ef. erewrite bind_Ok in Ef by reflexivity. simpl in Ef. by rewrite (co_clean _ _ Hs) in Ef.
Qed.

Lemma suggest_fresh prefix v v' es :
  SuggestCandidates (Re := Re) pragma prefix v = (v', Ok es) ->
  prefix = EmptyString \/ exists v1, EnsureFresh pragma v = (v1, Ok tt) /\ v' = v1.
Proof.
  unfold SuggestCandidates. destruct prefix as [|c p]; [by left|]. cbn [str_empty]. intros E. right.
  apply bind_Ok_inv in E as (v1 & [] & E1 & E). injection E as <- _. eauto.
Qed.

Lemma suggest_ok prefix (s s' : SR) es :
  server_ok s -> roomy s -> SuggestCandidates' ops pragma prefix s = (s', Ok es) -> server_ok s'.
Proof.
  intros Hs Hr E. destruct (decide (prefix = EmptyString)) as [->|Hp].
  - eapply service_ok; [exact E|]. intros v' [= <- _]. exact Hs.
  - eapply query_ok; [exact Hs|exact Hr| |exact E]. intros v v' es' Ev. by destruct (suggest_fresh _ _ _ _ Ev).
Qed.

Lemma search_ok (s s' : SR) es :
  server_ok s -> roomy s -> on_service ops (SearchCandidates pragma) s = (s', Ok es) -> server_ok s'.
Proof.
  intros Hs Hr E. eapply query_ok; [exact Hs|exact Hr| |exact E]. intros v v' es' Ev.
  unfold SearchCandidates in Ev. apply bind_Ok_inv in Ev as (v1 & [] & E1 & Ev). injection Ev as <- _. eauto.
Qed.

Lemma compact_coherent d c : coherent d c -> coherent d (Compact c).
Proof.
  intros [Hi Hs Hcl Ht Hids]. destruct (compact_spec c Hi) as ([Hi' Hv'] & Hlen & Hcmd & Hso).
  unfold Compact. assert (view (refreshStatsLocked (compactPoolLocked c)) = view c) as Hv by exact Hv'.
  split; [by destruct Hi'; split|by apply (sorted_ok_same c)| |by rewrite Hv|by rewrite Hv].
  change (v_dirty (view (refreshStatsLocked (compactPoolLocked c))) = false). by rewrite Hv.
Qed.

(** ** The scheduler *)

(** What a synchronization cycle leaves to the scheduler. *)
Definition schedule (s : SR) : bool * Z * Z := (sr_running s, sr_authFails s, sr_interval s).

(** A step that returns, whatever happens, leaves the schedule alone, and
    gives a result that satisfies [P]. *)
Definition returns {X} (P : X -> Prop) (m : M SR X) : Prop :=
  forall s, exists s' x, m s = (s', Ok x) /\ schedule s' = schedule s /\ P x.
Notation tame := (returns (fun _ => True)).

Lemma returns_ret {X} (P : X -> Prop) (x : X) : P x -> returns P (mret x).
Proof. intros Hx s. by exists s, x. Qed.

Lemma returns_bind {X Y} (P : Y -> Prop) (m : M SR X) (f : X -> M SR Y) :
  tame m -> (forall x, returns P (f x)) -> returns P (m ≫= f).
Proof.
  intros Hm Hf s. destruct (Hm s) as (s1 & x & E & Hs & _). destruct (Hf x s1) as (s2 & y & E2 & Hs2 & Hy).
  exists s2, y. rewrite (bind_Ok _ _ _ _ _ E). split_and!; [done|congruence|done].
Qed.

Lemma tame_gets {X} (f : SR -> X) : tame (gets f).
Proof. intros s. by exists s, (f s). Qed.

(** A call that can only touch what it is given. *)
Definition framed {X} (m : M SR X) : Prop := forall s, schedule (m s).1 = schedule s.

Lemma tame_try {X} (m : M SR X) : framed m -> tame (try m).
Proof. intros Hm s. specialize (Hm s). unfold try. destruct (m s) as [s' r]. by exists s', r. Qed.

Lemma tame_ignore {X} (m : M SR X) : framed m -> tame (ignore m).
Proof. intros Hm s. by exists (m s).1, tt. Qed.

Lemma framed_app {X} (m : M A X) : framed (on_app m).
Proof. intros s. unfold on_app, zoom. by destruct (m (sr_app s)). Qed.

Lemma framed_service {X} (m : M (Service Re) X) : framed (on_service ops m).
Proof. intros s. unfold on_service, zoom. by destruct (m _). Qed.

Lemma tame_report st : tame (report st).
Proof. intros s. by eexists _, tt. Qed.

Lemma tame_writeStatus st : tame (writeStatus st).
Proof. intros s. by eexists _, tt. Qed.

Lemma tame_rebuild : tame (rebuild_cache ops pragma).
Proof. intros s. by eexists _, tt. Qed.

#[local] Hint Resolve returns_ret tame_gets tame_report tame_writeStatus tame_rebuild framed_app framed_service : daemon.

Ltac tame_steps :=
  repeat match goal with
  | |- returns _ (mbind _ _) => apply returns_bind; [|intros ?]
  | |- tame (try _) => apply tame_try
  | |- tame (ignore _) => apply tame_ignore
  | |- returns _ (match ?x with _ => _ end) => destruct x eqn:?
  end; auto with daemon.

Lemma classifyErr_class e : (classifyErr cfg Error_text e).1 <> "busy"%string.
Proof. unfold classifyErr. by repeat case_match. Qed.

(** A cycle returns a class, and not the one of a scheduler that is busy. *)
Lemma cycle_returns force :
  returns (fun class => class <> "busy"%string) (runSyncCycle ops cfg pragma Error_text cancelled force).
Proof.
  unfold runSyncCycle. tame_steps; try (apply returns_ret; done).
  apply returns_ret. pose proof (classifyErr_class e). by destruct (classifyErr cfg Error_text e); simplify_eq/=.
Qed.

(** One round of the scheduler always ends, whatever the application's operations answer: the
    slot for a running cycle is free again, and the pause until the next round is the interval
    doubled once for each authentication failure in a row, up to five, and the interval itself after
    any other outcome and when a cycle was already running. *)
Theorem tick_backs_off (s : SR) :
  0 <= sr_authFails s <= 5 -> 0 < sr_interval s -> sr_interval s * 32 < 2^63 ->
  exists s1 class s' d, runExclusive ops cfg pragma Error_text cancelled false s = (s1, Ok class) /\
    tick ops cfg pragma Error_text cancelled s = (s', Ok d) /\
    sr_running s' = sr_running s /\ sr_interval s' = sr_interval s /\ 0 <= sr_authFails s' <= 5 /\
    sr_interval s <= d <= 32 * sr_interval s /\
    (if sr_running s then s' = s /\ d = sr_interval s
     else sr_authFails s' = (if String.eqb class HealthAuthRequired then Z.min 5 (sr_authFails s + 1) else 0) /\
       d = sr_interval s * 2^(sr_authFails s')).
Proof.
  intros Hf Hi Hmax. unfold tick. destruct (sr_running s) eqn:Er.
  { exists s, "busy"%string, s, (sr_interval s). unfold runExclusive, mbind, M_bind, gets. rewrite Er. simpl.
    split_and!; try done; lia. }
  destruct (cycle_returns false (mkServer (sr_app s) (sr_cache s) (sr_dataVersion s) (sr_ignore s) (sr_lastSync s)
    (sr_file s) true (sr_authFails s) (sr_interval s))) as (s1 & class & E & [= Hr Ha Hiv] & Hclass).
  assert (exists s2, runExclusive ops cfg pragma Error_text cancelled false s = (s2, Ok class) /\
    schedule s2 = (false, sr_authFails s, sr_interval s)) as (s2 & Ex & [= Hr2 Ha2 Hiv2]).
  { unfold runExclusive. erewrite bind_Ok by reflexivity. cbv beta iota. rewrite Er. erewrite bind_Ok by reflexivity.
    erewrite bind_Ok by exact E. eexists. split; [reflexivity|]. unfold schedule. simpl. by rewrite Ha, Hiv. }
  exists s2, class. rewrite (bind_Ok _ _ _ _ _ Ex). erewrite bind_Ok by reflexivity. rewrite Hiv2.
  destruct (String.eqb_spec class "busy") as [?|_]; [done|].
  destruct (String.eqb_spec class HealthAuthRequired) as [_|_].
  - erewrite bind_Ok by reflexivity. rewrite Ha2. erewrite bind_Ok by reflexivity.
    assert ((if 5 <? sr_authFails s + 1 then 5 else sr_authFails s + 1) = Z.min 5 (sr_authFails s + 1)) as ->
      by (destruct (Z.ltb_spec 5 (sr_authFails s + 1)); lia).
    set (n := Z.min 5 (sr_authFails s + 1)). assert (0 <= n <= 5) as Hn by lia.
    assert (2^n <= 2^5) by (apply Z.pow_le_mono_r; lia). assert (0 < 2^n) by (apply Z.pow_pos_nonneg; lia).
    rewrite Z.shiftl_1_l, wrap64_small by (unfold int64; nia).
    eexists _, _. split; [done|]. split; [reflexivity|]. cbn [sr_running sr_interval sr_authFails].
    split_and!; try done; try lia; nia.
  - erewrite bind_Ok by reflexivity. eexists _, _. split; [done|]. split; [reflexivity|].
    cbn [sr_running sr_interval sr_authFails]. split_and!; try done; lia.
Qed.

(** ** A client of the NUL format *)

Lemma bestSuggestion_from prefix cwd cands :
  bestSuggestion cfg now ToLower prefix cwd cands = EmptyString \/
  bestSuggestion cfg now ToLower prefix cwd cands ∈ e_Command <$> cands.
Proof.
  unfold bestSuggestion, BestSuggestion.
  destruct (head (Suggestions ToLower now prefix cands (search_context cfg cwd "") 1)) as [cmd|] eqn:Eh; [|by left].
  right. simpl. by apply (Suggestions_from ToLower now prefix cands (search_context cfg cwd "") 1), head_Some_elem_of.
Qed.

Lemma suggestions_live prefix d cmd :
  cmd ∈ suggestions prefix d -> cmd ∈ live_commands d /\ has_prefix prefix cmd = true /\ cmd <> prefix.
Proof.
  unfold suggestions. intros (i & Hc & _)%elem_of_take. apply list_elem_of_lookup_2, list_elem_of_In, filter_In in Hc as [Hc [Hp Hn]%andb_true_iff].
  apply list_elem_of_In, elem_of_sort_slice, elem_of_elements in Hc. apply negb_true_iff, String.eqb_neq in Hn. done.
Qed.

(** The candidates the daemon works with are the suggestions of the live rows. *)
Lemma suggest_live v prefix (s : SR) :
  pragma = Ok v -> prefix <> EmptyString -> history_wf (db_history (db_of s)) -> few (live_ids (db_of s)) ->
  room (4 * length (ScanLive (db_of s))) NewCache -> fresh_or_known v (service_of s) ->
  exists s' es, SuggestCandidates' ops pragma prefix s = (s', Ok es) /\
    e_Command <$> es = suggestions prefix (db_of s) /\ server_ok s' /\ db_of s' = db_of s.
Proof.
  intros -> Hp Hwf Hfew Hroom Hs. destruct (EnsureFresh_spec v (service_of s) Hwf Hfew Hroom Hs) as (v1 & Ef & Hin & Hdb).
  eexists _, (Cache_Suggest prefix (sv_cache v1)). split.
  - unfold SuggestCandidates', on_service, zoom, SuggestCandidates. replace (str_empty prefix) with false by by destruct prefix.
    rewrite (bind_Ok _ _ _ _ _ Ef). reflexivity.
  - unfold server_ok. simpl. rewrite ao_get_set. simpl in Hdb. rewrite <- Hdb. split; [by apply Suggest_coherent|done].
Qed.

End Spec.
