(* ===== verification/Concrete.v ===== *)
(** Concrete instances of the parameters that stand for library code (hashing,
    authenticated encryption, compression, serialization). The examples run
    the model on them, and they show that the laws the theorems assume of
    those parameters can hold. *)

From S2P Require Import Prelude Database History Frontier Event Bundle Snapshot Keys KeyStore Gc.
From S2P Require Import Roster Repository.

(** * A self-delimiting format

    [de] reads one value off the front of the input and returns the rest, so
    the format of a record is the formats of its fields one after the other. *)
Class Ser (A : Type) := {
  ser : A -> bytes;
  de : bytes -> option (A * bytes);
  de_ser : forall (x : A) (rest : bytes), de (ser x ++ rest) = Some (x, rest);
}.

#[global] Instance ser_bool : Ser bool.
Proof.
  refine (Build_Ser bool (fun x => [if x then x01 else x00])
    (fun b => match b with x01 :: r => Some (true, r) | x00 :: r => Some (false, r) | _ => None end) _).
  by intros [] rest.
Defined.

#[global] Instance ser_byte : Ser Byte.byte.
Proof.
  refine (Build_Ser Byte.byte (fun x => [x])
    (fun b => match b with x :: r => Some (x, r) | [] => None end) _).
  done.
Defined.

#[global] Instance ser_option {A} `{Ser A} : Ser (option A).
Proof.
  refine (Build_Ser (option A) (fun x => match x with Some y => x01 :: ser y | None => [x00] end)
    (fun b => match b with
          | x01 :: r => match de r with Some (y, r') => Some (Some y, r') | None => None end
          | x00 :: r => Some (None, r)
          | _ => None
          end) _).
  intros [y|] rest; simpl; [by rewrite de_ser|done].
Defined.

#[global] Instance ser_prod {A B} `{Ser A} `{Ser B} : Ser (A * B).
Proof.
  refine (Build_Ser (A * B) (fun x => ser x.1 ++ ser x.2)
    (fun b => match de b with
          | Some (x, r) => match de r with Some (y, r') => Some ((x, y), r') | None => None end
          | None => None
          end) _).
  intros [x y] rest. simpl. by rewrite <-app_assoc, !de_ser.
Defined.

(** A list is its elements, each after a [x01], and a closing [x00]; the length
    of the input bounds the number of elements left in it. *)
Fixpoint ser_all {A} `{Ser A} (l : list A) : bytes :=
  match l with [] => [x00] | x :: l => x01 :: ser x ++ ser_all l end.
Fixpoint de_all {A} `{Ser A} (fuel : nat) (b : bytes) : option (list A * bytes) :=
  match fuel, b with
  | S fuel, x01 :: r =>
      match de r with
      | Some (x, r') => match de_all fuel r' with Some (l, r'') => Some (x :: l, r'') | None => None end
      | None => None
      end
  | S _, x00 :: r => Some ([], r)
  | _, _ => None
  end.
Lemma de_ser_all {A} `{Ser A} (l : list A) (rest : bytes) (fuel : nat) :
  (length (ser_all l) <= fuel)%nat -> de_all fuel (ser_all l ++ rest) = Some (l, rest).
Proof.
  revert fuel. induction l as [|x l IH]; intros [|fuel]; simpl; try lia; intros Hf; [done|].
  rewrite <-app_assoc, de_ser, IH; [done|]. rewrite length_app in Hf. lia.
Qed.
#[global] Instance ser_list {A} `{Ser A} : Ser (list A).
Proof.
  refine (Build_Ser (list A) ser_all
    (fun b => de_all (length b) b) _).
  intros l rest. apply de_ser_all. rewrite length_app. lia.
Defined.

(** A positive number is its bits, closed by [x02]. *)
Fixpoint ser_pos (p : positive) : bytes :=
  match p with
  | xH => [x02]
  | xO p => x00 :: ser_pos p
  | xI p => x01 :: ser_pos p
  end.
Fixpoint de_pos (b : bytes) : option (positive * bytes) :=
  match b with
  | x02 :: r => Some (xH, r)
  | x00 :: r => match de_pos r with Some (p, r') => Some (xO p, r') | None => None end
  | x01 :: r => match de_pos r with Some (p, r') => Some (xI p, r') | None => None end
  | _ => None
  end.
#[global] Instance ser_Z : Ser Z.
Proof.
  refine (Build_Ser Z
    (fun z => match z with Z0 => [x00] | Zpos p => x01 :: ser_pos p | Zneg p => x02 :: ser_pos p end)
    (fun b => match b with
          | x00 :: r => Some (Z0, r)
          | x01 :: r => match de_pos r with Some (p, r') => Some (Zpos p, r') | None => None end
          | x02 :: r => match de_pos r with Some (p, r') => Some (Zneg p, r') | None => None end
          | _ => None
          end) _).
  assert (Hp : forall p rest, de_pos (ser_pos p ++ rest) = Some (p, rest)).
  { intros p rest. induction p as [p IH|p IH|]; simpl; [by rewrite IH..|done]. }
  intros [|p|p] rest; simpl; [done|by rewrite Hp..].
Defined.

(** A type that is another one in a different shape: records as nested pairs. *)
Definition ser_iso {A B} `{Ser B} (f : A -> B) (g : B -> A) (fg : forall x, g (f x) = x)
    : Ser A.
Proof.
  refine (Build_Ser A (fun x => ser (f x))
    (fun b => match de b with Some (y, r) => Some (g y, r) | None => None end) _).
  intros x rest. simpl. by rewrite de_ser, fg.
Defined.

#[global] Instance ser_string : Ser string :=
  ser_iso String.list_byte_of_string String.string_of_list_byte String.string_of_list_byte_of_string.
#[global] Instance ser_frontier : Ser Frontier :=
  ser_iso map_to_list list_to_map (fun m => list_to_map_to_list m).

(** The codec of a format: the whole input must be consumed. *)
Definition ser_codec (A : Type) `{Ser A} : Codec A := {|
  marshal := ser;
  unmarshal b := match de b with Some (x, []) => Some x | _ => None end;
  codec_valid _ := True;
|}.
Lemma ser_codec_laws (A : Type) `{Ser A} : @CodecLaws A (ser_codec A).
Proof. intros x _. simpl. pose proof (de_ser x []) as E. rewrite app_nil_r in E. by rewrite E. Qed.

(** * The formats of the program's records *)

#[global] Instance ser_Entry : Ser Entry := ser_iso
  (fun r => (e_ID r, e_Command r, e_StartTS r, e_EndTS r, e_DurationMs r, e_ExitStatus r, e_Cwd r,
     e_SessionID r, e_Hostname r, e_DeviceID r, e_Shell r, e_Deleted r, e_OriginDeviceID r, e_OriginSeq r, e_CreatedAt r))
  (fun '(v0, v1, v2, v3, v4, v5, v6, v7, v8, v9, v10, v11, v12, v13, v14) =>
     mkEntry v0 v1 v2 v3 v4 v5 v6 v7 v8 v9 v10 v11 v12 v13 v14) ltac:(by intros []).
#[global] Instance ser_Event : Ser Event := ser_iso
  (fun r => (ev_Version r, ev_Type r, ev_DeviceID r, ev_Seq r, ev_TimeUnix r, ev_Payload r))
  (fun '(v0, v1, v2, v3, v4, v5) => mkEvent v0 v1 v2 v3 v4 v5) ltac:(by intros []).
#[global] Instance ser_HistoryCreated : Ser HistoryCreated := ser_iso
  (fun r => (hc_ID r, hc_Command r, hc_StartTS r, hc_EndTS r, hc_DurationMs r,
     hc_ExitStatus r, hc_Cwd r, hc_SessionID r, hc_Hostname r, hc_Shell r))
  (fun '(v0, v1, v2, v3, v4, v5, v6, v7, v8, v9) =>
     mkHistoryCreated v0 v1 v2 v3 v4 v5 v6 v7 v8 v9) ltac:(by intros []).
#[global] Instance ser_HistoryTombstoned : Ser HistoryTombstoned := ser_iso
  (fun r => (ht_HistoryID r, ht_OriginDeviceID r, ht_OriginSeq r))
  (fun '(v0, v1, v2) => mkHistoryTombstoned v0 v1 v2) ltac:(by intros []).
#[global] Instance ser_DeviceMeta : Ser DeviceMeta := ser_iso
  (fun r => (dm_Name r, dm_Hostname r, dm_Status r))
  (fun '(v0, v1, v2) => mkDeviceMeta v0 v1 v2) ltac:(by intros []).
#[global] Instance ser_Header : Ser Header := ser_iso
  (fun r => (h_Version r, h_DeviceID r, h_SeqStart r,
     h_SeqEnd r, h_EventCount r, h_GenerationID r, h_Nonce r))
  (fun '(v0, v1, v2, v3, v4, v5, v6) =>
     mkHeader v0 v1 v2 v3 v4 v5 v6) ltac:(by intros []).
#[global] Instance ser_File : Ser File := ser_iso
  (fun r => (f_Header r, f_Ciphertext r))
  (fun '(v0, v1) => mkFile v0 v1) ltac:(by intros []).
#[global] Instance ser_Manifest : Ser Manifest := ser_iso
  (fun r => (m_Version r, m_ID r, m_GenerationID r, m_Frontier r, m_CreatedAt r))
  (fun '(v0, v1, v2, v3, v4) => mkManifest v0 v1 v2 v3 v4) ltac:(by intros []).
#[global] Instance ser_AckFile : Ser AckFile := ser_iso
  (fun r => (ak_Version r, ak_DeviceID r, ak_Frontier r, ak_CheckpointID r, ak_UpdatedAt r))
  (fun '(v0, v1, v2, v3, v4) => mkAckFile v0 v1 v2 v3 v4) ltac:(by intros []).
#[global] Instance ser_Slot : Ser Slot := ser_iso
  (fun r => (sl_ID r, sl_Type r, sl_GenerationID r, sl_WrapParams r,
     sl_WrappedSMK r, sl_Status r, sl_CreatedAt r, sl_Label r))
  (fun '(v0, v1, v2, v3, v4, v5, v6, v7) =>
     mkSlot v0 v1 v2 v3 v4 v5 v6 v7) ltac:(by intros []).
#[global] Instance ser_GManifest : Ser GManifest := ser_iso
  (fun r => (gm_Version r, gm_GenerationID r, gm_Seq r,
     gm_Counter r, gm_Active r, gm_Slots r, gm_MAC r))
  (fun '(v0, v1, v2, v3, v4, v5, v6) =>
     mkGManifest v0 v1 v2 v3 v4 v5 v6) ltac:(by intros []).
#[global] Instance ser_WrapParams : Ser WrapParams := ser_iso
  (fun r => (fp_Version r, fp_RPID r, fp_CredentialID r, fp_Salt r, fp_AAGUID r, fp_Product r))
  (fun '(v0, v1, v2, v3, v4, v5) => mkWrapParams v0 v1 v2 v3 v4 v5) ltac:(by intros []).
#[global] Instance ser_YubiMeta : Ser YubiMeta := ser_iso
  (fun r => (ym_serial r, ym_label r))
  (fun '(v0, v1) => mkYubiMeta v0 v1) ltac:(by intros []).
#[global] Instance ser_RemoteManifest : Ser RemoteManifest := ser_iso
  (fun r => (rm_Version r, rm_Counter r, rm_ActiveGeneration r, rm_Devices r,
     rm_Retired r, rm_Pruned r, rm_UpdatedAt r, rm_MAC r))
  (fun '(v0, v1, v2, v3, v4, v5, v6, v7) =>
     mkRemoteManifest v0 v1 v2 v3 v4 v5 v6 v7) ltac:(by intros []).
#[global] Instance ser_DeviceFile : Ser DeviceFile := ser_iso
  (fun r => (df_Version r, df_ID r, df_Name r, df_Hostname r, df_Status r, df_Head r))
  (fun '(v0, v1, v2, v3, v4, v5) => mkDeviceFile v0 v1 v2 v3 v4 v5) ltac:(by intros []).
#[global] Instance ser_compactRow : Ser compactRow := ser_iso
  (fun r => (cr_ID r, cr_Command r, cr_StartMS r, cr_EndMS r, cr_DurationMs r, cr_ExitStatus r, cr_Cwd r,
     cr_SessionIdx r, cr_HostIdx r, cr_DeviceIdx r, cr_ShellIdx r, cr_Deleted r, cr_OriginDevIdx r, cr_OriginSeq r, cr_CreatedMS r))
  (fun '(v0, v1, v2, v3, v4, v5, v6, v7, v8, v9, v10, v11, v12, v13, v14) =>
     mkCompactRow v0 v1 v2 v3 v4 v5 v6 v7 v8 v9 v10 v11 v12 v13 v14) ltac:(by intros []).
#[global] Instance ser_snapshot : Ser snapshot := ser_iso
  (fun r => (s_Version r, s_Sessions r, s_Hosts r, s_Devices r, s_Shells r, s_Rows r))
  (fun '(v0, v1, v2, v3, v4, v5) => mkSnapshot v0 v1 v2 v3 v4 v5) ltac:(by intros []).
#[global] Instance ser_snapshotV1 : Ser snapshotV1 := ser_iso
  (fun r => (v1_Version r, v1_Entries r))
  (fun '(v0, v1) => mkSnapshotV1 v0 v1) ltac:(by intros []).
#[global] Instance ser_remoteManifest : Ser remoteManifest := ser_iso
  (fun r => (pm_Version r, pm_ActiveGeneration r))
  (fun '(v0, v1) => mkProbeManifest v0 v1) ltac:(by intros []).

#[global] Instance ex_codec (A : Type) `{Ser A} : Codec A := ser_codec A.
#[global] Instance ex_codec_laws (A : Type) `{Ser A} : CodecLaws A := ser_codec_laws A.

#[global] Instance ex_events : EventCodecs := {}.
#[global] Instance ex_events_laws : EventCodecLaws.
Proof. split; apply ser_codec_laws. Qed.
#[global] Instance ex_bundles : BundleCodecs := {}.
#[global] Instance ex_bundles_laws : BundleCodecLaws.
Proof. split; apply ser_codec_laws. Qed.
#[global] Instance ex_snapshots : SnapshotCodecs := {|
  sj_entries _ := None; sj_wrap _ := None; sj_snapshot _ := None; sj_file _ := None;
|}.
#[global] Instance ex_snapshots_laws : SnapshotCodecLaws.
Proof.
  split; [apply ser_codec_laws|]. intros [v ? ? ? ? ?] b rest. by destruct v; simpl; intros [= <- _].
Qed.

(** * The cryptographic parameters

    A fixed-length prefix for the hash, a keyed prefix for the MAC, a ciphertext that
    carries its plaintext and a 16-byte tag. They satisfy the laws the theorems
    use and none of the secrecy of the real functions. *)
Definition pad32 (b : bytes) : bytes := take 32 (b ++ replicate 32 x00).
#[global] Instance ex_sha256 : Sha256 := pad32.
#[global] Instance ex_mac : Mac := {|
  hkdf32 secret salt info := pad32 (secret ++ salt ++ info);
  hmac_sha256 key msg := pad32 (key ++ msg);
|}.
#[global] Instance ex_mac_laws : MacLaws.
Proof. intros secret salt info. simpl. unfold pad32. rewrite length_take, length_app, length_replicate. lia. Qed.

Definition tag_of (key nonce ad : bytes) : bytes := take 16 (key ++ nonce ++ ad ++ replicate 16 x00).
#[global] Instance ex_aead : Aead := {|
  aead_seal key nonce pt ad := pt ++ tag_of key nonce ad;
  aead_open key nonce ct ad :=
    if bool_decide (drop (length ct - 16) ct = tag_of key nonce ad)
    then Some (take (length ct - 16) ct) else None;
|}.
Lemma tag_of_length key nonce ad : length (tag_of key nonce ad) = 16%nat.
Proof. unfold tag_of. rewrite length_take, !length_app, length_replicate. lia. Qed.
#[global] Instance ex_aead_laws : AeadLaws.
Proof.
  split; intros key nonce pt ad; simpl; rewrite ?length_app, tag_of_length; [|done]. intros _ _.
  replace (length pt + 16 - 16)%nat with (length pt) by lia.
  by rewrite drop_app_length, take_app_length, bool_decide_true.
Qed.

#[global] Instance ex_gzip : Gzip := {| gzipBest p := p; gunzip p := Some p |}.
#[global] Instance ex_gzip_laws : GzipLaws.
Proof. by intros p. Qed.
