(* ===== verification/Witnesses.v ===== *)
(** The theorems of the library applied to concrete inputs: for each one that
    has hypotheses, a run of the model in which they all hold. *)

From S2P Require Import Prelude Database History Frontier Event Device Merge Replica Bundle.
From S2P Require Import Snapshot Keys KeyStore Transport Gc Directory Equalize Roster Engine.
From S2P Require Import EngineSafety Repository Rotate Delivery Concrete.

(** Evaluates a decidable statement about concrete data. *)
Ltac decide_closed := apply (bool_decide_unpack _); vm_compute; exact I.

(** Case analysis on an entry of a concrete map. *)
Ltac each_entry H :=
  apply elem_of_map_to_list in H;
  match type of H with _ ∈ ?l => let l' := eval vm_compute in l in change l with l' in H end;
  repeat (apply elem_of_cons in H as [H|H]; [simplify_eq|]);
  try (by apply elem_of_nil in H).

(** * Two commands of one device, one of them deleted, received by a replica *)
Definition ex_now : Time := 9000000.
Definition ex_entry : Entry :=
  mkEntry "id-1" "git status" 5000000 None None (Some 0) "/src" "s1" "laptop" "dev-a" "bash" false "" None 7000000.
Definition ex_entry2 : Entry :=
  mkEntry "id-2" "ls" 6000000 None None (Some 0) "/src" "s1" "laptop" "dev-a" "bash" false "" None 8000000.
Definition ex_evs : list Event :=
  [ NewHistoryCreated ex_now "dev-a" 1 ex_entry;
    NewHistoryCreated ex_now "dev-a" 2 ex_entry2;
    newTombstone ex_now "dev-a" 3 "id-2" "dev-a" 2 ].
Definition ex_s0 : ES unit := mkES db_empty tt cs_zero ∅ [].
Definition ex_s1 : ES unit := (applyEvents ex_now ex_evs ex_s0).1.
Definition ex_db : DB := (AdvanceContiguous "dev-a" (es_db ex_s1)).1.

Lemma ex_s1_wf : wf (es_db ex_s1).
Proof. apply (applyEvents_sound ex_now ex_evs ex_s0), wf_empty. Qed.
Lemma ex_db_wf : wf ex_db.
Proof. apply (AdvanceContiguous_sound "dev-a"), ex_s1_wf. Qed.

Lemma InsertExec_Get_witness :
  History.Get (InsertExec ex_now ex_entry db_empty).1 "id-1" = Some (stored_entry ex_entry).
Proof.
  destruct (InsertExec_Get ex_now ex_entry db_empty wf_empty) as (d' & ins & E & H1 & _).
  rewrite E. apply H1. vm_compute in E. by injection E.
Defined.

Definition ex_filter : Filter := mkFilter "" "" "" "" "" "" None None None false true 0.
Lemma List_unique_newest_witness :
  length (list_rows ex_filter ex_db) = 1%nat /\
  forall m r, m ∈ list_rows ex_filter ex_db -> row_of ex_db r ->
    predicates ex_filter (db_interns ex_db) r = true ->
    hr_command_hash r = hr_command_hash m -> r = m \/ newer m r = true.
Proof.
  split; [vm_compute; reflexivity|].
  apply (List_unique_newest ex_filter ex_db ex_db_wf); [reflexivity|discriminate].
Defined.

Definition ex_f1 : Frontier := {["dev-a" := 3; "dev-b" := 5]}.
Definition ex_f2 : Frontier := {["dev-a" := 4; "dev-c" := 2]}.
Lemma Union_lub_witness :
  Dominates (Union ex_f1 ex_f2) ex_f1 = true /\ Dominates (Union ex_f1 ex_f2) ex_f2 = true.
Proof.
  assert (nonneg ex_f1) as N1 by (intros id s H; by each_entry H).
  assert (nonneg ex_f2) as N2 by (intros id s H; by each_entry H).
  destruct (Union_lub ex_f1 ex_f2 ex_f1 N1 N2 N1) as (H1 & H2 & _). exact (conj H1 H2).
Defined.

Lemma at_int64 (f : Frontier) : (forall id s, f !! id = Some s -> int64 s) -> forall id, int64 (at_ f id).
Proof. intros Hf id. unfold at_. destruct (f !! id) eqn:E; simpl; [by eapply Hf|done]. Qed.

Lemma Missing_exact_witness :
  exists r, r ∈ Missing ex_f1 ex_f2 /\ DeviceID r = "dev-c"%string /\ Start r <= 2 <= End r.
Proof.
  apply (Missing_exact ex_f1 ex_f2 "dev-c" 2).
  - apply at_int64. intros id s H. by each_entry H.
  - intros id s H. by each_entry H.
  - exists 2. split; [reflexivity|]. vm_compute. by split.
Defined.

Lemma ex_seqs_bounded : seqs_bounded ex_db "dev-a".
Proof. split; [intros seq r H|intros h H]; [by each_entry H|]. vm_compute in H. by injection H as <-. Qed.
Lemma NextSeq_fresh_witness :
  NextSeq ex_db "dev-a" = 4 /\ forall seq r, db_events ex_db !! ("dev-a"%string, seq) = Some r -> seq < 4.
Proof.
  split; [reflexivity|]. intros seq r Hr.
  exact (proj1 (NextSeq_fresh ex_db "dev-a" ex_seqs_bounded) seq r Hr).
Defined.

Lemma ex_log_ok : log_ok ex_now ex_db "dev-a".
Proof.
  intros seq r H. each_entry H; simpl.
  - eexists. split; vm_compute; reflexivity.
  - split; [done|]. eexists "id-1"%string, _. split_and!; [vm_compute; reflexivity|reflexivity|by right; left].
  - split; [done|]. eexists "id-2"%string, _. split_and!; [vm_compute; reflexivity|reflexivity|by right; left].
Qed.
Lemma Range_compaction_witness :
  exists evs evs', Range ex_now ex_db "dev-a" 1 3 = Ok evs /\
    Range ex_now (CompactUpToHeads ex_db).1 "dev-a" 1 3 = Ok evs' /\
    strip_time <$> evs' = strip_time <$> evs.
Proof. exact (Range_compaction ex_now ex_db "dev-a" 1 3 ex_db_wf ex_log_ok). Defined.

Lemma AdvanceContiguous_prefix_witness :
  exists head' d', AdvanceContiguous "dev-a" (es_db ex_s1) = (d', Ok tt) /\ 0 <= head' /\
    (forall s, 0 < s <= head' -> applied (es_db ex_s1) "dev-a" s = true).
Proof.
  destruct (AdvanceContiguous_prefix (es_db ex_s1) "dev-a") as (head' & d' & E & H1 & H2 & _).
  - intros seq r H. by each_entry H.
  - vm_compute. by split.
  - exists head', d'. split_and!; [exact E|exact H1|exact H2].
Defined.

(** * The replicated set *)
Definition ex_universe : gmap origin HistoryCreated :=
  {[ ("dev-a"%string, 1) := created_payload ex_entry; ("dev-a"%string, 2) := created_payload ex_entry2 ]}.
Definition ex_effects : list effect :=
  [Create ("dev-a"%string, 1); Create ("dev-a"%string, 2); Replica.Remove ("dev-a"%string, 2)].

Lemma ex_universe_ok : universe_ok ex_universe.
Proof.
  split.
  - intros dev seq p H. by each_entry H.
  - intros o p H. by each_entry H.
  - intros o o' p p' H H'. by each_entry H; each_entry H'.
  - intros dev seq seq' p p' H H'. by each_entry H; each_entry H'.
Qed.
Lemma ex_events_of : Forall2 (event_of ex_universe) ex_evs ex_effects.
Proof.
  repeat constructor.
  - eapply ev_created; vm_compute; reflexivity.
  - eapply ev_created; vm_compute; reflexivity.
  - eapply (ev_tombstoned _ _ (mkHistoryTombstoned "id-2" "dev-a" 2)); vm_compute; reflexivity.
Qed.



(** * Bundles and snapshots *)
Definition ex_smk : bytes := replicate 32 x2a.
Definition ex_nonce : bytes := replicate 24 x07.

Lemma Pack_Unpack_roundtrip_witness :
  exists raw h, Pack ex_nonce "dev-a" "gen-1" ex_evs ex_smk = Ok (raw, h) /\
    Unpack raw ex_smk = Ok (h, ex_evs) /\ h_SeqStart h = 1 /\ h_SeqEnd h = 3.
Proof.
  destruct (Pack_Unpack_roundtrip ex_nonce "dev-a" "gen-1" ex_evs ex_smk)
    as (raw & h & E1 & E2 & _ & _ & _ & H1 & H2); [done|reflexivity|reflexivity|done|].
  exists raw, h. split_and!; [exact E1|exact E2|by erewrite H1 by reflexivity|by erewrite H2 by reflexivity].
Defined.

Lemma DecodeFile_EncodeFile_witness : DecodeFile (EncodeFile ex_nonce ex_smk) = Ok (ex_nonce, ex_smk).
Proof. apply DecodeFile_EncodeFile. vm_compute. lia. Defined.

Lemma UnpackSnapshot_PackSnapshot_witness :
  exists ct, PackSnapshot ex_nonce [ex_entry; ex_entry2] ex_smk = Ok (ex_nonce, ct) /\
    UnpackSnapshot ex_smk ex_nonce ct = Ok (stored_entry <$> [ex_entry; ex_entry2]).
Proof. apply UnpackSnapshot_PackSnapshot; [reflexivity|reflexivity|exact I]. Defined.

(** * A generation unlocked by a recovery secret and an authenticator *)
Definition ex_encode (secret : bytes) : result string := Ok "recovery phrase"%string.
Definition ex_secret : bytes := replicate 32 x05.
Definition ex_draw (id : string) : Draw := mkDraw ex_nonce id 1.
Definition ex_draw_n (n : nat) : Draw := ex_draw "drawn".
Definition ex_gd (id : string) : GenDraw := mkGenDraw ex_smk ex_secret id (ex_draw (id +:+ "-recovery")).
Definition ex_fido : FidoDevice :=
  mkFidoDevice (Ok (mkEnrollment [x01] [x02] ex_secret "aaguid" "key" "remnix")) (fun _ _ => Ok ex_secret).
Definition ex_gen : GManifest :=
  match BootstrapGeneration ex_encode (ex_gd "gen-1") 1 None [] [(ex_draw "gen-1-fido", ex_fido)] with
  | Ok (m, _, _) => m
  | Fail _ => gmanifest_zero
  end.
Definition ex_unlock : Unlock := mkUnlock ex_secret [] [].

Lemma UnwrapAny_active_witness :
  exists sl, UnwrapAny (gm_Slots ex_gen) ex_unlock = Ok (ex_smk, sl) /\
    sl ∈ gm_Slots ex_gen /\ sl_Status sl = SlotActive.
Proof.
  eexists. split; [vm_compute; reflexivity|].
  edestruct (UnwrapAny_active (gm_Slots ex_gen) ex_unlock ex_smk) as (H1 & H2 & _);
    [vm_compute; reflexivity|]. split; [exact H1|exact H2].
Defined.

Lemma RemoveSlot_safe_witness :
  exists m, RemoveSlot ex_gen ex_smk "gen-1-recovery" = Ok m /\
    Active (gm_Slots m) <> [] /\ Verify m ex_smk = Ok tt.
Proof.
  destruct (RemoveSlot ex_gen ex_smk "gen-1-recovery") as [m|e] eqn:E; [|vm_compute in E; discriminate].
  destruct (RemoveSlot_safe ex_gen m ex_smk "gen-1-recovery" E) as (H1 & _ & _ & _ & H2).
  exists m. split_and!; [reflexivity|exact H1|apply H2; reflexivity].
Defined.

Lemma RotateRecovery_replaces_witness :
  exists m enc, RotateRecovery ex_encode ex_smk (ex_draw "new") ex_gen ex_smk = Ok (m, ex_smk, enc) /\
    exists sl, OfType (gm_Slots m) TypeRecovery = [sl] /\ UnwrapSMK ex_smk (sl_WrappedSMK sl) = Ok ex_smk.
Proof.
  destruct (RotateRecovery ex_encode ex_smk (ex_draw "new") ex_gen ex_smk) as [[[m s] enc]|e] eqn:E;
    [|vm_compute in E; discriminate].
  destruct (RotateRecovery_replaces ex_encode ex_smk (ex_draw "new") ex_gen m ex_smk s enc)
    as (-> & H & _); [reflexivity|exact E|].
  exists m, enc. split; [reflexivity|exact H].
Defined.


Definition ex_keys : DB := (PutGeneration 1 ex_gen db_empty).1.
Lemma key_store_integrity_witness : keys_wf (DeleteGeneration "gen-1" ex_keys).1.
Proof.
  apply key_store_integrity. eapply rtc_l; [exact (ks_put_generation 1 ex_gen db_empty)|].
  apply rtc_once. exact (ks_delete_generation "gen-1" ex_keys).
Defined.

Definition ex_gen2 : GManifest := mkGManifest 1 "gen-2" 2 1 false [] "".
Lemma rotation_switches_active_witness :
  exists d1 d2, StageRotation 2 ex_gen2 ex_gen "staged" ex_keys = (d1, Ok tt) /\
    PromoteRotation 3 "gen-1" "gen-2" d1 = (d2, Ok tt) /\
    gm_GenerationID <$> Store_Active d2 = Some "gen-2"%string.
Proof.
  destruct (rotation_switches_active 2 3 ex_gen2 ex_gen "staged" ex_keys)
    as (d1 & d2 & E1 & _ & _ & E2 & _ & H & _).
  - eexists. split; vm_compute; reflexivity.
  - intros id (r & Hr & _). by each_entry Hr.
  - vm_compute. reflexivity.
  - vm_compute. reflexivity.
  - exists d1, d2. split_and!; [exact E1|exact E2|exact H].
Defined.

(** * A remote directory with a bundle, a checkpoint that covers it and two acks *)
Definition ex_uuid (n : nat) : string := "u"%string.
Definition ex_put (p : path) (b : bytes) (s : FS) : FS :=
  (tr_PutAtomic (directory ex_uuid) (key_of p) (bytes_reader b) s).1.

Lemma good_key p : p <> [] -> Forall good_name p -> dir_key (key_of p).
Proof. intros Hne Hg. by exists p. Qed.
Lemma ex_put_ok p b s : p <> [] -> Forall good_name p -> tree_ok (fs_nodes s) -> tree_ok (fs_nodes (ex_put p b s)).
Proof.
  intros Hne Hg Hs. unfold ex_put.
  destruct (tr_PutAtomic (directory ex_uuid) (key_of p) (bytes_reader b) s) as [s' r] eqn:E.
  exact (proj1 (store_put _ _ _ _ _ Hs (good_key p Hne Hg) E)).
Qed.
Ltac good_path :=
  repeat (apply Forall_cons; split; [split; vm_compute; first [reflexivity|discriminate]|]); apply Forall_nil_2.

Definition ex_bundle : bytes :=
  match Pack ex_nonce "dev-a" "gen-1" ex_evs ex_smk with Ok (raw, _) => raw | Fail _ => [] end.
Definition ex_ckpt : Manifest := mkManifest 1 "c1" "gen-1" {["dev-a" := 3]} 4.
Definition ex_ack (dev : string) : AckFile := mkAckFile 1 dev {["dev-a" := 3]} "c1" 5.
Definition ex_remote : FS :=
  ex_put ["acks"; "dev-b.ack"]%string (ack_Encode (ex_ack "dev-b"))
    (ex_put ["acks"; "dev-a.ack"]%string (ack_Encode (ex_ack "dev-a"))
       (ex_put ["checkpoints"; "c1"; "manifest"]%string (EncodeManifest ex_ckpt)
          (ex_put ["events"; "dev-a"; "b1"]%string ex_bundle fs_empty))).
Lemma ex_remote_ok : store_inv (tr := directory ex_uuid) ex_remote.
Proof. repeat (apply ex_put_ok; [discriminate|good_path|]). apply tree_ok_empty. Qed.
Lemma ex_events_prefix : store_prefix (tr := directory ex_uuid) "events".
Proof. apply (good_key ["events"%string]); [discriminate|good_path]. Qed.


Definition ex_plan : Plan :=
  mkPlan ["events/dev-a/b1"]%string ["checkpoints/c0"]%string [] [] [] "c1" true.
Lemma ex_plan_keys k : k ∈ plan_keys ex_plan -> k = "checkpoints/c0"%string \/ k = "events/dev-a/b1"%string.
Proof.
  change (plan_keys ex_plan) with ["checkpoints/c0"; "events/dev-a/b1"]%string.
  rewrite elem_of_cons, list_elem_of_singleton. done.
Qed.
Lemma ex_plan_good k : k ∈ plan_keys ex_plan -> store_key (tr := directory ex_uuid) k.
Proof.
  intros [-> | ->]%ex_plan_keys.
  - apply (good_key ["checkpoints"; "c0"]%string); [discriminate|good_path].
  - apply (good_key ["events"; "dev-a"; "b1"]%string); [discriminate|good_path].
Qed.
Lemma Execute_only_planned_witness :
  exists s', Execute (directory ex_uuid) ex_plan false ex_remote = (s', Ok tt) /\
    objects (tr := directory ex_uuid) s' ⊆ objects (tr := directory ex_uuid) ex_remote /\
    (is_Some (objects (tr := directory ex_uuid) ex_remote !! "acks/dev-a.ack"%string) ->
     objects (tr := directory ex_uuid) s' !! "acks/dev-a.ack"%string <> None).
Proof.
  destruct (Execute_only_planned (tr := directory ex_uuid) ex_plan false ex_remote
    (Execute (directory ex_uuid) ex_plan false ex_remote).1
    (Execute (directory ex_uuid) ex_plan false ex_remote).2 ex_remote_ok ex_plan_good)
    as ((_ & Hsub & Hgone) & _ & _); [apply surjective_pairing|].
  exists (Execute (directory ex_uuid) ex_plan false ex_remote).1.
  split; [|split; [exact Hsub|]].
  - apply injective_projections; [reflexivity|vm_compute; reflexivity].
  - intros Hin Hn. destruct (Hgone "acks/dev-a.ack"%string Hin Hn) as (k & Hk & Hp).
    destruct (ex_plan_keys k Hk) as [-> | ->]; destruct Hp as [Hp|Hp]; discriminate Hp.
Defined.

Definition ex_ckpt0 : Manifest := mkManifest 1 "c0" "gen-1" {["dev-a" := 1]} 2.
Definition ex_metas : gmap string Manifest := {["c0" := ex_ckpt0; "c1" := ex_ckpt]}.
Lemma deletes_checkpoint_conservative_witness :
  deletes_checkpoint ex_metas "c1" (Some ex_ckpt) false "c0" = true /\
  Dominates (m_Frontier ex_ckpt) (m_Frontier ex_ckpt0) = true.
Proof.
  split; [reflexivity|].
  destruct (deletes_checkpoint_conservative ex_metas ex_ckpt ex_ckpt0 false "c0") as (_ & [H|[H _]]);
    [|reflexivity|reflexivity|reflexivity|exact H|discriminate].
  intros id m H. by each_entry H.
Defined.

Lemma sortCheckpoints_canonical_witness :
  sortCheckpoints [ex_ckpt0; ex_ckpt] = sortCheckpoints [ex_ckpt; ex_ckpt0].
Proof.
  apply (sortCheckpoints_canonical [ex_ckpt0; ex_ckpt] [ex_ckpt; ex_ckpt0]).
  - repeat constructor; try (by vm_compute); intros id s H; by each_entry H.
  - decide_closed.
  - apply perm_swap.
Defined.

Lemma PutAtomic_Get_witness :
  exists s', PutAtomic ex_uuid "acks/dev-c.ack" (bytes_reader ex_smk) ex_remote = (s', Ok tt) /\
    Get "acks/dev-c.ack" s' = (s', Ok (bytes_reader ex_smk)) /\
    dir_objects s' !! "acks/dev-a.ack"%string = dir_objects ex_remote !! "acks/dev-a.ack"%string.
Proof.
  destruct (PutAtomic ex_uuid "acks/dev-c.ack" (bytes_reader ex_smk) ex_remote) as [s' r] eqn:E.
  assert (r = Ok tt) as -> by (vm_compute in E; by injection E).
  destruct (PutAtomic_Get ex_uuid ["acks"; "dev-c.ack"]%string (bytes_reader ex_smk) ex_remote s' (Ok tt))
    as (_ & H1 & _ & _ & H2); [exact ex_remote_ok|discriminate|good_path|exact E|].
  exists s'. split_and!; [reflexivity|by apply H1|by apply H2].
Defined.

(** * Two endpoints, the second one empty *)
Definition ex_eps : list string := ["one"; "two"]%string.
Definition ex_tr (ep : string) : Transport FS := directory ex_uuid.
Definition ex_world : World := [ex_remote; fs_empty].
Lemma ex_world_ok : world_ok ex_tr ex_eps (Hstore := fun ep => directory_store ex_uuid) ex_world.
Proof.
  split; [reflexivity|]. intros i ep s _.
  apply (Forall_lookup_1 (fun s => store_inv (tr := directory ex_uuid) s)).
  apply Forall_cons. split; [exact ex_remote_ok|]. apply Forall_singleton. exact tree_ok_empty.
Qed.

(** * The engine of one device against the directory *)
Definition ex_options : Options := mkOptions "dev-a" "laptop" "laptop" [] [] None "".
Notation ex_dir := (directory ex_uuid).
Lemma ex_manifest_key : store_key (tr := ex_dir) "metadata/manifest".
Proof. apply (good_key ["metadata"; "manifest"]%string); [discriminate|good_path]. Qed.

Lemma applyEvents_idempotent_witness :
  exists s1, applyEvents ex_now ex_evs ex_s0 = (s1, Ok tt) /\ applyEvents ex_now ex_evs s1 = (s1, Ok tt).
Proof.
  assert ((applyEvents ex_now ex_evs ex_s0).2 = Ok tt) as Hr by (vm_compute; reflexivity).
  destruct (applyEvents ex_now ex_evs ex_s0) as [s1 r] eqn:E. change (r = Ok tt) in Hr. subst r.
  destruct (applyEvents_idempotent ex_now ex_evs ex_s0 s1 E) as (_ & _ & H).
  exists s1. split; [reflexivity|]. apply H. reflexivity.
Defined.

Definition ex_db0 : DB := (InsertExec ex_now ex_entry db_empty).1.
Lemma EnqueueHistoryCreated_logs_witness :
  exists d' e, EnqueueHistoryCreated ex_options ex_now ex_entry ex_db0 = (d', Ok tt) /\
    db_heads d' !! "dev-a"%string = Some 1 /\ History.Get d' "id-1" = Some e.
Proof.
  destruct (db_history ex_db0 !! "id-1"%string) as [r|] eqn:Hr; [|vm_compute in Hr; discriminate].
  destruct (EnqueueHistoryCreated_logs ex_options ex_now ex_entry r ex_db0) as (d' & E & H1 & H2 & _).
  - apply (InsertExec_wf ex_now ex_entry), wf_empty.
  - split; [intros seq r' H; by each_entry H|intros h H; vm_compute in H; discriminate H].
  - exact Hr.
  - intros k r' H. by each_entry H.
  - eexists d', _. split; [exact E|]. split; [exact H1|exact H2].
Defined.

Definition ex_es (d : DB) (fs : FS) : ES FS := mkES d fs cs_zero ∅ [].
Lemma publishRemoteRoster_publishes_witness :
  exists s' rm,
    publishRemoteRoster ex_dir ex_options ex_now "gen-1" 0 ex_smk ex_smk ["dev-old"]%string
      (ex_es ex_keys ex_remote) = (s', Ok tt) /\
    VerifyRemote rm ex_smk = Ok tt /\ "dev-old"%string ∈ rm_Pruned rm /\ "dev-a"%string ∉ rm_Pruned rm.
Proof.
  assert ((publishRemoteRoster ex_dir ex_options ex_now "gen-1" 0 ex_smk ex_smk ["dev-old"]%string
      (ex_es ex_keys ex_remote)).2 = Ok tt) as Hr by (vm_compute; reflexivity).
  destruct (publishRemoteRoster ex_dir ex_options ex_now "gen-1" 0 ex_smk ex_smk ["dev-old"]%string
      (ex_es ex_keys ex_remote)) as [s' r] eqn:E. change (r = Ok tt) in Hr. subst r.
  destruct (publishRemoteRoster_publishes ex_dir ex_options ex_now "gen-1" 0 ex_smk ex_smk ["dev-old"]%string
    (ex_es ex_keys ex_remote) s' ex_remote_ok ex_manifest_key) as (rm & _ & H1 & _ & _ & _ & _ & _ & _ & H2 & H3);
    [vm_compute; reflexivity|vm_compute; discriminate|exact E|].
  exists s', rm. split; [reflexivity|]. split; [exact H1|]. split; [|exact H2].
  apply H3; [by left|discriminate|discriminate].
Defined.

(** The remote still shows a manifest older than the one the device accepted. *)
Definition ex_old_rm : RemoteManifest := mkRemoteManifest 1 1 "gen-1" [] [] [] 0 "".
Definition ex_stale : FS := ex_put ["metadata"; "manifest"]%string (marshal ex_old_rm) ex_remote.
Definition ex_trusting : DB := (SetTrusted 1 "remote" "gen-1" 5 "" [] ex_keys).1.
Lemma pullMetadata_rollback_witness :
  exists s' e, pullMetadata ex_dir ex_options ex_now (ex_es ex_trusting ex_stale) = (s', Fail e) /\
    es_db s' = ex_trusting.
Proof.
  apply (pullMetadata_rollback ex_dir ex_options ex_now (ex_es ex_trusting ex_stale) (marshal ex_old_rm) ex_old_rm).
  - apply (ex_put_ok ["metadata"; "manifest"]%string); [discriminate|good_path|exact ex_remote_ok].
  - exact ex_manifest_key.
  - vm_compute. reflexivity.
  - vm_compute. reflexivity.
  - vm_compute. reflexivity.
Defined.

(** The manifest of [c1] is published, its snapshot is not. *)
Lemma pullCheckpoint_needs_snapshot_witness :
  exists s' e, pullCheckpoint ex_dir ex_options ex_now {["gen-1"%string := ex_smk]} (ex_es db_empty ex_remote)
    = (s', Fail e) /\ es_db s' = db_empty.
Proof.
  apply (pullCheckpoint_needs_snapshot ex_dir ex_options ex_now {["gen-1"%string := ex_smk]} ex_ckpt
    (ex_es db_empty ex_remote) (ex_es db_empty ex_remote) (ex_es db_empty ex_remote)).
  - vm_compute. reflexivity.
  - vm_compute. reflexivity.
  - exact ex_remote_ok.
  - apply (good_key ["checkpoints"; "c1"; "snapshot"]%string); [discriminate|good_path].
  - vm_compute. reflexivity.
  - vm_compute. reflexivity.
Defined.

(** * Rotation *)
Definition ex_staged : DB := (StageRotation 2 ex_gen2 ex_gen "phrase" ex_keys).1.

Lemma rotateGeneration_resumes_witness :
  rotateGeneration ex_dir ex_options ex_now (Ok []) ex_encode (ex_gd "gen-3") ex_draw_n ex_draw_n (ex_es ex_staged ex_remote) =
  rotateGeneration ex_dir ex_options ex_now (Ok []) ex_encode (ex_gd "gen-4") ex_draw_n ex_draw_n (ex_es ex_staged ex_remote).
Proof.
  apply rotateGeneration_resumes.
  assert (bool_decide (is_Some (db_rotation ex_staged)) = true) as Hj by (vm_compute; reflexivity).
  exact (bool_decide_eq_true_1 _ Hj).
Defined.

Lemma InitializeRemote_guard_witness :
  exists s' e, InitializeRemote ex_dir ex_options ex_now ex_gen ex_smk (ex_es db_empty ex_stale) = (s', Fail e) /\
    es_db s' = es_db (ex_es db_empty ex_stale) /\
    objects (tr := ex_dir) (es_tr s') = objects (tr := ex_dir) (es_tr (ex_es db_empty ex_stale)).
Proof.
  apply (InitializeRemote_guard ex_dir ex_options ex_now ex_gen ex_smk (marshal ex_old_rm) (ex_es db_empty ex_stale)).
  - reflexivity.
  - apply (ex_put_ok ["metadata"; "manifest"]%string); [discriminate|good_path|exact ex_remote_ok].
  - exact ex_manifest_key.
  - vm_compute. reflexivity.
  - discriminate.
Defined.

(** * Publishing and pulling *)
Definition ex_range : list Event :=
  match Range ex_now ex_db "dev-a" 1 3 with Ok evs => evs | Fail _ => [] end.
Lemma publishLocal_publishes_witness :
  exists s', publishLocal ex_dir ex_options ex_now ex_nonce ex_smk ex_gen (ex_es ex_db fs_empty) = (s', Ok tt) /\
    db_heads (es_db s') !! "dev-a"%string = Some 3 /\
    exists raw h, Unpack raw ex_smk = Ok (h, ex_range) /\ h_DeviceID h = "dev-a"%string.
Proof.
  assert ((publishLocal ex_dir ex_options ex_now ex_nonce ex_smk ex_gen (ex_es ex_db fs_empty)).2 = Ok tt) as Hr
    by (vm_compute; reflexivity).
  destruct (publishLocal ex_dir ex_options ex_now ex_nonce ex_smk ex_gen (ex_es ex_db fs_empty)) as [s' r] eqn:E.
  change (r = Ok tt) in Hr. subst r. exists s'.
  destruct (publishLocal_publishes ex_dir ex_options ex_now ex_nonce ex_smk ex_gen ex_range (ex_es ex_db fs_empty) s')
    as ((raw & h & _ & Hu & Hd & _) & Hh & _).
  - exact tree_ok_empty.
  - intros raw h Hp. vm_compute in Hp. injection Hp as <- _.
    match goal with |- store_key ?k => let k' := eval vm_compute in k in
      assert (k = k') as -> by (vm_compute; reflexivity) end.
    match goal with |- store_key ?k => let p := eval vm_compute in (split_on slash k) in
      apply (good_key p); [discriminate|good_path] end.
  - vm_compute. reflexivity.
  - vm_compute. by split.
  - vm_compute. reflexivity.
  - vm_compute. discriminate.
  - by split.
  - exact E.
  - split; [reflexivity|]. split; [exact Hh|]. exists raw, h. split; [exact Hu|exact Hd].
Defined.

Lemma pullBundles_delivers_witness :
  exists s1 s' listed, listEventBundles ex_dir (ex_es db_empty ex_remote) = (s1, Ok listed) /\
    pullBundles ex_dir ex_now {["gen-1"%string := ex_smk]} (ex_es db_empty ex_remote) = (s', Ok tt) /\
    marks_sound ex_dir s'.
Proof.
  assert ((listEventBundles ex_dir (ex_es db_empty ex_remote)).2 = Ok [mkObject "events/dev-a/b1" (Z.of_nat (length ex_bundle))]) as Hl
    by (vm_compute; reflexivity).
  destruct (listEventBundles ex_dir (ex_es db_empty ex_remote)) as [s1 l] eqn:El.
  change (l = Ok [mkObject "events/dev-a/b1" (Z.of_nat (length ex_bundle))]) in Hl. subst l.
  assert ((pullBundles ex_dir ex_now {["gen-1"%string := ex_smk]} (ex_es db_empty ex_remote)).2 = Ok tt) as Hr
    by (vm_compute; reflexivity).
  destruct (pullBundles ex_dir ex_now {["gen-1"%string := ex_smk]} (ex_es db_empty ex_remote)) as [s' r] eqn:E.
  change (r = Ok tt) in Hr. subst r.
  destruct (pullBundles_delivers ex_dir ex_now ex_events_prefix {["gen-1"%string := ex_smk]}
    (ex_es db_empty ex_remote) s1 s' [mkObject "events/dev-a/b1" (Z.of_nat (length ex_bundle))]) as (_ & Hm & _).
  - exact ex_remote_ok.
  - intros k raw Hb. exfalso. revert Hb. unfold bundlePulled. simpl. by rewrite lookup_empty.
  - exact El.
  - exact E.
  - eexists s1, s', _. split; [reflexivity|]. split; [reflexivity|exact Hm].
Defined.

(** * Two devices through one directory

    [dev-a] creates the repository, records a command and syncs; [dev-b] joins
    with the recovery secret, syncs, deletes the command and syncs again; then
    [dev-a] syncs. *)
Definition ex_opts (dev : string) : Options := mkOptions dev dev "host" ex_secret [] None "".
Definition run_a (s : ES FS) : ES FS * result unit :=
  (_ ← InitializeRemote ex_dir (ex_opts "dev-a") ex_now ex_gen ex_smk;
   _ ← sql (_ ← InsertExec ex_now ex_entry; EnqueueHistoryCreated (ex_opts "dev-a") ex_now ex_entry);
   Sync ex_dir (ex_opts "dev-a") ex_now (Ok []) ex_nonce) s.
Definition run_b (s : ES FS) : ES FS * result unit :=
  Sync ex_dir (ex_opts "dev-b") ex_now (Ok []) ex_nonce s.
Definition delete_b (s : ES FS) : ES FS * result unit :=
  (_ ← sql (d ← get; match History.Get d "id-1" with
                     | Some e => EnqueueHistoryTombstoned (ex_opts "dev-b") ex_now e
                     | None => fail (EMsg "missing")
                     end);
   Sync ex_dir (ex_opts "dev-b") ex_now (Ok []) ex_nonce) s.

Definition ex_a1 : ES FS * result unit := run_a (ex_es db_empty fs_empty).
Definition ex_b1 : ES FS * result unit := run_b (ex_es db_empty (es_tr ex_a1.1)).
Definition ex_b2 : ES FS * result unit := delete_b ex_b1.1.
Definition ex_a2 : ES FS * result unit :=
  Sync ex_dir (ex_opts "dev-a") ex_now (Ok []) ex_nonce (set_es_tr (es_tr ex_b2.1) ex_a1.1).

(** A run of the whole engine succeeds: one device initializes the remote, records a command
    and syncs; a second joins with the recovery secret, syncs, sees the command, deletes it and
    syncs; the first syncs and the deletion has reached it. *)
Lemma two_devices :
  ex_a1.2 = Ok tt /\ ex_b1.2 = Ok tt /\ ex_b2.2 = Ok tt /\ ex_a2.2 = Ok tt /\
  e_Command <$> History.Get (es_db ex_b1.1) "id-1" = Some "git status"%string /\
  e_Deleted <$> History.Get (es_db ex_b1.1) "id-1" = Some false /\
  e_Deleted <$> History.Get (es_db ex_a2.1) "id-1" = Some true.
Proof. vm_compute. repeat split. Qed.
