(* ===== verification/WitnessesApp.v ===== *)
(** The theorems about the application, the daemon and the terminal applied to
    concrete inputs: for each one that has hypotheses, a run in which they all
    hold. *)

From S2P Require Import Prelude Database History Frontier Event Device Merge Replica Bundle.
From S2P Require Import Snapshot Keys KeyStore Transport Gc Directory Equalize Roster Engine.
From S2P Require Import EngineSafety Repository Rotate Delivery Text Advanced Importers Utf8 Config Keyring App AppSafety.
From S2P Require Import Cache CacheSpec Service ServiceSpec Search Redact Terminal Queues Wire Daemon DaemonSpec.
From S2P Require Import Concrete Witnesses.
From Stdlib Require Import Ascii.

(** * The wire formats *)

Lemma frames_roundtrip_witness :
  ReadFrame (A := Z) (String "000"%char (String "000"%char (String "000"%char (String "002"%char (String "001"%char (String "002"%char "rest"))))))
    = ("rest"%string, Ok 1) /\
  term_ReadFrame (term_WriteFrame FrameData "ls" +:+ "rest") = ("rest"%string, Ok (FrameData, "ls"%string)).
Proof.
  destruct (frames_roundtrip (A := Z) 1
    (String "000"%char (String "000"%char (String "000"%char (String "002"%char (String "001"%char (String "002"%char "")))))) "rest" FrameData "ls")
    as [H1 H2]; [exact I|discriminate|vm_compute; reflexivity|vm_compute; discriminate|].
  split; [exact H1|exact H2].
Defined.

Lemma replies_roundtrip_witness :
  readReply (writeOK "git status" +:+ "x") = ("x"%string, Ok "git status"%string) /\
  readReplyList (writeOKList ["git status"; "git stash"]%string +:+ "x") = ("x"%string, Ok ["git status"; "git stash"]%string).
Proof.
  destruct (replies_roundtrip "git status" "no" "x" ["git status"; "git stash"]%string) as (H1 & _ & H3);
    [reflexivity|reflexivity|repeat constructor|split; [lia|simpl; lia]|]. exact (conj H1 H3).
Defined.

Lemma short_line s : str_has nl s = false -> Z.of_nat (String.length s) <= 1000 -> line_ok s.
Proof. intros H1 H2. split; [done|]. unfold maxLine. lia. Qed.

Definition ex_create : CreateRequest := mkCreate "/bin/zsh" "/src" 80 (-1) 0 7 ["A=1"; "PATH=/bin"]%string.
Lemma ReadCreate_WriteCreate_witness : ReadCreate (WriteCreate ex_create +:+ "ls") = ("ls"%string, Ok ex_create).
Proof.
  apply (ReadCreate_WriteCreate ex_create "ls"). split.
  - apply short_line; [reflexivity|simpl; lia].
  - apply short_line; [reflexivity|simpl; lia].
  - repeat apply Forall_cons_2; [split; simpl; lia..|apply Forall_nil_2].
  - repeat apply Forall_cons_2; [apply short_line; [reflexivity|simpl; lia]..|apply Forall_nil_2].
Defined.

(** * The configuration *)

Definition ex_endpoint : Endpoint := mkEndpoint "home" TypeDirectory "" true "" "" "/mnt/share" "" "" "" 0.
Definition no_colors : Colors := mkColors "" "" "" "" "" "" "" "" "" "" (mkSyntaxColors "" "" "" "" "" "" "" "" "" "").
Definition ex_config : Config :=
  mkConfig 1 "dev-a" "laptop" "" (mkSyncConfig (Some true) "" "" "" [ex_endpoint] []) (mkDaemonConfig "" "")
    (mkSuggest None None 0 None (mkSuggestIcons "" "" "") []) (mkPtyProxy None 0)
    (mkUI no_colors (mkIcons "" "" "" "" "" "")) false.
Definition ex_endpoint2 : Endpoint := mkEndpoint "nas" TypeSCP "" true "" "" "" "" "nas.local" "me" 22.

Lemma endpoints_store_witness :
  Sync_Endpoint (UpsertEndpoint ex_endpoint2 (cf_Sync ex_config)) "nas" = Some ex_endpoint2 /\
  Sync_Endpoint (UpsertEndpoint ex_endpoint2 (cf_Sync ex_config)) "home" = Some ex_endpoint.
Proof.
  destruct (endpoints_store ex_config ex_endpoint2) as (_ & (_ & H1 & H2) & _);
    [vm_compute; reflexivity|vm_compute; reflexivity|vm_compute; reflexivity|].
  split; [exact H1|]. rewrite (H2 "home"%string); [vm_compute; reflexivity|discriminate].
Defined.

(** * Ranking *)

Definition ex_entry3 : Entry :=
  mkEntry "id-3" "digit" 6000000 None None (Some 0) "/src" "s1" "laptop" "dev-a" "bash" false "" None 8000000.
Definition ex_context : SContext := mkContext 9000000 "/src" "dev-a" "s1" (Some {["git status"%string := 2]}).
Definition id_lower (s : string) : string := s.

Lemma class_outranks_witness :
  exists r1 r2, fuzzy_result id_lower "git" ex_context ex_entry = Some r1 /\
    fuzzy_result id_lower "git" ex_context ex_entry3 = Some r2 /\ r_Score r2 < r_Score r1.
Proof.
  eexists _, _. split; [vm_compute; reflexivity|]. split; [vm_compute; reflexivity|].
  eapply (class_outranks id_lower "git" ex_context ex_entry ex_entry3).
  - intros m k n [= <-] Hk. apply lookup_singleton_Some in Hk as [_ <-]. lia.
  - vm_compute. discriminate.
  - vm_compute. reflexivity.
  - vm_compute. reflexivity.
  - vm_compute. reflexivity.
  - vm_compute. reflexivity.
Defined.

Lemma Suggestions_ranked_witness :
  Suggestions id_lower 9000000 "git" [ex_entry3; ex_entry] ex_context 0 = ["git status"; "digit"]%string /\
  NoDup (Suggestions id_lower 9000000 "git" [ex_entry3; ex_entry] ex_context 0).
Proof.
  split; [vm_compute; reflexivity|].
  apply (Suggestions_ranked id_lower 9000000 "git" [ex_entry3; ex_entry] ex_context 0). vm_compute. discriminate.
Defined.

(** * Redaction *)

Lemma redact_hides_witness :
  redact_String "curl --token = hunter2 x" = redact_String "curl --token = swordfish x".
Proof.
  apply (redact_hides "curl --" "token" " " " " " x" "hunter2" "swordfish" "="); try (vm_compute; reflexivity).
  - exists "token"%string. split; [decide_closed|vm_compute; reflexivity].
  - right. eexists _, _. split; [reflexivity|vm_compute; reflexivity].
  - split; [discriminate|vm_compute; reflexivity].
  - split; [discriminate|vm_compute; reflexivity].
Defined.

(** * The terminal *)

Definition ex_chunks : list string := ["ls"; String "027"%char "["; "97;5u"]%string.
Lemma chunks_do_not_matter_witness :
  settled_all kitty_step EmptyString ex_chunks = true /\
  feed_all kitty_step EmptyString ex_chunks = feed kitty_step EmptyString (str_concat ex_chunks).
Proof.
  assert (settled_all kitty_step EmptyString ex_chunks = true) as Hs by (vm_compute; reflexivity).
  split; [exact Hs|]. apply (chunks_do_not_matter ex_chunks). exact Hs.
Defined.

Definition ex_queue : Input.ptyInputQueue :=
  let q1 := (Input.push "ls" (Input.newPTYInputQueue 4)).1 in
  let q2 := (Input.push "-l" q1).1 in
  Input.stop (Input.popWait q2).1.

Lemma input_queue_lossless_witness :
  "ls-l"%string = ("ls" +:+ Input.concat_all (Input.pending ex_queue))%string /\ Input.q_bytes ex_queue = 2.
Proof.
  assert (Input.run (Input.newPTYInputQueue 4)
    ([] ++ [Input.Pushed "ls"] ++ [Input.Pushed "-l"] ++ [Input.Popped "ls"] ++ [Input.Stopped]) ex_queue) as Hr.
  { rewrite !app_assoc. eapply Input.run_snoc; [|apply Input.step_stop]. eapply Input.run_snoc.
    - eapply Input.run_snoc; [eapply Input.run_snoc; [apply Input.run_nil|]|].
      + eapply Input.step_push. vm_compute. reflexivity.
      + eapply Input.step_push. vm_compute. reflexivity.
    - eapply Input.step_pop; vm_compute; reflexivity. }
  destruct (Input.input_queue_lossless 4 _ _ Hr) as (H1 & H2 & _). split; [exact H1|]. exact H2.
Defined.

Definition ex_world : Parse.world :=
  let q1 := (Parse.enqueue "out" false (Parse.newParseQueue 8)).1 in
  let q2 := (Parse.enqueue "put" false q1).1 in
  match Parse.popLocked q2 with (q, it) => Parse.mkWorld q it end.

(** A socket that takes at most three bytes at a time. *)
Definition three_bytes (p w : string) : string * (nat * option Write.errno) :=
  ((w +:+ str_take 3 p)%string, (Nat.min 3 (String.length p), None)).
Definition never_waits (w : string) : string * option error := (w, None).
#[global] Instance three_bytes_writer : Write.Writer three_bytes never_waits (fun w => w).
Proof.
  split.
  - intros p w w' n e E. apply (f_equal (fun x => x.2.1)) in E. unfold three_bytes, snd, fst in E. lia.
  - intros p w w' n e E. assert (w' = (w +:+ str_take 3 p)%string /\ n = Nat.min 3 (String.length p)) as [-> ->]
      by (split; [by apply (f_equal fst) in E|by apply (f_equal (fun x => x.2.1)) in E]). f_equal. destruct (Nat.leb_spec 3 (String.length p)) as [Hl|Hl].
    + by rewrite Nat.min_l.
    + rewrite Nat.min_r by lia. by destruct p as [|a [|b [|c p]]]; [..|simpl in Hl; lia].
  - by intros w w' e [= <- _].
Qed.

Lemma writeFull_exact_witness :
  Write.writeFull three_bytes never_waits true 10 "git status" "$ " = ("$ git status"%string, Some (Ok tt)) /\
  exists w' r, Write.writeFull three_bytes never_waits true 10 "git status" "$ " = (w', Some r) /\
    (r = Ok tt -> w' = ("$ " +:+ "git status")%string).
Proof.
  split; [vm_compute; reflexivity|].
  destruct (Write.writeFull_exact three_bytes never_waits (fun w => w) true "git status" "$ ") as (w' & r & H1 & H2 & _).
  - intros p w w' n e _ [= _ _ <-]. right. left. reflexivity.
  - exists w', r. split; [exact H1|exact H2].
Defined.

(** * The key ring *)

#[global] Instance ser_map {V} `{Ser V} : Ser (gmap string V) :=
  ser_iso map_to_list list_to_map (fun m => list_to_map_to_list m).
#[global] Instance ser_KeyBundle : Ser KeyBundle := ser_iso
  (fun r => (kb_Version r, kb_Keys r)) (fun '(v, k) => mkKeyBundle v k) ltac:(by intros []).
Definition ex_lower (e : error) : string := "".
Definition ex_smks : gmap string bytes := {["gen-1"%string := ex_smk]}.

Lemma keyring_roundtrip_witness :
  (Keyring.Get Memory ex_lower "dev-a" (Set_ Memory ex_lower "dev-a" ex_smks ∅).1).2 = Ok ex_smks.
Proof.
  destruct (keyring_roundtrip ex_lower Memory "dev-a" ex_smks ∅) as [H _]; [exact I|]. apply H.
  vm_compute. reflexivity.
Defined.

(** * The application on a directory *)

Definition ex_env : Env := mkEnv (fun _ => ""%string) (Ok "/home/me"%string) "/tmp" 7.
Definition ex_directory (path : string) : Transport FS := directory ex_uuid.
Definition ex_rsync (spec work : string) : Transport FS := directory ex_uuid.
Definition ex_scp (h u p w : string) (port : Z) : Transport FS := directory ex_uuid.
Definition ex_no_rclone (name path : string) : result (Transport FS) := Fail (EMsg "no remote").
Definition ex_devices : DB := (Device.Upsert 1 (mkDevice "dev-a" "laptop" "laptop" "active" 1 None) db_empty).1.
Definition ex_app (d : DB) : App FS MemoryState := mkApp d [ex_remote] ∅ false.


Lemma RotateGeneration_resumes_everywhere_witness :
  App_RotateGeneration ex_config Memory "laptop" ex_env ex_lower (Ok []) (fun _ => Ok ex_secret) ex_directory
    ex_rsync ex_scp (fun _ => Ok tt) ex_no_rclone (fun _ => ex_now) (Ok tt) (Ok tt) ex_secret [] None ex_encode (fun _ => ex_gd "gen-3")
    (fun _ => ex_draw_n) (fun _ => ex_draw_n) (ex_app ex_staged) =
  App_RotateGeneration ex_config Memory "laptop" ex_env ex_lower (Ok []) (fun _ => Ok ex_secret) ex_directory
    ex_rsync ex_scp (fun _ => Ok tt) ex_no_rclone (fun _ => ex_now) (Ok tt) (Ok tt) ex_secret [] None ex_encode (fun _ => ex_gd "gen-4")
    (fun _ => ex_draw_n) (fun _ => ex_draw_n) (ex_app ex_staged).
Proof.
  assert (bool_decide (is_Some (db_rotation ex_staged)) = true) as Hj by (vm_compute; reflexivity).
  destruct (RotateGeneration_resumes_everywhere ex_config Memory "laptop" ex_env ex_lower (Ok []) (fun _ => Ok ex_secret) ex_directory
    ex_rsync ex_scp (fun _ => Ok tt) ex_no_rclone (fun _ => ex_now) (Ok tt) (Ok tt) ex_secret [] None ex_encode ex_encode
    (fun _ => ex_gd "gen-3") (fun _ => ex_gd "gen-4") (fun _ => ex_draw_n) (fun _ => ex_draw_n) (fun _ => ex_draw_n)
    (fun _ => ex_draw_n) (ex_app ex_staged) (bool_decide_eq_true_1 _ Hj)) as [H _]. exact H.
Defined.

Definition ex_two : DB := (AdvanceContiguous "dev-a" (es_db (applyEvents ex_now (take 2 ex_evs) ex_s0).1)).1.
Lemma ex_two_wf : wf ex_two.
Proof. apply (AdvanceContiguous_sound "dev-a"), (applyEvents_sound ex_now (take 2 ex_evs) ex_s0), wf_empty. Qed.

Lemma TombstoneCommand_clears_witness :
  exists a', TombstoneCommand ex_config "laptop" ex_now "ls" (ex_app ex_two) = (a', Ok tt) /\
    length (ListByCommand "ls" ex_two) = 1%nat /\ ListByCommand "ls" (ap_db a') = [].
Proof.
  destruct (TombstoneCommand ex_config "laptop" ex_now "ls" (ex_app ex_two)) as [a' r] eqn:E.
  assert (r = Ok tt) as -> by (apply (f_equal snd) in E; vm_compute in E; exact (eq_sym E)).
  exists a'. split; [reflexivity|]. split; [vm_compute; reflexivity|].
  apply (TombstoneCommand_clears ex_config "laptop" ex_now "ls" (ex_app ex_two) a').
  - apply ex_two_wf.
  - discriminate.
  - exact E.
Defined.

(** * The cache and the service *)

Definition ex_cache : Cache := Rebuild (ScanLive ex_two) NewCache.
Lemma small_room n : Z.of_nat n <= 1000 -> room n NewCache.
Proof. intros Hn. unfold room. simpl. lia. Qed.
Lemma ex_coherent : coherent ex_two ex_cache.
Proof.
  apply Rebuild_coherent; [apply ex_two_wf|vm_compute; reflexivity|].
  replace (4 * length (ScanLive ex_two))%nat with 8%nat by (vm_compute; reflexivity). apply small_room. lia.
Qed.

Lemma cache_refines_witness :
  view (cache_run (OpTombstoneCommand "ls") ex_cache) = v_run (OpTombstoneCommand "ls") (view ex_cache) /\
  length (c_recs (cache_run (OpTombstoneCommand "ls") ex_cache)) = 1%nat.
Proof.
  split; [|vm_compute; reflexivity].
  apply (cache_refines (OpTombstoneCommand "ls") ex_cache); [apply ex_coherent|apply ex_coherent|exact I].
Defined.

Definition ex_compile (p : string) : option string := Some p.
Definition ex_match (re s : string) : bool := String.eqb re s.
Definition ex_files : Files := mkFiles (fun _ => None) (fun _ => None).
Definition ex_ignore : ignoreCache string := mkIgnore (mkStamp "" None) (mkStamp "" None) (mkRules ∅ []).
Definition ex_service : Service string := mkService ex_two ex_cache 1 ex_ignore.
Definition ex_uuids (n : nat) : result string := Ok "id-9"%string.
Definition ex_write (w : service_write) : Service string * result unit :=
  write_run ex_compile ex_match ex_env ex_files "dev-a" "laptop" "/src" None None ex_now ex_uuids (Ok 1) w ex_service.


Lemma queries_answer_live_witness :
  exists s' es all, SuggestCandidates (Ok 2) "gi" ex_service = (s', Ok es) /\
    SearchCandidates (Ok 2) ex_service = (s', Ok all) /\ e_Command <$> es = ["git status"%string].
Proof.
  destruct (queries_answer_live "gi" 2 ex_service) as (s' & es & all & H1 & H2 & _ & H3 & _).
  - discriminate.
  - apply ex_two_wf.
  - vm_compute. reflexivity.
  - replace (4 * length (ScanLive (sv_db ex_service)))%nat with 8%nat by (vm_compute; reflexivity). apply small_room. lia.
  - left. exact ex_coherent.
  - exists s', es, all. split; [exact H1|]. split; [exact H2|]. rewrite H3. vm_compute. reflexivity.
Defined.

(** * The daemon *)

(** The application as the daemon sees it: the operations of [App] on a directory. *)
Definition ex_ops : AppOps (App FS MemoryState) := {|
  ao_db := ap_db;
  ao_set_db d a := mkApp d (ap_remotes a) (ap_keyring a) (ap_locked a);
  ao_keys a := (Keyring.Get Memory ex_lower "dev-a" (ap_keyring a)).2;
  ao_sync := SyncEngineWithChanges ex_config Memory "laptop" ex_env ex_lower (Ok []) (fun _ => Ok ex_secret) (fun _ => None)
    ex_directory ex_rsync ex_scp (fun _ => Ok tt) ex_no_rclone (fun _ => ex_now) (fun _ => ex_nonce) (Ok tt) (Ok tt) [] [] None;
  ao_force := ForceCheckpoint ex_config Memory "laptop" ex_env ex_lower (Ok []) (fun _ => Ok ex_secret) (fun _ => None)
    (fun _ => None) ex_directory ex_rsync ex_scp (fun _ => Ok tt) ex_no_rclone (fun _ => ex_now) (fun _ => ex_nonce)
    (Ok tt) (Ok tt) "ckpt-1";
  ao_maybe := MaybeCheckpoint ex_config Memory "laptop" ex_env ex_lower (Ok []) (fun _ => Ok ex_secret) (fun _ => None)
    (fun _ => None) ex_directory ex_rsync ex_scp (fun _ => Ok tt) ex_no_rclone (fun _ => ex_now) (fun _ => ex_nonce)
    (Ok tt) (Ok tt) "ckpt-1";
  ao_gc := GarbageCollect ex_config ex_env ex_directory ex_rsync ex_scp (fun _ => Ok tt) ex_no_rclone (Ok tt) (Ok tt) false;
  ao_lock := AcquireLock (Ok tt) (Ok tt);
  ao_release := Release;
  ao_callbacks := Ok tt;
|}.
#[global] Instance ex_ops_laws : AppLaws ex_ops.
Proof. split. done. Qed.

Definition ex_server (d : DB) (c : Cache) : Server (App FS MemoryState) string :=
  mkServer (ex_app d) c 1 ex_ignore status_zero None false 2 300.
Definition ex_text (e : error) : string := "error".

Lemma tick_backs_off_witness :
  exists s' d, tick ex_ops ex_config (Ok 1) ex_text false (ex_server ex_two ex_cache) = (s', Ok d) /\
    sr_authFails s' = 0 /\ d = 300.
Proof.
  destruct (tick_backs_off ex_ops ex_config (Ok 1) ex_text false (ex_server ex_two ex_cache))
    as (s1 & class & s' & d & E1 & E & _ & _ & _ & _ & H1 & H2); [split; vm_compute; discriminate|reflexivity|reflexivity|].
  apply (f_equal (fun x => match x.2 with Ok c => c | _ => "busy"%string end)) in E1. vm_compute in E1.
  exists s', d. split; [exact E|]. rewrite <- E1 in H1. change (sr_authFails s' = 0) in H1. split; [exact H1|].
  rewrite H2, H1. reflexivity.
Defined.

(** Payloads in the format of [Concrete]. *)
Definition ser_payload {T} `{Ser T} (zero : T) : Payload T :=
  {| pl_zero := zero; pl_decode b := match de b with Some (x, []) => Some x | _ => None end; pl_encode := ser |}.
#[global] Instance ser_SuggestReq : Ser SuggestReq := ser_iso
  (fun r => (sq_Prefix r, sq_Cwd r)) (fun '(a, b) => mkSuggestReq a b) ltac:(by intros []).
#[global] Instance ser_SuggestListReq : Ser SuggestListReq := ser_iso
  (fun r => (sl_Prefix r, sl_Cwd r, sl_Limit r)) (fun '(a, b, c) => mkSuggestListReq a b c) ltac:(by intros []).
#[global] Instance ser_StartReq : Ser HistoryStartReq := ser_iso
  (fun r => (hs_Command r, hs_Cwd r, hs_Session r, hs_Shell r)) (fun '(a, b, c, d) => mkStartReq a b c d) ltac:(by intros []).
#[global] Instance ser_EndReq : Ser HistoryEndReq := ser_iso
  (fun r => (he_ID r, he_Exit r)) (fun '(a, b) => mkEndReq a b) ltac:(by intros []).
#[global] Instance ser_SearchReq : Ser HistorySearchReq := ser_iso
  (fun r => (hq_Query r, hq_Cwd r, hq_DeviceID r, hq_SessionID r, hq_Host r, hq_Shell r, hq_Limit r, hq_Exact r, hq_Unique r))
  (fun '(a, b, c, d, e, f, g, h, i) => mkSearchReq a b c d e f g h i) ltac:(by intros []).
#[global] Instance ser_Hit : Ser SearchHit := ser_iso
  (fun r => (sh_ID r, sh_Command r, sh_Cwd r, sh_DeviceID r, sh_SessionID r, sh_Hostname r, sh_Shell r, sh_StartTS r,
     sh_DurationMs r, sh_Exit r))
  (fun '(a, b, c, d, e, f, g, h, i, j) => mkHit a b c d e f g h i j) ltac:(by intros []).
#[global] Instance ser_DeleteReq : Ser HistoryDeleteReq := ser_iso hd_Command mkDeleteReq ltac:(by intros []).
#[global] Instance ser_TombstoneReq : Ser HistoryTombstoneReq := ser_iso ht_IDs mkTombstoneReq ltac:(by intros []).
#[global] Instance ser_SyncReq : Ser SyncNowReq := ser_iso sn_Checkpoint mkSyncReq ltac:(by intros []).
#[global] Instance ser_Status : Ser Status := ser_iso
  (fun r => (st_OK r, st_Error r, st_Class r, st_Hint r, st_GCDeleted r, st_GCEligible r))
  (fun '(a, b, c, d, e, f) => mkStatus a b c d e f) ltac:(by intros []).
#[global] Instance ser_Request : Ser Request := ser_iso
  (fun r => (rq_Version r, rq_ID r, rq_Op r, rq_SessionID r, rq_Payload r)) (fun '(a, b, c, d, e) => mkRequest a b c d e)
  ltac:(by intros []).
#[global] Instance ser_Response : Ser Response := ser_iso
  (fun r => (rs_ID r, rs_Status r, rs_Error r, rs_Payload r)) (fun '(a, b, c, d) => mkResponse a b c d) ltac:(by intros []).
#[global] Instance pl_Suggest : Payload SuggestReq := ser_payload (mkSuggestReq "" "").
#[global] Instance pl_SuggestList : Payload SuggestListReq := ser_payload (mkSuggestListReq "" "" 0).
#[global] Instance pl_Start : Payload HistoryStartReq := ser_payload (mkStartReq "" "" "" "").
#[global] Instance pl_End : Payload HistoryEndReq := ser_payload (mkEndReq "" 0).
#[global] Instance pl_Search : Payload HistorySearchReq := ser_payload (mkSearchReq "" "" "" "" "" "" 0 false false).
#[global] Instance pl_Delete : Payload HistoryDeleteReq := ser_payload (mkDeleteReq "").
#[global] Instance pl_Tombstone : Payload HistoryTombstoneReq := ser_payload (mkTombstoneReq []).
#[global] Instance pl_Sync : Payload SyncNowReq := ser_payload (mkSyncReq false).
#[global] Instance pl_string : Payload string := ser_payload EmptyString.
#[global] Instance pl_strings : Payload (list string) := ser_payload [].
#[global] Instance pl_hits : Payload (list SearchHit) := ser_payload [].
#[global] Instance pl_Status : Payload Status := ser_payload status_zero.

Definition ex_dispatch := dispatch ex_ops ex_config ex_compile ex_match ex_env ex_files "laptop" "/src" None None ex_now ex_uuids
  (Ok 1) id_lower ex_text false [] [] (fun _ => Fail (EMsg "no session")) (Ok 0).
Definition ex_delete : Request := mkRequest 1 5 "history.tombstone-entries" "" (ser (mkTombstoneReq ["id-2"%string])).

Lemma ex_roomy : roomy ex_ops (ex_server ex_two ex_cache).
Proof.
  split; [apply ex_two_wf|]. split; [vm_compute; reflexivity|].
  apply Z.leb_le. vm_compute. reflexivity.
Qed.



(** * The inspector's filters

    Expressions are texts to be found; their source is the text itself. *)
Definition ex_run (id command cwd : string) (ts exit : Z) : Entry :=
  mkEntry id command ts None None (Some exit) cwd "s1" "laptop" "dev-a" "bash" false "" None ts.
Definition ex_runs : list Entry :=
  [ex_run "id-1" "git status" "/src" 5000000 0; ex_run "id-2" "git push" "/tmp" 6000000 1;
   ex_run "id-3" "git push" "/tmp" 7000000 128; ex_run "id-4" "ls" "/tmp" 8000000 2].
Definition ex_inspected : DB := foldr (fun e d => (InsertExec ex_now e d).1) db_empty ex_runs.
Lemma ex_inspected_wf : wf ex_inspected.
Proof. unfold ex_inspected. induction ex_runs as [|e l IH]; [apply wf_empty|]. by apply InsertExec_wf. Qed.
Definition ex_filter (command cwd host : option string) : AdvancedFilter :=
  mkAdvanced command "" cwd host None None None None true None (Some (time_UnixMilli 5)) None SortFailed 0.
Definition ex_found (d : DB) (f : AdvancedFilter) : list string :=
  cs_Command <$> CommandSummariesAdvanced contains (fun re => re) f d.

Lemma hash_ok_check (d : DB) :
  forallb (fun r => forallb (fun r' => Bool.eqb (same_hash r r') (String.eqb (hr_command r) (hr_command r'))) (rows (db_history d)))
    (rows (db_history d)) = true -> hash_ok d.
Proof.
  intros H k k' r r' Hk Hk'. rewrite forallb_forall in H.
  assert (r ∈ rows (db_history d) /\ r' ∈ rows (db_history d)) as [Hr Hr'] by (split; apply elem_of_rows; eauto).
  specialize (H r (proj1 (list_elem_of_In _ _) Hr)). rewrite forallb_forall in H.
  specialize (H r' (proj1 (list_elem_of_In _ _) Hr')). apply Bool.eqb_prop in H. unfold same_hash in H.
  rewrite <- String.eqb_eq, <- H. by rewrite bool_decide_eq_true.
Qed.

Lemma advanced_reference_witness :
  let f := ex_filter (Some "git") (Some "tmp") None in
  ex_found ex_inspected f = ["git push"]%string /\
  SummarizeRuns "git push" (FilterEntries contains (ListByCommand "git push" ex_inspected) f)
    ∈ CommandSummariesAdvanced contains (fun re => re) f ex_inspected /\
  e_ID <$> ListByCommandMatching contains "git push" f ex_inspected = ["id-3"; "id-2"]%string.
Proof.
  cbv zeta. split; [vm_compute; reflexivity|].
  destruct (advanced_reference contains (fun re => re) (ex_filter (Some "git") (Some "tmp") None) ex_inspected)
    as (_ & H1 & H2).
  - apply ex_inspected_wf.
  - apply hash_ok_check. vm_compute. reflexivity.
  - split; try (intros ? [=]; fail).
    + intros re [= <-]. right. right. exists "/src"%string. split; [decide_closed|vm_compute; reflexivity].
    + intros t [= <-]. vm_compute. reflexivity.
  - simpl. lia.
  - split; [|rewrite H2; [vm_compute; reflexivity|discriminate|vm_compute; reflexivity]].
    apply H1. exists "git push"%string. split; [vm_compute; discriminate|]. split; [reflexivity|].
    split; [vm_compute; reflexivity|]. intros _. vm_compute. reflexivity.
Defined.

(** * Imported history files *)

Definition ex_histfile : list Run := [mkRun "git status" 1700000000 2; mkRun "ls -l; pwd" 1700000100 0].
Ltac plain_lines :=
  repeat apply Forall_cons_2; try apply Forall_nil_2; (split; vm_compute; reflexivity).
Lemma histfile_roundtrip_witness :
  ParseHistfile (file zsh_print ex_histfile) "zsh" =
    ([mkHist "git status" 1700000000000000000 (Some 2000) None ""; mkHist "ls -l; pwd" 1700000100000000000 (Some 0) None ""], None) /\
  ParseHistfile (file bash_print ex_histfile) "bash" =
    ([mkHist "git status" 1700000000000000000 None None ""; mkHist "ls -l; pwd" 1700000100000000000 None None ""], None) /\
  ParseHistfile (file fish_print ex_histfile) "fish" =
    ([mkHist "git status" 1700000000000000000 None None ""; mkHist "ls -l; pwd" 1700000100000000000 None None ""], None).
Proof.
  destruct (histfile_roundtrip ex_histfile) as (H1 & H2 & H3). split; [|split].
  - apply H1. repeat apply Forall_cons_2; [..|apply Forall_nil_2];
      (split; [split; split; vm_compute; congruence|]; split; [split; vm_compute; congruence|plain_lines]).
  - apply H2. repeat apply Forall_cons_2; [..|apply Forall_nil_2];
      (split; [split; split; vm_compute; congruence|]; split; [reflexivity|]; split; [vm_compute; discriminate|plain_lines]).
  - apply H3. repeat apply Forall_cons_2; [..|apply Forall_nil_2];
      (split; [split; split; vm_compute; congruence|]; split; [discriminate|]; split; [vm_compute; reflexivity|];
       split; [vm_compute; reflexivity|plain_lines]).
Defined.
