(* ===== verification/WitnessesStore.v ===== *)
(** The theorems about migrations and the outer components applied to concrete
    inputs. *)

From S2P Require Import Prelude Database History Event Text Migrate Utf8 HelpParse HelpCache HelpCacheSpec Warmup Concrete Witnesses.
From Stdlib Require Import Ascii.

(** * Migrations *)

Definition ex_script (name body : string) : DirEntry := mkDirEntry name false (Ok body).
Definition nl_ : string := String nl EmptyString.
Definition ex_dir_entries : list DirEntry :=
  [ ex_script "0002_b.sql" ("-- second" +:+ nl_ +:+ "CREATE INDEX h" +:+ nl_ +:+ "  ON history(id);" +:+ nl_);
    mkDirEntry "old" true (Fail ENotExist); ex_script "notes.txt" "";
    ex_script "0001_a.sql" ("CREATE TABLE history (id);" +:+ nl_ +:+ "CREATE TABLE devices (id);" +:+ nl_);
    ex_script "0003_c.sql" ("bad;" +:+ nl_) ].
(** A database that logs the statements it is given, and refuses one. *)
Definition ex_exec (stmt : string) : M (list string) unit := fun log =>
  if String.eqb stmt "bad;" then (stmt :: log, Fail (EMsg "syntax error")) else (stmt :: log, Ok tt).
Definition ex_sum (body : string) : string := str_take 12 body.
Definition ex_migs : list Migration :=
  match LoadMigrationsFS ex_sum (Ok ex_dir_entries) with Ok l => l | Fail _ => [] end.
Definition ex_schema : Schema (list string) := mkSchema [] ∅.


#[global] Instance ex_thin : ThinCodecs := {|
  thin_created_ID b := hc_ID <$> (unmarshal b : option HistoryCreated);
  thin_tombstoned_HistoryID b := ht_HistoryID <$> (unmarshal b : option HistoryTombstoned);
|}.
#[global] Instance ex_thin_laws : ThinLaws.
Proof. split; intros p Hp; cbn [thin_created_ID thin_tombstoned_HistoryID ex_thin]; by rewrite unmarshal_marshal. Qed.

Definition ex_old_row (id command : string) (ts : Z) (cwd : option string) (deleted : bool) (seq : Z) : OldHistoryRow :=
  mkOldRow id command ts None None (Some 0) cwd (Some "s1"%string) None "dev-a" (Some "bash"%string) deleted (Some "dev-a"%string) (Some seq) ts.
Definition ex_old : gmap string OldHistoryRow :=
  <["id-1"%string := ex_old_row "id-1" "git status" 5 (Some "/src"%string) false 1]>
  {["id-2"%string := ex_old_row "id-2" "ls" 6 None true 2]}.
Definition ex_log : gmap (string * Z) (Event * bool) :=
  <[("dev-a"%string, 1) := (NewHistoryCreated ex_now "dev-a" 1 ex_entry, true)]>
  {[("dev-a"%string, 3) := (NewHistoryTombstoned ex_now "dev-a" 3 (mkHistoryTombstoned "id-2" "dev-a" 2), false)]}.
Definition ex_unmigrated : Local := mkLocal ex_old (set_events ((fun x => fat_row x.1 x.2) <$> ex_log) db_empty).

Lemma ex_old_cases k r : ex_old !! k = Some r ->
  (k = "id-1"%string /\ r = ex_old_row "id-1" "git status" 5 (Some "/src"%string) false 1) \/
  (k = "id-2"%string /\ r = ex_old_row "id-2" "ls" 6 None true 2).
Proof.
  unfold ex_old. rewrite lookup_insert. case_decide as Hk; [intros [= <-]; by left|].
  rewrite lookup_singleton_Some. intros [<- <-]. by right.
Qed.

Lemma hooks_upgrade_witness :
  exists d, (_ ← on_db rewriteSyncEvents; rewriteHistory) ex_unmigrated = (mkLocal ex_old d, Ok tt) /\ wf d /\
    e_Cwd <$> History.Get d "id-1" = Some "/src"%string /\ e_Deleted <$> History.Get d "id-2" = Some true /\
    (er_history_id <$> db_events d !! ("dev-a"%string, 3)) = Some (Some "id-2"%string).
Proof.
  destruct (hooks_upgrade ex_unmigrated ex_log) as (d & E & Hwf & Hget & Hev & _).
  - split.
    + intros k r Hk. by destruct (ex_old_cases _ _ Hk) as [[-> ->]|[-> ->]].
    + intros k k' r r' dev seq Hk Hk' _ _ H1 H2.
      destruct (ex_old_cases _ _ Hk) as [[-> ->]|[-> ->]], (ex_old_cases _ _ Hk') as [[-> ->]|[-> ->]]; simpl in *; congruence.
    + intros k k' r r' cwd Hk Hk' D1 D2 _ _ _ _ _.
      destruct (ex_old_cases _ _ Hk) as [[-> ->]|[-> ->]], (ex_old_cases _ _ Hk') as [[-> ->]|[-> ->]]; simpl in *; congruence.
  - intros k k' r r' Hk Hk' Hh.
    destruct (ex_old_cases _ _ Hk) as [[-> ->]|[-> ->]], (ex_old_cases _ _ Hk') as [[-> ->]|[-> ->]]; simpl in *; try reflexivity;
      vm_compute in Hh; discriminate.
  - split; intros v v' i Hv; simpl in Hv; by rewrite lookup_empty in Hv.
  - reflexivity.
  - intros k x. unfold ex_log. rewrite lookup_insert. case_decide as Hk.
    + intros [= <-]. split; [reflexivity|exact I|vm_compute; discriminate| |intros [=]].
      intros _. exists (created_payload ex_entry). split; [reflexivity|exact I].
    + rewrite lookup_singleton_Some. intros [_ <-]. split; [reflexivity|exact I|vm_compute; discriminate|intros [=]|].
      intros _. exists (mkHistoryTombstoned "id-2" "dev-a" 2). split; [reflexivity|exact I].
  - exists d. split; [exact E|]. split; [exact Hwf|]. rewrite !Hget, Hev. split; [vm_compute; reflexivity|].
    split; [vm_compute; reflexivity|]. vm_compute. reflexivity.
Defined.

(** * Help pages *)

Definition ascii_upper (z : Z) : bool := between 65 90 z.
Definition ascii_letter (z : Z) : bool := between 97 122 z || ascii_upper z.
Definition ascii_digit (z : Z) : bool := between 48 57 z.
Definition ex_lines (ls : list string) : string := join_with nl_ ls.
Definition ex_help : string := ex_lines
  ["NAME"; "   gizmo - make gizmos"; ""; "COMMANDS"; "   build       Build a gizmo"; "   clean       Remove build output"; "";
   "FLAGS"; "   -v, --verbose   print more"].
Definition ex_probe (argv : list string) : result string :=
  if bool_decide (argv = ["gizmo"]%string) then Ok ex_help
  else if bool_decide (argv = ["gizmo"; "build"]%string) then Ok (ex_lines ["NAME"; "   gizmo-build - assemble the parts"])
  else Fail (EMsg "exit status 1").

Example ex_help_parsed : Parse to_lower ascii_letter ascii_upper ascii_digit ex_help =
  [mkEntity "build" "Build a gizmo" KindCommand; mkEntity "clean" "Remove build output" KindCommand;
   mkEntity "-v" "print more" KindFlag; mkEntity "--verbose" "print more" KindFlag].
Proof. vm_compute. reflexivity. Qed.

Lemma NodeSummary_bounded_witness :
  exists s, NodeSummary to_lower ascii_letter ascii_upper ex_help = Some s /\ s = "make gizmos"%string /\ (String.length s <= 640)%nat.
Proof.
  destruct (NodeSummary_bounded to_lower ascii_letter ascii_upper ex_help) as (s & E & Hs).
  - intros s. rewrite to_lower_length. lia.
  - exists s. split; [exact E|]. split; [vm_compute in E; by injection E as <-|exact Hs].
Defined.

Lemma help_pages_roundtrip_witness :
  exists s' l, Save 7 ["gizmo"]%string (Parse to_lower ascii_letter ascii_upper ascii_digit ex_help) "make gizmos" store_empty = (s', Ok tt) /\
    Load ["gizmo"]%string s' = Some (mkPage l "make gizmos") /\ length l = 4%nat.
Proof.
  destruct (help_pages_roundtrip to_lower ascii_letter ascii_upper ascii_digit 7 ["gizmo"]%string ex_help "make gizmos" store_empty)
    as (s' & E & _ & (l & Hl & Hp & _) & _).
  - discriminate.
  - intros k n d [x Hx]. cbn [s_entities store_empty] in Hx. by rewrite lookup_empty in Hx.
  - exists s', l. split; [exact E|]. split; [exact Hl|]. rewrite Hp. vm_compute. reflexivity.
Defined.

Definition ex_session : Session (D := Store) := mkSession ∅ ∅ (Some store_empty) [].
Definition ex_step := session_step (D := Store) (H := store_durable 7) to_lower ascii_letter ascii_upper ascii_digit ex_probe (fun _ => false).
Notation ex_items := (Items (D := Store) (H := store_durable 7) to_lower ascii_letter ascii_upper ascii_digit ex_probe (fun _ => false)).

Lemma run_ok {S A} (m : M S A) s a : (m s).2 = Ok a -> m s = ((m s).1, Ok a).
Proof. intros <-. apply surjective_pairing. Qed.

Lemma help_probed_once_witness :
  exists s, rtc ex_step ex_session s /\ ss_probed s = [["gizmo"]; ["nothing"; "sub"]]%string /\
    NoDup (ArgvKey <$> filter (fun a => dropped ex_probe (fun _ => false) a = false) (ss_probed s)).
Proof.
  pose (s1 := (ex_items "gizmo bu" ex_session).1). pose (s2 := (ex_items "nothing sub x" s1).1). pose (s3 := (ex_items "gizmo " s2).1).
  assert (rtc ex_step ex_session s3) as Hrun.
  { eapply rtc_l; [|eapply rtc_l; [|eapply rtc_l; [|apply rtc_refl]]].
    - eapply (step_Items _ _ _ _ _ _ "gizmo bu" ex_session s1). apply run_ok. vm_compute. reflexivity.
    - eapply (step_Items _ _ _ _ _ _ "nothing sub x" s1 s2). apply run_ok. vm_compute. reflexivity.
    - eapply (step_Items _ _ _ _ _ _ "gizmo " s2 s3). apply run_ok. vm_compute. reflexivity. }
  exists s3. split; [exact Hrun|]. split; [vm_compute; reflexivity|].
  apply (help_probed_once (H := store_durable 7) (DurableLaws0 := store_laws 7) to_lower ascii_letter ascii_upper ascii_digit ex_probe (fun _ => false) (Some store_empty) s3 Hrun).
Defined.

Definition ex_menu : list string := ["gizmo build"; "gizmo clean"]%string.
Definition ex_fill := fill_start (D := Store) (H := store_durable 7) "gizmo " ex_menu [] 0 ex_session.
Definition ex_pool_step :=
  pool_step (D := Store) (H := store_durable 7) to_lower ascii_letter ascii_upper ascii_digit ex_probe (fun _ => false) ex_fill.1.2.
Notation ex_worker := (probeAndPersist (D := Store) (H := store_durable 7) to_lower ascii_letter ascii_upper ascii_digit ex_probe (fun _ => false)).

(** Both rows are taken, and the second is finished first. *)
Lemma FillNodes_any_schedule_witness :
  exists p, rtc ex_pool_step (mkPool 0 [] ex_fill.1.1 ex_fill.2) p /\ pool_done ex_fill.1.2 p /\
    po_out p !! 0%nat = Some "assemble the parts"%string /\ po_out p !! 1%nat = Some EmptyString.
Proof.
  pose (s1 := (ex_worker ["gizmo"; "clean"]%string ex_fill.2).1). pose (s2 := (ex_worker ["gizmo"; "build"]%string s1).1).
  assert (rtc ex_pool_step (mkPool 0 [] ex_fill.1.1 ex_fill.2) (mkPool 2 [] (<[0%nat := "assemble the parts"%string]> ex_fill.1.1) s2)) as Hrun.
  { eapply rtc_l; [apply pool_take; vm_compute; lia|]. eapply rtc_l; [apply pool_take; vm_compute; lia|].
    eapply rtc_l; [eapply (pool_finish _ _ _ _ _ _ _ _ [0%nat] 1%nat [] 1%nat ["gizmo"; "clean"]%string s1 [] EmptyString)|].
    - reflexivity.
    - vm_compute. reflexivity.
    - apply run_ok. vm_compute. reflexivity.
    - eapply rtc_l; [eapply (pool_finish _ _ _ _ _ _ _ _ [] 0%nat [] 0%nat ["gizmo"; "build"]%string s2 [] "assemble the parts"%string)|apply rtc_refl].
      + reflexivity.
      + vm_compute. reflexivity.
      + apply run_ok. vm_compute. reflexivity. }
  assert (pool_done ex_fill.1.2 (mkPool 2 [] (<[0%nat := "assemble the parts"%string]> ex_fill.1.1) s2)) as Hdone by (split; vm_compute; reflexivity).
  eexists. split; [exact Hrun|]. split; [exact Hdone|].
  destruct (FillNodes_any_schedule (H := store_durable 7) (DurableLaws0 := store_laws 7) to_lower ascii_letter ascii_upper ascii_digit ex_probe (fun _ => false)
    "gizmo " ex_menu [] 0 ex_session ex_fill.2 ex_fill.1.1 ex_fill.1.2 (mkPool 2 [] (<[0%nat := "assemble the parts"%string]> ex_fill.1.1) s2)) as (_ & _ & _ & _ & Hout).
  - unfold ex_fill. by destruct (fill_start _ _ _ _ _) as [[]].
  - intros m Hm. assert (ex_fill.1.2 = [(0%nat, ["gizmo"; "build"]); (1%nat, ["gizmo"; "clean"])]%string) as E by (vm_compute; reflexivity).
    rewrite E in Hm. apply elem_of_cons in Hm as [->|Hm]; [|apply list_elem_of_singleton in Hm as ->]; vm_compute; discriminate.
  - exact Hrun.
  - destruct (Hout Hdone) as [Hrow _]. split; [rewrite (Hrow 0%nat ["gizmo"; "build"]%string)|rewrite (Hrow 1%nat ["gizmo"; "clean"]%string)];
      try (vm_compute; reflexivity); apply list_elem_of_In; vm_compute; tauto.
Defined.

(** * Warm-up *)

Definition ex_walk_step := walk_step to_lower ascii_letter ascii_upper ascii_digit ex_probe 7 2 3.
Definition ex_walk (pending active saved : list (list string)) (visited : gset string) (s : Store) : Walk := mkWalk pending visited active false s saved.
Definition ex_save (argv : list string) (s : Store) : Store :=
  match page_of_probe to_lower ascii_letter ascii_upper ascii_digit ex_probe argv with Some (ents, sum) => (Save 7 argv ents sum s).1 | None => s end.
Notation ex_finish := (finish 7 3).

Lemma store_empty_references : references store_empty.
Proof. intros k n d [x Hx]. cbn [s_entities store_empty] in Hx. by rewrite lookup_empty in Hx. Qed.

(** The two commands of [gizmo] are probed at once, and the second is saved
    first. *)
Lemma walk_covers_witness :
  exists w, rtc ex_walk_step (walk_start "gizmo" store_empty) w /\ walk_over w /\
    wk_saved w = [["gizmo"]; ["gizmo"; "clean"]; ["gizmo"; "build"]]%string /\ NoDup (wk_saved w).
Proof.
  pose (w0 := walk_start "gizmo" store_empty).
  pose (es := Parse to_lower ascii_letter ascii_upper ascii_digit ex_help).
  pose (w1 := mkWalk [] (wk_visited w0) [["gizmo"%string]] false (wk_store w0) (wk_saved w0)).
  pose (w2 := ex_finish ["gizmo"%string] es "make gizmos" [] w1).
  pose (w3 := mkWalk [["gizmo"; "clean"]%string] (wk_visited w2) [["gizmo"; "build"]%string] false (wk_store w2) (wk_saved w2)).
  pose (w4 := mkWalk [] (wk_visited w2) [["gizmo"; "build"]; ["gizmo"; "clean"]]%string false (wk_store w2) (wk_saved w2)).
  pose (w5 := ex_finish ["gizmo"; "clean"]%string [] EmptyString [["gizmo"; "build"]%string] w4).
  pose (w6 := ex_finish ["gizmo"; "build"]%string [] "assemble the parts" [] w5).
  assert (rtc ex_walk_step w0 w6) as Hrun.
  { eapply (rtc_l _ _ w1); [apply (walk_take _ _ _ _ _ _ _ _ ["gizmo"%string] [] w0); [reflexivity|reflexivity|apply Nat.ltb_lt; vm_compute; reflexivity]|].
    eapply (rtc_l _ _ w2); [apply (walk_finish _ _ _ _ _ _ _ _ ["gizmo"%string] [] [] es "make gizmos" w1); [reflexivity|vm_compute; reflexivity]|].
    eapply (rtc_l _ _ w3); [apply (walk_take _ _ _ _ _ _ _ _ ["gizmo"; "build"]%string [["gizmo"; "clean"]%string] w2); [vm_compute; reflexivity|reflexivity|apply Nat.ltb_lt; vm_compute; reflexivity]|].
    eapply (rtc_l _ _ w4); [apply (walk_take _ _ _ _ _ _ _ _ ["gizmo"; "clean"]%string [] w3); [reflexivity|reflexivity|apply Nat.ltb_lt; vm_compute; reflexivity]|].
    eapply (rtc_l _ _ w5); [apply (walk_finish _ _ _ _ _ _ _ _ ["gizmo"; "clean"]%string [["gizmo"; "build"]%string] [] [] EmptyString w4); [reflexivity|vm_compute; reflexivity]|].
    eapply (rtc_l _ _ w6); [|apply rtc_refl].
    apply (walk_finish _ _ _ _ _ _ _ _ ["gizmo"; "build"]%string [] [] [] "assemble the parts" w5); [vm_compute; reflexivity|vm_compute; reflexivity]. }
  exists w6. split; [exact Hrun|]. split; [repeat split; vm_compute; reflexivity|]. split; [vm_compute; reflexivity|].
  apply (walk_covers to_lower ascii_letter ascii_upper ascii_digit ex_probe 7 2 3 "gizmo" store_empty w6 store_empty_references Hrun).
Defined.

Lemma walk_terminates_witness :
  exists w', ex_walk_step (walk_start "gizmo" store_empty) w' /\
    (walk_left to_lower ascii_letter ascii_upper ascii_digit ex_probe 3 w' < walk_left to_lower ascii_letter ascii_upper ascii_digit ex_probe 3 (walk_start "gizmo" store_empty))%nat.
Proof.
  destruct (walk_terminates to_lower ascii_letter ascii_upper ascii_digit ex_probe 7 2 3 (walk_start "gizmo" store_empty)) as [Hd He].
  - lia.
  - lia.
  - intros argv. unfold page_of_probe, ex_probe. destruct (bool_decide (argv = _)); [vm_compute; discriminate|].
    destruct (bool_decide (argv = _)); [vm_compute; discriminate|discriminate].
  - destruct (He eq_refl) as [[_ [Hp _]]|(w' & Hs & _)]; [discriminate|]. exists w'. split; [exact Hs|exact (Hd w' Hs)].
Defined.

