(* ===== verification/WitnessesUi.v ===== *)
(** The theorems about the user interface applied to concrete inputs. *)

From S2P Require Import Prelude Text Config Keys Transport Repository Picker PickerSpec LocalFS.
From Stdlib Require Import Ascii.

(** * The folder browser *)

(** A text field that appends the keys it is given. *)
#[global] Instance ex_text : TextInput string string := {|
  ti_New := EmptyString; ti_Value := id; ti_SetValue := fun v _ => v; ti_Focus := id; ti_Update := fun k t => (t +:+ k)%string; key_String := id;
|}.
Definition ex_user : Env := mkEnv (fun _ => EmptyString) (Ok "/home/u"%string) "/tmp" 1.
Definition ex_abs (p : string) : result string := Ok (if has_prefix "/" p then path_clean p else path_join ["/home/u"%string; p]).
Definition ex_eval (f : LFS) (p : string) : result string := abs <$> resolve_path true p f.
Definition ex_probe_at (f : LFS) (p : string) : result Report :=
  if String.eqb p "/home/u/keep" then Ok (mkReport Valid "existing remnix repository") else Ok (mkReport Empty "no objects at this path").
(** A home with a folder that has a file and a link to another folder. *)
Definition ex_home : LFS := mkLFS (list_to_map
  [(["home"], LDir); (["home"; "u"], LDir); (["home"; "u"; "a"], LDir); (["home"; "u"; "a"; "x"], LFile);
   (["home"; "u"; "a"; "l"], LLink "/home/u/keep"); (["home"; "u"; "keep"], LDir); (["home"; "u"; "keep"; "y"], LFile)]%string)
  ["home"; "u"]%string "/home/u".
Definition ex_browse_options (confirm : bool) : Options := mkOptions "" "/home/u" confirm false.

Notation ex_Update := (Picker.Update to_lower id (fun _ => EmptyString) ex_user ex_abs ex_eval ex_probe_at (fun _ _ => false)).
Notation ex_pstep := (pstep (W := LFS) (TI := string) (Key := string) to_lower id (fun _ => EmptyString) ex_user ex_abs ex_eval ex_probe_at (fun _ _ => false)).
Notation ex_New := (Picker.New (W := LFS) (TI := string) to_lower (fun _ => EmptyString) ex_user).

Fixpoint presses (keys : list string) (s : St (W := LFS) (TI := string)) : option St :=
  match keys with
  | [] => Some s
  | k :: keys => if m_quitting (st_m s) then None else match ex_Update (KeyPressMsg k) s with Some (s, _) => presses keys s | None => None end
  end.
Lemma presses_rtc keys s s' : presses keys s = Some s' -> rtc ex_pstep s s'.
Proof.
  revert s. induction keys as [|k keys IH]; intros s; cbn [presses]; [intros [= <-]; apply rtc_refl|].
  destruct (m_quitting (st_m s)) eqn:Eq; [done|]. destruct (Picker.Update _ _ _ _ _ _ _ _ _ s) as [[s1 cmd]|] eqn:E; [|done]. intros Hp.
  eapply rtc_l; [by eapply p_update|by apply IH].
Qed.

Definition ex_browsed (confirm : bool) (keys : list string) : St (W := LFS) (TI := string) :=
  default (ex_New (ex_browse_options confirm) ex_home) (presses keys (ex_New (ex_browse_options confirm) ex_home)).

Lemma picker_deletes_confirmed_witness :
  let s := ex_browsed false ["down"; "d"; "a"; "enter"]%string in
  rtc ex_pstep (ex_New (ex_browse_options false) ex_home) s /\ st_ops s = [OpRemove "/home/u/a" true] /\
  l_nodes (st_fs s) !! ["home"; "u"; "a"; "x"]%string = None /\ l_nodes (st_fs s) !! ["home"; "u"; "keep"; "y"]%string = Some LFile /\
  IsProtected ex_user ex_abs (absolute ex_abs "/home/u/a") = false.
Proof.
  cbv zeta. assert (rtc ex_pstep (ex_New (ex_browse_options false) ex_home) (ex_browsed false ["down"; "d"; "a"; "enter"]%string)) as Hr
    by (apply (presses_rtc ["down"; "d"; "a"; "enter"]%string); vm_compute; reflexivity).
  assert (st_ops (ex_browsed false ["down"; "d"; "a"; "enter"]%string) = [OpRemove "/home/u/a" true]) as Ho by (vm_compute; reflexivity).
  split; [exact Hr|]. split; [exact Ho|]. split; [vm_compute; reflexivity|]. split; [vm_compute; reflexivity|].
  apply (picker_deletes_confirmed to_lower id (fun _ => EmptyString) ex_user ex_abs ex_eval ex_probe_at (fun _ _ => false)
    (ex_browse_options false) ex_home _ "/home/u/a" true Hr). rewrite Ho. by left.
Defined.

Lemma picker_selects_safely_witness :
  let s := ex_browsed true ["down"; "down"; " "; "enter"]%string in
  m_selected (st_m s) = "/home/u/keep"%string /\ m_join (st_m s) = true /\ exists rep, chosen (W := LFS) (st_m s) rep.
Proof.
  cbv zeta. split; [vm_compute; reflexivity|]. split; [vm_compute; reflexivity|].
  destruct (picker_selects_safely to_lower id (fun _ => EmptyString) ex_user ex_abs ex_eval ex_probe_at (fun _ _ => false)
    (ex_browse_options true) ex_home (ex_browsed true ["down"; "down"; " "; "enter"]%string)) as (rep & _ & Hc).
  - apply (presses_rtc ["down"; "down"; " "; "enter"]%string). vm_compute. reflexivity.
  - vm_compute. reflexivity.
  - vm_compute. reflexivity.
  - reflexivity.
  - by exists rep.
Defined.


#[global] Instance lnode_eq_dec : EqDecision lnode.
Proof. solve_decision. Defined.
Definition file_nameb (c : string) : bool :=
  negb (str_empty c) && bool_decide (split_on slash c = [c]) && negb (String.eqb c ".") && negb (String.eqb c "..").
Definition lwfb (n : gmap path lnode) : bool :=
  forallb (fun x => negb (bool_decide (x.1 = [])) && bool_decide (node_at n (removelast x.1) = Some LDir) && forallb file_nameb x.1) (map_to_list n).
Lemma lwfb_ok n : lwfb n = true -> lwf n.
Proof.
  intros Hn. assert (forall k x, n !! k = Some x -> k <> [] /\ node_at n (removelast k) = Some LDir /\ Forall file_name k) as H.
  { intros k x Hk. unfold lwfb in Hn. rewrite forallb_forall in Hn. specialize (Hn (k, x)).
    rewrite !andb_true_iff, negb_true_iff, bool_decide_eq_false, bool_decide_eq_true in Hn. destruct Hn as [[H1 H2] H3]; [by apply list_elem_of_In, elem_of_map_to_list|].
    split_and!; try done. rewrite forallb_forall in H3. apply Forall_forall. intros c Hc%list_elem_of_In. apply H3 in Hc. unfold file_nameb in Hc.
    rewrite !andb_true_iff, !negb_true_iff, bool_decide_eq_true, !String.eqb_neq in Hc. destruct Hc as [[[A B] C] E]. constructor; [by intros ->|done..]. }
  constructor.
  - destruct (n !! []) eqn:E; [|done]. by destruct (H _ _ E) as [? _].
  - intros p c [x Hx]. destruct (H _ _ Hx) as (_ & Hp & _). by rewrite removelast_last in Hp.
  - intros p [x Hx]. by destruct (H _ _ Hx) as (_ & _ & ?).
Qed.

Lemma removeDirNoFollow_exact_witness :
  exists f', local_Remove "/home/u/a" true ex_home = (f', Ok tt) /\ l_nodes f' !! ["home"; "u"; "a"; "l"]%string = None /\
    l_nodes f' !! ["home"; "u"; "keep"; "y"]%string = Some LFile.
Proof.
  destruct (removeDirNoFollow_exact ex_home ["home"; "u"; "a"]%string) as (f' & E & _ & H).
  - apply lwfb_ok. vm_compute. reflexivity.
  - vm_compute. reflexivity.
  - exists f'. split; [exact E|]. rewrite !H. split; vm_compute; reflexivity.
Defined.
