(* ===== verification/WitnessesMenus.v ===== *)
(** The theorems about the popups applied to concrete inputs: a terminal as a
    grid of rows, and two short sessions. *)

From S2P Require Import Prelude Database History Text Utf8 Wire Search Overlay Menus MenusSpec Concrete.
From Stdlib Require Import Ascii.

(** * A terminal *)

(** The text of each row, and the cursor. *)
Record Grid := mkGrid { gr_rows : Z -> string; gr_cursor : Z * Z }.

Section Grid.
Context (R C : Z).

Definition all_nl (s : string) : bool := negb (str_empty s) && str_all (fun c => Ascii.eqb c nl) s.
Definition blank (s : string) : bool := str_all (fun c => Ascii.eqb c " ") s.
Definition style (s : string) : bool := bool_decide (s ∈ [reset_; show_; hide_]).
Definition grid_width (s : string) : Z := if String.eqb s reset_ then 0 else Z.of_nat (String.length s).
Definition grid_truncate (s : string) (n : Z) (tail : string) : string := (str_take (Z.to_nat n) s +:+ tail)%string.
(** What can stand in a row. *)
Definition row_ok (s : string) : bool := negb (str_has nl s) && (grid_width s <=? C) && negb (style s) && negb (negb (str_empty s) && blank s).
Definition grid_row (y : Z) (t : Grid) : string := if row_ok (gr_rows t y) then gr_rows t y else EmptyString.

Definition grid_out (o : Out) (t : Grid) : Grid :=
  match o with
  | OMove row col => mkGrid (gr_rows t) (row - 1, col - 1)
  | OWrite s =>
      if style s then t
      else if all_nl s && ((gr_cursor t).1 =? R - 1) then
        let n := Z.of_nat (String.length s) in mkGrid (fun y => if y + n <? R then gr_rows t (y + n) else EmptyString) (gr_cursor t)
      else mkGrid (fun y => if y =? (gr_cursor t).1 then if blank s then EmptyString else s else gr_rows t y) (gr_cursor t)
  end.
#[local] Instance grid_terminal : Terminal Grid := {| t_run := fun os t => foldl (fun t o => grid_out o t) t os; t_row := grid_row; t_cursor := gr_cursor |}.

Lemma grid_move col row (t : Grid) : 0 <= col -> 0 <= row -> grid_out (MoveTo col row) t = mkGrid (gr_rows t) (row, col).
Proof.
  intros Hc Hr. unfold MoveTo, grid_out. rewrite (proj2 (Z.ltb_ge row 0)), (proj2 (Z.ltb_ge col 0)) by done. f_equal. f_equal; lia.
Qed.
Lemma row_ok_inv s : row_ok s = true -> str_has nl s = false /\ grid_width s <= C /\ style s = false /\ (blank s = true -> s = EmptyString).
Proof.
  unfold row_ok. rewrite !andb_true_iff, !negb_true_iff, Z.leb_le. intros [[[H1 H2] H3] H4]. split_and!; try done. intros Hb. rewrite Hb, andb_true_r in H4. by destruct s.
Qed.
Lemma grid_row_ok y t : grid_row y t = EmptyString \/ row_ok (grid_row y t) = true.
Proof. unfold grid_row. destruct (row_ok _) eqn:E; auto. Qed.
Lemma all_nl_has s : all_nl s = true -> str_has nl s = true.
Proof. unfold all_nl. destruct s as [|c s]; [done|]. cbn. intros [->%Ascii.eqb_eq _]%andb_true_iff. done. Qed.
Lemma str_has_take c n s : str_has c s = false -> str_has c (str_take n s) = false.
Proof.
  revert n. induction s as [|d s IH]; intros [|n] Hs; cbn [str_take]; try done. rewrite str_has_cons in *. apply orb_false_iff in Hs as [-> Hs]. by apply IH.
Qed.
Lemma take_length n s : (String.length (str_take n s) <= n)%nat.
Proof. revert n. induction s as [|d s IH]; intros [|n]; cbn; try lia. specialize (IH n). lia. Qed.
Lemma repeat_S c n : str_repeat (String c EmptyString) (Datatypes.S n) = String c (str_repeat (String c EmptyString) n).
Proof. done. Qed.
Lemma repeat_length_str c n : String.length (str_repeat (String c EmptyString) n) = n.
Proof. induction n as [|n IH]; [done|]. rewrite repeat_S. cbn [String.length]. by rewrite IH. Qed.
Lemma repeat_all c n : str_all (fun d => Ascii.eqb d c) (str_repeat (String c EmptyString) n) = true.
Proof. induction n as [|n IH]; [done|]. rewrite repeat_S. cbn [str_all]. by rewrite Ascii.eqb_refl, IH. Qed.
Lemma repeat_not_style c n : Ascii.eqb c ESC = false -> style (str_repeat (String c EmptyString) n) = false.
Proof. intros Hc. unfold style. apply bool_decide_false. destruct n; rewrite ?repeat_S, !elem_of_cons; intros [E|[E|[E|[]%not_elem_of_nil]]]; [done..|injection E as -> _; done|injection E as -> _; done|injection E as -> _; done]. Qed.

(** Plain text changes the row of the cursor only. *)
Lemma grid_line ws y' (t : Grid) : Forall (fun s => str_has nl s = false) ws -> y' <> (gr_cursor t).1 ->
  gr_rows (foldl (fun t o => grid_out o t) t (OWrite <$> ws)) y' = gr_rows t y'.
Proof.
  revert t. induction ws as [|s ws IH]; intros t Hf Hy; [done|]. apply Forall_cons in Hf as [Hs Hf]. rewrite fmap_cons. cbn [foldl].
  assert (gr_rows (grid_out (OWrite s) t) y' = gr_rows t y' /\ gr_cursor (grid_out (OWrite s) t) = gr_cursor t) as [E1 E2].
  { unfold grid_out. destruct (style s); [done|]. destruct (all_nl s) eqn:En; [by rewrite (all_nl_has s En) in Hs|]. cbn. by rewrite (proj2 (Z.eqb_neq _ _)) by done. }
  rewrite IH; [done|done|by rewrite E2].
Qed.
Lemma blanks_blank n : blank (blanks n) = true /\ style (blanks n) = false /\ all_nl (blanks n) = false.
Proof.
  split_and!; [apply repeat_all|by apply repeat_not_style|]. unfold all_nl, blanks. destruct (Z.to_nat n) as [|k]; [done|]. by rewrite repeat_S.
Qed.
Lemma grid_laws : 1 <= C -> TerminalLaws Grid R C grid_width grid_truncate.
Proof.
  intros HC. constructor; cbn [t_run t_row t_cursor grid_terminal].
  - intros a b t. apply foldl_app.
  - done.
  - intros n y t Hn Hy. cbn [foldl]. rewrite grid_move by lia. unfold grid_row, grid_out. rewrite repeat_not_style by done.
    assert (all_nl (str_repeat (String nl EmptyString) (Z.to_nat n)) = true) as ->.
    { unfold all_nl. rewrite repeat_all. destruct (Z.to_nat n) as [|k] eqn:E; [lia|]. by rewrite repeat_S. }
    cbn [gr_cursor fst]. rewrite Z.eqb_refl. cbn [andb gr_rows]. rewrite repeat_length_str, Z2Nat.id by lia. destruct (y + n <? R); [done|]. by destruct (row_ok EmptyString).
  - intros y ws y' t Hy Hf _ Hne. cbn [foldl]. rewrite grid_move by lia. unfold grid_row. by rewrite grid_line.
  - intros y t Hy. cbn [foldl]. rewrite grid_move by lia. unfold grid_row. destruct (blanks_blank C) as (Hb & Hs & Hn).
    unfold grid_out at 1 2 3 4. rewrite Hs, Hn, Hb. change (style reset_) with true. cbn [andb gr_cursor fst gr_rows]. rewrite Z.eqb_refl. by destruct (row_ok EmptyString).
  - intros y y0 t t0 Hy He. cbn [foldl]. rewrite grid_move by lia. pose proof (grid_row_ok y0 t0) as [Hr|Hr].
    + rewrite Hr. unfold grid_row, grid_out. change (style EmptyString) with false. change (blank EmptyString) with true. cbn [all_nl str_empty negb andb gr_cursor gr_rows fst].
      rewrite Z.eqb_refl. by destruct (row_ok EmptyString).
    + destruct (row_ok_inv _ Hr) as (Hn & _ & Hs & Hb). unfold grid_row at 1, grid_out. rewrite Hs. destruct (all_nl (grid_row y0 t0)) eqn:En; [by rewrite (all_nl_has _ En) in Hn|].
      cbn [andb gr_rows gr_cursor fst]. rewrite Z.eqb_refl. destruct (blank (grid_row y0 t0)) eqn:Eb; [|by rewrite Hr]. rewrite (Hb eq_refl). by destruct (row_ok EmptyString).
  - intros y t. destruct (grid_row_ok y t) as [->|Hr%row_ok_inv]; [split; [done|unfold grid_width; cbn; lia]|tauto].
  - intros y col row t. cbn. done.
  - intros col row t Hr Hc. cbn [foldl]. by rewrite grid_move by lia.
  - intros y s t [-> | ->]; done.
  - done.
  - intros n Hn. unfold grid_width. destruct (String.eqb_spec (blanks n) reset_) as [E|_]; [|unfold blanks; rewrite repeat_length_str; lia].
    pose proof (proj1 (proj2 (blanks_blank n))) as Hs. by rewrite E in Hs.
  - intros s n Hn. unfold grid_width, grid_truncate. rewrite str_app_nil_r. destruct (String.eqb _ _); [done|]. pose proof (take_length (Z.to_nat n) s). lia.
  - intros s n Hs. unfold grid_truncate. rewrite str_app_nil_r. by apply str_has_take.
Qed.
End Grid.

(** * The popup is taken down *)

#[local] Existing Instance grid_terminal.
(** Four rows with the prompt in the second; the popup needs all of them. *)
Definition ex_grid : Grid := mkGrid (fun y => if y =? 0 then "$ ls"%string else if y =? 1 then "$ git"%string else EmptyString) (1, 5).


(** * A search *)

#[local] Instance line_field : TextInput string string := {|
  ti_New := EmptyString; ti_Value := id; ti_SetValue := fun v _ => v; ti_Focus := id; ti_Update := fun k t => (t +:+ k)%string; key_String := id;
|}.
Definition paste (s t : string) : string := (t +:+ s)%string.
Definition ran (cmd : string) (at_ : Time) : Entry :=
  mkEntry cmd cmd at_ None None (Some 0) "/home/u" "" "" "" "" false "" None time_zero.
Definition ex_past : list Entry := [ran "git status" 3000000000; ran "make" 2000000000; ran "git push" 1000000000].
(** Deleting a command is logged. *)
Definition log_delete (e : Entry) : M (list string) unit := fun log => (log ++ [e_Command e], Ok tt).
Notation ex_search := (SearchMenu.Update (W := list string) (TI := string) (Key := string) (Other := string) paste to_lower (fun _ => EmptyString) (Some log_delete) 9000000000).
Fixpoint searched (msgs : list (TMsg string string Empty_set)) (s : SearchMenu.model (TI := string) * list string) : option (SearchMenu.model * list string) :=
  match msgs with
  | [] => Some s
  | msg :: msgs => if SearchMenu.m_quitting s.1 then None else searched msgs (ex_search msg s.1 s.2)
  end.
Notation ex_search_step := (SearchSpec.step (W := list string) (TI := string) (Key := string) (Other := string) paste to_lower (fun _ => EmptyString) (Some log_delete)).
Lemma searched_rtc msgs s s' : searched msgs s = Some s' -> rtc ex_search_step s s'.
Proof.
  revert s. induction msgs as [|msg msgs IH]; intros [m w]; cbn [searched fst snd]; [intros [= <-]; apply rtc_refl|].
  destruct (SearchMenu.m_quitting m) eqn:Eq; [done|]. intros Hs. destruct (ex_search msg m w) as [m1 w1] eqn:E.
  eapply rtc_l; [by eapply SearchSpec.step_Update|by apply IH].
Qed.

(** Two of three entries match; the newest of them is deleted, and the other is
    accepted. *)
Lemma search_popup_correct_witness :
  let start := (SearchMenu.New (TI := string) to_lower 9000000000 ex_past "git" "/home/u" "" "" 40, []) in
  exists m w, searched [KeyPressMsg "ctrl+x"; KeyPressMsg "enter"]%string start = Some (m, w) /\ w = ["git status"]%string /\
    SearchMenu.SelectedCommand m = Some "git push"%string /\ exists e, SearchMenu.highlighted m = Some e /\ e ∈ ex_past /\ "git push"%string = e_Command e.
Proof.
  cbv zeta. destruct (searched _ _) as [[m w]|] eqn:E; [|vm_compute in E; discriminate E]. exists m, w. split; [reflexivity|].
  pose proof (searched_rtc _ _ _ E) as Hrun. assert (w = ["git status"%string] /\ SearchMenu.SelectedCommand m = Some "git push"%string) as [Hw Hs].
  { vm_compute in E. injection E as <- <-. split; reflexivity. }
  split; [exact Hw|]. split; [exact Hs|].
  apply (SearchSpec.search_popup_correct paste to_lower (fun _ => EmptyString) (Some log_delete) 9000000000 ex_past "git" "/home/u" "" "" 40 [] w m Hrun). exact Hs.
Defined.

(** * A completion menu *)

Definition ex_comp (p : string) : list string := List.filter (has_prefix p) ["git add"; "git commit"; "git checkout"; "git"]%string.
Lemma ex_comp_longer p q : has_prefix q p = true -> ex_comp p = List.filter (has_prefix p) (ex_comp q).
Proof.
  intros Hq. unfold ex_comp. rewrite filter_both. apply filter_ext. intros c. destruct (has_prefix p c) eqn:E; [|by rewrite andb_false_r].
  by rewrite (SuggestSpec.has_prefix_trans q p c).
Qed.
Notation ex_menu_Update := (SuggestMenu.Update (TI := string) (Key := string) (Other := string) paste).
Notation ex_menu_step := (SuggestSpec.menu_step (TI := string) (Key := string) (Other := string) paste ex_comp "git ").
Definition ex_items : list suggestItem := suggestItemsFrom (ex_comp "git ") ["add files"]%string.

