(* ===== verification/WitnessesRemote.v ===== *)
(** A remote in memory as an rclone backend, with and without duplicate names,
    with or without a move on the server, and with a move or an update that
    fails. It satisfies the laws the theorems on the rclone transport assume;
    the witnesses apply them to it. *)

From S2P Require Import Prelude Transport Text Rclone RcloneSpec Staged.

Record MemFs := mkMemFs {
  mf_dup : bool;
  mf_move : option bool;    (** no [Move], one that fails, one that works *)
  mf_update : bool;         (** an existing object can be overwritten *)
}.

(** Copies by identifier where names may repeat, contents by path elsewhere. *)
Record Mem := mkMem {
  mb_dup : gmap string Copy;
  mb_flat : gmap string (bytes * Time);
  mb_next : nat;
}.

Definition mem_copies (f : MemFs) (b : Mem) : gmap string Copy :=
  if mf_dup f then mb_dup b else map_imap (fun p x => Some (mkCopy p x.1 x.2)) (mb_flat b).

Definition mem_object (f : MemFs) (addr : nat) (c : string) (cp : Copy) : RObj :=
  mkRObj (cp_path cp) (Z.of_nat (length (cp_data cp))) (cp_time cp)
    (if mf_dup f then Some c else None) None addr.

Definition mem_err (ss : list rsent) : rerr := mkRerr ss "refused".

Definition mem_bound (f : MemFs) (b : Mem) : nat :=
  list_max ((fun x => length (split_on slash (cp_path x.2))) <$> map_to_list (mem_copies f b)).

(** The directories above a path. *)
Definition above (p : string) : list string :=
  (fun i => join_with "/" (take i (split_on slash p))) <$> seq 1 (length (split_on slash p) - 1).

Definition mem_dirs (f : MemFs) (dir : string) (b : Mem) : list string :=
  List.filter (fun d => String.eqb (listParent d) dir && (dir_depth dir <? dir_depth d)%nat &&
                        (dir_depth d <=? mem_bound f b)%nat)
    (remove_dups (x ← map_to_list (mem_copies f b); above (cp_path x.2))).

Definition mem_List (f : MemFs) (dir : string) (b : Mem) : Mem * (list DirEntry + rerr) :=
  let objs := List.filter (fun x => String.eqb (listParent (cp_path x.2)) dir) (map_to_list (mem_copies f b)) in
  (b, inl (imap (fun i x => EObj (mem_object f (S i) x.1 x.2)) objs ++
           ((fun d => EDir (mkRDir d "" None)) <$> mem_dirs f dir b))).

Definition mem_find (f : MemFs) (key : string) (b : Mem) : option (string * Copy) :=
  List.find (fun x => negb (str_empty x.1) && String.eqb (cp_path x.2) key) (map_to_list (mem_copies f b)).

Definition mem_set (f : MemFs) (c : string) (cp : Copy) (b : Mem) : Mem :=
  if mf_dup f then mkMem (<[c := cp]> (mb_dup b)) (mb_flat b) (S (mb_next b))
  else mkMem (mb_dup b) (<[cp_path cp := (cp_data cp, cp_time cp)]> (mb_flat b)) (S (mb_next b)).
Definition mem_unset (f : MemFs) (c : string) (b : Mem) : Mem :=
  if mf_dup f then mkMem (delete c (mb_dup b)) (mb_flat b) (mb_next b)
  else mkMem (mb_dup b) (delete c (mb_flat b)) (mb_next b).

(** An existing object is updated in place; a failed update returns it
    together with the error. *)
Definition mem_Put (f : MemFs) (key : string) (n : Time) (data : bytes) (b : Mem) :
    Mem * (option RObj * option rerr) :=
  let cp := mkCopy key data n in
  match mem_find f key b with
  | Some (c, old) =>
      if mf_update f then (mem_set f c cp b, (Some (mem_object f 0 c cp), None))
      else (b, (Some (mem_object f 0 c old), Some (mem_err [])))
  | None =>
      let c := if mf_dup f then ("i" +:+ pretty (mb_next b))%string else key in
      if bool_decide (mem_copies f b !! c = None)
      then (mem_set f c cp b, (Some (mem_object f 0 c cp), None))
      else (b, (None, Some (mem_err [])))
  end.

Definition mem_copy_of (f : MemFs) (o : RObj) : string := if mf_dup f then objectID o else ro_Remote o.

Definition mem_Remove (f : MemFs) (o : RObj) (b : Mem) : Mem * option rerr := (mem_unset f (mem_copy_of f o) b, None).

Definition mem_Move (f : MemFs) (works : bool) (o : RObj) (final : string) (b : Mem) : Mem * (option RObj + rerr) :=
  match mem_copies f b !! mem_copy_of f o with
  | Some cp =>
      let c := if mf_dup f then mem_copy_of f o else final in
      if works then (mem_set f c (mkCopy final (cp_data cp) (cp_time cp)) (mem_unset f (mem_copy_of f o) b), inl None)
      else (b, inr (mem_err []))
  | None => (b, inr (mem_err [ErrorObjectNotFound]))
  end.

#[global] Instance Mem_rclone : Rclone MemFs Mem := {
  rc_Type := fun _ _ => "memory";
  rc_NewFs := fun _ b => (b, inr (mem_err []));
  rc_Name := fun _ => "memory";
  rc_Features := fun f =>
    mkFeatures Mem (mf_dup f) false false (mem_Move f <$> mf_move f) None None
      (Some (fun _ b => (b, None))) None (Some id);
  rc_List := mem_List;
  rc_NewObject := fun f key b =>
    (b, match mem_find f key b with
        | Some (c, cp) => inl (mem_object f 0 c cp)
        | None => inr (mem_err [ErrorObjectNotFound])
        end);
  rc_Open := fun f o b =>
    (b, match mem_copies f b !! mem_copy_of f o with
        | Some cp => inl (bytes_reader (cp_data cp))
        | None => inr (mem_err [ErrorObjectNotFound])
        end);
  rc_Put := mem_Put;
  rc_Remove := mem_Remove;
  rc_Mkdir := fun _ _ b => (b, None);
  rc_Rmdir := fun _ _ b => (b, None);
}.

(** ** The laws *)

Lemma mem_copy_of_eq f o : copy_of f o = mem_copy_of f o.
Proof. done. Qed.

Lemma mem_copies_flat f b p cp :
  mf_dup f = false -> mem_copies f b !! p = Some cp -> cp_path cp = p.
Proof.
  unfold mem_copies. intros ->. rewrite map_lookup_imap. destruct (mb_flat b !! p) as [x|]; [|done].
  simpl. by intros [= <-].
Qed.

Lemma mem_copies_set f c cp b :
  (mf_dup f = false -> c = cp_path cp) -> mem_copies f (mem_set f c cp b) = <[c := cp]> (mem_copies f b).
Proof.
  unfold mem_copies, mem_set. destruct (mf_dup f); intros H; [done|]. simpl. rewrite (H eq_refl).
  rewrite map_imap_insert. simpl. by destruct cp.
Qed.

Lemma mem_copies_unset f c b : mem_copies f (mem_unset f c b) = delete c (mem_copies f b).
Proof. unfold mem_copies, mem_unset. destruct (mf_dup f); [done|]. simpl. by rewrite map_imap_delete. Qed.

Lemma mem_object_copy_of f a c cp : (mf_dup f = false -> c = cp_path cp) -> mem_copy_of f (mem_object f a c cp) = c.
Proof. unfold mem_copy_of, mem_object, objectID. destruct (mf_dup f); simpl; intros H; [done|]. by rewrite H. Qed.

Lemma ForObject_mem {X} (mk : nat -> X -> RObj) (l : list X) ds :
  ForObject (imap (fun i x => EObj (mk i x)) l ++ ((fun d => EDir (mkRDir d "" None)) <$> ds)) = imap mk l.
Proof.
  unfold ForObject. rewrite omap_app.
  replace (omap _ (_ <$> ds)) with (@nil RObj) by (induction ds as [|d ds IH]; [done|]; exact IH).
  rewrite app_nil_r. revert mk. induction l as [|x l IH]; intros mk; [done|]. rewrite !imap_cons. simpl.
  f_equal. apply (IH (mk ∘ S)).
Qed.

Lemma ForDir_mem {X} (mk : nat -> X -> RObj) (l : list X) ds d :
  d ∈ ForDir (imap (fun i x => EObj (mk i x)) l ++ ((fun d => EDir (mkRDir d "" None)) <$> ds)) -> rd_Remote d ∈ ds.
Proof.
  unfold ForDir. rewrite list_elem_of_omap. intros (e & He & Hd). apply elem_of_app in He as [He|He].
  - apply elem_of_lookup_imap in He as (i & x & -> & _). done.
  - apply list_elem_of_fmap in He as (y & -> & Hy). by injection Hd as <-.
Qed.

Lemma mem_listed f dir b o es :
  mem_List f dir b = (b, inl es) -> o ∈ ForObject es ->
  exists i c cp, o = mem_object f (S i) c cp /\ mem_copies f b !! c = Some cp.
Proof.
  intros [= <-]. rewrite ForObject_mem. intros (i & [c cp] & -> & Hx)%elem_of_lookup_imap.
  apply list_elem_of_lookup_2 in Hx. apply list_elem_of_In, filter_In in Hx as [Hx _].
  apply list_elem_of_In, elem_of_map_to_list in Hx. eauto.
Qed.

Lemma mem_list_nodup f dir b es : mem_List f dir b = (b, inl es) -> NoDup (mem_copy_of f <$> ForObject es).
Proof.
  intros [= <-]. rewrite ForObject_mem, fmap_imap.
  set (l := List.filter _ (map_to_list (mem_copies f b))).
  replace (imap _ l) with (l.*1).
  - apply NoDup_fmap_filter, NoDup_fst_map_to_list.
  - rewrite <- (imap_const fst). apply imap_ext. intros i [c cp] Hx. simpl. symmetry. apply mem_object_copy_of.
    intros Hd. symmetry. apply (mem_copies_flat f b); [done|].
    apply list_elem_of_lookup_2 in Hx. apply list_elem_of_In, filter_In in Hx as [Hx _].
    by apply list_elem_of_In, elem_of_map_to_list in Hx.
Qed.

Lemma mem_find_Some f key b c cp :
  mem_find f key b = Some (c, cp) -> c <> EmptyString /\ cp_path cp = key /\ mem_copies f b !! c = Some cp.
Proof.
  unfold mem_find. intros [Hin Hp]%List.find_some. apply list_elem_of_In, elem_of_map_to_list in Hin.
  apply andb_true_iff in Hp as [Hc Hk%String.eqb_eq]. split; [|done]. intros E. simpl in Hc. by rewrite E in Hc.
Qed.

(** The law of [Put], at the copy it touches. *)
Definition put_effect (f : MemFs) (key : string) (data : bytes) (b b' : Mem) (obj : option RObj)
    (err : option rerr) (c : string) : Prop :=
  (forall c', c' <> c -> mem_copies f b' !! c' = mem_copies f b !! c') /\
  under key (mem_copies f b !! c) /\ under key (mem_copies f b' !! c) /\
  (forall o, obj = Some o -> mem_copy_of f o = c /\ (mf_dup f = true -> objectID o <> EmptyString)) /\
  (err = None -> exists o d tm, obj = Some o /\ mem_copies f b' !! c = Some (mkCopy key d tm) /\
     ro_Size o = Z.of_nat (length d) /\ (length d = length data -> d = data)).

Lemma mem_set_effect f key n data b c :
  (mf_dup f = true -> c <> EmptyString) -> (mf_dup f = false -> c = key) -> under key (mem_copies f b !! c) ->
  put_effect f key data b (mem_set f c (mkCopy key data n) b)
    (Some (mem_object f 0 c (mkCopy key data n))) None c.
Proof.
  intros Hne Hflat Hu. unfold put_effect. rewrite mem_copies_set by done. split_and!; [|done|..].
  - intros c' Hc. by rewrite lookup_insert_ne.
  - rewrite lookup_insert_eq. by intros x [= <-].
  - intros o [= <-]. split; [by apply mem_object_copy_of|]. intros Hd. unfold objectID. simpl. rewrite Hd. auto.
  - intros _. rewrite lookup_insert_eq. by eexists _, _, _.
Qed.

Lemma mem_put_law f key n data b b' obj err : mem_Put f key n data b = (b', (obj, err)) ->
  exists c, put_effect f key data b b' obj err c.
Proof.
  unfold mem_Put. destruct (mem_find f key b) as [[c old]|] eqn:E.
  - apply mem_find_Some in E as (Hne & Hk & Hc).
    assert (mf_dup f = false -> c = key) as Hflat.
    { intros Hd. rewrite <- Hk. symmetry. by apply (mem_copies_flat f b). }
    assert (under key (mem_copies f b !! c)) as Hu by (rewrite Hc; by intros x [= <-]).
    destruct (mf_update f); intros [= <- <- <-]; exists c; [by apply mem_set_effect|].
    split_and!; [done..| |done]. intros o [= <-].
    split; [apply mem_object_copy_of; intros Hd; by rewrite Hk, Hflat|].
    intros Hd. unfold objectID. simpl. by rewrite Hd.
  - set (c := if mf_dup f then _ else key). case_bool_decide as Hc; intros [= <- <- <-].
    + exists c. apply mem_set_effect; [|by unfold c; intros ->|by rewrite Hc].
      unfold c. by intros ->.
    + exists (fresh (dom (mem_copies f b))).
      assert (mem_copies f b !! fresh (dom (mem_copies f b)) = None) as Hf
        by apply not_elem_of_dom, is_fresh.
      unfold put_effect. rewrite Hf. split_and!; done.
Qed.

Lemma mem_move_law f works o final b b' r cp :
  mem_Move f works o final b = (b', r) -> mem_copies f b !! mem_copy_of f o = Some cp ->
  (mem_copies f b' = mem_copies f b /\ exists e, r = inr e) \/
  (exists c tm, mem_copies f b' = <[c := mkCopy final (cp_data cp) tm]> (delete (mem_copy_of f o) (mem_copies f b)) /\
     (c = mem_copy_of f o \/ under final (mem_copies f b !! c))).
Proof.
  unfold mem_Move. intros E Hcp. rewrite Hcp in E. destruct works; injection E as <- <-; [right|left; by eauto].
  eexists _, _. rewrite mem_copies_set, mem_copies_unset by (by intros ->). split; [done|].
  destruct (mf_dup f) eqn:Hd; [by left|]. right. intros x Hx. by apply (mem_copies_flat f b).
Qed.

#[global] Instance Mem_laws : RcloneLaws MemFs Mem.
Proof.
  refine {| copies := mem_copies |}.
  - intros f dir b b' r E. assert (b' = b /\ exists es, r = inl es) as [-> [es ->]] by (injection E; eauto).
    split; [done|]. intros es' [= <-]. split; [by eapply mem_list_nodup|].
    intros o Ho _. destruct (mem_listed _ _ _ _ _ E Ho) as (i & c & cp & -> & Hc).
    exists (cp_data cp). rewrite mem_copy_of_eq, mem_object_copy_of; [split; [|done]; rewrite Hc; by destruct cp|].
    intros Hd. symmetry. by apply (mem_copies_flat f b).
  - exact mem_put_law.
  - intros f o b b' e [= <- <-]. left. apply mem_copies_unset.
  - intros f move o final b b' r cp Hm. simpl in Hm. destruct (mf_move f) as [w|]; [|done].
    injection Hm as <-. apply mem_move_law.
  - done.
  - done.
  - intros f flush b g [= <-]. done.
  - done.
  - intros f merge ds b g [= <-]. done.
Defined.

#[global] Instance Mem_depth : RcloneDepth MemFs Mem.
Proof.
  refine {| rc_bound := mem_bound |}.
  - intros f dir b b' r [= <- <-]. split; [done|]. intros es d [= <-] Hd.
    apply ForDir_mem in Hd. apply list_elem_of_In, filter_In in Hd as [_ Hd].
    apply andb_true_iff in Hd as [[_ H1%Nat.ltb_lt]%andb_true_iff H2%Nat.leb_le]. done.
  - intros f o b. simpl. unfold mem_bound. rewrite mem_copies_unset. apply list_max_le, Forall_forall.
    intros n ([c cp] & -> & Hin)%list_elem_of_fmap. apply elem_of_map_to_list, lookup_delete_Some in Hin as [_ Hin].
    apply elem_of_map_to_list in Hin.
    pose proof (proj1 (list_max_le _ _) (le_n (list_max ((fun x => length (split_on slash (cp_path x.2))) <$>
      map_to_list (mem_copies f b))))) as Hall.
    rewrite Forall_forall in Hall. apply Hall. apply list_elem_of_fmap. by exists (c, cp).
  - done.
  - intros f flush b [= <-]. done.
  - intros f merge ds b [= <-]. done.
Defined.

(** ** Witnesses *)

Definition key1 : string := "metadata/a.json".
Definition data1 : bytes := [Byte.x01].
Definition data2 : bytes := [Byte.x02; Byte.x02].

(** Two copies of one object, the second one newer, and a temporary. *)
Definition drive : MemFs := mkMemFs true None true.
Definition drive_t : RTransport MemFs := mkRTransport drive "gdrive" "remnix".
Definition drive_b : Mem :=
  mkMem (list_to_map [("x", mkCopy key1 data1 5); ("y", mkCopy key1 data2 7);
                      ("z", mkCopy (key1 +:+ ".tmp-0") data1 6)]%string) ∅ 0.

Definition dropbox : MemFs := mkMemFs false (Some true) true.
Definition dropbox_t : RTransport MemFs := mkRTransport dropbox "dropbox" "remnix".
Definition dropbox_b : Mem := mkMem ∅ (list_to_map [(key1, (data1, 5))]) 0.

Definition in_order (A : Type) (l : list (string * A)) : list (string * A) := l.

(** What is stored under each path. *)
Definition remote_stored (f : MemFs) (b : Mem) : list (string * bytes) :=
  (fun x => (cp_path x.2, cp_data x.2)) <$> map_to_list (mem_copies f b).

Lemma rclone_put_contract_witness :
  exists b', PutAtomic id (fun _ => "u"%string) (fun _ => 9) dropbox_t ("/" +:+ key1) (bytes_reader data2) dropbox_b = (b', Ok tt) /\
    remote_stored dropbox b' = [(key1, data2)] /\
    touches dropbox (fun _ => about key1) dropbox_b b'.
Proof.
  eexists. split; [vm_compute; reflexivity|]. split; [vm_compute; reflexivity|].
  exact (proj1 (rclone_put_contract id (fun _ => "u"%string) (fun _ => 9) dropbox_t
    ("/" +:+ key1)%string (bytes_reader data2) true dropbox_b _ (Ok tt) eq_refl)).
Defined.

Lemma dedupe_keeps_newest_witness :
  remote_stored drive (Dedupe id in_order 3 drive_t drive_b).1 = [(key1, data2)] /\
  thins drive_t drive_b (Dedupe id in_order 3 drive_t drive_b).1.
Proof.
  split; [vm_compute; reflexivity|].
  exact (dedupe_keeps_newest id in_order (fun A l => Permutation_refl l) drive_t 3 drive_b).
Defined.

Lemma rclone_recursion_ends_witness :
  mem_bound drive drive_b = 2%nat /\
  length (walk drive_t 3 "" drive_b).2.1 = 3%nat /\
  walk drive_t (3 + 5) "" drive_b = walk drive_t 3 "" drive_b.
Proof.
  split; [vm_compute; reflexivity|]. split; [vm_compute; reflexivity|].
  apply (rclone_recursion_ends id in_order drive_t 2 5 "" drive_b).
  apply Nat.leb_le. vm_compute. reflexivity.
Defined.

(** * A working copy and a remote that are maps *)

Abbreviation Objs := (gmap string bytes).

Definition map_Get (k : string) : M Objs Reader := fun s =>
  (s, match s !! k with Some d => Ok (bytes_reader d) | None => Fail ENotExist end).
Definition map_Put (k : string) (r : Reader) : M Objs unit := fun s =>
  match ReadAll r with Ok d => (<[k := d]> s, Ok tt) | Fail e => (s, Fail e) end.
Definition map_List (p : string) : M Objs (list Object) := fun s =>
  (s, Ok ((fun x => mkObject x.1 (Z.of_nat (length x.2))) <$> map_to_list s)).
Definition map_store : Transport Objs :=
  mkTransport Objs map_List map_Get map_Put map_Put (fun k s => (delete k s, Ok tt))
    (fun _ => mret []) (fun _ => mret tt) false None None None.

#[global] Instance map_object_store : ObjectStore map_store.
Proof.
  refine {| objects := id; store_inv := fun _ => True; store_key := fun _ => True; store_prefix := fun _ => True |}.
  - intros k s s' r _ [= <- <-]. split_and!; [done..|]. intros _. unfold id. by destruct (s !! k).
  - intros p s s' r _ [= <- <-]. split_and!; [done..|]. intros l o [= <-] (x & -> & Hx)%list_elem_of_fmap.
    split; [done|]. destruct x as [k d]. apply elem_of_map_to_list in Hx. by exists d.
  - done.
  - intros p s s' r _ [= <- <-]. split_and!; [done..|]. intros _ l d [= <-] _. done.
  - intros k rd s s' r _ _ E. simpl in E. unfold map_Put, ReadAll in E. destruct (rd_err rd); by injection E as <- <-.
  - intros k s s' r _ _ [= <- <-]. split_and!; [done|apply delete_subseteq|..].
    + intros k' [d Hd] Hn. unfold id in *. left. apply lookup_delete_None in Hn as [?|?]; [done|congruence].
    + intros _. apply lookup_delete_eq.
Defined.

(** A remote that answers, or not. *)
Record Host := mkHost { h_files : Objs; h_down : list bool }.
Definition next_call (h : Host) : bool := default false (head (h_down h)).
Definition after_call (files : Objs) (h : Host) : Host := mkHost files (tail (h_down h)).

(** The copying programs, by their last argument. *)
Definition copy_run (name : string) (args : list string) (s : Stage Objs Host) : Stage Objs Host * option error :=
  let h := sg_remote s in
  if next_call h then (mkStage (sg_work s) (after_call (h_files h) h), Some (EMsg "exit status 1"))
  else if bool_decide (last args ∈ [Some "/stage"; Some "/stage/"]%string)
  then (mkStage (h_files h ∪ sg_work s) (after_call (h_files h) h), None)
  else (mkStage (sg_work s) (after_call (sg_work s ∪ h_files h) h), None).

Definition ex_scp : SCP := mkSCP "host" "me" "/srv/remnix" 2222 "/stage".
Definition ex_rsync : Rsync := mkRsync "me@host:/srv/remnix" "/stage".
Definition no_mkdir (_ : string) : M Objs unit := mret tt.

Lemma copy_pulls name args :
  last args ∈ [Some "/stage"; Some "/stage/"]%string -> pulls map_store copy_run h_files name args.
Proof.
  intros Hl s s' e _. unfold copy_run. destruct (next_call (sg_remote s)); [by intros [= <- <-]|].
  rewrite bool_decide_true by done. by intros [= <- <-].
Qed.
Lemma copy_pushes name args :
  last args ∉ [Some "/stage"; Some "/stage/"]%string -> pushes map_store copy_run h_files name args.
Proof.
  intros Hl s s' e _. unfold copy_run. destruct (next_call (sg_remote s)); [by intros [= <- <-]|].
  rewrite bool_decide_false by done. intros [= <- <-]. split_and!; [done..|]. simpl. intros k Hk.
  unfold objects. simpl. unfold id. apply lookup_union_is_Some. by right.
Qed.

(** A session that writes one object, and one that removes one. *)
Definition scp_session (fn : M (Stage Objs Host) unit) : M (Stage Objs Host) unit :=
  WithSession (Staged.scp map_store copy_run no_mkdir ex_scp) (fun _ m => m) fn.
Definition on_scp : Transport (Stage Objs Host) := Staged.scp map_store copy_run no_mkdir ex_scp.

Lemma staged_session_publishes_witness :
  let s := mkStage ∅ (mkHost {["a"%string := data1]} []) in
  let s' := mkStage {["a"%string := data1; "b"%string := data2]} (mkHost {["a"%string := data1; "b"%string := data2]} []) in
  scp_session (tr_PutAtomic on_scp "b" (bytes_reader data2)) s = (s', Ok tt) /\
  h_files (sg_remote s') = objects (tr := map_store) (sg_work s') ∪ h_files (sg_remote s).
Proof.
  intros s s'. assert (scp_session (tr_PutAtomic on_scp "b" (bytes_reader data2)) s = (s', Ok tt)) as E
    by (vm_compute; reflexivity).
  split; [exact E|].
  refine (proj1 (staged_session_publishes map_store copy_run no_mkdir h_files _ ex_scp ex_rsync _ s s' (Ok tt) _ _ _ _ _ I (or_introl E)) eq_refl).
  - done.
  - apply copy_pulls. vm_compute. set_solver.
  - apply copy_pushes. vm_compute. set_solver.
  - apply copy_pulls. vm_compute. set_solver.
  - apply copy_pushes. vm_compute. set_solver.
  - by apply put_on_copy.
Defined.
