(* ===== verification/WitnessesConfig.v ===== *)
(** Concrete files for the configuration writer: the struct encoded by its
    [yaml] tags, and a user's file with comments, in an order of its own. *)

From S2P Require Import Prelude Text Config ConfigWrite ConfigWriteSpec.
From Stdlib Require Import Ascii.

(** ** The encoding of the struct

    Field by field, with the names and the [omitempty] of the tags. *)
Definition omit_str (k v : string) : list (string * node) := if str_empty v then [] else [(k, plain v)].
Definition omit_int (k : string) (v : Z) : list (string * node) :=
  if v =? 0 then [] else [(k, scalar "!!int" (sprint_d v))].
Definition of_bool (v : bool) : node := scalar "!!bool" (if v then "true" else "false").
Definition omit_ptr (k : string) (v : option bool) : list (string * node) :=
  match v with None => [] | Some b => [(k, of_bool b)] end.
Definition omit_bool (k : string) (v : bool) : list (string * node) := if v then [(k, of_bool v)] else [].
Definition omit_list (k : string) (l : list node) : list (string * node) :=
  match l with [] => [] | _ => [(k, sequence 0 l)] end.
Definition omit_map (k : string) (l : list (string * node)) : list (string * node) :=
  match l with [] => [] | _ => [(k, mapping l)] end.

Definition field (k : string) (n : node) : list (string * node) := [(k, n)].

Definition encode_endpoint (e : Endpoint) : node :=
  mapping (field "id" (plain (ep_ID e)) ++ field "type" (plain (ep_Type e)) ++ omit_str "name" (ep_DisplayName e) ++
    field "enabled" (of_bool (ep_Enabled e)) ++ omit_str "rclone_remote" (ep_RcloneRemote e) ++
    omit_str "provider" (ep_Provider e) ++ omit_str "path" (ep_Path e) ++ omit_str "remote" (ep_Remote e) ++
    omit_str "host" (ep_Host e) ++ omit_str "user" (ep_User e) ++ omit_int "port" (ep_Port e)).
Definition encode_sync (s : SyncConfig) : node :=
  mapping (omit_ptr "enabled" (sy_Enabled s) ++ omit_str "interval" (sy_Interval s) ++
    omit_str "gc_interval" (sy_GCInterval s) ++ omit_str "rclone_engine" (sy_RcloneEngine s) ++
    omit_list "endpoints" (encode_endpoint <$> sy_Endpoints s) ++ omit_list "callbacks" (plain <$> sy_Callbacks s)).
Definition encode_suggest (s : Suggest) : node :=
  let i := su_Icons s in
  mapping (omit_ptr "enabled" (su_Enabled s) ++ omit_ptr "menu" (su_Menu s) ++ omit_int "menu_max" (su_MenuMax s) ++
    omit_ptr "completions" (su_Completions s) ++
    omit_map "icons" (omit_str "typed" (si_Typed i) ++ omit_str "history" (si_History i) ++
      omit_str "completion" (si_Completion i)) ++
    omit_list "accept" (plain <$> su_Accept s)).
Definition encode_colors (c : Colors) : node :=
  let s := co_Syntax c in
  mapping (omit_str "accent" (co_Accent c) ++ omit_str "title" (co_Title c) ++ omit_str "muted" (co_Muted c) ++
    omit_str "rule" (co_Rule c) ++ omit_str "select" (co_Select c) ++ omit_str "badge" (co_Badge c) ++
    omit_str "duration" (co_Duration c) ++ omit_str "failed" (co_Failed c) ++ omit_str "time" (co_Time c) ++
    omit_str "text" (co_Text c) ++
    field "syntax" (mapping (omit_str "command" (sc_Command s) ++ omit_str "keyword" (sc_Keyword s) ++
      omit_str "flag" (sc_Flag s) ++ omit_str "string" (sc_String s) ++ omit_str "comment" (sc_Comment s) ++
      omit_str "operator" (sc_Operator s) ++ omit_str "variable" (sc_Variable s) ++ omit_str "path" (sc_Path s) ++
      omit_str "number" (sc_Number s) ++ omit_str "argument" (sc_Argument s)))).
Definition encode_icons (i : Icons) : node :=
  mapping (omit_str "cursor" (ic_Cursor i) ++ omit_str "suggestion_typed" (ic_SuggestionTyped i) ++
    omit_str "suggestion_history" (ic_SuggestionHistory i) ++
    omit_str "suggestion_completion" (ic_SuggestionCompletion i) ++ omit_str "separator" (ic_Separator i) ++
    omit_str "move_up_down" (ic_MoveUpDown i)).
Definition encode_config (c : Config) : result node :=
  let u := cf_UI c in
  Ok (mapping (field "version" (scalar "!!int" (sprint_d (cf_Version c))) ++ field "sync" (encode_sync (cf_Sync c)) ++
    field "daemon" (mapping (omit_str "compact_interval" (dc_CompactInterval (cf_Daemon c)) ++
      omit_str "config_watch_interval" (dc_ConfigWatchInterval (cf_Daemon c)))) ++
    field "suggest" (encode_suggest (cf_Suggest c)) ++
    field "pty_proxy" (mapping (omit_ptr "enabled" (pp_Enabled (cf_PtyProxy c)) ++
      omit_int "height" (pp_Height (cf_PtyProxy c)))) ++
    field "ui" (mapping (field "colors" (encode_colors (ui_Colors u)) ++ field "icons" (encode_icons (ui_Icons u)))) ++
    omit_bool "disable_auto_migrate" (cf_DisableAutoMigrate c))).

(** ** A file and the configuration that was loaded from it *)

Definition commented (c : string) (n : node) : node :=
  mkNode (n_Kind n) (n_Style n) (n_Tag n) (n_Value n) (n_Anchor n) c (n_LineComment n) (n_FootComment n) (n_Content n).

(** [# where], [# the stick], an endpoint and no [sync.enabled]; the arrow of
    the typed suggestion is the user's. *)
Definition user_tree : node :=
  document (mkNode MappingNode 0 "!!map" "" "" "" "" "" (
    [commented "# how it looks" (plain "suggest");
     mapping [("icons"%string, mapping [("typed"%string, commented "# an arrow" (quoted ">"))])];
     plain "version"; scalar "!!int" "2";
     commented "# where" (plain "sync");
     mapping [("endpoints"%string, sequence 0 [
        mapping [("id"%string, commented "# the stick" (plain "usb")); ("type"%string, plain "directory");
                 ("enabled"%string, of_bool true); ("path"%string, plain "/media/usb")]])]])).
Definition user_text : string := "suggest: {icons: {typed: '>'}} # and so on".
Definition unmarshal (s : string) : result node :=
  if String.eqb s user_text then Ok user_tree else Fail (EMsg "not that file").

Definition usb : Endpoint := mkEndpoint "usb" "directory" "" true "" "" "/media/usb" "" "" "" 0.
Definition user_config : Config :=
  let d := Default (mkEnv (fun _ => EmptyString) (Ok "/home/u"%string) "/tmp" 1) in
  mkConfig 2 "dev" "name" (cf_DatabasePath d) (mkSyncConfig None "" "" "" [usb] []) (cf_Daemon d)
    (mkSuggest None None 0 None (mkSuggestIcons ">" "" "") []) (cf_PtyProxy d) (cf_UI d) false.

(** The interval was changed since. *)
Definition edited_config : Config :=
  mkConfig 2 "dev" "name" (cf_DatabasePath user_config) (mkSyncConfig None "10m" "" "" [usb] []) (cf_Daemon user_config)
    (cf_Suggest user_config) (cf_PtyProxy user_config) (cf_UI user_config) false.

Definition written_value (c : Config) (existing : string) : val :=
  match userTree encode_config unmarshal c existing with Ok t => val_of (stripSchemaComments t) | Fail _ => VOther end.

(** The update and the first write. *)
Lemma written_configuration_witness :
  vget ["sync"; "interval"]%string (written_value edited_config user_text) = Some (VScalar "!!str" "10m") /\
  exists tree d, userTree encode_config unmarshal edited_config user_text = Ok tree /\
    n_Content (stripSchemaComments tree) = [d] /\
    noted ["sync"]%string d d = Some (("# where", "", "")%string, ("", "", "")%string).
Proof.
  destruct (encode_config edited_config) as [fresh|] eqn:Ef; [|by vm_compute in Ef].
  assert (wf fresh) as Hf by (apply wf_check_sound; injection Ef as <-; vm_compute; reflexivity).
  destruct (written_configuration encode_config unmarshal edited_config user_text fresh Ef Hf) as (tree & Ht & [Hw _] & Hc).
  { intros _. injection Ef as <-. vm_compute. reflexivity. }
  { intros _. eexists _, _. split_and!; [reflexivity..|]. apply wf_check_sound. vm_compute. reflexivity. }
  unfold written_value. rewrite Ht. split.
  - apply Hw; [injection Ef as <-; vm_compute; reflexivity|done].
  - destruct (Hc _ _ eq_refl eq_refl eq_refl) as (d & Hd & Hn). exists tree, d. split_and!; [done..|].
    refine (Hn ["sync"]%string _ eq_refl _). injection Ef as <-. vm_compute. by eexists.
Defined.
