(* ===== verification/WitnessesInspect.v ===== *)
(** A small history for the inspector: two commands with their runs, a store
    that is the list of them, and a session that checks runs and deletes
    them. *)

From S2P Require Import Prelude Database Text Config History Advanced Search Menus Inspect InspectSpec.
Import Inspector.

#[local] Instance typed_line : TextInput string string := {|
  ti_New := EmptyString; ti_Value := id; ti_SetValue := fun v _ => v; ti_Focus := id; key_String := id;
  ti_Update := fun k t => (t +:+ k)%string;
|}.

(** An expression is a text that is looked for; one is not accepted. *)
Definition ex_compile_text (s : string) : option string := if String.eqb s "[" then None else Some s.
Definition ex_error_text (e : error) : string := match e with EMsg m => m | _ => "error" end.

Definition run_of (id cmd : string) (ts exit : Z) : Entry :=
  mkEntry id cmd ts None None (Some exit) "/home/u" "s1" "box" "dev-a" "bash" false "dev-a" None ts.
Definition ex_runs_listed : list Entry :=
  [run_of "1" "make" 10 0; run_of "2" "ls" 20 0; run_of "3" "make" 30 2; run_of "4" "make" 40 0]%string.

Definition of_command (c : string) (w : list Entry) : list Entry := List.filter (fun e => String.eqb (e_Command e) c) w.
Definition summaries (w : list Entry) : list CommandSummary :=
  (fun c => SummarizeRuns c (of_command c w)) <$> remove_dups (e_Command <$> w).
Definition stats_of (w : list Entry) : Stats := mkStats (len w) 0 1 1 0 0.
Definition forget (ids : list string) (w : list Entry) : list Entry :=
  List.filter (fun e => negb (bool_decide (e_ID e ∈ ids))) w.

Definition ex_inspect_options : @InspectOptions (list Entry) string :=
  mkInspectOptions (stats_of ex_runs_listed) (summaries ex_runs_listed)
    (Some (fun _ _ w => Ok (summaries w, stats_of w)))
    (Some (fun _ f w => Ok (summaries (FilterEntries contains w f), stats_of w)))
    (Some (fun c w => Ok (of_command c w)))
    None
    (Some (fun c w => (List.filter (fun e => negb (String.eqb (e_Command e) c)) w, Ok tt)))
    None
    (Some (fun l w => (forget (e_ID <$> l) w, Ok tt)))
    false.

Abbreviation ex_inspect_update := (Inspector.Update (Key := string) id (fun _ t => t) ex_compile_text contains sql_lower
  (fun _ _ => None) ex_error_text ex_inspect_options).
Abbreviation ex_inspect_new := (Inspector.NewInspect (Key := string) id (fun _ t => t) ex_compile_text contains sql_lower
  (fun _ _ => None) ex_error_text ex_inspect_options).
Abbreviation ex_istep := (istep (Key := string) id (fun _ t => t) ex_compile_text contains sql_lower
  (fun _ _ => None) ex_error_text ex_inspect_options).

Notation ISt := (@St (list Entry) string string).
Definition press_key (s : ISt) (k : string) : ISt := (ex_inspect_update 50 (KeyPressMsg k) s).1.
Definition press_keys (ks : list string) : ISt := foldl press_key (ex_inspect_new 50 ex_runs_listed).1 ks.

Lemma press_keys_run ks : rtc ex_istep (press_keys []) (press_keys ks).
Proof.
  induction ks as [|k ks IH] using rev_ind; [apply rtc_refl|]. eapply rtc_r; [exact IH|].
  assert (press_keys (ks ++ [k]) = press_key (press_keys ks) k) as -> by (unfold press_keys; by rewrite foldl_snoc).
  pose proof (inv_run _ _ _ _ _ _ _ _ 50 ex_runs_listed _ IH) as Hi.
  destruct (proj1 (wp_run _ _ _) (Update_spec id (fun _ t => t) ex_compile_text contains sql_lower (fun _ _ => None)
    ex_error_text ex_inspect_options 50 (KeyPressMsg k) _ Hi)) as ([] & s' & E & _).
  unfold press_key. rewrite E. by eapply is_msg.
Qed.

(** Two runs are checked, and y is pressed at the prompt. *)
Definition checked_session : list string := ["enter"; "space"; "down"; "space"; "ctrl+x"]%string.

Lemma inspector_deletes_checked_witness :
  let s := press_keys checked_session in
  rtc ex_istep (press_keys []) s /\
  exists s', ex_inspect_update 50 (KeyPressMsg "y"%string) s = (s', Ok tt) /\
    (exists l, st_ops s' = [DelEntries l] /\ e_ID <$> l = ["1"; "3"]%string) /\ e_ID <$> st_w s' = ["2"; "4"]%string.
Proof.
  intros s. assert (rtc ex_istep (press_keys []) s) as Hr by apply press_keys_run. split; [exact Hr|].
  destruct (inspector_deletes_checked id (fun _ t => t) ex_compile_text contains sql_lower (fun _ _ => None) ex_error_text
    ex_inspect_options 50 ex_runs_listed s 50 (KeyPressMsg "y"%string) Hr) as (s' & ds & E & [Ho Hw] & _ & Hy).
  assert (ds = [DelEntries (i_confirmEntries (st_m s))]) as ->.
  { apply Hy; [|by left]. split_and!; [vm_compute; reflexivity|by vm_compute|]. vm_compute. split; reflexivity. }
  exists s'. split; [exact E|]. split.
  - eexists. split; [rewrite Ho; vm_compute; reflexivity|vm_compute; reflexivity].
  - rewrite Hw. vm_compute. reflexivity.
Defined.

(** A store that refuses deletions. *)
Definition ex_refusing : @InspectOptions (list Entry) string :=
  mkInspectOptions (stats_of ex_runs_listed) (summaries ex_runs_listed)
    (Some (fun _ _ w => Ok (summaries w, stats_of w))) None (Some (fun c w => Ok (of_command c w))) None None None
    (Some (fun _ w => (w, Fail (EMsg "database is locked")))) false.
Definition refused_keys (ks : list string) : ISt :=
  let up k s := (Inspector.Update (Key := string) id (fun _ t => t) ex_compile_text contains sql_lower (fun _ _ => None)
                   ex_error_text ex_refusing 50 (KeyPressMsg k) s).1 in
  foldl (fun s k => up k s) (Inspector.NewInspect (Key := string) id (fun _ t => t) ex_compile_text contains sql_lower
    (fun _ _ => None) ex_error_text ex_refusing 50 ex_runs_listed).1 ks.
