(* ===== verification/Findings.v ===== *)
(** Behaviours of the code that its own documentation does not announce, each
    shown by one run of the model on concrete data. *)

From S2P Require Import Rclone RcloneSpec Staged WitnessesRemote.
From S2P Require Import ConfigWrite ConfigWriteSpec WitnessesConfig Inspect InspectSpec WitnessesInspect.
From S2P Require Import Picker LocalFS WitnessesUi HelpCache HelpCacheSpec Warmup.
From S2P Require Import Overlay Menus WitnessesMenus.
From S2P Require Import Prelude Database History Frontier Event Device Merge Bundle Snapshot Keys.
From S2P Require Import KeyStore Transport Gc Directory Roster Engine Text Advanced Importers Utf8 Config Keyring App Cache Service.
From Stdlib Require Import Ascii.
From S2P Require Import HelpParse Search Redact Terminal Wire Daemon Concrete Witnesses WitnessesApp WitnessesStore.

(** ** Garbage collection with two incomparable checkpoints

    [c1] holds the events of [dev-a] and every required device has
    acknowledged it; [c9] holds those of [dev-b] and has made more progress. *)
Definition ex_other_ckpt : Manifest := mkManifest 1 "c9" "gen-1" {["dev-b" := 10]} 9.
Definition ex_two_ckpts : FS :=
  ex_put ["checkpoints"; "c9"; "manifest"]%string (EncodeManifest ex_other_ckpt) ex_remote.

(** The events of a device up to [seq] can still be read from the remote: from
    the bundle [key], or from a checkpoint that covers them. *)
Definition retrievable (key dev : string) (seq : Z) (s : FS) : bool :=
  bool_decide (is_Some (objects (tr := ex_dir) s !! key)) ||
  match (listCheckpoints ex_dir s).2 with
  | Ok l => existsb (fun m => Covers (m_Frontier m) dev seq) l
  | Fail _ => false
  end.

Definition gc_run (required : list string) (s : FS) : FS * result unit :=
  match Evaluate ex_dir required "" s with
  | (s1, Ok plan) => Execute ex_dir plan false s1
  | (s1, Fail e) => (s1, Fail e)
  end.

(** With two incomparable checkpoints on the remote, one run of Evaluate and Execute deletes an
    acknowledged bundle together with the only checkpoint that covers it: the events are then in no
    bundle and in no checkpoint. *)
Theorem gc_drops_acknowledged_events :
  retrievable "events/dev-a/b1" "dev-a" 3 ex_two_ckpts = true /\
  (gc_run ["dev-a"; "dev-b"]%string ex_two_ckpts).2 = Ok tt /\
  retrievable "events/dev-a/b1" "dev-a" 3 (gc_run ["dev-a"; "dev-b"]%string ex_two_ckpts).1 = false.
Proof. vm_compute. split; [reflexivity|split; reflexivity]. Qed.

(** ** A checkpoint that is the first to report a deletion

    The device holds the first two events of [dev-a]; the third deletes the
    second command. A checkpoint made after the deletion raises the head past
    the tombstone but inserts no row over the live one, and the tombstone itself
    is then skipped. *)
Definition ex_behind : ES unit :=
  let s := (applyEvents ex_now (take 2 ex_evs) ex_s0).1 in
  set_es_db (AdvanceContiguous "dev-a" (es_db s)).1 s.
Definition ex_snapshot : bytes :=
  match PackSnapshot ex_nonce (History.List_ all_entries ex_db) ex_smk with
  | Ok (nonce, ct) => EncodeFile nonce ct
  | Fail _ => []
  end.
Definition ex_bootstrapped : ES unit * result unit :=
  (_ ← BootstrapFromCheckpoint ex_options ex_now ex_smk ex_ckpt ex_snapshot; applyEvents ex_now ex_evs) ex_behind.

(** When a checkpoint is the first to report a deletion, bootstrapping from it leaves the live
    row live while the head moves past the tombstone, so the tombstone event that follows is skipped
    and the entry stays visible. *)
Theorem bootstrap_loses_deletion :
  (e_Deleted <$> History.Get ex_db "id-2") = Some true /\
  ex_bootstrapped.2 = Ok tt /\
  at_ (db_heads (es_db ex_bootstrapped.1)) "dev-a" = 3 /\
  (e_Deleted <$> History.Get (es_db ex_bootstrapped.1) "id-2") = Some false.
Proof. vm_compute. repeat split. Qed.

(** ** What the daemon announces and does not serve *)
Theorem announced_but_unknown (id : Z) (payload : bytes) s :
  "history.import"%string ∈ ops_listed /\ "history.stats"%string ∈ ops_listed /\
  ex_dispatch (mkRequest 1 id "history.import" "" payload) s = (s, Ok (EncodeErr id "unknown op history.import")) /\
  ex_dispatch (mkRequest 1 id "history.stats" "" payload) s = (s, Ok (EncodeErr id "unknown op history.stats")).
Proof. split; [decide_closed|]. split; [decide_closed|]. split; reflexivity. Qed.

(** ** A synchronization that half succeeds

    One endpoint delivers a command, another one fails: the database has the
    command, the error hides the change set, and the cache is neither updated
    nor marked dirty. *)
Definition ex_half : AppOps (App FS MemoryState) :=
  mkOps _ ap_db (ao_set_db ex_ops) (fun _ => Ok ex_smks)
    (fun a => let '(d, r) := Insert ex_now (with_ID "id-7" ex_entry3) (ap_db a) in
       (mkApp d (ap_remotes a) (ap_keyring a) (ap_locked a),
        Ok (AddCreated (with_ID "id-7" ex_entry3) cs_zero, Some EOffline)))
    (mret tt) (mret tt) (mret (plan_zero, None)) (mret tt) (mret tt) (Ok tt).
Definition ex_after_half : Server (App FS MemoryState) string :=
  (runSyncCycle ex_half ex_config (Ok 1) ex_text false false (ex_server ex_two ex_cache)).1.

Theorem partial_sync_leaves_cache_behind :
  e_Command <$> History.Get (ap_db (sr_app ex_after_half)) "id-7" = Some "digit"%string /\
  c_dirty (sr_cache ex_after_half) = false /\
  e_Command <$> AllUnique (sr_cache ex_after_half) = e_Command <$> AllUnique ex_cache /\
  bool_decide ("digit"%string ∈ e_Command <$> AllUnique (sr_cache ex_after_half)) = false.
Proof. vm_compute. repeat split. Qed.

(** ** A key ring that cannot be read

    The error reaches the status file but not the status in memory, so an
    explicit synchronization answers with success while nothing was
    synchronized. *)
Definition ex_locked_ring : AppOps (App FS MemoryState) :=
  mkOps _ ap_db (ao_set_db ex_ops) (fun _ => Fail (EMsg "keyring is locked"))
    (mret (cs_zero, None)) (mret tt) (mret tt) (mret (plan_zero, None)) (mret tt) (mret tt) (Ok tt).
Definition ex_sync_now : Server (App FS MemoryState) string * result Response :=
  dispatch ex_locked_ring ex_config ex_compile ex_match ex_env ex_files "laptop" "/src" None None ex_now ex_uuids
    (Ok 1) id_lower ex_text false [] [] (fun _ => Fail (EMsg "no session")) (Ok 0)
    (mkRequest 1 5 "sync.now" "" []) (ex_server ex_two ex_cache).

Theorem sync_now_hides_keyring_error :
  (st_OK <$> sr_file ex_sync_now.1) = Some false /\
  ex_sync_now.2 = Ok (EncodeOK 5 (pl_encode EmptyString)).
Proof. vm_compute. repeat split. Qed.

(** ** Key sequences *)

(** An escape before a mode change hides it from the stripper. *)
Theorem stripper_misses_doubled_escape :
  keyboardModeStripper_feed EmptyString (String ESC "[>1u") = (EmptyString, EmptyString) /\
  keyboardModeStripper_feed EmptyString (String ESC (String ESC "[>1u")) = (EmptyString, String ESC (String ESC "[>1u")).
Proof. vm_compute. repeat split. Qed.

(** A control byte inside a sequence, which terminals execute before they go
    on with the sequence, makes the stripper drop the sequence's beginning and
    pass its end as text; the key decoder forwards both parts. *)
Theorem stripper_tears_interrupted_sequences :
  keyboardModeStripper_feed EmptyString (String ESC ("[3" +:+ String "010"%char "1m")) =
    (EmptyString, String "010"%char "1m") /\
  kittyKeyDecoder_feed EmptyString (String ESC ("[3" +:+ String "010"%char "1m")) =
    (EmptyString, String ESC ("[3" +:+ String "010"%char "1m")).
Proof. vm_compute. repeat split. Qed.

(** ** The largest frame

    A frame of exactly the largest length starts with byte 1, and the control
    socket takes it for the other protocol. *)
Theorem largest_frame_is_misread :
  (exists t, PutUint32 maxFrame = String "001"%char t) /\
  forall s out rest, handleControl ex_ops ex_config ex_compile ex_match ex_env ex_files "laptop" "/src" None None ex_now ex_uuids
      (Ok 1) id_lower id_lower ex_text false [] [] (fun _ => Fail (EMsg "no session")) (Ok 0)
      (fun _ _ => mret EmptyString) (fun _ _ => mret EmptyString) (mkConn (PutUint32 maxFrame +:+ rest) out s) =
    serveNUL ex_ops ex_config ex_compile ex_match ex_env ex_files "laptop" "/src" None ex_now ex_uuids
      (Ok 1) id_lower id_lower ex_text (fun _ _ => mret EmptyString) (fun _ _ => mret EmptyString)
      (mkConn (PutUint32 maxFrame +:+ rest) out s).
Proof. split; [eexists; vm_compute; reflexivity|]. intros s out rest. reflexivity. Qed.

(** ** The inspector's filters *)

(** All entries come from one host: an expression that matches it selects
    nothing, although it accepts every entry in memory. *)
Theorem expression_of_all_hosts_finds_nothing :
  let f := ex_filter None None (Some "laptop"%string) in
  length (FilterEntries contains (History.List_ all_entries ex_inspected) f) = 3%nat /\ ex_found ex_inspected f = [].
Proof. vm_compute. split; reflexivity. Qed.

(** The expression [pu?sh|git st] matches [git status]; its text up to the
    first special character, which the command must contain, is [pu]. *)
Definition ex_alternative (re s : string) : bool := contains "push" s || contains "psh" s || contains "git st" s.
Theorem literal_prefix_of_alternative :
  let f := mkAdvanced (Some "pu?sh|git st"%string) "" None None None None None None false None None None SortRecent 0 in
  RegexLiteralPrefix "pu?sh|git st" = "pu"%string /\ ex_alternative "pu?sh|git st" "git status" = true /\
  cs_Command <$> CommandSummariesAdvanced ex_alternative (fun re => re) f ex_inspected = ["git push"]%string.
Proof. vm_compute. split; [reflexivity|split; reflexivity]. Qed.

(** One summary is asked for, and a matching one exists; the query takes the
    newest command first and then finds that it does not match. *)
Theorem limit_before_expression :
  let f := mkAdvanced (Some "[g]it"%string) "" None None None None None None false None None None SortRecent 1 in
  let g_it (re s : string) := contains "git" s in
  CommandSummariesAdvanced g_it (fun re => re) f ex_inspected = [] /\
  length (FilterEntries g_it (History.List_ all_entries ex_inspected) f) = 3%nat.
Proof. vm_compute. split; reflexivity. Qed.

(** An expression for the exit status that matches the empty text keeps the
    entries without a status in SQL; in memory they are dropped. *)
Theorem exit_expression_on_missing_status :
  let f := mkAdvanced None "" None None None None None (Some ""%string) false None None None SortRecent 0 in
  let d := (InsertExec ex_now (mkEntry "id-9" "vi" 9000000 None None None "/src" "s1" "laptop" "dev-a" "bash" false "" None 9000000) db_empty).1 in
  ex_found d f = ["vi"]%string /\ FilterEntries contains (History.List_ all_entries d) f = [].
Proof. vm_compute. split; reflexivity. Qed.

(** ** Imported history files *)

(** The last quotation mark of a fish command is taken for a delimiter. *)
Theorem fish_import_drops_quote :
  let q := String quote EmptyString in
  rc_Command <$> (parseFish (mkReader ("- cmd: echo " +:+ q +:+ "hi" +:+ q +:+ String nl "  when: 1") None)).1 =
    [("echo " +:+ q +:+ "hi")%string].
Proof. vm_compute. reflexivity. Qed.

(** The name of a directory decides the format. *)
Theorem directory_name_decides_kind :
  DetectKind "/home/fisher/.bash_history" "ls" = "fish"%string /\
  ReadHistfile (Ok (mkReader (unlines ["ls"; "make"]%string) None)) "/home/fisher/.bash_history" "auto" = ([], None) /\
  rc_Command <$> (ReadHistfile (Ok (mkReader (unlines ["ls"; "make"]%string) None)) "/home/ann/.bash_history" "auto").1 = ["ls"; "make"]%string.
Proof. vm_compute. split; [reflexivity|split; reflexivity]. Qed.

(** A command of one millisecond is imported as one of sixteen minutes; one
    nanosecond more and it is a millisecond again. *)
Theorem atuin_short_durations : durationToMs 1000000 = 1000000 /\ durationToMs 1000001 = 1.
Proof. split; reflexivity. Qed.

(** ** Help texts *)

(** Lowering the capital I with a dot above (two bytes) to the ASCII letter
    makes a text shorter: the position of a full stop is then outside the
    lowered text, and reading it panics. *)
Definition dotted : string := String "196" (String "176" EmptyString).
Definition lower_dotted (s : string) : string := to_lower (replace_all s dotted "i").
Theorem summary_panics_on_dotted_capitals :
  let name := (dotted +:+ dotted +:+ dotted +:+ dotted +:+ dotted)%string in
  let help := ex_lines ["DESCRIPTION"; name +:+ ". Run"]%string in
  NodeSummary lower_dotted ascii_letter ascii_upper help = None /\
  NodeSummary to_lower ascii_letter ascii_upper help = Some (name +:+ ".")%string.
Proof. vm_compute. split; reflexivity. Qed.

(** The three separators of a NAME line are the same: a dash that is not the
    ASCII one separates nothing. *)
Theorem summary_needs_ascii_dash :
  nameDashSummary "gizmo - make gizmos" = "make gizmos"%string /\
  nameDashSummary ("gizmo " +:+ EncodeRune 8211 +:+ " make gizmos") = EmptyString /\
  nameDashSummary ("gizmo " +:+ EncodeRune 8212 +:+ " make gizmos") = EmptyString.
Proof. vm_compute. split; [reflexivity|split; reflexivity]. Qed.

(** ** The folder browser *)

(** Lowering a letter of two bytes to one of three makes the common prefix of
    two names longer than the name it is cut from. *)
Definition stroked : string := EncodeRune 570.
Definition lower_stroked (s : string) : string := to_lower (replace_all s stroked (EncodeRune 11365)).
Theorem completion_panics_on_longer_lower_case :
  longestCommonPrefix lower_stroked [stroked +:+ stroked +:+ "a"; stroked +:+ stroked +:+ "b"]%string = None /\
  longestCommonPrefix to_lower ["build-a"; "Build-b"]%string = Some "build-"%string.
Proof. vm_compute. split; reflexivity. Qed.

(** A count that stopped at the limit is reported as exact. *)
Theorem truncated_count_is_called_exact :
  local_CountChildren "/home/u" 5 ex_home = (5, true) /\ local_CountChildren "/home/u" 3 ex_home = (3, true).
Proof. vm_compute. split; reflexivity. Qed.

(** ** The warm-up *)

(** A program that answers every subcommand with the same page has a tree
    without end, and its warm-up, which has no depth limit unless one is given,
    never ends. *)
Definition same_page (argv : list string) : result string := Ok (ex_lines ["COMMANDS"; "   again       Do it again"])%string.
Notation same_node := (node to_lower ascii_letter ascii_upper ascii_digit same_page 0).
Lemma same_page_nodes n : same_node "loop" ("loop" :: repeat "again" n)%string.
Proof.
  induction n as [|n IH]; [apply node_root|]. replace (repeat "again"%string (Datatypes.S n)) with (repeat "again"%string n ++ ["again"%string]) by (by rewrite <- repeat_cons).
  apply (node_child _ _ _ _ _ _ _ ("loop" :: repeat "again" n)%string [mkEntity "again" "Do it again" KindCommand] EmptyString (mkEntity "again" "Do it again" KindCommand));
    [exact IH|vm_compute; reflexivity|reflexivity|by left|vm_compute; reflexivity].
Qed.
Theorem unlimited_warmup_never_ends (jobs : nat) (w : Walk) :
  rtc (walk_step to_lower ascii_letter ascii_upper ascii_digit same_page 7 jobs 0) (walk_start "loop" store_empty) w -> ~ walk_over w.
Proof.
  intros Hrun Hover. pose proof (walk_inv_run _ _ _ _ _ _ _ _ _ _ _ store_empty_references Hrun) as Hi.
  pose (n := max_list (length <$> wk_saved w)). pose proof (walk_over_saved _ _ _ _ _ _ _ _ _ Hi Hover _ (same_page_nodes n)) as Hin.
  assert (length ("loop" :: repeat "again" n)%string <= n)%nat as Hle by (apply max_list_elem_of_le, list_elem_of_fmap; eauto).
  cbn in Hle. rewrite repeat_length in Hle. lia.
Qed.

(** Pages are kept under the base name of the program, and purged under the
    name it was warmed by: warming a path leaves the old pages in place. *)
Theorem path_is_not_purged :
  let s := (Save 7 ["/opt/gizmo"; "gone"]%string [] "an old page" store_empty).1 in
  Load ["/opt/gizmo"; "gone"]%string (Purge ["/opt/gizmo"]%string s).1 = Some (mkPage [] "an old page") /\
  Load ["gizmo"; "gone"]%string (Purge ["gizmo"]%string (Save 7 ["gizmo"; "gone"]%string [] "an old page" store_empty).1).1 = None.
Proof. vm_compute. split; reflexivity. Qed.

(** The launcher writes the first status after the worker runs, without the
    lock: a program a client was told is queued is lost. *)
Theorem start_overwrites_queue :
  let w0 := start_launch 42 (mkWorld None 0 ∅) in
  let w1 := job_update (job_begin 42 1 ["git"]%string) w0 in
  let w2 := Enqueue ["docker"]%string w1 in
  let w3 := WriteJob (start_status 1000000000 ["git"]%string 42) w2.1 in
  (exists st, w2.2 = Ok (st, ["docker"]%string)) /\ jb_Queued (ReadJob w3) = [] /\ jb_Tools (ReadJob w3) = ["git"]%string.
Proof. vm_compute. split; [by eexists|split; reflexivity]. Qed.

(** ** The completion menu *)

(** A text field that knows backspace. *)
Definition editing : TextInput string string := {|
  ti_New := EmptyString; ti_Value := id; ti_SetValue := fun v _ => v; ti_Focus := id; key_String := id;
  ti_Update := fun k t => if String.eqb k "backspace" then str_take (String.length t - 1) t else (t +:+ k)%string;
|}.
Notation edited := (SuggestMenu.Update (H := editing) (Other := string) paste).
Notation opened p := (SuggestMenu.newSuggestModel (H := editing) p [] [] true ∅ 40).

(** Completions that arrive after the text was shortened are cached for the
    shorter text: the menu shows only some of its completions, and asking for
    more is refused. *)
Theorem late_completions_under_shorter_text :
  let m := edited (ItemsMsg (SuggestMenu.Items (suggestItemsFrom (ex_comp "git c") []))) (edited (KeyPressMsg "backspace"%string) (opened "git c"%string)) in
  SuggestMenu.prefix (H := editing) m = "git "%string /\ it_cmd <$> SuggestMenu.s_items m = ["git commit"; "git checkout"]%string /\
  ex_comp "git " = ["git add"; "git commit"; "git checkout"]%string /\
  let up := edited (KeyPressMsg "up"%string) m in edited (KeyPressMsg "ctrl+space"%string) up = up.
Proof. vm_compute. repeat split; reflexivity. Qed.

(** Text that is pasted does not filter the rows: a row that does not extend
    it stays selected, and is inserted. *)
Theorem paste_keeps_stale_rows :
  let m := edited (OtherMsg "add"%string) (edited (ItemsMsg (SuggestMenu.Items (suggestItemsFrom (ex_comp "git c") []))) (opened "git "%string)) in
  SuggestMenu.prefix (H := editing) m = "git add"%string /\
  SuggestMenu.SelectedCommand (edited (KeyPressMsg "enter"%string) m) = Some "git commit"%string.
Proof. vm_compute. split; reflexivity. Qed.

(** When the terminal gets smaller than the row the popup was opened at, the
    popup is placed below the last row. *)
Theorem shrunk_terminal_hides_popup :
  let g := SearchMenu.resize 80 20 (mkGeometry 80 40 true 20 10 30 50) in
  g_height g = 20 /\ g_overlayH g = 10 /\ g_overlayY g = 20.
Proof. vm_compute. repeat split; reflexivity. Qed.

(** ** The rclone transport *)

Notation rclone_write f b := (Rclone.PutAtomic id (fun _ => "u"%string) (fun _ => 9) (mkRTransport f "remote" "remnix") key1 (bytes_reader data2) b).

(** The object at the destination is removed before the rename: when the
    rename fails the atomic write fails and the old object is gone. *)
Theorem failed_move_loses_object :
  let f := mkMemFs false (Some false) true in
  let w := rclone_write f dropbox_b in
  remote_stored f dropbox_b = [(key1, data1)] /\ is_Ok w.2 = false /\ remote_stored f w.1 = [].
Proof. vm_compute. repeat split; reflexivity. Qed.

(** A failed upload removes the object the library returned with the error:
    where an existing object is updated in place, that is the old object. *)
Theorem failed_update_deletes_object :
  let f := mkMemFs true None false in
  let b := mkMem {["x"%string := mkCopy key1 data1 5]} ∅ 0 in
  let w := rclone_write f b in
  remote_stored f b = [(key1, data1)] /\ is_Ok w.2 = false /\ remote_stored f w.1 = [].
Proof. vm_compute. repeat split; reflexivity. Qed.

(** A missing path is mapped to [os.ErrNotExist], which [ClassifyHealth] does
    not know: the endpoint is reported as unknown, not as not found. *)
Theorem missing_path_is_unknown ToLower e :
  isRcloneNotFound e = true -> hs_State (ClassifyHealth (Some (mapErr ToLower e))) = HealthUnknown.
Proof. unfold mapErr. by intros ->. Qed.

(** ** The staged transports *)

(** A removal is not pushed: the session succeeds, the object stays on the
    remote, and the next session brings it back. *)
Theorem removed_object_comes_back :
  let s := mkStage ∅ (mkHost {["a"%string := data1]} []) in
  let w := scp_session (tr_Remove on_scp "a") s in
  w.2 = Ok tt /\ sg_work w.1 = ∅ /\ h_files (sg_remote w.1) !! "a"%string = Some data1 /\
  sg_work (PullSession on_scp w.1).1 !! "a"%string = Some data1.
Proof. vm_compute. repeat split; reflexivity. Qed.

(** A pull that fails goes unnoticed, and the push then replaces a newer
    object of the remote by the old one of the working copy. *)
Theorem failed_pull_publishes_stale :
  let s := mkStage {["a"%string := data1]} (mkHost {["a"%string := data2]} [true]) in
  let w := scp_session (tr_PutAtomic on_scp "b" (bytes_reader data1)) s in
  w.2 = Ok tt /\ h_files (sg_remote w.1) !! "a"%string = Some data1.
Proof. vm_compute. split; reflexivity. Qed.

(** ** The configuration writer *)

(** A file with an enabled endpoint and no [sync.enabled] synchronizes; saving
    the configuration that was loaded from it, unchanged, turns that off. *)
Theorem saving_turns_sync_off :
  Sync_IsEnabled (cf_Sync user_config) = true /\
  vget sync_enabled (written_value user_config user_text) = Some (bool_val false) /\
  (forall s, sy_Enabled s = Some false -> Sync_IsEnabled s = false).
Proof. split_and!; [vm_compute; reflexivity..|]. intros s Hs. unfold Sync_IsEnabled. by rewrite Hs. Qed.

(** A custom icon under [suggest.icons] is used until the file is saved: then
    the default is under [ui.icons], which goes first. The first write of a
    file does the same. *)
Theorem saving_replaces_icon :
  IconTyped (Some user_config) = ">"%string /\
  (forall text, text ∈ [user_text; EmptyString] ->
     vget ["ui"; "icons"; "suggestion_typed"]%string (written_value user_config text) = Some (VScalar "!!str" "›")) /\
  (forall c, ic_SuggestionTyped (ui_Icons (cf_UI c)) = "›"%string -> IconTyped (Some c) = "›"%string).
Proof.
  split_and!; [vm_compute; reflexivity|..].
  - intros text. rewrite !elem_of_cons, elem_of_nil. intros [->|[->|[]]]; vm_compute; reflexivity.
  - intros c Hc. unfold IconTyped. rewrite Hc. vm_compute. reflexivity.
Qed.

(** A file indented by tabs inside flow braces is written back with block
    mappings indented by tabs, which YAML does not allow. *)
Theorem tabs_are_written :
  let tab := String TAB EmptyString in
  let nl := String LF EmptyString in
  let existing := ("sync: {" +:+ nl +:+ tab +:+ "interval: 5m" +:+ nl +:+ "}" +:+ nl)%string in
  yi_tabs (detectYAMLIndent existing) = true /\
  encodeUserYAML (fun _ _ => Ok ("sync:" +:+ nl +:+ "    interval: 5m" +:+ nl)%string) (mapping []) (detectYAMLIndent existing) =
  Ok (schemaComment +:+ nl +:+ "---" +:+ nl +:+ "sync:" +:+ nl +:+ tab +:+ "interval: 5m" +:+ nl)%string.
Proof. vm_compute. split; reflexivity. Qed.

(** ** The history inspector *)

(** In the list of runs, g changes the chart and space checks a run: neither
    can be typed into the filter of that list. *)
Theorem runs_filter_refuses_keys :
  Inspector.i_input (Inspector.st_m (press_keys ["enter"; "g"; "i"; " "; "t"]%string)) = "it"%string.
Proof. vm_compute. reflexivity. Qed.

(** While a field of the criteria cannot be read, the rows are not refreshed
    after a deletion: the deleted command stays, with its old number of runs. *)
Theorem deleted_command_stays :
  let s := press_keys ["ctrl+f"; "ctrl+w"; "["; "enter"; "ctrl+x"]%string in
  e_ID <$> Inspector.st_w s = ["2"]%string /\
  (fun x => (cs_Command x, cs_Runs x)) <$> Inspector.i_visible (Inspector.st_m s) = [("make", 3); ("ls", 1)]%string.
Proof. vm_compute. split; reflexivity. Qed.

(** The prompt is not shown while an error is: after a deletion that failed,
    the next one asks without saying so, and y confirms it. *)
Theorem prompt_hidden_by_error :
  let m := Inspector.st_m (refused_keys ["enter"; "ctrl+x"; "space"; "down"; "space"; "ctrl+x"]%string) in
  Inspector.i_confirmN m = 2 /\ Inspector.renderInspectHelp m = Inspector.HelpStatus "database is locked".
Proof. vm_compute. split; reflexivity. Qed.

(** Check all compares numbers, not rows: with as many hidden rows checked as
    are shown, it unchecks them instead. *)
Theorem check_all_unchecks :
  let before := Inspector.st_m (press_keys ["enter"; "space"; "2"]%string) in
  let after := Inspector.st_m (press_keys ["enter"; "space"; "2"; "ctrl+a"]%string) in
  e_ID <$> Inspector.i_runVisible before = ["3"]%string /\ Inspector.i_selectedRuns before = {["1"%string]} /\
  Inspector.i_selectedRuns after = ∅.
Proof. vm_compute. repeat split; reflexivity. Qed.

(** A relative time of some centuries overflows the 64 bits of a duration and
    lies in the future. *)
Theorem relative_time_overflows now :
  Inspector.parseInspectTime (fun _ _ => None) "300y" now false = Some (now + 8985944073709551616) /\
  Inspector.parseInspectTime (fun _ _ => None) "200y" now false = Some (now - 200 * 365 * 24 * 3600 * 1000000000).
Proof.
  unfold Inspector.parseInspectTime. cbv zeta.
  assert (forall s n u, trim_space s = s -> Inspector.relativeTime s = Some (n, u) -> str_empty s = false -> sql_lower s <> "now"%string ->
    forall d, wrap64 (- wrap64 (default max_int64 (Atoi n) * u)) = d ->
    (if str_empty (trim_space s) then None else if String.eqb (sql_lower (trim_space s)) "now" then Some now
     else match Inspector.relativeTime (trim_space s) with
          | Some (ds, u) => Some (now + wrap64 (- wrap64 (default max_int64 (Atoi ds) * u)))
          | None => None
          end) = Some (now + d)) as H.
  { intros s n u Ht Hr He Hn d Hd. rewrite Ht, Hr, He, (proj2 (String.eqb_neq _ _) Hn), Hd. done. }
  split.
  - apply (H "300y"%string "300"%string (365 * Inspector.Day)); vm_compute; (reflexivity || discriminate).
  - rewrite <- Z.add_opp_r. apply (H "200y"%string "200"%string (365 * Inspector.Day)); vm_compute; (reflexivity || discriminate).
Qed.
